(* ===== verification/_CoqProject ===== *)
-Q . S2P
Prelude.v
Float64.v
FloatExact.v
Mass.v
Fee.v
Planner.v
PlannerProps.v
Consolidation.v
Db.v
PayoutRepo.v
PayoutSpec.v
Effects.v
KasCycle.v
KasExecute.v
KasSafety.v
KasDemo.v
ConsolidateEngine.v
FeeModel.v
Domain.v
Events.v
Bytes.v
Hasher.v
DupGuard.v
MiningState.v
Stratum.v
StratumWrite.v
Listener.v
TreasuryLock.v
KaspaApi.v
ShareHandler.v
ShareProps.v
ShareDemo.v
Vardiff.v
AntiAbuse.v
ClientHandler.v
NewBlock.v
AccountRepo.v
Api.v
Consumer.v
ConsumerProps.v
Replay.v
BridgeFeed.v
Accountant.v
AccountantProps.v
ShareStats.v
ApiViews.v
ApiCache.v
Rebate.v
TierKasplex.v
Krc20Plan.v
Krc20PlanProps.v
Krc20Cycle.v
Krc20Execute.v
Krc20Spec.v
Krc20Safety.v
Krc20Demo.v
RuntimeConfig.v
ApiServer.v
Runtime.v
Server.v
Tracker.v
BridgeFile.v
Metrics.v
MetricsProps.v
Web.v
Standalone.v
