(* ===== verification/Prelude.v ===== *)
(** * Katpool: a verification development of a Kaspa mining pool

    Katpool turns mining work into payments.  The parts and how they meet:

    - the stratum bridge (bridge/) hands jobs to miners, checks their shares
      and publishes [PoolEvent]s on a broadcast channel;
    - the accountant (accountant/) consumes the events into tables, follows
      the pool's coinbase rewards to maturity and divides each among the
      wallets that worked for it;
    - the KAS payout engine (payout-kas/) pays confirmed balances out of the
      treasury once per DAA window, and the consolidation engine merges the
      treasury's small coins;
    - the KRC-20 payout engine (payout-krc20/) pays the fee rebate in NACHO
      by commit/reveal inscriptions;
    - all meet in Postgres (crates/katpool-db), share the treasury under an
      advisory lock (crates/katpool-idempotency), and use the transaction
      planner (crates/katpool-storagemass) and the domain types
      (crates/katpool-domain).

    ** Files

    Foundations.  [Prelude]: [exec] (a Rust computation that may abort),
    [result], machine integers, lists, automation.  [Float64]: binary64 on the
    Standard Library's specification floats, and [ShareDifficulty].  [FloatExact]:
    integers below 2^53 in doubles.  [Bytes]:
    fixed-width encodings and prefix-freeness.  [Db], [PayoutRepo],
    [AccountRepo]: the tables with their CHECK, UNIQUE and foreign-key
    constraints, and one definition per query of payout.rs, block.rs,
    coinbase_reward.rs, nacho_rebate.rs, share_window.rs, share_allocation.rs.
    [Domain], [Events]: address.rs, worker.rs, hash.rs, score.rs, events.rs,
    redact.rs.  [Effects]: the world of a payout service, a database and a
    node that answer, refuse, lose the acknowledgement of a commit, or stop
    answering because the process died.  [TreasuryLock]: the guard of
    crates/katpool-idempotency over any server that keeps the documented laws
    of session advisory locks.

    Planner.  [Mass], [Fee], [Planner], [PlannerProps], [Consolidation]:
    types.rs, evaluator.rs, tx_build.rs, fee.rs, planner.rs, consolidation.rs.

    KAS payouts.  [KasCycle] (window.rs, plan.rs, cycle.rs, confirm.rs),
    [KasExecute] (signer.rs, execute.rs, engine.rs), [KasSafety], [KasDemo];
    [ConsolidateEngine] (consolidate/engine.rs, treasury.rs).

    KRC-20 payouts.  [Rebate] (rebate.rs, quote.rs), [Krc20Plan] and
    [Krc20PlanProps] (inscription.rs, plan.rs, sign.rs), [Krc20Cycle]
    (cycle.rs), [Krc20Execute] (execute.rs, engine.rs), [Krc20Spec],
    [Krc20Safety], [Krc20Demo].

    Accountant.  [FeeModel] (config.rs), [Accountant] and [AccountantProps]
    (window.rs, allocation.rs, tier.rs, maturity.rs), [Tracker] (kaspad_grpc.rs,
    the loop of maturity.rs, accountant-tracker-runner.rs), [TierKasplex]
    (tier_kasplex.rs), [Consumer] and [ConsumerProps] (consumer.rs with wallet.rs, worker.rs, share.rs,
    share_reject.rs, connection_session.rs), [Replay] (replay.rs), [ShareStats]
    (share_stats.rs and the aggregates over rejects and sessions).

    Bridge.  [Hasher] (hasher.rs), [MiningState] (mining_state.rs), [Stratum]
    (jsonrpc_event.rs, stratum_context.rs, handshake helpers), [StratumWrite]
    (the concurrent write path of stratum_context.rs), [DupGuard],
    [ShareHandler], [ShareProps], [ShareDemo], [Vardiff] (share_handler.rs),
    [AntiAbuse] (anti_abuse.rs), [ClientHandler] (client_handler.rs,
    default_client.rs), [NewBlock] (its rounds over the clients), [Listener] (the read loop of stratum_listener.rs),
    [KaspaApi] (kaspaapi.rs), [Server] (stratum_server.rs, net_utils.rs, the
    accept loop of stratum_listener.rs, the template listener of kaspaapi.rs),
    [BridgeFile] (app_config.rs and the settings endpoints of prom.rs),
    [Metrics], [MetricsProps] (the counters and statistics of
    prom.rs), [Web] (the HTTP server of prom.rs), [Standalone] (cli.rs, main.rs,
    app_dirs.rs).
    [BridgeFeed] puts the bridge and the consumer together.

    API.  [Api] (money.rs, params.rs, config.rs, error.rs, state.rs and the
    paged lists of the handlers), [ApiViews] (models.rs and every data handler),
    [ApiCache] (the queries, their cache keys and the response caches),
    [ApiServer] (lib.rs: the route table and the layers around it).

    Process.  [RuntimeConfig] (the configuration of katpool/src/main.rs,
    crates/katpool-config, crates/katpool-secrets, the settings of pool.rs) and
    [Runtime] (the commands, the assembly of the services, the timer loops, the
    recorder and the readiness bridge of katpool/src/main.rs).

    ** What the theorems show

    - Money leaves once and exactly: [KasSafety.broadcast_at_most_once] and
      [broadcast_pays_exactly] over every interruption of every tick (the latter
      ties inputs, outputs, change and fee to the node's answers of the tick that
      sent them, which [sys_run] records),
      [Krc20Safety.krc20_never_double_pays] and [krc20_credits_exactly] with
      the refinement [Krc20Spec.krc20_tick_refines],
      [ConsolidateEngine.consolidation_tick_safe], one engine at a time
      ([TreasuryLock.treasury_exclusive]), the spend cap and the
      evidence a confirmation needs.  [Runtime.spending_needs_consent] says what
      the operator has to set before anything is sent at all, and
      [Runtime.run_payout_now_safe] that the command on demand keeps the
      engine's guarantees.
    - The books balance: [AccountantProps.tracker_sweep_keeps_books],
      [split_reward_exact], [FeeModel.compute_allocation_spec]; the tracker
      changes only what the node reports ([Tracker.tracker_follows_node]).
    - Work is credited once: [ShareProps.handle_submit_safe],
      [ConsumerProps.consumer_credits_once] and, end to end,
      [BridgeFeed.submission_credits_at_most_once]; events are well typed and
      failed handlers leave no trace; a recorded run without faults can be rebuilt
      from its log, up to what [serde_json] makes of printed difficulties
      ([Runtime.recorded_run_replays], on [Replay]).
    - Plans are sound, complete and terminate: the theorems of
      [PlannerProps], [Consolidation], [Krc20PlanProps].
    - The repository refines a lifecycle with final states ([PayoutSpec]).
    - Encodings and rings: block hashes, job messages, the pre-PoW hash input,
      the job ring, the duplicate guard; every connection is accounted for from
      its accept to its end ([Server.server_accounts_for_connections]); new templates
      reach each client once per round and at most every 250 ms
      ([NewBlock.jobs_rate_limited]); however a
      connection's bytes are cut into reads, their lines are handled whole and in
      order ([Listener]); a wallet is
      Elite only on evidence ([TierKasplex]).
    - The node gets each block once and is only asked for templates that pay
      the pool ([KaspaApi]); the API prints amounts exactly and its pages
      cover every row ([Api]), its figures agree with each other and with the
      tables ([ShareStats.leaderboard_agrees], [ApiViews.figures_add_up]), and a
      cached or shared answer is never for another request or out of date
      ([ApiCache]); what a connection's tasks write never mixes and follows the
      order in which they took the lock ([StratumWrite]).
    - The dashboard's totals are the records made ([MetricsProps.dashboard_counts]);
      its server answers with well-framed messages until [accept] fails or a peer
      holds it up, and changes nothing it is not allowed to ([Web.web_server_harmless]); a settings write
      changes the given fields of the file and no others ([Web.settings_written]);
      the stand-alone bridge starts its instances on distinct ports
      ([Standalone.standalone_starts], [spec_roundtrip]).
    - Defects, as theorems on concrete or general inputs:
      [KasDemo.window_rollover_pays_twice],
      [PlannerProps.plan_batches_never_combines],
      [Krc20PlanProps.frozen_replay_drifts], [Krc20Safety.credit_starves],
      [ShareProps.job_id_zero_aborts], [ShareDemo.replayed_work_credited],
      [ShareDemo.credit_at_another_wallets_difficulty],
      [BridgeFile.bad_port_locks_out], [Web.absolute_path_served],
      [Web.post_without_body_panics].

    ** Conventions, bounds and fuel

    Integers are [Z] with the width in the operation: the release profile
    aborts on overflow, so [u64_add] and the like return [Panic].  Database
    clocks and instants are integers.  Functions of crates outside the
    repository (mass calculators, script execution, signatures, hashing, JSON, YAML,
    the prometheus crate, address decoding, GeoIP, the moka cache, Postgres'
    advisory locks, the file system, [log2]) are arguments, gathered in classes
    with the laws the code relies on and instantiated in the examples.  The
    laws say what the crates document: printed doubles need not read back
    ([Runtime.EventCodec]), a cache shares a running computation and its error
    with those who wait for it ([ApiCache.TtlCache]), gathered labels are in
    the order of their names ([Metrics.PrometheusOk]).  The order in which a
    query adds up [float8] values is not specified: each database carries a plan
    per query and group ([Db.ScanPlan]), and theorems hold for every plan.

    Fuel: [plan_loop] takes one step per payable recipient, since every batch
    pays one; [fund_loop] one per coin; [chunks] one per element; the binary
    search one per input, of which it needs the logarithm; [pow_loop] one per
    slot of the job ring; the pattern trimming and the header reader of [Web] one
    per character.  That these are enough is proved
    ([PlannerProps.plan_batches_total], [ShareProps.pow_loop_terminates] and
    the lemmas of [Consolidation], [Krc20PlanProps] and [Web]); running out is a
    [Panic], and in [chunks] never happens ([chunks_fuel_concat]).  The loop
    of [build_one_batch] counts the inputs, as the source's does.

    Await points: a payout service's step consumes one reply of the world and
    dies when there is none left; at an await of the share handler every other
    task may change the connection and the shared state arbitrarily.

    ** Not modelled

    Sockets and the gRPC client, logging, the optional CPU miner and in-process
    node of the standalone bridge, the latency histogram, the statistics table
    printer, the pages of the dashboards; the joins at the daemon's shutdown;
    per-session counters. *)

From stdpp Require Export base list numbers option gmap sorting.
From Stdlib Require Export ZArith Lia.


Global Open Scope Z_scope.

(** ** Rust computations that may panic

    The release profile of the workspace sets [overflow-checks = true] and
    [panic = "abort"] (src/Cargo.toml), so an integer overflow in [+], [-],
    [*] or [Iterator::sum] aborts the process.  [exec A] is a computation
    that either returns or aborts. *)

Inductive exec (A : Type) : Type :=
| Ret (a : A)
| Panic.
Arguments Ret {A} a.
Arguments Panic {A}.

#[export] Instance exec_ret : MRet exec := fun A a => Ret a.
#[export] Instance exec_bind : MBind exec := fun A B f m =>
  match m with Ret a => f a | Panic => Panic end.
#[export] Instance exec_fmap : FMap exec := fun A B f m =>
  match m with Ret a => Ret (f a) | Panic => Panic end.

(** Rust's [Result<A, E>], the error type first. *)
Inductive result (E A : Type) : Type :=
| Ok (a : A)
| Err (e : E).
Arguments Ok {E A} a.
Arguments Err {E A} e.

#[export] Instance result_ret E : MRet (result E) := fun A a => Ok a.
#[export] Instance result_bind E : MBind (result E) := fun A B f m =>
  match m with Ok a => f a | Err e => Err e end.
#[export] Instance result_fmap E : FMap (result E) := fun A B f m =>
  match m with Ok a => Ok (f a) | Err e => Err e end.

Lemma exec_bind_Ret {A B} (m : exec A) (f : A → exec B) b :
  (m ≫= f) = Ret b ↔ ∃ a, m = Ret a ∧ f a = Ret b.
Proof. destruct m; simpl; naive_solver. Qed.

Lemma result_bind_Ok {E A B} (m : result E A) (f : A → result E B) b :
  (m ≫= f) = Ok b ↔ ∃ a, m = Ok a ∧ f a = Ok b.
Proof. destruct m; simpl; naive_solver. Qed.

(** ** Machine integers, kept as [Z] with their ranges written out *)

Definition u16_max : Z := 65535.
Definition i16_max : Z := 32767.
Definition i32_max : Z := 2147483647.
Definition u32_max : Z := 4294967295.
Definition i64_max : Z := 9223372036854775807.
Definition i64_min : Z := -9223372036854775808.
Definition u64_max : Z := 18446744073709551615.
Definition u128_max : Z := 340282366920938463463374607431768211455.

Definition in_u64 (z : Z) : Prop := 0 ≤ z ≤ u64_max.
Definition in_i64 (z : Z) : Prop := i64_min ≤ z ≤ i64_max.
Definition in_u32 (z : Z) : Prop := 0 ≤ z ≤ u32_max.

(** [a.saturating_add(b)] and friends on [u64] and [i64]. *)
Definition u64_saturating_add (a b : Z) : Z := Z.min (a + b) u64_max.
Definition u64_saturating_sub (a b : Z) : Z := Z.max (a - b) 0.
Definition u64_saturating_mul (a b : Z) : Z := Z.min (a * b) u64_max.
Definition i64_saturating_add (a b : Z) : Z := Z.max i64_min (Z.min (a + b) i64_max).
Definition i64_saturating_sub (a b : Z) : Z := Z.max i64_min (Z.min (a - b) i64_max).
Definition i32_saturating_add (a b : Z) : Z := Z.max (- i32_max - 1) (Z.min (a + b) i32_max).

(** [checked_sub] on [u64]; [checked_mul] on [i64] and [u128]. *)
Definition u64_checked_sub (a b : Z) : option Z := if b <=? a then Some (a - b) else None.
Definition i64_checked_mul (a b : Z) : option Z :=
  if (i64_min <=? a * b) && (a * b <=? i64_max) then Some (a * b) else None.
Definition u128_checked_mul (a b : Z) : option Z :=
  if a * b <=? u128_max then Some (a * b) else None.

(** Plain [+], [-] on [u64] and [i64] under [overflow-checks = true]. *)
Definition u64_add (a b : Z) : exec Z := if a + b <=? u64_max then Ret (a + b) else Panic.
Definition u64_sub (a b : Z) : exec Z := if b <=? a then Ret (a - b) else Panic.
Definition i64_add (a b : Z) : exec Z :=
  if (i64_min <=? a + b) && (a + b <=? i64_max) then Ret (a + b) else Panic.

(** [i64::try_from], [u64::try_from]. *)
Definition i64_try_from (z : Z) : option Z :=
  if (i64_min <=? z) && (z <=? i64_max) then Some z else None.
Definition u64_try_from (z : Z) : option Z :=
  if (0 <=? z) && (z <=? u64_max) then Some z else None.

(** [x as i64] for [x : u64] and [x as u64] for [x : i64]: two's complement. *)
Definition u64_as_i64 (z : Z) : Z := if z <=? i64_max then z else z - 2 ^ 64.
Definition i64_as_u64 (z : Z) : Z := if 0 <=? z then z else z + 2 ^ 64.

Create HintDb machine.
#[export] Hint Unfold u16_max i16_max i32_max u32_max i64_max i64_min u64_max u128_max
  in_u64 in_i64 in_u32 u64_saturating_add u64_saturating_sub u64_saturating_mul
  i64_saturating_add i64_saturating_sub i32_saturating_add : machine.

(** [mlia]: linear arithmetic after unfolding the machine-integer constants. *)
Ltac mlia := autounfold with machine in *; lia.

(** [invert_binds]: take apart every [x ← m; k = Ret _] and [= Ok _] of the context. *)
Ltac invert_binds :=
  repeat match goal with
  | H : mbind _ _ = Ret _ |- _ => apply exec_bind_Ret in H; destruct H as (? & ? & H)
  | H : mbind _ _ = Ok _ |- _ => apply result_bind_Ok in H; destruct H as (? & ? & H)
  | H : Ret _ = Ret _ |- _ => injection H as H
  | H : Ok _ = Ok _ |- _ => injection H as H
  | H : Some _ = Some _ |- _ => injection H as H
  end; subst.

(** [by_computation]: a closed decidable goal, by running its decision procedure. *)
Ltac by_computation := apply (bool_decide_eq_true_1 _); vm_compute; reflexivity.

(** [case_bool]: case on every boolean test that blocks the goal or a hypothesis. *)
Ltac case_bool_in H :=
  match type of H with
  | context [if ?b then _ else _] => let E := fresh "E" in destruct b eqn:E
  end.
Ltac case_bool :=
  match goal with
  | |- context [if ?b then _ else _] => let E := fresh "E" in destruct b eqn:E
  end.
(** [bool_hyps]: turn boolean hypotheses into propositions that [lia] reads. *)
Ltac bool_hyps :=
  repeat match goal with
  | H : (_ && _)%bool = true |- _ => apply andb_true_iff in H; destruct H
  | H : (_ || _)%bool = false |- _ => apply orb_false_iff in H; destruct H
  | H : negb _ = true |- _ => apply negb_true_iff in H
  | H : negb _ = false |- _ => apply negb_false_iff in H
  end.

Lemma i64_checked_mul_Some a b c :
  i64_checked_mul a b = Some c → c = a * b ∧ in_i64 c.
Proof. unfold i64_checked_mul. intros H. case_bool_in H; [|done]. bool_hyps. simplify_eq. mlia. Qed.

Lemma i64_try_from_Some z r : i64_try_from z = Some r → r = z ∧ in_i64 z.
Proof. unfold i64_try_from. intros H. case_bool_in H; [|done]. bool_hyps. simplify_eq. mlia. Qed.

Lemma u64_try_from_Some z r : u64_try_from z = Some r → r = z ∧ in_u64 z.
Proof. unfold u64_try_from. intros H. case_bool_in H; [|done]. bool_hyps. simplify_eq. mlia. Qed.

Lemma u64_sub_Ret a b c : u64_sub a b = Ret c → c = a - b ∧ b ≤ a.
Proof. unfold u64_sub. intros H. case_bool_in H; [|done]. simplify_eq. lia. Qed.

(** A saturated sum below [u64::MAX] is the exact sum. *)
Lemma u64_saturating_add_lt a b s : s < u64_max →
  u64_saturating_add a b ≤ s → u64_saturating_add a b = a + b.
Proof. mlia. Qed.

Lemma u64_saturating_add_exact a b : a + b ≤ u64_max → u64_saturating_add a b = a + b.
Proof. mlia. Qed.

Lemma u64_sub_le a b : b ≤ a → u64_sub a b = Ret (a - b).
Proof. intros. unfold u64_sub. by rewrite (proj2 (Z.leb_le _ _)). Qed.

Lemma u64_as_i64_small z : 0 ≤ z ≤ i64_max → u64_as_i64 z = z.
Proof. unfold u64_as_i64. intros. destruct (Z.leb_spec z i64_max); lia. Qed.

Lemma u64_i64_roundtrip z : in_u64 z → i64_as_u64 (u64_as_i64 z) = z.
Proof.
  unfold in_u64, i64_as_u64, u64_as_i64, u64_max, i64_max. intros.
  destruct (Z.leb_spec z 9223372036854775807); case_bool; lia.
Qed.

(** ** Sums of integer lists *)

Definition sumZ (l : list Z) : Z := foldr Z.add 0 l.

(** [iter.sum::<u64>()] and [iter.sum::<i64>()]: left fold, aborting on overflow. *)
Definition sum_u64 (l : list Z) : exec Z :=
  foldl (λ acc x, acc ≫= λ a, u64_add a x) (Ret 0) l.
Definition sum_i64 (l : list Z) : exec Z :=
  foldl (λ acc x, acc ≫= λ a, i64_add a x) (Ret 0) l.

Lemma sumZ_app l1 l2 : sumZ (l1 ++ l2) = sumZ l1 + sumZ l2.
Proof. unfold sumZ. induction l1; simpl; lia. Qed.

#[export] Instance sumZ_Permutation : Proper ((≡ₚ) ==> (=)) sumZ.
Proof. unfold sumZ. induction 1; simpl; lia. Qed.

Lemma sumZ_nonneg l : Forall (λ x, 0 ≤ x) l → 0 ≤ sumZ l.
Proof. unfold sumZ. induction 1; simpl; lia. Qed.

Lemma sumZ_elem_le l x : Forall (λ x, 0 ≤ x) l → x ∈ l → x ≤ sumZ l.
Proof.
  unfold sumZ. induction 1 as [|y l Hy Hl IH]; [by intros ?%not_elem_of_nil|].
  pose proof (sumZ_nonneg l Hl). unfold sumZ in *.
  intros [->|?]%elem_of_cons; simpl; [lia|]. specialize (IH ltac:(done)). lia.
Qed.

Lemma sumZ_map_add {A} (f g : A → Z) l :
  sumZ (map (λ x, f x + g x) l) = sumZ (map f l) + sumZ (map g l).
Proof. unfold sumZ. induction l; simpl; lia. Qed.

Lemma sumZ_sublist l1 l2 : sublist l1 l2 → Forall (λ x, 0 ≤ x) l2 → sumZ l1 ≤ sumZ l2.
Proof.
  unfold sumZ. induction 1; intros Hf; simpl; [lia| |];
    apply Forall_cons in Hf as [? Hf]; specialize (IHsublist Hf); lia.
Qed.

Lemma sumZ_take_drop n l : sumZ (take n l) + sumZ (drop n l) = sumZ l.
Proof. by rewrite <- sumZ_app, take_drop. Qed.

Lemma foldl_Panic {A B} (f : A → B → exec A) l :
  foldl (λ acc x, acc ≫= λ a, f a x) Panic l = Panic.
Proof. induction l; simpl; auto. Qed.

Lemma sum_u64_acc l a : Forall (λ x, 0 ≤ x) l → 0 ≤ a → a ≤ u64_max →
  foldl (λ acc x, acc ≫= λ a, u64_add a x) (Ret a) l =
  if a + sumZ l <=? u64_max then Ret (a + sumZ l) else Panic.
Proof.
  intros Hl. revert a. induction Hl as [|x l Hx Hl IH]; intros a Ha Hm; simpl.
  - rewrite Z.add_0_r. destruct (Z.leb_spec a u64_max); [done|lia].
  - pose proof (sumZ_nonneg l Hl). unfold sumZ in *. unfold u64_add at 2.
    destruct (Z.leb_spec (a + x) u64_max).
    + rewrite IH by lia. by rewrite Z.add_assoc.
    + rewrite foldl_Panic. case_bool; [lia|done].
Qed.

Lemma sum_u64_Ret l : Forall (λ x, 0 ≤ x) l → sumZ l ≤ u64_max → sum_u64 l = Ret (sumZ l).
Proof. intros Hl Hs. unfold sum_u64. rewrite sum_u64_acc by (done || mlia). by case_bool; [|lia]. Qed.

Lemma sum_u64_inv l s : Forall (λ x, 0 ≤ x) l → sum_u64 l = Ret s → s = sumZ l ∧ sumZ l ≤ u64_max.
Proof.
  intros Hl. unfold sum_u64. rewrite sum_u64_acc by (done || mlia).
  intros H. case_bool_in H; [|done]. simplify_eq. lia.
Qed.

Lemma sum_i64_acc l a s :
  foldl (λ acc x, acc ≫= λ a, i64_add a x) (Ret a) l = Ret s → s = a + sumZ l.
Proof.
  revert a. induction l as [|x l IH]; intros a; simpl.
  - intros [= ->]. lia.
  - unfold i64_add at 2. case_bool; [|by rewrite foldl_Panic].
    intros ->%IH. unfold sumZ. simpl. lia.
Qed.

Lemma sum_i64_inv l s : sum_i64 l = Ret s → s = sumZ l.
Proof. intros ->%sum_i64_acc. lia. Qed.

Lemma sum_i64_acc_Ret l a : Forall (λ x, 0 ≤ x) l → 0 ≤ a → a + sumZ l ≤ i64_max →
  foldl (λ acc x, acc ≫= λ a, i64_add a x) (Ret a) l = Ret (a + sumZ l).
Proof.
  intros Hl. revert a. induction Hl as [|x l Hx Hl IH]; intros a Ha Hs; simpl in *.
  - by rewrite Z.add_0_r.
  - pose proof (sumZ_nonneg l Hl). unfold sumZ in *; simpl in *. unfold i64_add at 2.
    rewrite (proj2 (andb_true_iff _ _)) by (split; apply Z.leb_le; mlia).
    rewrite IH by lia. f_equal. lia.
Qed.

Lemma sum_i64_Ret l : Forall (λ x, 0 ≤ x) l → sumZ l ≤ i64_max → sum_i64 l = Ret (sumZ l).
Proof. intros. unfold sum_i64. rewrite sum_i64_acc_Ret by (done || lia). done. Qed.

(** ** Stable sorting

    Rust's [slice::sort_by] is a stable sort, so its result is the one a
    stable insertion sort computes. *)
Section stable_sort.
Context {A : Type} (leb : A → A → bool).

Fixpoint sort_insert (x : A) (l : list A) : list A :=
  match l with
  | [] => [x]
  | y :: l' => if leb x y then x :: l else y :: sort_insert x l'
  end.

Definition stable_sort (l : list A) : list A := foldr sort_insert [] l.

Lemma sort_insert_perm x l : sort_insert x l ≡ₚ x :: l.
Proof.
  induction l as [|y l IH]; simpl; [done|]. case_bool; [done|].
  rewrite IH. apply Permutation_swap.
Qed.

Lemma stable_sort_perm l : stable_sort l ≡ₚ l.
Proof. induction l as [|x l IH]; simpl; [done|]. by rewrite sort_insert_perm, IH. Qed.

Lemma length_stable_sort l : length (stable_sort l) = length l.
Proof. by rewrite stable_sort_perm. Qed.

Context (Htotal : ∀ x y, leb x y = false → leb y x = true).
Context (Htrans : ∀ x y z, leb x y = true → leb y z = true → leb x z = true).

Lemma sort_insert_sorted x l :
  StronglySorted (λ a b, leb a b = true) l →
  StronglySorted (λ a b, leb a b = true) (sort_insert x l).
Proof.
  induction 1 as [|y l Hl IH Hy]; simpl; [by repeat constructor|].
  case_bool.
  - constructor; [by constructor|]. constructor; [done|].
    apply (Forall_impl _ _ _ Hy). eauto.
  - constructor; [done|]. apply Forall_forall. intros z Hz.
    rewrite sort_insert_perm in Hz. apply elem_of_cons in Hz as [->|Hz]; [by apply Htotal|].
    by apply (proj1 (Forall_forall _ _) Hy).
Qed.

Lemma stable_sort_sorted l : StronglySorted (λ a b, leb a b = true) (stable_sort l).
Proof. induction l; simpl; [constructor|]. by apply sort_insert_sorted. Qed.

Lemma sort_insert_least x l : Forall (λ y, leb x y = true) l → sort_insert x l = x :: l.
Proof. intros [|y l' Hy _]; simpl; [done|]. by rewrite Hy. Qed.

(** Sorting and filtering commute. *)
Lemma sort_insert_retain (P : A → bool) x l : StronglySorted (λ a b, leb a b = true) l →
  List.filter P (sort_insert x l) = if P x then sort_insert x (List.filter P l) else List.filter P l.
Proof.
  induction 1 as [|y l Hl IH Hy]; simpl; [done|]. destruct (leb x y) eqn:Exy; simpl.
  - destruct (P x); [|done]. symmetry. apply (sort_insert_least x (if P y then y :: List.filter P l else List.filter P l)).
    assert (Forall (λ z, leb x z = true) (List.filter P l)) as Hf.
    { apply Forall_forall. intros z Hz%list_elem_of_In. apply filter_In in Hz as [Hz%list_elem_of_In _].
      rewrite Forall_forall in Hy. eauto. }
    by destruct (P y); [constructor|].
  - rewrite IH. destruct (P x), (P y); simpl; rewrite ?Exy; done.
Qed.

Lemma stable_sort_retain (P : A → bool) l : List.filter P (stable_sort l) = stable_sort (List.filter P l).
Proof.
  induction l as [|x l IH]; simpl; [done|]. rewrite sort_insert_retain by apply stable_sort_sorted. rewrite IH. by destruct (P x).
Qed.

(** Stability: elements that compare equal keep their order. *)
Lemma sort_insert_filter (P : A → bool) x l :
  (∀ y, P x = true → P y = true → leb x y = true) →
  List.filter P (sort_insert x l) = List.filter P (x :: l).
Proof.
  intros HP. induction l as [|y l IH]; simpl; [done|].
  destruct (leb x y) eqn:E; simpl; [done|]. rewrite IH. simpl.
  destruct (P x) eqn:Px, (P y) eqn:Py; try done. by rewrite HP in E.
Qed.

Lemma stable_sort_stable (P : A → bool) l :
  (∀ x y, P x = true → P y = true → leb x y = true) →
  List.filter P (stable_sort l) = List.filter P l.
Proof.
  intros HP. induction l as [|x l IH]; simpl; [done|].
  rewrite sort_insert_filter by auto. simpl. by rewrite IH.
Qed.
End stable_sort.

(** [vec.retain(p)]. *)
Abbreviation retain := List.filter.

Lemma retain_all {A} (p : A → bool) l : Forall (λ x, p x = true) l → retain p l = l.
Proof. induction 1 as [|x l Hx Hl IH]; simpl; [done|]. by rewrite Hx, IH. Qed.

Lemma elem_of_retain {A} (p : A → bool) l x : x ∈ retain p l ↔ x ∈ l ∧ p x = true.
Proof. rewrite !list_elem_of_In. apply filter_In. Qed.

Lemma retain_sublist {A} (p : A → bool) l : sublist (retain p l) l.
Proof. induction l as [|x l IH]; simpl; [done|]. destruct (p x); by constructor. Qed.

Lemma retain_perm_split {A} (p : A → bool) l :
  l ≡ₚ retain p l ++ retain (λ x, negb (p x)) l.
Proof.
  induction l as [|x l IH]; simpl; [done|]. destruct (p x); simpl.
  - by f_equiv.
  - rewrite IH at 1. apply Permutation_middle.
Qed.

Lemma sublist_map {A B} (f : A → B) l1 l2 : sublist l1 l2 → sublist (map f l1) (map f l2).
Proof. induction 1; simpl; by constructor. Qed.

(** Saturating folds of non-negative values: the exact sum, capped. *)
Lemma i64_saturating_fold l a : Forall (λ x, 0 ≤ x) l → 0 ≤ a ≤ i64_max →
  foldl i64_saturating_add a l = Z.min (a + sumZ l) i64_max.
Proof.
  intros Hl. revert a. induction Hl as [|x l Hx Hl IH]; intros a Ha; simpl.
  - rewrite Z.add_0_r, Z.min_l; lia.
  - pose proof (sumZ_nonneg l Hl). rewrite IH by mlia. unfold sumZ in *. simpl. mlia.
Qed.

Lemma i32_saturating_count {A} (l : list A) a : 0 ≤ a ≤ i32_max →
  foldl i32_saturating_add a (map (λ _, 1) l) = Z.min (a + Z.of_nat (length l)) i32_max.
Proof.
  revert a. induction l as [|x l IH]; intros a Ha; simpl.
  - rewrite Z.add_0_r, Z.min_l; lia.
  - rewrite IH by mlia. mlia.
Qed.

(** Two elements with the same unique key are one. *)
Lemma NoDup_map_eq {A B} (f : A → B) l x y :
  NoDup (map f l) → x ∈ l → y ∈ l → f x = f y → x = y.
Proof.
  induction l as [|z l IH]; simpl; [by intros _ ?%not_elem_of_nil|].
  intros [Hz Hnd]%NoDup_cons Hx Hy Hf.
  assert (∀ u, u ∈ l → f z ≠ f u) as Hu.
  { intros u Hin Heq. apply Hz. rewrite Heq. by apply list_elem_of_fmap_2. }
  apply elem_of_cons in Hx as [->|Hx], Hy as [->|Hy]; [done| | |auto].
  - by destruct (Hu y).
  - by destruct (Hu x).
Qed.

Lemma elem_of_concat {A} (ls : list (list A)) x : x ∈ concat ls ↔ ∃ l, x ∈ l ∧ l ∈ ls.
Proof. rewrite list_elem_of_In, in_concat. setoid_rewrite list_elem_of_In. naive_solver. Qed.

Lemma retain_sublist_imp {A} (p q : A → bool) l :
  (∀ x, p x = true → q x = true) → sublist (retain p l) (retain q l).
Proof.
  intros Hpq. induction l as [|x l IH]; simpl; [done|].
  destruct (p x) eqn:Px; [rewrite (Hpq x Px); by constructor|]. by destruct (q x); [constructor|].
Qed.

Lemma retain_sublist_mono {A} (p : A → bool) l1 l2 : sublist l1 l2 → sublist (retain p l1) (retain p l2).
Proof. induction 1 as [|x l1 l2 _ IH|x l1 l2 _ IH]; simpl; [done| |]; destruct (p x); try done; by constructor. Qed.

#[export] Instance retain_perm {A} (p : A → bool) : Proper ((≡ₚ) ==> (≡ₚ)) (retain p).
Proof.
  induction 1 as [|x l1 l2 _ IH|x y l|l1 l2 l3 _ IH1 _ IH2]; simpl; [done| | |by etrans].
  - by destruct (p x); rewrite IH.
  - destruct (p x), (p y); try done. apply Permutation_swap.
Qed.

Lemma sum_i64_acc_range l a s : in_i64 a →
  foldl (λ acc x, acc ≫= λ a, i64_add a x) (Ret a) l = Ret s → in_i64 s.
Proof.
  revert a. induction l as [|x l IH]; intros a Ha; simpl; [by intros [= <-]|].
  unfold i64_add at 2. case_bool; [|by rewrite foldl_Panic]. bool_hyps. apply IH. mlia.
Qed.

Lemma sum_i64_range l s : sum_i64 l = Ret s → in_i64 s.
Proof. apply sum_i64_acc_range. mlia. Qed.

Lemma sumZ_alter f i l x : l !! i = Some x → sumZ (alter f i l) = sumZ l - x + f x.
Proof.
  revert i. induction l as [|y l IH]; intros [|i] H; simplify_eq/=; [unfold sumZ; simpl; lia|].
  specialize (IH i H). unfold sumZ in *. simpl. lia.
Qed.
