(* ===== verification/Float64.v ===== *)
(** * IEEE-754 binary64, as the pool's Rust code uses [f64]

    The executable specification floats of the Standard Library
    ([SpecFloat]) at precision 53 and exponent bound 1024, with the
    operations the modelled code calls: arithmetic with round-to-nearest-even,
    comparisons, [floor], [ceil], [min], [is_finite] and the saturating
    [as] casts. *)

From S2P Require Import Prelude.
From Stdlib Require Import SpecFloat.

Abbreviation f64 := spec_float.

Definition f64_mul : f64 → f64 → f64 := SFmul 53 1024.
Definition f64_div : f64 → f64 → f64 := SFdiv 53 1024.
Definition f64_add : f64 → f64 → f64 := SFadd 53 1024.
Definition f64_lt (x y : f64) : bool := SFltb x y.
Definition f64_le (x y : f64) : bool := SFleb x y.
Definition f64_eq (x y : f64) : bool := SFeqb x y.
Definition f64_zero : f64 := S754_zero false.

(** [z as f64] for an integer [z]. *)
Definition f64_of_Z (z : Z) : f64 := binary_normalize 53 1024 z 0 false.

Definition f64_is_finite (x : f64) : bool :=
  match x with S754_zero _ | S754_finite _ _ _ => true | _ => false end.

(** The signed mantissa. *)
Definition signed (s : bool) (m : positive) : Z := if s then Z.neg m else Z.pos m.

Definition f64_floor (x : f64) : f64 :=
  match x with
  | S754_finite s m e =>
      if 0 <=? e then x else binary_normalize 53 1024 (Z.shiftl (signed s m) e) 0 s
  | _ => x
  end.

Definition f64_ceil (x : f64) : f64 :=
  match x with
  | S754_finite s m e =>
      if 0 <=? e then x else binary_normalize 53 1024 (- Z.shiftl (- signed s m) e) 0 s
  | _ => x
  end.

(** [f64::min]: the other operand when one is NaN. *)
Definition f64_min (x y : f64) : f64 :=
  match x, y with
  | S754_nan, _ => y
  | _, S754_nan => x
  | _, _ => if f64_lt y x then y else x
  end.

(** [x as iN]: truncation toward zero, saturating, NaN to 0. *)
Definition f64_as_int (lo hi : Z) (x : f64) : Z :=
  match x with
  | S754_nan => 0
  | S754_zero _ => 0
  | S754_infinity s => if s then lo else hi
  | S754_finite s m e =>
      let a := Z.shiftl (Z.pos m) e in
      Z.max lo (Z.min (if s then - a else a) hi)
  end.
Definition f64_as_i64 : f64 → Z := f64_as_int i64_min i64_max.
Definition f64_as_u64 : f64 → Z := f64_as_int 0 u64_max.

(** [ShareDifficulty] of crates/katpool-domain/src/difficulty.rs: a
    difficulty is finite and strictly positive. *)
Inductive DifficultyError := NotFinite | NonPositive.

Definition ShareDifficulty_new (d : f64) : result DifficultyError f64 :=
  if negb (f64_is_finite d) then Err NotFinite
  else if f64_le d f64_zero then Err NonPositive
  else Ok d.

(** ** Facts *)

Lemma f64_as_int_range lo hi x : lo ≤ 0 ≤ hi → lo ≤ f64_as_int lo hi x ≤ hi.
Proof. unfold f64_as_int. intros. destruct x as [s|s| |s m e]; try destruct s; lia. Qed.

Lemma shiftl_nonneg m e : 0 ≤ Z.shiftl (Z.pos m) e.
Proof. apply Z.shiftl_nonneg. lia. Qed.

Lemma f64_as_i64_pos x : f64_le x f64_zero = false → 0 ≤ f64_as_i64 x.
Proof.
  unfold f64_as_i64, f64_as_int, f64_le, SFleb, f64_zero.
  destruct x as [s|s| |s m e]; simpl; try destruct s; simpl; try done; try mlia.
  pose proof (shiftl_nonneg m e). mlia.
Qed.

(** The difficulties that pass are exactly the positive finite ones. *)
Lemma ShareDifficulty_new_Ok d :
  ShareDifficulty_new d = Ok d ↔ ∃ m e, d = S754_finite false m e.
Proof.
  unfold ShareDifficulty_new, f64_le, SFleb, f64_zero.
  destruct d as [s|s| |s m e]; simpl; try destruct s; simpl; naive_solver.
Qed.
