(* ===== verification/FloatExact.v ===== *)
(** * Integers in doubles

    A double holds every integer below 2^53: conversion, addition and the
    truncation of a counter are exact there.  Used for sums of
    difficulties and for the counters of the metrics, which are doubles. *)

From Stdlib Require Import SpecFloat.
From S2P Require Import Prelude Float64.
Local Open Scope Z_scope.

Lemma digits2_log2 p : Z.pos (digits2_pos p) = Z.log2 (Z.pos p) + 1.
Proof.
  assert (digits2_pos p = Pos.size p) as -> by (induction p as [p IH|p IH|]; simpl; [by rewrite IH..|done]).
  destruct p; simpl; lia.
Qed.

Lemma pos_iter_xO m d : Z.pos (Pos.iter xO m d) = Z.pos m * 2 ^ Z.pos d.
Proof.
  induction d as [|d IH] using Pos.peano_ind; [by rewrite Z.pow_1_r, Z.mul_comm|].
  rewrite Pos.iter_succ. change (Z.pos (Pos.iter xO m d)~0) with (2 * Z.pos (Pos.iter xO m d)). rewrite IH, Pos2Z.inj_succ, Z.pow_succ_r by lia. lia.
Qed.

Lemma iter_pos_nat {A} (f : A → A) p (x : A) : SpecFloat.iter_pos f p x = Nat.iter (Pos.to_nat p) f x.
Proof.
  revert x. induction p as [p IH|p IH|]; intros x; cbn [SpecFloat.iter_pos]; [| |done].
  - rewrite !IH, Pos2Nat.inj_xI. replace (S (2 * Pos.to_nat p)) with (Pos.to_nat p + (Pos.to_nat p + 1))%nat by lia. by rewrite !Nat.iter_add.
  - rewrite !IH, Pos2Nat.inj_xO. replace (2 * Pos.to_nat p)%nat with (Pos.to_nat p + Pos.to_nat p)%nat by lia. by rewrite Nat.iter_add.
Qed.

Lemma shr_1_even q : 0 < q → shr_1 (Build_shr_record (2 * q) false false) = Build_shr_record q false false.
Proof. destruct q; [lia|done|lia]. Qed.

Lemma shr_exact n q : 0 < q → Nat.iter n shr_1 (Build_shr_record (q * 2 ^ Z.of_nat n) false false) = Build_shr_record q false false.
Proof.
  revert q. induction n as [|n IH]; intros q Hq; [simpl; by rewrite Z.mul_1_r|]. rewrite Nat2Z.inj_succ, Z.pow_succ_r by lia. simpl.
  rewrite Z.mul_assoc, (Z.mul_comm q 2), IH by lia. by apply shr_1_even.
Qed.

(** The exponent of the last of 53 digits. *)
Definition ulp (n : Z) : Z := Z.log2 n - 52.
Definition double (n : Z) : f64 := match n * 2 ^ (- ulp n) with Z.pos m => S754_finite false m (ulp n) | _ => f64_zero end.

Lemma ulp_range n : 0 < n < 2 ^ 53 → -52 ≤ ulp n ≤ 0.
Proof.
  intros Hn. unfold ulp. pose proof (Z.log2_nonneg n). assert (Z.log2 n < 53) by (apply Z.log2_lt_pow2; lia). lia.
Qed.

Lemma shr_fexp_exact m q e n : 0 < n < 2 ^ 53 → 0 < m → Z.log2 m + e = Z.log2 n → m = q * 2 ^ (ulp n - e) → 0 < q → e ≤ ulp n →
  shr_fexp 53 1024 m e loc_Exact = (Build_shr_record q false false, ulp n).
Proof.
  intros Hn Hm Hlog Hq Hq0 He. pose proof (ulp_range n Hn) as Hu. unfold shr_fexp. destruct m as [|m|m]; [lia| |lia]. cbn [Zdigits2].
  rewrite digits2_log2. unfold fexp, emin. replace (Z.max (Z.log2 (Z.pos m) + 1 + e - 53) (3 - 1024 - 53)) with (ulp n) by (unfold ulp in *; lia).
  cbn [shr_record_of_loc]. unfold shr. destruct (ulp n - e) as [|p|p] eqn:Hd; [| |lia].
  - rewrite Z.mul_1_r in Hq. rewrite Hq. f_equal. lia.
  - rewrite iter_pos_nat, Hq, <- (positive_nat_Z p), shr_exact by done. f_equal. rewrite positive_nat_Z. lia.
Qed.

Lemma normalize_exact n k : 0 < n < 2 ^ 53 → 0 ≤ k → binary_normalize 53 1024 (n * 2 ^ k) (- k) false = double n.
Proof.
  intros Hn Hk. pose proof (ulp_range n Hn) as Hu. assert (0 < 2 ^ k) by (apply Z.pow_pos_nonneg; lia).
  assert (Z.log2 (n * 2 ^ k) = Z.log2 n + k) as Hlog by (rewrite Z.log2_mul_pow2 by lia; lia).
  destruct (n * 2 ^ k) as [|m|m] eqn:Hm; [nia| |nia]. cbn [binary_normalize]. unfold binary_round. rewrite digits2_log2, Hlog.
  unfold fexp, emin. replace (Z.max (Z.log2 n + k + 1 + - k - 53) (3 - 1024 - 53)) with (ulp n) by (unfold ulp in *; lia).
  assert (∃ mz ez, shl_align m (- k) (ulp n) = (mz, ez) ∧ ez ≤ ulp n ∧ Z.pos mz = n * 2 ^ (- ez) ∧ 0 ≤ - ez) as (mz & ez & -> & Hez & Hmz & Hez0).
  { unfold shl_align. destruct (ulp n - - k) as [|d|d] eqn:Hd; [exists m, (- k)..|exists (Pos.iter xO m d), (ulp n)]; split_and!; try done; try lia.
    - by rewrite Z.opp_involutive.
    - by rewrite Z.opp_involutive.
    - rewrite pos_iter_xO, <- Hm, <- Z.mul_assoc, <- Z.pow_add_r by lia. do 2 f_equal. lia. }
  assert (Z.log2 (Z.pos mz) + ez = Z.log2 n) as Hlz by (rewrite Hmz, Z.log2_mul_pow2 by lia; lia).
  assert (0 < n * 2 ^ (- ulp n)) as Hq by (apply Z.mul_pos_pos; [lia|apply Z.pow_pos_nonneg; lia]).
  unfold binary_round_aux. rewrite (shr_fexp_exact (Z.pos mz) (n * 2 ^ (- ulp n)) ez n); [|done|done|done| |done|done].
  2: { rewrite Hmz, <- Z.mul_assoc, <- Z.pow_add_r by lia. do 2 f_equal. lia. }
  cbn [shr_m loc_of_shr_record round_nearest_even].
  rewrite (shr_fexp_exact _ (n * 2 ^ (- ulp n)) (ulp n) n); [|done|done| |by rewrite Z.sub_diag, Z.mul_1_r|done|done].
  2: { rewrite Z.log2_mul_pow2 by lia. lia. }
  cbn [shr_m]. unfold double. destruct (n * 2 ^ (- ulp n)) as [|q|q]; [lia| |lia]. by rewrite (proj2 (Z.leb_le _ _)) by lia.
Qed.

Lemma f64_of_Z_double n : 0 < n < 2 ^ 53 → f64_of_Z n = double n.
Proof. intros Hn. unfold f64_of_Z. rewrite <- (normalize_exact n 0) by lia. by rewrite Z.mul_1_r. Qed.

Lemma shl_align_fst m e e' : e' ≤ e → Z.pos (fst (shl_align m e e')) = Z.pos m * 2 ^ (e - e').
Proof.
  intros He. unfold shl_align. destruct (e' - e) as [|d|d] eqn:Hd; [|lia|]; simpl.
  - replace (e - e') with 0 by lia. by rewrite Z.mul_1_r.
  - rewrite pos_iter_xO. do 2 f_equal. lia.
Qed.

(** Addition of integers is exact as long as the sum is below 2^53. *)
Lemma f64_add_exact a b : 0 ≤ a → 0 ≤ b → a + b < 2 ^ 53 → f64_add (f64_of_Z a) (f64_of_Z b) = f64_of_Z (a + b).
Proof.
  intros Ha Hb Hab. destruct (decide (a = 0)) as [-> |Ha0].
  { rewrite Z.add_0_l. change (f64_of_Z 0) with f64_zero. destruct (decide (b = 0)) as [-> |Hb0]; [done|]. rewrite f64_of_Z_double by lia.
    unfold double. by destruct (b * 2 ^ (- ulp b)). }
  destruct (decide (b = 0)) as [-> |Hb0].
  { rewrite Z.add_0_r. change (f64_of_Z 0) with f64_zero. rewrite f64_of_Z_double by lia. unfold double. by destruct (a * 2 ^ (- ulp a)). }
  rewrite !f64_of_Z_double by lia. pose proof (ulp_range a ltac:(lia)) as Hua. pose proof (ulp_range b ltac:(lia)) as Hub.
  assert (0 < 2 ^ (- ulp a)) by (apply Z.pow_pos_nonneg; lia). assert (0 < 2 ^ (- ulp b)) by (apply Z.pow_pos_nonneg; lia).
  unfold double at 1 2. destruct (a * 2 ^ (- ulp a)) as [|ma|ma] eqn:Hma; [nia| |nia]. destruct (b * 2 ^ (- ulp b)) as [|mb|mb] eqn:Hmb; [nia| |nia].
  cbn [f64_add SFadd cond_Zopp]. rewrite !shl_align_fst, <- Hma, <- Hmb by lia. set (ez := Z.min (ulp a) (ulp b)).
  rewrite <- !Z.mul_assoc, <- !Z.pow_add_r by (unfold ez; lia).
  replace (- ulp a + (ulp a - ez)) with (- ez) by lia. replace (- ulp b + (ulp b - ez)) with (- ez) by lia. rewrite <- Z.mul_add_distr_r.
  replace ez with (- - ez) at 2 by lia. apply normalize_exact; [lia|unfold ez; lia].
Qed.

(** A counter reads as the integer it holds. *)
Lemma f64_as_u64_exact n : 0 ≤ n < 2 ^ 53 → f64_as_u64 (f64_of_Z n) = n.
Proof.
  intros Hn. destruct (decide (n = 0)) as [-> |Hn0]; [done|]. rewrite f64_of_Z_double by lia. pose proof (ulp_range n ltac:(lia)) as Hu.
  assert (0 < 2 ^ (- ulp n)) by (apply Z.pow_pos_nonneg; lia). unfold double. destruct (n * 2 ^ (- ulp n)) as [|m|m] eqn:Hm; [nia| |nia].
  unfold f64_as_u64, f64_as_int. rewrite <- Hm, <- (Z.opp_involutive (ulp n)), Z.shiftl_opp_r, Z.opp_involutive, Z.shiftr_div_pow2, Z.div_mul by lia.
  unfold u64_max. lia.
Qed.
