(* ===== verification/Mass.v ===== *)
(** * Transactions, treasury coins and the mass evaluator

    crates/katpool-storagemass/src/types.rs, evaluator.rs and tx_build.rs.
    The consensus crate (kaspa-consensus-core) is not part of the
    repository: its script type is a type variable [Script] and its mass
    calculator and output-size estimator are the operations of the class
    [MassCalculator]. *)

From S2P Require Import Prelude.

(** A 32-byte hash, as the 256-bit number its bytes spell in big-endian order. *)
Abbreviation Hash := Z (only parsing).

Record TransactionOutpoint := { transaction_id : Hash; out_index : Z }.

#[export] Instance TransactionOutpoint_eq_dec : EqDecision TransactionOutpoint.
Proof. solve_decision. Defined.

Definition outpoint_eqb (a b : TransactionOutpoint) : bool := bool_decide (a = b).

Record UtxoEntry (Script : Type) := {
  amount : Z;
  script_public_key : Script;
  block_daa_score : Z;
  is_coinbase : bool;
  covenant_id : option Hash;
}.
Arguments amount {Script} _.
Arguments script_public_key {Script} _.
Arguments block_daa_score {Script} _.
Arguments is_coinbase {Script} _.
Arguments covenant_id {Script} _.

Record TransactionInput := {
  previous_outpoint : TransactionOutpoint;
  signature_script : list Z;
  sequence : Z;
  sig_op_count : Z;
}.

Record TransactionOutput (Script : Type) := { value : Z; out_script : Script }.
Arguments value {Script} _.
Arguments out_script {Script} _.

Record Transaction (Script : Type) := {
  version : Z;
  inputs : list TransactionInput;
  outputs : list (TransactionOutput Script);
  lock_time : Z;
  subnetwork_id : list Z;
  gas : Z;
  payload : list Z;
}.
Arguments inputs {Script} _.
Arguments outputs {Script} _.

(** ** types.rs *)

(** [PLANNING_VIRTUAL_TXID_BYTES]: thirty-one zero bytes and a final 1. *)
Definition PLANNING_VIRTUAL_TXID : Hash := 1.

Record TreasuryUtxo (Script : Type) := {
  outpoint : TransactionOutpoint;
  entry : UtxoEntry Script;
}.
Arguments outpoint {Script} _.
Arguments entry {Script} _.

Definition is_planning_virtual {Script} (u : TreasuryUtxo Script) : bool :=
  transaction_id (outpoint u) =? PLANNING_VIRTUAL_TXID.

(** [u.entry.amount]. *)
Definition coin {Script} (u : TreasuryUtxo Script) : Z := amount (entry u).

(** A recipient's [id] is the decimal text of a payout row id; it is kept as
    that number. *)
Record PayoutRecipient (Script : Type) := {
  rid : Z;
  amount_sompi : Z;
  recipient_script : Script;
}.
Arguments rid {Script} _.
Arguments amount_sompi {Script} _.
Arguments recipient_script {Script} _.

(** ** evaluator.rs *)

Record TxMass := { compute_mass : Z; storage_mass : Z; transient_mass : Z }.

Definition effective (m : TxMass) : Z :=
  Z.max (Z.max (compute_mass m) (storage_mass m)) (transient_mass m).

Definition fits_independently (m : TxMass) (block_mass_limit : Z) : bool :=
  (compute_mass m <=? block_mass_limit)
  && (storage_mass m <=? block_mass_limit)
  && (transient_mass m <=? block_mass_limit).

Definition MAX_STANDARD_TX_MASS : Z := 100000.
Definition MIN_PAYOUT_OUTPUT_SOMPI : Z := 1900000.

Inductive MassEvaluationError :=
| InputCountMismatch (tx_inputs entries : nat)
| StorageMassIncomputable.

(** What the code uses of kaspa-consensus-core: [MassCalculator]'s two
    methods, [transaction_output_estimated_serialized_size] and the
    consensus block mass limit [MAINNET_PARAMS.prior_block_mass_limits.compute]. *)
Class MassCalculator (Script : Type) := {
  calc_non_contextual_masses : Transaction Script → Z * Z;
  calc_contextual_masses : Transaction Script → list (UtxoEntry Script) → option Z;
  transaction_output_estimated_serialized_size : TransactionOutput Script → Z;
  MAINNET_MAX_BLOCK_MASS : Z;
}.

Section evaluator.
Context {Script : Type} `{!MassCalculator Script}.

Definition evaluate_populated (tx : Transaction Script) (entries : list (UtxoEntry Script)) :
    result MassEvaluationError TxMass :=
  if negb (length (inputs tx) =? length entries)%nat
  then Err (InputCountMismatch (length (inputs tx)) (length entries))
  else
    let nc := calc_non_contextual_masses tx in
    match calc_contextual_masses tx entries with
    | None => Err StorageMassIncomputable
    | Some s => Ok {| compute_mass := nc.1; transient_mass := nc.2; storage_mass := s |}
    end.

Definition fits_block (tx : Transaction Script) (entries : list (UtxoEntry Script)) : bool :=
  match evaluate_populated tx entries with
  | Ok m => fits_independently m MAINNET_MAX_BLOCK_MASS
  | Err _ => false
  end.

(** ** tx_build.rs *)

Definition standard_subnetwork : list Z :=
  [1;2;3;4;5;6;7;8;9;10;0;0;0;0;0;0;0;0;0;0].

Definition SIGNED_P2PK_SIG_SCRIPT_LEN : nat := 66.

Definition build_populated (ins : list (TreasuryUtxo Script))
    (payouts : list (PayoutRecipient Script)) (change_script : Script)
    (change_amount_sompi : Z) : Transaction Script * list (UtxoEntry Script) :=
  let tx_inputs := map (λ u, {| previous_outpoint := outpoint u;
                                signature_script := replicate SIGNED_P2PK_SIG_SCRIPT_LEN 0;
                                sequence := 0; sig_op_count := 1 |}) ins in
  let outs := map (λ p, {| value := amount_sompi p; out_script := recipient_script p |}) payouts in
  let outs := if 0 <? change_amount_sompi
              then outs ++ [{| value := change_amount_sompi; out_script := change_script |}]
              else outs in
  ({| version := 0; inputs := tx_inputs; outputs := outs; lock_time := 0;
      subnetwork_id := standard_subnetwork; gas := 0; payload := [] |},
   map entry ins).

(** ** Facts *)

Lemma fits_independently_spec m limit :
  fits_independently m limit = true ↔ effective m ≤ limit.
Proof. unfold fits_independently, effective. rewrite !andb_true_iff, !Z.leb_le. lia. Qed.

Lemma evaluate_populated_Ok tx es m :
  evaluate_populated tx es = Ok m → length (inputs tx) = length es.
Proof.
  unfold evaluate_populated. intros H. case_bool_in H; [done|]. bool_hyps.
  by apply Nat.eqb_eq.
Qed.

(** A built transaction always has one entry per input, so
    [InputCountMismatch] cannot come out of it. *)
Lemma build_populated_entries ins ps cs c :
  length (inputs (build_populated ins ps cs c).1) = length (build_populated ins ps cs c).2.
Proof. simpl. by rewrite !length_map. Qed.

(** The outputs of a built transaction spend exactly the payouts and the change. *)
Lemma build_populated_outputs ins ps cs c : 0 ≤ c →
  sumZ (map value (outputs (build_populated ins ps cs c).1)) = sumZ (map amount_sompi ps) + c.
Proof.
  intros Hc. simpl. destruct (Z.ltb_spec 0 c).
  - rewrite map_app, sumZ_app, map_map. simpl. by rewrite Z.add_0_r.
  - rewrite map_map. simpl. assert (c = 0) as -> by lia. by rewrite Z.add_0_r.
Qed.
End evaluator.
