(* ===== verification/Fee.v ===== *)
(** * Network fee policy: crates/katpool-storagemass/src/fee.rs *)

From S2P Require Import Prelude Float64 Mass.
From Stdlib Require Import SpecFloat.

Definition MIN_RELAY_TX_FEE_SOMPI_PER_KG : Z := 100000.
Definition DUST_INPUT_SERIALIZED_SIZE : Z := 148.

Record FeeRate := {
  feerate_sompi_per_gram : f64;
  min_relay_sompi_per_kg : Z;
}.

Definition FeeRate_ZERO : FeeRate :=
  {| feerate_sompi_per_gram := f64_zero; min_relay_sompi_per_kg := 0 |}.

Definition from_feerate (feerate : f64) : FeeRate :=
  {| feerate_sompi_per_gram :=
       if f64_is_finite feerate && f64_lt f64_zero feerate then feerate else f64_zero;
     min_relay_sompi_per_kg := MIN_RELAY_TX_FEE_SOMPI_PER_KG |}.

Definition reserves_fee (fr : FeeRate) : bool :=
  f64_lt f64_zero (feerate_sompi_per_gram fr) || (0 <? min_relay_sompi_per_kg fr).

Definition minimum_relay_fee (fr : FeeRate) (compute : Z) : Z :=
  let fee := u64_saturating_mul compute (min_relay_sompi_per_kg fr) `div` 1000 in
  if fee =? 0 then min_relay_sompi_per_kg fr else fee.

Definition fee_for (fr : FeeRate) (m : TxMass) : Z :=
  let scaled := f64_mul (feerate_sompi_per_gram fr) (f64_of_Z (effective m)) in
  let estimate :=
    if f64_is_finite scaled && f64_lt f64_zero scaled
    then f64_as_u64 (f64_min (f64_ceil scaled) (f64_of_Z u64_max))
    else 0 in
  Z.max estimate (minimum_relay_fee fr (compute_mass m)).

(** The fee the planner reserves: [fee_for] when the policy reserves one, else 0. *)
Definition reserved_fee (fr : FeeRate) (m : TxMass) : Z :=
  if reserves_fee fr then fee_for fr m else 0.

Definition is_change_dust {Script} `{!MassCalculator Script}
    (value_sompi : Z) (change_script : Script) : bool :=
  let output := {| value := value_sompi; out_script := change_script |} in
  let serialized :=
    u64_saturating_add (transaction_output_estimated_serialized_size output)
      DUST_INPUT_SERIALIZED_SIZE in
  let lhs := Z.min (value_sompi * 1000) u128_max `div` (3 * serialized) in
  lhs <? MIN_RELAY_TX_FEE_SOMPI_PER_KG.

(** ** Facts *)

Lemma minimum_relay_fee_nonneg fr c :
  0 ≤ min_relay_sompi_per_kg fr → 0 ≤ c → 0 ≤ minimum_relay_fee fr c.
Proof.
  unfold minimum_relay_fee, u64_saturating_mul, u64_max. intros. case_bool; [done|].
  apply Z.div_pos; nia.
Qed.

Lemma fee_for_ge_relay fr m : minimum_relay_fee fr (compute_mass m) ≤ fee_for fr m.
Proof. unfold fee_for. lia. Qed.

Lemma fee_for_nonneg fr m : 0 ≤ fee_for fr m.
Proof.
  unfold fee_for. case_bool; [|lia].
  match goal with |- context [f64_as_u64 ?x] =>
    pose proof (f64_as_int_range 0 u64_max x ltac:(mlia)) end.
  unfold f64_as_u64. lia.
Qed.

Lemma reserved_fee_nonneg fr m : 0 ≤ reserved_fee fr m.
Proof. unfold reserved_fee. case_bool; [apply fee_for_nonneg|lia]. Qed.

Lemma from_feerate_reserves r : reserves_fee (from_feerate r) = true.
Proof. unfold reserves_fee. simpl. by rewrite orb_true_r. Qed.

(** A zero fee-rate never yields a positive finite estimate. *)
Lemma zero_rate_no_estimate x :
  f64_is_finite (f64_mul f64_zero x) && f64_lt f64_zero (f64_mul f64_zero x) = false.
Proof. unfold f64_zero, f64_mul. destruct x as [s|s| |s p e]; by try destruct s. Qed.

Lemma fee_for_zero_rate fr m : feerate_sompi_per_gram fr = f64_zero →
  0 ≤ min_relay_sompi_per_kg fr → 0 ≤ compute_mass m →
  fee_for fr m = minimum_relay_fee fr (compute_mass m).
Proof.
  intros Hr Hk Hc. unfold fee_for. rewrite Hr, zero_rate_no_estimate.
  pose proof (minimum_relay_fee_nonneg fr _ Hk Hc). lia.
Qed.

Lemma zero_policy m : 0 ≤ compute_mass m →
  reserves_fee FeeRate_ZERO = false ∧ fee_for FeeRate_ZERO m = 0.
Proof.
  intros Hc. split; [done|]. rewrite fee_for_zero_rate by done.
  unfold minimum_relay_fee, u64_saturating_mul. cbn [FeeRate_ZERO min_relay_sompi_per_kg].
  by rewrite Z.mul_0_r.
Qed.

(** The relay floor of a live policy: [max(1 kg price, compute * 100)]. *)
Lemma minimum_relay_fee_live r c : 0 ≤ c → c * 100000 ≤ u64_max →
  minimum_relay_fee (from_feerate r) c = if c =? 0 then 100000 else c * 100.
Proof.
  intros Hc Hm. unfold minimum_relay_fee, u64_saturating_mul; simpl.
  unfold MIN_RELAY_TX_FEE_SOMPI_PER_KG. rewrite Z.min_l by lia.
  replace (c * 100000) with (c * 100 * 1000) by lia. rewrite Z.div_mul by lia.
  destruct (Z.eqb_spec (c * 100) 0), (Z.eqb_spec c 0); lia.
Qed.

(** A rate the node reports as NaN, infinite, zero or negative is the relay floor. *)
Lemma from_feerate_bad r m :
  f64_is_finite r && f64_lt f64_zero r = false → 0 ≤ compute_mass m →
  fee_for (from_feerate r) m = minimum_relay_fee (from_feerate r) (compute_mass m).
Proof.
  intros Hr Hc. apply fee_for_zero_rate; [|done..]. simpl. by rewrite Hr.
Qed.
