(* ===== verification/Planner.v ===== *)
(** * The payout batch planner: crates/katpool-storagemass/src/planner.rs

    Definitions first (one per function of the source), then the loop
    invariants and the theorems on [plan_batches]. *)

From S2P Require Import Prelude Float64 Mass Fee.

Record PlannedBatch (Script : Type) := {
  batch_inputs : list (TreasuryUtxo Script);
  batch_payouts : list (PayoutRecipient Script);
  change_amount_sompi : Z;
  batch_mass : TxMass;
}.
Arguments batch_inputs {Script} _.
Arguments batch_payouts {Script} _.
Arguments change_amount_sompi {Script} _.
Arguments batch_mass {Script} _.

Record PlanBatchesResult (Script : Type) := {
  batches : list (PlannedBatch Script);
  deferred_below_floor : list (PayoutRecipient Script);
  unpaid : list (PayoutRecipient Script);
}.
Arguments batches {Script} _.
Arguments deferred_below_floor {Script} _.
Arguments unpaid {Script} _.

Definition MAX_OUTPUTS_PER_INPUT : Z := 10.

Section planner.
Context {Script : Type} `{!MassCalculator Script}.
Implicit Types (utxos inputs : list (TreasuryUtxo Script)).
Implicit Types (recipients payouts : list (PayoutRecipient Script)).

Definition partition_by_floor (recipients : list (PayoutRecipient Script)) :
    list (PayoutRecipient Script) * list (PayoutRecipient Script) :=
  foldl (λ '(payable, deferred) r,
           if MIN_PAYOUT_OUTPUT_SOMPI <=? amount_sompi r
           then (payable ++ [r], deferred) else (payable, deferred ++ [r]))
        ([], []) recipients.

Definition sort_utxos_desc : list (TreasuryUtxo Script) → list (TreasuryUtxo Script) :=
  stable_sort (λ a b, coin b <=? coin a).

Definition sort_recipients_desc :
    list (PayoutRecipient Script) → list (PayoutRecipient Script) :=
  stable_sort (λ a b, amount_sompi b <=? amount_sompi a).

Definition evaluate_shape inputs payouts (change_script : Script) (change_amount : Z) :
    option TxMass :=
  let '(tx, entries) := build_populated inputs payouts change_script change_amount in
  match evaluate_populated tx entries with
  | Ok mass => if fits_independently mass MAINNET_MAX_BLOCK_MASS then Some mass else None
  | Err _ => None
  end.

(** [selected.iter().filter_map(|&i| recipients.get(i))]. *)
Definition picked recipients (selected : list nat) : list (PayoutRecipient Script) :=
  omap (λ i, recipients !! i) selected.

(** The [for (idx, rec) in recipients.iter().enumerate()] loop of
    [greedy_recipients_for_inputs]; [rest] are the recipients from [idx] on. *)
Fixpoint greedy_loop inputs (input_sum : Z) recipients (change_script : Script)
    (fee_rate : FeeRate) (max_outputs : Z)
    (rest : list (PayoutRecipient Script)) (idx : nat) (selected : list nat) :
    exec (list nat) :=
  let continue := greedy_loop inputs input_sum recipients change_script fee_rate max_outputs in
  match rest with
  | [] => Ret selected
  | rec :: rest =>
      if max_outputs <=? Z.of_nat (length selected) then Ret selected
      else
        sel_sum ← sum_u64 (map amount_sompi (picked recipients selected));
        let candidate_sum := u64_saturating_add sel_sum (amount_sompi rec) in
        if input_sum <? candidate_sum then continue rest (S idx) selected
        else
          let candidate := selected ++ [idx] in
          let payout_refs := picked recipients candidate in
          if negb (length payout_refs =? length candidate)%nat
          then continue rest (S idx) selected
          else
            change ← u64_sub input_sum candidate_sum;
            match evaluate_shape inputs payout_refs change_script change with
            | None => continue rest (S idx) selected
            | Some mass =>
                let fee := if reserves_fee fee_rate then fee_for fee_rate mass else 0 in
                if u64_saturating_add candidate_sum fee <=? input_sum
                then continue rest (S idx) candidate
                else continue rest (S idx) selected
            end
  end.

Definition greedy_recipients_for_inputs inputs (input_sum : Z) recipients
    (change_script : Script) (fee_rate : FeeRate) : exec (option (list nat)) :=
  let max_outputs :=
    Z.max (u64_saturating_mul (Z.of_nat (length inputs)) MAX_OUTPUTS_PER_INPUT) 1 in
  selected ← greedy_loop inputs input_sum recipients change_script fee_rate max_outputs
               recipients 0 [];
  match selected with [] => Ret None | _ => Ret (Some selected) end.

(** The [while input_count <= max_inputs] loop of [build_one_batch]; the
    fuel is the number of iterations left, [max_inputs - input_count + 1]. *)
Fixpoint build_one_batch_loop utxos recipients (change_script : Script)
    (fee_rate : FeeRate) (fuel : nat) (input_count : nat) :
    exec (option (PlannedBatch Script)) :=
  match fuel with
  | O => Ret None
  | S fuel =>
      let widen := build_one_batch_loop utxos recipients change_script fee_rate fuel
                     (S input_count) in
      let inputs := take input_count utxos in
      input_sum ← sum_u64 (map coin inputs);
      sel ← greedy_recipients_for_inputs inputs input_sum recipients change_script fee_rate;
      match sel with
      | None => Ret None
      | Some [] => widen
      | Some selected =>
          payout_sum ← sum_u64 (map amount_sompi (picked recipients selected));
          if input_sum <? payout_sum then widen
          else
            let payout_refs := picked recipients selected in
            if negb (length payout_refs =? length selected)%nat then widen
            else
              gross_change ← u64_sub input_sum payout_sum;
              match evaluate_shape inputs payout_refs change_script gross_change with
              | None => widen
              | Some gross_mass =>
                  let fee := if reserves_fee fee_rate then fee_for fee_rate gross_mass else 0 in
                  if input_sum <? u64_saturating_add payout_sum fee then widen
                  else
                    rem ← u64_sub input_sum payout_sum;
                    change_amount ← u64_sub rem fee;
                    let drop_change :=
                      reserves_fee fee_rate
                      && ((change_amount =? 0) || is_change_dust change_amount change_script) in
                    if drop_change then
                      match evaluate_shape inputs payout_refs change_script 0 with
                      | Some mass =>
                          Ret (Some {| batch_inputs := inputs; batch_payouts := payout_refs;
                                       change_amount_sompi := 0; batch_mass := mass |})
                      | None => widen
                      end
                    else
                      Ret (Some {| batch_inputs := inputs; batch_payouts := payout_refs;
                                   change_amount_sompi := change_amount;
                                   batch_mass := gross_mass |})
              end
      end
  end.

Definition build_one_batch utxos recipients (change_script : Script) (fee_rate : FeeRate) :
    exec (option (PlannedBatch Script)) :=
  build_one_batch_loop utxos recipients change_script fee_rate (length utxos) 1.

Definition planning_change_utxo (batch_index : Z) (amount_sompi : Z) (change_script : Script) :
    TreasuryUtxo Script :=
  {| outpoint := {| transaction_id := PLANNING_VIRTUAL_TXID; out_index := batch_index |};
     entry := {| amount := amount_sompi; script_public_key := change_script;
                 block_daa_score := 0; is_coinbase := false; covenant_id := None |} |}.

Definition remove_consumed utxos (consumed : list (TreasuryUtxo Script)) :
    list (TreasuryUtxo Script) :=
  retain (λ u, negb (existsb (λ c, outpoint_eqb (outpoint c) (outpoint u)) consumed)) utxos.

Definition remove_paid recipients (paid : list (PayoutRecipient Script)) :
    list (PayoutRecipient Script) :=
  retain (λ r, negb (existsb (λ p, rid p =? rid r) paid)) recipients.

(** The end of the loop body: batch [batch_index]'s change becomes a virtual
    coin of the working set. *)
Definition reinject_change utxos (batch_index : Z) (batch : PlannedBatch Script)
    (change_script : Script) : list (TreasuryUtxo Script) :=
  if (0 <? change_amount_sompi batch) && (batch_index <=? u32_max)
  then sort_utxos_desc
         (utxos ++ [planning_change_utxo batch_index (change_amount_sompi batch) change_script])
  else utxos.

(** The [while !payable.is_empty() && !utxos.is_empty()] loop.  Running out
    of fuel is [Panic]: [plan_batches_total] shows it never happens. *)
Fixpoint plan_loop (change_script : Script) (fee_rate : FeeRate) (fuel : nat)
    utxos (payable : list (PayoutRecipient Script)) (acc : list (PlannedBatch Script)) :
    exec (list (PlannedBatch Script) * list (PayoutRecipient Script)) :=
  match payable, utxos with
  | [], _ | _, [] => Ret (acc, payable)
  | _, _ =>
      match fuel with
      | O => Panic
      | S fuel =>
          built ← build_one_batch utxos payable change_script fee_rate;
          match built with
          | None => Ret (acc, payable)
          | Some batch =>
              let utxos := remove_consumed utxos (batch_inputs batch) in
              let payable := remove_paid payable (batch_payouts batch) in
              let utxos :=
                reinject_change utxos (Z.of_nat (length acc)) batch change_script in
              plan_loop change_script fee_rate fuel utxos payable (acc ++ [batch])
          end
      end
  end.

Definition plan_batches utxos recipients (change_script : Script) (fee_rate : FeeRate) :
    exec (PlanBatchesResult Script) :=
  let '(payable, deferred) := partition_by_floor recipients in
  let utxos := sort_utxos_desc utxos in
  let payable := sort_recipients_desc payable in
  out ← plan_loop change_script fee_rate (length payable) utxos payable [];
  Ret {| batches := out.1; deferred_below_floor := deferred; unpaid := out.2 |}.

(** ** Loop invariants *)

Abbreviation paid_sum ps := (sumZ (map (@amount_sompi Script) ps)).
Abbreviation coin_sum us := (sumZ (map (@coin Script) us)).

(** The working set of coins: [u64] amounts whose sum stays below [u64::MAX]. *)
Definition coins_ok utxos : Prop :=
  Forall (λ u : TreasuryUtxo Script, 0 ≤ coin u) utxos ∧ coin_sum utxos < u64_max.
Definition amounts_ok recipients : Prop := Forall (λ r : PayoutRecipient Script, 0 ≤ amount_sompi r) recipients.

(** [payouts] fit the block mass beside their change and leave room for the fee. *)
Definition funded inputs input_sum cs fr payouts : Prop :=
  ∃ mass, evaluate_shape inputs payouts cs (input_sum - paid_sum payouts) = Some mass
          ∧ paid_sum payouts + reserved_fee fr mass ≤ input_sum.

Definition greedy_inv inputs input_sum recipients cs fr idx selected : Prop :=
  sublist (picked recipients selected) (take idx recipients)
  ∧ length (picked recipients selected) = length selected
  ∧ paid_sum (picked recipients selected) ≤ input_sum
  ∧ (selected ≠ [] → funded inputs input_sum cs fr (picked recipients selected)).

Lemma amounts_ok_sublist l1 l2 : sublist l1 l2 → amounts_ok l2 → Forall (λ x, 0 ≤ x) (map amount_sompi l1).
Proof.
  intros Hs Hl. apply List.Forall_map.
  apply Forall_forall. intros x Hx. apply (proj1 (Forall_forall _ _) Hl).
  by eapply sublist_subseteq.
Qed.

Lemma picked_snoc recipients sel i r : recipients !! i = Some r →
  picked recipients (sel ++ [i]) = picked recipients sel ++ [r].
Proof. intros Hr. unfold picked. rewrite omap_app. simpl. by rewrite Hr. Qed.

Lemma paid_sum_snoc ps r : paid_sum (ps ++ [r]) = paid_sum ps + amount_sompi r.
Proof. rewrite map_app, sumZ_app. unfold sumZ. simpl. lia. Qed.

Lemma greedy_inv_skip inputs s recipients cs fr idx sel :
  greedy_inv inputs s recipients cs fr idx sel → greedy_inv inputs s recipients cs fr (S idx) sel.
Proof.
  intros (H1 & H2 & H3 & H4). split_and!; try done. etrans; [done|].
  destruct (recipients !! idx) as [r|] eqn:E.
  - rewrite (take_S_r _ _ _ E). by apply sublist_inserts_r.
  - apply lookup_ge_None in E. by rewrite !take_ge by lia.
Qed.

Lemma greedy_loop_spec inputs s recipients cs fr max rest idx sel :
  amounts_ok recipients → 0 ≤ s < u64_max → rest = drop idx recipients →
  greedy_inv inputs s recipients cs fr idx sel →
  ∃ sel', greedy_loop inputs s recipients cs fr max rest idx sel = Ret sel'
          ∧ greedy_inv inputs s recipients cs fr (length recipients) sel'.
Proof.
  intros Ha Hs. revert idx sel. induction rest as [|r rest IH]; intros idx sel Hrest Hinv; simpl.
  { exists sel. split; [done|]. destruct Hinv as (H1 & Hinv).
    split; [|done]. rewrite firstn_all. etrans; [done|]. apply sublist_take. }
  assert (recipients !! idx = Some r) as Hr.
  { rewrite <- (Nat.add_0_r idx), <- lookup_drop, <- Hrest. done. }
  assert (rest = drop (S idx) recipients) as Hrest'.
  { erewrite drop_S in Hrest by done. congruence. }
  assert (0 ≤ amount_sompi r) as Hr0.
  { apply (proj1 (Forall_forall _ _) Ha). by eapply list_elem_of_lookup_2. }
  assert (Hskip : greedy_inv inputs s recipients cs fr (S idx) sel) by by apply greedy_inv_skip.
  case_bool.
  { exists sel. split; [done|]. destruct Hinv as (H1 & H2). split; [|done].
    rewrite firstn_all. etrans; [done|]. apply sublist_take. }
  destruct Hinv as (H1 & H2 & H3 & H4).
  assert (Hps : Forall (λ x, 0 ≤ x) (map amount_sompi (picked recipients sel))).
  { eapply amounts_ok_sublist, Ha. etrans; [done|]. apply sublist_take. }
  rewrite sum_u64_Ret by (done || lia). simpl.
  case_bool; [by apply IH|].
  apply Z.ltb_ge in E0.
  rewrite (u64_saturating_add_lt _ _ s) in E0 |- * by (done || lia).
  rewrite (picked_snoc _ _ _ _ Hr).
  case_bool; [by apply IH|].
  rewrite u64_sub_le by done. simpl. rewrite <- paid_sum_snoc in *.
  case_match eqn:Hev; [|by apply IH].
  fold (reserved_fee fr t). case_bool; [|by apply IH].
  apply Z.leb_le in E2. rewrite (u64_saturating_add_lt _ _ s) in E2 by (done || lia).
  apply IH; [done|].
  split_and!; rewrite ?(picked_snoc _ _ _ _ Hr).
  - rewrite (take_S_r _ _ _ Hr). by apply sublist_app.
  - rewrite !length_app. simpl. lia.
  - done.
  - intros _. by exists t.
Qed.

Lemma greedy_spec inputs s recipients cs fr :
  amounts_ok recipients → 0 ≤ s < u64_max →
  greedy_recipients_for_inputs inputs s recipients cs fr = Ret None ∨
  ∃ sel, greedy_recipients_for_inputs inputs s recipients cs fr = Ret (Some sel)
         ∧ sel ≠ [] ∧ greedy_inv inputs s recipients cs fr (length recipients) sel.
Proof.
  intros Ha Hs. unfold greedy_recipients_for_inputs.
  edestruct (greedy_loop_spec inputs s recipients cs fr) as (sel & -> & Hinv); [done|done| |..].
  { by rewrite drop_0. }
  { split_and!; [apply sublist_nil_l|done|simpl; lia|done]. }
  simpl. destruct sel; [by left|right; eauto].
Qed.

(** What is left of a batch's inputs after its payouts. *)
Definition left_over (b : PlannedBatch Script) : Z := coin_sum (batch_inputs b) - paid_sum (batch_payouts b).

(** How [rest] is split into a change output and a network fee: the fee is the policy's for the mass [m],
    to the sompi, unless what would be left as change is dust, which goes to the fee as well. *)
Definition fee_settled (cs : Script) (fr : FeeRate) (m : TxMass) (rest change : Z) : Prop :=
  reserved_fee fr m ≤ rest - change ∧
  (rest - change = reserved_fee fr m ∨ change = 0 ∧ is_change_dust (rest - reserved_fee fr m) cs = true).

(** The mass recorded for a batch: without change, that of the inputs and the payouts alone; with change,
    [gross], which is measured before the fee is taken from the change. *)
Definition mass_recorded (cs : Script) (b : PlannedBatch Script) (gross : TxMass) : Prop :=
  evaluate_shape (batch_inputs b) (batch_payouts b) cs (left_over b) = Some gross ∧
  if change_amount_sompi b =? 0 then evaluate_shape (batch_inputs b) (batch_payouts b) cs 0 = Some (batch_mass b) else batch_mass b = gross.

(** What a built batch satisfies with respect to the coins and recipients
    it was built from. *)
Record batch_ok (cs : Script) (fr : FeeRate) utxos recipients (b : PlannedBatch Script) : Prop := {
  bo_inputs : ∃ k, (1 ≤ k ≤ length utxos)%nat ∧ batch_inputs b = take k utxos;
  bo_payouts : sublist (batch_payouts b) recipients;
  bo_nonempty : batch_payouts b ≠ [];
  bo_mass : fits_independently (batch_mass b) MAINNET_MAX_BLOCK_MASS = true;
  bo_change : 0 ≤ change_amount_sompi b;
  bo_balance : ∃ gross, mass_recorded cs b gross ∧ fee_settled cs fr gross (left_over b) (change_amount_sompi b);
  bo_dust : reserves_fee fr = true → 0 < change_amount_sompi b →
    is_change_dust (change_amount_sompi b) cs = false;
}.

Lemma evaluate_shape_fits ins ps cs c m :
  evaluate_shape ins ps cs c = Some m → fits_independently m MAINNET_MAX_BLOCK_MASS = true.
Proof. unfold evaluate_shape. simpl. intros. by repeat case_match; simplify_eq. Qed.

Lemma coins_take k utxos : coins_ok utxos →
  Forall (λ x, 0 ≤ x) (map coin (take k utxos)) ∧ 0 ≤ coin_sum (take k utxos) < u64_max.
Proof.
  intros [Hc Hs].
  assert (Ht : Forall (λ x, 0 ≤ x) (map coin (take k utxos))).
  { apply List.Forall_map. by apply Forall_take. }
  assert (Hd : Forall (λ x, 0 ≤ x) (map coin (drop k utxos))).
  { apply List.Forall_map. by apply Forall_drop. }
  split; [done|]. apply sumZ_nonneg in Ht, Hd.
  rewrite <- (take_drop k utxos), map_app, sumZ_app in Hs. lia.
Qed.

Lemma build_one_batch_loop_spec utxos recipients cs fr fuel k :
  coins_ok utxos → amounts_ok recipients → (1 ≤ k)%nat → (k + fuel = S (length utxos))%nat →
  build_one_batch_loop utxos recipients cs fr fuel k = Ret None ∨
  ∃ b, build_one_batch_loop utxos recipients cs fr fuel k = Ret (Some b)
       ∧ batch_ok cs fr utxos recipients b.
Proof.
  intros Hc Ha. revert k. induction fuel as [|fuel IH]; intros k Hk Hkf; simpl; [by left|].
  destruct (coins_take k utxos Hc) as [Hn Hs].
  rewrite sum_u64_Ret by (done || lia). simpl.
  specialize (IH (S k) ltac:(lia) ltac:(lia)).
  destruct (greedy_spec (take k utxos) (coin_sum (take k utxos)) recipients cs fr)
    as [->|(sel & -> & Hne & H1 & H2 & H3 & H4)]; [done|done|by left|].
  rewrite firstn_all in H1. destruct (H4 Hne) as (mass & Hev & Hfee).
  simpl. destruct sel as [|i sel]; [done|]. set (ps := picked recipients (i :: sel)) in *.
  rewrite sum_u64_Ret by (eauto using amounts_ok_sublist || lia). simpl.
  rewrite (proj2 (Z.ltb_ge _ _)) by done. rewrite H2, Nat.eqb_refl. simpl.
  rewrite u64_sub_le by done. simpl. rewrite Hev. fold (reserved_fee fr mass).
  pose proof (reserved_fee_nonneg fr mass).
  rewrite u64_saturating_add_exact by lia.
  rewrite (proj2 (Z.ltb_ge _ _)) by done. rewrite u64_sub_le by lia. simpl.
  assert (Hps : ps ≠ []) by (intros E; by rewrite E in H2).
  remember (coin_sum (take k utxos) - paid_sum ps - reserved_fee fr mass) as change eqn:Hchange.
  case_bool; [case_match eqn:Hev0; [|done]|]; right; eexists; (split; [done|]);
    (constructor; unfold mass_recorded, left_over; simpl; [by exists k; split; [lia|]|done|done|by eapply evaluate_shape_fits|lia| |]).
  - exists mass. split; [done|]. unfold fee_settled. rewrite Z.sub_0_r. split; [lia|].
    bool_hyps. destruct (Z.eqb_spec change 0) as [Hz|]; [left; lia|right]. split; [done|]. rewrite <- Hchange. by destruct (is_change_dust change cs).
  - lia.
  - exists mass. split; [|split; [lia|left; lia]]. split; [done|]. destruct (Z.eqb_spec change 0) as [Hz|]; [|done].
    rewrite Hz in *. assert (coin_sum (take k utxos) - paid_sum ps = 0) as Hrest; [|by rewrite <- Hrest].
    unfold reserved_fee in *. destruct (reserves_fee fr); [done|lia].
  - intros Hr Hpos. rewrite Hr in E. simpl in E. by apply orb_false_iff in E as [_ E].
Qed.

Lemma build_one_batch_spec utxos recipients cs fr :
  coins_ok utxos → amounts_ok recipients →
  build_one_batch utxos recipients cs fr = Ret None ∨
  ∃ b, build_one_batch utxos recipients cs fr = Ret (Some b)
       ∧ batch_ok cs fr utxos recipients b.
Proof. intros. apply build_one_batch_loop_spec; (done || lia). Qed.

(** *** The outer loop *)

Lemma remove_paid_sublist recipients paid : sublist (remove_paid recipients paid) recipients.
Proof. apply retain_sublist. Qed.

Lemma remove_paid_shrinks recipients paid : sublist paid recipients → paid ≠ [] →
  (length (remove_paid recipients paid) < length recipients)%nat.
Proof.
  intros Hs Hne. destruct paid as [|p paid]; [done|]. unfold remove_paid.
  assert (Hin : p ∈ recipients) by (eapply sublist_subseteq; [done|set_solver]).
  rewrite (retain_perm_split
    (λ r, negb (existsb (λ p, rid p =? rid r) (p :: paid))) recipients) at 2.
  rewrite length_app.
  assert (p ∈ retain (λ x, negb (negb (existsb (λ q, rid q =? rid x) (p :: paid)))) recipients) as Hp.
  { apply elem_of_retain. split; [done|]. simpl. by rewrite Z.eqb_refl. }
  apply list_elem_of_lookup in Hp as [i Hi%lookup_lt_Some]. lia.
Qed.

(** With distinct ids, what [remove_paid] drops is exactly what was paid. *)
Lemma remove_paid_perm recipients paid : NoDup (map rid recipients) → sublist paid recipients →
  recipients ≡ₚ paid ++ remove_paid recipients paid.
Proof.
  intros Hnd Hs. unfold remove_paid. revert Hnd. induction Hs as [|r l1 l2 Hs IH|r l1 l2 Hs IH]; intros Hnd.
  - done.
  - apply NoDup_cons in Hnd as [Hr Hnd]. simpl. rewrite Z.eqb_refl. simpl. f_equiv.
    rewrite IH at 1 by done. f_equiv. unfold remove_paid. apply reflexive_eq, filter_ext_in.
    intros x Hx. f_equal. destruct (Z.eqb_spec (rid r) (rid x)) as [E|]; [|done].
    destruct Hr. rewrite E. apply list_elem_of_In, in_map, Hx.
  - apply NoDup_cons in Hnd as [Hr Hnd]. simpl.
    assert (existsb (λ p, rid p =? rid r) l1 = false) as ->.
    { apply not_true_iff_false. rewrite existsb_exists. intros (p & Hp & E%Z.eqb_eq).
      destruct Hr. rewrite <- E. apply list_elem_of_In, in_map, list_elem_of_In.
      apply list_elem_of_In in Hp. by eapply sublist_subseteq. }
    simpl. rewrite <- Permutation_middle. f_equiv. by apply IH.
Qed.

Lemma remove_consumed_take k utxos :
  sublist (remove_consumed utxos (take k utxos)) (drop k utxos).
Proof.
  unfold remove_consumed. rewrite <- (take_drop k utxos) at 1. rewrite List.filter_app.
  assert (retain (λ u, negb (existsb (λ c, outpoint_eqb (outpoint c) (outpoint u)) (take k utxos)))
            (take k utxos) = []) as ->; [|apply retain_sublist].
  apply elem_of_nil_inv. intros u [Hu E]%elem_of_retain. apply negb_true_iff in E.
  apply not_true_iff_false in E. apply E, existsb_exists. exists u.
  split; [by apply list_elem_of_In|]. by apply bool_decide_eq_true.
Qed.

Lemma sort_utxos_desc_perm utxos : sort_utxos_desc utxos ≡ₚ utxos.
Proof. apply stable_sort_perm. Qed.

#[export] Instance coins_ok_perm : Proper ((≡ₚ) ==> iff) coins_ok.
Proof. intros u1 u2 Hu. unfold coins_ok. by rewrite Hu. Qed.

Lemma coins_ok_sort utxos : coins_ok utxos → coins_ok (sort_utxos_desc utxos).
Proof. by rewrite sort_utxos_desc_perm. Qed.

Lemma coin_sum_sort utxos : coin_sum (sort_utxos_desc utxos) = coin_sum utxos.
Proof. by rewrite sort_utxos_desc_perm. Qed.

(** The coins after a batch: its inputs are gone, its change is back. *)
Definition next_coins utxos (n : nat) (b : PlannedBatch Script) (cs : Script) :
    list (TreasuryUtxo Script) :=
  reinject_change (remove_consumed utxos (batch_inputs b)) (Z.of_nat n) b cs.

Lemma next_coins_cases utxos n b cs :
  next_coins utxos n b cs = remove_consumed utxos (batch_inputs b) ∨
  0 < change_amount_sompi b ∧
  next_coins utxos n b cs ≡ₚ planning_change_utxo (Z.of_nat n) (change_amount_sompi b) cs
                             :: remove_consumed utxos (batch_inputs b).
Proof.
  unfold next_coins, reinject_change. case_bool; [right|by left].
  bool_hyps. split; [lia|]. by rewrite sort_utxos_desc_perm, Permutation_app_comm.
Qed.

Lemma remove_consumed_coins cs fr utxos recipients b :
  coins_ok utxos → batch_ok cs fr utxos recipients b →
  Forall (λ u, 0 ≤ coin u) (remove_consumed utxos (batch_inputs b)) ∧
  coin_sum (remove_consumed utxos (batch_inputs b)) + coin_sum (batch_inputs b) ≤ coin_sum utxos.
Proof.
  intros [Hc Hs] Hb. destruct (bo_inputs _ _ _ _ _ Hb) as (k & _ & ->).
  pose proof (remove_consumed_take k utxos) as Hsub.
  assert (Hd : Forall (λ u, 0 ≤ coin u) (drop k utxos)) by by apply Forall_drop.
  split.
  - apply Forall_forall. intros u Hu. apply (proj1 (Forall_forall _ _) Hd).
    by eapply sublist_subseteq.
  - apply (sublist_map coin), sumZ_sublist in Hsub; [|by apply List.Forall_map].
    rewrite <- (sumZ_take_drop k (map coin utxos)), <- firstn_map, <- skipn_map in *. lia.
Qed.

(** A batch never creates value: what is left plus what was paid is at most
    what was there. *)
Lemma next_coins_ok cs fr utxos recipients n b :
  coins_ok utxos → amounts_ok recipients → batch_ok cs fr utxos recipients b →
  coins_ok (next_coins utxos n b cs) ∧
  coin_sum (next_coins utxos n b cs) + paid_sum (batch_payouts b) ≤ coin_sum utxos.
Proof.
  intros Hok Ha Hb. destruct (remove_consumed_coins _ _ _ _ _ Hok Hb) as [Hf Hle].
  destruct (bo_balance _ _ _ _ _ Hb) as (gm & _ & Hfee & _). unfold left_over in Hfee.
  pose proof (reserved_fee_nonneg fr gm). pose proof (bo_change _ _ _ _ _ Hb).
  pose proof (sumZ_nonneg _ (amounts_ok_sublist _ _ (bo_payouts _ _ _ _ _ Hb) Ha)).
  destruct Hok as [_ Hs].
  destruct (next_coins_cases utxos n b cs) as [->|[Hpos Hp]].
  - split; [split; [done|]|]; lia.
  - assert (coin_sum (next_coins utxos n b cs)
            = change_amount_sompi b + coin_sum (remove_consumed utxos (batch_inputs b))) as Hsum.
    { by rewrite Hp. }
    split; [|lia]. split; [|lia]. rewrite Hp. constructor; [simpl; unfold coin; simpl; lia|done].
Qed.

(** Any invariant that one batch step preserves holds at the end of the
    loop, which always ends: every batch pays at least one recipient. *)
Lemma plan_loop_spec (I : list (TreasuryUtxo Script) → list (PayoutRecipient Script) →
    list (PlannedBatch Script) → Prop) cs fr :
  (∀ u p a b, coins_ok u → amounts_ok p → batch_ok cs fr u p b → I u p a →
    I (next_coins u (length a) b cs) (remove_paid p (batch_payouts b)) (a ++ [b])) →
  ∀ fuel u p a, coins_ok u → amounts_ok p → (length p ≤ fuel)%nat → I u p a →
  ∃ u' p' a', plan_loop cs fr fuel u p a = Ret (a', p') ∧ I u' p' a'.
Proof.
  intros Hstep fuel. induction fuel as [|fuel IH]; intros u p a Hu Hp Hlen HI.
  { destruct p; [|simpl in *; lia]. by exists u, [], a. }
  assert (Hend : ∃ u' p' a', (Ret (a, p) : exec _) = Ret (a', p') ∧ I u' p' a') by by exists u, p, a.
  simpl. destruct p as [|r p]; [done|]. destruct u as [|c u]; [done|].
  remember (c :: u) as utxos eqn:Eu. remember (r :: p) as payable eqn:Ep.
  destruct (build_one_batch_spec utxos payable cs fr) as [->|(b & -> & Hb)]; [done|done|done|].
  simpl. fold (next_coins utxos (length a) b cs).
  destruct (next_coins_ok cs fr utxos payable (length a) b) as [Hn _]; [done..|].
  apply IH; [done| | |by apply Hstep].
  - apply Forall_forall. intros x Hx. apply (proj1 (Forall_forall _ _) Hp).
    eapply sublist_subseteq, Hx. apply remove_paid_sublist.
  - pose proof (remove_paid_shrinks _ _ (bo_payouts _ _ _ _ _ Hb) (bo_nonempty _ _ _ _ _ Hb)). lia.
Qed.

Lemma partition_by_floor_acc recipients p d :
  foldl (λ '(payable, deferred) r,
           if MIN_PAYOUT_OUTPUT_SOMPI <=? amount_sompi r
           then (payable ++ [r], deferred) else (payable, deferred ++ [r])) (p, d) recipients
  = (p ++ retain (λ r, MIN_PAYOUT_OUTPUT_SOMPI <=? amount_sompi r) recipients,
     d ++ retain (λ r, negb (MIN_PAYOUT_OUTPUT_SOMPI <=? amount_sompi r)) recipients).
Proof.
  revert p d. induction recipients as [|r l IH]; intros p d; simpl; [by rewrite !app_nil_r|].
  case_bool; simpl; rewrite IH, <- !app_assoc; done.
Qed.

Lemma partition_by_floor_eq recipients :
  partition_by_floor recipients
  = (retain (λ r, MIN_PAYOUT_OUTPUT_SOMPI <=? amount_sompi r) recipients,
     retain (λ r, negb (MIN_PAYOUT_OUTPUT_SOMPI <=? amount_sompi r)) recipients).
Proof. apply (partition_by_floor_acc recipients [] []). Qed.

(** The recipients the loop starts from. *)
Definition payable_of recipients : list (PayoutRecipient Script) :=
  sort_recipients_desc (retain (λ r, MIN_PAYOUT_OUTPUT_SOMPI <=? amount_sompi r) recipients).
Definition deferred_of recipients : list (PayoutRecipient Script) :=
  retain (λ r, negb (MIN_PAYOUT_OUTPUT_SOMPI <=? amount_sompi r)) recipients.

Lemma payable_of_perm recipients : recipients ≡ₚ payable_of recipients ++ deferred_of recipients.
Proof.
  unfold payable_of, sort_recipients_desc. rewrite stable_sort_perm. apply retain_perm_split.
Qed.

Lemma payable_of_elem recipients r : r ∈ payable_of recipients ↔
  r ∈ recipients ∧ MIN_PAYOUT_OUTPUT_SOMPI ≤ amount_sompi r.
Proof.
  unfold payable_of, sort_recipients_desc. rewrite stable_sort_perm, elem_of_retain.
  by rewrite Z.leb_le.
Qed.

Lemma payable_of_amounts recipients : amounts_ok recipients → amounts_ok (payable_of recipients).
Proof.
  intros Ha. apply Forall_forall. intros r [Hr _]%payable_of_elem.
  by apply (proj1 (Forall_forall _ _) Ha).
Qed.

(** [plan_loop_spec] lifted to [plan_batches]. *)
Lemma plan_batches_spec (I : list (TreasuryUtxo Script) → list (PayoutRecipient Script) →
    list (PlannedBatch Script) → Prop) utxos recipients cs fr :
  (∀ u p a b, coins_ok u → amounts_ok p → batch_ok cs fr u p b → I u p a →
    I (next_coins u (length a) b cs) (remove_paid p (batch_payouts b)) (a ++ [b])) →
  I (sort_utxos_desc utxos) (payable_of recipients) [] →
  coins_ok utxos → amounts_ok recipients →
  ∃ u' r, plan_batches utxos recipients cs fr = Ret r ∧
          I u' (unpaid r) (batches r) ∧ deferred_below_floor r = deferred_of recipients.
Proof.
  intros Hstep HI Hu Ha. unfold plan_batches. rewrite partition_by_floor_eq.
  fold (payable_of recipients).
  edestruct (plan_loop_spec I cs fr) as (u' & p' & a' & -> & HI'); [done| | | |exact HI|].
  - by apply coins_ok_sort.
  - by apply payable_of_amounts.
  - done.
  - simpl. by exists u', {| batches := a'; deferred_below_floor := deferred_of recipients; unpaid := p' |}.
Qed.
End planner.
