(* ===== verification/PlannerProps.v ===== *)
(** * Properties of the payout batch planner

    What [plan_batches] (crates/katpool-storagemass/src/planner.rs)
    guarantees for every treasury, recipient list, fee policy and mass
    calculator, with concrete instances of each statement. *)

From S2P Require Import Prelude Float64 Mass Fee Planner.

(** A concrete mass calculator for the witnesses: 1,000 grams per input and
    500 per output, scripts of 34 bytes. *)
Module Toy.
#[export] Instance calculator : MassCalculator Z := {
  calc_non_contextual_masses tx :=
    (1000 * Z.of_nat (length (inputs tx)) + 500 * Z.of_nat (length (outputs tx)),
     400 * Z.of_nat (length (inputs tx)));
  calc_contextual_masses _ _ := Some 0;
  transaction_output_estimated_serialized_size _ := 52;
  MAINNET_MAX_BLOCK_MASS := 500000;
}.

Definition coin_of (txid amt : Z) : TreasuryUtxo Z :=
  {| outpoint := {| transaction_id := txid; out_index := 0 |};
     entry := {| amount := amt; script_public_key := 7; block_daa_score := 0;
                 is_coinbase := false; covenant_id := None |} |}.
Definition pay_to (id amt : Z) : PayoutRecipient Z :=
  {| rid := id; amount_sompi := amt; recipient_script := id |}.

Definition treasury := [coin_of 100 3000000000; coin_of 101 5000000000].
Definition payees := [pay_to 1 1000000000; pay_to 2 1000000; pay_to 3 2500000000; pay_to 4 4000000000].
Definition rate := from_feerate (f64_of_Z 1).
Definition plan := plan_batches treasury payees 7 rate.
End Toy.

Section properties.
Context {Script : Type} `{!MassCalculator Script}.
Implicit Types (utxos : list (TreasuryUtxo Script)).
Implicit Types (recipients : list (PayoutRecipient Script)).

Abbreviation paid_in r := (concat (map (@batch_payouts Script) (batches r))).
Abbreviation spent_in r := (concat (map (@batch_inputs Script) (batches r))).

(** C22: [plan_batches] always returns: no addition or subtraction of the
    planner overflows and both its loops end, whenever the treasury holds
    less than [u64::MAX] sompi. *)
Theorem plan_batches_total utxos recipients (cs : Script) fr :
  coins_ok utxos → amounts_ok recipients →
  ∃ r, plan_batches utxos recipients cs fr = Ret r.
Proof.
  intros Hu Ha. destruct (plan_batches_spec (λ _ _ _, True) utxos recipients cs fr)
    as (_ & r & Hr & _); eauto.
Qed.

(** A batch pays someone; the mass recorded for it is the evaluator's for its own inputs and outputs, and
    fits the block in all three dimensions; what its inputs hold beyond the payouts is split to the sompi
    into the change and the policy's fee for the mass measured with the whole rest as change, with only a
    dust remainder added to the fee; and a kept change output is not dust. *)
Definition batch_sound (cs : Script) (fr : FeeRate) (b : PlannedBatch Script) : Prop :=
  batch_payouts b ≠ []
  ∧ 0 ≤ change_amount_sompi b
  ∧ (∃ gross, mass_recorded cs b gross
       ∧ effective (batch_mass b) ≤ MAINNET_MAX_BLOCK_MASS ∧ effective gross ≤ MAINNET_MAX_BLOCK_MASS
       ∧ fee_settled cs fr gross (left_over b) (change_amount_sompi b))
  ∧ (reserves_fee fr = true → 0 < change_amount_sompi b →
       is_change_dust (change_amount_sompi b) cs = false).

Lemma batch_ok_sound (cs : Script) fr utxos recipients b : batch_ok cs fr utxos recipients b → batch_sound cs fr b.
Proof.
  intros []. split_and!; [done|done| |done]. destruct bo_balance as (gross & Hm & Hf). exists gross.
  split_and!; [done|by apply fits_independently_spec| |done].
  apply fits_independently_spec. by eapply evaluate_shape_fits, Hm.
Qed.

(** Every batch of a plan is sound. *)
Lemma plan_sound utxos recipients (cs : Script) fr r :
  coins_ok utxos → amounts_ok recipients → plan_batches utxos recipients cs fr = Ret r →
  Forall (batch_sound cs fr) (batches r).
Proof.
  intros Hu Ha Hr.
  edestruct (plan_batches_spec (λ _ _ a, Forall (batch_sound cs fr) a) utxos recipients cs fr)
    as (_ & r' & Hr' & HI & _); [|constructor|done|done|rewrite Hr in Hr'; simplify_eq; exact HI].
  intros u p a b _ _ Hb HI. apply Forall_app; split; [exact HI|]. constructor; [|constructor].
  by eapply batch_ok_sound.
Qed.


(** The recipients, split into paid, unpaid and deferred. *)
Lemma plan_batches_partition utxos recipients (cs : Script) fr r :
  coins_ok utxos → amounts_ok recipients → NoDup (map rid recipients) →
  plan_batches utxos recipients cs fr = Ret r →
  payable_of recipients ≡ₚ paid_in r ++ unpaid r ∧ deferred_below_floor r = deferred_of recipients.
Proof.
  intros Hu Ha Hnd Hr.
  edestruct (plan_batches_spec (λ _ p a, payable_of recipients ≡ₚ concat (map batch_payouts a) ++ p)
               utxos recipients cs fr) as (_ & r' & Hr' & HI & Hd); [|done|done|done|].
  - intros u p a b _ _ Hb HI. rewrite HI, map_app, concat_app, <- app_assoc. f_equiv. simpl.
    rewrite app_nil_r. apply remove_paid_perm; [|by destruct Hb].
    rewrite (payable_of_perm recipients), HI, !map_app in Hnd.
    by apply NoDup_app in Hnd as [(_ & _ & ?)%NoDup_app _].
  - rewrite Hr in Hr'. by simplify_eq.
Qed.

Lemma plan_batches_perm utxos recipients (cs : Script) fr r :
  coins_ok utxos → amounts_ok recipients → NoDup (map rid recipients) →
  plan_batches utxos recipients cs fr = Ret r →
  recipients ≡ₚ paid_in r ++ unpaid r ++ deferred_below_floor r.
Proof.
  intros Hu Ha Hnd Hr. destruct (plan_batches_partition _ _ _ _ _ Hu Ha Hnd Hr) as [HI ->].
  rewrite app_assoc, <- HI. apply payable_of_perm.
Qed.

(** C11: Nobody is lost and nobody is paid twice: with distinct recipient ids the
    recipients are, up to order, those paid in some batch, those deferred
    below the floor and those left unpaid; every paid amount reaches the
    floor and every deferred one is below it. *)
Theorem plan_batches_accounts utxos recipients (cs : Script) fr r :
  coins_ok utxos → amounts_ok recipients → NoDup (map rid recipients) →
  plan_batches utxos recipients cs fr = Ret r →
  recipients ≡ₚ paid_in r ++ unpaid r ++ deferred_below_floor r
  ∧ Forall (λ p, MIN_PAYOUT_OUTPUT_SOMPI ≤ amount_sompi p) (paid_in r ++ unpaid r)
  ∧ Forall (λ p, amount_sompi p < MIN_PAYOUT_OUTPUT_SOMPI) (deferred_below_floor r).
Proof.
  intros Hu Ha Hnd Hr. split; [by eapply plan_batches_perm|].
  destruct (plan_batches_partition _ _ _ _ _ Hu Ha Hnd Hr) as [HI ->]. rewrite <- HI.
  split; apply Forall_forall; intros p.
  - by intros [_ ?]%payable_of_elem.
  - intros [_ ?]%elem_of_retain. lia.
Qed.

(** The planner never promises more than the treasury holds. *)
Theorem plan_batches_solvent utxos recipients (cs : Script) fr r :
  coins_ok utxos → amounts_ok recipients → plan_batches utxos recipients cs fr = Ret r →
  sumZ (map amount_sompi (paid_in r)) ≤ sumZ (map coin utxos).
Proof.
  intros Hu Ha Hr.
  edestruct (plan_batches_spec (λ u p a, coins_ok u ∧
      sumZ (map amount_sompi (concat (map batch_payouts a))) + sumZ (map coin u) ≤ sumZ (map coin utxos))
    utxos recipients cs fr) as (u' & r' & Hr' & [[Hc _] HI] & _); [| |done|done|].
  - intros u p a b Hc Hp Hb [_ HI]. destruct (next_coins_ok cs fr u p (length a) b) as [? ?]; [done..|].
    split; [done|]. rewrite map_app, concat_app, map_app, sumZ_app. simpl. rewrite app_nil_r. lia.
  - split; [by apply coins_ok_sort|]. simpl. rewrite coin_sum_sort. apply Z.le_refl.
  - rewrite Hr in Hr'. simplify_eq. pose proof (sumZ_nonneg (map coin u')) as Hn.
    rewrite List.Forall_map in Hn. specialize (Hn Hc). lia.
Qed.

(** *** No coin is spent by two batches *)

Definition fresh_virtual (n : nat) (u : TreasuryUtxo Script) : Prop :=
  is_planning_virtual u = true → out_index (outpoint u) < Z.of_nat n.

Lemma next_coins_outpoints cs fr utxos recipients n b (spent : list (TreasuryUtxo Script)) :
  batch_ok cs fr utxos recipients b →
  NoDup (map outpoint (spent ++ utxos)) → Forall (fresh_virtual n) (spent ++ utxos) →
  NoDup (map outpoint ((spent ++ batch_inputs b) ++ next_coins utxos n b cs))
  ∧ Forall (fresh_virtual (S n)) ((spent ++ batch_inputs b) ++ next_coins utxos n b cs).
Proof.
  intros Hb Hnd Hf. destruct (bo_inputs _ _ _ _ _ Hb) as (k & _ & Hk).
  assert (Hsub : sublist (batch_inputs b ++ remove_consumed utxos (batch_inputs b)) utxos).
  { rewrite Hk. etrans; [apply sublist_app; [reflexivity|apply remove_consumed_take]|].
    by rewrite take_drop. }
  apply (sublist_app spent spent) in Hsub; [|done]. rewrite app_assoc in Hsub.
  assert (Hnd' := sublist_NoDup _ _ Hnd (sublist_map outpoint _ _ Hsub)).
  assert (Hf' : Forall (fresh_virtual n)
    ((spent ++ batch_inputs b) ++ remove_consumed utxos (batch_inputs b))).
  { apply Forall_forall. intros x Hx. apply (proj1 (Forall_forall _ _) Hf).
    by eapply sublist_subseteq. }
  assert (Hmono : ∀ l, Forall (fresh_virtual n) l → Forall (fresh_virtual (S n)) l).
  { intros l Hl. apply (Forall_impl _ _ _ Hl). unfold fresh_virtual. intros x Hx Hv.
    specialize (Hx Hv). lia. }
  destruct (next_coins_cases utxos n b cs) as [->|[_ ->]]; [by auto|].
  rewrite <- Permutation_middle. simpl. split.
  - apply NoDup_cons. split; [|done]. intros (u & Hu & Hin)%list_elem_of_fmap.
    assert (fresh_virtual n u) as Hv by by apply (proj1 (Forall_forall _ _) Hf').
    unfold fresh_virtual, is_planning_virtual in Hv. rewrite <- Hu in Hv. simpl in Hv.
    specialize (Hv eq_refl). lia.
  - constructor; [|by auto]. intros _. simpl. lia.
Qed.

(** C13: No outpoint is spent by two batches of one plan, virtual change coins
    included, when the treasury's own outpoints are distinct and real. *)
Theorem plan_batches_no_double_spend utxos recipients (cs : Script) fr r :
  coins_ok utxos → amounts_ok recipients → NoDup (map outpoint utxos) →
  Forall (λ u, is_planning_virtual u = false) utxos →
  plan_batches utxos recipients cs fr = Ret r →
  NoDup (map outpoint (spent_in r)).
Proof.
  intros Hu Ha Hnd Hv Hr.
  edestruct (plan_batches_spec (λ u p a,
      NoDup (map outpoint (concat (map batch_inputs a) ++ u)) ∧
      Forall (fresh_virtual (length a)) (concat (map batch_inputs a) ++ u))
    utxos recipients cs fr) as (u' & r' & Hr' & [HI _] & _); [| |done|done|].
  - intros u p a b Hc Hp Hb [HI1 HI2].
    rewrite (map_app batch_inputs), concat_app, length_app, Nat.add_1_r. simpl. rewrite app_nil_r.
    by eapply next_coins_outpoints.
  - simpl. rewrite sort_utxos_desc_perm. split; [done|].
    apply (Forall_impl _ _ _ Hv). unfold fresh_virtual. congruence.
  - rewrite Hr in Hr'. simplify_eq. rewrite map_app in HI. by apply NoDup_app in HI as [? _].
Qed.

(** The inputs of a batch that are not planned change are coins of the treasury, none used more often
    than the treasury has it. *)
Abbreviation real_coins us := (retain (λ u : TreasuryUtxo Script, negb (is_planning_virtual u)) us).

Lemma real_coins_next utxos n b (cs : Script) : real_coins (next_coins utxos n b cs) ⊆+ real_coins utxos.
Proof.
  assert (real_coins (remove_consumed utxos (batch_inputs b)) ⊆+ real_coins utxos) as Hrest.
  { apply sublist_submseteq, retain_sublist_mono, retain_sublist. }
  destruct (next_coins_cases utxos n b cs) as [->|[_ Hp]]; [done|].
  by rewrite Hp.
Qed.

Lemma plan_inputs_real utxos recipients (cs : Script) fr r :
  coins_ok utxos → amounts_ok recipients → plan_batches utxos recipients cs fr = Ret r →
  Forall (λ b, existsb is_planning_virtual (batch_inputs b) = false → batch_inputs b ⊆+ utxos) (batches r).
Proof.
  intros Hu Ha Hr.
  edestruct (plan_batches_spec (λ u _ a, real_coins u ⊆+ utxos ∧
      Forall (λ b, existsb is_planning_virtual (batch_inputs b) = false → batch_inputs b ⊆+ utxos) a)
    utxos recipients cs fr) as (_ & r' & Hr' & [_ HI] & _); [| |done|done|rewrite Hr in Hr'; simplify_eq; exact HI].
  - intros u p a b _ _ Hb [Hreal HI]. split; [etrans; [apply real_coins_next|done]|].
    apply Forall_app. split; [done|]. apply Forall_singleton. intros Hv. etrans; [|exact Hreal].
    rewrite <- (retain_all (λ u, negb (is_planning_virtual u)) (batch_inputs b)).
    + destruct (bo_inputs _ _ _ _ _ Hb) as (k & _ & ->). apply sublist_submseteq, retain_sublist_mono, sublist_take.
    + apply Forall_forall. intros x Hx. apply negb_true_iff, not_true_iff_false. intros E. apply not_true_iff_false in Hv. apply Hv.
      apply existsb_exists. exists x. by rewrite <- list_elem_of_In.
  - split; [|constructor]. etrans; [apply sublist_submseteq, retain_sublist|]. by rewrite sort_utxos_desc_perm.
Qed.

Lemma plan_paid_amounts utxos recipients (cs : Script) fr r :
  coins_ok utxos → amounts_ok recipients → plan_batches utxos recipients cs fr = Ret r →
  Forall (λ b, Forall (λ p, 0 ≤ amount_sompi p) (batch_payouts b)) (batches r).
Proof.
  intros Hu Ha Hr.
  edestruct (plan_batches_spec (λ _ _ a, Forall (λ b, Forall (λ p, 0 ≤ amount_sompi p) (batch_payouts b)) a) utxos recipients cs fr)
    as (_ & r' & Hr' & HI & _); [|constructor|done|done|rewrite Hr in Hr'; simplify_eq; exact HI].
  intros u p a b _ Hp Hb HI. apply Forall_app. split; [done|]. apply Forall_singleton, Forall_forall. intros x Hx.
  apply (proj1 (Forall_forall _ _) Hp). eapply sublist_subseteq; [apply Hb|done].
Qed.

(** *** Inputs are not widened past a coin that funds nobody

    [greedy_recipients_for_inputs] answers [None] for an empty selection
    and [build_one_batch] propagates it with [?], so its
    [selected.is_empty()] branch is dead. *)

Lemma greedy_loop_poor ins s recipients (cs : Script) fr max rest idx :
  Forall (λ r, 0 ≤ amount_sompi r ∧ s < amount_sompi r) rest → 0 ≤ s < u64_max →
  greedy_loop ins s recipients cs fr max rest idx [] = Ret [].
Proof.
  intros Hf Hs. revert idx. induction Hf as [|r rest [? Hr] Hf IH]; intros idx; simpl; [done|].
  case_bool; [done|]. rewrite (proj2 (Z.ltb_lt _ _)); [apply IH|].
  unfold u64_saturating_add. lia.
Qed.

Lemma build_one_batch_poor u us recipients (cs : Script) fr :
  coins_ok (u :: us) → amounts_ok recipients →
  Forall (λ r, coin u < amount_sompi r) recipients →
  build_one_batch (u :: us) recipients cs fr = Ret None.
Proof.
  intros Hu Ha Hr. destruct (coins_take 1 _ Hu) as [Hn Hs]. unfold build_one_batch.
  cbn [length build_one_batch_loop]. rewrite sum_u64_Ret by (done || lia). cbn.
  unfold greedy_recipients_for_inputs. rewrite greedy_loop_poor; [done| |done].
  apply Forall_forall. intros r Hin. simpl in *. unfold sumZ; simpl.
  pose proof (proj1 (Forall_forall _ _) Ha r Hin). pose proof (proj1 (Forall_forall _ _) Hr r Hin).
  simpl in *. lia.
Qed.

(** When every coin is smaller than every payable recipient, the planner
    makes no batch at all, however much the coins add up to. *)
Theorem plan_batches_never_combines utxos recipients (cs : Script) fr :
  coins_ok utxos → amounts_ok recipients →
  (∀ u r, u ∈ utxos → r ∈ recipients → MIN_PAYOUT_OUTPUT_SOMPI ≤ amount_sompi r →
     coin u < amount_sompi r) →
  ∃ r, plan_batches utxos recipients cs fr = Ret r ∧ batches r = []
       ∧ unpaid r ≡ₚ retain (λ r, MIN_PAYOUT_OUTPUT_SOMPI <=? amount_sompi r) recipients.
Proof.
  intros Hu Ha Hpoor. unfold plan_batches. rewrite partition_by_floor_eq.
  fold (payable_of recipients).
  exists {| batches := []; deferred_below_floor := deferred_of recipients;
            unpaid := payable_of recipients |}.
  split; [|split; [reflexivity|apply stable_sort_perm]].
  assert (plan_loop cs fr (length (payable_of recipients)) (sort_utxos_desc utxos)
            (payable_of recipients) [] = Ret ([], payable_of recipients)) as ->; [|done].
  destruct (payable_of recipients) as [|q l] eqn:Ep; [done|].
  destruct (sort_utxos_desc utxos) as [|u us] eqn:Eu; [done|].
  cbn [length plan_loop]. rewrite build_one_batch_poor; [done|..].
  - rewrite <- Eu. by apply coins_ok_sort.
  - rewrite <- Ep. by apply payable_of_amounts.
  - rewrite <- Ep. apply Forall_forall. intros r [Hr Hfl]%payable_of_elem. apply Hpoor; [|done..].
    rewrite <- (sort_utxos_desc_perm utxos), Eu. set_solver.
Qed.
End properties.

(** ** Witnesses *)

Import Toy.

Lemma toy_coins_ok : coins_ok Toy.treasury.
Proof. split; by_computation. Qed.
Lemma toy_amounts_ok : amounts_ok Toy.payees.
Proof. by_computation. Qed.

Lemma plan_batches_total_witness : ∃ r, Toy.plan = Ret r.
Proof. apply (plan_batches_total Toy.treasury Toy.payees 7 Toy.rate toy_coins_ok toy_amounts_ok). Defined.

(** The plan of the example, which exists by the computation above. *)
Definition toy_result : PlanBatchesResult Z :=
  match Toy.plan with
  | Ret r => r
  | Panic => {| batches := []; deferred_below_floor := []; unpaid := [] |}
  end.
Lemma toy_result_eq : Toy.plan = Ret toy_result.
Proof. vm_compute. reflexivity. Qed.


Lemma plan_batches_accounts_witness :
  Toy.payees ≡ₚ concat (map batch_payouts (batches toy_result)) ++ unpaid toy_result
                 ++ deferred_below_floor toy_result
  ∧ map rid (unpaid toy_result) = [1] ∧ map rid (deferred_below_floor toy_result) = [2].
Proof.
  split; [|vm_compute; split; reflexivity].
  refine (proj1 (plan_batches_accounts Toy.treasury Toy.payees 7 Toy.rate _
                   toy_coins_ok toy_amounts_ok _ toy_result_eq)).
  by_computation.
Defined.

Lemma plan_batches_solvent_witness :
  sumZ (map amount_sompi (concat (map batch_payouts (batches toy_result)))) ≤ 8000000000.
Proof.
  exact (plan_batches_solvent Toy.treasury Toy.payees 7 Toy.rate _
           toy_coins_ok toy_amounts_ok toy_result_eq).
Defined.

Lemma plan_batches_no_double_spend_witness :
  NoDup (map outpoint (concat (map batch_inputs (batches toy_result)))).
Proof.
  refine (plan_batches_no_double_spend Toy.treasury Toy.payees 7 Toy.rate _
            toy_coins_ok toy_amounts_ok _ _ toy_result_eq); by_computation.
Defined.

(** Two 5-KAS coins hold 10 KAS, yet an 8-KAS recipient stays unpaid. *)
Lemma plan_batches_never_combines_witness :
  let coins := [Toy.coin_of 100 500000000; Toy.coin_of 101 500000000] in
  let payees := [Toy.pay_to 1 800000000] in
  sumZ (map coin coins) = 1000000000 ∧
  ∃ r, plan_batches coins payees 7 Toy.rate = Ret r ∧ batches r = [] ∧ unpaid r ≡ₚ payees.
Proof.
  split; [vm_compute; reflexivity|].
  apply (plan_batches_never_combines [Toy.coin_of 100 500000000; Toy.coin_of 101 500000000]
           [Toy.pay_to 1 800000000] 7 Toy.rate).
  - split; by_computation.
  - by_computation.
  - intros u r Hu Hr _. apply list_elem_of_In in Hu. apply list_elem_of_In in Hr. simpl in Hu, Hr.
    destruct Hu as [<-|[<-|[]]], Hr as [<-|[]]; by_computation.
Defined.
