(* ===== verification/Consolidation.v ===== *)
(** * The treasury consolidation planner

    crates/katpool-storagemass/src/consolidation.rs: N-to-1 self-sends that
    merge the smallest coins first, sized by a binary search against the
    mempool's standard-transaction mass limit. *)

From S2P Require Import Prelude Float64 Mass Fee Planner PlannerProps.

Definition MIN_CONSOLIDATION_INPUTS : nat := 2.

(** [slice.chunks(n)] for [n > 0]; the fuel bounds the number of chunks. *)
Fixpoint chunks_fuel {A} (fuel n : nat) (l : list A) : list (list A) :=
  match fuel, l with
  | _, [] | O, _ => []
  | S fuel, _ => take n l :: chunks_fuel fuel n (drop n l)
  end.
Definition chunks {A} (n : nat) (l : list A) : list (list A) := chunks_fuel (length l) n l.

Section consolidation.
Context {Script : Type} `{!MassCalculator Script}.
Implicit Types (utxos ins : list (TreasuryUtxo Script)).

Definition sort_utxos_asc : list (TreasuryUtxo Script) → list (TreasuryUtxo Script) :=
  stable_sort (λ a b, coin a <=? coin b).

Definition evaluate_self_send ins (treasury_script : Script) (change_amount : Z) : option TxMass :=
  let '(tx, entries) := build_populated ins [] treasury_script change_amount in
  match evaluate_populated tx entries with
  | Ok mass => if fits_independently mass MAX_STANDARD_TX_MASS then Some mass else None
  | Err _ => None
  end.

Definition fits_prefix utxos (treasury_script : Script) (n : nat) : exec (option TxMass) :=
  if (length utxos <? n)%nat then Ret None
  else
    let ins := take n utxos in
    input_sum ← sum_u64 (map coin ins);
    Ret (evaluate_self_send ins treasury_script input_sum).

(** The [while lo < hi] loop of [max_inputs_that_fit]; running out of fuel is
    [Panic], which [max_inputs_that_fit_spec] excludes. *)
Fixpoint search_loop utxos (treasury_script : Script) (fuel lo hi : nat) : exec nat :=
  if (lo <? hi)%nat then
    match fuel with
    | O => Panic
    | S fuel =>
        let mid := (lo + (hi - lo + 1) / 2)%nat in
        fit ← fits_prefix utxos treasury_script mid;
        match fit with
        | Some _ => search_loop utxos treasury_script fuel mid hi
        | None => search_loop utxos treasury_script fuel lo (mid - 1)
        end
    end
  else Ret lo.

Definition max_inputs_that_fit utxos (treasury_script : Script) (max_inputs_per_tx : nat) : exec nat :=
  let hi_bound := Nat.min max_inputs_per_tx (length utxos) in
  if (hi_bound =? 0)%nat then Ret 0%nat
  else
    one ← fits_prefix utxos treasury_script 1;
    match one with
    | None => Ret 0%nat
    | Some _ => search_loop utxos treasury_script hi_bound 1 hi_bound
    end.

(** The [for chunk in utxos.chunks(cap)] loop. *)
Fixpoint consolidation_loop (treasury_script : Script) (fee_rate : FeeRate) (max_txs : nat)
    (cs : list (list (TreasuryUtxo Script))) (acc : list (PlannedBatch Script)) :
    exec (list (PlannedBatch Script)) :=
  match cs with
  | [] => Ret acc
  | chunk :: cs =>
      if (max_txs <=? length acc)%nat then Ret acc
      else if (length chunk <? MIN_CONSOLIDATION_INPUTS)%nat then Ret acc
      else
        input_sum ← sum_u64 (map coin chunk);
        match evaluate_self_send chunk treasury_script input_sum with
        | None => consolidation_loop treasury_script fee_rate max_txs cs acc
        | Some mass =>
            if reserves_fee fee_rate && (input_sum <=? fee_for fee_rate mass)
            then consolidation_loop treasury_script fee_rate max_txs cs acc
            else consolidation_loop treasury_script fee_rate max_txs cs
                   (acc ++ [{| batch_inputs := chunk; batch_payouts := [];
                               change_amount_sompi := input_sum; batch_mass := mass |}])
        end
  end.

Definition plan_consolidation utxos (treasury_script : Script) (fee_rate : FeeRate)
    (max_inputs_per_tx max_txs : nat) : exec (list (PlannedBatch Script)) :=
  let utxos := retain (λ u, negb (is_planning_virtual u)) utxos in
  if (max_txs =? 0)%nat
     || (max_inputs_per_tx <? MIN_CONSOLIDATION_INPUTS)%nat
     || (length utxos <? MIN_CONSOLIDATION_INPUTS)%nat
  then Ret []
  else
    let utxos := sort_utxos_asc utxos in
    cap ← max_inputs_that_fit utxos treasury_script max_inputs_per_tx;
    if (cap <? MIN_CONSOLIDATION_INPUTS)%nat then Ret []
    else consolidation_loop treasury_script fee_rate max_txs (chunks cap utxos) [].

(** ** The input ceiling *)

(** Whether the first [n] coins form a standard self-send. *)
Definition fits utxos cs n : bool :=
  (n <=? length utxos)%nat &&
  match evaluate_self_send (take n utxos) cs (sumZ (map coin (take n utxos))) with
  | Some _ => true | None => false end.

Lemma fits_prefix_eq utxos cs n : coins_ok utxos →
  ∃ o, fits_prefix utxos cs n = Ret o ∧ (fits utxos cs n = true ↔ is_Some o).
Proof.
  intros Hu. destruct (coins_take n utxos Hu) as [Hn Hs]. unfold fits_prefix, fits.
  destruct (Nat.ltb_spec (length utxos) n).
  - exists None. rewrite (proj2 (Nat.leb_gt _ _)) by lia. split; [done|]. simpl. by split; [|intros ?%is_Some_None].
  - rewrite sum_u64_Ret by (done || lia). rewrite (proj2 (Nat.leb_le _ _)) by lia. simpl.
    eexists; split; [done|]. case_match; split; try done; by intros ?%is_Some_None.
Qed.

Lemma search_loop_spec utxos cs fuel lo hi :
  coins_ok utxos → (hi - lo ≤ fuel)%nat → (lo ≤ hi)%nat → fits utxos cs lo = true →
  ∃ r, search_loop utxos cs fuel lo hi = Ret r ∧ (lo ≤ r ≤ hi)%nat ∧ fits utxos cs r = true
       ∧ ((∀ n m, (lo ≤ n ≤ m)%nat → (m ≤ hi)%nat → fits utxos cs m = true → fits utxos cs n = true) →
          ∀ n, (r < n ≤ hi)%nat → fits utxos cs n = false).
Proof.
  intros Hu. revert lo hi. induction fuel as [|fuel IH]; intros lo hi Hf Hle Hlo; simpl.
  { rewrite (proj2 (Nat.ltb_ge _ _)) by lia. exists lo. split_and!; try done; lia. }
  destruct (Nat.ltb_spec lo hi) as [Hlt|].
  2: { exists lo. split_and!; try done; lia. }
  pose proof (Nat.div_mod_eq (hi - lo + 1) 2). pose proof (Nat.mod_upper_bound (hi - lo + 1) 2 ltac:(lia)).
  change (fst (Nat.divmod (hi - lo + 1) 1 0 1)) with ((hi - lo + 1) / 2)%nat.
  set (mid := (lo + (hi - lo + 1) / 2)%nat) in *.
  destruct (fits_prefix_eq utxos cs mid Hu) as (o & -> & Ho). simpl. destruct o as [m|].
  - assert (Hm : fits utxos cs mid = true) by (apply Ho; eauto).
    destruct (IH mid hi) as (r & -> & Hr & Hfr & Hmax); [lia|lia|done|].
    exists r. split_and!; [done|lia|lia|done|]. intros Hmono n Hn. apply Hmax; [|lia].
    intros a b ? ?. apply Hmono; lia.
  - assert (Hm : fits utxos cs mid = false).
    { apply not_true_iff_false. rewrite Ho. by intros ?%is_Some_None. }
    destruct (IH lo (mid - 1)%nat) as (r & -> & Hr & Hfr & Hmax); [lia|lia|done|].
    exists r. split_and!; [done|lia|lia|done|]. intros Hmono n Hn.
    destruct (decide (n ≤ mid - 1)%nat).
    + apply Hmax; [|lia]. intros a b ? ?. apply Hmono; lia.
    + apply not_true_iff_false. intros Hfn. apply (Hmono mid n) in Hfn; [congruence|lia|lia].
Qed.

(** The binary search returns 0 or a count that fits, and the largest one
    when mass does not decrease with the input count. *)
Lemma max_inputs_that_fit_spec utxos cs maxi : coins_ok utxos →
  ∃ r, max_inputs_that_fit utxos cs maxi = Ret r ∧ (r ≤ Nat.min maxi (length utxos))%nat
       ∧ (r = 0%nat ∨ fits utxos cs r = true)
       ∧ ((∀ n m, (1 ≤ n ≤ m)%nat → fits utxos cs m = true → fits utxos cs n = true) →
          ∀ n, (r < n ≤ maxi)%nat → fits utxos cs n = false).
Proof.
  intros Hu. unfold max_inputs_that_fit. destruct (Nat.eqb_spec (Nat.min maxi (length utxos)) 0) as [Hz|Hz].
  { exists 0%nat. split_and!; [done|lia|by left|]. intros _ n Hn. unfold fits.
    by rewrite (proj2 (Nat.leb_gt _ _)) by lia. }
  destruct (fits_prefix_eq utxos cs 1 Hu) as (o & -> & Ho). simpl. destruct o as [m|].
  - assert (fits utxos cs 1 = true) as H1 by (apply Ho; eauto).
    destruct (search_loop_spec utxos cs (Nat.min maxi (length utxos)) 1 (Nat.min maxi (length utxos)))
      as (r & -> & Hr & Hfr & Hmax); [done|lia|lia|done|].
    exists r. split_and!; [done|lia|by right|]. intros Hmono n Hn.
    destruct (decide (n ≤ length utxos)%nat).
    + apply Hmax; [|lia]. intros a b ? ?. apply Hmono. lia.
    + unfold fits. by rewrite (proj2 (Nat.leb_gt _ _)) by lia.
  - exists 0%nat. split_and!; [done|lia|by left|]. intros Hmono n Hn.
    apply not_true_iff_false. intros Hf. apply (Hmono 1%nat) in Hf; [|lia].
    by apply Ho, is_Some_None in Hf.
Qed.

(** ** The batches *)

Lemma chunks_fuel_concat {A} fuel n (l : list A) :
  (1 ≤ n)%nat → (length l ≤ fuel)%nat → concat (chunks_fuel fuel n l) = l.
Proof.
  intros Hn. revert l. induction fuel as [|fuel IH]; intros [|x l] Hl; simpl in *; try done; [lia|].
  destruct n as [|n]; [lia|]. rewrite IH; [by rewrite take_drop|]. simpl. rewrite length_drop. lia.
Qed.

Lemma chunks_fuel_length {A} fuel n (l : list A) :
  Forall (λ c, length c ≤ n)%nat (chunks_fuel fuel n l).
Proof.
  revert l. induction fuel as [|fuel IH]; intros [|x l]; simpl; constructor; [|done].
  rewrite length_take. lia.
Qed.

(** What the consolidation planner promises of a batch. *)
Definition merge_ok (cs : Script) (fr : FeeRate) (cap : nat) (b : PlannedBatch Script) : Prop :=
  batch_payouts b = []
  ∧ (MIN_CONSOLIDATION_INPUTS ≤ length (batch_inputs b) ≤ cap)%nat
  ∧ change_amount_sompi b = sumZ (map coin (batch_inputs b))
  ∧ evaluate_self_send (batch_inputs b) cs (change_amount_sompi b) = Some (batch_mass b)
  ∧ effective (batch_mass b) ≤ MAX_STANDARD_TX_MASS
  ∧ (reserves_fee fr = true → fee_for fr (batch_mass b) < change_amount_sompi b).

Lemma evaluate_self_send_fits ins cs c m :
  evaluate_self_send ins cs c = Some m → effective m ≤ MAX_STANDARD_TX_MASS.
Proof.
  unfold evaluate_self_send. simpl. intros. apply fits_independently_spec.
  by repeat case_match; simplify_eq.
Qed.

Lemma consolidation_loop_spec cs fr maxt cap cl acc :
  coins_ok (concat cl) → Forall (λ c, length c ≤ cap)%nat cl →
  (length acc ≤ maxt)%nat → Forall (merge_ok cs fr cap) acc →
  ∃ out, consolidation_loop cs fr maxt cl acc = Ret (acc ++ out)
    ∧ Forall (merge_ok cs fr cap) (acc ++ out) ∧ (length (acc ++ out) ≤ maxt)%nat
    ∧ sublist (concat (map batch_inputs out)) (concat cl).
Proof.
  revert acc. induction cl as [|c cl IH]; intros acc Hu Hcap Hlen Hacc; simpl in *.
  { exists []. rewrite app_nil_r. split_and!; try done. }
  apply Forall_cons in Hcap as [Hc Hcap].
  assert (Hstop : ∃ out, (Ret acc : exec (list (PlannedBatch Script))) = Ret (acc ++ out)
    ∧ Forall (merge_ok cs fr cap) (acc ++ out) ∧ (length (acc ++ out) ≤ maxt)%nat
    ∧ sublist (concat (map batch_inputs out)) (c ++ concat cl)).
  { exists []. rewrite app_nil_r. split_and!; try done. apply sublist_nil_l. }
  case_bool; [done|]. apply Nat.leb_gt in E. case_bool; [done|]. apply Nat.ltb_ge in E0.
  destruct (coins_take (length c) _ Hu) as [Hn Hs]. rewrite take_app_length in Hn, Hs.
  rewrite sum_u64_Ret by (done || lia). simpl.
  assert (Hu' : coins_ok (concat cl)).
  { destruct Hu as [Hf Hsum]. apply Forall_app in Hf as [? ?]. split; [done|].
    rewrite map_app, sumZ_app in Hsum. lia. }
  assert (Hskip : ∃ out, consolidation_loop cs fr maxt cl acc = Ret (acc ++ out)
    ∧ Forall (merge_ok cs fr cap) (acc ++ out) ∧ (length (acc ++ out) ≤ maxt)%nat
    ∧ sublist (concat (map batch_inputs out)) (c ++ concat cl)).
  { destruct (IH acc) as (out & ? & ? & ? & ?); [done..|]. exists out. split_and!; try done.
    by apply sublist_inserts_l. }
  case_match eqn:Hev; [|done]. case_bool; [done|].
  match goal with |- context [acc ++ [?b]] => set (nb := b) end.
  destruct (IH (acc ++ [nb])) as (out & Hr & ? & ? & Hsub); [done|done|rewrite length_app; simpl; lia| |].
  { apply Forall_app. split; [done|]. constructor; [|constructor]. unfold merge_ok, nb; simpl.
    split_and!; [done|lia|lia|done|done|by eapply evaluate_self_send_fits|].
    intros Hf. rewrite Hf in E1. simpl in E1. by apply Z.leb_gt in E1. }
  exists (nb :: out). rewrite <- app_assoc in *. split_and!; try done. simpl. by apply sublist_app.
Qed.

Lemma plan_consolidation_spec utxos cs fr maxi maxt : coins_ok utxos →
  ∃ out, plan_consolidation utxos cs fr maxi maxt = Ret out
    ∧ Forall (merge_ok cs fr maxi) out ∧ (length out ≤ maxt)%nat
    ∧ sublist (concat (map batch_inputs out))
        (sort_utxos_asc (retain (λ u, negb (is_planning_virtual u)) utxos)).
Proof.
  intros Hu. unfold plan_consolidation.
  set (us := retain (λ u, negb (is_planning_virtual u)) utxos).
  assert (Hus : coins_ok (sort_utxos_asc us)).
  { unfold sort_utxos_asc. rewrite stable_sort_perm.
    pose proof (retain_sublist (λ u, negb (is_planning_virtual u)) utxos) as Hsub.
    destruct Hu as [Hf Hs]. split.
    - apply Forall_forall. intros x Hx. apply (proj1 (Forall_forall _ _) Hf).
      by eapply sublist_subseteq.
    - apply (sublist_map coin), sumZ_sublist in Hsub; [|by apply List.Forall_map]. unfold us. lia. }
  assert (Hnil : ∃ out, (Ret [] : exec (list (PlannedBatch Script))) = Ret out
    ∧ Forall (merge_ok cs fr maxi) out ∧ (length out ≤ maxt)%nat
    ∧ sublist (concat (map batch_inputs out)) (sort_utxos_asc us)).
  { exists []. split_and!; try done; [simpl; lia|apply sublist_nil_l]. }
  case_bool; [done|].
  destruct (max_inputs_that_fit_spec (sort_utxos_asc us) cs maxi Hus) as (cap & -> & Hcap & _ & _).
  simpl. case_bool; [done|]. apply Nat.ltb_ge in E0. unfold MIN_CONSOLIDATION_INPUTS in E0.
  destruct (consolidation_loop_spec cs fr maxt cap (chunks cap (sort_utxos_asc us)) [])
    as (out & -> & Hok & Hl & Hsub).
  - unfold chunks. rewrite chunks_fuel_concat by lia. done.
  - apply chunks_fuel_length.
  - simpl. lia.
  - done.
  - exists out. simpl in *. split_and!; [done| |done|].
    + apply (Forall_impl _ _ _ Hok). intros b (? & ? & ?). split_and!; try done; lia || naive_solver.
    + unfold chunks in Hsub. by rewrite chunks_fuel_concat in Hsub by lia.
Qed.

(** A consolidation plan always exists, has at most [max_txs] transactions,
    and each merges between two and [max_inputs_per_tx] coins into one output
    of their whole value, within the mempool's standard mass and above the
    network fee. *)
Theorem plan_consolidation_sound utxos cs fr maxi maxt : coins_ok utxos →
  ∃ out, plan_consolidation utxos cs fr maxi maxt = Ret out
    ∧ Forall (merge_ok cs fr maxi) out ∧ (length out ≤ maxt)%nat.
Proof.
  intros Hu. destruct (plan_consolidation_spec utxos cs fr maxi maxt Hu) as (out & ? & ? & ? & _).
  by exists out.
Qed.

(** Consolidation spends only real coins, each at most once, and every
    transaction it plans reduces the number of treasury coins. *)
Theorem plan_consolidation_disjoint utxos cs fr maxi maxt out :
  coins_ok utxos → NoDup (map outpoint utxos) →
  plan_consolidation utxos cs fr maxi maxt = Ret out →
  NoDup (map outpoint (concat (map batch_inputs out)))
  ∧ (∀ u, u ∈ concat (map batch_inputs out) → u ∈ utxos ∧ is_planning_virtual u = false)
  ∧ (2 * length out ≤ length (concat (map batch_inputs out)))%nat.
Proof.
  intros Hu Hnd Hr. destruct (plan_consolidation_spec utxos cs fr maxi maxt Hu)
    as (out' & Hr' & Hok & _ & Hsub). rewrite Hr in Hr'. simplify_eq.
  split_and!.
  - eapply sublist_NoDup; [|by apply sublist_map]. unfold sort_utxos_asc. rewrite stable_sort_perm.
    eapply sublist_NoDup; [exact Hnd|]. apply sublist_map, retain_sublist.
  - intros u Hin. eapply sublist_subseteq in Hin; [|exact Hsub].
    unfold sort_utxos_asc in Hin. rewrite stable_sort_perm in Hin.
    apply elem_of_retain in Hin as [? ?%negb_true_iff]. done.
  - clear -Hok. induction Hok as [|b l (_ & [Hb _] & _) Hok IH]; simpl; [lia|].
    rewrite length_app. unfold MIN_CONSOLIDATION_INPUTS in Hb. lia.
Qed.

(** The per-transaction input ceiling is the largest count whose self-send is
    a standard transaction, when mass does not decrease with the count. *)
Theorem max_inputs_that_fit_maximal utxos cs maxi : coins_ok utxos →
  (∀ n m, (1 ≤ n ≤ m)%nat → fits utxos cs m = true → fits utxos cs n = true) →
  ∃ r, max_inputs_that_fit utxos cs maxi = Ret r
    ∧ (r = 0%nat ∨ fits utxos cs r = true)
    ∧ (r ≤ maxi)%nat ∧ ∀ n, (r < n ≤ maxi)%nat → fits utxos cs n = false.
Proof.
  intros Hu Hm. destruct (max_inputs_that_fit_spec utxos cs maxi Hu) as (r & ? & ? & ? & Hmax).
  exists r. split_and!; [done|done|lia|by apply Hmax].
Qed.
End consolidation.

Import Toy.

(** Five small coins: merged three and two at a time. *)
Definition toy_dust : list (TreasuryUtxo Z) :=
  map (λ i, Toy.coin_of (200 + i) (400000000 - i)) [0; 1; 2; 3; 4].

Lemma plan_consolidation_sound_witness :
  ∃ out, plan_consolidation toy_dust 7 Toy.rate 3 10 = Ret out
    ∧ Forall (merge_ok 7 Toy.rate 3) out ∧ (length out ≤ 10)%nat.
Proof. apply (plan_consolidation_sound toy_dust 7 Toy.rate 3 10). split; by_computation. Defined.

Definition toy_merges : list (PlannedBatch Z) :=
  match plan_consolidation toy_dust 7 Toy.rate 3 10 with Ret out => out | Panic => [] end.
Lemma toy_merges_eq : plan_consolidation toy_dust 7 Toy.rate 3 10 = Ret toy_merges.
Proof. vm_compute. reflexivity. Qed.

Lemma plan_consolidation_disjoint_witness :
  map (λ b, length (batch_inputs b)) toy_merges = [3; 2]%nat
  ∧ NoDup (map outpoint (concat (map batch_inputs toy_merges))).
Proof.
  split; [vm_compute; reflexivity|].
  refine (proj1 (plan_consolidation_disjoint toy_dust 7 Toy.rate 3 10 _ _ _ toy_merges_eq)).
  - split; by_computation.
  - by_computation.
Defined.

Lemma max_inputs_that_fit_maximal_witness :
  ∃ r, max_inputs_that_fit toy_dust 7 4 = Ret r ∧ (r = 0%nat ∨ fits toy_dust 7 r = true)
    ∧ (r ≤ 4)%nat ∧ ∀ n, (r < n ≤ 4)%nat → fits toy_dust 7 n = false.
Proof.
  apply (max_inputs_that_fit_maximal toy_dust 7 4).
  - split; by_computation.
  - intros n m Hnm Hm. unfold fits in Hm. apply andb_true_iff in Hm as [Hm _].
    apply Nat.leb_le in Hm. simpl in Hm.
    assert (n = 1 ∨ n = 2 ∨ n = 3 ∨ n = 4 ∨ n = 5)%nat as Hn by lia.
    destruct Hn as [->|[->|[->|[->| ->]]]]; vm_compute; reflexivity.
Defined.
