(* ===== verification/Db.v ===== *)
(** * The database: rows, tables and generic queries

    The Postgres tables the money path reads and writes (row types of
    crates/katpool-db/src/repo/*.rs with the constraints of the migrations),
    as one record of row lists in insertion order.  A repository function is
    a function of this record; a transaction is the composition of its
    functions, and an [Err] result leaves the caller with the record it had
    (rollback).  [now()] is an argument. *)

From stdpp Require Export strings pretty.
From S2P Require Import Prelude Float64 Mass.

(** [DbError]: the classes of failure the modelled queries can produce, plus
    [Connection] for a lost connection. *)
Inductive DbError := Connection | Constraint | NotFound | Config.

(** ** Enumerations *)

Inductive PayoutKind := Kas | Krc20Nacho.
Inductive PayoutCycleStatus := CPlanned | CBroadcasting | CPartiallySettled | CSettled | CFailed.
Inductive PayoutStatus := Planned | Submitted | Accepted | Confirmed | Failed.
Inductive Krc20TransferStatus := Pending | CommitSubmitted | RevealSubmitted | Completed | TFailed.
Inductive BlockStatus := Found | SubmittedToNode | ConfirmedBlue | Matured | Orphaned.
Inductive WalletTier := Standard | Elite.

#[export] Instance PayoutKind_eq_dec : EqDecision PayoutKind.
Proof. solve_decision. Defined.
#[export] Instance PayoutCycleStatus_eq_dec : EqDecision PayoutCycleStatus.
Proof. solve_decision. Defined.
#[export] Instance PayoutStatus_eq_dec : EqDecision PayoutStatus.
Proof. solve_decision. Defined.
#[export] Instance Krc20TransferStatus_eq_dec : EqDecision Krc20TransferStatus.
Proof. solve_decision. Defined.
#[export] Instance BlockStatus_eq_dec : EqDecision BlockStatus.
Proof. solve_decision. Defined.
#[export] Instance WalletTier_eq_dec : EqDecision WalletTier.
Proof. solve_decision. Defined.

(** [status IN (...)]. *)
Definition status_in {S} `{!EqDecision S} (s : S) (l : list S) : bool := bool_decide (s ∈ l).

(** ** Rows *)

Record Wallet := { w_id : Z; w_address : string; w_network : string }.

Record Share := {
  sh_wallet_id : Z; sh_worker_id : Z; sh_difficulty : f64; sh_daa_score : Z; sh_credited_at : Z; sh_correlation_id : Z }.

Record ShareWindow := {
  sw_id : Z; sw_wallet_id : Z; sw_daa_start : Z; sw_daa_end : Z;
  sw_started_at : Z; sw_ended_at : Z;
  sw_total_weight : f64; sw_share_count : Z;
}.

Record CoinbaseReward := {
  cr_id : Z;
  cr_outpoint : TransactionOutpoint;
  cr_amount_sompi : Z;
  cr_block_daa_score : Z;
  cr_discovered_at : Z;
  cr_allocated_at : option Z;
}.

Record ShareAllocation := {
  sa_id : Z; sa_computed_at : Z; sa_coinbase_reward_id : Z; sa_wallet_id : Z;
  sa_weight : f64; sa_window_total : f64;
  sa_gross_share_sompi : Z; sa_pool_fee_sompi : Z;
  sa_nacho_accrual_sompi : Z; sa_net_payout_sompi : Z;
  sa_applied_topline_bps : Z; sa_applied_rebate_bps : Z; sa_applied_tier : WalletTier;
}.

Record NachoRebate := { nr_wallet_id : Z; nr_accrued_sompi : Z; nr_paid_sompi : Z; nr_updated_at : Z }.

Record PayoutCycle := {
  pc_id : Z; pc_kind : PayoutKind; pc_status : PayoutCycleStatus;
  pc_daa_start : Z; pc_daa_end : Z;
  pc_planned_at : Z; pc_broadcast_at : option Z; pc_settled_at : option Z;
  pc_total_sompi : Z; pc_total_recipients : Z; pc_idempotency_key : string;
}.

Record Payout := {
  po_id : Z; po_cycle_id : Z; po_wallet_id : Z; po_amount_sompi : Z; po_status : PayoutStatus;
  po_tx_hash : option Hash; po_krc20_commit_hash : option Hash; po_krc20_reveal_hash : option Hash;
  po_planned_at : Z; po_submitted_at : option Z; po_confirmed_at : option Z;
  po_accepted_daa_score : option Z; po_failure_reason : option string;
}.

Record Krc20PendingTransfer := {
  kt_id : Z; kt_payout_id : Z; kt_sompi_to_miner : Z; kt_nacho_amount : Z; kt_p2sh_address : string;
  kt_status : Krc20TransferStatus;
  kt_commit_fee_sompi : option Z; kt_reveal_fee_sompi : option Z;
  kt_created_at : Z; kt_updated_at : Z;
}.

Record Block := {
  bl_id : Z; bl_finder_wallet_id : Z; bl_finder_worker_id : Z; bl_nonce : Z;
  bl_hash : Hash; bl_daa_score : Z; bl_blue_score : option Z; bl_status : BlockStatus;
  bl_found_at : Z; bl_submitted_at : option Z; bl_confirmed_at : option Z; bl_matured_at : option Z;
  bl_miner_reward_sompi : option Z; bl_correlation_id : Z;
}.

Record TreasurySnapshot := {
  ts_id : Z; ts_captured_at : Z; ts_kas_balance_sompi : Z; ts_nacho_balance : Z; ts_daa_score : Z; ts_blue_score : Z;
  ts_notes : option string; ts_utxo_count : option Z;
}.

Record AuditEntry := { au_actor : string; au_action : string; au_subject : option (string * Z) }.

(** How the server reads the rows of an aggregate: an order of its choice, in one go or in pieces that
    parallel workers take.  SQL promises nothing about either. *)
Record ScanPlan := { sp_order : nat; sp_pieces : list nat }.
Definition table_order : ScanPlan := {| sp_order := 0; sp_pieces := [] |}.

(** The [plan]-th arrangement of a list, in the factorial numbering: 0 leaves it alone. *)
Fixpoint arrange {A} (plan : nat) (l : list A) : list A :=
  match l with
  | [] => []
  | x :: l => let rest := arrange (plan / S (length l)) l in
              let i := (plan mod S (length l))%nat in take i rest ++ x :: drop i rest
  end.
Fixpoint pieces {A} (sizes : list nat) (l : list A) : list (list A) :=
  match sizes with [] => [l] | n :: sizes => take n l :: pieces sizes (drop n l) end.

Lemma arrange_perm {A} plan (l : list A) : arrange plan l ≡ₚ l.
Proof.
  revert plan. induction l as [|x l IH]; intros plan; [done|]. cbn [arrange]. rewrite <- Permutation_middle, take_drop. by rewrite IH.
Qed.
(** Every order is the order of some plan. *)
Lemma arrange_any {A} (l l' : list A) : l ≡ₚ l' → ∃ plan, arrange plan l = l'.
Proof.
  revert l'. induction l as [|x l IH]; intros l' Hp; [exists O; by apply Permutation_nil_l in Hp|].
  assert (x ∈ l') as (a & b & ->)%list_elem_of_split by (rewrite <- Hp; left). apply Permutation_cons_app_inv in Hp as Hab. destruct (IH _ Hab) as [plan Hplan].
  assert (length a + length b = length l)%nat as Hl by (rewrite <- length_app; by apply Permutation_length).
  exists (length a + plan * S (length l))%nat. cbn [arrange]. rewrite Nat.div_add, Nat.Div0.mod_add by done.
  rewrite Nat.div_small, Nat.mod_small by lia. simpl. rewrite Hplan, take_app_length, drop_app_length. done.
Qed.
Lemma concat_pieces {A} sizes (l : list A) : concat (pieces sizes l) = l.
Proof. revert l. induction sizes as [|n sizes IH]; intros l; simpl; [by rewrite app_nil_r|]. by rewrite IH, take_drop. Qed.

(** The tables, and the server's plan for each query (by its name and, in a [GROUP BY], its group). *)
Record Db := {
  wallets : list Wallet;
  shares : list Share;
  share_windows : list ShareWindow;
  coinbase_rewards : list CoinbaseReward;
  share_allocations : list ShareAllocation;
  nacho_rebates : list NachoRebate;
  cycles : list PayoutCycle;
  payouts : list Payout;
  transfers : list Krc20PendingTransfer;
  blocks : list Block;
  audit_log : list AuditEntry;
  treasury_snapshots : list TreasurySnapshot;
  scan_plan : string → Z → ScanPlan;
}.

Definition empty_db : Db :=
  {| wallets := []; shares := []; share_windows := []; coinbase_rewards := [];
     share_allocations := []; nacho_rebates := []; cycles := []; payouts := [];
     transfers := []; blocks := []; audit_log := []; treasury_snapshots := []; scan_plan := λ _ _, table_order |}.

(** Replace one table. *)
Definition set_share_windows v d := {| wallets := wallets d; shares := shares d; share_windows := v;
  coinbase_rewards := coinbase_rewards d; share_allocations := share_allocations d;
  nacho_rebates := nacho_rebates d; cycles := cycles d; payouts := payouts d;
  transfers := transfers d; blocks := blocks d; audit_log := audit_log d; treasury_snapshots := treasury_snapshots d; scan_plan := scan_plan d |}.
Definition set_coinbase_rewards v d := {| wallets := wallets d; shares := shares d;
  share_windows := share_windows d; coinbase_rewards := v; share_allocations := share_allocations d;
  nacho_rebates := nacho_rebates d; cycles := cycles d; payouts := payouts d;
  transfers := transfers d; blocks := blocks d; audit_log := audit_log d; treasury_snapshots := treasury_snapshots d; scan_plan := scan_plan d |}.
Definition set_share_allocations v d := {| wallets := wallets d; shares := shares d;
  share_windows := share_windows d; coinbase_rewards := coinbase_rewards d; share_allocations := v;
  nacho_rebates := nacho_rebates d; cycles := cycles d; payouts := payouts d;
  transfers := transfers d; blocks := blocks d; audit_log := audit_log d; treasury_snapshots := treasury_snapshots d; scan_plan := scan_plan d |}.
Definition set_nacho_rebates v d := {| wallets := wallets d; shares := shares d;
  share_windows := share_windows d; coinbase_rewards := coinbase_rewards d;
  share_allocations := share_allocations d; nacho_rebates := v; cycles := cycles d;
  payouts := payouts d; transfers := transfers d; blocks := blocks d; audit_log := audit_log d; treasury_snapshots := treasury_snapshots d; scan_plan := scan_plan d |}.
Definition set_cycles v d := {| wallets := wallets d; shares := shares d;
  share_windows := share_windows d; coinbase_rewards := coinbase_rewards d;
  share_allocations := share_allocations d; nacho_rebates := nacho_rebates d; cycles := v;
  payouts := payouts d; transfers := transfers d; blocks := blocks d; audit_log := audit_log d; treasury_snapshots := treasury_snapshots d; scan_plan := scan_plan d |}.
Definition set_payouts v d := {| wallets := wallets d; shares := shares d;
  share_windows := share_windows d; coinbase_rewards := coinbase_rewards d;
  share_allocations := share_allocations d; nacho_rebates := nacho_rebates d; cycles := cycles d;
  payouts := v; transfers := transfers d; blocks := blocks d; audit_log := audit_log d; treasury_snapshots := treasury_snapshots d; scan_plan := scan_plan d |}.
Definition set_transfers v d := {| wallets := wallets d; shares := shares d;
  share_windows := share_windows d; coinbase_rewards := coinbase_rewards d;
  share_allocations := share_allocations d; nacho_rebates := nacho_rebates d; cycles := cycles d;
  payouts := payouts d; transfers := v; blocks := blocks d; audit_log := audit_log d; treasury_snapshots := treasury_snapshots d; scan_plan := scan_plan d |}.
Definition set_blocks v d := {| wallets := wallets d; shares := shares d;
  share_windows := share_windows d; coinbase_rewards := coinbase_rewards d;
  share_allocations := share_allocations d; nacho_rebates := nacho_rebates d; cycles := cycles d;
  payouts := payouts d; transfers := transfers d; blocks := v; audit_log := audit_log d; treasury_snapshots := treasury_snapshots d; scan_plan := scan_plan d |}.
Definition set_audit_log v d := {| wallets := wallets d; shares := shares d;
  share_windows := share_windows d; coinbase_rewards := coinbase_rewards d;
  share_allocations := share_allocations d; nacho_rebates := nacho_rebates d; cycles := cycles d;
  payouts := payouts d; transfers := transfers d; blocks := blocks d; audit_log := v; treasury_snapshots := treasury_snapshots d; scan_plan := scan_plan d |}.
Definition set_treasury_snapshots v d := {| wallets := wallets d; shares := shares d;
  share_windows := share_windows d; coinbase_rewards := coinbase_rewards d;
  share_allocations := share_allocations d; nacho_rebates := nacho_rebates d; cycles := cycles d;
  payouts := payouts d; transfers := transfers d; blocks := blocks d; audit_log := audit_log d;
  treasury_snapshots := v; scan_plan := scan_plan d |}.

(** ** Generic queries *)

(** [UPDATE t SET f WHERE p]. *)
Definition update_where {A} (p : A → bool) (f : A → A) (l : list A) : list A :=
  map (λ r, if p r then f r else r) l.

(** The next value of a [BIGSERIAL] key: above every key in the table. *)
Definition next_id {A} (key : A → Z) (l : list A) : Z := 1 + foldr Z.max 0 (map key l).

(** [COALESCE(a, b)]. *)
Definition coalesce {A} (o : option A) (a : A) : option A :=
  match o with Some _ => o | None => Some a end.

(** [LIMIT n]. *)
Definition limit {A} (n : Z) (l : list A) : list A := take (Z.to_nat n) l.

(** crates/katpool-db/src/repo/audit.rs, [append] (payloads are left out). *)
Definition audit_append (actor action : string) (subject : option (string * Z)) (d : Db) : Db :=
  set_audit_log (audit_log d ++ [{| au_actor := actor; au_action := action; au_subject := subject |}]) d.

(** crates/katpool-db/src/repo/wallet.rs, [get_by_id]. *)
Definition wallet_get_by_id (id : Z) (d : Db) : result DbError Wallet :=
  match List.find (λ w, w_id w =? id) (wallets d) with
  | Some w => Ok w
  | None => Err NotFound
  end.

(** ** Facts *)

Lemma next_id_fresh {A} (key : A → Z) l x : x ∈ l → key x < next_id key l.
Proof.
  unfold next_id. induction l as [|y l IH]; [by intros ?%not_elem_of_nil|].
  intros [->|?]%elem_of_cons; simpl; [lia|]. specialize (IH ltac:(done)). lia.
Qed.

Lemma map_update_where {A B} (g : A → B) p f (l : list A) :
  (∀ x, g (f x) = g x) → map g (update_where p f l) = map g l.
Proof.
  intros Hg. unfold update_where. rewrite map_map. apply map_ext. intros x. by destruct (p x).
Qed.

Lemma elem_of_update_where {A} p f (l : list A) x :
  x ∈ update_where p f l ↔ ∃ y, y ∈ l ∧ x = if p y then f y else y.
Proof. unfold update_where. rewrite list_elem_of_In, in_map_iff. setoid_rewrite list_elem_of_In. naive_solver. Qed.

Lemma find_Some {A} (p : A → bool) l x : List.find p l = Some x → x ∈ l ∧ p x = true.
Proof. rewrite list_elem_of_In. apply List.find_some. Qed.

(** Looking up by a unique key after an update that keeps the key. *)
Lemma find_update_where {A} (q p : A → bool) f (l : list A) :
  (∀ x, q (f x) = q x) →
  List.find q (update_where p f l) = (λ x, if p x then f x else x) <$> List.find q l.
Proof.
  intros Hq. induction l as [|x l IH]; simpl; [done|].
  destruct (p x) eqn:Px; simpl; [rewrite Hq|]; destruct (q x) eqn:Qx; simpl; rewrite ?Px; done.
Qed.

Lemma find_app {A} (p : A → bool) l1 l2 :
  List.find p (l1 ++ l2) = match List.find p l1 with Some x => Some x | None => List.find p l2 end.
Proof. induction l1 as [|x l1 IH]; simpl; [done|]. by destruct (p x). Qed.
