(* ===== verification/PayoutRepo.v ===== *)
(** * The payout repository (crates/katpool-db/src/repo/payout.rs)

    Every query of the payout aggregates over the tables of [Db]: the cycle,
    the per-recipient payout and the KRC-20 commit/reveal transfer.  A query
    that violates a constraint of the migrations returns [Err Constraint] and
    changes nothing. *)

From S2P Require Import Prelude Float64 Mass Db.
Local Open Scope Z_scope.

(** ** Labels *)

(** [PayoutCycleStatus::as_str]. *)
Definition as_str (s : PayoutCycleStatus) : string :=
  match s with
  | CPlanned => "planned" | CBroadcasting => "broadcasting"
  | CPartiallySettled => "partially_settled" | CSettled => "settled" | CFailed => "failed"
  end.

(** [PayoutCycleStatus::is_success]. *)
Definition is_success (s : PayoutCycleStatus) : bool :=
  match s with CSettled | CPartiallySettled => true | _ => false end.

(** [u64] in decimal, as [format!("{}")] prints it. *)
Definition show_u64 (z : Z) : string := pretty (Z.to_N z).

Definition idempotency_key (kind : PayoutKind) (daa_start daa_end : Z) : string :=
  (match kind with Kas => "kas" | Krc20Nacho => "krc20" end)
  +:+ "-" +:+ show_u64 daa_start +:+ "-" +:+ show_u64 daa_end.

(** ** Field updates *)

Definition pc_with (st : PayoutCycleStatus) (br se : option Z) (ts tr : Z) (c : PayoutCycle) : PayoutCycle :=
  {| pc_id := pc_id c; pc_kind := pc_kind c; pc_status := st; pc_daa_start := pc_daa_start c;
     pc_daa_end := pc_daa_end c; pc_planned_at := pc_planned_at c; pc_broadcast_at := br;
     pc_settled_at := se; pc_total_sompi := ts; pc_total_recipients := tr;
     pc_idempotency_key := pc_idempotency_key c |}.

Definition po_with (st : PayoutStatus) (tx ch rh : option Hash) (su co ac : option Z)
    (fr : option string) (p : Payout) : Payout :=
  {| po_id := po_id p; po_cycle_id := po_cycle_id p; po_wallet_id := po_wallet_id p;
     po_amount_sompi := po_amount_sompi p; po_status := st; po_tx_hash := tx;
     po_krc20_commit_hash := ch; po_krc20_reveal_hash := rh; po_planned_at := po_planned_at p;
     po_submitted_at := su; po_confirmed_at := co; po_accepted_daa_score := ac;
     po_failure_reason := fr |}.

Definition kt_with (st : Krc20TransferStatus) (sm na : Z) (addr : string) (cf rf : option Z) (now : Z)
    (k : Krc20PendingTransfer) : Krc20PendingTransfer :=
  {| kt_id := kt_id k; kt_payout_id := kt_payout_id k; kt_sompi_to_miner := sm;
     kt_nacho_amount := na; kt_p2sh_address := addr; kt_status := st;
     kt_commit_fee_sompi := cf; kt_reveal_fee_sompi := rf;
     kt_created_at := kt_created_at k; kt_updated_at := now |}.

(** ** CHECK constraints of the migrations *)

Definition opt_le (o : option Z) (lo : Z) : bool :=
  match o with None => true | Some x => lo <=? x end.

Definition cycle_check (c : PayoutCycle) : bool :=
  (0 <=? pc_daa_start c) && (pc_daa_start c <? pc_daa_end c) &&
  (0 <=? pc_total_sompi c) && (0 <=? pc_total_recipients c) &&
  opt_le (pc_broadcast_at c) (pc_planned_at c) &&
  match pc_settled_at c, pc_broadcast_at c with
  | None, _ => true
  | Some s, Some b => b <=? s
  | Some _, None => false
  end.

Definition payout_check (p : Payout) : bool :=
  (0 <? po_amount_sompi p) &&
  opt_le (po_submitted_at p) (po_planned_at p) &&
  match po_confirmed_at p, po_submitted_at p with
  | None, _ => true
  | Some c, Some s => s <=? c
  | Some _, None => false
  end &&
  opt_le (po_accepted_daa_score p) 0.

Definition transfer_check (k : Krc20PendingTransfer) : bool :=
  (0 <? kt_sompi_to_miner k) && (0 <? kt_nacho_amount k) &&
  opt_le (kt_commit_fee_sompi k) 0 && opt_le (kt_reveal_fee_sompi k) 0.

(** [UPDATE t SET f WHERE p] under the row constraint [ok]: one violating row
    rejects the statement. *)
Definition update_checked {A} (ok : A → bool) (p : A → bool) (f : A → A) (l : list A)
    : result DbError (list A) :=
  if forallb (λ r, if p r then ok (f r) else true) l then Ok (update_where p f l)
  else Err Constraint.

Definition update_cycles p f (d : Db) : result DbError Db :=
  l ← update_checked cycle_check p f (cycles d); Ok (set_cycles l d).
Definition update_payouts p f (d : Db) : result DbError Db :=
  l ← update_checked payout_check p f (payouts d); Ok (set_payouts l d).
Definition update_transfers p f (d : Db) : result DbError Db :=
  l ← update_checked transfer_check p f (transfers d); Ok (set_transfers l d).

(** [sum(...)::bigint]: the sum is exact, the cast is range-checked. *)
Definition to_bigint (z : Z) : result DbError Z :=
  match i64_try_from z with Some z => Ok z | None => Err Constraint end.

(** ** Cycle operations *)

Definition new_cycle (id : Z) (kind : PayoutKind) (daa_start daa_end now : Z) : PayoutCycle :=
  {| pc_id := id; pc_kind := kind; pc_status := CPlanned;
     pc_daa_start := u64_as_i64 daa_start; pc_daa_end := u64_as_i64 daa_end;
     pc_planned_at := now; pc_broadcast_at := None; pc_settled_at := None;
     pc_total_sompi := 0; pc_total_recipients := 0;
     pc_idempotency_key := idempotency_key kind daa_start daa_end |}.

(** The conflict branch rewrites the key with itself: the row is unchanged. *)
Definition create_cycle (kind : PayoutKind) (daa_start daa_end : Z) (now : Z) (d : Db)
    : result DbError (PayoutCycle * Db) :=
  let key := idempotency_key kind daa_start daa_end in
  let row := new_cycle (next_id pc_id (cycles d)) kind daa_start daa_end now in
  if cycle_check row then
    match List.find (λ c, bool_decide (pc_idempotency_key c = key)) (cycles d) with
    | Some c => Ok (c, d)
    | None => Ok (row, set_cycles (cycles d ++ [row]) d)
    end
  else Err Constraint.

Definition find_cycle_by_idempotency_key (key : string) (d : Db) : option PayoutCycle :=
  List.find (λ c, bool_decide (pc_idempotency_key c = key)) (cycles d).

Definition get_cycle (cycle_id : Z) (d : Db) : result DbError PayoutCycle :=
  match List.find (λ c, pc_id c =? cycle_id) (cycles d) with
  | Some c => Ok c | None => Err NotFound
  end.

Definition mark_cycle_broadcasting (cycle_id now : Z) : Db → result DbError Db :=
  update_cycles
    (λ c, (pc_id c =? cycle_id) && status_in (pc_status c) [CPlanned; CBroadcasting])
    (λ c, pc_with CBroadcasting (coalesce (pc_broadcast_at c) now) (pc_settled_at c)
            (pc_total_sompi c) (pc_total_recipients c) c).

Definition mark_cycle_partially_settled (cycle_id : Z) : Db → result DbError Db :=
  update_cycles
    (λ c, (pc_id c =? cycle_id) && status_in (pc_status c) [CBroadcasting; CPartiallySettled])
    (λ c, pc_with CPartiallySettled (pc_broadcast_at c) (pc_settled_at c)
            (pc_total_sompi c) (pc_total_recipients c) c).

Definition mark_cycle_settled (cycle_id now : Z) : Db → result DbError Db :=
  update_cycles
    (λ c, (pc_id c =? cycle_id) && status_in (pc_status c) [CBroadcasting; CPartiallySettled; CSettled])
    (λ c, pc_with CSettled (pc_broadcast_at c) (coalesce (pc_settled_at c) now)
            (pc_total_sompi c) (pc_total_recipients c) c).

Definition mark_cycle_failed (cycle_id : Z) : Db → result DbError Db :=
  update_cycles
    (λ c, (pc_id c =? cycle_id) && negb (status_in (pc_status c) [CSettled]))
    (λ c, pc_with CFailed (pc_broadcast_at c) (pc_settled_at c)
            (pc_total_sompi c) (pc_total_recipients c) c).

Definition set_cycle_totals (cycle_id total_sompi total_recipients : Z) : Db → result DbError Db :=
  update_cycles (λ c, pc_id c =? cycle_id)
    (λ c, pc_with (pc_status c) (pc_broadcast_at c) (pc_settled_at c) total_sompi total_recipients c).

(** ** Payout queries *)

Definition DEFAULT_KAS_PAYOUT_THRESHOLD_SOMPI : Z := 1000000000.

Record KasEligibleWallet := {
  ke_wallet_id : Z; ke_address : string; ke_network : string;
  ke_allocated_sompi : Z; ke_confirmed_paid_sompi : Z; ke_payable_sompi : Z;
}.

(** [pc.kind = k] of the cycle a payout belongs to (inner join). *)
Definition cycle_of (d : Db) (p : Payout) : option PayoutCycle :=
  List.find (λ c, pc_id c =? po_cycle_id p) (cycles d).

(** [idempotency_key LIKE 'kas-legacy-%']. *)
Definition is_legacy_key (key : string) : bool := String.prefix "kas-legacy-" key.

Definition counts_as_paid (d : Db) (p : Payout) : bool :=
  match cycle_of d p with
  | Some c => bool_decide (pc_kind c = Kas) && bool_decide (po_status p = Confirmed) &&
              negb (is_legacy_key (pc_idempotency_key c))
  | None => false
  end.

Definition allocations_of (w : Z) (d : Db) : list ShareAllocation :=
  List.filter (λ a, sa_wallet_id a =? w) (share_allocations d).

Definition allocated (w : Z) (d : Db) : Z := sumZ (map sa_net_payout_sompi (allocations_of w d)).
Definition confirmed_paid (w : Z) (d : Db) : Z :=
  sumZ (map po_amount_sompi
    (List.filter (λ p, (po_wallet_id p =? w) && counts_as_paid d p) (payouts d))).

(** One row of the join: the wallet must have an allocation. *)
Definition kas_row (d : Db) (w : Wallet) : result DbError (option KasEligibleWallet) :=
  match allocations_of (w_id w) d with
  | [] => Ok None
  | _ =>
      alloc ← to_bigint (allocated (w_id w) d);
      paid ← to_bigint (confirmed_paid (w_id w) d);
      payable ← to_bigint (alloc - paid);
      Ok (Some {| ke_wallet_id := w_id w; ke_address := w_address w; ke_network := w_network w;
                  ke_allocated_sompi := alloc; ke_confirmed_paid_sompi := paid;
                  ke_payable_sompi := payable |})
  end.

(** Evaluate a row function over a table, dropping absent rows. *)
Fixpoint collect {A B} (f : A → result DbError (option B)) (l : list A) : result DbError (list B) :=
  match l with
  | [] => Ok []
  | x :: l => r ← f x; rest ← collect f l; Ok (match r with Some b => b :: rest | None => rest end)
  end.

(** [ORDER BY amount DESC, id ASC]. *)
Definition desc_then_id (a1 i1 a2 i2 : Z) : bool := (a2 <? a1) || ((a1 =? a2) && (i1 <=? i2)).

Definition list_kas_eligible_wallets (threshold_sompi : Z) (d : Db)
    : result DbError (list KasEligibleWallet) :=
  rows ← collect (kas_row d) (wallets d);
  Ok (stable_sort (λ x y, desc_then_id (ke_payable_sompi x) (ke_wallet_id x)
                                       (ke_payable_sompi y) (ke_wallet_id y))
        (List.filter (λ r, threshold_sompi <=? ke_payable_sompi r) rows)).

Record Krc20EligibleWallet := {
  kre_wallet_id : Z; kre_address : string; kre_network : string; kre_pending_sompi : Z;
}.

Definition is_open_krc20 (d : Db) (p : Payout) : bool :=
  match cycle_of d p with
  | Some c => bool_decide (pc_kind c = Krc20Nacho) && negb (status_in (po_status p) [Failed; Confirmed])
  | None => false
  end.

Definition open_sompi (w : Z) (d : Db) : Z :=
  sumZ (map po_amount_sompi
    (List.filter (λ p, (po_wallet_id p =? w) && is_open_krc20 d p) (payouts d))).

Definition krc20_row (d : Db) (r : NachoRebate) : result DbError (option Krc20EligibleWallet) :=
  match List.find (λ w, w_id w =? nr_wallet_id r) (wallets d) with
  | None => Ok None
  | Some w =>
      opn ← to_bigint (open_sompi (nr_wallet_id r) d);
      pend ← to_bigint (nr_accrued_sompi r - nr_paid_sompi r - opn);
      Ok (Some {| kre_wallet_id := nr_wallet_id r; kre_address := w_address w;
                  kre_network := w_network w; kre_pending_sompi := pend |})
  end.

Definition list_krc20_eligible_wallets (min_pending_sompi n : Z) (d : Db)
    : result DbError (list Krc20EligibleWallet) :=
  rows ← collect (krc20_row d) (nacho_rebates d);
  Ok (limit n (stable_sort (λ x y, desc_then_id (kre_pending_sompi x) (kre_wallet_id x)
                                                (kre_pending_sompi y) (kre_wallet_id y))
        (List.filter (λ r, min_pending_sompi <=? kre_pending_sompi r) rows))).

(** ** Payout rows *)

Definition new_payout (id cycle_id wallet_id amount_sompi now : Z) : Payout :=
  {| po_id := id; po_cycle_id := cycle_id; po_wallet_id := wallet_id;
     po_amount_sompi := amount_sompi; po_status := Planned; po_tx_hash := None;
     po_krc20_commit_hash := None; po_krc20_reveal_hash := None; po_planned_at := now;
     po_submitted_at := None; po_confirmed_at := None; po_accepted_daa_score := None;
     po_failure_reason := None |}.

(** Foreign keys of a payout row. *)
Definition payout_fk (p : Payout) (d : Db) : bool :=
  existsb (λ c, pc_id c =? po_cycle_id p) (cycles d) &&
  existsb (λ w, w_id w =? po_wallet_id p) (wallets d).

Definition same_recipient (cycle_id wallet_id : Z) (p : Payout) : bool :=
  (po_cycle_id p =? cycle_id) && (po_wallet_id p =? wallet_id).

Definition insert_payout (cycle_id wallet_id amount_sompi now : Z) (d : Db)
    : result DbError (Payout * Db) :=
  let row := new_payout (next_id po_id (payouts d)) cycle_id wallet_id amount_sompi now in
  if payout_check row && negb (existsb (same_recipient cycle_id wallet_id) (payouts d)) && payout_fk row d
  then Ok (row, set_payouts (payouts d ++ [row]) d)
  else Err Constraint.

(** The conflict branch keeps [amount_sompi]: the existing row is returned as it is. *)
Definition ensure_payout (cycle_id wallet_id amount_sompi now : Z) (d : Db)
    : result DbError (Payout * Db) :=
  let row := new_payout (next_id po_id (payouts d)) cycle_id wallet_id amount_sompi now in
  if payout_check row then
    match List.find (same_recipient cycle_id wallet_id) (payouts d) with
    | Some p => Ok (p, d)
    | None => if payout_fk row d then Ok (row, set_payouts (payouts d ++ [row]) d) else Err Constraint
    end
  else Err Constraint.

Definition get_payout (payout_id : Z) (d : Db) : result DbError Payout :=
  match List.find (λ p, po_id p =? payout_id) (payouts d) with
  | Some p => Ok p | None => Err NotFound
  end.

Record WalletKasBalance := { kb_allocated_sompi : Z; kb_confirmed_paid_sompi : Z; kb_payable_sompi : Z }.

(** The final subtraction is Rust's [-] on [i64]. *)
Definition kas_payable_for_wallet (wallet_id : Z) (d : Db) : result DbError (exec WalletKasBalance) :=
  alloc ← to_bigint (allocated wallet_id d);
  paid ← to_bigint (confirmed_paid wallet_id d);
  Ok (payable ← i64_add alloc (- paid);
      Ret {| kb_allocated_sompi := alloc; kb_confirmed_paid_sompi := paid; kb_payable_sompi := payable |}).

Record PoolPayoutTotals := {
  pt_kas_confirmed_sompi : Z; pt_nacho_confirmed_base_units : Z; pt_confirmed_payouts : Z }.

Definition pool_payout_totals (d : Db) : result DbError PoolPayoutTotals :=
  kas ← to_bigint (sumZ (map po_amount_sompi (List.filter (λ p,
          bool_decide (po_status p = Confirmed) &&
          match cycle_of d p with Some c => bool_decide (pc_kind c = Kas) | None => false end)
          (payouts d))));
  nacho ← to_bigint (sumZ (map kt_nacho_amount (List.filter (λ k,
          bool_decide (kt_status k = Completed) &&
          existsb (λ p, (po_id p =? kt_payout_id k) && bool_decide (po_status p = Confirmed)) (payouts d))
          (transfers d))));
  Ok {| pt_kas_confirmed_sompi := kas; pt_nacho_confirmed_base_units := nacho;
        pt_confirmed_payouts :=
          Z.of_nat (length (List.filter (λ p, bool_decide (po_status p = Confirmed)) (payouts d))) |}.

(** [$2 IS NULL OR id < $2]. *)
Definition before (o : option Z) (id : Z) : bool := match o with None => true | Some b => id <? b end.

Definition list_recent_cycles (n : Z) (before_id : option Z) (d : Db) : list PayoutCycle :=
  limit n (stable_sort (λ x y, pc_id y <=? pc_id x)
    (List.filter (λ c, before before_id (pc_id c)) (cycles d))).

Record WalletPayout := { wp_payout : Payout; wp_kind : PayoutKind; wp_nacho_amount : option Z }.

Definition transfer_of (d : Db) (payout_id : Z) : option Krc20PendingTransfer :=
  List.find (λ k, kt_payout_id k =? payout_id) (transfers d).

Definition list_for_wallet_detailed (wallet_id n : Z) (before_id : option Z) (d : Db) : list WalletPayout :=
  limit n (omap (λ p, (λ c, {| wp_payout := p; wp_kind := pc_kind c;
                               wp_nacho_amount := kt_nacho_amount <$> transfer_of d (po_id p) |})
                      <$> cycle_of d p)
    (stable_sort (λ x y, po_id y <=? po_id x)
      (List.filter (λ p, (po_wallet_id p =? wallet_id) && before before_id (po_id p)) (payouts d)))).

Definition list_for_cycle (cycle_id : Z) (d : Db) : list Payout :=
  stable_sort (λ x y, desc_then_id (po_amount_sompi x) (po_id x) (po_amount_sompi y) (po_id y))
    (List.filter (λ p, po_cycle_id p =? cycle_id) (payouts d)).

Record CycleRecipient := { rc_payout : Payout; rc_address : string; rc_nacho_amount : option Z }.

Definition list_cycle_recipients (cycle_id : Z) (d : Db) : list CycleRecipient :=
  omap (λ p, (λ w, {| rc_payout := p; rc_address := w_address w;
                      rc_nacho_amount := kt_nacho_amount <$> transfer_of d (po_id p) |})
             <$> List.find (λ w, w_id w =? po_wallet_id p) (wallets d))
    (list_for_cycle cycle_id d).

Definition list_for_wallet (wallet_id n : Z) (d : Db) : list Payout :=
  limit n (stable_sort (λ x y, po_planned_at y <=? po_planned_at x)
    (List.filter (λ p, po_wallet_id p =? wallet_id) (payouts d))).

(** The non-null hashes of a payout row. *)
Definition spend_hashes (p : Payout) : list Hash :=
  omap id [po_tx_hash p; po_krc20_commit_hash p; po_krc20_reveal_hash p].

Definition in_flight_spend_tx_hashes (d : Db) : list Hash :=
  concat (map spend_hashes
    (List.filter (λ p, negb (status_in (po_status p) [Confirmed; Failed])) (payouts d))).

(** ** Payout transitions *)

Definition mark_payout_submitted (payout_id : Z) (tx_hash : Hash) (now : Z) : Db → result DbError Db :=
  update_payouts
    (λ p, (po_id p =? payout_id) && status_in (po_status p) [Planned; Submitted])
    (λ p, po_with Submitted (Some tx_hash) (po_krc20_commit_hash p) (po_krc20_reveal_hash p)
            (coalesce (po_submitted_at p) now) (po_confirmed_at p)
            (po_accepted_daa_score p) (po_failure_reason p) p).

Definition mark_payout_accepted (payout_id accepted_daa_score : Z) : Db → result DbError Db :=
  update_payouts
    (λ p, (po_id p =? payout_id) && status_in (po_status p) [Submitted; Accepted])
    (λ p, po_with Accepted (po_tx_hash p) (po_krc20_commit_hash p) (po_krc20_reveal_hash p)
            (po_submitted_at p) (po_confirmed_at p)
            (coalesce (po_accepted_daa_score p) accepted_daa_score) (po_failure_reason p) p).

Definition mark_payout_confirmed (payout_id now : Z) : Db → result DbError Db :=
  update_payouts
    (λ p, (po_id p =? payout_id) && status_in (po_status p) [Submitted; Accepted; Confirmed])
    (λ p, po_with Confirmed (po_tx_hash p) (po_krc20_commit_hash p) (po_krc20_reveal_hash p)
            (po_submitted_at p) (coalesce (po_confirmed_at p) now)
            (po_accepted_daa_score p) (po_failure_reason p) p).

Definition not_confirmed (payout_id : Z) (p : Payout) : bool :=
  (po_id p =? payout_id) && negb (status_in (po_status p) [Confirmed]).

(** Also returns [rows_affected() == 1]. *)
Definition confirm_krc20_payout_once (payout_id now : Z) (d : Db) : result DbError (bool * Db) :=
  d' ← update_payouts (not_confirmed payout_id)
    (λ p, po_with Confirmed (po_tx_hash p) (po_krc20_commit_hash p) (po_krc20_reveal_hash p)
            (coalesce (po_submitted_at p) now) (coalesce (po_confirmed_at p) now)
            (po_accepted_daa_score p) (po_failure_reason p) p) d;
  Ok (Nat.eqb (length (List.filter (not_confirmed payout_id) (payouts d))) 1, d').

Definition mark_payout_failed (payout_id : Z) (reason : string) : Db → result DbError Db :=
  update_payouts (not_confirmed payout_id)
    (λ p, po_with Failed (po_tx_hash p) (po_krc20_commit_hash p) (po_krc20_reveal_hash p)
            (po_submitted_at p) (po_confirmed_at p) (po_accepted_daa_score p) (Some reason) p).

(** ** KRC-20 transfers *)

Definition new_transfer (id payout_id sompi_to_miner nacho_amount : Z) (addr : string) (now : Z)
    : Krc20PendingTransfer :=
  {| kt_id := id; kt_payout_id := payout_id; kt_sompi_to_miner := sompi_to_miner;
     kt_nacho_amount := nacho_amount; kt_p2sh_address := addr; kt_status := Pending;
     kt_commit_fee_sompi := None; kt_reveal_fee_sompi := None;
     kt_created_at := now; kt_updated_at := now |}.

Definition insert_krc20_pending (payout_id sompi_to_miner nacho_amount : Z) (addr : string) (now : Z)
    (d : Db) : result DbError (Krc20PendingTransfer * Db) :=
  let row := new_transfer (next_id kt_id (transfers d)) payout_id sompi_to_miner nacho_amount addr now in
  if transfer_check row && negb (existsb (λ k, kt_payout_id k =? payout_id) (transfers d)) &&
     existsb (λ p, po_id p =? payout_id) (payouts d)
  then Ok (row, set_transfers (transfers d ++ [row]) d)
  else Err Constraint.

(** The conflict branch refreshes the planned amounts and the address. *)
Definition ensure_krc20_pending (payout_id sompi_to_miner nacho_amount : Z) (addr : string) (now : Z)
    (d : Db) : result DbError (Krc20PendingTransfer * Db) :=
  let row := new_transfer (next_id kt_id (transfers d)) payout_id sompi_to_miner nacho_amount addr now in
  let refresh k := kt_with (kt_status k) sompi_to_miner nacho_amount addr
                     (kt_commit_fee_sompi k) (kt_reveal_fee_sompi k) now k in
  if transfer_check row then
    match List.find (λ k, kt_payout_id k =? payout_id) (transfers d) with
    | Some k =>
        d' ← update_transfers (λ k, kt_payout_id k =? payout_id) refresh d; Ok (refresh k, d')
    | None =>
        if existsb (λ p, po_id p =? payout_id) (payouts d)
        then Ok (row, set_transfers (transfers d ++ [row]) d) else Err Constraint
    end
  else Err Constraint.

Definition record_krc20_commit_hash (payout_id : Z) (h : Hash) : Db → result DbError Db :=
  update_payouts (λ p, po_id p =? payout_id)
    (λ p, po_with (po_status p) (po_tx_hash p) (Some h) (po_krc20_reveal_hash p)
            (po_submitted_at p) (po_confirmed_at p) (po_accepted_daa_score p) (po_failure_reason p) p).

Definition record_krc20_reveal_hash (payout_id : Z) (h : Hash) : Db → result DbError Db :=
  update_payouts (λ p, po_id p =? payout_id)
    (λ p, po_with (po_status p) (po_tx_hash p) (po_krc20_commit_hash p) (Some h)
            (po_submitted_at p) (po_confirmed_at p) (po_accepted_daa_score p) (po_failure_reason p) p).

Definition fees_unset (k : Krc20PendingTransfer) : bool :=
  match kt_commit_fee_sompi k, kt_reveal_fee_sompi k with None, None => true | _, _ => false end.

Definition record_krc20_fees (payout_id commit_fee reveal_fee now : Z) : Db → result DbError Db :=
  update_transfers (λ k, (kt_payout_id k =? payout_id) && fees_unset k)
    (λ k, kt_with (kt_status k) (kt_sompi_to_miner k) (kt_nacho_amount k) (kt_p2sh_address k)
            (Some commit_fee) (Some reveal_fee) now k).

(** The transfer transitions differ in the guard and the new status only. *)
Definition kt_advance (st : Krc20TransferStatus) (now : Z) (k : Krc20PendingTransfer) : Krc20PendingTransfer :=
  kt_with st (kt_sompi_to_miner k) (kt_nacho_amount k) (kt_p2sh_address k)
    (kt_commit_fee_sompi k) (kt_reveal_fee_sompi k) now k.

Definition mark_krc20_commit_submitted (payout_id now : Z) : Db → result DbError Db :=
  update_transfers
    (λ k, (kt_payout_id k =? payout_id) && status_in (kt_status k) [Pending; CommitSubmitted])
    (kt_advance CommitSubmitted now).

Definition mark_krc20_reveal_submitted (payout_id now : Z) : Db → result DbError Db :=
  update_transfers
    (λ k, (kt_payout_id k =? payout_id) && status_in (kt_status k) [CommitSubmitted; RevealSubmitted])
    (kt_advance RevealSubmitted now).

Definition mark_krc20_completed (payout_id now : Z) : Db → result DbError Db :=
  update_transfers
    (λ k, (kt_payout_id k =? payout_id) && status_in (kt_status k) [RevealSubmitted; Completed])
    (kt_advance Completed now).

Definition mark_krc20_failed (payout_id now : Z) : Db → result DbError Db :=
  update_transfers
    (λ k, (kt_payout_id k =? payout_id) && negb (status_in (kt_status k) [Completed]))
    (kt_advance TFailed now).

Definition list_krc20_by_status (statuses : list Krc20TransferStatus) (n : Z) (d : Db)
    : list Krc20PendingTransfer :=
  limit n (stable_sort (λ x y, kt_created_at x <=? kt_created_at y)
    (List.filter (λ k, status_in (kt_status k) statuses) (transfers d))).

Definition list_krc20_for_cycle (cycle_id : Z) (d : Db) : list Krc20PendingTransfer :=
  stable_sort (λ x y, (kt_created_at x <? kt_created_at y) ||
                      ((kt_created_at x =? kt_created_at y) && (kt_id x <=? kt_id y)))
    (List.filter (λ k, existsb (λ p, (po_id p =? kt_payout_id k) && (po_cycle_id p =? cycle_id))
                         (payouts d)) (transfers d)).
