(* ===== verification/PayoutSpec.v ===== *)
(** * What the payout repository promises

    [repo_step]: one mutation of the payout tables, as a step relation with a
    constructor per repository function.  [db_ok]: the keys and constraints
    the schema declares.  [evolves]: the abstract lifecycle, a preorder on
    databases.  Every step preserves [db_ok] and refines [evolves], so each
    client that is a composition of repository calls inherits both. *)

From Stdlib Require Import Ascii.
From S2P Require Import Prelude Float64 Mass Db PayoutRepo.
Local Open Scope Z_scope.

(** ** Idempotency keys *)

Definition is_digit (c : Ascii.ascii) : Prop := ∃ n, c = pretty_N_char n.

Fixpoint all_digits (s : string) : Prop :=
  match s with EmptyString => True | String c s => is_digit c ∧ all_digits s end.

Lemma pretty_N_go_digits x s : all_digits s → all_digits (pretty_N_go x s).
Proof.
  revert s. induction (N.lt_wf_0 x) as [x _ IH]. intros s Hs.
  destruct (decide (0 < x)%N).
  - rewrite pretty_N_go_step by done. apply IH; [by apply N.div_lt|].
    split; [by eexists|done].
  - assert (x = 0%N) as -> by lia. by rewrite pretty_N_go_0.
Qed.

Lemma show_u64_digits z : all_digits (show_u64 z).
Proof.
  unfold show_u64, pretty, pretty_N. case_decide; [|by apply pretty_N_go_digits].
  split; [by exists 0%N|done].
Qed.

Lemma digit_cases c : is_digit c → c ∈ ["0"; "1"; "2"; "3"; "4"; "5"; "6"; "7"; "8"; "9"]%char.
Proof. intros [n ->]. unfold pretty_N_char. repeat case_match; set_solver. Qed.

Lemma digit_not_dash c : is_digit c → c ≠ "-"%char.
Proof. intros H ->. apply digit_cases in H. set_solver. Qed.

(** A digit string is read back off the front of [s ++ "-" ++ rest]. *)
Lemma split_at_dash s1 s2 r1 r2 : all_digits s1 → all_digits s2 →
  s1 +:+ "-" +:+ r1 = s2 +:+ "-" +:+ r2 → s1 = s2 ∧ r1 = r2.
Proof.
  revert s2. induction s1 as [|c1 s1 IH]; intros [|c2 s2]; simpl; intros H1 H2.
  - naive_solver.
  - intros [= <- _]. by destruct (digit_not_dash "-"%char (proj1 H2)).
  - intros [= -> _]. by destruct (digit_not_dash "-"%char (proj1 H1)).
  - intros [= -> Hs]. destruct (IH s2) as [-> ->]; naive_solver.
Qed.

Lemma show_u64_inj a b : 0 ≤ a → 0 ≤ b → show_u64 a = show_u64 b → a = b.
Proof. unfold show_u64. intros Ha Hb H. apply (inj (pretty (A:=N))) in H. lia. Qed.

(** One key per kind and DAA window: cycles of different windows, or of different kinds,
    never share an idempotency key. *)
Theorem idempotency_key_injective k1 s1 e1 k2 s2 e2 :
  0 ≤ s1 → 0 ≤ e1 → 0 ≤ s2 → 0 ≤ e2 →
  idempotency_key k1 s1 e1 = idempotency_key k2 s2 e2 → k1 = k2 ∧ s1 = s2 ∧ e1 = e2.
Proof.
  intros Hs1 He1 Hs2 He2 H. destruct k1, k2; unfold idempotency_key in H; simpl in H; try discriminate.
  all: injection H as H; apply split_at_dash in H as [H He]; try apply show_u64_digits.
  all: split_and!; [done| |]; by apply show_u64_inj.
Qed.

(** No cycle the engine opens is mistaken for a cutover import. *)
Lemma idempotency_key_not_legacy k s e : is_legacy_key (idempotency_key k s e) = false.
Proof.
  unfold is_legacy_key, idempotency_key. destruct k; [|done].
  pose proof (show_u64_digits s) as Hd. destruct (show_u64 s) as [|c r]; [done|].
  destruct Hd as [Hc%digit_cases _].
  repeat (apply elem_of_cons in Hc as [->|Hc]; [reflexivity|]). by apply not_elem_of_nil in Hc.
Qed.

(** ** Row lifecycles *)

(** First write wins. *)
Definition frozen {A} (o o' : option A) : Prop := ∀ a, o = Some a → o' = Some a.

Definition po_status_next (s t : PayoutStatus) : bool :=
  match s, t with
  | Planned, _ => true
  | Submitted, Planned => false
  | Submitted, _ => true
  | Accepted, (Planned | Submitted) => false
  | Accepted, _ => true
  | Confirmed, Confirmed => true
  | Confirmed, _ => false
  | Failed, (Failed | Confirmed) => true
  | Failed, _ => false
  end.

Definition pc_status_next (s t : PayoutCycleStatus) : bool :=
  match s, t with
  | CPlanned, _ => true
  | CBroadcasting, CPlanned => false
  | CBroadcasting, _ => true
  | CPartiallySettled, (CPartiallySettled | CSettled | CFailed) => true
  | CPartiallySettled, _ => false
  | CSettled, CSettled => true
  | CSettled, _ => false
  | CFailed, CFailed => true
  | CFailed, _ => false
  end.

Definition kt_status_next (s t : Krc20TransferStatus) : bool :=
  match s, t with
  | Pending, _ => true
  | CommitSubmitted, Pending => false
  | CommitSubmitted, _ => true
  | RevealSubmitted, (RevealSubmitted | Completed | TFailed) => true
  | RevealSubmitted, _ => false
  | Completed, Completed => true
  | Completed, _ => false
  | TFailed, TFailed => true
  | TFailed, _ => false
  end.

Record po_evolves (p q : Payout) : Prop := {
  poe_id : po_id q = po_id p;
  poe_cycle : po_cycle_id q = po_cycle_id p;
  poe_wallet : po_wallet_id q = po_wallet_id p;
  poe_amount : po_amount_sompi q = po_amount_sompi p;
  poe_planned : po_planned_at q = po_planned_at p;
  poe_status : po_status_next (po_status p) (po_status q) = true;
  poe_hash : is_Some (po_tx_hash p) → is_Some (po_tx_hash q);
  poe_hash_fixed : po_status p ∉ [Planned; Submitted] → po_tx_hash q = po_tx_hash p;
  poe_submitted : frozen (po_submitted_at p) (po_submitted_at q);
  poe_confirmed : frozen (po_confirmed_at p) (po_confirmed_at q);
  poe_accepted : frozen (po_accepted_daa_score p) (po_accepted_daa_score q);
}.

Record pc_evolves (c c' : PayoutCycle) : Prop := {
  pce_id : pc_id c' = pc_id c;
  pce_kind : pc_kind c' = pc_kind c;
  pce_start : pc_daa_start c' = pc_daa_start c;
  pce_end : pc_daa_end c' = pc_daa_end c;
  pce_planned : pc_planned_at c' = pc_planned_at c;
  pce_key : pc_idempotency_key c' = pc_idempotency_key c;
  pce_status : pc_status_next (pc_status c) (pc_status c') = true;
  pce_broadcast : frozen (pc_broadcast_at c) (pc_broadcast_at c');
  pce_settled : frozen (pc_settled_at c) (pc_settled_at c');
}.

Record kt_evolves (k k' : Krc20PendingTransfer) : Prop := {
  kte_id : kt_id k' = kt_id k;
  kte_payout : kt_payout_id k' = kt_payout_id k;
  kte_created : kt_created_at k' = kt_created_at k;
  kte_status : kt_status_next (kt_status k) (kt_status k') = true;
  kte_fees : fees_unset k = false →
    kt_commit_fee_sompi k' = kt_commit_fee_sompi k ∧ kt_reveal_fee_sompi k' = kt_reveal_fee_sompi k;
}.

#[export] Instance frozen_preorder A : PreOrder (@frozen A).
Proof. split; [by intros ???|]. intros x y z Hxy Hyz a Ha. auto. Qed.

#[export] Instance po_evolves_preorder : PreOrder po_evolves.
Proof.
  split; [intros p; split; try done; by destruct (po_status p)|].
  intros p q r [] []; split; try congruence; try (by etrans; eauto); [| auto |].
  - destruct (po_status p), (po_status q), (po_status r); done.
  - intros Hn. transitivity (po_tx_hash q); [|by auto].
    apply poe_hash_fixed1. intros Hq. destruct (po_status p), (po_status q); set_solver.
Qed.

#[export] Instance pc_evolves_preorder : PreOrder pc_evolves.
Proof.
  split; [intros c; split; try done; by destruct (pc_status c)|].
  intros p q r [] []; split; try congruence; try (by etrans; eauto).
  destruct (pc_status p), (pc_status q), (pc_status r); done.
Qed.

#[export] Instance kt_evolves_preorder : PreOrder kt_evolves.
Proof.
  split; [intros k; split; try done; by destruct (kt_status k)|].
  intros p q r [] []; split; try congruence.
  - destruct (kt_status p), (kt_status q), (kt_status r); done.
  - intros Hf. destruct (kte_fees0 Hf) as [H1 H2]. rewrite <- H1, <- H2. apply kte_fees1.
    unfold fees_unset in *. by rewrite H1, H2.
Qed.

(** A table that only grows at its end, its rows evolving in place. *)
Definition grows {A} (R : relation A) (l l' : list A) : Prop :=
  ∃ l1 new, l' = l1 ++ new ∧ Forall2 R l l1.

#[export] Instance grows_preorder {A} (R : relation A) `{!PreOrder R} : PreOrder (grows R).
Proof.
  split.
  - intros l. exists l, []. by rewrite app_nil_r.
  - intros l l' l'' (l1 & n & -> & H1) (l2 & n' & -> & H2).
    apply Forall2_app_inv_l in H2 as (a & b & H2a & H2b & ->).
    exists a, (b ++ n'). rewrite app_assoc. split; [done|].
    by transitivity l1.
Qed.

Lemma grows_app {A} (R : relation A) `{!Reflexive R} l new : grows R l (l ++ new).
Proof. exists l, new. by split. Qed.

Lemma grows_update {A} (R : relation A) `{!Reflexive R} p f (l : list A) :
  (∀ x, p x = true → R x (f x)) → grows R l (update_where p f l).
Proof.
  intros Hf. exists (update_where p f l), []. rewrite app_nil_r. split; [done|].
  unfold update_where. induction l as [|x l IH]; simpl; constructor; [|done].
  destruct (p x) eqn:E; auto.
Qed.

Lemma grows_elem {A} (R : relation A) l l' x : grows R l l' → x ∈ l → ∃ y, y ∈ l' ∧ R x y.
Proof.
  intros (l1 & new & -> & HF) [i Hx]%list_elem_of_lookup.
  destruct (Forall2_lookup_l _ _ _ _ _ HF Hx) as (y & Hy & HR).
  exists y. split; [|done]. apply elem_of_app. left. by apply list_elem_of_lookup_2 in Hy.
Qed.

Record evolves (d d' : Db) : Prop := {
  ev_payouts : grows po_evolves (payouts d) (payouts d');
  ev_cycles : grows pc_evolves (cycles d) (cycles d');
  ev_transfers : grows kt_evolves (transfers d) (transfers d');
  ev_wallets : wallets d' = wallets d;
  ev_allocations : share_allocations d' = share_allocations d;
}.

#[export] Instance evolves_preorder : PreOrder evolves.
Proof.
  split; [by intros d; split|].
  intros a b c [] []; split; try (by etrans; eauto); congruence.
Qed.

(** ** The schema's keys and constraints *)

Definition recipient_of (p : Payout) : Z * Z := (po_cycle_id p, po_wallet_id p).

Record db_ok (d : Db) : Prop := {
  ok_wallet_ids : NoDup (map w_id (wallets d));
  ok_cycle_ids : NoDup (map pc_id (cycles d));
  ok_cycle_keys : NoDup (map pc_idempotency_key (cycles d));
  ok_payout_ids : NoDup (map po_id (payouts d));
  ok_recipients : NoDup (map recipient_of (payouts d));
  ok_transfer_payouts : NoDup (map kt_payout_id (transfers d));
  ok_cycle_checks : Forall (λ c, cycle_check c = true) (cycles d);
  ok_payout_checks : Forall (λ p, payout_check p = true) (payouts d);
  ok_transfer_checks : Forall (λ k, transfer_check k = true) (transfers d);
  ok_payout_cycles : Forall (λ p, po_cycle_id p ∈ map pc_id (cycles d)) (payouts d);
}.

(** ** One mutation of the payout tables *)

Inductive repo_step (d : Db) : Db → Prop :=
| step_create_cycle k s e now c d' : create_cycle k s e now d = Ok (c, d') → repo_step d d'
| step_cycle_broadcasting i now d' : mark_cycle_broadcasting i now d = Ok d' → repo_step d d'
| step_cycle_partially i d' : mark_cycle_partially_settled i d = Ok d' → repo_step d d'
| step_cycle_settled i now d' : mark_cycle_settled i now d = Ok d' → repo_step d d'
| step_cycle_failed i d' : mark_cycle_failed i d = Ok d' → repo_step d d'
| step_cycle_totals i t r d' : set_cycle_totals i t r d = Ok d' → repo_step d d'
| step_insert_payout c w a now p d' : insert_payout c w a now d = Ok (p, d') → repo_step d d'
| step_ensure_payout c w a now p d' : ensure_payout c w a now d = Ok (p, d') → repo_step d d'
| step_submitted i h now d' : mark_payout_submitted i h now d = Ok d' → repo_step d d'
| step_accepted i a d' : mark_payout_accepted i a d = Ok d' → repo_step d d'
| step_confirmed i now d' : mark_payout_confirmed i now d = Ok d' → repo_step d d'
| step_confirm_once i now b d' : confirm_krc20_payout_once i now d = Ok (b, d') → repo_step d d'
| step_failed i r d' : mark_payout_failed i r d = Ok d' → repo_step d d'
| step_insert_krc20 i s n a now k d' : insert_krc20_pending i s n a now d = Ok (k, d') → repo_step d d'
| step_ensure_krc20 i s n a now k d' : ensure_krc20_pending i s n a now d = Ok (k, d') → repo_step d d'
| step_commit_hash i h d' : record_krc20_commit_hash i h d = Ok d' → repo_step d d'
| step_reveal_hash i h d' : record_krc20_reveal_hash i h d = Ok d' → repo_step d d'
| step_fees i c r now d' : record_krc20_fees i c r now d = Ok d' → repo_step d d'
| step_commit_submitted i now d' : mark_krc20_commit_submitted i now d = Ok d' → repo_step d d'
| step_reveal_submitted i now d' : mark_krc20_reveal_submitted i now d = Ok d' → repo_step d d'
| step_completed i now d' : mark_krc20_completed i now d = Ok d' → repo_step d d'
| step_krc20_failed i now d' : mark_krc20_failed i now d = Ok d' → repo_step d d'
| step_audit actor action subject : repo_step d (audit_append actor action subject d).

Create HintDb repo.
#[export] Hint Constructors repo_step : repo.
#[export] Hint Constructors rtc : repo.

(** ** Every step refines the lifecycle and keeps the schema *)

Lemma update_checked_Ok {A} (ok : A → bool) p f l l' : update_checked ok p f l = Ok l' →
  l' = update_where p f l ∧ ∀ x, x ∈ l → p x = true → ok (f x) = true.
Proof.
  unfold update_checked. intros H. case_bool_in H; [|done]. invert_binds. split; [done|].
  intros x Hx Px. rewrite forallb_forall in E. specialize (E x (proj1 (list_elem_of_In _ _) Hx)).
  by rewrite Px in E.
Qed.

Lemma update_checked_checks {A} (ok : A → bool) p f l l' : update_checked ok p f l = Ok l' →
  Forall (λ x, ok x = true) l → Forall (λ x, ok x = true) l'.
Proof.
  intros [-> Hf]%update_checked_Ok Hl. rewrite Forall_forall in *. intros y Hy.
  apply elem_of_update_where in Hy as (x & Hx & ->). destruct (p x) eqn:E; auto.
Qed.

(** A step that is an update: it keeps the keys and each row it touches evolves. *)
Definition good_step (d d' : Db) : Prop := evolves d d' ∧ (db_ok d → db_ok d').

#[export] Instance good_step_preorder : PreOrder good_step.
Proof. split; [by split|]. intros a b c [? ?] [? ?]. split; [by etrans|auto]. Qed.

Lemma update_payouts_spec p f d d' : update_payouts p f d = Ok d' →
  (∀ x, po_id (f x) = po_id x) → (∀ x, recipient_of (f x) = recipient_of x) →
  (∀ x, p x = true → po_evolves x (f x)) → good_step d d'.
Proof.
  intros H Hi Hr Hf. apply result_bind_Ok in H as (l & H & [= <-]).
  pose proof (update_checked_Ok _ _ _ _ _ H) as [-> _]. split.
  - split; simpl; try done. by apply grows_update; [apply _|].
  - intros []. split; simpl; rewrite ?map_update_where by done; try done.
    + by apply (update_checked_checks _ _ _ _ _ H).
    + rewrite Forall_forall in *. intros y (x & Hx & ->)%elem_of_update_where.
      case_bool; [|auto]. injection (Hr x) as -> _. auto.
Qed.

Lemma update_cycles_spec p f d d' : update_cycles p f d = Ok d' →
  (∀ x, pc_id (f x) = pc_id x) → (∀ x, pc_idempotency_key (f x) = pc_idempotency_key x) →
  (∀ x, p x = true → pc_evolves x (f x)) → good_step d d'.
Proof.
  intros H Hi Hk Hf. apply result_bind_Ok in H as (l & H & [= <-]).
  pose proof (update_checked_Ok _ _ _ _ _ H) as [-> _]. split.
  - split; simpl; try done. by apply grows_update; [apply _|].
  - intros []. split; simpl; rewrite ?map_update_where by done; try done.
    by apply (update_checked_checks _ _ _ _ _ H).
Qed.

Lemma update_transfers_spec p f d d' : update_transfers p f d = Ok d' →
  (∀ x, kt_payout_id (f x) = kt_payout_id x) →
  (∀ x, p x = true → kt_evolves x (f x)) → good_step d d'.
Proof.
  intros H Hi Hf. apply result_bind_Ok in H as (l & H & [= <-]).
  pose proof (update_checked_Ok _ _ _ _ _ H) as [-> _]. split.
  - split; simpl; try done. by apply grows_update; [apply _|].
  - intros []. split; simpl; rewrite ?map_update_where by done; try done.
    by apply (update_checked_checks _ _ _ _ _ H).
Qed.

(** A fresh key appended to a column of unique keys. *)
Lemma NoDup_snoc {A B} (key : A → B) l x :
  NoDup (map key l) → (∀ y, y ∈ l → key y ≠ key x) → NoDup (map key (l ++ [x])).
Proof.
  intros Hl Hx. rewrite map_app. apply NoDup_app. split_and!; [done| |apply NoDup_singleton].
  intros k Hk ->%list_elem_of_singleton. apply list_elem_of_fmap in Hk as (y & Hy & Hin).
  by apply (Hx y).
Qed.

Lemma find_None {A} (p : A → bool) l x : List.find p l = None → x ∈ l → p x = false.
Proof. intros H Hx. apply (find_none _ _ H). by apply list_elem_of_In. Qed.

Lemma existsb_None {A} (p : A → bool) l x : existsb p l = false → x ∈ l → p x = false.
Proof.
  intros H Hx. destruct (p x) eqn:E; [|done]. rewrite <- H. symmetry.
  apply existsb_exists. exists x. by split; [apply list_elem_of_In|].
Qed.

Lemma next_id_ne {A} (key : A → Z) l x : x ∈ l → key x ≠ next_id key l.
Proof. intros H%(next_id_fresh key). lia. Qed.

Lemma payout_fk_cycle p d : payout_fk p d = true → po_cycle_id p ∈ map pc_id (cycles d).
Proof.
  unfold payout_fk. intros [(c & Hc & Heq)%existsb_exists _]%andb_true_iff.
  apply list_elem_of_fmap. exists c. split; [lia|by apply list_elem_of_In].
Qed.

Lemma append_payout_spec p d : payout_check p = true → po_id p = next_id po_id (payouts d) →
  (∀ q, q ∈ payouts d → recipient_of q ≠ recipient_of p) → payout_fk p d = true →
  good_step d (set_payouts (payouts d ++ [p]) d).
Proof.
  intros Hc Hi Hr Hfk. split.
  - split; simpl; try done. apply grows_app, _.
  - intros []. split; simpl; try done.
    + apply NoDup_snoc; [done|]. rewrite Hi. intros y. apply next_id_ne.
    + by apply NoDup_snoc.
    + by apply Forall_app; split; [|apply Forall_singleton].
    + apply Forall_app; split; [done|]. by apply Forall_singleton, payout_fk_cycle.
Qed.

Lemma append_cycle_spec c d : cycle_check c = true → pc_id c = next_id pc_id (cycles d) →
  (∀ q, q ∈ cycles d → pc_idempotency_key q ≠ pc_idempotency_key c) →
  good_step d (set_cycles (cycles d ++ [c]) d).
Proof.
  intros Hc Hi Hr. split.
  - split; simpl; try done. apply grows_app, _.
  - intros []. split; simpl; try done.
    + apply NoDup_snoc; [done|]. rewrite Hi. intros y. apply next_id_ne.
    + by apply NoDup_snoc.
    + by apply Forall_app; split; [|apply Forall_singleton].
    + apply (Forall_impl _ _ _ ok_payout_cycles0). intros p Hp. rewrite map_app. set_solver.
Qed.

Lemma append_transfer_spec k d : transfer_check k = true →
  (∀ q, q ∈ transfers d → kt_payout_id q ≠ kt_payout_id k) →
  good_step d (set_transfers (transfers d ++ [k]) d).
Proof.
  intros Hc Hr. split.
  - split; simpl; try done. apply grows_app, _.
  - intros []. split; simpl; try done.
    + by apply NoDup_snoc.
    + by apply Forall_app; split; [|apply Forall_singleton].
Qed.

Lemma coalesce_frozen {A} (o : option A) a : frozen o (coalesce o a).
Proof. by intros x ->. Qed.

(** The guard of each transition, turned into the status it admits. *)
Lemma status_in_elem {S} `{!EqDecision S} (s : S) l : status_in s l = true ↔ s ∈ l.
Proof. apply bool_decide_eq_true. Qed.

Lemma status_in_false {S} `{!EqDecision S} (s : S) l : status_in s l = false ↔ s ∉ l.
Proof. apply bool_decide_eq_false. Qed.

(** [row_evolves]: a guarded row update stays within the lifecycle: case on
    the status the guard reads, the inadmissible ones contradict the guard. *)
Ltac by_status st :=
  destruct st; solve [reflexivity | discriminate | intros Hn; exfalso; apply Hn; by_computation].
Ltac row_evolves :=
  let x := fresh "x" in intros x ?; unfold not_confirmed in *; cbv beta in *; bool_hyps;
  split; simpl; try done; try apply coalesce_frozen; try (intros; by eexists); try (intros; congruence);
  try (by_status (po_status x)); try (by_status (pc_status x)); try (by_status (kt_status x)).

Lemma insert_payout_spec c w a now d p d' : insert_payout c w a now d = Ok (p, d') → good_step d d'.
Proof.
  unfold insert_payout. intros H. case_bool_in H; [|done]. injection H as <- <-. bool_hyps.
  apply append_payout_spec; [done|done| |done]. intros q Hq [= Hc Hw].
  eapply existsb_None in Hq; [|done]. unfold same_recipient in Hq.
  rewrite Hc, Hw, !Z.eqb_refl in Hq. done.
Qed.

Lemma ensure_payout_spec c w a now d p d' : ensure_payout c w a now d = Ok (p, d') → good_step d d'.
Proof.
  unfold ensure_payout. intros H. case_bool_in H; [|done].
  destruct (List.find _ _) eqn:F; [by injection H as -> ->|].
  case_bool_in H; [|done]. injection H as <- <-.
  apply append_payout_spec; [done|done| |done]. intros q Hq [= Hc Hw].
  eapply find_None in Hq; [|done]. unfold same_recipient in Hq.
  rewrite Hc, Hw, !Z.eqb_refl in Hq. done.
Qed.

Lemma create_cycle_spec k s e now d c d' : create_cycle k s e now d = Ok (c, d') → good_step d d'.
Proof.
  unfold create_cycle. intros H. case_bool_in H; [|done].
  destruct (List.find _ _) eqn:F; [by injection H as -> ->|]. injection H as <- <-.
  apply append_cycle_spec; [done|done|]. intros q Hq Hk.
  eapply find_None in Hq; [|done]. simpl in Hq. by apply bool_decide_eq_false in Hq.
Qed.

Lemma insert_krc20_spec i s n a now d k d' : insert_krc20_pending i s n a now d = Ok (k, d') → good_step d d'.
Proof.
  unfold insert_krc20_pending. intros H. case_bool_in H; [|done]. injection H as <- <-. bool_hyps.
  apply append_transfer_spec; [done|]. intros q Hq Hk.
  eapply existsb_None in Hq; [|done]. simpl in *. lia.
Qed.

Lemma ensure_krc20_spec i s n a now d k d' : ensure_krc20_pending i s n a now d = Ok (k, d') → good_step d d'.
Proof.
  unfold ensure_krc20_pending. intros H. case_bool_in H; [|done].
  destruct (List.find _ _) eqn:F.
  - apply result_bind_Ok in H as (d1 & H & [= <- <-]).
    eapply update_transfers_spec; [done|done|]. row_evolves.
  - case_bool_in H; [|done]. injection H as <- <-. apply append_transfer_spec; [done|].
    intros q Hq Hk. eapply find_None in Hq; [|done]. simpl in *. lia.
Qed.

Lemma confirm_once_spec i now d b d' : confirm_krc20_payout_once i now d = Ok (b, d') → good_step d d'.
Proof.
  intros (d1 & H & [= _ <-])%result_bind_Ok. eapply update_payouts_spec; [exact H|done|done|]. row_evolves.
Qed.

Lemma audit_spec a1 a2 a3 d : good_step d (audit_append a1 a2 a3 d).
Proof. split; [by split|]. intros []. by split. Qed.

(** Each mutation refines the lifecycle and keeps the schema. *)
Lemma repo_step_good d d' : repo_step d d' → good_step d d'.
Proof.
  destruct 1 as
    [?????? H|??? H|?? H|??? H|?? H|???? H|?????? H|?????? H|???? H|??? H|??? H|???? H|??? H
    |??????? H|??????? H|??? H|??? H|????? H|??? H|??? H|??? H|??? H|???].
  all: try solve [eapply create_cycle_spec; exact H | eapply insert_payout_spec; exact H
    | eapply ensure_payout_spec; exact H | eapply insert_krc20_spec; exact H
    | eapply ensure_krc20_spec; exact H].
  all: try solve [eapply update_cycles_spec; [exact H|done|done|]; row_evolves].
  all: try solve [eapply update_payouts_spec; [exact H|done|done|]; row_evolves].
  all: try solve [eapply update_transfers_spec; [exact H|done|]; row_evolves].
  - by eapply confirm_once_spec.
  - apply audit_spec.
Qed.

Lemma repo_steps_good d d' : rtc repo_step d d' → good_step d d'.
Proof. induction 1 as [|? ? ? ?%repo_step_good]; [done|]. by etrans. Qed.

(** C20: The payout repository refines the abstract payout lifecycle and maintains the schema: over any
    sequence of repository mutations, rows keep their identity, recipient and amount, statuses only
    move forward, a recorded accepting height, submission or confirmation time and frozen fee pair
    is never rewritten, keys stay unique and every row satisfies its constraints. *)
Theorem repository_refines_lifecycle d d' :
  db_ok d → rtc repo_step d d' → db_ok d' ∧ evolves d d'.
Proof. intros Hd [He Hk]%repo_steps_good. auto. Qed.

(** Terminal rows are final: no sequence of repository calls moves a confirmed payout, a settled
    or failed cycle, or a completed or failed transfer to another status, and a confirmed payout
    keeps its recipient, amount and transaction. *)
Theorem terminal_rows_final d d' : rtc repo_step d d' →
  (∀ p, p ∈ payouts d → po_status p = Confirmed → ∃ q, q ∈ payouts d' ∧ po_status q = Confirmed ∧
     po_id q = po_id p ∧ recipient_of q = recipient_of p ∧ po_amount_sompi q = po_amount_sompi p ∧
     po_tx_hash q = po_tx_hash p) ∧
  (∀ c, c ∈ cycles d → pc_status c ∈ [CSettled; CFailed] →
     ∃ c', c' ∈ cycles d' ∧ pc_id c' = pc_id c ∧ pc_status c' = pc_status c) ∧
  (∀ k, k ∈ transfers d → kt_status k ∈ [Completed; TFailed] →
     ∃ k', k' ∈ transfers d' ∧ kt_payout_id k' = kt_payout_id k ∧ kt_status k' = kt_status k).
Proof.
  intros [[Hp Hc Hk _ _] _]%repo_steps_good. split_and!.
  - intros p Hin Hs. destruct (grows_elem _ _ _ _ Hp Hin) as (q & Hq & []). exists q.
    rewrite Hs in *. unfold recipient_of. split_and!; try congruence.
    + by destruct (po_status q).
    + apply poe_hash_fixed0. by_computation.
  - intros c Hin Hs. destruct (grows_elem _ _ _ _ Hc Hin) as (q & Hq & []). exists q.
    split_and!; [done|done|]. destruct (pc_status c), (pc_status q); set_solver.
  - intros c Hin Hs. destruct (grows_elem _ _ _ _ Hk Hin) as (q & Hq & []). exists q.
    split_and!; [done|done|]. destruct (kt_status c), (kt_status q); set_solver.
Qed.
