(* ===== verification/Effects.v ===== *)
(** * Effects of the payout services

    The services run against Postgres and a kaspad node, and can lose either
    or be killed at any await point.  A [World] holds the database, the
    transactions that reached the network, and the environment's replies to
    the interactions still to come; a computation [M E A] consumes one reply
    per interaction.  A reply lets the interaction through, refuses it, or
    performs it and loses the acknowledgement; when the replies run out the
    process has been killed.  Quantifying over replies therefore ranges over
    every crash point, every failed query and every node answer.

    The node is reached through the trait [KaspadClient] of
    payout-kas/src/client.rs; its five methods are the last definitions. *)

From S2P Require Import Prelude Float64 Mass Db.
Local Open Scope Z_scope.

(** What the node would answer at the moment of an interaction
    ([TreasuryUtxoSnapshot] has the two fields of [TreasuryUtxo]). *)
Record NodeView (Script : Type) := {
  nv_virtual_daa_score : Z;
  nv_treasury_utxos : list (TreasuryUtxo Script);
  nv_feerate : f64;
  nv_in_mempool : Hash → bool;
}.
Arguments nv_virtual_daa_score {Script} _.
Arguments nv_treasury_utxos {Script} _.
Arguments nv_feerate {Script} _.
Arguments nv_in_mempool {Script} _ _.

Inductive Reply (Script : Type) :=
| Proceed (now : Z) (view : NodeView Script)
| Refuse
| Lost (now : Z) (view : NodeView Script).
Arguments Proceed {Script} _ _.
Arguments Refuse {Script}.
Arguments Lost {Script} _ _.

(** A transaction that reached the network, with the recipients it was built for. *)
Record Broadcast (Script : Type) := {
  bc_payouts : list (PayoutRecipient Script);
  bc_tx : Transaction Script;
}.
Arguments bc_payouts {Script} _.
Arguments bc_tx {Script} _.

Record World (Script : Type) := {
  w_db : Db;
  w_sent : list (Broadcast Script);
  w_replies : list (Reply Script);
}.
Arguments w_db {Script} _.
Arguments w_sent {Script} _.
Arguments w_replies {Script} _.

Definition world_db {Script} (d : Db) (w : World Script) : World Script :=
  {| w_db := d; w_sent := w_sent w; w_replies := w_replies w |}.
Definition world_send {Script} (b : Broadcast Script) (w : World Script) : World Script :=
  {| w_db := w_db w; w_sent := w_sent w ++ [b]; w_replies := w_replies w |}.
Definition world_replies {Script} (rs : list (Reply Script)) (w : World Script) : World Script :=
  {| w_db := w_db w; w_sent := w_sent w; w_replies := rs |}.

(** How a computation ends: it returns a [Result], or the process is gone
    (killed, or aborted by a panic). *)
Inductive outcome (E A : Type) := Done (r : result E A) | Crashed.
Arguments Done {E A} r.
Arguments Crashed {E A}.

Definition M (Script E A : Type) : Type := World Script → outcome E A * World Script.

#[export] Instance M_ret Script E : MRet (M Script E) := λ A a w, (Done (Ok a), w).
#[export] Instance M_bind Script E : MBind (M Script E) := λ A B k m w,
  match m w with
  | (Done (Ok a), w') => k a w'
  | (Done (Err e), w') => (Done (Err e), w')
  | (Crashed, w') => (Crashed, w')
  end.

Definition throw {Script E A} (e : E) : M Script E A := λ w, (Done (Err e), w).

(** [panic!] under [panic = "abort"], and a pure computation that may panic. *)
Definition abort {Script E A} : M Script E A := λ w, (Crashed, w).
Definition lift_exec {Script E A} (x : exec A) : M Script E A :=
  match x with Ret a => mret a | Panic => abort end.
Definition lift_result {Script E A} (x : result E A) : M Script E A :=
  match x with Ok a => mret a | Err e => throw e end.

(** [?] through a [From] conversion. *)
Definition map_err {Script E E' A} (g : E → E') (m : M Script E A) : M Script E' A := λ w,
  match m w with
  | (Done (Ok a), w') => (Done (Ok a), w')
  | (Done (Err e), w') => (Done (Err (g e)), w')
  | (Crashed, w') => (Crashed, w')
  end.

(** Inspect the result instead of propagating an error. *)
Definition attempt {Script E E' A} (m : M Script E A) : M Script E' (result E A) := λ w,
  match m w with
  | (Done r, w') => (Done (Ok r), w')
  | (Crashed, w') => (Crashed, w')
  end.

(** [for x in l { ... }] threading an accumulator. *)
Fixpoint for_each {Script E A S} (l : list A) (s : S) (body : A → S → M Script E S) : M Script E S :=
  match l with
  | [] => mret s
  | x :: l => s' ← body x s; for_each l s' body
  end.

(** ** Database interactions *)

(** One transaction, [now()] being its start: all of it or nothing. *)
Definition transact {Script A} (body : Z → Db → result DbError (A * Db)) : M Script DbError A := λ w,
  match w_replies w with
  | [] => (Crashed, w)
  | Refuse :: rs => (Done (Err Connection), world_replies rs w)
  | Proceed now _ :: rs =>
      match body now (w_db w) with
      | Ok (a, d) => (Done (Ok a), world_db d (world_replies rs w))
      | Err e => (Done (Err e), world_replies rs w)
      end
  | Lost now _ :: rs =>
      match body now (w_db w) with
      | Ok (_, d) => (Done (Err Connection), world_db d (world_replies rs w))
      | Err e => (Done (Err e), world_replies rs w)
      end
  end.

Definition statement {Script} (body : Z → Db → result DbError Db) : M Script DbError unit :=
  transact (λ now d, d' ← body now d; Ok (tt, d')).
Definition query {Script A} (body : Db → result DbError A) : M Script DbError A :=
  transact (λ _ d, a ← body d; Ok (a, d)).

(** ** The node: [KaspadClient] *)

Inductive KaspadError := Rpc.

Definition node_read {Script A} (f : NodeView Script → A) : M Script KaspadError A := λ w,
  match w_replies w with
  | [] => (Crashed, w)
  | (Refuse | Lost _ _) :: rs => (Done (Err Rpc), world_replies rs w)
  | Proceed _ v :: rs => (Done (Ok (f v)), world_replies rs w)
  end.

Definition virtual_daa_score {Script} : M Script KaspadError Z := node_read nv_virtual_daa_score.
Definition treasury_utxos {Script} : M Script KaspadError (list (TreasuryUtxo Script)) :=
  node_read nv_treasury_utxos.
Definition fee_estimate_sompi_per_gram {Script} : M Script KaspadError f64 := node_read nv_feerate.

(** Any transport error is reported as absence. *)
Definition transaction_in_mempool {Script} (txid : Hash) : M Script KaspadError bool :=
  r ← attempt (node_read (λ v, nv_in_mempool v txid));
  mret (match r with Ok b => b | Err _ => false end).

Definition submit_transaction {Script} (b : Broadcast Script) : M Script KaspadError unit := λ w,
  match w_replies w with
  | [] => (Crashed, w)
  | Refuse :: rs => (Done (Err Rpc), world_replies rs w)
  | Proceed _ _ :: rs => (Done (Ok tt), world_send b (world_replies rs w))
  | Lost _ _ :: rs => (Done (Err Rpc), world_send b (world_replies rs w))
  end.

(** ** Reasoning: an invariant that holds wherever the computation may stop *)

Definition wp {Script E A} (I : World Script → Prop) (m : M Script E A)
    (Q : A → World Script → Prop) (w : World Script) : Prop :=
  I (m w).2 ∧ ∀ a, (m w).1 = Done (Ok a) → Q a (m w).2.

Section wp.
Context {Script : Type} {E : Type}.
Context (I : World Script → Prop).

Lemma wp_ret {A} (a : A) (Q : A → World Script → Prop) w :
  I w → Q a w → wp I (mret a : M Script E A) Q w.
Proof. intros HI HQ. split; simpl; [done|]. by intros ? [= <-]. Qed.

Lemma wp_bind {A B} (m : M Script E A) (k : A → M Script E B) Q w :
  wp I m (λ a, wp I (k a) Q) w → wp I (m ≫= k) Q w.
Proof.
  unfold wp, mbind, M_bind. intros [HI HQ]. destruct (m w) as [[[a|e]|] w'] eqn:E1; simpl in *.
  - by apply HQ.
  - by split.
  - by split.
Qed.

Lemma wp_mono {A} (m : M Script E A) (Q Q' : A → World Script → Prop) w :
  wp I m Q w → (∀ a w', I w' → Q a w' → Q' a w') → wp I m Q' w.
Proof. intros [HI HQ] Himp. split; auto. Qed.

Lemma wp_throw {A} (e : E) Q w : I w → wp I (throw e : M Script E A) Q w.
Proof. intros. split; [done|]. by intros. Qed.

Lemma wp_lift_exec {A} (x : exec A) (Q : A → World Script → Prop) w :
  I w → (∀ a, x = Ret a → Q a w) → wp I (lift_exec x : M Script E A) Q w.
Proof. intros HI HQ. destruct x; simpl; [apply wp_ret; auto|]. by split. Qed.

Lemma wp_lift_result {A} (x : result E A) (Q : A → World Script → Prop) w :
  I w → (∀ a, x = Ok a → Q a w) → wp I (lift_result x) Q w.
Proof. intros HI HQ. destruct x; simpl; [apply wp_ret; auto|by apply wp_throw]. Qed.

Lemma wp_for_each {A S} (l : list A) (body : A → S → M Script E S)
    (J : list A → S → World Script → Prop) (s : S) w :
  (∀ x l s w, J (x :: l) s w → wp I (body x s) (J l) w) →
  (∀ s w, J [] s w → I w) →
  J l s w → wp I (for_each l s body) (J []) w.
Proof.
  intros Hb HI. revert s w. induction l as [|x l IH]; intros s w HJ; simpl.
  - apply wp_ret; eauto.
  - apply wp_bind. eapply wp_mono; [by apply Hb|]. auto.
Qed.
End wp.

Lemma wp_map_err {Script E E' A} I (g : E → E') (m : M Script E A) Q w :
  wp I m Q w → wp I (map_err g m) Q w.
Proof.
  unfold wp, map_err. intros [HI HQ]. destruct (m w) as [[[a|e]|] w']; simpl in *; split; try done.
  intros ? [= <-]. by apply HQ.
Qed.

Lemma wp_attempt {Script E E' A} I (m : M Script E A) (Q : result E A → World Script → Prop) w :
  I (m w).2 → (∀ r, (m w).1 = Done r → Q r (m w).2) → wp I (attempt m : M Script E' _) Q w.
Proof.
  unfold wp, attempt. intros HI HQ. destruct (m w) as [[r|] w']; simpl in *; split; try done.
  intros ? [= <-]. by apply HQ.
Qed.

Lemma wp_attempt_keeps {Script E E' A} I (m : M Script E A) (Q : A → World Script → Prop)
    (Q' : result E A → World Script → Prop) w :
  wp I m Q w → (∀ r w', I w' → Q' r w') → wp I (attempt m : M Script E' _) Q' w.
Proof. intros [HI _] HQ. apply wp_attempt; auto. Qed.

Lemma wp_attempt_both {Script E E' A} I (m : M Script E A) (Q : A → World Script → Prop)
    (Q' : result E A → World Script → Prop) w :
  wp I m Q w → (∀ a w', I w' → Q a w' → Q' (Ok a) w') → (∀ e w', I w' → Q' (Err e) w') →
  wp I (attempt m : M Script E' _) Q' w.
Proof. intros [HI HQ] Hok Herr. apply wp_attempt; [done|]. intros [a|e] Hr; auto. Qed.

Lemma wp_weaken {Script E A} (I I' : World Script → Prop) (m : M Script E A) Q w :
  wp I' m Q w → (∀ w, I' w → I w) → wp I m Q w.
Proof. intros [HI HQ] Himp. split; auto. Qed.

(** Dropping replies already consumed. *)
Definition suffix_closed {Script} (I : World Script → Prop) : Prop :=
  ∀ w r rs, w_replies w = r :: rs → I w → I (world_replies rs w).

Section interactions.
Context {Script : Type} (I : World Script → Prop) (HI : suffix_closed I).

Lemma wp_transact {A} (body : Z → Db → result DbError (A * Db)) (Q : A → World Script → Prop) w :
  I w →
  (∀ now a d rs, I (world_replies rs w) → body now (w_db w) = Ok (a, d) →
     I (world_db d (world_replies rs w)) ∧ Q a (world_db d (world_replies rs w))) →
  wp I (transact body) Q w.
Proof.
  intros Hw HQ. unfold wp, transact.
  destruct (w_replies w) as [|r rs] eqn:Er; [by split|]. pose proof (HI w r rs Er Hw) as Hrs.
  destruct r as [now v| |now v]; simpl; [|by split|].
  all: destruct (body now (w_db w)) as [[a d]|e] eqn:Eb; simpl; [|by split].
  all: destruct (HQ now a d rs Hrs Eb); split; try done.
  by intros ? [= <-].
Qed.

Lemma wp_query {A} (body : Db → result DbError A) (Q : A → World Script → Prop) w :
  I w → (∀ a rs, I (world_replies rs w) → body (w_db w) = Ok a → Q a (world_replies rs w)) →
  wp I (query body) Q w.
Proof.
  intros Hw HQ. apply wp_transact; [done|]. intros now a d rs Hrs (a' & Ha & [= -> <-])%result_bind_Ok.
  assert (world_db (w_db w) (world_replies rs w) = world_replies rs w) as -> by done. eauto.
Qed.

Lemma wp_statement (body : Z → Db → result DbError Db) (Q : unit → World Script → Prop) w :
  I w →
  (∀ now d rs, I (world_replies rs w) → body now (w_db w) = Ok d →
     I (world_db d (world_replies rs w)) ∧ Q tt (world_db d (world_replies rs w))) →
  wp I (statement body) Q w.
Proof.
  intros Hw HQ. apply wp_transact; [done|].
  intros now a d rs Hrs (d' & Hd & [= <- ->])%result_bind_Ok. eauto.
Qed.

Lemma wp_node_read {A} (f : NodeView Script → A) (Q : A → World Script → Prop) w :
  I w → (∀ now v rs, w_replies w = Proceed now v :: rs → I (world_replies rs w) → Q (f v) (world_replies rs w)) →
  wp I (node_read f) Q w.
Proof.
  intros Hw HQ. unfold wp, node_read.
  destruct (w_replies w) as [|r rs] eqn:Er; [by split|]. pose proof (HI w r rs Er Hw) as Hrs.
  destruct r as [now v| |now v]; simpl; split; try done. intros ? [= <-]. by eapply HQ.
Qed.

Lemma wp_in_mempool txid (Q : bool → World Script → Prop) w :
  I w → (∀ b rs, I (world_replies rs w) → Q b (world_replies rs w)) →
  wp I (transaction_in_mempool txid) Q w.
Proof.
  intros Hw HQ. apply wp_bind. apply wp_attempt.
  all: unfold node_read; destruct (w_replies w) as [|[now v| |now v] rs] eqn:Er; simpl; try done.
  all: pose proof (HI w _ rs Er Hw) as Hrs; try done.
  all: intros r [= <-]; apply wp_ret; eauto.
Qed.

Lemma wp_submit (b : Broadcast Script) (Q : result KaspadError unit → World Script → Prop) {E} w :
  I w →
  (∀ rs, I (world_replies rs w) → I (world_send b (world_replies rs w)) ∧
     (∀ r, Q r (world_send b (world_replies rs w))) ∧ Q (Err Rpc) (world_replies rs w)) →
  wp I (attempt (submit_transaction b) : M Script E _) Q w.
Proof.
  intros Hw HQ. apply wp_attempt.
  all: unfold submit_transaction; destruct (w_replies w) as [|[now v| |now v] rs] eqn:Er; simpl; try done.
  all: pose proof (HI w _ rs Er Hw) as Hrs; destruct (HQ rs Hrs) as (? & ? & ?); try done.
  all: intros r [= <-]; eauto.
Qed.
Lemma wp_submit_tx (b : Broadcast Script) (Q : unit → World Script → Prop) w :
  I w →
  (∀ rs, I (world_replies rs w) → I (world_send b (world_replies rs w)) ∧ Q tt (world_send b (world_replies rs w))) →
  wp I (submit_transaction b) Q w.
Proof.
  intros Hw HQ. unfold wp, submit_transaction.
  destruct (w_replies w) as [|r rs] eqn:Er; [by split|]. pose proof (HI w r rs Er Hw) as Hrs.
  destruct (HQ rs Hrs) as [? ?]. destruct r; simpl; split; try done. by intros [].
Qed.
End interactions.

(** ** Computations that put nothing on the wire *)

Definition quiet {Script E A} (m : M Script E A) : Prop := ∀ w, w_sent (m w).2 = w_sent w.

Section quiet.
Context {Script E : Type}.

Lemma quiet_ret {A} (a : A) : quiet (mret a : M Script E A).
Proof. done. Qed.

Lemma quiet_throw {A} (e : E) : quiet (throw e : M Script E A).
Proof. done. Qed.

Lemma quiet_bind {A B} (m : M Script E A) (k : A → M Script E B) :
  quiet m → (∀ a, quiet (k a)) → quiet (m ≫= k).
Proof.
  intros Hm Hk w. specialize (Hm w). unfold mbind, M_bind.
  destruct (m w) as [[[a|e]|] w']; simpl in *; [|done..]. by rewrite (Hk a w').
Qed.

Lemma quiet_map_err {E' A} (g : E → E') (m : M Script E A) : quiet m → quiet (map_err g m).
Proof. intros Hm w. specialize (Hm w). unfold map_err. by destruct (m w) as [[[a|e]|] w']. Qed.

Lemma quiet_attempt {E' A} (m : M Script E A) : quiet m → quiet (attempt m : M Script E' _).
Proof. intros Hm w. specialize (Hm w). unfold attempt. by destruct (m w) as [[r|] w']. Qed.

Lemma quiet_lift_exec {A} (x : exec A) : quiet (lift_exec x : M Script E A).
Proof. by destruct x. Qed.

Lemma quiet_lift_result {A} (x : result E A) : quiet (lift_result x : M Script E A).
Proof. by destruct x. Qed.

Lemma quiet_for_each {A S} (l : list A) (s : S) (body : A → S → M Script E S) :
  (∀ x s, quiet (body x s)) → quiet (for_each l s body).
Proof.
  intros Hb. revert s. induction l as [|x l IH]; intros s; simpl; [done|].
  by apply quiet_bind.
Qed.
End quiet.

Lemma quiet_transact {Script A} (body : Z → Db → result DbError (A * Db)) :
  quiet (transact body : M Script _ _).
Proof.
  intros w. unfold transact. destruct (w_replies w) as [|[now v| |now v] rs]; try done.
  all: by destruct (body now (w_db w)) as [[a d]|e].
Qed.

Lemma quiet_statement {Script} body : quiet (statement body : M Script _ _).
Proof. apply quiet_transact. Qed.

Lemma quiet_query {Script A} (body : Db → result DbError A) : quiet (query body : M Script _ _).
Proof. apply quiet_transact. Qed.

Lemma quiet_node_read {Script A} (f : NodeView Script → A) : quiet (node_read f).
Proof. intros w. unfold node_read. by destruct (w_replies w) as [|[? ?| |? ?] rs]. Qed.

Lemma quiet_in_mempool {Script} h : quiet (transaction_in_mempool (Script:=Script) h).
Proof. apply quiet_bind; [apply quiet_attempt, quiet_node_read|done]. Qed.

Create HintDb quiet.
#[export] Hint Resolve quiet_ret quiet_throw quiet_bind quiet_map_err quiet_attempt quiet_lift_exec
  quiet_lift_result quiet_for_each quiet_statement quiet_query quiet_node_read quiet_transact
  quiet_in_mempool : quiet.
#[export] Hint Extern 1 (quiet virtual_daa_score) => apply quiet_node_read : quiet.
#[export] Hint Extern 1 (quiet treasury_utxos) => apply quiet_node_read : quiet.
#[export] Hint Extern 1 (quiet fee_estimate_sompi_per_gram) => apply quiet_node_read : quiet.

(** [solve_quiet]: walk a computation and discharge its leaves from the hint database. *)
Ltac solve_quiet :=
  repeat first
    [ solve [auto 1 with quiet]
    | apply quiet_bind | apply quiet_map_err | apply quiet_attempt | apply quiet_for_each
    | progress intros
    | match goal with |- quiet (match ?x with _ => _ end) => destruct x end ].

Lemma wp_quiet {Script E A} I (m : M Script E A) (Q : A → World Script → Prop) w :
  quiet m → wp I m Q w → wp I m (λ a w', Q a w' ∧ w_sent w' = w_sent w) w.
Proof. intros Hq [HI HQ]. split; [done|]. intros a Ha. split; [auto|apply Hq]. Qed.
