(* ===== verification/KasCycle.v ===== *)
(** * KAS payout cycles: window, planning, status and reconciliation

    payout-kas/src/window.rs, plan.rs, cycle.rs and confirm.rs. *)

From S2P Require Import Prelude Float64 Mass Db PayoutRepo PayoutSpec Effects.
Local Open Scope Z_scope.

(** ** window.rs *)

Definition cycle_window (virtual_daa_score span : Z) : Z * Z :=
  let span := Z.max span 1 in
  let bucket := virtual_daa_score `div` span in
  let start := u64_saturating_mul bucket span in
  let end_ := u64_saturating_add start span in
  (start, end_).

(** ** plan.rs *)

(** [PayoutKasError] wraps a database error and nothing else. *)
Inductive PayoutKasError := PKDb (e : DbError).

Record PlanKasCycleParams := { pk_daa_start : Z; pk_daa_end : Z; pk_threshold_sompi : Z }.

Record PlanKasCycleResult := { pr_cycle : PayoutCycle; pr_payouts : list Payout }.

(** The loop over the eligible wallets. *)
Fixpoint plan_recipients (cycle_id now : Z) (eligible : list KasEligibleWallet)
    (total_sompi total_recipients : Z) (d : Db) : result DbError (Z * Z * Db) :=
  match eligible with
  | [] => Ok (total_sompi, total_recipients, d)
  | w :: eligible =>
      '(_, d) ← ensure_payout cycle_id (ke_wallet_id w) (ke_payable_sompi w) now d;
      plan_recipients cycle_id now eligible
        (i64_saturating_add total_sompi (ke_payable_sompi w))
        (i32_saturating_add total_recipients 1) d
  end.

(** The database transaction of [plan_kas_cycle]. *)
Definition plan_tx (params : PlanKasCycleParams) (now : Z) (d : Db) : result DbError (Z * Db) :=
  '(cycle, d) ← create_cycle Kas (pk_daa_start params) (pk_daa_end params) now d;
  eligible ← list_kas_eligible_wallets (pk_threshold_sompi params) d;
  '(total_sompi, total_recipients, d) ← plan_recipients (pc_id cycle) now eligible 0 0 d;
  d ← set_cycle_totals (pc_id cycle) total_sompi total_recipients d;
  Ok (pc_id cycle, d).

(** ** cycle.rs *)

Definition AUDIT_ACTOR : string := "payout-kas".

Record PayoutStatusCounts := {
  ct_total : Z; ct_pending : Z; ct_in_flight : Z; ct_confirmed : Z; ct_failed : Z }.

Definition from_payouts_step (c : PayoutStatusCounts) (p : Payout) : PayoutStatusCounts :=
  match po_status p with
  | Planned => {| ct_total := ct_total c; ct_pending := ct_pending c + 1; ct_in_flight := ct_in_flight c;
                  ct_confirmed := ct_confirmed c; ct_failed := ct_failed c |}
  | Submitted | Accepted =>
      {| ct_total := ct_total c; ct_pending := ct_pending c; ct_in_flight := ct_in_flight c + 1;
         ct_confirmed := ct_confirmed c; ct_failed := ct_failed c |}
  | Confirmed => {| ct_total := ct_total c; ct_pending := ct_pending c; ct_in_flight := ct_in_flight c;
                    ct_confirmed := ct_confirmed c + 1; ct_failed := ct_failed c |}
  | Failed => {| ct_total := ct_total c; ct_pending := ct_pending c; ct_in_flight := ct_in_flight c;
                 ct_confirmed := ct_confirmed c; ct_failed := ct_failed c + 1 |}
  end.

Definition from_payouts (l : list Payout) : PayoutStatusCounts :=
  foldl from_payouts_step
    {| ct_total := Z.of_nat (length l); ct_pending := 0; ct_in_flight := 0; ct_confirmed := 0; ct_failed := 0 |} l.

Definition derive_cycle_status (c : PayoutStatusCounts) : PayoutCycleStatus :=
  if ct_total c =? 0 then CPlanned
  else if ct_confirmed c =? ct_total c then CSettled
  else if ct_confirmed c + ct_failed c =? ct_total c then
    if 0 <? ct_confirmed c then CPartiallySettled else CFailed
  else if 0 <? ct_confirmed c then CPartiallySettled
  else if (0 <? ct_in_flight c) || (0 <? ct_failed c) then CBroadcasting
  else CPlanned.

Record CycleState := { cs_cycle : PayoutCycle; cs_payouts : list Payout }.

Definition pending (s : CycleState) : list Payout :=
  List.filter (λ p, bool_decide (po_status p = Planned)) (cs_payouts s).

Definition counts (s : CycleState) : PayoutStatusCounts := from_payouts (cs_payouts s).

Definition derived_status (s : CycleState) : PayoutCycleStatus := derive_cycle_status (counts s).

(** The database transaction of [reconcile_cycle_status]. *)
Definition reconcile_tx (cycle_id : Z) (derived : PayoutCycleStatus) (now : Z) (d : Db)
    : result DbError Db :=
  d ← match derived with
      | CPlanned => Ok d
      | CBroadcasting => mark_cycle_broadcasting cycle_id now d
      | CPartiallySettled =>
          d ← mark_cycle_broadcasting cycle_id now d; mark_cycle_partially_settled cycle_id d
      | CSettled => d ← mark_cycle_broadcasting cycle_id now d; mark_cycle_settled cycle_id now d
      | CFailed => mark_cycle_failed cycle_id d
      end;
  Ok (audit_append AUDIT_ACTOR "cycle.reconcile" (Some ("payout_cycle", cycle_id)) d).

Section services.
Context {Script : Type}.

Definition plan_kas_cycle (params : PlanKasCycleParams) : M Script PayoutKasError PlanKasCycleResult :=
  cycle_id ← map_err PKDb (transact (plan_tx params));
  payouts ← map_err PKDb (query (λ d, Ok (list_for_cycle cycle_id d)));
  cycle ← map_err PKDb (query (get_cycle cycle_id));
  mret {| pr_cycle := cycle; pr_payouts := payouts |}.

Definition resume_or_plan_kas_cycle (params : PlanKasCycleParams) : M Script PayoutKasError CycleState :=
  let key := idempotency_key Kas (pk_daa_start params) (pk_daa_end params) in
  found ← map_err PKDb (query (λ d, Ok (find_cycle_by_idempotency_key key d)));
  match found with
  | Some cycle =>
      payouts ← map_err PKDb (query (λ d, Ok (list_for_cycle (pc_id cycle) d)));
      _ ← map_err PKDb (statement (λ _ d,
            Ok (audit_append AUDIT_ACTOR "cycle.resume" (Some ("payout_cycle", pc_id cycle)) d)));
      mret {| cs_cycle := cycle; cs_payouts := payouts |}
  | None =>
      planned ← plan_kas_cycle params;
      _ ← map_err PKDb (statement (λ _ d,
            Ok (audit_append AUDIT_ACTOR "cycle.plan" (Some ("payout_cycle", pc_id (pr_cycle planned))) d)));
      mret {| cs_cycle := pr_cycle planned; cs_payouts := pr_payouts planned |}
  end.

Definition reconcile_cycle_status (cycle_id : Z) : M Script PayoutKasError PayoutCycleStatus :=
  payouts ← map_err PKDb (query (λ d, Ok (list_for_cycle cycle_id d)));
  let derived := derive_cycle_status (from_payouts payouts) in
  _ ← map_err PKDb (statement (reconcile_tx cycle_id derived));
  mret derived.
End services.

(** ** confirm.rs *)

Definition KAS_PAYOUT_CONFIRMATION_DAA : Z := 100.
Definition NON_COINBASE_MATURITY_DAA : Z := 10.
Definition COINBASE_MATURITY_DAA : Z := 1000.

Inductive ConfirmationState := ConfPending | ConfAccepted | ConfConfirmed | ConfUnknown.

Record ConfirmationInputs := {
  ci_virtual_daa_score : Z;
  ci_in_mempool : bool;
  ci_change_block_daa_score : option Z;
  ci_recorded_accept_daa : option Z;
}.

Definition classify_confirmation (i : ConfirmationInputs) : ConfirmationState :=
  let accept_daa := match ci_recorded_accept_daa i with
                    | Some daa => Some daa
                    | None => ci_change_block_daa_score i
                    end in
  match accept_daa with
  | Some daa =>
      if u64_saturating_add daa KAS_PAYOUT_CONFIRMATION_DAA <=? ci_virtual_daa_score i
      then ConfConfirmed else ConfAccepted
  | None => if ci_in_mempool i then ConfPending else ConfUnknown
  end.

Definition is_spendable (block_daa_score : Z) (is_coinbase : bool) (virtual_daa_score : Z) : bool :=
  let needed := if is_coinbase then COINBASE_MATURITY_DAA else NON_COINBASE_MATURITY_DAA in
  u64_saturating_add block_daa_score needed <=? virtual_daa_score.

(** ** Windows partition the DAA line *)

Lemma cycle_window_eq v span : 0 < span → 0 ≤ v → v + span ≤ u64_max →
  cycle_window v span = (span * (v `div` span), span * (v `div` span) + span).
Proof.
  intros Hs Hv Hm. pose proof (Z.mul_div_le v span Hs). unfold cycle_window.
  rewrite Z.max_l by lia. unfold u64_saturating_mul, u64_saturating_add.
  f_equal; nia.
Qed.

(** The payout windows partition the DAA line: the window of a score contains it, is [span] wide,
    is shared by exactly the scores it contains (so every tick inside it resumes one cycle), and
    the next window starts where it ends. *)
Theorem cycle_window_partition v span s e : 0 < span → 0 ≤ v → v + 2 * span ≤ u64_max →
  cycle_window v span = (s, e) →
  s ≤ v < e ∧ e - s = span ∧
  (∀ v', 0 ≤ v' → v' + span ≤ u64_max → cycle_window v' span = (s, e) ↔ s ≤ v' < e) ∧
  cycle_window e span = (e, e + span).
Proof.
  intros Hs Hv Hm. rewrite cycle_window_eq by lia. intros [= <- <-].
  pose proof (Z.mul_div_le v span Hs) as Hle. pose proof (Z.mul_succ_div_gt v span Hs) as Hgt.
  split_and!; [lia..|lia| |].
  - intros v' Hv' Hm'. rewrite cycle_window_eq by lia. split.
    + pose proof (Z.mul_div_le v' span Hs). pose proof (Z.mul_succ_div_gt v' span Hs).
      intros [= Heq _]. lia.
    + intros H. assert (v' `div` span = v `div` span) as ->; [|done].
      symmetry. apply Z.div_unique with (v' - span * (v `div` span)); lia.
  - rewrite cycle_window_eq by lia.
    assert ((span * (v `div` span) + span) `div` span = v `div` span + 1) as ->;
      [|f_equal; lia].
    symmetry. apply Z.div_unique with 0; lia.
Qed.

Lemma cycle_window_partition_witness :
  cycle_window 5999 1000 = (5000, 6000) ∧ cycle_window 6000 1000 = (6000, 7000).
Proof.
  split; [reflexivity|].
  refine (proj2 (proj2 (proj2 (cycle_window_partition 5999 1000 5000 6000 _ _ _ eq_refl)))); by_computation.
Defined.

(** ** Folding recipient statuses into the cycle status *)

(** Number of rows in a status. *)
Definition with_status (ss : list PayoutStatus) (l : list Payout) : Z :=
  Z.of_nat (length (List.filter (λ p, status_in (po_status p) ss) l)).

Lemma from_payouts_fold l c :
  foldl from_payouts_step c l =
  {| ct_total := ct_total c;
     ct_pending := ct_pending c + with_status [Planned] l;
     ct_in_flight := ct_in_flight c + with_status [Submitted; Accepted] l;
     ct_confirmed := ct_confirmed c + with_status [Confirmed] l;
     ct_failed := ct_failed c + with_status [Failed] l |}.
Proof.
  revert c. induction l as [|p l IH]; intros c; simpl.
  - unfold with_status. simpl. rewrite !Z.add_0_r. by destruct c.
  - rewrite IH. unfold from_payouts_step, with_status. simpl.
    destruct (po_status p); simpl; f_equal; lia.
Qed.

Lemma from_payouts_counts l :
  from_payouts l =
  {| ct_total := Z.of_nat (length l); ct_pending := with_status [Planned] l;
     ct_in_flight := with_status [Submitted; Accepted] l;
     ct_confirmed := with_status [Confirmed] l; ct_failed := with_status [Failed] l |}.
Proof. unfold from_payouts. by rewrite from_payouts_fold. Qed.

Lemma with_status_total l :
  with_status [Planned] l + with_status [Submitted; Accepted] l + with_status [Confirmed] l
  + with_status [Failed] l = Z.of_nat (length l).
Proof.
  unfold with_status. induction l as [|p l IH]; [done|]. simpl. destruct (po_status p); simpl; lia.
Qed.

Lemma with_status_nonneg ss l : 0 ≤ with_status ss l.
Proof. unfold with_status. lia. Qed.

(** A count vanishes when no row has the status, is positive when one has it. *)
Lemma with_status_pos ss l : 0 < with_status ss l ↔ ∃ p, p ∈ l ∧ po_status p ∈ ss.
Proof.
  unfold with_status. split.
  - destruct (List.filter _ l) as [|p r] eqn:E; simpl; [lia|]. intros _.
    assert (p ∈ p :: r) as Hp by set_solver. rewrite <- E in Hp. apply elem_of_retain in Hp as [Hp Hs].
    exists p. by rewrite status_in_elem in Hs.
  - intros (p & Hp & Hs). assert (p ∈ List.filter (λ p, status_in (po_status p) ss) l) as Hin.
    { apply elem_of_retain. by rewrite status_in_elem. }
    destruct (List.filter _ l); [by apply not_elem_of_nil in Hin|]. simpl. lia.
Qed.

Lemma with_status_zero ss l : with_status ss l = 0 ↔ ∀ p, p ∈ l → po_status p ∉ ss.
Proof.
  pose proof (with_status_pos ss l) as H. pose proof (with_status_nonneg ss l). split.
  - intros Hz p Hp Hs. assert (0 < with_status ss l) by (apply H; eauto). lia.
  - intros Hn. destruct (decide (0 < with_status ss l)) as [(p & Hp & Hs)%H|]; [|lia].
    by destruct (Hn p Hp).
Qed.

Definition all_in (ss : list PayoutStatus) (l : list Payout) : Prop := ∀ p, p ∈ l → po_status p ∈ ss.
Definition some_in (ss : list PayoutStatus) (l : list Payout) : Prop := ∃ p, p ∈ l ∧ po_status p ∈ ss.

Lemma with_status_all ss l : with_status ss l = Z.of_nat (length l) ↔ all_in ss l.
Proof.
  unfold with_status, all_in. induction l as [|p l IH]; simpl.
  - split; [by intros _ ? ?%not_elem_of_nil|done].
  - assert (length (List.filter (λ p, status_in (po_status p) ss) l) ≤ length l)%nat
      by (apply sublist_length, retain_sublist).
    destruct (status_in (po_status p) ss) eqn:E; simpl.
    + apply status_in_elem in E. split; intros H1.
      * intros q [->|Hq]%elem_of_cons; [done|]. apply IH; [lia|done].
      * assert (∀ p, p ∈ l → po_status p ∈ ss) by set_solver. apply IH in H0. lia.
    + apply status_in_false in E. split; [lia|]. intros H1. destruct E. apply H1. set_solver.
Qed.

Lemma length_zero_nil {A} (l : list A) : Z.of_nat (length l) = 0 ↔ l = [].
Proof. destruct l; simpl; [done|]. split; [lia|done]. Qed.

(** The cycle status is a faithful summary of its recipients: [Planned] means nothing was
    started, [Settled] that everyone is confirmed, [Failed] that everyone failed,
    [PartiallySettled] that someone but not everyone is confirmed, and [Broadcasting] is every
    other mixture. *)
Theorem derive_cycle_status_spec l :
  let s := derive_cycle_status (from_payouts l) in
  (s = CPlanned ↔ all_in [Planned] l) ∧
  (s = CSettled ↔ l ≠ [] ∧ all_in [Confirmed] l) ∧
  (s = CFailed ↔ l ≠ [] ∧ all_in [Failed] l) ∧
  (s = CPartiallySettled ↔ some_in [Confirmed] l ∧ ¬ all_in [Confirmed] l) ∧
  (s = CBroadcasting ↔ ¬ some_in [Confirmed] l ∧ ¬ all_in [Planned] l ∧ ¬ all_in [Failed] l).
Proof.
  unfold some_in. rewrite <- !with_status_all, <- !with_status_pos, <- !length_zero_nil.
  rewrite from_payouts_counts. unfold derive_cycle_status. simpl.
  pose proof (with_status_total l). pose proof (with_status_nonneg [Planned] l).
  pose proof (with_status_nonneg [Submitted; Accepted] l).
  pose proof (with_status_nonneg [Confirmed] l). pose proof (with_status_nonneg [Failed] l).
  repeat case_bool; bool_hyps; try apply orb_true_iff in E3; split_and!; split; intros; try done; lia.
Qed.

(** ** Planning a fresh cycle *)

Lemma collect_ext {A B} (f g : A → result DbError (option B)) l :
  (∀ x, f x = g x) → collect f l = collect g l.
Proof. intros Hfg. induction l as [|x l IH]; simpl; [done|]. by rewrite Hfg, IH. Qed.

Lemma collect_sublist {A B} (f : A → result DbError (option B)) (ka : A → Z) (kb : B → Z) l rows :
  (∀ x b, f x = Ok (Some b) → kb b = ka x) →
  collect f l = Ok rows → sublist (map kb rows) (map ka l).
Proof.
  intros Hk. revert rows. induction l as [|x l IH]; intros rows H; simpl in H.
  - by injection H as <-.
  - apply result_bind_Ok in H as (r & Hr & H). apply result_bind_Ok in H as (rest & Hrest & [= <-]).
    specialize (IH _ Hrest). destruct r as [b|]; simpl; [|by constructor].
    rewrite (Hk _ _ Hr). by constructor.
Qed.

Lemma collect_elem {A B} (f : A → result DbError (option B)) l rows b :
  collect f l = Ok rows → b ∈ rows → ∃ x, x ∈ l ∧ f x = Ok (Some b).
Proof.
  revert rows. induction l as [|x l IH]; intros rows H; simpl in H.
  - injection H as <-. by intros ?%not_elem_of_nil.
  - apply result_bind_Ok in H as (r & Hr & H). apply result_bind_Ok in H as (rest & Hrest & [= <-]).
    intros Hb. assert (r = Some b ∨ b ∈ rest) as [->|Hin] by (destruct r; set_solver).
    + exists x. split; [set_solver|done].
    + destruct (IH _ Hrest Hin) as (y & ? & ?). exists y. split; [set_solver|done].
Qed.

(** What the eligibility query returns: distinct known wallets at or above the threshold. *)
Lemma eligible_spec thr d el : NoDup (map w_id (wallets d)) → list_kas_eligible_wallets thr d = Ok el →
  NoDup (map ke_wallet_id el) ∧
  ∀ w, w ∈ el → thr ≤ ke_payable_sompi w ∧ ke_wallet_id w ∈ map w_id (wallets d) ∧
    ke_payable_sompi w = allocated (ke_wallet_id w) d - confirmed_paid (ke_wallet_id w) d.
Proof.
  intros Hnd H. apply result_bind_Ok in H as (rows & Hrows & [= <-]).
  assert (Hrow : ∀ w b, kas_row d w = Ok (Some b) → ke_wallet_id b = w_id w ∧
    ke_payable_sompi b = allocated (w_id w) d - confirmed_paid (w_id w) d).
  { intros w b. unfold kas_row, to_bigint. destruct (allocations_of _ _); [done|]. intros H.
    repeat (case_match; simpl in H; try done). injection H as <-.
    repeat match goal with E : i64_try_from _ = Some _ |- _ => apply i64_try_from_Some in E as [-> _] end.
    done. }
  split.
  - rewrite stable_sort_perm. eapply sublist_NoDup; [exact Hnd|].
    etrans; [apply sublist_map, retain_sublist|]. eapply collect_sublist; [|done]. naive_solver.
  - intros w. rewrite stable_sort_perm. intros [Hw Ht]%elem_of_retain.
    destruct (collect_elem _ _ _ _ Hrows Hw) as (x & Hx & [Hi Hp]%Hrow). rewrite Hi. split_and!; [lia| |done].
    by apply list_elem_of_fmap_2.
Qed.

(** Opening a cycle changes nobody's eligibility. *)
Lemma eligible_new_cycle thr c d : db_ok d →
  list_kas_eligible_wallets thr (set_cycles (cycles d ++ [c]) d) = list_kas_eligible_wallets thr d.
Proof.
  intros Hok. unfold list_kas_eligible_wallets. simpl.
  assert (Hpaid : ∀ w, confirmed_paid w (set_cycles (cycles d ++ [c]) d) = confirmed_paid w d).
  { intros w. unfold confirmed_paid. simpl. f_equal. f_equal. apply filter_ext_in.
    intros p Hp%list_elem_of_In. unfold counts_as_paid, cycle_of. simpl.
    rewrite find_app. destruct (List.find _ (cycles d)) eqn:E; [done|]. exfalso.
    pose proof (proj1 (Forall_forall _ _) (ok_payout_cycles d Hok) p Hp) as Hc.
    apply list_elem_of_fmap in Hc as (c' & Hid & Hc'). eapply find_None in E; [|exact Hc'].
    simpl in E. lia. }
  rewrite (collect_ext _ (kas_row d)); [done|]. intros w. unfold kas_row. by rewrite Hpaid.
Qed.

Definition recipient_amount (p : Payout) : Z * Z := (po_wallet_id p, po_amount_sompi p).

Lemma plan_recipients_fresh cid now el d ts tr :
  NoDup (map ke_wallet_id el) →
  (∀ w, w ∈ el → 0 < ke_payable_sompi w ∧ ke_wallet_id w ∈ map w_id (wallets d)) →
  (∀ p w, p ∈ payouts d → w ∈ el → po_cycle_id p = cid → po_wallet_id p ≠ ke_wallet_id w) →
  cid ∈ map pc_id (cycles d) →
  ∃ new, plan_recipients cid now el ts tr d =
      Ok (foldl i64_saturating_add ts (map ke_payable_sompi el),
          foldl i32_saturating_add tr (map (λ _, 1) el), set_payouts (payouts d ++ new) d) ∧
    map recipient_amount new = map (λ w, (ke_wallet_id w, ke_payable_sompi w)) el ∧
    Forall (λ p, po_cycle_id p = cid ∧ po_status p = Planned ∧ po_tx_hash p = None) new.
Proof.
  revert d ts tr. induction el as [|w el IH]; intros d ts tr Hnd Hel Hfresh Hcid; simpl.
  - exists []. rewrite app_nil_r. by destruct d.
  - apply NoDup_cons in Hnd as [Hw Hnd]. destruct (Hel w) as [Hpos Hwid]; [set_solver|].
    set (row := new_payout (next_id po_id (payouts d)) cid (ke_wallet_id w) (ke_payable_sompi w) now).
    assert (ensure_payout cid (ke_wallet_id w) (ke_payable_sompi w) now d
            = Ok (row, set_payouts (payouts d ++ [row]) d)) as ->.
    { unfold ensure_payout. fold row.
      assert (payout_check row = true) as ->.
      { unfold payout_check. simpl. by rewrite (proj2 (Z.ltb_lt _ _)). }
      destruct (List.find _ (payouts d)) as [p|] eqn:F.
      - apply find_Some in F as [Hp [? ?]%andb_true_iff]. destruct (Hfresh p w); set_solver by lia.
      - assert (payout_fk row d = true) as ->; [|done]. unfold payout_fk. simpl.
        apply list_elem_of_fmap in Hcid as (c & Hc & Hin). apply list_elem_of_fmap in Hwid as (x & Hx & Hxin).
        apply andb_true_iff; split; apply existsb_exists;
          [exists c|exists x]; (split; [by apply list_elem_of_In|lia]). }
    simpl. destruct (IH (set_payouts (payouts d ++ [row]) d)
      (i64_saturating_add ts (ke_payable_sompi w)) (i32_saturating_add tr 1)) as (new & Heq & Hmap & Hall).
    + done.
    + intros v Hv. apply Hel. set_solver.
    + simpl. intros p v [Hp|Hp]%elem_of_app Hv Hc; [apply Hfresh; set_solver|].
      apply list_elem_of_singleton in Hp as ->. simpl. intros Heq. apply Hw. rewrite Heq.
      by apply list_elem_of_fmap_2.
    + done.
    + exists (row :: new). rewrite Heq. simpl. rewrite <- app_assoc. split_and!; [done| |by constructor].
      simpl. by rewrite Hmap.
Qed.

(** An update that matches the last row only. *)
Lemma update_checked_last {A} (ok p : A → bool) f (l : list A) x :
  (∀ y, y ∈ l → p y = false) → p x = true → ok (f x) = true →
  update_checked ok p f (l ++ [x]) = Ok (l ++ [f x]).
Proof.
  intros Hl Hx Hok. unfold update_checked, update_where. rewrite forallb_app, map_app. simpl.
  rewrite Hx, Hok, (proj2 (forallb_forall _ _)).
  - simpl. do 2 f_equal. rewrite <- (map_id l) at 2. apply map_ext_in.
    intros y Hy%list_elem_of_In. by rewrite Hl.
  - intros y Hy%list_elem_of_In. by rewrite Hl.
Qed.

(** Planning a window that has no cycle yet opens one [planned] cycle whose recipients are exactly
    the eligible wallets, each for its whole payable balance, all [planned] and none signed; the
    stored totals are their saturated sum and count, and no earlier payout row is touched. *)
Theorem plan_tx_fresh params now d el :
  db_ok d → 0 ≤ pk_daa_start params < pk_daa_end params → pk_daa_end params ≤ i64_max →
  1 ≤ pk_threshold_sompi params →
  find_cycle_by_idempotency_key (idempotency_key Kas (pk_daa_start params) (pk_daa_end params)) d = None →
  list_kas_eligible_wallets (pk_threshold_sompi params) d = Ok el →
  ∃ cid d' c new, plan_tx params now d = Ok (cid, d') ∧
    payouts d' = payouts d ++ new ∧
    map recipient_amount new = map (λ w, (ke_wallet_id w, ke_payable_sompi w)) el ∧
    Forall (λ p, po_cycle_id p = cid ∧ po_status p = Planned ∧ po_tx_hash p = None) new ∧
    cycles d' = cycles d ++ [c] ∧ pc_id c = cid ∧ pc_status c = CPlanned ∧
    pc_idempotency_key c = idempotency_key Kas (pk_daa_start params) (pk_daa_end params) ∧
    pc_total_sompi c = Z.min (sumZ (map ke_payable_sompi el)) i64_max ∧
    pc_total_recipients c = Z.min (Z.of_nat (length el)) i32_max.
Proof.
  intros Hok Hs He Ht Hf Hel. pose proof (eligible_spec _ _ _ (ok_wallet_ids _ Hok) Hel) as [Hnd Hall].
  set (c0 := new_cycle (next_id pc_id (cycles d)) Kas (pk_daa_start params) (pk_daa_end params) now).
  assert (Hck : cycle_check c0 = true).
  { unfold cycle_check; simpl. rewrite !u64_as_i64_small by lia.
    rewrite (proj2 (Z.leb_le _ _)), (proj2 (Z.ltb_lt _ _)) by lia. done. }
  destruct (plan_recipients_fresh (pc_id c0) now el (set_cycles (cycles d ++ [c0]) d) 0 0)
    as (new & Hplan & Hmap & Hnew); simpl; [done| | | |].
  - intros w Hw. destruct (Hall w Hw) as (? & ? & _). split; [lia|done].
  - intros p w Hp _ Hc. pose proof (proj1 (Forall_forall _ _) (ok_payout_cycles _ Hok) p Hp) as Hin.
    simpl in Hin.
    rewrite Hc in Hin. apply list_elem_of_fmap in Hin as (c & Hc' & Hin).
    apply (next_id_ne pc_id) in Hin. congruence.
  - rewrite map_app. set_solver.
  - set (tot := foldl i64_saturating_add 0 (map ke_payable_sompi el)) in *.
    set (cnt := foldl i32_saturating_add 0 (map (λ _ : KasEligibleWallet, 1) el)) in *.
    assert (Htot : tot = Z.min (sumZ (map ke_payable_sompi el)) i64_max).
    { unfold tot. rewrite i64_saturating_fold; [done| |mlia]. apply Forall_forall.
      intros x (w & -> & Hw)%list_elem_of_fmap. destruct (Hall w Hw). lia. }
    assert (Hcnt : cnt = Z.min (Z.of_nat (length el)) i32_max).
    { unfold cnt. rewrite i32_saturating_count; [done|mlia]. }
    set (c1 := pc_with CPlanned None None tot cnt c0).
    assert (Hpos : 0 ≤ tot ∧ 0 ≤ cnt).
    { rewrite Htot, Hcnt. split; [|mlia]. apply Z.min_glb; [|mlia]. apply sumZ_nonneg, Forall_forall.
      intros x (w & -> & Hw)%list_elem_of_fmap. destruct (Hall w Hw). lia. }
    exists (pc_id c0), (set_cycles (cycles d ++ [c1]) (set_payouts (payouts d ++ new) d)), c1, new.
    split_and!; try done. unfold plan_tx, create_cycle. fold c0. rewrite Hck.
    unfold find_cycle_by_idempotency_key in Hf. rewrite Hf. cbn [mbind result_bind].
    rewrite eligible_new_cycle by done. rewrite Hel. cbn [mbind result_bind]. rewrite Hplan.
    cbn [mbind result_bind]. unfold set_cycle_totals, update_cycles. simpl.
    rewrite update_checked_last; [done| | |].
    + intros x Hx. apply Z.eqb_neq. by apply (next_id_ne pc_id).
    + apply Z.eqb_refl.
    + unfold cycle_check in *. simpl in *. bool_hyps.
      repeat (apply andb_true_iff; split); try done; lia.
Qed.

(** ** Reconciliation *)

(** The status a cycle row ends in: terminal rows stay, a row that has progressed never falls
    back, and otherwise the row takes the derived status. *)
Definition reconciled (s derived : PayoutCycleStatus) : PayoutCycleStatus :=
  match s, derived with
  | (CSettled | CFailed), _ => s
  | _, CPlanned => s
  | CPartiallySettled, CBroadcasting => s
  | _, _ => derived
  end.

Lemma update_cycles_elem p f d d' c : update_cycles p f d = Ok d' → c ∈ cycles d →
  (if p c then f c else c) ∈ cycles d'.
Proof.
  intros (l & [-> _]%update_checked_Ok & [= <-])%result_bind_Ok Hc. simpl.
  apply elem_of_update_where. eauto.
Qed.

Lemma update_cycles_payouts p f d d' : update_cycles p f d = Ok d' → payouts d' = payouts d.
Proof. by intros (l & _ & [= <-])%result_bind_Ok. Qed.

Lemma reconcile_tx_steps cid s now d d' : reconcile_tx cid s now d = Ok d' → rtc repo_step d d'.
Proof.
  intros (d1 & H & [= <-])%result_bind_Ok. eapply rtc_r; [|apply step_audit].
  destruct s; [| |apply result_bind_Ok in H as (d2 & H2 & H)..|].
  - by injection H as ->.
  - by eapply rtc_once, step_cycle_broadcasting.
  - eapply rtc_l; [by eapply step_cycle_broadcasting|]. by eapply rtc_once, step_cycle_partially.
  - eapply rtc_l; [by eapply step_cycle_broadcasting|]. by eapply rtc_once, step_cycle_settled.
  - by eapply rtc_once, step_cycle_failed.
Qed.

Ltac reconciled_case c Hid :=
  let Es := fresh "Es" in
  rewrite Hid, Z.eqb_refl; destruct (pc_status c) eqn:Es; simpl;
  rewrite ?Es, ?Hid, ?Z.eqb_refl; simpl; rewrite ?Es; done.

(** Reconciliation writes the derived status into the cycle row without ever leaving a terminal
    status or falling back, and touches no payout row. *)
Theorem reconcile_tx_status cid derived now d d' c :
  reconcile_tx cid derived now d = Ok d' → c ∈ cycles d → pc_id c = cid →
  payouts d' = payouts d ∧
  ∃ c', c' ∈ cycles d' ∧ pc_id c' = cid ∧ pc_status c' = reconciled (pc_status c) derived.
Proof.
  intros (d1 & H & [= <-])%result_bind_Ok Hc Hid.
  destruct derived; [| |apply result_bind_Ok in H as (d2 & H2 & H)..|].
  - injection H as <-. split; [done|]. exists c. split_and!; [done..|]. by destruct (pc_status c).
  - split; [exact (update_cycles_payouts _ _ _ _ H)|]. eexists. split; [exact (update_cycles_elem _ _ _ _ _ H Hc)|].
    reconciled_case c Hid.
  - split; [transitivity (payouts d2); [exact (update_cycles_payouts _ _ _ _ H)|exact (update_cycles_payouts _ _ _ _ H2)]|]. eexists.
    split; [exact (update_cycles_elem _ _ _ _ _ H (update_cycles_elem _ _ _ _ _ H2 Hc))|].
    reconciled_case c Hid.
  - split; [transitivity (payouts d2); [exact (update_cycles_payouts _ _ _ _ H)|exact (update_cycles_payouts _ _ _ _ H2)]|]. eexists.
    split; [exact (update_cycles_elem _ _ _ _ _ H (update_cycles_elem _ _ _ _ _ H2 Hc))|].
    reconciled_case c Hid.
  - split; [exact (update_cycles_payouts _ _ _ _ H)|]. eexists. split; [exact (update_cycles_elem _ _ _ _ _ H Hc)|].
    reconciled_case c Hid.
Qed.

(** ** Planning is a sequence of repository mutations *)

Lemma plan_recipients_steps cid now el ts tr d r : plan_recipients cid now el ts tr d = Ok r →
  rtc repo_step d r.2.
Proof.
  revert ts tr d. induction el as [|w el IH]; intros ts tr d H; simpl in H.
  - by injection H as <-.
  - apply result_bind_Ok in H as ([p d1] & H1 & H).
    eapply rtc_l; [by eapply step_ensure_payout|]. by eapply IH.
Qed.

Lemma plan_tx_steps params now d r : plan_tx params now d = Ok r → rtc repo_step d r.2.
Proof.
  intros ([c d1] & H1 & H)%result_bind_Ok. apply result_bind_Ok in H as (el & _ & H).
  apply result_bind_Ok in H as ([[ts tr] d2] & H2 & H). apply result_bind_Ok in H as (d3 & H3 & [= <-]).
  eapply rtc_l; [by eapply step_create_cycle|]. etrans; [by eapply plan_recipients_steps in H2|].
  by eapply rtc_once, step_cycle_totals.
Qed.

(** ** A concrete ledger *)

Module Sample.
Definition alloc (w net : Z) : ShareAllocation :=
  {| sa_id := w; sa_computed_at := 0; sa_coinbase_reward_id := 1; sa_wallet_id := w; sa_weight := f64_of_Z 1; sa_window_total := f64_of_Z 2;
     sa_gross_share_sompi := net; sa_pool_fee_sompi := 0; sa_nacho_accrual_sompi := 0;
     sa_net_payout_sompi := net; sa_applied_topline_bps := 0; sa_applied_rebate_bps := 0;
     sa_applied_tier := Standard |}.

Definition ledger : Db :=
  set_share_allocations [alloc 1 5000000000; alloc 2 3000000000; alloc 3 7]
    {| wallets := [{| w_id := 1; w_address := "alice"; w_network := "mainnet" |};
                   {| w_id := 2; w_address := "bob"; w_network := "mainnet" |};
                   {| w_id := 3; w_address := "carol"; w_network := "mainnet" |}];
       shares := []; share_windows := []; coinbase_rewards := []; share_allocations := [];
       nacho_rebates := []; cycles := []; payouts := []; transfers := []; blocks := []; audit_log := []; treasury_snapshots := []; scan_plan := λ _ _, table_order |}.

Definition params : PlanKasCycleParams :=
  {| pk_daa_start := 5000; pk_daa_end := 6000; pk_threshold_sompi := DEFAULT_KAS_PAYOUT_THRESHOLD_SOMPI |}.

Definition ok_or {A} (x : A) (r : result DbError A) : A := match r with Ok a => a | Err _ => x end.

Definition planned : Db := (ok_or (0, ledger) (plan_tx params 10 ledger)).2.
Definition submitted : Db := ok_or planned (mark_payout_submitted 1 77 20 planned).
Definition accepted : Db := ok_or planned (mark_payout_accepted 1 5100 submitted).
Definition confirmed : Db := ok_or planned (mark_payout_confirmed 1 30 accepted).
Definition reconciled : Db := ok_or planned (reconcile_tx 1 CPartiallySettled 40 confirmed).
Definition cycle : PayoutCycle := pc_with CPlanned None None 8000000000 2 (new_cycle 1 Kas 5000 6000 10).
Definition eligible : list KasEligibleWallet :=
  ok_or [] (list_kas_eligible_wallets DEFAULT_KAS_PAYOUT_THRESHOLD_SOMPI ledger).
End Sample.

Lemma sample_ledger_ok : db_ok Sample.ledger.
Proof. split; by_computation. Qed.

Lemma sample_planned_steps : rtc repo_step Sample.ledger Sample.planned.
Proof. apply (plan_tx_steps Sample.params 10 _ (1, Sample.planned)). vm_compute. reflexivity. Qed.

Lemma sample_last_steps : rtc repo_step Sample.confirmed Sample.reconciled.
Proof. apply (reconcile_tx_steps 1 CPartiallySettled 40). vm_compute. reflexivity. Qed.

Lemma plan_tx_fresh_witness :
  ∃ d' c new, plan_tx Sample.params 10 Sample.ledger = Ok (1, d') ∧
    payouts d' = new ∧ map recipient_amount new = [(1, 5000000000); (2, 3000000000)] ∧
    cycles d' = [c] ∧ pc_total_sompi c = 8000000000.
Proof.
  destruct (plan_tx_fresh Sample.params 10 Sample.ledger Sample.eligible)
    as (cid & d' & c & new & H & Hp & Hm & _ & Hc & Hid & _ & _ & Ht & _);
    [exact sample_ledger_ok|by_computation..|vm_compute; reflexivity|vm_compute; reflexivity|].
  assert (cid = 1) as -> by (vm_compute in H; congruence).
  exists d', c, new. split_and!; [exact H|exact Hp|exact Hm|exact Hc|exact Ht].
Defined.

Lemma reconcile_tx_status_witness :
  ∃ c', c' ∈ cycles Sample.reconciled ∧ pc_id c' = 1 ∧ pc_status c' = CPartiallySettled.
Proof.
  apply (reconcile_tx_status 1 CPartiallySettled 40 Sample.confirmed Sample.reconciled Sample.cycle).
  - vm_compute. reflexivity.
  - vm_compute. by apply list_elem_of_In; left.
  - reflexivity.
Defined.

Lemma repository_refines_lifecycle_witness : db_ok Sample.planned ∧ evolves Sample.ledger Sample.planned.
Proof. apply (repository_refines_lifecycle _ _ sample_ledger_ok sample_planned_steps). Defined.

Lemma terminal_rows_final_witness :
  ∃ q, q ∈ payouts Sample.reconciled ∧ po_status q = Confirmed ∧ po_amount_sompi q = 5000000000.
Proof.
  destruct (proj1 (terminal_rows_final Sample.confirmed Sample.reconciled
    sample_last_steps)
    (po_with Confirmed (Some 77) None None (Some 20) (Some 30) (Some 5100) None (new_payout 1 1 1 5000000000 10)))
    as (q & Hq & Hs & _ & _ & Ha & _).
  - vm_compute. by apply list_elem_of_In; left.
  - reflexivity.
  - exists q. split_and!; [exact Hq|exact Hs|exact Ha].
Defined.

Lemma idempotency_key_injective_witness :
  idempotency_key Kas 5000 6000 = "kas-5000-6000" ∧ (Kas = Kas ∧ 5000 = 5000 ∧ 6000 = 6000).
Proof.
  split; [vm_compute; reflexivity|].
  apply (idempotency_key_injective Kas 5000 6000 Kas 5000 6000); by_computation.
Defined.
