(* ===== verification/KasExecute.v ===== *)
(** * Executing a KAS cycle: signing, broadcasting, confirming, the engine

    payout-kas/src/signer.rs, execute.rs and engine.rs.  Signing, script
    execution and transaction hashing belong to the consensus crates and
    secp256k1, which are not in the repository: they are the operations of
    the class [Signer]. *)

From S2P Require Import Prelude Float64 Mass Fee Planner PlannerProps Db PayoutRepo PayoutSpec Effects KasCycle.
Local Open Scope Z_scope.

(** What the code uses of kaspa-consensus-core, kaspa-txscript,
    kaspa-addresses and secp256k1. *)
Class Signer (Script : Type) := {
  TX_VERSION : Z;
  SUBNETWORK_ID_NATIVE : list Z;
  (** [Address::try_from] followed by [pay_to_address_script]. *)
  script_of_address : string → option Script;
  (** [Keypair::from_seckey_slice] accepts the treasury secret. *)
  treasury_key_valid : bool;
  (** [sign(signable, keypair)]. *)
  sign_inputs : Transaction Script → list (UtxoEntry Script) → Transaction Script;
  (** The txscript engine accepts input [i]. *)
  execute_input : Transaction Script → list (UtxoEntry Script) → nat → bool;
  (** [tx.id()]. *)
  tx_id : Transaction Script → Hash;
}.

(** Documented behaviour of [sign]: it fills in signature scripts and leaves
    what is spent and what is paid alone. *)
Class SignerOk (Script : Type) `{!Signer Script} := {
  sign_outputs tx es : outputs (sign_inputs tx es) = outputs tx;
  sign_outpoints tx es : map previous_outpoint (inputs (sign_inputs tx es)) = map previous_outpoint (inputs tx);
}.

(** ** signer.rs *)

Inductive SignError := VirtualInput | EmptyInputs | Key | Verify (input : nat).

Record SignedBatch (Script : Type) := {
  sb_tx : Transaction Script;
  sb_entries : list (UtxoEntry Script);
}.
Arguments sb_tx {Script} _.
Arguments sb_entries {Script} _.

Section signer.
Context {Script : Type} `{!MassCalculator Script} `{!Signer Script}.

Definition txid (s : SignedBatch Script) : Hash := tx_id (sb_tx s).

Definition build_unsigned (batch : PlannedBatch Script) (treasury_script : Script)
    : result SignError (Transaction Script * list (UtxoEntry Script)) :=
  match batch_inputs batch with
  | [] => Err EmptyInputs
  | _ =>
      if existsb is_planning_virtual (batch_inputs batch) then Err VirtualInput
      else
        let ins := map (λ u, {| previous_outpoint := outpoint u; signature_script := [];
                                sequence := 0; sig_op_count := 1 |}) (batch_inputs batch) in
        let outs := map (λ p, {| value := amount_sompi p; out_script := recipient_script p |})
                      (batch_payouts batch) in
        let outs := if 0 <? change_amount_sompi batch
                    then outs ++ [{| value := change_amount_sompi batch; out_script := treasury_script |}]
                    else outs in
        Ok ({| version := TX_VERSION; inputs := ins; outputs := outs; lock_time := 0;
               subnetwork_id := SUBNETWORK_ID_NATIVE; gas := 0; payload := [] |},
            map entry (batch_inputs batch))
  end.

Definition batch_txid (batch : PlannedBatch Script) (treasury_script : Script) : result SignError Hash :=
  '(tx, _) ← build_unsigned batch treasury_script; Ok (tx_id tx).

Definition verify_signed (s : SignedBatch Script) : result SignError unit :=
  match List.find (λ i, negb (execute_input (sb_tx s) (sb_entries s) i))
          (seq 0 (length (inputs (sb_tx s)))) with
  | Some i => Err (Verify i)
  | None => Ok tt
  end.

Definition sign_batch (batch : PlannedBatch Script) (treasury_script : Script)
    : result SignError (SignedBatch Script) :=
  '(unsigned, entries) ← build_unsigned batch treasury_script;
  if treasury_key_valid then
    let signed := {| sb_tx := sign_inputs unsigned entries; sb_entries := entries |} in
    _ ← verify_signed signed;
    Ok signed
  else Err Key.
End signer.

(** ** execute.rs *)

Inductive ExecuteError :=
| XDb (e : DbError)
| XKaspad (e : KaspadError)
| XSign (e : SignError)
| XMass (e : MassEvaluationError)
| XRecipientAddress (wallet_id : Z)
| XAmount (payout_id amount : Z)
| XUnknownRecipient (id : Z).

Inductive ExecutionMode := Live | DryRun.

Definition is_dry_run (m : ExecutionMode) : bool := match m with DryRun => true | Live => false end.

Record ExecutionReport := {
  er_planned_batches : nat; er_spendable_utxos : nat; er_submitted_txids : list Hash;
  er_submitted_payouts : nat; er_deferred_below_floor : nat; er_unpaid : nat; er_submit_errors : list Hash;
}.

Definition ExecutionReport_default : ExecutionReport :=
  {| er_planned_batches := 0; er_spendable_utxos := 0; er_submitted_txids := [];
     er_submitted_payouts := 0; er_deferred_below_floor := 0; er_unpaid := 0; er_submit_errors := [] |}.

Definition report_txid (t : Hash) (r : ExecutionReport) : ExecutionReport :=
  {| er_planned_batches := er_planned_batches r; er_spendable_utxos := er_spendable_utxos r;
     er_submitted_txids := er_submitted_txids r ++ [t]; er_submitted_payouts := er_submitted_payouts r;
     er_deferred_below_floor := er_deferred_below_floor r; er_unpaid := er_unpaid r;
     er_submit_errors := er_submit_errors r |}.
Definition report_payouts (n : nat) (r : ExecutionReport) : ExecutionReport :=
  {| er_planned_batches := er_planned_batches r; er_spendable_utxos := er_spendable_utxos r;
     er_submitted_txids := er_submitted_txids r; er_submitted_payouts := er_submitted_payouts r + n;
     er_deferred_below_floor := er_deferred_below_floor r; er_unpaid := er_unpaid r;
     er_submit_errors := er_submit_errors r |}.
Definition report_error (t : Hash) (r : ExecutionReport) : ExecutionReport :=
  {| er_planned_batches := er_planned_batches r; er_spendable_utxos := er_spendable_utxos r;
     er_submitted_txids := er_submitted_txids r; er_submitted_payouts := er_submitted_payouts r;
     er_deferred_below_floor := er_deferred_below_floor r; er_unpaid := er_unpaid r;
     er_submit_errors := er_submit_errors r ++ [t] |}.

Record ConfirmReport := { cf_accepted : nat; cf_confirmed : nat; cf_pending : nat; cf_unknown : nat }.
Definition ConfirmReport_default : ConfirmReport :=
  {| cf_accepted := 0; cf_confirmed := 0; cf_pending := 0; cf_unknown := 0 |}.

(** Marking a whole batch [submitted] in one transaction. *)
Fixpoint record_intent (ids : list Z) (tx_hash : Hash) (now : Z) (d : Db) : result DbError Db :=
  match ids with
  | [] => Ok d
  | i :: ids => d ← mark_payout_submitted i tx_hash now d; record_intent ids tx_hash now d
  end.

Section execute.
Context {Script : Type} `{!MassCalculator Script} `{!Signer Script}.

Definition sign_batch_with_exact_fee (batch : PlannedBatch Script) (treasury_script : Script)
    (fee_rate : FeeRate) : exec (result ExecuteError (SignedBatch Script)) :=
  match sign_batch batch treasury_script with
  | Err e => Ret (Err (XSign e))
  | Ok provisional =>
      if negb (reserves_fee fee_rate) then Ret (Ok provisional)
      else
        match evaluate_populated (sb_tx provisional) (sb_entries provisional) with
        | Err e => Ret (Err (XMass e))
        | Ok mass =>
            let fee := fee_for fee_rate mass in
            input_sum ← sum_u64 (map coin (batch_inputs batch));
            payout_sum ← sum_u64 (map amount_sompi (batch_payouts batch));
            match u64_checked_sub input_sum payout_sum ≫= (λ rem, u64_checked_sub rem fee) with
            | None => Ret (Ok provisional)
            | Some change =>
                let change := if negb (change =? 0) && is_change_dust change treasury_script
                              then 0 else change in
                if change =? change_amount_sompi batch then Ret (Ok provisional)
                else
                  let adjusted := {| batch_inputs := batch_inputs batch;
                                     batch_payouts := batch_payouts batch;
                                     change_amount_sompi := change;
                                     batch_mass := batch_mass batch |} in
                  match sign_batch adjusted treasury_script with
                  | Ok s => Ret (Ok s)
                  | Err e => Ret (Err (XSign e))
                  end
            end
        end
  end.

(** The recipient of one pending row. *)
Definition load_recipient (p : Payout) : M Script ExecuteError (PayoutRecipient Script) :=
  match u64_try_from (po_amount_sompi p) with
  | None => throw (XAmount (po_id p) (po_amount_sompi p))
  | Some amount =>
      w ← map_err XDb (query (wallet_get_by_id (po_wallet_id p)));
      match script_of_address (w_address w) with
      | None => throw (XRecipientAddress (po_wallet_id p))
      | Some script =>
          mret {| rid := po_id p; amount_sompi := amount; recipient_script := script |}
      end
  end.

(** The loop building [recipients] and [by_id]. *)
Definition load_recipients (ps : list Payout)
    : M Script ExecuteError (list (PayoutRecipient Script) * gmap Z Payout) :=
  for_each ps ([], ∅) (λ p '(recipients, by_id),
    r ← load_recipient p;
    mret (recipients ++ [r], <[po_id p := p]> by_id)).

(** Resolve the payout row ids of a batch. *)
Definition batch_payout_ids (by_id : gmap Z Payout) (batch : PlannedBatch Script) : result ExecuteError (list Z) :=
  foldr (λ r acc, match by_id !! rid r with
                  | Some row => ids ← acc; Ok (po_id row :: ids)
                  | None => Err (XUnknownRecipient (rid r))
                  end) (Ok []) (batch_payouts batch).

(** The body of the [for batch in &plan.batches] loop. *)
Definition broadcast_batch (treasury_script : Script) (mode : ExecutionMode) (fee_rate : FeeRate)
    (by_id : gmap Z Payout) (batch : PlannedBatch Script) (report : ExecutionReport)
    : M Script ExecuteError ExecutionReport :=
  ids ← lift_result (batch_payout_ids by_id batch);
  r ← lift_exec (sign_batch_with_exact_fee batch treasury_script fee_rate);
  signed ← lift_result r;
  if is_dry_run mode then mret (report_txid (txid signed) report)
  else
    _ ← map_err XDb (statement (record_intent ids (txid signed)));
    let report := report_payouts (length ids) report in
    sent ← attempt (submit_transaction {| bc_payouts := batch_payouts batch; bc_tx := sb_tx signed |});
    match sent with
    | Ok _ => mret (report_txid (txid signed) report)
    | Err _ => mret (report_error (txid signed) report)
    end.

(** Mature coins that no unsettled payout waits on. *)
Definition spendable_utxos (virtual_daa : Z) (protected : list Hash)
    (snapshots : list (TreasuryUtxo Script)) : list (TreasuryUtxo Script) :=
  List.filter (λ u, negb (bool_decide (transaction_id (outpoint u) ∈ protected)))
    (List.filter (λ u, is_spendable (block_daa_score (entry u)) (is_coinbase (entry u)) virtual_daa)
       snapshots).

Definition broadcast_cycle (treasury_script : Script) (cycle : CycleState) (mode : ExecutionMode)
    : M Script ExecuteError ExecutionReport :=
  match pending cycle with
  | [] => mret ExecutionReport_default
  | _ =>
      '(recipients, by_id) ← load_recipients (pending cycle);
      virtual_daa ← map_err XKaspad virtual_daa_score;
      protected ← map_err XDb (query (λ d, Ok (in_flight_spend_tx_hashes d)));
      snapshots ← map_err XKaspad treasury_utxos;
      let utxos := spendable_utxos virtual_daa protected snapshots in
      estimate ← attempt fee_estimate_sompi_per_gram;
      let fee_rate := match estimate with
                      | Ok feerate => from_feerate feerate
                      | Err _ => from_feerate f64_zero
                      end in
      plan ← lift_exec (plan_batches utxos recipients treasury_script fee_rate);
      let report := {| er_planned_batches := length (batches plan);
                       er_spendable_utxos := length utxos; er_submitted_txids := [];
                       er_submitted_payouts := 0;
                       er_deferred_below_floor := length (deferred_below_floor plan);
                       er_unpaid := length (unpaid plan); er_submit_errors := [] |} in
      _ ← (if negb (is_dry_run mode) && negb (Nat.eqb (length (batches plan)) 0)
           then map_err XDb (statement (mark_cycle_broadcasting (pc_id (cs_cycle cycle))))
           else mret tt);
      for_each (batches plan) report (broadcast_batch treasury_script mode fee_rate by_id)
  end.

(** [snapshots.iter().map(...).collect::<HashMap<_, _>>()]: later entries win. *)
Definition change_daa (snapshots : list (TreasuryUtxo Script)) : gmap Z Z :=
  foldl (λ m s, <[transaction_id (outpoint s) := block_daa_score (entry s)]> m) ∅ snapshots.

(** The body of the loop over in-flight rows; [h] is the row's [tx_hash]. *)
Definition confirm_payout (virtual_daa : Z) (chain : gmap Z Z) (p : Payout) (report : ConfirmReport)
    : M Script ExecuteError ConfirmReport :=
  match po_tx_hash p with
  | None => mret report
  | Some h =>
      let on_chain := chain !! h in
      let recorded := po_accepted_daa_score p ≫= u64_try_from in
      in_mempool ← match on_chain, recorded with
                   | None, None => map_err XKaspad (transaction_in_mempool h)
                   | _, _ => mret false
                   end;
      match classify_confirmation {| ci_virtual_daa_score := virtual_daa; ci_in_mempool := in_mempool;
              ci_change_block_daa_score := on_chain; ci_recorded_accept_daa := recorded |} with
      | ConfAccepted =>
          let accept_daa := default 0 ((match on_chain with Some v => Some v | None => recorded end)
                                         ≫= i64_try_from) in
          _ ← map_err XDb (statement (λ _, mark_payout_accepted (po_id p) accept_daa));
          mret {| cf_accepted := cf_accepted report + 1; cf_confirmed := cf_confirmed report;
                  cf_pending := cf_pending report; cf_unknown := cf_unknown report |}
      | ConfConfirmed =>
          _ ← map_err XDb (statement (mark_payout_confirmed (po_id p)));
          mret {| cf_accepted := cf_accepted report; cf_confirmed := cf_confirmed report + 1;
                  cf_pending := cf_pending report; cf_unknown := cf_unknown report |}
      | ConfPending =>
          mret {| cf_accepted := cf_accepted report; cf_confirmed := cf_confirmed report;
                  cf_pending := cf_pending report + 1; cf_unknown := cf_unknown report |}
      | ConfUnknown =>
          mret {| cf_accepted := cf_accepted report; cf_confirmed := cf_confirmed report;
                  cf_pending := cf_pending report; cf_unknown := cf_unknown report + 1 |}
      end
  end.

Definition confirm_rows (virtual_daa : Z) (chain : gmap Z Z) (rows : list Payout)
    : M Script ExecuteError ConfirmReport :=
  for_each rows ConfirmReport_default (confirm_payout virtual_daa chain).

Definition in_flight (s : CycleState) : list Payout :=
  List.filter (λ p, status_in (po_status p) [Submitted; Accepted] && bool_decide (is_Some (po_tx_hash p)))
    (cs_payouts s).

Definition confirm_cycle (cycle : CycleState) : M Script ExecuteError ConfirmReport :=
  match in_flight cycle with
  | [] => mret ConfirmReport_default
  | _ =>
      virtual_daa ← map_err XKaspad virtual_daa_score;
      snapshots ← map_err XKaspad treasury_utxos;
      confirm_rows virtual_daa (change_daa snapshots) (in_flight cycle)
  end.
End execute.

(** ** engine.rs *)

Definition over_spend_cap (total : Z) (cap : option Z) : bool :=
  match cap with Some c => c <? total | None => false end.

Inductive EngineError :=
| GDb (e : DbError)
| GPayout (e : PayoutKasError)
| GExecute (e : ExecuteError)
| GKaspad (e : KaspadError)
| GSpanTooSmall (span depth : Z)
| GSpendCapExceeded (total cap : Z).

Record PayoutEngineConfig := {
  cfg_cycle_span_daa : Z;
  cfg_threshold_sompi : Z;
  cfg_max_payout_sompi_per_cycle : option Z;
  cfg_mode : ExecutionMode;
}.

Record TickReport := {
  tr_cycle_id : Z; tr_virtual_daa : Z; tr_daa_start : Z; tr_daa_end : Z;
  tr_broadcast : ExecutionReport; tr_confirm : ConfirmReport; tr_status : PayoutCycleStatus;
}.

Inductive TickOutcome := SkippedNotLeader | Ran (r : TickReport).

(** [PayoutEngine::new]: the validation of the span. *)
Definition engine_new (config : PayoutEngineConfig) : result EngineError PayoutEngineConfig :=
  if cfg_cycle_span_daa config <=? KAS_PAYOUT_CONFIRMATION_DAA
  then Err (GSpanTooSmall (cfg_cycle_span_daa config) KAS_PAYOUT_CONFIRMATION_DAA)
  else Ok config.

(** The non-failed outbound of a cycle, saturating. *)
Definition outbound_sompi (s : CycleState) : Z :=
  foldl i64_saturating_add 0
    (map po_amount_sompi (List.filter (λ p, negb (bool_decide (po_status p = Failed))) (cs_payouts s))).

Section engine.
Context {Script : Type} `{!MassCalculator Script} `{!Signer Script}.

Definition run_locked (config : PayoutEngineConfig) (treasury_script : Script)
    : M Script EngineError TickOutcome :=
  virtual_daa ← map_err GKaspad virtual_daa_score;
  let '(daa_start, daa_end) := cycle_window virtual_daa (cfg_cycle_span_daa config) in
  state ← map_err GPayout (resume_or_plan_kas_cycle
            {| pk_daa_start := daa_start; pk_daa_end := daa_end;
               pk_threshold_sompi := cfg_threshold_sompi config |});
  let cycle_id := pc_id (cs_cycle state) in
  let outbound := outbound_sompi state in
  if over_spend_cap outbound (cfg_max_payout_sompi_per_cycle config) then
    throw (GSpendCapExceeded outbound (default 0 (cfg_max_payout_sompi_per_cycle config)))
  else
    broadcast ← map_err GExecute (broadcast_cycle treasury_script state (cfg_mode config));
    cycle ← map_err GDb (query (get_cycle cycle_id));
    rows ← map_err GDb (query (λ d, Ok (list_for_cycle cycle_id d)));
    confirm ← map_err GExecute (confirm_cycle {| cs_cycle := cycle; cs_payouts := rows |});
    status ← map_err GPayout (reconcile_cycle_status cycle_id);
    mret (Ran {| tr_cycle_id := cycle_id; tr_virtual_daa := virtual_daa; tr_daa_start := daa_start;
                 tr_daa_end := daa_end; tr_broadcast := broadcast; tr_confirm := confirm;
                 tr_status := status |}).

(** [AdvisoryLock::try_acquire]: the reply says whether another session holds the lock. *)
Definition try_acquire : M Script DbError bool := λ w,
  match w_replies w with
  | [] => (Crashed, w)
  | Refuse :: rs => (Done (Err Connection), world_replies rs w)
  | Proceed _ _ :: rs => (Done (Ok true), world_replies rs w)
  | Lost _ _ :: rs => (Done (Ok false), world_replies rs w)
  end.

(** The lock is released whatever the work returned; a failed release is only logged. *)
Definition run_once (config : PayoutEngineConfig) (treasury_script : Script)
    : M Script EngineError TickOutcome :=
  leader ← map_err GDb try_acquire;
  if (leader : bool) then
    outcome ← attempt (run_locked config treasury_script);
    _ ← attempt (query (λ _, Ok tt));
    lift_result outcome
  else mret SkippedNotLeader.
End engine.
