(* ===== verification/KasSafety.v ===== *)
(** * Crash safety of the KAS payout engine

    The ordering contract of payout-kas/src/execute.rs: intent is recorded
    before a transaction is broadcast, and only [planned] rows are signed.
    [ledger_inv] states what that buys at every point where the process may
    die; [sys_step] is the system around the engine (ticks under any
    configuration and environment, interleaved with any other service that
    lets payout rows evolve), and the theorems follow by rule induction. *)

From S2P Require Import Prelude Float64 Mass Fee Planner PlannerProps.
From S2P Require Import Db PayoutRepo PayoutSpec Effects KasCycle KasExecute.
Local Open Scope Z_scope.

Section safety.
Context {Script : Type} `{!MassCalculator Script} `{!Signer Script} `{!SignerOk Script}.
Context (treasury_script : Script).
(** An optional bound on what may ever be put on the wire, what is known of the transactions put there,
    and the replies the engine may still get. *)
Context (budget : option Z) (justified : Broadcast Script → Prop) (told : list (Reply Script)).
Implicit Types (w : World Script).

(** ** The invariant *)

(** The row ids the network has been asked to pay, in order. *)
Definition sent_ids w : list Z := concat (map (λ b, map rid (bc_payouts b)) (w_sent w)).

(** The sompi the network has been asked to pay out. *)
Definition sent_total w : Z := sumZ (map amount_sompi (concat (map bc_payouts (w_sent w)))).

Definition within (n : Z) : Prop := match budget with None => True | Some b => n ≤ b end.

(** What the node answered in the course of [replies], and the fee policies that follow from it: its own
    estimate, or the relay floor when it gave none. *)
Definition answered (replies : list (Reply Script)) (v : NodeView Script) : Prop := ∃ now, Proceed now v ∈ replies.
Definition rate_quoted (replies : list (Reply Script)) (rate : FeeRate) : Prop :=
  rate = from_feerate f64_zero ∨ ∃ v, answered replies v ∧ rate = from_feerate (nv_feerate v).

Definition payout_outputs (ps : list (PayoutRecipient Script)) : list (TransactionOutput Script) :=
  map (λ r, {| value := amount_sompi r; out_script := recipient_script r |}) ps.
Definition change_outputs (change : Z) : list (TransactionOutput Script) :=
  if 0 <? change then [{| value := change; out_script := treasury_script |}] else [].

(** A transaction that was broadcast: it spends treasury coins the node reported, pays the recipients in
    order, and of what its coins hold beyond the payouts returns everything but the fee to the treasury in
    one output ([fee_settled]).  The fee is the policy's for the mass of the transaction as signed with
    the planned change; when the rest cannot cover that one, it is the fee the planner reserved
    ([batch_sound]).  Only dust is left to the fee, and no dust is kept. *)
Definition pays_exactly (replies : list (Reply Script)) (b : Broadcast Script) : Prop :=
  ∃ batch rate v provisional mass change,
    batch_payouts batch = bc_payouts b ∧ batch_sound treasury_script rate batch ∧ rate_quoted replies rate
    ∧ answered replies v ∧ batch_inputs batch ⊆+ nv_treasury_utxos v
    ∧ map previous_outpoint (inputs (bc_tx b)) = map outpoint (batch_inputs batch)
    ∧ outputs (bc_tx b) = payout_outputs (bc_payouts b) ++ change_outputs change
    ∧ 0 ≤ change ∧ (0 < change → is_change_dust change treasury_script = false)
    ∧ sign_batch batch treasury_script = Ok provisional
    ∧ evaluate_populated (sb_tx provisional) (sb_entries provisional) = Ok mass
    ∧ if fee_for rate mass <=? left_over batch then fee_settled treasury_script rate mass (left_over batch) change
      else change = change_amount_sompi batch.

(** The row of a recipient that went out: its amount, no longer [planned], its transaction recorded. *)
Definition recorded (d : Db) (r : PayoutRecipient Script) : Prop :=
  ∃ p, p ∈ payouts d ∧ po_id p = rid r ∧ po_amount_sompi p = amount_sompi r ∧ po_status p ≠ Planned.

(** The environment never shows a treasury of [u64::MAX] sompi or more (the supply is below it). *)
Definition reply_ok (r : Reply Script) : Prop :=
  match r with Proceed _ v | Lost _ v => coins_ok (nv_treasury_utxos v) | Refuse => True end.

Record ledger_inv w : Prop := {
  li_db : db_ok (w_db w);
  li_replies : Forall (λ r, reply_ok r ∧ r ∈ told) (w_replies w);
  li_once : NoDup (sent_ids w);
  li_recorded : ∀ b r, b ∈ w_sent w → r ∈ bc_payouts b → recorded (w_db w) r;
  li_pays : Forall justified (w_sent w);
  li_budget : within (sent_total w);
}.

Lemma within_mono m n : m ≤ n → within n → within m.
Proof. unfold within. destruct budget; [lia|done]. Qed.

Lemma sent_total_send b w : sent_total (world_send b w) = sent_total w + sumZ (map amount_sompi (bc_payouts b)).
Proof.
  unfold sent_total. simpl. rewrite map_app, concat_app, map_app, sumZ_app. simpl. by rewrite app_nil_r.
Qed.

Lemma ledger_inv_suffix : suffix_closed ledger_inv.
Proof.
  intros w r rs Hr []. split; simpl; try done. rewrite Hr in *. by apply Forall_cons in li_replies0 as [_ ?].
Qed.

Lemma recorded_grows d d' r :
  grows po_evolves (payouts d) (payouts d') → recorded d r → recorded d' r.
Proof.
  intros Hg (p & Hp & Hi & Ha & Hs). destruct (grows_elem _ _ _ _ Hg Hp) as (q & Hq & []).
  exists q. split_and!; try congruence. by destruct (po_status p), (po_status q).
Qed.

Lemma ledger_inv_db d w : ledger_inv w → db_ok d → grows po_evolves (payouts (w_db w)) (payouts d) →
  ledger_inv (world_db d w).
Proof. intros [] Hd Hg. split; simpl; try done. intros b r Hb Hr. eapply recorded_grows; eauto. Qed.

Lemma ledger_inv_steps d w : ledger_inv w → rtc repo_step (w_db w) d → ledger_inv (world_db d w).
Proof.
  intros Hw [[] Hok]%repo_steps_good. apply ledger_inv_db; [done| |done]. apply Hok, Hw.
Qed.

(** Every statement that is a composition of repository calls keeps the invariant. *)
Lemma wp_steps (body : Z → Db → result DbError Db) (Q : unit → World Script → Prop) w :
  ledger_inv w → (∀ now d d', body now d = Ok d' → rtc repo_step d d') →
  (∀ d rs, rtc repo_step (w_db w) d → ledger_inv (world_db d (world_replies rs w)) →
     Q tt (world_db d (world_replies rs w))) →
  wp ledger_inv (statement body) Q w.
Proof.
  intros Hw Hb HQ. apply wp_statement; [exact ledger_inv_suffix|done|]. intros now d rs Hrs Hd.
  apply Hb in Hd. assert (ledger_inv (world_db d (world_replies rs w))) by by apply ledger_inv_steps.
  auto.
Qed.

Lemma wp_read {A} (f : Db → result DbError A) (Q : A → World Script → Prop) w :
  ledger_inv w →
  (∀ a rs, f (w_db w) = Ok a → ledger_inv (world_replies rs w) → Q a (world_replies rs w)) →
  wp ledger_inv (query f) Q w.
Proof. intros Hw HQ. apply wp_query; [exact ledger_inv_suffix|done|]. auto. Qed.

(** ** Signing *)

(** What a signed batch spends and pays. *)
Lemma sign_batch_shape batch s : sign_batch batch treasury_script = Ok s →
  existsb is_planning_virtual (batch_inputs batch) = false ∧
  map previous_outpoint (inputs (sb_tx s)) = map outpoint (batch_inputs batch) ∧
  outputs (sb_tx s) = payout_outputs (batch_payouts batch) ++ change_outputs (change_amount_sompi batch).
Proof.
  intros ([tx es] & Hb & H)%result_bind_Ok. case_bool_in H; [|done].
  apply result_bind_Ok in H as (_ & _ & [= <-]). simpl. rewrite sign_outputs, sign_outpoints.
  unfold build_unsigned in Hb. destruct (batch_inputs batch) as [|c cs] eqn:Ei; [done|].
  destruct (existsb is_planning_virtual (c :: cs)); [done|]. injection Hb as <- <-. split_and!; [done| |].
  - simpl. by rewrite map_map.
  - simpl. unfold change_outputs. case_bool; [done|by rewrite app_nil_r].
Qed.

Lemma checked_rest i o fee : 0 ≤ fee →
  u64_checked_sub i o ≫= (λ rem, u64_checked_sub rem fee) = if fee <=? i - o then Some (i - o - fee) else None.
Proof.
  intros Hf. unfold u64_checked_sub. destruct (Z.leb_spec o i); simpl; [done|].
  by destruct (Z.leb_spec fee (i - o)); [lia|].
Qed.

(** The change an exact fee leaves, dust dropped. *)
Lemma exact_change_settled fr mass rest change : reserves_fee fr = true → fee_for fr mass ≤ rest →
  change = (if negb (rest - fee_for fr mass =? 0) && is_change_dust (rest - fee_for fr mass) treasury_script then 0 else rest - fee_for fr mass) →
  0 ≤ change ∧ (0 < change → is_change_dust change treasury_script = false) ∧ fee_settled treasury_script fr mass rest change.
Proof.
  intros Hres Hle ->. unfold fee_settled, reserved_fee. rewrite Hres. destruct (Z.eqb_spec (rest - fee_for fr mass) 0) as [Hz|]; simpl.
  - rewrite Hz. split_and!; [done|lia|lia|left; lia].
  - destruct (is_change_dust _ _) eqn:Ed; split_and!; done || lia.
Qed.

(** What [sign_batch_with_exact_fee] does with the change, under a policy that reserves a fee. *)
Lemma sign_exact_shape batch fr s : reserves_fee fr = true → batch_sound treasury_script fr batch →
  Forall (λ u, 0 ≤ coin u) (batch_inputs batch) → Forall (λ r, 0 ≤ amount_sompi r) (batch_payouts batch) →
  sign_batch_with_exact_fee batch treasury_script fr = Ret (Ok s) →
  ∃ provisional mass change, sign_batch batch treasury_script = Ok provisional ∧
    evaluate_populated (sb_tx provisional) (sb_entries provisional) = Ok mass ∧
    map previous_outpoint (inputs (sb_tx s)) = map outpoint (batch_inputs batch) ∧
    outputs (sb_tx s) = payout_outputs (batch_payouts batch) ++ change_outputs change ∧
    0 ≤ change ∧ (0 < change → is_change_dust change treasury_script = false) ∧
    if fee_for fr mass <=? left_over batch then fee_settled treasury_script fr mass (left_over batch) change
    else change = change_amount_sompi batch.
Proof.
  intros Hres (_ & Hch & _ & Hdust) Hcoins Ham. specialize (Hdust Hres). unfold sign_batch_with_exact_fee.
  destruct (sign_batch batch _) as [s0|e] eqn:E0; [|done]. rewrite Hres. cbn [negb].
  destruct (evaluate_populated _ _) as [mass|] eqn:Em; [|done]. destruct (sign_batch_shape _ _ E0) as (_ & Hi0 & Ho0).
  intros H. apply exec_bind_Ret in H as (i & Hi & H). apply exec_bind_Ret in H as (o & Ho & H).
  apply sum_u64_inv in Hi as [-> _]; [|by apply List.Forall_map]. apply sum_u64_inv in Ho as [-> _]; [|by apply List.Forall_map].
  rewrite checked_rest in H by apply fee_for_nonneg. fold (left_over batch) in H.
  destruct (Z.leb_spec (fee_for fr mass) (left_over batch)) as [Hle|Hgt].
  2: { injection H as ->. exists s, mass, (change_amount_sompi batch). rewrite (proj2 (Z.leb_gt _ _) Hgt). by split_and!. }
  destruct (exact_change_settled fr mass (left_over batch) _ Hres Hle eq_refl) as (Hc0 & Hcd & Hcs).
  remember (if _ && _ then 0 else _) as change eqn:Hchange in *. exists s0, mass, change. rewrite (proj2 (Z.leb_le _ _) Hle). case_bool_in H.
  - injection H as ->. assert (change_amount_sompi batch = change) as Heq by (clear Hchange; lia). rewrite Heq in Ho0. by split_and!.
  - destruct (sign_batch {| batch_inputs := _ |} _) as [s1|] eqn:Es; [|done]. injection H as ->.
    destruct (sign_batch_shape _ _ Es) as (_ & Hi1 & Ho1). by split_and!.
Qed.

(** ** Recording intent *)

Lemma record_intent_steps ids h now d d' : record_intent ids h now d = Ok d' → rtc repo_step d d'.
Proof.
  revert d. induction ids as [|i ids IH]; intros d H; simpl in H; [by injection H as ->|].
  apply result_bind_Ok in H as (d1 & H1 & H). eapply rtc_l; [by eapply step_submitted|auto].
Qed.

Lemma mark_submitted_elem i h now d d' p : mark_payout_submitted i h now d = Ok d' → p ∈ payouts d →
  po_id p = i → ∃ q, q ∈ payouts d' ∧ po_id q = i ∧ po_amount_sompi q = po_amount_sompi p ∧
    po_status q ≠ Planned.
Proof.
  intros (l & [-> _]%update_checked_Ok & [= <-])%result_bind_Ok Hp Hi.
  eexists. split; [apply elem_of_update_where; eauto|]. simpl. rewrite Hi, Z.eqb_refl. simpl.
  destruct (po_status p) eqn:Es; simpl; rewrite ?Es; done.
Qed.

(** After the intent transaction, no row of the batch is [planned]. *)
Lemma record_intent_recorded ids h now d d' (r : PayoutRecipient Script) p :
  record_intent ids h now d = Ok d' → rid r ∈ ids →
  p ∈ payouts d → po_id p = rid r → po_amount_sompi p = amount_sompi r → recorded d' r.
Proof.
  revert d p. induction ids as [|i ids IH]; intros d p H Hin Hp Hi Ha; [by apply not_elem_of_nil in Hin|].
  simpl in H. apply result_bind_Ok in H as (d1 & H1 & H).
  destruct (decide (rid r = i)) as [Heq|Hne].
  - destruct (mark_submitted_elem _ _ _ _ _ p H1 Hp) as (q & Hq & Hqi & Hqa & Hqs); [congruence|].
    apply record_intent_steps in H. apply repo_steps_good in H as [[Hg _ _ _ _] _].
    eapply recorded_grows; [exact Hg|]. exists q. split_and!; congruence.
  - assert (good_step d d1) as [[Hg _ _ _ _] _] by (by eapply repo_step_good, step_submitted).
    destruct (grows_elem _ _ _ _ Hg Hp) as (q & Hq & []).
    apply (IH d1 q H); [set_solver|congruence..].
Qed.

Lemma batch_payout_ids_eq (by_id : gmap Z Payout) (batch : PlannedBatch Script) ids :
  map_Forall (λ k p, po_id p = k) by_id →
  batch_payout_ids by_id batch = Ok ids → ids = map rid (batch_payouts batch).
Proof.
  intros Hby. unfold batch_payout_ids. revert ids.
  induction (batch_payouts batch) as [|r l IH]; intros ids H; simpl in *; [by injection H as <-|].
  destruct (by_id !! rid r) eqn:E; [|done]. apply result_bind_Ok in H as (ids' & H & [= <-]).
  rewrite (IH _ H), (Hby _ _ E). done.
Qed.

(** ** Broadcasting *)

(** Rows a tick may still pay: within the budget, unique, present with their amounts, never
    sent before. *)
Definition payable_now w (rs : list (PayoutRecipient Script)) : Prop :=
  NoDup (map rid rs) ∧ amounts_ok rs ∧ within (sent_total w + sumZ (map amount_sompi rs)) ∧
  ∀ r, r ∈ rs → rid r ∉ sent_ids w ∧
    ∃ p, p ∈ payouts (w_db w) ∧ po_id p = rid r ∧ po_amount_sompi p = amount_sompi r.

Lemma payable_now_grows w w' rs : w_sent w' = w_sent w →
  grows po_evolves (payouts (w_db w)) (payouts (w_db w')) → payable_now w rs → payable_now w' rs.
Proof.
  intros Hs Hg (Hnd & Ha & Hb & Hr). unfold sent_total in *. rewrite <- Hs in Hb.
  split_and!; [done..|]. clear Ha. intros r Hin. destruct (Hr r Hin) as (Hn & p & Hp & Hi & Ha).
  unfold sent_ids in *. rewrite Hs. split; [done|].
  destruct (grows_elem _ _ _ _ Hg Hp) as (q & Hq & []). exists q. split_and!; congruence.
Qed.

(** Part of what is payable is payable. *)
Lemma payable_now_sub w rs rs' rest : rs ≡ₚ rs' ++ rest → payable_now w rs → payable_now w rs'.
Proof.
  intros Hp (Hnd & Ha & Hb & H). rewrite Hp, map_app in Hnd. apply NoDup_app in Hnd as (? & _ & _).
  unfold amounts_ok in *. rewrite Hp in Ha. apply Forall_app in Ha as [Ha1 Ha2].
  split_and!; [done..| |].
  - eapply within_mono; [|exact Hb]. rewrite Hp, map_app, sumZ_app.
    pose proof (sumZ_nonneg (map amount_sompi rest)) as Hn. rewrite List.Forall_map in Hn.
    specialize (Hn Ha2). lia.
  - intros r Hr. apply H. rewrite Hp. set_solver.
Qed.

Lemma ledger_inv_send b w : ledger_inv w → justified b →
  NoDup (map rid (bc_payouts b)) → (∀ r, r ∈ bc_payouts b → rid r ∉ sent_ids w) →
  (∀ r, r ∈ bc_payouts b → recorded (w_db w) r) →
  within (sent_total w + sumZ (map amount_sompi (bc_payouts b))) → ledger_inv (world_send b w).
Proof.
  intros [] Hp Hnd Hn Hr Hbud. rewrite <- sent_total_send in Hbud. split; simpl; try done.
  - unfold sent_ids in *. simpl. rewrite map_app, concat_app. simpl. rewrite app_nil_r.
    apply NoDup_app. split_and!; [done| |done].
    intros x Hx (r & -> & Hr')%list_elem_of_fmap. by apply (Hn r Hr').
  - intros b' r [Hb|Hb]%elem_of_app Hr'; [eauto|]. apply list_elem_of_singleton in Hb as ->. eauto.
  - apply Forall_app; split; [done|]. by apply Forall_singleton.
Qed.

Abbreviation batch_recipients l := (concat (map (@batch_payouts Script) l)).

Context (Hjust : ∀ b, pays_exactly told b → justified b).

(** A batch of a plan made from what the node answered. *)
Definition planned_from (rate : FeeRate) (batch : PlannedBatch Script) : Prop :=
  reserves_fee rate = true ∧ rate_quoted told rate ∧ batch_sound treasury_script rate batch ∧
  Forall (λ r, 0 ≤ amount_sompi r) (batch_payouts batch) ∧
  (existsb is_planning_virtual (batch_inputs batch) = false → ∃ v, answered told v ∧ coins_ok (nv_treasury_utxos v) ∧ batch_inputs batch ⊆+ nv_treasury_utxos v).

Lemma sign_exact_pays rate batch s : planned_from rate batch → sign_batch_with_exact_fee batch treasury_script rate = Ret (Ok s) →
  pays_exactly told {| bc_payouts := batch_payouts batch; bc_tx := sb_tx s |}.
Proof.
  intros (Hres & Hrate & Hsound & Ham & Hreal) Hs. assert (∃ v, answered told v ∧ coins_ok (nv_treasury_utxos v) ∧ batch_inputs batch ⊆+ nv_treasury_utxos v) as (v & Hv & [Hpos _] & Hin).
  { apply Hreal. revert Hs. unfold sign_batch_with_exact_fee. destruct (sign_batch batch _) eqn:E; [|done]. intros _. by apply sign_batch_shape in E as [? _]. }
  destruct (sign_exact_shape batch rate s Hres Hsound) as (s0 & mass & change & Hs0 & Hm & Hi & Ho & Hc & Hd & Hf); [|done|done|].
  { apply Forall_forall. intros u Hu. apply (proj1 (Forall_forall _ _) Hpos). by eapply elem_of_submseteq. }
  exists batch, rate, v, s0, mass, change. by split_and!.
Qed.

Lemma broadcast_batch_wp mode fr by_id (batch : PlannedBatch Script) rest report w :
  map_Forall (λ k p, po_id p = k) by_id → planned_from fr batch →
  ledger_inv w → payable_now w (batch_recipients (batch :: rest)) →
  wp ledger_inv (broadcast_batch treasury_script mode fr by_id batch report)
    (λ _ w', ledger_inv w' ∧ payable_now w' (batch_recipients rest)) w.
Proof.
  intros Hby Hplan Hw Hpay. unfold broadcast_batch. apply wp_bind, wp_lift_result; [done|].
  intros ids Hids. apply (batch_payout_ids_eq _ _ _ Hby) in Hids as ->.
  apply wp_bind, wp_lift_exec; [done|]. intros r Hr. apply wp_bind, wp_lift_result; [done|].
  intros signed ->. apply (sign_exact_pays _ _ _ Hplan), Hjust in Hr.
  change (batch_recipients (batch :: rest)) with (batch_payouts batch ++ batch_recipients rest) in Hpay.
  assert (Hrest0 : payable_now w (batch_recipients rest)).
  { eapply payable_now_sub; [|exact Hpay]. apply Permutation_app_comm. }
  pose proof (payable_now_sub _ _ (batch_payouts batch) _ (reflexivity _) Hpay) as (Hnd1 & _ & Hbud1 & Hpay1).
  case_bool; [by apply wp_ret|].
  destruct Hpay as (Hnd & _ & Hbud & _).
  rewrite map_app in Hnd. apply NoDup_app in Hnd as (_ & Hdis & _).
  apply wp_bind, wp_map_err, wp_statement; [exact ledger_inv_suffix|done|].
  intros now d rs Hrs Hd. pose proof (record_intent_steps _ _ _ _ _ Hd) as Hst.
  assert (Hw1 : ledger_inv (world_db d (world_replies rs w))) by by apply ledger_inv_steps.
  split; [done|]. set (w1 := world_db d (world_replies rs w)) in *.
  assert (Hrec : ∀ r, r ∈ batch_payouts batch → recorded d r).
  { intros r Hin. destruct (Hpay1 r Hin) as (_ & p & Hp & Hi & Ha).
    eapply record_intent_recorded; [exact Hd| |exact Hp|done|done]. by apply list_elem_of_fmap_2. }
  assert (Hrest : payable_now w1 (batch_recipients rest)).
  { apply (payable_now_grows w); [done|by apply repo_steps_good in Hst as [[] _]|done]. }
  apply wp_bind, wp_submit; [exact ledger_inv_suffix|done|]. intros rs' Hrs'.
  assert (Hsent : ledger_inv (world_send {| bc_payouts := batch_payouts batch; bc_tx := sb_tx signed |}
            (world_replies rs' w1))).
  { apply ledger_inv_send; simpl; try done. intros r Hin. by apply Hpay1. }
  split_and!; [done| |].
  - intros [[]|]; apply wp_ret; try done; (split; [done|]).
    all: destruct Hrest as (Hnd2 & Ha2 & _ & Hrest); split_and!; [done..| |].
    all: try (rewrite sent_total_send, <- Z.add_assoc, <- sumZ_app, <- map_app; exact Hbud).
    all: intros r Hin; destruct (Hrest r Hin) as [Hn ?]; split; [|done]; unfold sent_ids in *; simpl in *.
    all: rewrite map_app, concat_app; simpl; rewrite app_nil_r; intros [?|Hx]%elem_of_app; [done|].
    all: apply (Hdis (rid r)); [done|]; by apply list_elem_of_fmap_2.
  - apply wp_ret; [done|]. by split.
Qed.

(** What [load_recipients] returns for the rows it was given. *)
Definition loaded (ps : list Payout) (st : list (PayoutRecipient Script) * gmap Z Payout) : Prop :=
  map (λ r, (rid r, amount_sompi r)) st.1 = map (λ p, (po_id p, po_amount_sompi p)) ps ∧
  Forall (λ r, 0 ≤ amount_sompi r) st.1 ∧ map_Forall (λ k p, po_id p = k) st.2.

Lemma load_recipients_wp (ps : list Payout) (R : World Script → Prop) w :
  (∀ w rs, ledger_inv (world_replies rs w) → R w → R (world_replies rs w)) →
  ledger_inv w → R w →
  wp ledger_inv (load_recipients ps) (λ st w', ledger_inv w' ∧ R w' ∧ loaded ps st) w.
Proof.
  intros HR Hw Hr. unfold load_recipients.
  eapply wp_mono; [apply (wp_for_each _ _ _ (λ rest st w', ledger_inv w' ∧ R w' ∧
    ∃ done, ps = done ++ rest ∧ loaded done st))|].
  - intros p rest [rs by_id] w1 (Hw1 & Hr1 & done & -> & Hl). apply wp_bind. unfold load_recipient.
    destruct (u64_try_from _) as [a|] eqn:Ea; [|by apply wp_throw].
    apply u64_try_from_Some in Ea as [-> Ha].
    apply wp_bind, wp_map_err, wp_read; [done|]. intros wal rs' _ Hw2.
    destruct (script_of_address _); [|by apply wp_throw].
    apply wp_ret; [done|]. apply wp_ret; [done|]. split_and!; [done|by apply HR|].
    exists (done ++ [p]). rewrite <- app_assoc. split; [done|]. destruct Hl as (Hm & Hf & Hby).
    split_and!; simpl in *.
    + rewrite !map_app, Hm. done.
    + apply Forall_app; split; [done|]. apply Forall_singleton. simpl. apply Ha.
    + by apply map_Forall_insert_2.
  - naive_solver.
  - split_and!; [done..|]. exists []. split; [done|]. split_and!; [done|constructor|apply map_Forall_empty].
  - simpl. intros st w' _ (? & ? & done & -> & ?). by rewrite app_nil_r.
Qed.

Lemma coins_ok_sublist (l1 l2 : list (TreasuryUtxo Script)) : sublist l1 l2 → coins_ok l2 → coins_ok l1.
Proof.
  intros Hs [Hn Hsum]. split.
  - rewrite Forall_forall in *. intros x Hx. apply Hn. by eapply sublist_subseteq.
  - assert (sumZ (map coin l1) ≤ sumZ (map coin l2)); [|lia].
    apply sumZ_sublist; [by apply sublist_map|]. by apply List.Forall_map.
Qed.

Lemma spendable_sublist daa prot (snaps : list (TreasuryUtxo Script)) : sublist (spendable_utxos daa prot snaps) snaps.
Proof. unfold spendable_utxos. etrans; apply retain_sublist. Qed.
Lemma spendable_ok daa prot (snaps : list (TreasuryUtxo Script)) : coins_ok snaps → coins_ok (spendable_utxos daa prot snaps).
Proof. apply coins_ok_sublist, spendable_sublist. Qed.

(** The next answer of the node is one of those the engine is told. *)
Lemma told_next w now v rs : ledger_inv w → w_replies w = Proceed now v :: rs → answered told v ∧ coins_ok (nv_treasury_utxos v).
Proof. intros Hw Hr. pose proof (li_replies _ Hw) as Hrep. rewrite Hr in Hrep. apply Forall_cons in Hrep as [[Hok Hin] _]. split; [by exists now|exact Hok]. Qed.

Lemma plan_planned_from v daa prot recipients rate plan : answered told v → coins_ok (nv_treasury_utxos v) → rate_quoted told rate →
  amounts_ok recipients → plan_batches (spendable_utxos daa prot (nv_treasury_utxos v)) recipients treasury_script rate = Ret plan →
  Forall (planned_from rate) (batches plan).
Proof.
  intros Hv Hc Hrate Ham Hp. pose proof (spendable_ok daa prot _ Hc) as Hs. pose proof (plan_sound _ _ _ _ _ Hs Ham Hp) as Hsound.
  pose proof (plan_inputs_real _ _ _ _ _ Hs Ham Hp) as Hreal. pose proof (plan_paid_amounts _ _ _ _ _ Hs Ham Hp) as Hpaid.
  apply Forall_forall. intros b Hb. rewrite Forall_forall in Hsound, Hreal, Hpaid. split_and!; auto.
  - destruct Hrate as [-> |(? & _ & ->)]; apply from_feerate_reserves.
  - intros Hvirt. exists v. split_and!; [done|done|]. etrans; [by apply Hreal|apply sublist_submseteq, spendable_sublist].
Qed.

(** The rows a snapshot calls pending are still payable. *)
Definition fresh_rows w (ps : list Payout) : Prop :=
  NoDup (map po_id ps) ∧ within (sent_total w + sumZ (map po_amount_sompi ps)) ∧ ∀ p, p ∈ ps → po_id p ∉ sent_ids w ∧
    ∃ q, q ∈ payouts (w_db w) ∧ po_id q = po_id p ∧ po_amount_sompi q = po_amount_sompi p.

Lemma loaded_payable w ps st : loaded ps st → fresh_rows w ps → payable_now w st.1.
Proof.
  intros (Hm & Ham & _) (Hnd & Hbud & Hps).
  assert (map rid st.1 = map po_id ps) as Hids.
  { apply (f_equal (map fst)) in Hm. rewrite !map_map in Hm. exact Hm. }
  assert (map amount_sompi st.1 = map po_amount_sompi ps) as Hams.
  { apply (f_equal (map snd)) in Hm. rewrite !map_map in Hm. exact Hm. }
  split_and!; [by rewrite Hids|done|by rewrite Hams|]. intros r Hr.
  assert ((rid r, amount_sompi r) ∈ map (λ r, (rid r, amount_sompi r)) st.1) as Hin
    by by apply (list_elem_of_fmap_2 (λ r, (rid r, amount_sompi r))).
  rewrite Hm in Hin. apply list_elem_of_fmap in Hin as (p & [= -> ->] & Hp). by apply Hps.
Qed.

Lemma fresh_rows_replies w rs ps : fresh_rows w ps → fresh_rows (world_replies rs w) ps.
Proof. done. Qed.

Lemma broadcast_cycle_wp cycle mode w :
  ledger_inv w → fresh_rows w (pending cycle) →
  wp ledger_inv (broadcast_cycle treasury_script cycle mode) (λ _ w', ledger_inv w') w.
Proof.
  intros Hw Hf. unfold broadcast_cycle. destruct (pending cycle) as [|p0 ps0] eqn:Ep; [by apply wp_ret|].
  apply wp_bind. eapply wp_mono; [apply (load_recipients_wp _ (λ w, fresh_rows w (p0 :: ps0))); try done|].
  intros [recipients by_id] w1 _ (Hw1 & Hf1 & Hl). clear Hw Hf.
  apply wp_bind, wp_map_err, wp_node_read; [exact ledger_inv_suffix|done|]. intros _ v1 rs1 _ Hw2.
  apply wp_bind, wp_map_err, wp_read; [done|]. intros prot rs2 _ Hw3.
  apply wp_bind, wp_map_err, wp_node_read; [exact ledger_inv_suffix|done|]. intros now4 v4 rs4 Hv4 Hw4.
  destruct (told_next _ _ _ _ Hw3 Hv4) as [Htold Hc4].
  pose proof (spendable_ok (nv_virtual_daa_score v1) prot _ Hc4) as Hcoins.
  apply wp_bind, wp_attempt.
  { unfold fee_estimate_sompi_per_gram, node_read. simpl. destruct rs4 as [|[?? | | ??] rs5] eqn:Ers; simpl;
      try done; by eapply (ledger_inv_suffix (world_replies (_ :: rs5) w1)). }
  intros est Hest. assert (rate_quoted told (match est with Ok f => from_feerate f | Err _ => from_feerate f64_zero end)) as Hrate.
  { destruct est as [f|e]; [|by left]. revert Hest. unfold fee_estimate_sompi_per_gram, node_read. simpl.
    destruct rs4 as [|[now5 v5| |??] rs5]; simpl; intros [= <-]. right. exists v5. split; [|done]. by destruct (told_next _ now5 v5 rs5 Hw4 eq_refl). }
  match goal with |- wp _ _ _ ?w5 => assert (ledger_inv w5 ∧ fresh_rows w5 (p0 :: ps0)) as [Hw5 Hf5] end.
  { unfold fee_estimate_sompi_per_gram, node_read. simpl. destruct rs4 as [|[?? | | ??] rs5] eqn:Ers; simpl;
      (split; [|done]); try done; by eapply (ledger_inv_suffix (world_replies (_ :: rs5) w1)). }
  match goal with |- wp _ _ _ ?w5 => set (w6 := w5) in * end. clearbody w6. clear Hest Hw4 Hv4 Hw3 Hw2 Hw1 Hf1.
  set (fr := match est with Ok f => from_feerate f | Err _ => _ end) in *. clearbody fr.
  apply wp_bind, wp_lift_exec; [done|]. intros plan Hplan.
  assert (Forall (planned_from fr) (batches plan)) as Hfrom by (eapply plan_planned_from; [exact Htold|done|done|apply Hl|exact Hplan]).
  assert (Hpay : payable_now w6 (batch_recipients (batches plan))).
  { pose proof (loaded_payable _ _ _ Hl Hf5) as Hpay. simpl in Hpay.
    assert (recipients ≡ₚ batch_recipients (batches plan) ++ unpaid plan ++ deferred_below_floor plan) as Hperm.
    { eapply plan_batches_perm; [exact Hcoins|apply Hl|apply Hpay|exact Hplan]. }
    by apply (payable_now_sub _ recipients _ _ Hperm). }
  apply wp_bind. eapply (wp_mono _ _ (λ _ w', ledger_inv w' ∧ payable_now w' (batch_recipients (batches plan)))).
  - case_bool; [|by apply wp_ret].
    apply wp_map_err, wp_steps; [done|intros; by eapply rtc_once, step_cycle_broadcasting|].
    intros d rs Hst Hd. split; [done|]. apply (payable_now_grows w6); [done| |done].
    by apply repo_steps_good in Hst as [[] _].
  - intros _ w7 _ [Hw7 Hp7]. destruct Hl as (_ & _ & Hby).
    eapply wp_mono; [apply (wp_for_each _ _ _ (λ rest _ w', Forall (planned_from fr) rest ∧ ledger_inv w' ∧ payable_now w' (batch_recipients rest)))|].
    + intros b rest rep w8 ([Hb Hrest]%Forall_cons & Hw8 & Hp8). eapply wp_mono; [by apply broadcast_batch_wp|]. naive_solver.
    + naive_solver.
    + done.
    + by intros ?? _ (_ & ? & _).
Qed.

(** ** Planning, confirming, reconciling *)

(** A snapshot of a cycle whose rows are rows of the database. *)
Definition snapshot_of w (s : CycleState) : Prop :=
  NoDup (map po_id (cs_payouts s)) ∧ ∀ p, p ∈ cs_payouts s → p ∈ payouts (w_db w).

Lemma list_for_cycle_snapshot w cid c : ledger_inv w →
  snapshot_of w {| cs_cycle := c; cs_payouts := list_for_cycle cid (w_db w) |}.
Proof.
  intros [Hok]. unfold snapshot_of, list_for_cycle. simpl. split.
  - rewrite stable_sort_perm. eapply sublist_NoDup; [apply (ok_payout_ids _ Hok)|].
    apply sublist_map, retain_sublist.
  - intros p. rewrite stable_sort_perm. by intros [? _]%elem_of_retain.
Qed.

Lemma snapshot_fresh w s : ledger_inv w → snapshot_of w s →
  within (sent_total w + sumZ (map po_amount_sompi (pending s))) → fresh_rows w (pending s).
Proof.
  intros Hw [Hnd Hin] Hbud. unfold pending in *. split_and!; [|done|].
  - eapply sublist_NoDup; [exact Hnd|]. apply sublist_map, retain_sublist.
  - intros p [Hp Hs]%elem_of_retain. apply bool_decide_eq_true in Hs. split; [|by eauto].
    intros (l & Hl & (b & -> & Hb)%list_elem_of_fmap)%elem_of_concat.
    apply list_elem_of_fmap in Hl as (r & Hr & Hin').
    destruct (li_recorded _ Hw b r Hb Hin') as (q & Hq & Hqi & _ & Hqs).
    apply Hqs. assert (q = p) as ->; [|done].
    apply (NoDup_map_eq po_id (payouts (w_db w))); [apply (ok_payout_ids _ (li_db _ Hw))|done|by apply Hin|congruence].
Qed.

Lemma wp_audit a1 a2 a3 (Q : unit → World Script → Prop) w : ledger_inv w →
  (∀ rs, ledger_inv (world_db (audit_append a1 a2 a3 (w_db w)) (world_replies rs w)) →
     Q tt (world_db (audit_append a1 a2 a3 (w_db w)) (world_replies rs w))) →
  wp ledger_inv (statement (λ _ d, Ok (audit_append a1 a2 a3 d))) Q w.
Proof.
  intros Hw HQ. apply wp_statement; [exact ledger_inv_suffix|done|].
  intros now d rs Hrs [= <-].
  assert (ledger_inv (world_db (audit_append a1 a2 a3 (w_db w)) (world_replies rs w))); [|auto].
  apply ledger_inv_steps; [done|]. apply rtc_once, step_audit.
Qed.

Lemma resume_or_plan_wp params w : ledger_inv w →
  wp ledger_inv (resume_or_plan_kas_cycle params) (λ s w', ledger_inv w' ∧ snapshot_of w' s) w.
Proof.
  intros Hw. unfold resume_or_plan_kas_cycle, plan_kas_cycle.
  apply wp_bind, wp_map_err, wp_read; [done|]. intros found rs _ Hw1. destruct found as [c|].
  - apply wp_bind, wp_map_err, wp_read; [done|]. intros ps rs2 [= <-] Hw2.
    apply wp_bind, wp_map_err, wp_audit; [done|]. intros rs3 Hw3.
    apply wp_ret; [done|]. split; [done|]. by apply (list_for_cycle_snapshot (world_replies rs2 w)).
  - apply wp_bind, wp_bind, wp_map_err, wp_transact; [exact ledger_inv_suffix|done|].
    intros now cid d rs2 Hrs2 Hd. apply plan_tx_steps in Hd. simpl in Hd.
    assert (Hw2 : ledger_inv (world_db d (world_replies rs2 (world_replies rs w)))) by by apply ledger_inv_steps.
    split; [done|].
    apply wp_bind, wp_map_err, wp_read; [done|]. intros ps rs3 [= <-] Hw3.
    apply wp_bind, wp_map_err, wp_read; [done|]. intros c rs4 _ Hw4.
    apply wp_ret; [done|]. apply wp_bind, wp_map_err, wp_audit; [done|]. intros rs5 Hw5.
    apply wp_ret; [done|]. split; [done|]. by apply (list_for_cycle_snapshot (world_db d w)), ledger_inv_steps.
Qed.

Lemma confirm_cycle_wp cycle w : ledger_inv w → wp ledger_inv (confirm_cycle cycle) (λ _ w', ledger_inv w') w.
Proof.
  intros Hw. unfold confirm_cycle. destruct (in_flight cycle) as [|p0 l]; [by apply wp_ret|].
  apply wp_bind, wp_map_err, wp_node_read; [exact ledger_inv_suffix|done|]. intros _ v rs _ Hw1.
  apply wp_bind, wp_map_err, wp_node_read; [exact ledger_inv_suffix|done|]. intros _ v2 rs2 _ Hw2.
  apply (wp_for_each _ _ _ (λ _ _ w', ledger_inv w')); [|done|done].
  intros p _ rep w3 Hw3. unfold confirm_payout. destruct (po_tx_hash p) as [h|]; [|by apply wp_ret].
  apply wp_bind. eapply (wp_mono _ _ (λ _ w', ledger_inv w')).
  - destruct (po_accepted_daa_score p ≫= u64_try_from), (change_daa _ !! h); try by apply wp_ret.
    by apply wp_map_err, wp_in_mempool; [exact ledger_inv_suffix|..].
  - intros b w4 _ Hw4. destruct (classify_confirmation _); try by apply wp_ret.
    + apply wp_bind, wp_map_err, wp_steps; [done|intros; by eapply rtc_once, step_accepted|].
      intros. by apply wp_ret.
    + apply wp_bind, wp_map_err, wp_steps; [done|intros; by eapply rtc_once, step_confirmed|].
      intros. by apply wp_ret.
Qed.

Lemma reconcile_wp cid w : ledger_inv w → wp ledger_inv (reconcile_cycle_status cid) (λ _ w', ledger_inv w') w.
Proof.
  intros Hw. unfold reconcile_cycle_status. apply wp_bind, wp_map_err, wp_read; [done|]. intros ps rs _ Hw1.
  apply wp_bind, wp_map_err, wp_steps; [done|intros; by eapply reconcile_tx_steps|].
  intros. by apply wp_ret.
Qed.

(** The spend cap of a configuration keeps a tick within the budget. *)
Definition affords (config : PayoutEngineConfig) w : Prop :=
  match budget with
  | None => True
  | Some b => ∃ c, cfg_max_payout_sompi_per_cycle config = Some c ∧ c < i64_max ∧ sent_total w + c ≤ b
  end.

Lemma pending_le_cap s c : Forall (λ p, 0 ≤ po_amount_sompi p) (cs_payouts s) → c < i64_max →
  over_spend_cap (outbound_sompi s) (Some c) = false → sumZ (map po_amount_sompi (pending s)) ≤ c.
Proof.
  intros Hp Hc Hcap. apply Z.ltb_ge in Hcap. unfold outbound_sompi in Hcap.
  set (live := List.filter (λ p, negb (bool_decide (po_status p = Failed))) (cs_payouts s)) in *.
  assert (Hlive : Forall (λ x, 0 ≤ x) (map po_amount_sompi live)).
  { apply List.Forall_map, Forall_forall. intros p [Hin _]%elem_of_retain.
    by apply (proj1 (Forall_forall _ _) Hp). }
  rewrite i64_saturating_fold in Hcap; [|done|mlia].
  assert (sumZ (map po_amount_sompi (pending s)) ≤ sumZ (map po_amount_sompi live)); [|mlia].
  apply sumZ_sublist; [|done]. apply sublist_map, retain_sublist_imp.
  intros p ->%bool_decide_eq_true. done.
Qed.

Lemma snapshot_amounts w s : ledger_inv w → snapshot_of w s → Forall (λ p, 0 ≤ po_amount_sompi p) (cs_payouts s).
Proof.
  intros Hw [_ Hin]. apply Forall_forall. intros p Hp.
  pose proof (proj1 (Forall_forall _ _) (ok_payout_checks _ (li_db _ Hw)) p (Hin p Hp)) as Hc.
  simpl in Hc. unfold payout_check in Hc. bool_hyps. lia.
Qed.

Lemma resume_or_plan_quiet params : quiet (resume_or_plan_kas_cycle (Script:=Script) params).
Proof. unfold resume_or_plan_kas_cycle, plan_kas_cycle. solve_quiet. Qed.

Lemma run_locked_wp config w : ledger_inv w → affords config w →
  wp ledger_inv (run_locked config treasury_script) (λ _ w', ledger_inv w') w.
Proof.
  intros Hw Haff. unfold run_locked.
  apply wp_bind, wp_map_err, wp_node_read; [exact ledger_inv_suffix|done|]. intros _ v rs _ Hw1.
  destruct (cycle_window _ _) as [s e]. apply wp_bind, wp_map_err.
  eapply wp_mono; [apply wp_quiet; [apply resume_or_plan_quiet|by apply resume_or_plan_wp]|].
  intros state w2 _ [[Hw2 Hs] Hsent]. case_bool; [by apply wp_throw|].
  assert (Hbud : within (sent_total w2 + sumZ (map po_amount_sompi (pending state)))).
  { unfold within, affords, sent_total in *. simpl in Hsent. rewrite Hsent. destruct budget as [b|]; [|done].
    destruct Haff as (c & Hc & Hmax & Hle). rewrite Hc in *.
    pose proof (pending_le_cap state c (snapshot_amounts _ _ Hw2 Hs) Hmax ltac:(done)). lia. }
  apply wp_bind, wp_map_err. eapply wp_mono; [apply broadcast_cycle_wp; [done|by apply snapshot_fresh]|].
  intros rep w3 _ Hw3. apply wp_bind, wp_map_err, wp_read; [done|]. intros c rs4 _ Hw4.
  apply wp_bind, wp_map_err, wp_read; [done|]. intros ps rs5 _ Hw5.
  apply wp_bind, wp_map_err. eapply wp_mono; [by apply confirm_cycle_wp|]. intros cf w6 _ Hw6.
  apply wp_bind, wp_map_err. eapply wp_mono; [by apply reconcile_wp|]. intros st w7 _ Hw7.
  by apply wp_ret.
Qed.

Lemma try_acquire_wp w : ledger_inv w →
  wp ledger_inv try_acquire (λ _ w', ledger_inv w' ∧ w_sent w' = w_sent w) w.
Proof.
  intros Hw. unfold wp, try_acquire. destruct (w_replies w) as [|[?? | | ??] rs] eqn:Er; simpl; try done.
  all: pose proof (ledger_inv_suffix w _ rs Er Hw); split; done.
Qed.

Lemma run_once_inv config w : ledger_inv w → affords config w →
  ledger_inv (run_once config treasury_script w).2.
Proof.
  intros Hw Haff. cut (wp ledger_inv (run_once config treasury_script) (λ _ w', ledger_inv w') w); [by intros []|].
  unfold run_once. apply wp_bind, wp_map_err.
  eapply wp_mono; [by apply try_acquire_wp|]. intros [] w1 _ [Hw1 Hs1]; [|by apply wp_ret].
  assert (Hl : ledger_inv (run_locked config treasury_script w1).2).
  { apply run_locked_wp; [done|]. unfold affords, sent_total in *. by rewrite Hs1. }
  apply wp_bind, wp_attempt; [done|]. intros r _.
  set (w2 := (run_locked config treasury_script w1).2) in *. clearbody w2.
  assert (Hq : wp ledger_inv (query (λ _, Ok tt)) (λ _ w', ledger_inv w') w2) by by apply wp_read.
  apply wp_bind, wp_attempt; [apply Hq|]. intros r2 _. destruct Hq as [Hq _].
  by apply wp_lift_result.
Qed.
End safety.

Section system.
Context {Script : Type} `{!MassCalculator Script} `{!Signer Script} `{!SignerOk Script}.
Context (treasury_script : Script).
Implicit Types (w : World Script).

(** ** The system: ticks of the engine among other services *)

(** One step: a leader tick under any configuration and any replies, or any
    change other services make while payout rows evolve. *)
Inductive sys_step w : World Script → Prop :=
| sys_tick config replies : Forall reply_ok replies →
    sys_step w (run_once config treasury_script (world_replies replies w)).2
| sys_other d : db_ok d → grows po_evolves (payouts (w_db w)) (payouts d) → sys_step w (world_db d w).

(** The same steps with the replies of each tick in view. *)
Inductive sys_run w0 : list (list (Reply Script)) → World Script → Prop :=
| run_start : sys_run w0 [] w0
| run_tick ticks w config replies : sys_run w0 ticks w → Forall reply_ok replies →
    sys_run w0 (ticks ++ [replies]) (run_once config treasury_script (world_replies replies w)).2
| run_other ticks w d : sys_run w0 ticks w → db_ok d → grows po_evolves (payouts (w_db w)) (payouts d) →
    sys_run w0 ticks (world_db d w).

Lemma sys_step_run w0 w : rtc sys_step w0 w → ∃ ticks, sys_run w0 ticks w.
Proof.
  revert w. apply (rtc_ind_r (λ w, ∃ ticks, sys_run w0 ticks w) w0).
  { exists []. constructor. }
  intros y z _ [config replies Hok|d Hd Hg] [ticks Hr].
  - eexists. by apply run_tick.
  - eexists. by apply run_other.
Qed.

(** What every run keeps: no reply is owed between ticks, and every transaction sent was justified by the
    replies of one tick. *)
Definition paid_in_ticks (ticks : list (list (Reply Script))) (b : Broadcast Script) : Prop :=
  ∃ replies, replies ∈ ticks ∧ pays_exactly treasury_script replies b.
Abbreviation ledger := (ledger_inv None (λ _, True)).

(** A tick starts with the replies it will be given. *)
Lemma ledger_tick budget (justified : Broadcast Script → Prop) told0 replies w : ledger_inv None justified told0 w → Forall reply_ok replies →
  within budget (sent_total w) → ledger_inv budget justified replies (world_replies replies w).
Proof.
  intros [] Hr Hb. split; simpl; try done. apply Forall_forall. intros r Hin. split; [|done]. by apply (proj1 (Forall_forall _ _) Hr).
Qed.
Lemma ledger_weaken budget (j1 j2 : Broadcast Script → Prop) told w : (∀ b, j1 b → j2 b) → ledger_inv budget j1 told w → ledger_inv budget j2 told w.
Proof. intros Hj []. split; try done. by eapply Forall_impl. Qed.

Lemma sys_run_inv w0 ticks w : ledger_inv None (λ _, False) [] w0 → sys_run w0 ticks w → ∃ told, ledger_inv None (paid_in_ticks ticks) told w.
Proof.
  intros Hw0. induction 1 as [|ticks w config replies _ [told IH] Hr|ticks w d _ [told IH] Hd Hg].
  - exists []. by apply (ledger_weaken _ (λ _, False)).
  - exists replies. apply run_once_inv; [|eapply ledger_tick; [|done..]|done].
    + intros b Hb. exists replies. split; [set_solver|done].
    + eapply ledger_weaken; [|exact IH]. intros b (rs & Hrs & Hb). exists rs. split; [set_solver|done].
  - exists told. by apply ledger_inv_db.
Qed.

Lemma ledger_start w : db_ok (w_db w) → w_sent w = [] → w_replies w = [] → ledger_inv None (λ _, False) [] w.
Proof.
  intros Hd Hs Hr. split; rewrite ?Hs, ?Hr; try done; [unfold sent_ids; rewrite Hs; constructor|].
  by intros b r ?%not_elem_of_nil.
Qed.
Lemma sys_steps_inv w0 w : rtc sys_step w0 w → ledger_inv None (λ _, False) [] w0 → ∃ told, ledger told w.
Proof.
  intros [ticks Hr]%sys_step_run Hw0. destruct (sys_run_inv _ _ _ Hw0 Hr) as [told Hw]. exists told. by eapply ledger_weaken.
Qed.

(** C1: No crash, lost acknowledgement, failed query or rejected broadcast makes the engine pay a payout
    row twice: in every reachable state each row id has been put on the wire at most once, and each
    row put on the wire is recorded with exactly the broadcast amount and is no longer [planned]. *)
Theorem broadcast_at_most_once w0 w :
  db_ok (w_db w0) → w_sent w0 = [] → w_replies w0 = [] → rtc sys_step w0 w →
  NoDup (sent_ids w) ∧ ∀ b r, b ∈ w_sent w → r ∈ bc_payouts b → recorded (w_db w) r.
Proof.
  intros Hd Hs Hr Hst. apply sys_steps_inv in Hst as [told []]; [by split|by apply ledger_start].
Qed.

(** C2: Every transaction the engine has ever put on the wire, however its ticks were interrupted, was
    settled with what the node answered in the tick that sent it: its inputs are coins the node reported
    for the treasury, it pays its recipients their amounts in order, and what its inputs hold beyond that
    is returned to the treasury in at most one output, less exactly the fee that the node's feerate (or
    the relay floor) sets for the signed transaction's mass, with only a dust remainder given up. *)
Theorem broadcast_pays_exactly w0 ticks w :
  db_ok (w_db w0) → w_sent w0 = [] → w_replies w0 = [] → sys_run w0 ticks w →
  ∀ b, b ∈ w_sent w → ∃ replies, replies ∈ ticks ∧ pays_exactly treasury_script replies b.
Proof.
  intros Hd Hs Hr Hst b Hb. destruct (sys_run_inv w0 ticks w) as (told & []); [by apply ledger_start|done|].
  exact (proj1 (Forall_forall _ _) li_pays0 b Hb).
Qed.

(** C17: The spend cap holds: a tick of an engine configured with a per-cycle cap puts at most that many
    sompi on the wire, whatever the ledger, the node and the database answer and wherever it dies. *)
Theorem tick_within_spend_cap w0 w config replies c :
  db_ok (w_db w0) → w_sent w0 = [] → w_replies w0 = [] → rtc sys_step w0 w →
  Forall reply_ok replies → cfg_max_payout_sompi_per_cycle config = Some c → c < i64_max → 0 ≤ c →
  sent_total (run_once config treasury_script (world_replies replies w)).2 ≤ sent_total w + c.
Proof.
  intros Hd Hs Hr Hst Hrep Hc Hmax Hc0. apply sys_steps_inv in Hst as [told Hl]; [|by apply ledger_start].
  apply (li_budget (Some (sent_total w + c)) (λ _, True) replies), run_once_inv; [done| |].
  - eapply ledger_tick; [done|done|]. unfold within. lia.
  - exists c. unfold sent_total. simpl. split_and!; [done|done|lia].
Qed.

Lemma broadcast_batch_dry_quiet fr by_id (batch : PlannedBatch Script) report :
  quiet (broadcast_batch treasury_script DryRun fr by_id batch report).
Proof. unfold broadcast_batch. cbn [is_dry_run]. solve_quiet. Qed.

#[local] Hint Resolve broadcast_batch_dry_quiet resume_or_plan_quiet : quiet.

Lemma broadcast_cycle_dry_quiet cycle : quiet (broadcast_cycle treasury_script cycle DryRun).
Proof.
  unfold broadcast_cycle, load_recipients, load_recipient. solve_quiet.
Qed.
#[local] Hint Resolve broadcast_cycle_dry_quiet : quiet.

Lemma confirm_cycle_quiet cycle : quiet (confirm_cycle (Script:=Script) cycle).
Proof. unfold confirm_cycle, confirm_rows, confirm_payout. solve_quiet. Qed.

Lemma reconcile_quiet cid : quiet (reconcile_cycle_status (Script:=Script) cid).
Proof. unfold reconcile_cycle_status. solve_quiet. Qed.

Lemma try_acquire_quiet : quiet (try_acquire (Script:=Script)).
Proof. intros w. unfold try_acquire. by destruct (w_replies w) as [|[]]. Qed.
#[local] Hint Resolve confirm_cycle_quiet reconcile_quiet try_acquire_quiet : quiet.

(** A dry-run engine never puts a transaction on the wire. *)
Theorem dry_run_never_broadcasts config w :
  cfg_mode config = DryRun → w_sent (run_once config treasury_script w).2 = w_sent w.
Proof.
  intros Hm. revert w. change (quiet (run_once config treasury_script)). unfold run_once, run_locked.
  rewrite Hm. solve_quiet.
Qed.

(** ** Confirmation rests on evidence *)

(** What a row may have become after a confirmation pass over [rows]. *)
Definition advanced_on_evidence (virtual_daa : Z) (chain : gmap Z Z) (rows : list Payout) (q : Payout) : Prop :=
  ∃ p h daa, p ∈ rows ∧ po_id p = po_id q ∧ po_tx_hash p = Some h ∧
    (chain !! h = Some daa ∨ po_accepted_daa_score p = Some daa) ∧
    (po_status q = Accepted ∨
     po_status q = Confirmed ∧ u64_saturating_add daa KAS_PAYOUT_CONFIRMATION_DAA ≤ virtual_daa).

Definition evidence_inv virtual_daa chain rows (d0 : Db) w : Prop :=
  ∀ q, q ∈ payouts (w_db w) → q ∈ payouts d0 ∨ advanced_on_evidence virtual_daa chain rows q.

Lemma classify_evidence v b o r : let s := classify_confirmation {| ci_virtual_daa_score := v;
    ci_in_mempool := b; ci_change_block_daa_score := o; ci_recorded_accept_daa := r |} in
  (s = ConfAccepted → ∃ daa, o = Some daa ∨ r = Some daa) ∧
  (s = ConfConfirmed → ∃ daa, (o = Some daa ∨ r = Some daa) ∧
     u64_saturating_add daa KAS_PAYOUT_CONFIRMATION_DAA ≤ v).
Proof.
  unfold classify_confirmation. simpl. destruct r as [daa|]; [|destruct o as [daa|]]; simpl.
  all: repeat case_bool; split; intros Hs; try done; eauto.
  all: exists daa; split; [auto|lia].
Qed.

Lemma update_payouts_elem p f d d' q : update_payouts p f d = Ok d' → q ∈ payouts d' →
  ∃ q0, q0 ∈ payouts d ∧ q = if p q0 then f q0 else q0.
Proof.
  intros (l & [-> _]%update_checked_Ok & [= <-])%result_bind_Ok. simpl. by intros ?%elem_of_update_where.
Qed.

Lemma confirm_payout_wp v chain rows d0 p report w : p ∈ rows →
  evidence_inv v chain rows d0 w →
  wp (evidence_inv v chain rows d0) (confirm_payout v chain p report)
    (λ _, evidence_inv v chain rows d0) w.
Proof.
  intros Hp Hw. assert (Hsuf : suffix_closed (evidence_inv v chain rows d0)) by by intros ? ? ? _ ?.
  unfold confirm_payout. destruct (po_tx_hash p) as [h|] eqn:Eh; [|by apply wp_ret].
  set (rec := po_accepted_daa_score p ≫= u64_try_from).
  assert (Hrec : ∀ daa, rec = Some daa → po_accepted_daa_score p = Some daa).
  { intros daa (x & Hx & Hd)%bind_Some. apply u64_try_from_Some in Hd as [-> _]. done. }
  apply wp_bind. eapply (wp_mono _ _ (λ _, evidence_inv v chain rows d0)).
  { destruct (chain !! h), rec; try by apply wp_ret. by apply wp_map_err, wp_in_mempool. }
  intros b w1 _ Hw1. destruct (classify_evidence v b (chain !! h) rec) as [Hacc Hconf].
  destruct (classify_confirmation _); try by apply wp_ret.
  - destruct (Hacc eq_refl) as (daa & Hdaa).
    apply wp_bind, wp_map_err, wp_statement; [done..|]. intros now d rs _ Hd.
    assert (evidence_inv v chain rows d0 (world_db d (world_replies rs w1))); [|split; [done|by apply wp_ret]].
    intros q Hq. destruct (update_payouts_elem _ _ _ _ _ Hd Hq) as (q0 & Hq0 & ->).
    case_bool; [right|by apply Hw1]. bool_hyps. exists p, h, daa. simpl. split_and!; [done|lia|done| |by left].
    naive_solver.
  - destruct (Hconf eq_refl) as (daa & Hdaa & Hdepth).
    apply wp_bind, wp_map_err, wp_statement; [done..|]. intros now d rs _ Hd.
    assert (evidence_inv v chain rows d0 (world_db d (world_replies rs w1))); [|split; [done|by apply wp_ret]].
    intros q Hq. destruct (update_payouts_elem _ _ _ _ _ Hd Hq) as (q0 & Hq0 & ->).
    case_bool; [right|by apply Hw1]. bool_hyps. exists p, h, daa. simpl. split_and!; [done|lia|done| |by right].
    naive_solver.
Qed.

(** C16: A confirmation pass changes a row only on a positive chain signal for that row's own
    transaction: an accepting height seen on chain or recorded earlier; a row becomes [confirmed]
    only at depth 100 past that height, and no row ever becomes [failed] or [planned]. *)
Theorem confirmation_needs_evidence virtual_daa chain rows w q :
  q ∈ payouts (w_db (confirm_rows virtual_daa chain rows w).2) →
  q ∈ payouts (w_db w) ∨ advanced_on_evidence virtual_daa chain rows q.
Proof.
  revert q. change (evidence_inv virtual_daa chain rows (w_db w) (confirm_rows virtual_daa chain rows w).2).
  refine (proj1 (wp_for_each (evidence_inv virtual_daa chain rows (w_db w)) rows _
    (λ rest _ w', evidence_inv virtual_daa chain rows (w_db w) w' ∧ ∀ p, p ∈ rest → p ∈ rows) _ w _ _ _)).
  - intros p rest rep w1 [Hw1 Hin]. eapply wp_mono; [apply (confirm_payout_wp _ _ rows); [set_solver|done]|].
    intros ? w2 ? Hw2. split; [done|set_solver].
  - by intros _ w1 [? _].
  - split; [|done]. intros q Hq. by left.
Qed.
End system.
