(* ===== verification/KasDemo.v ===== *)
(** * The KAS engine on a concrete ledger

    A signer and a node for the example ledger of [KasCycle], the witnesses
    of the engine theorems, and a run of two ticks in which the same balance
    is paid twice, once in each of two consecutive windows. *)

From S2P Require Import Prelude Float64 Mass Fee Planner PlannerProps Db.
From S2P Require Import PayoutRepo PayoutSpec Effects KasCycle KasExecute KasSafety.
Import Toy.
Local Open Scope Z_scope.

Module Demo.
#[export] Instance signer : Signer Z := {
  TX_VERSION := 0;
  SUBNETWORK_ID_NATIVE := [];
  script_of_address s :=
    if bool_decide (s = "alice"%string) then Some 1 else if bool_decide (s = "bob"%string) then Some 2 else None;
  treasury_key_valid := true;
  sign_inputs tx _ := tx;
  execute_input _ _ _ := true;
  tx_id tx := 1000 + foldr (λ i acc, transaction_id (previous_outpoint i) + acc) 0 (inputs tx);
}.

#[export] Instance signer_ok : SignerOk Z.
Proof. by split. Qed.

(** The node at a DAA score: mature treasury coins, nothing in the mempool. *)
Definition view (daa : Z) (coins : list (TreasuryUtxo Z)) : NodeView Z :=
  {| nv_virtual_daa_score := daa; nv_treasury_utxos := coins; nv_feerate := f64_of_Z 1;
     nv_in_mempool := λ _, false |}.

Definition config : PayoutEngineConfig :=
  {| cfg_cycle_span_daa := 1000; cfg_threshold_sompi := DEFAULT_KAS_PAYOUT_THRESHOLD_SOMPI;
     cfg_max_payout_sompi_per_cycle := Some 9000000000; cfg_mode := Live |}.
Definition dry : PayoutEngineConfig :=
  {| cfg_cycle_span_daa := 1000; cfg_threshold_sompi := DEFAULT_KAS_PAYOUT_THRESHOLD_SOMPI;
     cfg_max_payout_sompi_per_cycle := None; cfg_mode := DryRun |}.

Definition start : World Z := {| w_db := Sample.ledger; w_sent := []; w_replies := [] |}.

(** Forty interactions, all served. *)
Definition served (now daa : Z) (coins : list (TreasuryUtxo Z)) : list (Reply Z) :=
  replicate 40 (Proceed now (view daa coins)).

Definition tick (config : PayoutEngineConfig) (replies : list (Reply Z)) (w : World Z) : World Z :=
  (run_once config 7 (world_replies replies w)).2.

Definition early := [coin_of 100 6000000000; coin_of 101 9000000000].
(** Later the first payout's change coin is on chain, accepted at DAA 5995. *)
Definition change_coin : TreasuryUtxo Z :=
  {| outpoint := {| transaction_id := 1101; out_index := 2 |};
     entry := {| amount := 999750000; script_public_key := 7; block_daa_score := 5995;
                 is_coinbase := false; covenant_id := None |} |}.
Definition late := [change_coin; coin_of 102 9000000000].

(** One tick ten DAA before the window [5000, 6000) ends, one just after. *)
Definition after_one : World Z := tick config (served 100 5990 early) start.
Definition after_two : World Z := tick config (served 200 6010 late) after_one.

(** What the network was asked to pay a script. *)
Definition paid_to (script : Z) (w : World Z) : Z :=
  sumZ (map amount_sompi (List.filter (λ r, recipient_script r =? script) (concat (map bc_payouts (w_sent w))))).
End Demo.
Import Demo.

Lemma demo_replies_ok now daa coins : coins_ok coins → Forall reply_ok (Demo.served now daa coins).
Proof. intros Hc. apply Forall_replicate. exact Hc. Qed.

Lemma demo_early_ok : coins_ok Demo.early.
Proof. split; by_computation. Qed.
Lemma demo_late_ok : coins_ok Demo.late.
Proof. split; by_computation. Qed.

Lemma demo_steps : rtc (sys_step 7) Demo.start Demo.after_one.
Proof. apply rtc_once, sys_tick, demo_replies_ok, demo_early_ok. Qed.

Lemma broadcast_at_most_once_witness :
  NoDup (sent_ids Demo.after_one) ∧ sent_ids Demo.after_one = [1; 2].
Proof.
  split; [|vm_compute; reflexivity].
  exact (proj1 (broadcast_at_most_once 7 Demo.start Demo.after_one sample_ledger_ok eq_refl eq_refl demo_steps)).
Defined.

Lemma kas_demo_run : sys_run 7 Demo.start [Demo.served 100 5990 Demo.early] Demo.after_one.
Proof. apply (run_tick 7 Demo.start [] Demo.start Demo.config), demo_replies_ok, demo_early_ok. constructor. Qed.

(** The transaction of the example returns 999,750,000 sompi of its 9,000,000,000 to the treasury. *)
Lemma broadcast_pays_exactly_witness :
  ∃ b, w_sent Demo.after_one = [b] ∧ map value (outputs (bc_tx b)) = [5000000000; 3000000000; 999750000] ∧
  ∃ replies, replies ∈ [Demo.served 100 5990 Demo.early] ∧ pays_exactly 7 replies b.
Proof.
  eexists. split; [vm_compute; reflexivity|]. split; [vm_compute; reflexivity|].
  apply (broadcast_pays_exactly 7 Demo.start [Demo.served 100 5990 Demo.early] Demo.after_one sample_ledger_ok eq_refl eq_refl kas_demo_run).
  vm_compute. left.
Defined.

Lemma tick_within_spend_cap_witness :
  sent_total Demo.after_one = 8000000000 ∧
  sent_total Demo.after_two ≤ sent_total Demo.after_one + 9000000000.
Proof.
  split; [vm_compute; reflexivity|].
  refine (tick_within_spend_cap 7 Demo.start Demo.after_one Demo.config (Demo.served 200 6010 Demo.late)
            9000000000 sample_ledger_ok eq_refl eq_refl demo_steps _ eq_refl _ _).
  - apply demo_replies_ok, demo_late_ok.
  - reflexivity.
  - by_computation.
Defined.

Lemma dry_run_never_broadcasts_witness :
  w_sent (Demo.tick Demo.dry (Demo.served 100 5990 Demo.early) Demo.start) = [] ∧
  length (payouts (w_db (Demo.tick Demo.dry (Demo.served 100 5990 Demo.early) Demo.start))) = 2%nat.
Proof.
  split; [|vm_compute; reflexivity].
  exact (dry_run_never_broadcasts 7 Demo.dry
           (world_replies (Demo.served 100 5990 Demo.early) Demo.start) eq_refl).
Defined.

(** The change coin of the first tick confirms its rows at DAA 6095, not before. *)
Definition unconfirmed : World Z := world_replies (Demo.served 300 6095 Demo.late) Demo.after_one.

Definition confirmed_row : Payout :=
  po_with Confirmed (Some 1101) None None (Some 100) (Some 300) None None (new_payout 1 1 1 5000000000 100).

Lemma confirmed_row_present : confirmed_row ∈
  payouts (w_db (confirm_rows 6095 (change_daa Demo.late) (payouts (w_db unconfirmed)) unconfirmed).2).
Proof. vm_compute. apply list_elem_of_In. left. reflexivity. Qed.

Lemma confirmation_needs_evidence_witness :
  confirmed_row ∈ payouts (w_db unconfirmed) ∨
  advanced_on_evidence 6095 (change_daa Demo.late) (payouts (w_db unconfirmed)) confirmed_row.
Proof.
  exact (confirmation_needs_evidence 6095 (change_daa Demo.late) (payouts (w_db unconfirmed)) unconfirmed
           confirmed_row confirmed_row_present).
Defined.

(** The window rollover pays a balance twice: with a span the engine accepts, a tick late in one
    window broadcasts alice's whole balance, and the first tick of the next window plans and
    broadcasts it again although the first payment is on chain, because only confirmed payouts
    reduce a balance and only the current window's cycle is ever confirmed. *)
Theorem window_rollover_pays_twice :
  engine_new Demo.config = Ok Demo.config ∧ allocated 1 Sample.ledger = 5000000000 ∧
  w_db Demo.start = Sample.ledger ∧
  sent_ids Demo.after_two = [1; 2; 3; 4] ∧ Demo.paid_to 1 Demo.after_two = 10000000000.
Proof. vm_compute. split_and!; reflexivity. Qed.
