(* ===== verification/ConsolidateEngine.v ===== *)
(** * The treasury consolidation engine

    payout-kas/src/consolidate/engine.rs and the snapshot insert of
    crates/katpool-db/src/repo/treasury.rs: lock, snapshot, plan, sign,
    broadcast.  The flag [campaign] lives in memory across ticks.  The tick's
    timeout abandons the locked section at one of its awaits: every point
    where the replies run out is such a point. *)

From S2P Require Import Prelude Float64 Mass Fee Planner PlannerProps Consolidation.
From S2P Require Import Db PayoutRepo PayoutSpec Effects KasCycle KasExecute KasSafety KasDemo.
Import Toy Demo.
Local Open Scope Z_scope.

(** ** treasury.rs *)

Definition snapshot_check (s : TreasurySnapshot) : bool :=
  (0 <=? ts_kas_balance_sompi s) && (0 <=? ts_nacho_balance s) && (0 <=? ts_daa_score s) && (0 <=? ts_blue_score s) &&
  match ts_utxo_count s with None => true | Some n => 0 <=? n end.

Definition insert_snapshot (kas_balance_sompi utxo_count daa_score : Z) (notes : option string) (now : Z) (d : Db)
    : result DbError (Z * Db) :=
  let row := {| ts_id := next_id ts_id (treasury_snapshots d); ts_captured_at := now;
                ts_kas_balance_sompi := kas_balance_sompi; ts_nacho_balance := 0; ts_daa_score := daa_score;
                ts_blue_score := 0; ts_notes := notes; ts_utxo_count := Some utxo_count |} in
  if snapshot_check row then Ok (ts_id row, set_treasury_snapshots (treasury_snapshots d ++ [row]) d)
  else Err Constraint.

(** ** engine.rs *)

Definition CONSOLIDATION_AUDIT_ACTOR : string := "treasury-consolidation".

Inductive ConsolidationError := COErrDb (e : DbError) | COErrExecute (e : ExecuteError) | COErrKaspad (e : KaspadError).

Record ConsolidationEngineConfig := {
  co_mode : ExecutionMode; co_trigger_utxo_count : nat; co_target_utxo_count : nat;
  co_max_inputs_per_tx : nat; co_max_txs_per_tick : nat }.

Record ConsolidationTickReport := {
  ct_virtual_daa : Z; ct_spendable_utxos : nat; ct_spendable_balance_sompi : Z; ct_snapshot_id : Z;
  ct_below_ceiling : bool; ct_campaign_active : bool; ct_planned_batches : nat;
  ct_submitted_txids : list Hash; ct_submit_errors : list Hash }.

Inductive ConsolidationTickOutcome := COSkippedNotLeader | CORan (r : ConsolidationTickReport).

Definition clamp_i64 (value : Z) : Z := default i64_max (i64_try_from value).
Definition clamp_i32 (value : nat) : Z := Z.min (Z.of_nat value) i32_max.

(** The hysteresis. *)
Definition campaign_next (config : ConsolidationEngineConfig) (spendable_utxos : nat) (campaign : bool) : bool :=
  if (co_trigger_utxo_count config <? spendable_utxos)%nat then true
  else if (spendable_utxos <=? co_target_utxo_count config)%nat then false
  else campaign.

Definition with_submitted (t : Hash) (r : ConsolidationTickReport) : ConsolidationTickReport :=
  {| ct_virtual_daa := ct_virtual_daa r; ct_spendable_utxos := ct_spendable_utxos r;
     ct_spendable_balance_sompi := ct_spendable_balance_sompi r; ct_snapshot_id := ct_snapshot_id r;
     ct_below_ceiling := ct_below_ceiling r; ct_campaign_active := ct_campaign_active r;
     ct_planned_batches := ct_planned_batches r; ct_submitted_txids := ct_submitted_txids r ++ [t];
     ct_submit_errors := ct_submit_errors r |}.
Definition with_error (t : Hash) (r : ConsolidationTickReport) : ConsolidationTickReport :=
  {| ct_virtual_daa := ct_virtual_daa r; ct_spendable_utxos := ct_spendable_utxos r;
     ct_spendable_balance_sompi := ct_spendable_balance_sompi r; ct_snapshot_id := ct_snapshot_id r;
     ct_below_ceiling := ct_below_ceiling r; ct_campaign_active := ct_campaign_active r;
     ct_planned_batches := ct_planned_batches r; ct_submitted_txids := ct_submitted_txids r;
     ct_submit_errors := ct_submit_errors r ++ [t] |}.

Section engine.
Context {Script : Type} `{!MassCalculator Script} `{!Signer Script}.
Variable treasury_script : Script.

(** What the tick reads before it decides. *)
Definition consolidation_observe (config : ConsolidationEngineConfig)
    : M Script ConsolidationError (Z * list (TreasuryUtxo Script) * Z * Z) :=
  virtual_daa ← map_err COErrKaspad virtual_daa_score;
  protected ← map_err COErrDb (query (λ d, Ok (in_flight_spend_tx_hashes d)));
  snapshots ← map_err COErrKaspad treasury_utxos;
  let utxos := spendable_utxos virtual_daa protected snapshots in
  balance ← lift_exec (sum_u64 (map coin utxos));
  let note := if is_dry_run (co_mode config) then "consolidation tick (dry-run)"%string else "consolidation tick"%string in
  snapshot_id ← map_err COErrDb (transact (insert_snapshot (clamp_i64 balance) (clamp_i32 (length utxos))
                                             (clamp_i64 virtual_daa) (Some note)));
  mret (virtual_daa, utxos, clamp_i64 balance, snapshot_id).

(** One planned merge: sign, then broadcast; the audit entry is best effort. *)
Definition consolidate_batch (config : ConsolidationEngineConfig) (fee_rate : FeeRate) (snapshot_id : Z)
    (batch : PlannedBatch Script) (report : ConsolidationTickReport) : M Script ConsolidationError ConsolidationTickReport :=
  r ← lift_exec (sign_batch_with_exact_fee batch treasury_script fee_rate);
  signed ← lift_result (match r with Ok s => Ok s | Err e => Err (COErrExecute e) end);
  if is_dry_run (co_mode config) then mret (with_submitted (txid signed) report)
  else
    sent ← attempt (submit_transaction {| bc_payouts := batch_payouts batch; bc_tx := sb_tx signed |});
    match sent with
    | Ok _ =>
        _ ← attempt (statement (λ _ d, Ok (audit_append CONSOLIDATION_AUDIT_ACTOR "treasury.consolidate"
                                             (Some ("treasury_snapshot"%string, snapshot_id)) d)));
        mret (with_submitted (txid signed) report)
    | Err _ => mret (with_error (txid signed) report)
    end.

Definition consolidation_sweep (config : ConsolidationEngineConfig) (utxos : list (TreasuryUtxo Script))
    (snapshot_id : Z) (report : ConsolidationTickReport) : M Script ConsolidationError ConsolidationTickOutcome :=
  estimate ← attempt fee_estimate_sompi_per_gram;
  let fee_rate := match estimate with
                  | Ok feerate => from_feerate feerate
                  | Err _ => from_feerate f64_zero
                  end in
  batches ← lift_exec (plan_consolidation utxos treasury_script fee_rate
                         (co_max_inputs_per_tx config) (co_max_txs_per_tick config));
  let report := {| ct_virtual_daa := ct_virtual_daa report; ct_spendable_utxos := ct_spendable_utxos report;
                   ct_spendable_balance_sompi := ct_spendable_balance_sompi report;
                   ct_snapshot_id := ct_snapshot_id report; ct_below_ceiling := ct_below_ceiling report;
                   ct_campaign_active := ct_campaign_active report; ct_planned_batches := length batches;
                   ct_submitted_txids := []; ct_submit_errors := [] |} in
  report ← for_each batches report (consolidate_batch config fee_rate snapshot_id);
  mret (CORan report).

(** The locked section; the second component is the flag afterwards. *)
Definition consolidation_run_locked {E} (config : ConsolidationEngineConfig) (campaign : bool)
    : M Script E (result ConsolidationError ConsolidationTickOutcome * bool) :=
  observed ← attempt (consolidation_observe config);
  match observed with
  | Err e => mret (Err e, campaign)
  | Ok (virtual_daa, utxos, balance, snapshot_id) =>
      let campaign := campaign_next config (length utxos) campaign in
      let report := {| ct_virtual_daa := virtual_daa; ct_spendable_utxos := length utxos;
                       ct_spendable_balance_sompi := balance; ct_snapshot_id := snapshot_id;
                       ct_below_ceiling := negb campaign; ct_campaign_active := campaign; ct_planned_batches := 0;
                       ct_submitted_txids := []; ct_submit_errors := [] |} in
      if negb campaign then mret (Ok (CORan report), campaign)
      else
        r ← attempt (consolidation_sweep config utxos snapshot_id report);
        mret (r, campaign)
  end.

(** The bounded wait for the lock: [polls] attempts fit before the deadline. *)
Fixpoint consolidation_lock (polls : nat) : M Script DbError bool :=
  leader ← try_acquire;
  if (leader : bool) then mret true
  else match polls with
       | O => mret false
       | S polls => consolidation_lock polls
       end.

Definition consolidation_run_once (config : ConsolidationEngineConfig) (campaign : bool) (polls : nat)
    : M Script ConsolidationError (result ConsolidationError ConsolidationTickOutcome * bool) :=
  leader ← map_err COErrDb (consolidation_lock polls);
  if (leader : bool) then
    outcome ← consolidation_run_locked config campaign;
    _ ← attempt (query (λ _, Ok tt));
    mret outcome
  else mret (Ok COSkippedNotLeader, campaign).
End engine.

(** ** What a tick may do *)

Section safety.
Context {Script : Type} `{!MassCalculator Script} `{!Signer Script} `{!SignerOk Script}.
Context (treasury_script : Script).
Implicit Types (w : World Script) (u : TreasuryUtxo Script).

(** [b] merges [coins] into at most one treasury output of no more than their value. *)
Definition merges (b : Broadcast Script) (coins : list (TreasuryUtxo Script)) : Prop :=
  bc_payouts b = [] ∧ map previous_outpoint (inputs (bc_tx b)) = map outpoint coins ∧
  (outputs (bc_tx b) = [] ∨ ∃ v, 0 < v ≤ sumZ (map coin coins) ∧
     outputs (bc_tx b) = [{| value := v; out_script := treasury_script |}]).

Lemma sign_batch_merges batch s : sign_batch batch treasury_script = Ok s → batch_payouts batch = [] →
  change_amount_sompi batch ≤ sumZ (map coin (batch_inputs batch)) →
  merges {| bc_payouts := batch_payouts batch; bc_tx := sb_tx s |} (batch_inputs batch).
Proof.
  intros ([tx es] & Hb & H)%result_bind_Ok Hp Hc. case_bool_in H; [|done].
  apply result_bind_Ok in H as (_ & _ & [= <-]). unfold build_unsigned in Hb.
  destruct (batch_inputs batch) as [|u0 us] eqn:Ein; [done|]. case_bool_in Hb; [done|]. injection Hb as <- <-.
  unfold merges. simpl. rewrite sign_outputs, sign_outpoints, Hp. simpl. split_and!; [done| |].
  - f_equal. by rewrite map_map.
  - destruct (Z.ltb_spec 0 (change_amount_sompi batch)); [right|by left]. eexists. split; [|done]. simpl in *. lia.
Qed.

Lemma sign_exact_merges batch fr s : sign_batch_with_exact_fee batch treasury_script fr = Ret (Ok s) →
  batch_payouts batch = [] → change_amount_sompi batch = sumZ (map coin (batch_inputs batch)) →
  coins_ok (batch_inputs batch) →
  merges {| bc_payouts := batch_payouts batch; bc_tx := sb_tx s |} (batch_inputs batch).
Proof.
  unfold sign_batch_with_exact_fee. intros H Hp Hc Hok. destruct (sign_batch batch _) as [s0|e] eqn:E0; [|done].
  apply sign_batch_merges in E0; [|done|lia]. case_bool_in H; [by simplify_eq|].
  destruct (evaluate_populated _ _) as [m|]; [|done].
  apply exec_bind_Ret in H as (i & Hi & H). apply exec_bind_Ret in H as (o & Ho & H).
  apply sum_u64_inv in Hi as [-> _]; [|apply List.Forall_map, Hok].
  rewrite Hp in Ho. injection Ho as <-.
  destruct (u64_checked_sub _ 0 ≫= _) as [ch|] eqn:Ech; [|by simplify_eq].
  assert (Hch : ch ≤ sumZ (map coin (batch_inputs batch))).
  { apply bind_Some in Ech as (rem & H1 & H2). unfold u64_checked_sub in *. pose proof (fee_for_nonneg fr m).
    case_bool_in H1; [|done]. case_bool_in H2; [|done]. simplify_eq. lia. }
  case_bool_in H; [by simplify_eq|].
  destruct (sign_batch {| batch_inputs := _ |} _) eqn:Es; [|done]. simplify_eq.
  apply sign_batch_merges in Es; [done|done|]. simpl. case_bool; [|done].
  apply sumZ_nonneg, List.Forall_map, Hok.
Qed.

(** A snapshot of the treasury is solvent in u64 and lists each outpoint once. *)
Definition snapshot_reply (r : Reply Script) : Prop :=
  match r with
  | Proceed _ v | Lost _ v => coins_ok (nv_treasury_utxos v) ∧ NoDup (map outpoint (nv_treasury_utxos v))
  | Refuse => True
  end.

(** Only the audit log and the snapshot table moved. *)
Definition bookkeeping_only (d d' : Db) : Prop :=
  ∃ a s, d' = set_treasury_snapshots s (set_audit_log a d).

(** Real coins, each once, none from a transaction an unsettled payout waits on. *)
Definition free_coins (d : Db) (us : list (TreasuryUtxo Script)) : Prop :=
  NoDup (map outpoint us) ∧
  Forall (λ u, is_planning_virtual u = false ∧ transaction_id (outpoint u) ∉ in_flight_spend_tx_hashes d) us.

(** Since [w0] only merges were sent, and their coins and the reserved [rest] are free. *)
Definition swept (w0 : World Script) (rest : list (TreasuryUtxo Script)) w : Prop :=
  Forall snapshot_reply (w_replies w) ∧ bookkeeping_only (w_db w0) (w_db w) ∧
  ∃ ms : list (Broadcast Script * list (TreasuryUtxo Script)),
    w_sent w = w_sent w0 ++ map fst ms ∧ Forall (λ m, merges m.1 m.2) ms ∧
    free_coins (w_db w0) (concat (map snd ms) ++ rest).

Lemma free_coins_sublist d us us' : sublist us us' → free_coins d us' → free_coins d us.
Proof.
  intros Hs [Hn Hf]. split; [eapply sublist_NoDup; [exact Hn|by apply sublist_map]|].
  rewrite Forall_forall in *. intros u Hu. apply Hf. by eapply sublist_subseteq.
Qed.

(** [l'] is a sublist of [l] up to order. *)
Definition sublist_perm {A} (l' l : list A) : Prop := ∃ r, sublist l' r ∧ r ≡ₚ l.

Lemma swept_drop w0 rest w : swept w0 rest w → swept w0 [] w.
Proof.
  intros (? & ? & ms & ? & ? & Hf). split_and!; [done..|]. exists ms. split_and!; [done..|].
  eapply free_coins_sublist, Hf. apply sublist_app; [done|apply sublist_nil_l].
Qed.

Lemma swept_suffix w0 rest : suffix_closed (swept w0 rest).
Proof.
  intros w r rs Hr (Hs & ? & ?). rewrite Hr in Hs. apply Forall_cons in Hs as [_ Hs]. by split_and!.
Qed.

Lemma swept_db w0 rest w d : swept w0 rest w → bookkeeping_only (w_db w) d → swept w0 rest (world_db d w).
Proof.
  intros (? & (a & s & Hd) & ?) (a' & s' & ->). split_and!; [done| |done]. simpl. rewrite Hd. by exists a', s'.
Qed.

Lemma swept_send w0 b coins rest w :
  swept w0 (coins ++ rest) w → merges b coins → swept w0 rest (world_send b w).
Proof.
  intros (? & ? & ms & Hs & Hm & Hf) Hb. split_and!; [done..|]. exists (ms ++ [(b, coins)]).
  rewrite !map_app, concat_app. simpl. rewrite app_nil_r, Hs, <- !app_assoc. split_and!; [done| |done].
  apply Forall_app. split; [done|]. by constructor.
Qed.

Lemma consolidate_batch_swept config fr sid batch rest report w0 w :
  merge_ok treasury_script fr (co_max_inputs_per_tx config) batch → coins_ok (batch_inputs batch) →
  swept w0 (batch_inputs batch ++ rest) w →
  wp (swept w0 []) (consolidate_batch treasury_script config fr sid batch report) (λ _, swept w0 rest) w.
Proof.
  intros Hm Hc Hw. pose proof (swept_drop _ _ _ Hw) as Hw'. unfold consolidate_batch.
  apply wp_bind, wp_lift_exec; [done|]. intros r Hr.
  apply wp_bind, wp_lift_result; [done|]. intros signed Hs. destruct r as [s|e]; [|done]. injection Hs as <-.
  apply sign_exact_merges in Hr; [|apply Hm|apply Hm|done].
  assert (Hrest : swept w0 rest w).
  { destruct Hw as (? & ? & ms & ? & ? & Hf). split_and!; [done..|]. exists ms. split_and!; [done..|].
    eapply free_coins_sublist, Hf. apply sublist_app; [done|]. by apply sublist_inserts_l. }
  case_bool; [by apply wp_ret|].
  eapply wp_weaken; [|intros ?; apply (swept_drop w0 rest)].
  apply wp_bind, wp_submit; [apply swept_suffix|done|]. intros rs Hrs.
  assert (Hsent : swept w0 rest (world_send {| bc_payouts := batch_payouts batch; bc_tx := sb_tx s |} (world_replies rs w))).
  { eapply swept_send; [|exact Hr]. destruct Hw as (? & ? & ?), Hrs as (? & ? & ?). by split_and!. }
  split; [done|]. split; [|by apply wp_ret].
  intros [[]|e]; [|by apply wp_ret]. apply wp_bind. eapply (wp_attempt_keeps _ _ (λ _ _, True)).
  - apply wp_statement; [apply swept_suffix|done|]. intros now d rs' Hd [= <-]. split; [|done].
    apply swept_db; [done|]. by eexists _, _.
  - intros r w' Hw2. by apply wp_ret.
Qed.

Lemma swept_narrow w0 rest rest' w : sublist_perm rest' rest → swept w0 rest w → swept w0 rest' w.
Proof.
  intros (r & Hs & Hp) (? & ? & ms & ? & ? & Hf). split_and!; [done..|]. exists ms. split_and!; [done..|].
  eapply (free_coins_sublist _ _ (concat (map snd ms) ++ r)); [by apply sublist_app|].
  destruct Hf as [Hn Hf]. split; [by rewrite Hp|by rewrite Hp].
Qed.

Lemma consolidation_sweep_swept config utxos sid report w0 w :
  coins_ok utxos → swept w0 (retain (λ u, negb (is_planning_virtual u)) utxos) w →
  wp (swept w0 []) (consolidation_sweep treasury_script config utxos sid report) (λ _ _, True) w.
Proof.
  intros Hc Hw. unfold consolidation_sweep. set (R := retain _ utxos) in *.
  eapply wp_weaken; [|intros ?; apply (swept_drop w0 [])]. apply wp_bind.
  eapply wp_weaken; [|intros ?; apply (swept_drop w0 R)].
  eapply (wp_attempt_keeps _ _ (λ _ _, True)).
  { apply wp_node_read; [apply swept_suffix|done|done]. }
  intros est w1 Hw1. set (fr := match est with Ok _ => _ | Err _ => _ end).
  destruct (plan_consolidation_spec utxos treasury_script fr (co_max_inputs_per_tx config) (co_max_txs_per_tick config) Hc)
    as (bs & -> & Hbs & _ & Hsub).
  apply wp_bind, wp_ret; [by eapply swept_drop|]. apply wp_bind. eapply wp_mono; [|intros; by apply wp_ret].
  apply (wp_for_each _ _ _ (λ bs _ w, Forall (λ b, merge_ok treasury_script fr (co_max_inputs_per_tx config) b
    ∧ coins_ok (batch_inputs b)) bs ∧ swept w0 (concat (map batch_inputs bs)) w)).
  - intros b l r w' [[[Hm Hcb] Hl]%Forall_cons Hsw]. eapply wp_mono; [by apply (consolidate_batch_swept _ _ _ _ (concat (map batch_inputs l)))|].
    intros a w2 _ H. by split.
  - intros ? ? [_ H]. exact H.
  - split; [|eapply swept_narrow, Hw1; eexists; split; [exact Hsub|apply stable_sort_perm]].
    rewrite Forall_forall in *. intros b Hb. split; [by apply Hbs|].
    apply (coins_ok_sublist _ (sort_utxos_asc R)).
    + etrans; [|exact Hsub]. apply list_elem_of_split in Hb as (b1 & b2 & ->).
      rewrite map_app, concat_app. simpl. by apply sublist_inserts_l, sublist_inserts_r.
    + unfold sort_utxos_asc. rewrite stable_sort_perm. by eapply coins_ok_sublist; [apply retain_sublist|].
Qed.

Lemma swept_start w rest : Forall snapshot_reply (w_replies w) → free_coins (w_db w) rest → swept w rest w.
Proof.
  intros Hr Hf. split_and!; [done|exists (audit_log (w_db w)), (treasury_snapshots (w_db w)); by destruct (w_db w)|].
  exists []. rewrite app_nil_r. by split_and!.
Qed.

Lemma spendable_free d daa (snaps : list (TreasuryUtxo Script)) : NoDup (map outpoint snaps) →
  free_coins d (retain (λ u, negb (is_planning_virtual u)) (spendable_utxos daa (in_flight_spend_tx_hashes d) snaps)).
Proof.
  intros Hn. split.
  - eapply sublist_NoDup; [exact Hn|]. apply sublist_map.
    etrans; [apply retain_sublist|]. etrans; apply retain_sublist.
  - apply Forall_forall. intros u [[_ Hp]%elem_of_retain Hv]%elem_of_retain.
    apply negb_true_iff in Hv. apply negb_true_iff, bool_decide_eq_false in Hp. done.
Qed.

Lemma insert_snapshot_bookkeeping bal n daa note now d sid d' :
  insert_snapshot bal n daa note now d = Ok (sid, d') → bookkeeping_only d d'.
Proof. unfold insert_snapshot. case_bool; [|done]. intros [= _ <-]. by eexists (audit_log d), _; destruct d. Qed.

Lemma consolidation_observe_swept config w : Forall snapshot_reply (w_replies w) →
  wp (swept w []) (consolidation_observe (Script:=Script) config)
    (λ o w', coins_ok o.1.1.2 ∧ swept w (retain (λ u, negb (is_planning_virtual u)) o.1.1.2) w') w.
Proof.
  intros Hr. assert (Hw : swept w [] w) by (apply swept_start; [done|split; constructor]).
  unfold consolidation_observe.
  apply wp_bind, wp_map_err, wp_node_read; [apply swept_suffix|done|]. intros n1 v1 rs1 _ Hw1.
  apply wp_bind, wp_map_err, wp_query; [apply swept_suffix|done|]. intros prot rs2 Hw2 [= <-].
  apply wp_bind, wp_map_err, wp_node_read; [apply swept_suffix|done|]. intros n3 v3 rs3 E3 Hw3.
  assert (snapshot_reply (Proceed n3 v3)) as [Hc Hn].
  { destruct Hw2 as [Hs _]. rewrite E3 in Hs. by apply Forall_cons in Hs as [? _]. }
  apply wp_bind, wp_lift_exec; [done|]. intros bal _.
  apply wp_bind, wp_map_err, wp_transact; [apply swept_suffix|done|]. intros now sid d rs4 Hw4 Hi.
  apply insert_snapshot_bookkeeping in Hi. simpl in Hi. split; [by apply swept_db|].
  apply wp_ret; [by apply swept_db|]. simpl. split; [by apply spendable_ok|].
  destruct Hw4 as (Hs4 & _). split_and!; [done..|]. exists []. rewrite app_nil_r.
  split_and!; [done|constructor|by apply spendable_free].
Qed.

Lemma consolidation_run_locked_swept {E} config campaign w : Forall snapshot_reply (w_replies w) →
  wp (swept w []) (consolidation_run_locked (E:=E) treasury_script config campaign) (λ _ _, True) w.
Proof.
  intros Hr. unfold consolidation_run_locked. apply wp_bind.
  eapply wp_attempt_both; [by apply consolidation_observe_swept| |].
  - intros [[[daa us] bal] sid] w1 Hw1 [Hc Hs]. case_bool; [by apply wp_ret|].
    apply wp_bind. eapply wp_attempt_keeps; [by apply consolidation_sweep_swept|]. intros r w2 Hw2. by apply wp_ret.
  - intros e w1 Hw1. by apply wp_ret.
Qed.

(** [w'] is [w] later on, with nothing done but waiting. *)
Definition waited w w' : Prop :=
  w_db w' = w_db w ∧ w_sent w' = w_sent w ∧ Forall snapshot_reply (w_replies w').

Lemma waited_suffix w : suffix_closed (waited w).
Proof. intros w' r rs Er (? & ? & Hr). rewrite Er in Hr. apply Forall_cons in Hr as [_ Hr]. by split_and!. Qed.

Lemma consolidation_lock_waits polls w w1 : waited w w1 →
  wp (waited w) (consolidation_lock (Script:=Script) polls) (λ _, waited w) w1.
Proof.
  revert w1. induction polls as [|polls IH]; intros w1 Hw; simpl.
  all: apply wp_bind; unfold wp at 1, try_acquire; destruct (w_replies w1) as [|r rs] eqn:Er; [by split|].
  all: pose proof (waited_suffix w w1 r rs Er Hw) as Hrs; destruct r; simpl; split; try done.
  all: intros ? [= <-]; try (by apply wp_ret). by apply IH.
Qed.

Lemma swept_rebase w w1 rest w' : waited w w1 → swept w1 rest w' → swept w rest w'.
Proof. intros (Hd & Hs & _) (? & ? & ms & ? & ? & ?). rewrite Hd, Hs in *. split_and!; [done..|]. by exists ms. Qed.

Lemma waited_swept w w1 : waited w w1 → swept w [] w1.
Proof. intros Hw. eapply swept_rebase; [exact Hw|]. apply swept_start; [apply Hw|split; constructor]. Qed.

Lemma consolidation_run_once_swept config campaign polls w : Forall snapshot_reply (w_replies w) →
  swept w [] (consolidation_run_once treasury_script config campaign polls w).2.
Proof.
  intros Hr. enough (wp (swept w []) (consolidation_run_once treasury_script config campaign polls) (λ _ _, True) w)
    as H by apply H.
  apply wp_bind, wp_map_err. eapply wp_weaken; [|apply waited_swept].
  eapply wp_mono; [by apply consolidation_lock_waits|]. intros [] w1 _ Hw1; [|apply wp_ret; [by apply waited_swept|done]].
  apply wp_bind. eapply wp_weaken; [|intros ?; by apply swept_rebase].
  eapply wp_mono; [apply consolidation_run_locked_swept, Hw1|]. intros r w2 Hw2 _.
  apply wp_bind. eapply (wp_attempt_keeps _ _ (λ _ _, True)).
  { apply wp_query; [apply swept_suffix|by eapply swept_rebase|done]. }
  intros ? w3 Hw3. by apply wp_ret.
Qed.

Lemma consolidation_dry_run_quiet config campaign polls : is_dry_run (co_mode config) = true →
  quiet (consolidation_run_once treasury_script config campaign polls).
Proof.
  intros Hd. unfold consolidation_run_once, consolidation_run_locked, consolidation_sweep, consolidate_batch. rewrite Hd.
  assert (quiet (consolidation_lock (Script:=Script) polls)).
  { assert (quiet (try_acquire (Script:=Script))).
    { intros w. unfold try_acquire. by destruct (w_replies w) as [|[] ?]. }
    induction polls; simpl; apply quiet_bind; try done; intros []; try apply quiet_ret; done. }
  solve_quiet; done.
Qed.

(** C18: A consolidation tick, however it is interrupted, sends only merges: no
    payout, at most one output, back to the treasury and worth no more than
    the coins spent.  Over the whole tick every coin is spent once, and none
    that an unsettled payout waits on.  The database changes in the audit log
    and the snapshot table only; a dry run sends nothing. *)
Theorem consolidation_tick_safe config campaign polls w w' :
  Forall snapshot_reply (w_replies w) →
  w' = (consolidation_run_once treasury_script config campaign polls w).2 →
  bookkeeping_only (w_db w) (w_db w') ∧
  (is_dry_run (co_mode config) = true → w_sent w' = w_sent w) ∧
  ∃ ms : list (Broadcast Script * list (TreasuryUtxo Script)),
    w_sent w' = w_sent w ++ map fst ms ∧ Forall (λ m, merges m.1 m.2) ms ∧
    free_coins (w_db w) (concat (map snd ms)).
Proof.
  intros Hr ->. destruct (consolidation_run_once_swept config campaign polls w Hr) as (_ & Hb & ms & Hs & Hm & Hf).
  rewrite app_nil_r in Hf. split_and!; [done| |by exists ms]. intros Hd. by apply consolidation_dry_run_quiet.
Qed.
End safety.

Module Merge.
Definition config : ConsolidationEngineConfig :=
  {| co_mode := Live; co_trigger_utxo_count := 1; co_target_utxo_count := 1; co_max_inputs_per_tx := 10;
     co_max_txs_per_tick := 2 |}.
Definition start : World Z := world_replies (Demo.served 100 5990 Demo.early) Demo.start.
Definition after : World Z := (consolidation_run_once 7 config false 0 start).2.
End Merge.

(** Two coins, merged by one transaction. *)
Lemma consolidation_tick_safe_witness :
  bookkeeping_only (w_db Merge.start) (w_db Merge.after) ∧
  (length (w_sent Merge.after), length (treasury_snapshots (w_db Merge.after))) = (1%nat, 1%nat).
Proof.
  split; [|vm_compute; reflexivity].
  refine (proj1 (consolidation_tick_safe 7 Merge.config false 0 Merge.start Merge.after _ eq_refl)).
  apply Forall_replicate. split; [exact demo_early_ok|by_computation].
Defined.
