(* ===== verification/FeeModel.v ===== *)
(** * The pool fee model: accountant/src/config.rs *)

From Stdlib Require Import Ascii.
From S2P Require Import Prelude Float64 Mass Db PayoutRepo PayoutSpec.
Local Open Scope Z_scope.

Definition MAX_TOPLINE_BPS : Z := 1000.
Definition STANDARD_REBATE_BPS : Z := 3300.
Definition ELITE_REBATE_BPS : Z := 10000.
Definition DEFAULT_TOPLINE_BPS : Z := 75.

(** [FeeConfig] has one private field, so a value exists only through [FeeConfig_new]. *)
Record FeeConfig := { topline_bps : Z }.

(** [AccountantError::Config]; its text is left out. *)
Inductive ConfigError := ConfigInvalid.

Definition FeeConfig_new (topline : Z) : option FeeConfig :=
  if MAX_TOPLINE_BPS <? topline then None else Some {| topline_bps := topline |}.

(** [str::parse::<u16>]: an optional plus sign, then at least one ASCII digit, in range. *)
Definition digit_of (c : ascii) : option Z :=
  let n := Z.of_N (N_of_ascii c) in
  if (48 <=? n) && (n <=? 57) then Some (n - 48) else None.

Fixpoint parse_digits (max acc : Z) (s : string) : option Z :=
  match s with
  | EmptyString => Some acc
  | String c s =>
      d ← digit_of c;
      let acc' := 10 * acc + d in
      if acc' <=? max then parse_digits max acc' s else None
  end.

Definition parse_unsigned (max : Z) (s : string) : option Z :=
  match s with
  | EmptyString => None
  | String c r =>
      if Ascii.eqb c "+" then
        match r with EmptyString => None | _ => parse_digits max 0 r end
      else parse_digits max 0 s
  end.

Definition parse_bps (raw : string) : result ConfigError Z :=
  match parse_unsigned u16_max raw with Some n => Ok n | None => Err ConfigInvalid end.

(** [std::env::VarError]. *)
Inductive VarError := NotPresent | NotUnicode.

(** [FeeConfig::from_lookup]; [from_env] is this with [std::env::var]. *)
Definition from_lookup (lookup : result VarError string) : result ConfigError FeeConfig :=
  topline ← match lookup with
            | Ok s => parse_bps s
            | Err NotPresent => Ok DEFAULT_TOPLINE_BPS
            | Err NotUnicode => Err ConfigInvalid
            end;
  match FeeConfig_new topline with Some c => Ok c | None => Err ConfigInvalid end.

Definition rebate_bps (tier : WalletTier) : Z :=
  match tier with Standard => STANDARD_REBATE_BPS | Elite => ELITE_REBATE_BPS end.

Record Allocation := {
  al_gross_sompi : Z; al_pool_fee_sompi : Z; al_nacho_accrual_sompi : Z; al_net_payout_sompi : Z;
  al_applied_topline_bps : Z; al_applied_rebate_bps : Z; al_applied_tier : WalletTier;
}.

Inductive AllocationError :=
| NegativeGross (gross_sompi : Z)
| Overflow (stage : string)
| Unbalanced (a : Allocation).

(** [Allocation::is_balanced]; the additions are Rust's [+] on [i64]. *)
Definition is_balanced (a : Allocation) : exec bool :=
  s ← i64_add (al_pool_fee_sompi a) (al_nacho_accrual_sompi a);
  s ← i64_add s (al_net_payout_sompi a);
  Ret (al_gross_sompi a =? s).

(** [i64] division truncates toward zero. *)
Definition compute_allocation (c : FeeConfig) (gross_sompi : Z) (tier : WalletTier)
    : exec (result AllocationError Allocation) :=
  if gross_sompi <? 0 then Ret (Err (NegativeGross gross_sompi))
  else
    match i64_checked_mul gross_sompi (topline_bps c) with
    | None => Ret (Err (Overflow "fee_share"))
    | Some m1 =>
        let fee_share := Z.quot m1 10000 in
        match i64_checked_mul fee_share (rebate_bps tier) with
        | None => Ret (Err (Overflow "nacho_accrual"))
        | Some m2 =>
            let nacho_accrual := Z.quot m2 10000 in
            pool_fee ← i64_add fee_share (- nacho_accrual);
            net_payout ← i64_add gross_sompi (- fee_share);
            let allocation := {| al_gross_sompi := gross_sompi; al_pool_fee_sompi := pool_fee;
              al_nacho_accrual_sompi := nacho_accrual; al_net_payout_sompi := net_payout;
              al_applied_topline_bps := topline_bps c; al_applied_rebate_bps := rebate_bps tier;
              al_applied_tier := tier |} in
            balanced ← is_balanced allocation;
            if (balanced : bool) then Ret (Ok allocation) else Ret (Err (Unbalanced allocation))
        end
    end.

(** ** Facts *)

(** A configuration that passed [FeeConfig_new]. *)
Definition fee_ok (c : FeeConfig) : Prop := 0 ≤ topline_bps c ≤ MAX_TOPLINE_BPS.

Lemma parse_digits_range max acc s n : 0 ≤ acc ≤ max → parse_digits max acc s = Some n → 0 ≤ n ≤ max.
Proof.
  revert acc. induction s as [|ch s IH]; intros acc Ha; simpl; [by intros [= <-]|].
  intros (d & Hd & H)%bind_Some. case_bool_in H; [|done]. apply IH in H; [done|].
  unfold digit_of in Hd. case_bool_in Hd; [|done]. bool_hyps. simplify_eq. lia.
Qed.

Lemma parse_unsigned_range max s n : 0 ≤ max → parse_unsigned max s = Some n → 0 ≤ n ≤ max.
Proof.
  intros Hm. unfold parse_unsigned. destruct s as [|ch r]; [done|].
  case_bool; [destruct r; [done|]|]; apply parse_digits_range; lia.
Qed.

Lemma i64_add_in a b : in_i64 (a + b) → i64_add a b = Ret (a + b).
Proof. intros [H1 H2]. unfold i64_add. by rewrite (proj2 (Z.leb_le _ _) H1), (proj2 (Z.leb_le _ _) H2). Qed.

Lemma i64_checked_mul_in a b : in_i64 (a * b) → i64_checked_mul a b = Some (a * b).
Proof. intros [H1 H2]. unfold i64_checked_mul. by rewrite (proj2 (Z.leb_le _ _) H1), (proj2 (Z.leb_le _ _) H2). Qed.

Lemma rebate_range tier : 0 ≤ rebate_bps tier ≤ 10000.
Proof. by destruct tier. Qed.

(** The two truncated products. *)
Definition fee_share_of (c : FeeConfig) (gross : Z) : Z := (gross * topline_bps c) `div` 10000.
Definition nacho_of (c : FeeConfig) (gross : Z) (tier : WalletTier) : Z :=
  (fee_share_of c gross * rebate_bps tier) `div` 10000.

Lemma fee_share_range c gross : fee_ok c → 0 ≤ gross → 0 ≤ fee_share_of c gross ∧ 10 * fee_share_of c gross ≤ gross.
Proof.
  unfold fee_ok, MAX_TOPLINE_BPS, fee_share_of. intros Hc Hg. split; [apply Z.div_pos; nia|].
  pose proof (Z.mul_div_le (gross * topline_bps c) 10000). nia.
Qed.

Lemma nacho_range c gross tier : fee_ok c → 0 ≤ gross →
  0 ≤ nacho_of c gross tier ≤ fee_share_of c gross.
Proof.
  intros Hc Hg. destruct (fee_share_range c gross Hc Hg) as [Hf _]. pose proof (rebate_range tier).
  unfold nacho_of. split; [apply Z.div_pos; nia|].
  pose proof (Z.mul_div_le (fee_share_of c gross * rebate_bps tier) 10000). nia.
Qed.

(** The whole function: the closed form when neither product overflows. *)
Lemma compute_allocation_ok c gross tier : fee_ok c → 0 ≤ gross → in_i64 (gross * topline_bps c) →
  in_i64 (fee_share_of c gross * rebate_bps tier) → gross ≤ i64_max →
  compute_allocation c gross tier = Ret (Ok {| al_gross_sompi := gross;
    al_pool_fee_sompi := fee_share_of c gross - nacho_of c gross tier;
    al_nacho_accrual_sompi := nacho_of c gross tier;
    al_net_payout_sompi := gross - fee_share_of c gross;
    al_applied_topline_bps := topline_bps c; al_applied_rebate_bps := rebate_bps tier;
    al_applied_tier := tier |}).
Proof.
  intros Hc Hg H1 H2 Hm. pose proof (fee_share_range c gross Hc Hg) as [Hf Hf'].
  pose proof (nacho_range c gross tier Hc Hg) as Hn. pose proof (rebate_range tier).
  unfold compute_allocation. rewrite (proj2 (Z.ltb_ge _ _) Hg), (i64_checked_mul_in _ _ H1).
  unfold fee_ok in Hc. rewrite Z.quot_div_nonneg by nia. fold (fee_share_of c gross).
  rewrite (i64_checked_mul_in _ _ H2), Z.quot_div_nonneg by nia. fold (nacho_of c gross tier).
  cbv zeta. change (fee_share_of c gross * rebate_bps tier `div` 10000) with (nacho_of c gross tier).
  rewrite !i64_add_in by mlia. cbn [mbind exec_bind].
  unfold is_balanced. simpl.
  rewrite (i64_add_in (fee_share_of c gross + - nacho_of c gross tier)) by mlia. simpl.
  rewrite i64_add_in by mlia. simpl.
  rewrite (proj2 (Z.eqb_eq _ _)) by lia. done.
Qed.

(** What a successful split guarantees. *)
Definition split_ok (gross : Z) (a : Allocation) : Prop :=
  0 ≤ gross ∧ al_gross_sompi a = gross ∧
  gross = al_pool_fee_sompi a + al_nacho_accrual_sompi a + al_net_payout_sompi a ∧
  0 ≤ al_pool_fee_sompi a ∧ 0 ≤ al_nacho_accrual_sompi a ∧ 0 ≤ al_net_payout_sompi a.

Lemma compute_allocation_inv c gross tier a : fee_ok c → gross ≤ i64_max →
  compute_allocation c gross tier = Ret (Ok a) → split_ok gross a.
Proof.
  intros Hc Hm H. assert (0 ≤ gross) as Hpos.
  { unfold compute_allocation in H. case_bool_in H; [done|lia]. }
  pose proof (fee_share_range c gross Hc Hpos) as [Hf Hf'].
  pose proof (nacho_range c gross tier Hc Hpos) as Hn. pose proof (rebate_range tier). pose proof Hc as Hc'.
  unfold fee_ok in Hc'.
  assert (in_i64 (gross * topline_bps c) ∧ in_i64 (fee_share_of c gross * rebate_bps tier)) as [H1 H2].
  { unfold compute_allocation in H. rewrite (proj2 (Z.ltb_ge _ _) Hpos) in H.
    destruct (i64_checked_mul gross (topline_bps c)) as [m1|] eqn:E1; [|done].
    apply i64_checked_mul_Some in E1 as [-> ?]. split; [done|].
    rewrite Z.quot_div_nonneg in H by nia. fold (fee_share_of c gross) in H.
    destruct (i64_checked_mul (fee_share_of c gross) (rebate_bps tier)) eqn:E2; [|done].
    by apply i64_checked_mul_Some in E2 as [-> ?]. }
  rewrite compute_allocation_ok in H by done. simplify_eq. unfold split_ok. simpl. lia.
Qed.

(** Every sompi of a share is accounted for: for any gross the split never aborts; a negative gross
    and an overflowing product are reported, and otherwise pool fee, NACHO accrual and net payout are
    non-negative and add up to the gross exactly, the fee never exceeds a tenth of it, and an
    [Elite] wallet pays no fee at all. *)
Theorem compute_allocation_spec c gross tier : fee_ok c → in_i64 gross →
  (gross < 0 ∧ compute_allocation c gross tier = Ret (Err (NegativeGross gross))) ∨
  (0 ≤ gross ∧ (i64_max < gross * topline_bps c ∨ i64_max < fee_share_of c gross * rebate_bps tier) ∧
     ∃ stage, compute_allocation c gross tier = Ret (Err (Overflow stage))) ∨
  (0 ≤ gross ∧ ∃ a, compute_allocation c gross tier = Ret (Ok a) ∧
     al_gross_sompi a = gross ∧
     gross = al_pool_fee_sompi a + al_nacho_accrual_sompi a + al_net_payout_sompi a ∧
     0 ≤ al_pool_fee_sompi a ∧ 0 ≤ al_nacho_accrual_sompi a ∧ 0 ≤ al_net_payout_sompi a ∧
     10 * (al_pool_fee_sompi a + al_nacho_accrual_sompi a) ≤ gross ∧
     (tier = Elite → al_pool_fee_sompi a = 0)).
Proof.
  intros Hc Hg. destruct (Z.ltb_spec gross 0) as [Hneg|Hpos].
  { left. split; [done|]. unfold compute_allocation. by rewrite (proj2 (Z.ltb_lt _ _) Hneg). }
  right. pose proof (fee_share_range c gross Hc Hpos) as [Hf Hf'].
  pose proof (nacho_range c gross tier Hc Hpos) as Hn. pose proof (rebate_range tier).
  unfold fee_ok in *.
  destruct (decide (gross * topline_bps c ≤ i64_max)) as [H1|H1]; [|left].
  2:{ split_and!; [done|left; lia|]. exists "fee_share"%string. unfold compute_allocation, i64_checked_mul.
      rewrite (proj2 (Z.ltb_ge _ _) Hpos), (proj2 (Z.leb_gt (gross * topline_bps c) _)) by lia.
      by rewrite andb_false_r. }
  assert (in_i64 (gross * topline_bps c)) as H1' by (unfold in_i64, i64_min; nia).
  destruct (decide (fee_share_of c gross * rebate_bps tier ≤ i64_max)) as [H2|H2]; [right|left].
  - split; [done|]. eexists. split; [apply compute_allocation_ok; try done|].
    + unfold in_i64, i64_min. nia.
    + apply Hg.
    + simpl. split_and!; try lia. intros ->. unfold nacho_of. simpl. unfold ELITE_REBATE_BPS.
      rewrite Z.div_mul; lia.
  - split_and!; [done|right; lia|]. exists "nacho_accrual"%string. unfold compute_allocation.
    rewrite (proj2 (Z.ltb_ge _ _) Hpos), (i64_checked_mul_in _ _ H1'), Z.quot_div_nonneg by nia.
    fold (fee_share_of c gross). unfold i64_checked_mul.
    rewrite (proj2 (Z.leb_gt (fee_share_of c gross * rebate_bps tier) _)) by lia. by rewrite andb_false_r.
Qed.

Lemma compute_allocation_spec_witness :
  ∃ a, compute_allocation {| topline_bps := 75 |} 1000000 Standard = Ret (Ok a) ∧
    1000000 = al_pool_fee_sompi a + al_nacho_accrual_sompi a + al_net_payout_sompi a ∧
    al_net_payout_sompi a = 992500.
Proof.
  destruct (compute_allocation_spec {| topline_bps := 75 |} 1000000 Standard)
    as [[H _]|[(_ & [H|H] & _)|(_ & a & Ha & _ & Hs & _)]].
  - split; by_computation.
  - split; by_computation.
  - exfalso. vm_compute in H. discriminate.
  - exfalso. vm_compute in H. discriminate.
  - exfalso. vm_compute in H. discriminate.
  - exists a. split_and!; [exact Ha|exact Hs|]. vm_compute in Ha. injection Ha as <-. reflexivity.
Defined.

(** A share of 2^58 sompi, a tenth of the KAS supply, is refused with an overflow error at the
    default fee although it is not negative. *)
Theorem compute_allocation_overflows_within_supply :
  compute_allocation {| topline_bps := DEFAULT_TOPLINE_BPS |} (2 ^ 58) Standard = Ret (Err (Overflow "fee_share")).
Proof. vm_compute. reflexivity. Qed.

(** ** The operator's setting *)

Lemma digit_of_char n : (n < 10)%N → digit_of (pretty_N_char n) = Some (Z.of_N n).
Proof.
  intros Hn.
  assert (n = 0 ∨ n = 1 ∨ n = 2 ∨ n = 3 ∨ n = 4 ∨ n = 5 ∨ n = 6 ∨ n = 7 ∨ n = 8 ∨ n = 9)%N by lia.
  destruct_or!; subst; reflexivity.
Qed.

(** Parsing undoes printing, digit by digit, and notices overflow. *)
Lemma parse_pretty_go max x s : (0 < x)%N →
  parse_digits max 0 (pretty_N_go x s) = if Z.of_N x <=? max then parse_digits max (Z.of_N x) s else None.
Proof.
  revert s. induction (N.lt_wf_0 x) as [x _ IH]. intros s Hx. rewrite pretty_N_go_step by done.
  assert (Hlt : (x mod 10 < 10)%N) by (by apply N.mod_lt).
  assert (Hdm : Z.of_N x = 10 * Z.of_N (x / 10) + Z.of_N (x mod 10)).
  { rewrite (N.div_mod x 10) at 1 by done. lia. }
  assert (Hdiv : (x / 10 < x)%N) by (by apply N.div_lt). specialize (IH _ Hdiv).
  set (q := (x / 10)%N) in *. set (r := (x mod 10)%N) in *. clearbody q r.
  assert (Hstep : parse_digits max (Z.of_N q) (String (pretty_N_char r) s)
                  = if Z.of_N x <=? max then parse_digits max (Z.of_N x) s else None).
  { simpl. rewrite digit_of_char by done. simpl. by rewrite <- Hdm. }
  destruct (decide (q = 0)%N) as [->|Hnz].
  - rewrite pretty_N_go_0. exact Hstep.
  - rewrite IH by lia. destruct (Z.leb_spec (Z.of_N q) max) as [Hq|Hq]; [done|].
    rewrite (proj2 (Z.leb_gt _ _)) by lia. done.
Qed.

Lemma pretty_N_go_nonempty x s : s ≠ EmptyString → pretty_N_go x s ≠ EmptyString.
Proof.
  revert s. induction (N.lt_wf_0 x) as [x _ IH]. intros s Hs. destruct (decide (0 < x)%N).
  - rewrite pretty_N_go_step by done. apply IH; [by apply N.div_lt|done].
  - assert (x = 0%N) as -> by lia. by rewrite pretty_N_go_0.
Qed.

Lemma parse_pretty max n : 0 ≤ n → 0 ≤ max →
  parse_unsigned max (show_u64 n) = if n <=? max then Some n else None.
Proof.
  intros Hn Hm. pose proof (show_u64_digits n) as Hd.
  assert (Hp : parse_digits max 0 (show_u64 n) = (if n <=? max then Some n else None)
               ∧ show_u64 n ≠ EmptyString).
  { unfold show_u64, pretty, pretty_N. case_decide as Hz.
    - assert (n = 0) as -> by lia. split; [|done]. simpl. by destruct max.
    - split.
      + rewrite parse_pretty_go by lia. rewrite Z2N.id by done. done.
      + rewrite pretty_N_go_step by lia. by apply pretty_N_go_nonempty. }
  destruct Hp as [Hp Hne]. unfold parse_unsigned. destruct (show_u64 n) as [|ch r]; [done|].
  destruct (Ascii.eqb_spec ch "+"%char) as [->|_]; [|done].
  destruct Hd as [Hd%digit_cases _]. set_solver.
Qed.

(** The operator's topline setting: every printed value up to 1,000 basis points is accepted as
    itself, every larger one is refused, and whatever text is accepted yields a fee in range. *)
Theorem from_lookup_spec :
  (∀ n, 0 ≤ n ≤ MAX_TOPLINE_BPS → from_lookup (Ok (show_u64 n)) = Ok {| topline_bps := n |}) ∧
  (∀ n, MAX_TOPLINE_BPS < n → from_lookup (Ok (show_u64 n)) = Err ConfigInvalid) ∧
  (∀ raw c, from_lookup raw = Ok c → fee_ok c).
Proof.
  split_and!.
  - intros n Hn. unfold from_lookup, parse_bps, MAX_TOPLINE_BPS in *. rewrite parse_pretty by mlia.
    rewrite (proj2 (Z.leb_le _ _)) by mlia. simpl. unfold FeeConfig_new, MAX_TOPLINE_BPS.
    by rewrite (proj2 (Z.ltb_ge _ _)) by lia.
  - intros n Hn. unfold from_lookup, parse_bps, MAX_TOPLINE_BPS in *. rewrite parse_pretty by mlia.
    case_bool; [|done]. simpl. unfold FeeConfig_new, MAX_TOPLINE_BPS. by rewrite (proj2 (Z.ltb_lt _ _)).
  - intros raw c (t & Ht & H)%result_bind_Ok. unfold FeeConfig_new in H. case_bool_in H; [done|].
    injection H as <-. unfold fee_ok. simpl. assert (0 ≤ t); [|lia].
    destruct raw as [s|[]]; [|by injection Ht as <-|done]. unfold parse_bps in Ht.
    destruct (parse_unsigned u16_max s) eqn:Ep; [|done]. injection Ht as <-.
    apply parse_unsigned_range in Ep; [lia|mlia].
Qed.
