(* ===== verification/Domain.v ===== *)
(** * Validated domain values (crates/katpool-domain)

    address.rs and worker.rs.  A Rust [String] is its UTF-8 bytes;
    every byte of a multi-byte character is above 127, so the ASCII tests of
    the source reject it at its first byte as they reject the character. *)

From Stdlib Require Import Ascii.
From S2P Require Import Prelude Db.
Local Open Scope Z_scope.

Definition byte_of (c : ascii) : Z := Z.of_N (N_of_ascii c).
Definition in_range (lo hi : ascii) (c : ascii) : bool :=
  (byte_of lo <=? byte_of c) && (byte_of c <=? byte_of hi).

Definition is_ascii_lowercase : ascii → bool := in_range "a" "z".
Definition is_ascii_uppercase : ascii → bool := in_range "A" "Z".
Definition is_ascii_digit : ascii → bool := in_range "0" "9".
Definition is_ascii_alphanumeric (c : ascii) : bool :=
  is_ascii_lowercase c || is_ascii_uppercase c || is_ascii_digit c.

Fixpoint chars (s : string) : list ascii :=
  match s with EmptyString => [] | String c s => c :: chars s end.

(** [str::strip_prefix]. *)
Fixpoint strip_prefix (p s : string) : option string :=
  match p, s with
  | EmptyString, _ => Some s
  | String a p, String b s => if Ascii.eqb a b then strip_prefix p s else None
  | _, EmptyString => None
  end.

(** ** address.rs *)

Definition MIN_TOTAL_LEN : nat := 14.
Definition MAX_TOTAL_LEN : nat := 96.

Inductive AddressError :=
| InvalidPrefix
| AddressTooShort (len : nat)
| AddressTooLong (len : nat)
| AddressInvalidCharacter (ch : ascii).

Definition WalletAddress_new (s : string) : result AddressError string :=
  match (match strip_prefix "kaspa:" s with
         | Some rest => Some rest
         | None => strip_prefix "kaspatest:" s
         end) with
  | None => Err InvalidPrefix
  | Some body =>
      if Nat.ltb (String.length s) MIN_TOTAL_LEN then Err (AddressTooShort (String.length s))
      else if Nat.ltb MAX_TOTAL_LEN (String.length s) then Err (AddressTooLong (String.length s))
      else match List.find (λ ch, negb (is_ascii_lowercase ch || is_ascii_digit ch)) (chars body) with
           | Some ch => Err (AddressInvalidCharacter ch)
           | None => Ok s
           end
  end.

(** ** worker.rs *)

Definition WORKER_MAX_LEN : nat := 64.

Inductive WorkerNameError :=
| WorkerEmpty
| WorkerTooLong (len : nat)
| WorkerInvalidCharacter (ch : ascii).

Definition is_safe_worker_char (ch : ascii) : bool :=
  is_ascii_alphanumeric ch || bool_decide (ch ∈ ["_"; "-"; "."; "#"; "@"; ":"; "+"; "/"; "\"]%char).

Definition WorkerName_new (s : string) : result WorkerNameError string :=
  if Nat.eqb (String.length s) 0 then Err WorkerEmpty
  else if Nat.ltb WORKER_MAX_LEN (String.length s) then Err (WorkerTooLong (String.length s))
  else match List.find (λ ch, negb (is_safe_worker_char ch)) (chars s) with
       | Some ch => Err (WorkerInvalidCharacter ch)
       | None => Ok s
       end.

(** ** Facts *)

Lemma length_chars s : length (chars s) = String.length s.
Proof. induction s; simpl; auto. Qed.

Lemma chars_app s t : chars (s +:+ t) = chars s ++ chars t.
Proof. induction s as [|c s IH]; simpl; [done|]. by rewrite IH. Qed.

Lemma strip_prefix_Some p s r : strip_prefix p s = Some r ↔ s = p +:+ r.
Proof.
  revert s. induction p as [|a p IH]; intros s; simpl; [split; [by intros [= ->]|by intros ->]|].
  destruct s as [|b s]; [split; discriminate|]. destruct (Ascii.eqb_spec a b) as [->|Hne].
  - rewrite IH. split; [by intros ->|by intros [= ->]].
  - split; [done|]. by intros [= <- _].
Qed.

Lemma find_None_all {A} (p : A → bool) l : List.find p l = None ↔ Forall (λ x, p x = false) l.
Proof.
  split.
  - intros H. apply Forall_forall. intros x Hx%list_elem_of_In. by apply (find_none _ _ H).
  - induction 1 as [|x l Hx Hl IH]; simpl; [done|]. by rewrite Hx.
Qed.

(** The body behind either network prefix. *)
Lemma address_body s body :
  (match strip_prefix "kaspa:" s with Some r => Some r | None => strip_prefix "kaspatest:" s end) = Some body
  ↔ s = "kaspa:" +:+ body ∨ s = "kaspatest:" +:+ body.
Proof.
  rewrite <- !strip_prefix_Some. destruct (strip_prefix "kaspa:" s) as [r|] eqn:E; [|naive_solver].
  apply strip_prefix_Some in E as ->. split; [naive_solver|].
  intros [H|H]; [done|]. by apply strip_prefix_Some in H.
Qed.

Lemma address_chars body :
  List.find (λ ch, negb (is_ascii_lowercase ch || is_ascii_digit ch)) (chars body) = None ↔
  Forall (λ c, is_ascii_lowercase c || is_ascii_digit c = true) (chars body).
Proof.
  rewrite find_None_all. split; intros H; apply (Forall_impl _ _ _ H); intros c; by rewrite negb_false_iff.
Qed.

(** Accepted addresses are exactly the strings with a Kaspa network prefix, a lower-case
    alphanumeric body and a total length from 14 to 96, and they are kept verbatim. *)
Theorem WalletAddress_new_spec s t : WalletAddress_new s = Ok t ↔
  t = s ∧ (14 ≤ String.length s ≤ 96)%nat ∧
  ∃ body, (s = "kaspa:" +:+ body ∨ s = "kaspatest:" +:+ body) ∧
    Forall (λ c, is_ascii_lowercase c || is_ascii_digit c = true) (chars body).
Proof.
  setoid_rewrite <- address_body. setoid_rewrite <- address_chars.
  unfold WalletAddress_new, MIN_TOTAL_LEN, MAX_TOTAL_LEN.
  destruct (match strip_prefix "kaspa:" s with Some r => Some r | None => strip_prefix "kaspatest:" s end)
    as [body|]; [|by split; [|intros (_ & _ & ? & ? & _)]].
  destruct (Nat.ltb_spec (String.length s) 14); [split; [done|intros (_ & ? & _); lia]|].
  destruct (Nat.ltb_spec 96 (String.length s)); [split; [done|intros (_ & ? & _); lia]|].
  destruct (List.find _ _) eqn:E; split.
  - done.
  - intros (_ & _ & b & [= <-] & ?). congruence.
  - intros [= <-]. split_and!; [done|lia|lia|eauto].
  - by intros (-> & _).
Qed.

(** Accepted worker names are exactly the non-empty strings of at most 64 safe characters, so a
    control character, quote, space or non-ASCII byte never reaches a log line or a metric label. *)
Theorem WorkerName_new_spec s t : WorkerName_new s = Ok t ↔
  t = s ∧ (1 ≤ String.length s ≤ 64)%nat ∧ Forall (λ c, is_safe_worker_char c = true) (chars s).
Proof.
  assert (Hc : List.find (λ ch, negb (is_safe_worker_char ch)) (chars s) = None ↔
               Forall (λ c, is_safe_worker_char c = true) (chars s)).
  { rewrite find_None_all. split; intros H; apply (Forall_impl _ _ _ H); intros c; by rewrite negb_false_iff. }
  rewrite <- Hc. unfold WorkerName_new, WORKER_MAX_LEN.
  destruct (Nat.eqb_spec (String.length s) 0); [split; [done|intros (_ & ? & _); lia]|].
  destruct (Nat.ltb_spec 64 (String.length s)); [split; [done|intros (_ & ? & _); lia]|].
  destruct (List.find _ _) eqn:E; split.
  - done.
  - intros (_ & _ & ?). congruence.
  - intros [= <-]. split_and!; [done|lia|lia|done].
  - by intros (-> & _).
Qed.
