(* ===== verification/Events.v ===== *)
(** * Domain values the bridge and the accountant exchange

    crates/katpool-domain: hexadecimal text, [BlockHash] (hash.rs),
    [DaaScore] (score.rs), [PoolEvent] and [ShareRejectReason] (events.rs),
    the address redactor (redact.rs).  Bytes are integers in [0, 256);
    strings are byte strings.  [hex::decode_to_slice] comes from the crate
    [hex]: it is a parameter with the crate's documented behaviour. *)

From Stdlib Require Import Ascii.
From S2P Require Import Prelude Float64 Db Domain.
Local Open Scope Z_scope.

(** ** Hexadecimal text *)

Definition is_byte (b : Z) : Prop := 0 ≤ b < 256.

(** The characters of [{:x}]. *)
Definition hex_digit (n : Z) : ascii := ascii_of_N (Z.to_N (if n <? 10 then 48 + n else 87 + n)).

(** [char::to_digit(16)]. *)
Definition to_digit16 (c : ascii) : option Z :=
  if is_ascii_digit c then Some (byte_of c - 48)
  else if in_range "a" "f" c then Some (byte_of c - 87)
  else if in_range "A" "F" c then Some (byte_of c - 55)
  else None.

(** [{:02x}] for each byte. *)
Fixpoint hex_encode (bs : list Z) : string :=
  match bs with
  | [] => EmptyString
  | b :: bs => String (hex_digit (b / 16)) (String (hex_digit (b mod 16)) (hex_encode bs))
  end.

(** Two digits of either case per byte. *)
Fixpoint hex_pairs (s : string) : option (list Z) :=
  match s with
  | EmptyString => Some []
  | String a (String b s) =>
      h ← to_digit16 a; l ← to_digit16 b; bs ← hex_pairs s; Some (16 * h + l :: bs)
  | _ => None
  end.

Lemma to_digit16_hex_digit n : 0 ≤ n < 16 → to_digit16 (hex_digit n) = Some n.
Proof.
  intros Hn. assert (n ∈ seqZ 0 16) as Hin by (apply elem_of_seqZ; lia). clear Hn. revert n Hin.
  apply Forall_forall. by_computation.
Qed.

Lemma to_digit16_range c n : to_digit16 c = Some n → 0 ≤ n < 16.
Proof.
  unfold to_digit16, is_ascii_digit, in_range. intros H. repeat case_bool_in H; simplify_eq.
  all: bool_hyps; change (byte_of "0") with 48 in *; change (byte_of "9") with 57 in *;
    change (byte_of "a") with 97 in *; change (byte_of "f") with 102 in *;
    change (byte_of "A") with 65 in *; change (byte_of "F") with 70 in *; lia.
Qed.

Lemma hex_pairs_encode bs : Forall is_byte bs → hex_pairs (hex_encode bs) = Some bs.
Proof.
  induction 1 as [|b bs Hb _ IH]; [done|]. unfold is_byte in Hb. simpl.
  assert (0 ≤ b / 16 < 16) by (split; [apply Z.div_pos; lia|apply Z.div_lt_upper_bound; lia]).
  pose proof (Z.mod_pos_bound b 16 eq_refl). rewrite !to_digit16_hex_digit by done.
  simpl. rewrite IH. simpl. do 2 f_equal. pose proof (Z.div_mod b 16). lia.
Qed.

Lemma hex_pairs_bytes s bs : hex_pairs s = Some bs → Forall is_byte bs ∧ String.length s = (2 * length bs)%nat.
Proof.
  revert s. induction bs as [|b bs IH]; intros [|a [|c s]] H; simpl in H; try done.
  - by apply bind_Some in H as (h & _ & (l & _ & (? & _ & ?)%bind_Some)%bind_Some).
  - apply bind_Some in H as (h & Hh & (l & Hl & (bs' & Hs & [= <- <-])%bind_Some)%bind_Some).
    apply to_digit16_range in Hh, Hl. apply IH in Hs as [? ?]. split; [|simpl; lia].
    constructor; [unfold is_byte; lia|done].
Qed.

Lemma length_hex_encode bs : String.length (hex_encode bs) = (2 * length bs)%nat.
Proof. induction bs as [|b bs IH]; simpl; lia. Qed.

Lemma hex_encode_app b1 b2 : hex_encode (b1 ++ b2) = hex_encode b1 +:+ hex_encode b2.
Proof. induction b1 as [|b b1 IH]; simpl; [done|]. by rewrite IH. Qed.

Lemma hex_encode_inj b1 b2 : Forall is_byte b1 → Forall is_byte b2 → hex_encode b1 = hex_encode b2 → b1 = b2.
Proof.
  intros H1 H2 E. apply (f_equal hex_pairs) in E. rewrite !hex_pairs_encode in E by done. by injection E.
Qed.

(** [str::to_ascii_lowercase]. *)
Definition ascii_lower (c : ascii) : ascii :=
  if is_ascii_uppercase c then ascii_of_N (Z.to_N (byte_of c + 32)) else c.
Fixpoint lowercase (s : string) : string :=
  match s with EmptyString => EmptyString | String c s => String (ascii_lower c) (lowercase s) end.

Lemma hex_digit_to_digit16 c n : to_digit16 c = Some n → hex_digit n = ascii_lower c.
Proof. destruct c as [[] [] [] [] [] [] [] []]; vm_compute; intros [= <-]; reflexivity. Qed.

Lemma hex_encode_pairs s bs : hex_pairs s = Some bs → hex_encode bs = lowercase s.
Proof.
  revert s. induction bs as [|b bs IH]; intros [|a [|c s]] H; simpl in H; try done.
  - by apply bind_Some in H as (h & _ & (l & _ & (? & _ & ?)%bind_Some)%bind_Some).
  - apply bind_Some in H as (h & Hh & (l & Hl & (bs' & Hs & [= <- <-])%bind_Some)%bind_Some).
    pose proof (to_digit16_range _ _ Hh). pose proof (to_digit16_range _ _ Hl). simpl.
    replace ((16 * h + l) / 16) with h by (apply Z.div_unique with l; lia).
    replace ((16 * h + l) mod 16) with l by (apply Z.mod_unique with h; lia).
    rewrite (hex_digit_to_digit16 _ _ Hh), (hex_digit_to_digit16 _ _ Hl), (IH _ Hs). done.
Qed.

(** The crate [hex]: [decode_to_slice(s, out)] with the length of [out]. *)
Class HexCrate := { decode_to_slice : string → nat → option (list Z) }.
Class HexCrateOk `{!HexCrate} : Prop := {
  decode_to_slice_spec s n : String.length s = (2 * n)%nat → decode_to_slice s n = hex_pairs s }.

(** ** hash.rs *)

Definition BlockHash : Type := list Z.
Inductive BlockHashError := WrongLength (len : nat) | InvalidHex.

Definition BlockHash_from_hex `{!HexCrate} (s : string) : result BlockHashError BlockHash :=
  if negb (String.length s =? 64)%nat then Err (WrongLength (String.length s))
  else match decode_to_slice s 32 with
       | None => Err InvalidHex
       | Some bytes => Ok bytes
       end.

Definition BlockHash_to_string (h : BlockHash) : string := hex_encode h.

(** What the type [[u8; 32]] guarantees. *)
Definition hash_bytes (h : BlockHash) : Prop := length h = 32%nat ∧ Forall is_byte h.

(** ** score.rs *)

Definition DaaScore : Type := Z.
Definition DaaScore_new (value : Z) : DaaScore := value.

(** ** events.rs *)

Inductive ShareRejectReason :=
| Stale | LowDifficulty | BadPow | MissingJob | MalformedFrame | DuplicateSubmit | BadAddress.

#[export] Instance ShareRejectReason_eq_dec : EqDecision ShareRejectReason.
Proof. solve_decision. Defined.

Definition ShareRejectReason_as_str (r : ShareRejectReason) : string :=
  match r with
  | Stale => "stale"
  | LowDifficulty => "low_difficulty"
  | BadPow => "bad_pow"
  | MissingJob => "missing_job"
  | MalformedFrame => "malformed_frame"
  | DuplicateSubmit => "duplicate_submit"
  | BadAddress => "bad_address"
  end.

(** Wallets and workers are the strings their constructors accepted. *)
Inductive PoolEvent :=
| ShareCredited (wallet worker : string) (difficulty : f64) (daa_score : DaaScore) (ts correlation_id : Z)
| ShareRejected (wallet worker : string) (reason : ShareRejectReason) (ts correlation_id : Z)
| BlockFound (wallet worker : string) (hash : BlockHash) (daa_score : DaaScore) (ts correlation_id : Z)
| BlockAccepted (hash : BlockHash) (ts correlation_id : Z)
| SessionOpened (conn_id : Z) (wallet worker : option string) (remote_ip : string) (remote_app : option string)
    (connected_at correlation_id : Z)
| SessionClosed (conn_id : Z) (wallet worker : option string) (remote_ip : string) (remote_app : option string)
    (connected_at ts correlation_id : Z).

(** ** redact.rs *)

(** [str::split_once(':')], the part before the first colon. *)
Fixpoint before_colon (s : string) : option string :=
  match s with
  | EmptyString => None
  | String c s => if Ascii.eqb c ":" then Some EmptyString else p ← before_colon s; Some (String c p)
  end.

Fixpoint of_chars (l : list ascii) : string :=
  match l with [] => EmptyString | c :: l => String c (of_chars l) end.

(** ["…"] is three bytes of UTF-8. *)
Definition ellipsis : string :=
  of_chars [ascii_of_N 226; ascii_of_N 128; ascii_of_N 166].

Definition redact_address (addr : string) : string :=
  let tail := of_chars (rev (take 4 (rev (chars addr)))) in
  match before_colon addr with
  | Some prefix => prefix +:+ ":" +:+ ellipsis +:+ tail
  | None => ellipsis +:+ tail
  end.

(** ** Properties *)

(** Printing a block hash and parsing it gives it back; parsing a string
    gives exactly the 32 bytes whose printed form is its lower-case form; and
    parsing fails precisely on a wrong length or a character that is no
    hexadecimal digit. *)
Theorem BlockHash_roundtrip `{!HexCrate, !HexCrateOk} :
  (∀ h, hash_bytes h → BlockHash_from_hex (BlockHash_to_string h) = Ok h) ∧
  (∀ s h, BlockHash_from_hex s = Ok h → hash_bytes h ∧ BlockHash_to_string h = lowercase s) ∧
  (∀ s e, BlockHash_from_hex s = Err e ↔
     (String.length s ≠ 64%nat ∧ e = WrongLength (String.length s)) ∨
     (String.length s = 64%nat ∧ hex_pairs s = None ∧ e = InvalidHex)).
Proof.
  unfold BlockHash_from_hex, BlockHash_to_string. split_and!.
  - intros h [Hl Hb]. rewrite length_hex_encode, Hl. simpl.
    rewrite decode_to_slice_spec by (rewrite length_hex_encode; lia). by rewrite hex_pairs_encode.
  - intros s h Hd. case_bool_in Hd; [done|]. apply negb_false_iff, Nat.eqb_eq in E.
    rewrite decode_to_slice_spec in Hd by lia. destruct (hex_pairs s) as [bs|] eqn:Hs; [|done]. simplify_eq.
    split; [|by apply hex_encode_pairs]. apply hex_pairs_bytes in Hs as [? ?]. split; [lia|done].
  - intros s e. case_bool.
    + apply negb_true_iff, Nat.eqb_neq in E. split; [intros [= <-]; by left|]. intros [[_ ->]|[? _]]; done.
    + apply negb_false_iff, Nat.eqb_eq in E. rewrite decode_to_slice_spec by lia.
      destruct (hex_pairs s); split; try (by intros); [intros [[? _]|(_ & ? & _)]; done|intros [= <-]; by right|].
      intros [[? _]|(_ & _ & ->)]; done.
Qed.

Module HexModel.
#[export] Instance crate : HexCrate :=
  {| decode_to_slice s n := if (String.length s =? 2 * n)%nat then hex_pairs s else None |}.
#[export] Instance crate_ok : HexCrateOk.
Proof. split. intros s n E. unfold decode_to_slice, crate. by rewrite (proj2 (Nat.eqb_eq _ _) E). Qed.
End HexModel.
Import HexModel.

Lemma BlockHash_roundtrip_witness :
  BlockHash_from_hex (BlockHash_to_string (seqZ 230 26 ++ seqZ 0 6)) = Ok (seqZ 230 26 ++ seqZ 0 6) ∧
  BlockHash_to_string (seqZ 230 26 ++ seqZ 0 6) = "e6e7e8e9eaebecedeeeff0f1f2f3f4f5f6f7f8f9fafbfcfdfeff000102030405"%string.
Proof.
  split; [|vm_compute; reflexivity].
  apply (proj1 BlockHash_roundtrip). split; [reflexivity|]. unfold is_byte. by_computation.
Defined.
