(* ===== verification/Bytes.v ===== *)
(** * Byte strings of fixed-width integers

    [uN::to_le_bytes], [to_be_bytes] and their inverses, [{:016x}], and
    prefix-free encodings: the tools for what the bridge hashes and sends. *)

From Stdlib Require Import Ascii.
From S2P Require Import Prelude Float64 Db Domain Events.
Local Open Scope Z_scope.

(** The [n] low bytes, least significant first. *)
Fixpoint le_bytes (n : nat) (z : Z) : list Z :=
  match n with O => [] | S n => z mod 256 :: le_bytes n (z / 256) end.
Fixpoint from_le_bytes (bs : list Z) : Z :=
  match bs with [] => 0 | b :: bs => b + 256 * from_le_bytes bs end.

Definition be_bytes (n : nat) (z : Z) : list Z := rev (le_bytes n z).
Definition from_be_bytes (bs : list Z) : Z := from_le_bytes (rev bs).

(** [{:016x}] of a u64. *)
Definition hex16 (z : Z) : string := hex_encode (be_bytes 8 z).

Lemma length_le_bytes n z : length (le_bytes n z) = n.
Proof. revert z. induction n; simpl; auto. Qed.

Lemma length_be_bytes n z : length (be_bytes n z) = n.
Proof. unfold be_bytes. by rewrite length_rev, length_le_bytes. Qed.

Lemma le_bytes_bytes n z : Forall is_byte (le_bytes n z).
Proof. revert z. induction n; intros z; constructor; auto. by apply Z.mod_pos_bound. Qed.

Lemma be_bytes_bytes n z : Forall is_byte (be_bytes n z).
Proof. apply Forall_rev, le_bytes_bytes. Qed.

Lemma pow256_S n : 256 ^ Z.of_nat (S n) = 256 * 256 ^ Z.of_nat n.
Proof. rewrite Nat2Z.inj_succ, Z.pow_succ_r by lia. done. Qed.

Lemma from_le_bytes_le n z : 0 ≤ z < 256 ^ Z.of_nat n → from_le_bytes (le_bytes n z) = z.
Proof.
  revert z. induction n as [|n IH]; intros z Hz; cbn [le_bytes from_le_bytes].
  - change (256 ^ Z.of_nat 0) with 1 in Hz. lia.
  - rewrite pow256_S in Hz. rewrite IH by (split; [apply Z.div_pos; lia|apply Z.div_lt_upper_bound; lia]).
    pose proof (Z.div_mod z 256). lia.
Qed.

Lemma le_bytes_from_le bs : Forall is_byte bs → le_bytes (length bs) (from_le_bytes bs) = bs.
Proof.
  induction 1 as [|b bs Hb _ IH]; simpl; [done|]. unfold is_byte in Hb. f_equal.
  - symmetry. apply Z.mod_unique with (from_le_bytes bs); lia.
  - replace ((b + 256 * from_le_bytes bs) / 256) with (from_le_bytes bs); [done|].
    apply Z.div_unique with b; lia.
Qed.

Lemma from_be_bytes_be n z : 0 ≤ z < 256 ^ Z.of_nat n → from_be_bytes (be_bytes n z) = z.
Proof. unfold from_be_bytes, be_bytes. rewrite rev_involutive. apply from_le_bytes_le. Qed.

Lemma be_bytes_from_be bs : Forall is_byte bs → be_bytes (length bs) (from_be_bytes bs) = bs.
Proof.
  intros Hb. unfold from_be_bytes, be_bytes. rewrite <- (length_rev bs), le_bytes_from_le by by apply Forall_rev.
  apply rev_involutive.
Qed.

Lemma from_le_bytes_range bs : Forall is_byte bs → 0 ≤ from_le_bytes bs < 256 ^ Z.of_nat (length bs).
Proof.
  induction 1 as [|b bs Hb _ IH]; [simpl; lia|]. unfold is_byte in Hb. cbn [from_le_bytes length].
  rewrite pow256_S. lia.
Qed.

Lemma le_bytes_inj n x y : 0 ≤ x < 256 ^ Z.of_nat n → 0 ≤ y < 256 ^ Z.of_nat n → le_bytes n x = le_bytes n y → x = y.
Proof. intros Hx Hy E. rewrite <- (from_le_bytes_le n x), <- (from_le_bytes_le n y) by done. by rewrite E. Qed.

(** ** Encodings that can be read back from the front *)

(** On values satisfying [P], [enc x] followed by anything determines [x]. *)
Definition prefix_free {A} (P : A → Prop) (enc : A → list Z) : Prop :=
  ∀ x y r r', P x → P y → enc x ++ r = enc y ++ r' → x = y ∧ r = r'.

Lemma prefix_free_fixed {A} (P : A → Prop) (enc : A → list Z) n :
  (∀ x, P x → length (enc x) = n) → (∀ x y, P x → P y → enc x = enc y → x = y) → prefix_free P enc.
Proof.
  intros Hl Hi x y r r' Hx Hy E. apply app_inj_1 in E as [E ->]; [|by rewrite !Hl]. auto.
Qed.

Lemma prefix_free_le n : prefix_free (λ z, 0 ≤ z < 256 ^ Z.of_nat n) (le_bytes n).
Proof. apply (prefix_free_fixed _ _ n); [intros; apply length_le_bytes|]. intros x y. apply le_bytes_inj. Qed.

Lemma prefix_free_hash n : prefix_free (λ h : list Z, length h = n) id.
Proof. by apply (prefix_free_fixed _ _ n). Qed.

Lemma prefix_free_concat {A} (P : A → Prop) enc (xs ys : list A) r r' : prefix_free P enc →
  Forall P xs → Forall P ys → length xs = length ys →
  concat (map enc xs) ++ r = concat (map enc ys) ++ r' → xs = ys ∧ r = r'.
Proof.
  intros He. revert ys. induction xs as [|x xs IH]; intros [|y ys] Hx Hy Hl E; simpl in *; try done.
  apply Forall_cons in Hx as [? ?], Hy as [? ?]. rewrite <- !app_assoc in E. apply He in E as [-> E]; [|done..].
  apply IH in E as [-> ->]; [done..|lia].
Qed.

(** A list with its length in eight bytes first. *)
Definition counted {A} (enc : A → list Z) (xs : list A) : list Z :=
  le_bytes 8 (Z.of_nat (length xs)) ++ concat (map enc xs).

Lemma prefix_free_counted {A} (P : A → Prop) enc : prefix_free P enc →
  prefix_free (λ xs, Forall P xs ∧ Z.of_nat (length xs) < 2 ^ 64) (counted enc).
Proof.
  intros He xs ys r r' [Hx Hlx] [Hy Hly] E. unfold counted in E. rewrite <- !app_assoc in E.
  apply prefix_free_le in E as [Hl E]; [|change (256 ^ Z.of_nat 8) with (2 ^ 64); lia..].
  eapply prefix_free_concat in E; eauto. lia.
Qed.
