(* ===== verification/Hasher.v ===== *)
(** * Difficulty, targets and job data (bridge/src/hasher.rs)

    A [BigUint] is a non-negative [Z], and dividing by zero panics.  The
    hash function of [kaspa_hashes::BlockHash] is a parameter, applied to the
    concatenation of the [update] calls.  The two environment switches that
    [diff_to_target] reads are a parameter. *)

From Stdlib Require Import Ascii.
From S2P Require Import Prelude Float64 Db Domain Events Bytes.
Local Open Scope Z_scope.

(** 56 hexadecimal digits [F]. *)
Definition MAX_TARGET : Z := 2 ^ 224 - 1.

Definition min_hash : f64 := f64_of_Z (2 ^ 32).
Definition BIG_GIG : f64 := f64_of_Z 1000000000.

Definition biguint_div (a b : Z) : exec Z := if b =? 0 then Panic else Ret (a / b).

(** ** Targets *)

Definition diff_to_target_alternative (diff : f64) : exec Z :=
  if f64_le diff f64_zero then Ret MAX_TARGET
  else biguint_div (u64_max * 1000000) (f64_as_u64 (f64_mul diff (f64_of_Z 1000000))).

Definition stratum_difficulty_to_target_kaspa (stratum_diff : Z) : exec Z :=
  if stratum_diff =? 0 then Ret (u64_max * 1000)
  else biguint_div (u64_max * 1000) (stratum_diff * 1000).

Definition diff_to_target_standard (diff : f64) : exec Z :=
  if f64_le diff f64_zero then Ret MAX_TARGET
  else biguint_div (MAX_TARGET * 1000000000000000000)
         (f64_as_int 0 u128_max (f64_mul diff (f64_of_Z 1000000000000000000))).

(** USE_ALTERNATIVE_TARGET_CALC and USE_STRATUM_TARGET_CALC. *)
Class TargetSwitches := { use_alternative : bool; use_stratum_alt : bool }.

(** The branches also compute the standard target for a log line. *)
Definition diff_to_target `{!TargetSwitches} (diff : f64) : exec Z :=
  if use_stratum_alt then
    stratum_target ← stratum_difficulty_to_target_kaspa (f64_as_u64 diff);
    _ ← diff_to_target_standard diff;
    Ret stratum_target
  else if use_alternative then
    alt_target ← diff_to_target_alternative diff;
    _ ← diff_to_target_standard diff;
    Ret alt_target
  else diff_to_target_standard diff.

Definition diff_to_hash (diff : f64) : f64 := f64_div (f64_mul min_hash diff) BIG_GIG.

Definition calculate_target (bits : Z) : Z :=
  let exponent := Z.shiftr bits 24 in
  let mantissa := Z.land bits 16777215 in
  if exponent <=? 3 then Z.shiftr mantissa (8 * (3 - exponent))
  else Z.shiftl mantissa (8 * (exponent - 3)).

Record KaspaDiff := { hash_value : f64; diff_value : f64; target_value : Z }.

Definition KaspaDiff_default : KaspaDiff := {| hash_value := f64_zero; diff_value := f64_zero; target_value := 0 |}.

Definition set_diff_value `{!TargetSwitches} (diff : f64) (d : KaspaDiff) : exec KaspaDiff :=
  target ← diff_to_target diff;
  Ret {| diff_value := diff; target_value := target; hash_value := diff_to_hash diff |}.
Definition set_diff_value_for_miner `{!TargetSwitches} (diff : f64) (remote_app : string) (d : KaspaDiff) : exec KaspaDiff :=
  target ← diff_to_target diff;
  Ret {| diff_value := diff; target_value := target; hash_value := diff_to_hash diff |}.

(** ** Headers *)

(** The fields of kaspa's [Header] that the bridge reads; [parents_by_level]
    is the expanded form. *)
Record Header := {
  version : Z; parents_by_level : list (list (list Z));
  hash_merkle_root : list Z; accepted_id_merkle_root : list Z; utxo_commitment : list Z;
  timestamp : Z; bits : Z; nonce : Z; daa_score : Z; blue_score : Z; blue_work : Z; pruning_point : list Z }.

Definition with_nonce (n : Z) (h : Header) : Header :=
  {| version := version h; parents_by_level := parents_by_level h; hash_merkle_root := hash_merkle_root h;
     accepted_id_merkle_root := accepted_id_merkle_root h; utxo_commitment := utxo_commitment h;
     timestamp := timestamp h; bits := bits h; nonce := n; daa_score := daa_score h; blue_score := blue_score h;
     blue_work := blue_work h; pruning_point := pruning_point h |}.

(** [position(|byte| byte != 0)] and the slice from there. *)
Fixpoint trim_zeros (bs : list Z) : list Z :=
  match bs with
  | [] => []
  | b :: bs => if b =? 0 then trim_zeros bs else b :: bs
  end.

Definition blue_work_bytes (w : Z) : list Z := trim_zeros (be_bytes 24 w).

(** Everything [serialize_block_header] feeds to the hasher, in order. *)
Definition header_preimage (h : Header) : list Z :=
  le_bytes 2 (version h) ++ counted (counted id) (parents_by_level h) ++
  hash_merkle_root h ++ accepted_id_merkle_root h ++ utxo_commitment h ++
  le_bytes 8 0 ++ le_bytes 4 (bits h) ++ le_bytes 8 0 ++ le_bytes 8 (daa_score h) ++ le_bytes 8 (blue_score h) ++
  le_bytes 8 (Z.of_nat (length (blue_work_bytes (blue_work h)))) ++ blue_work_bytes (blue_work h) ++
  pruning_point h.

Class BlockHasher := { block_hash_finalize : list Z → list Z }.

Definition serialize_block_header `{!BlockHasher} (h : Header) : list Z := block_hash_finalize (header_preimage h).

(** ** Job parameters *)

(** The [i]th eight-byte group, when it is complete. *)
Definition word_at (header_data : list Z) (i : nat) : option (list Z) :=
  let offset := (i * 8)%nat in
  if (offset + 8 <=? length header_data)%nat then Some (take 8 (drop offset header_data)) else None.

Definition generate_job_header (header_data : list Z) : list Z :=
  map from_le_bytes (omap (word_at header_data) [0; 1; 2; 3]%nat).

Definition generate_iceriver_job_params (pre_pow_hash : list Z) (timestamp : Z) : string :=
  hex_encode pre_pow_hash +:+ hex_encode (le_bytes 8 timestamp).

(** Fewer than five values: the indexing panics. *)
Definition generate_large_job_params (header_data : list Z) (timestamp : Z) : exec string :=
  let ids := map from_be_bytes (omap (word_at header_data) [0; 1; 2; 3]%nat) ++ [from_le_bytes (be_bytes 8 timestamp)] in
  match ids with
  | a :: b :: c :: d :: e :: _ => Ret (hex16 a +:+ hex16 b +:+ hex16 c +:+ hex16 d +:+ hex16 e)
  | _ => Panic
  end.

(** ** Properties *)

(** The widths of the Rust fields. *)
Record header_ok (h : Header) : Prop := {
  ho_version : 0 ≤ version h < 2 ^ 16;
  ho_parents : Forall (λ l, Forall (λ p : list Z, length p = 32%nat) l ∧ Z.of_nat (length l) < 2 ^ 64) (parents_by_level h);
  ho_levels : Z.of_nat (length (parents_by_level h)) < 2 ^ 64;
  ho_merkle : length (hash_merkle_root h) = 32%nat;
  ho_accepted : length (accepted_id_merkle_root h) = 32%nat;
  ho_utxo : length (utxo_commitment h) = 32%nat;
  ho_bits : in_u32 (bits h);
  ho_daa : in_u64 (daa_score h);
  ho_blue : in_u64 (blue_score h);
  ho_work : 0 ≤ blue_work h < 2 ^ 192;
  ho_pruning : length (pruning_point h) = 32%nat }.

(** The template a job was cut from: everything but the two fields a miner varies. *)
Definition same_template (h1 h2 : Header) : Prop :=
  h2 = {| version := version h1; parents_by_level := parents_by_level h1; hash_merkle_root := hash_merkle_root h1;
          accepted_id_merkle_root := accepted_id_merkle_root h1; utxo_commitment := utxo_commitment h1;
          timestamp := timestamp h2; bits := bits h1; nonce := nonce h2; daa_score := daa_score h1;
          blue_score := blue_score h1; blue_work := blue_work h1; pruning_point := pruning_point h1 |}.

Lemma from_be_trim bs : from_be_bytes (trim_zeros bs) = from_be_bytes bs.
Proof.
  induction bs as [|b bs IH]; simpl; [done|]. case_bool; [|done]. apply Z.eqb_eq in E as ->. rewrite IH.
  unfold from_be_bytes. simpl. generalize (rev bs). intros l.
  induction l as [|x l IHl]; simpl; [done|]. by rewrite IHl.
Qed.

Lemma trim_zeros_length bs : (length (trim_zeros bs) ≤ length bs)%nat.
Proof. induction bs as [|b bs IH]; simpl; [lia|]. case_bool; simpl; lia. Qed.

Lemma blue_work_inj w1 w2 : 0 ≤ w1 < 2 ^ 192 → 0 ≤ w2 < 2 ^ 192 → blue_work_bytes w1 = blue_work_bytes w2 → w1 = w2.
Proof.
  intros H1 H2 E. apply (f_equal from_be_bytes) in E. unfold blue_work_bytes in E.
  rewrite !from_be_trim, !from_be_bytes_be in E by done. done.
Qed.

(** [next_field]: split the field at the front of both sides off an equation between encodings. *)
Ltac next_field E lem := apply lem in E as [? E]; [|try done; try mlia..].

(** The pre-PoW hash commits to the whole template and to nothing else: two
    headers have the same hash input exactly when they agree on every field
    but the timestamp and the nonce. *)
Theorem header_preimage_injective h1 h2 : header_ok h1 → header_ok h2 →
  header_preimage h1 = header_preimage h2 ↔ same_template h1 h2.
Proof.
  intros [] []. split; [|intros ->; done]. intros E. unfold header_preimage in E.
  next_field E (prefix_free_le 2). apply (prefix_free_counted _ _ (prefix_free_counted _ _ (prefix_free_hash 32))) in E as [? E];
    [|done..].
  next_field E (prefix_free_hash 32). next_field E (prefix_free_hash 32). next_field E (prefix_free_hash 32).
  next_field E (prefix_free_le 8). next_field E (prefix_free_le 4). next_field E (prefix_free_le 8).
  next_field E (prefix_free_le 8). next_field E (prefix_free_le 8).
  assert (∀ w, (length (blue_work_bytes w) ≤ 24)%nat) as Hw.
  { intros w. unfold blue_work_bytes. etrans; [apply trim_zeros_length|]. by rewrite length_be_bytes. }
  apply prefix_free_le in E as [Hl E]; [|pose proof (Hw (blue_work h1)); pose proof (Hw (blue_work h2));
    change (256 ^ Z.of_nat 8) with (2 ^ 64); lia..].
  apply (prefix_free_hash (length (blue_work_bytes (blue_work h1)))) in E as [Hb E]; [|lia..].
  apply blue_work_inj in Hb; [|done..]. unfold same_template. clear Hw Hl. destruct h2.
  cbn [version parents_by_level hash_merkle_root accepted_id_merkle_root utxo_commitment bits daa_score blue_score
    blue_work pruning_point timestamp nonce] in *. by f_equal.
Qed.

Lemma hex_encode_app5 a b c d e :
  hex_encode a +:+ hex_encode b +:+ hex_encode c +:+ hex_encode d +:+ hex_encode e = hex_encode (a ++ b ++ c ++ d ++ e).
Proof. by rewrite !hex_encode_app. Qed.

Lemma take8_bytes bs k : Forall is_byte bs → (k + 8 ≤ length bs)%nat →
  be_bytes 8 (from_be_bytes (take 8 (drop k bs))) = take 8 (drop k bs).
Proof.
  intros Hb Hl. assert (length (take 8 (drop k bs)) = 8%nat) as H8 by (rewrite length_take, length_drop; lia).
  rewrite <- H8 at 1. apply be_bytes_from_be. by apply Forall_take, Forall_drop.
Qed.

(** The two wire formats of a job are one: for a 32-byte hash the five
    integers of the large format print the same 80 characters as the hash
    followed by the little-endian timestamp, and never panic. *)
Lemma large_job_params_agree data ts : length data = 32%nat → Forall is_byte data →
  generate_large_job_params data ts = Ret (generate_iceriver_job_params data ts).
Proof.
  intros Hl Hb. unfold generate_large_job_params, word_at. rewrite Hl. cbn -[hex16 from_be_bytes from_le_bytes be_bytes take drop].
  unfold hex16, generate_iceriver_job_params. rewrite hex_encode_app5, <- hex_encode_app. do 2 f_equal.
  rewrite !take8_bytes by (done || lia).
  replace (be_bytes 8 (from_le_bytes (be_bytes 8 ts))) with (le_bytes 8 ts).
  2: { unfold be_bytes at 1. pose proof (le_bytes_from_le (be_bytes 8 ts) (be_bytes_bytes _ _)) as Hr.
       rewrite length_be_bytes in Hr. rewrite Hr. unfold be_bytes. by rewrite rev_involutive. }
  enough (data = take 8 (drop 0 data) ++ take 8 (drop 8 data) ++ take 8 (drop 16 data) ++ take 8 (drop 24 data)) as Hd
    by (rewrite Hd at 5; by rewrite <- !app_assoc).
  assert (∀ k, drop k data = take 8 (drop k data) ++ drop (k + 8) data) as Hs
    by (intros k; rewrite <- drop_drop; symmetry; apply take_drop).
  change data with (drop 0 data) at 1. rewrite (Hs 0%nat) at 1. f_equal. rewrite (Hs (0 + 8)%nat) at 1. f_equal.
  rewrite (Hs (0 + 8 + 8)%nat) at 1. f_equal. rewrite (take_ge (drop 24 data)) by (rewrite length_drop; lia). done.
Qed.

(** What a miner reads from a job: the hash and the timestamp. *)
Definition read_job_params (s : string) : option (list Z * Z) :=
  bs ← hex_pairs s; Some (take 32 bs, from_le_bytes (drop 32 bs)).

(** Whatever the template, the 80 characters of a job decode to the hash and
    the timestamp that were sent. *)
Lemma job_params_roundtrip h ts : hash_bytes h → in_u64 ts →
  read_job_params (generate_iceriver_job_params h ts) = Some (h, ts) ∧
  String.length (generate_iceriver_job_params h ts) = 80%nat.
Proof.
  intros [Hl Hb] Hts. unfold generate_iceriver_job_params, read_job_params. rewrite <- hex_encode_app. split.
  - rewrite hex_pairs_encode by (apply Forall_app; split; [done|apply le_bytes_bytes]). cbn -[le_bytes from_le_bytes take drop].
    rewrite take_app_length', drop_app_length' by done. rewrite from_le_bytes_le; [done|].
    change (256 ^ Z.of_nat 8) with (2 ^ 64). mlia.
  - rewrite length_hex_encode, length_app, Hl, length_le_bytes. done.
Qed.

(** The compact form: three bytes of mantissa scaled by a power of 256,
    rounded down; no target of a 32-bit [bits] reaches 2^2040. *)
Theorem calculate_target_spec b : in_u32 b →
  calculate_target b = (b mod 2 ^ 24) * 256 ^ (b / 2 ^ 24) / 256 ^ 3 ∧ 0 ≤ calculate_target b < 2 ^ 2040.
Proof.
  intros Hb. unfold calculate_target. rewrite Z.shiftr_div_pow2 by lia.
  replace (Z.land b 16777215) with (b mod 2 ^ 24) by (rewrite <- Z.land_ones by lia; done).
  assert (0 ≤ b / 2 ^ 24 < 256) as He.
  { split; [apply Z.div_pos; mlia|apply Z.div_lt_upper_bound; mlia]. }
  pose proof (Z.mod_pos_bound b (2 ^ 24) eq_refl) as Hm.
  set (e := b / 2 ^ 24) in *. set (m := b mod 2 ^ 24) in *. clearbody e m. clear b Hb.
  assert (H256 : ∀ k, 0 ≤ k → 2 ^ (8 * k) = 256 ^ k) by (intros k ?; rewrite Z.pow_mul_r by lia; done).
  destruct (Z.leb_spec e 3) as [H|H].
  - rewrite Z.shiftr_div_pow2 by lia. split.
    + replace (256 ^ 3) with (256 ^ e * 256 ^ (3 - e)) by (rewrite <- Z.pow_add_r by lia; f_equal; lia).
      rewrite <- Z.div_div, Z.div_mul by (try apply Z.pow_nonzero; try apply Z.pow_pos_nonneg; lia). by rewrite H256 by lia.
    + split; [apply Z.div_pos; [lia|apply Z.pow_pos_nonneg; lia]|].
      apply Z.le_lt_trans with m; [|assert (2 ^ 24 ≤ 2 ^ 2040) by (apply Z.pow_le_mono_r; lia); lia].
      apply Z.div_le_upper_bound; [apply Z.pow_pos_nonneg; lia|].
      assert (1 ≤ 2 ^ (8 * (3 - e))) by (apply (Z.pow_le_mono_r 2 0); lia). nia.
  - rewrite Z.shiftl_mul_pow2 by lia. split.
    + replace (256 ^ e) with (256 ^ (e - 3) * 256 ^ 3) by (rewrite <- Z.pow_add_r by lia; f_equal; lia).
      rewrite Z.mul_assoc, Z.div_mul by (apply Z.pow_nonzero; lia). by rewrite H256 by lia.
    + split; [apply Z.mul_nonneg_nonneg; [lia|apply Z.pow_nonneg; lia]|].
      apply Z.lt_le_trans with (2 ^ 24 * 2 ^ (8 * (e - 3))).
      * apply Z.mul_lt_mono_pos_r; [apply Z.pow_pos_nonneg; lia|lia].
      * rewrite <- Z.pow_add_r by lia. apply Z.pow_le_mono_r; lia.
Qed.

Lemma calculate_target_spec_witness :
  calculate_target 503382015 = 65535 * 256 ^ 30 / 256 ^ 3 ∧ 0 ≤ calculate_target 503382015 < 2 ^ 2040.
Proof. apply (calculate_target_spec 503382015). mlia. Defined.

Definition demo_header (n : Z) : Header :=
  {| version := 1; parents_by_level := [[repeat 3 32]; []]; hash_merkle_root := repeat 1 32;
     accepted_id_merkle_root := repeat 2 32; utxo_commitment := repeat 4 32; timestamp := n; bits := 503382015;
     nonce := n; daa_score := 10; blue_score := 9; blue_work := 4660; pruning_point := repeat 5 32 |}.

Lemma demo_header_ok n : header_ok (demo_header n).
Proof. constructor; simpl; try mlia; try done. repeat constructor. Qed.

Lemma header_preimage_injective_witness : header_preimage (demo_header 1) = header_preimage (demo_header 2).
Proof. by apply (header_preimage_injective (demo_header 1) (demo_header 2) (demo_header_ok 1) (demo_header_ok 2)). Defined.
