(* ===== verification/DupGuard.v ===== *)
(** * The duplicate-submission guard (bridge/src/share_handler.rs)

    [DuplicateSubmitGuard] remembers the outcome of recent submissions by
    key.  Instants and durations are integers; [duration_since] saturates at
    zero.  [order] is the eviction queue: an entry that is refreshed keeps its
    place in it. *)

From stdpp Require Export gmap.
From S2P Require Import Prelude Float64 Db.
Local Open Scope Z_scope.

Inductive DuplicateSubmitOutcome := InFlight | OAccepted | OStale | OLowDiff | OBad.

Record DuplicateSubmitEntry := { ts : Z; entry_outcome : DuplicateSubmitOutcome }.

Record DuplicateSubmitGuard := {
  ttl : Z; max_entries : nat;
  entries : gmap string DuplicateSubmitEntry; order : list string }.

Definition DuplicateSubmitGuard_new (ttl : Z) (max_entries : nat) : DuplicateSubmitGuard :=
  {| ttl := ttl; max_entries := max_entries; entries := ∅; order := [] |}.

Definition with_entries (es : gmap string DuplicateSubmitEntry) (o : list string) (g : DuplicateSubmitGuard)
    : DuplicateSubmitGuard :=
  {| ttl := ttl g; max_entries := max_entries g; entries := es; order := o |}.

Definition duration_since (now t : Z) : Z := Z.max 0 (now - t).

(** [now.duration_since(e.ts) > self.ttl], or no entry. *)
Definition expired (ttl now : Z) (es : gmap string DuplicateSubmitEntry) (key : string) : bool :=
  match es !! key with
  | Some e => ttl <? duration_since now (ts e)
  | None => true
  end.

(** The first loop of [prune]. *)
Fixpoint prune_expired (ttl now : Z) (o : list string) (es : gmap string DuplicateSubmitEntry)
    : list string * gmap string DuplicateSubmitEntry :=
  match o with
  | [] => ([], es)
  | key :: o' => if expired ttl now es key then prune_expired ttl now o' (delete key es) else (o, es)
  end.

(** The second. *)
Fixpoint prune_excess (max_entries : nat) (o : list string) (es : gmap string DuplicateSubmitEntry)
    : list string * gmap string DuplicateSubmitEntry :=
  match o with
  | [] => ([], es)
  | key :: o' => if (max_entries <? size es)%nat then prune_excess max_entries o' (delete key es) else (o, es)
  end.

Definition prune (now : Z) (g : DuplicateSubmitGuard) : DuplicateSubmitGuard :=
  let '(o, es) := prune_expired (ttl g) now (order g) (entries g) in
  let '(o, es) := prune_excess (max_entries g) o es in
  with_entries es o g.

Definition guard_get (key : string) (now : Z) (g : DuplicateSubmitGuard)
    : option DuplicateSubmitOutcome * DuplicateSubmitGuard :=
  let g := prune now g in (entry_outcome <$> entries g !! key, g).

Definition insert_inflight (key : string) (now : Z) (g : DuplicateSubmitGuard) : DuplicateSubmitGuard :=
  let g := prune now g in
  match entries g !! key with
  | Some _ => g
  | None => with_entries (<[key := {| ts := now; entry_outcome := InFlight |}]> (entries g)) (order g ++ [key]) g
  end.

Definition set_outcome (key : string) (now : Z) (o : DuplicateSubmitOutcome) (g : DuplicateSubmitGuard)
    : DuplicateSubmitGuard :=
  let g := prune now g in
  match entries g !! key with
  | Some _ => with_entries (<[key := {| ts := now; entry_outcome := o |}]> (entries g)) (order g) g
  | None => g
  end.

(** ** Invariant *)

Definition queue_ok (o : list string) (es : gmap string DuplicateSubmitEntry) : Prop :=
  NoDup o ∧ ∀ k, k ∈ o ↔ is_Some (es !! k).

(** The queue lists each remembered key once, and there is room for one more. *)
Definition guard_ok (g : DuplicateSubmitGuard) : Prop :=
  queue_ok (order g) (entries g) ∧ (size (entries g) ≤ S (max_entries g))%nat.

Lemma queue_ok_delete k o es : queue_ok (k :: o) es → queue_ok o (delete k es).
Proof.
  intros [Hn Hk]. apply NoDup_cons in Hn as [Hni Hn]. split; [done|]. intros k'. destruct (decide (k' = k)) as [->|Hne].
  - rewrite lookup_delete_eq. split; [done|]. by intros [? ?].
  - rewrite lookup_delete_ne by done. rewrite <- Hk. set_solver.
Qed.

Lemma queue_ok_size o es : queue_ok o es → length o = size es.
Proof.
  intros [Hn Hk]. assert (list_to_set o = dom es :> gset string) as Hd.
  { apply set_eq. intros k. rewrite elem_of_list_to_set, elem_of_dom. apply Hk. }
  rewrite <- size_dom, <- Hd. by rewrite size_list_to_set.
Qed.

Lemma prune_expired_ok ttl now o es o' es' : queue_ok o es → prune_expired ttl now o es = (o', es') →
  queue_ok o' es' ∧ es' ⊆ es ∧ (∀ k e, es !! k = Some e → duration_since now (ts e) ≤ ttl → es' !! k = Some e).
Proof.
  revert es. induction o as [|k o IH]; intros es Hq H; simpl in H; [by simplify_eq|].
  case_bool_in H; [|by simplify_eq]. apply IH in H as (? & Hsub & Hkeep); [|by apply queue_ok_delete].
  split_and!; [done|etrans; [exact Hsub|apply delete_subseteq]|]. intros k' e Hk' Ht.
  apply Hkeep; [|done]. rewrite lookup_delete_ne; [done|]. intros <-. unfold expired in E. rewrite Hk' in E.
  apply Z.ltb_lt in E. lia.
Qed.

Lemma prune_excess_ok max o es o' es' : queue_ok o es → prune_excess max o es = (o', es') →
  queue_ok o' es' ∧ es' ⊆ es ∧ (size es' ≤ max)%nat ∧ ((size es ≤ max)%nat → es' = es).
Proof.
  revert es. induction o as [|k o IH]; intros es Hq H; simpl in H.
  - simplify_eq. apply queue_ok_size in Hq as Hs. simpl in Hs. split_and!; [done|done|lia|done].
  - case_bool_in H; [|apply Nat.ltb_ge in E; by simplify_eq]. apply Nat.ltb_lt in E.
    apply IH in H as (? & Hsub & ? & ?); [|by apply queue_ok_delete].
    split_and!; [done|etrans; [exact Hsub|apply delete_subseteq]|done|lia].
Qed.

Lemma prune_ok now g : guard_ok g → queue_ok (order (prune now g)) (entries (prune now g)) ∧
  (size (entries (prune now g)) ≤ max_entries g)%nat ∧ entries (prune now g) ⊆ entries g ∧
  ((size (entries g) ≤ max_entries g)%nat → ∀ k e, entries g !! k = Some e →
     duration_since now (ts e) ≤ ttl g → entries (prune now g) !! k = Some e).
Proof.
  intros [Hq _]. unfold prune. destruct (prune_expired _ _ _ _) as [o1 es1] eqn:E1.
  destruct (prune_excess _ _ _) as [o2 es2] eqn:E2. simpl.
  apply prune_expired_ok in E1 as (Hq1 & Hs1 & Hk1); [|done]. apply prune_excess_ok in E2 as (Hq2 & Hs2 & Hm & He); [|done].
  split_and!; [done|done|by etrans|]. intros Hsz k e Hk Ht. rewrite He; [by apply Hk1|].
  etrans; [by apply map_subseteq_size|done].
Qed.

Lemma prune_params now g : ttl (prune now g) = ttl g ∧ max_entries (prune now g) = max_entries g.
Proof. unfold prune. by repeat case_match. Qed.

Lemma guard_ok_prune now g : guard_ok g → guard_ok (prune now g).
Proof.
  intros Hg. destruct (prune_ok now g Hg) as (? & Hs & _). destruct (prune_params now g) as [_ Hp].
  split; [done|]. rewrite Hp. lia.
Qed.

Lemma guard_ok_insert key now g : guard_ok g → guard_ok (insert_inflight key now g).
Proof.
  intros Hg. unfold insert_inflight. destruct (entries (prune now g) !! key) eqn:Ek; [by apply guard_ok_prune|].
  destruct (prune_ok now g Hg) as ([Hn Hk] & Hs & _). destruct (prune_params now g) as [_ Hp]. split; simpl.
  - split.
    + apply NoDup_app. split_and!; [done| |apply NoDup_singleton]. intros k Hin ->%list_elem_of_singleton.
      apply Hk in Hin. rewrite Ek in Hin. by destruct Hin.
    + intros k. rewrite elem_of_app, list_elem_of_singleton, lookup_insert_is_Some, Hk. destruct (decide (key = k)); naive_solver.
  - rewrite map_size_insert_None by done. rewrite Hp. lia.
Qed.

Lemma guard_ok_set key now o g : guard_ok g → guard_ok (set_outcome key now o g).
Proof.
  intros Hg. unfold set_outcome. destruct (entries (prune now g) !! key) eqn:Ek; [|by apply guard_ok_prune].
  destruct (prune_ok now g Hg) as ([Hn Hk] & Hs & _). destruct (prune_params now g) as [_ Hp]. split; simpl.
  - split; [done|]. intros k. rewrite lookup_insert_is_Some, Hk. destruct (decide (key = k)) as [->|]; [|naive_solver].
    rewrite Ek. naive_solver.
  - rewrite map_size_insert_Some by done. rewrite Hp. lia.
Qed.

(** ** What the guard promises *)

Inductive GuardOp := GGet (key : string) | GInsert (key : string) | GSet (key : string) (o : DuplicateSubmitOutcome).

Definition guard_step (op : Z * GuardOp) (g : DuplicateSubmitGuard) : DuplicateSubmitGuard :=
  match op.2 with
  | GGet key => (guard_get key op.1 g).2
  | GInsert key => insert_inflight key op.1 g
  | GSet key o => set_outcome key op.1 o g
  end.

Lemma guard_ok_step op g : guard_ok g → guard_ok (guard_step op g).
Proof.
  intros Hg. destruct op as [now []]; unfold guard_step; simpl;
    [by apply guard_ok_prune|by apply guard_ok_insert|by apply guard_ok_set].
Qed.

Lemma guard_step_params op g : ttl (guard_step op g) = ttl g ∧ max_entries (guard_step op g) = max_entries g.
Proof.
  destruct op as [now []]; unfold guard_step; simpl; unfold insert_inflight, set_outcome;
    try case_match; apply prune_params.
Qed.

(** [key] was written at a time no more than [ttl] before [deadline]. *)
Definition fresh (deadline : Z) (key : string) (g : DuplicateSubmitGuard) : Prop :=
  ∃ e, entries g !! key = Some e ∧ deadline - ts e ≤ ttl g.

(** No entry is from after [t]. *)
Definition times_ok (t : Z) (g : DuplicateSubmitGuard) : Prop := map_Forall (λ _ e, ts e ≤ t) (entries g).

Lemma times_ok_step t op g : guard_ok g → times_ok t g → t ≤ op.1 → times_ok op.1 (guard_step op g).
Proof.
  intros Hg Ht Hle. destruct (prune_ok op.1 g Hg) as (_ & _ & Hsub & _).
  assert (times_ok op.1 (prune op.1 g)) as Hp.
  { intros k e He. specialize (Ht k e (lookup_weaken _ _ _ _ He Hsub)). simpl in Ht. lia. }
  destruct op as [now [k|k|k o]]; unfold guard_step, guard_get, insert_inflight, set_outcome; simpl in *; [done|..].
  all: case_match; [|try done]; try done; apply map_Forall_insert_2; [simpl; lia|done].
Qed.

Lemma fresh_step deadline key op t g : guard_ok g → times_ok t g → t ≤ op.1 ≤ deadline → 0 ≤ ttl g →
  (size (entries g) ≤ max_entries g)%nat → fresh deadline key g → fresh deadline key (guard_step op g).
Proof.
  intros Hg Htm Hd Ht Hs (e & He & Hf). unfold fresh. rewrite (proj1 (guard_step_params op g)).
  destruct (prune_ok op.1 g Hg) as (_ & _ & _ & Hkeep). specialize (Htm key e He). simpl in Htm.
  assert (entries (prune op.1 g) !! key = Some e) as Hp.
  { apply Hkeep; [done..|]. unfold duration_since. lia. }
  destruct op as [now [k|k|k o]]; unfold guard_step, guard_get, insert_inflight, set_outcome in *; simpl in *.
  - by exists e.
  - case_match eqn:Ek; [by exists e|]. simpl. destruct (decide (k = key)) as [->|]; [congruence|].
    rewrite lookup_insert_ne by done. by exists e.
  - case_match eqn:Ek; [|by exists e]. simpl. destruct (decide (k = key)) as [->|].
    + rewrite lookup_insert_eq. eexists. split; [done|]. simpl. lia.
    + rewrite lookup_insert_ne by done. by exists e.
Qed.

(** A sequence of operations, in time order from [t] on. *)
Definition guard_run (ops : list (Z * GuardOp)) (g : DuplicateSubmitGuard) : DuplicateSubmitGuard :=
  fold_left (λ g op, guard_step op g) ops g.
Fixpoint in_order (t : Z) (ops : list (Z * GuardOp)) : Prop :=
  match ops with [] => True | op :: ops => t ≤ op.1 ∧ in_order op.1 ops end.

(** The guard never holds more keys than its capacity on the way. *)
Fixpoint never_full (ops : list (Z * GuardOp)) (g : DuplicateSubmitGuard) : Prop :=
  (size (entries g) ≤ max_entries g)%nat ∧
  match ops with [] => True | op :: ops => never_full ops (guard_step op g) end.

Lemma fresh_run deadline key ops t g : guard_ok g → times_ok t g → 0 ≤ ttl g → in_order t ops →
  Forall (λ op, op.1 ≤ deadline) ops → never_full ops g → fresh deadline key g →
  fresh deadline key (guard_run ops g) ∧ guard_ok (guard_run ops g) ∧
  (size (entries (guard_run ops g)) ≤ max_entries (guard_run ops g))%nat.
Proof.
  revert t g. induction ops as [|op ops IH]; intros t g Hg Htm Ht Ho Hd Hn Hf; simpl in *; [naive_solver|].
  destruct Ho as [Hle Ho], Hn as [Hs Hn]. apply Forall_cons in Hd as [Hd1 Hd]. apply (IH op.1); try done.
  - by apply guard_ok_step.
  - by eapply times_ok_step.
  - by rewrite (proj1 (guard_step_params op g)).
  - eapply fresh_step; eauto.
Qed.

(** Until [ttl] after a key was last written, whatever other submissions
    come in between, the guard still answers for it, as long as it never
    exceeds its capacity. *)
Theorem guard_remembers key e now ops t g :
  guard_ok g → times_ok t g → 0 ≤ ttl g → entries g !! key = Some e →
  in_order t ops → Forall (λ op, op.1 ≤ now) ops → never_full ops g → now ≤ ts e + ttl g →
  is_Some (guard_get key now (guard_run ops g)).1.
Proof.
  intros Hg Htm Ht He Ho Hd Hn Hnow.
  destruct (fresh_run now key ops t g) as ((e' & He' & Hf) & Hg' & Hs); try done; [exists e; split; [done|lia]|].
  unfold guard_get. simpl. destruct (prune_ok now _ Hg') as (_ & _ & _ & Hkeep). rewrite (Hkeep Hs _ _ He'); [done|].
  unfold duration_since. assert (ttl (guard_run ops g) = ttl g) as Hp.
  { clear -g. unfold guard_run. revert g. induction ops as [|op ops IH]; intros g; simpl; [done|].
    rewrite IH. apply guard_step_params. }
  lia.
Qed.

Lemma guard_remembers_witness :
  let g := insert_inflight "w|7|ab" 0 (DuplicateSubmitGuard_new 180 3) in
  (guard_get "w|7|ab" 180 (guard_run [(10, GInsert "w|7|cd"); (20, GSet "w|7|cd" OBad)] g)).1 = Some InFlight.
Proof.
  intros g. unfold g. clear g. set (g := insert_inflight _ _ _).
  assert (is_Some (guard_get "w|7|ab" 180 (guard_run [(10, GInsert "w|7|cd"); (20, GSet "w|7|cd" OBad)] g)).1) as H.
  { apply (guard_remembers "w|7|ab" {| ts := 0; entry_outcome := InFlight |} 180 _ 0).
    - apply guard_ok_insert. split; [split; [constructor|]|simpl; rewrite map_size_empty; lia].
      intros k. simpl. rewrite lookup_empty. split; [by intros ?%elem_of_nil|by intros [? ?]].
    - unfold times_ok. by_computation.
    - vm_compute; discriminate.
    - vm_compute; reflexivity.
    - simpl; lia.
    - by_computation.
    - vm_compute; repeat split; lia.
    - vm_compute; discriminate. }
  destruct H as [o Ho]. rewrite Ho. vm_compute in Ho. by injection Ho as <-.
Defined.
