(* ===== verification/MiningState.v ===== *)
(** * Per-connection mining state (bridge/src/mining_state.rs)

    Jobs live in a ring of [MAX_JOBS] slots indexed by the job id modulo its
    size; a lookup does not check which id the slot holds.  The transactions
    of a block are not read by the bridge and are left out of [Job]. *)

From S2P Require Import Prelude Float64 Db Domain Events Bytes Hasher DupGuard.
Local Open Scope Z_scope.

Definition MAX_JOBS : Z := 300.

Record Job := { block_header : Header; pre_pow_hash : list Z }.

Record MiningState := {
  jobs : gmap Z Job; job_ids : gmap Z Z; job_counter : Z; big_diff : Z;
  initialized : bool; use_big_job : bool; connect_time : Z;
  stratum_diff : option KaspaDiff; max_jobs : Z; last_header : option Header }.

Definition MiningState_new (now : Z) : MiningState :=
  {| jobs := ∅; job_ids := ∅; job_counter := 0; big_diff := 0; initialized := false; use_big_job := false;
     connect_time := now; stratum_diff := None; max_jobs := MAX_JOBS; last_header := None |}.

Definition with_jobs (js : gmap Z Job) (ids : gmap Z Z) (counter : Z) (s : MiningState) : MiningState :=
  {| jobs := js; job_ids := ids; job_counter := counter; big_diff := big_diff s; initialized := initialized s;
     use_big_job := use_big_job s; connect_time := connect_time s; stratum_diff := stratum_diff s;
     max_jobs := max_jobs s; last_header := last_header s |}.

Definition add_job (job : Job) (s : MiningState) : exec (Z * MiningState) :=
  idx ← u64_add (job_counter s) 1;
  let slot := idx mod MAX_JOBS in
  Ret (idx, with_jobs (<[slot := job]> (jobs s)) (<[slot := idx]> (job_ids s)) idx s).

Definition get_job (id : Z) (s : MiningState) : option Job := jobs s !! (id mod MAX_JOBS).
Definition get_job_id_at_slot (slot : Z) (s : MiningState) : option Z := job_ids s !! (slot mod MAX_JOBS).

Definition set_big_diff (diff : Z) (s : MiningState) : MiningState :=
  {| jobs := jobs s; job_ids := job_ids s; job_counter := job_counter s; big_diff := diff; initialized := initialized s;
     use_big_job := use_big_job s; connect_time := connect_time s; stratum_diff := stratum_diff s;
     max_jobs := max_jobs s; last_header := last_header s |}.
Definition set_initialized (i : bool) (s : MiningState) : MiningState :=
  {| jobs := jobs s; job_ids := job_ids s; job_counter := job_counter s; big_diff := big_diff s; initialized := i;
     use_big_job := use_big_job s; connect_time := connect_time s; stratum_diff := stratum_diff s;
     max_jobs := max_jobs s; last_header := last_header s |}.
Definition set_use_big_job (u : bool) (s : MiningState) : MiningState :=
  {| jobs := jobs s; job_ids := job_ids s; job_counter := job_counter s; big_diff := big_diff s;
     initialized := initialized s; use_big_job := u; connect_time := connect_time s; stratum_diff := stratum_diff s;
     max_jobs := max_jobs s; last_header := last_header s |}.
Definition set_stratum_diff (diff : KaspaDiff) (s : MiningState) : MiningState :=
  {| jobs := jobs s; job_ids := job_ids s; job_counter := job_counter s; big_diff := big_diff s;
     initialized := initialized s; use_big_job := use_big_job s; connect_time := connect_time s;
     stratum_diff := Some diff; max_jobs := max_jobs s; last_header := last_header s |}.
Definition set_last_header (header : Header) (s : MiningState) : MiningState :=
  {| jobs := jobs s; job_ids := job_ids s; job_counter := job_counter s; big_diff := big_diff s;
     initialized := initialized s; use_big_job := use_big_job s; connect_time := connect_time s;
     stratum_diff := stratum_diff s; max_jobs := max_jobs s; last_header := Some header |}.

(** ** What the ring holds *)

(** After issuing [js] (oldest first) the ring holds the last [MAX_JOBS] of them, each in its slot. *)
Definition ring_holds (js : list Job) (s : MiningState) : Prop :=
  job_counter s = Z.of_nat (length js) ∧
  (∀ k, 1 ≤ k ≤ job_counter s → job_counter s - MAX_JOBS < k → jobs s !! (k mod MAX_JOBS) = js !! Z.to_nat (k - 1)) ∧
  (∀ slot job, jobs s !! slot = Some job → ∃ k, 1 ≤ k ≤ job_counter s ∧ job_counter s - MAX_JOBS < k ∧ slot = k mod MAX_JOBS).

Lemma slot_eq a b : a mod MAX_JOBS = b mod MAX_JOBS → b - MAX_JOBS < a < b + MAX_JOBS → a = b.
Proof.
  unfold MAX_JOBS. intros E H. pose proof (Z.div_mod a 300). pose proof (Z.div_mod b 300). nia.
Qed.

Lemma ring_new now : ring_holds [] (MiningState_new now).
Proof. split_and!; simpl; [done|lia|]. intros slot job. by rewrite lookup_empty. Qed.

Lemma add_job_ring js job s id s' : ring_holds js s → add_job job s = Ret (id, s') →
  ring_holds (js ++ [job]) s' ∧ id = Z.of_nat (length js) + 1.
Proof.
  intros (Hc & Hj & Hd) H. unfold add_job, u64_add in H. case_bool_in H; [|done]. injection H as <- <-.
  rewrite Hc in *. set (n := Z.of_nat (length js)) in *. split; [|done]. split_and!; simpl.
  - rewrite length_app. simpl. lia.
  - intros k Hk Hw. destruct (decide (k = n + 1)) as [->|Hne].
    + rewrite lookup_insert_eq. replace (Z.to_nat (n + 1 - 1)) with (length js) by lia. by rewrite list_lookup_middle.
    + rewrite lookup_insert_ne by (intros E'%slot_eq; unfold MAX_JOBS in *; lia).
      rewrite lookup_app_l by lia. apply Hj; unfold MAX_JOBS in *; lia.
  - intros slot j' Hl. destruct (decide (slot = (n + 1) mod MAX_JOBS)) as [->|Hne].
    + exists (n + 1). unfold MAX_JOBS. split_and!; [lia..|done].
    + rewrite lookup_insert_ne in Hl by done. apply Hd in Hl as (k & Hk1 & Hk2 & ->). exists k.
      split_and!; [lia|lia| |done]. destruct (decide (k = n + 1 - MAX_JOBS)) as [->|]; [|unfold MAX_JOBS in *; lia].
      exfalso. apply Hne. unfold MAX_JOBS. rewrite <- (Z.mod_add _ 1 300) by lia. f_equal. lia.
Qed.

(** Any id whose slot is filled is answered with the newest job of its residue. *)
Lemma get_job_newest js s id job : ring_holds js s → get_job id s = Some job →
  ∃ k, 1 ≤ k ≤ job_counter s ∧ job_counter s - MAX_JOBS < k ∧ k mod MAX_JOBS = id mod MAX_JOBS ∧
    js !! Z.to_nat (k - 1) = Some job.
Proof.
  intros (Hc & Hj & Hd) H. unfold get_job in H. destruct (Hd _ _ H) as (k & Hk & Hw & E). exists k.
  rewrite <- Hj by done. by rewrite <- E.
Qed.

(** The ring over a run of [add_job]. *)
Fixpoint issue (js : list Job) (s : MiningState) : exec MiningState :=
  match js with
  | [] => Ret s
  | j :: js => '(_, s) ← add_job j s; issue js s
  end.

Lemma issue_ring js0 js s s' : ring_holds js0 s → issue js s = Ret s' → ring_holds (js0 ++ js) s'.
Proof.
  revert js0 s. induction js as [|j js IH]; intros js0 s Hr H; simpl in H.
  - simplify_eq. by rewrite app_nil_r.
  - apply exec_bind_Ret in H as ([id s1] & H1 & H2). eapply add_job_ring in H1 as [H1 _]; [|done].
    eapply IH in H2; [|done]. by rewrite <- app_assoc in H2.
Qed.

(** A connection that was issued the jobs [js] gets each of the last 300 back
    under its own id, and under any other id with a filled slot the newest job
    of the same residue modulo 300: a stale or invented id is answered with a
    current job. *)
Theorem get_job_spec now js s id : issue js (MiningState_new now) = Ret s → 0 ≤ id →
  (Z.of_nat (length js) - MAX_JOBS < id → 1 ≤ id ≤ Z.of_nat (length js) → get_job id s = js !! Z.to_nat (id - 1)) ∧
  (∀ job, get_job id s = Some job →
     ∃ k, 1 ≤ k ≤ Z.of_nat (length js) ∧ Z.of_nat (length js) - MAX_JOBS < k ∧ k mod MAX_JOBS = id mod MAX_JOBS ∧
       js !! Z.to_nat (k - 1) = Some job).
Proof.
  intros H Hid. apply (issue_ring [] js _ _ (ring_new now)) in H as Hr. simpl in Hr.
  destruct (Hr) as (Hc & Hj & _). rewrite <- Hc. split; [intros ? ?; by apply Hj|].
  intros job. by apply get_job_newest.
Qed.

Definition demo_job (n : Z) : Job := {| block_header := demo_header n; pre_pow_hash := repeat n 32 |}.

(** Id 302 was never issued and is answered with job 2. *)
Lemma get_job_spec_witness : ∃ s, issue [demo_job 1; demo_job 2] (MiningState_new 0) = Ret s ∧
  get_job 2 s = Some (demo_job 2) ∧ get_job 302 s = Some (demo_job 2).
Proof.
  eexists. split; [reflexivity|]. split; [|reflexivity].
  apply (get_job_spec 0 [demo_job 1; demo_job 2] _ 2 eq_refl); simpl; unfold MAX_JOBS; lia.
Defined.
