(* ===== verification/Stratum.v ===== *)
(** * Stratum messages and connections

    bridge/src/jsonrpc_event.rs, the connection record of
    bridge/src/stratum_context.rs, the handshake helpers of
    bridge/src/default_client.rs, and the connection bookkeeping of
    bridge/src/client_handler.rs.  [serde_json::Value] is the data type
    of that crate; parsing JSON text and decoding a Kaspa address are
    parameters. *)

From Stdlib Require Import Ascii.
From S2P Require Import Prelude Float64 Db DupGuard Domain Events Bytes Hasher MiningState.
Local Open Scope Z_scope.

(** ** JSON *)

(** [serde_json::Number]. *)
Inductive Number := PosInt (n : Z) | NegInt (n : Z) | Float (x : f64).

Inductive Value :=
| VNull | VBool (b : bool) | VNumber (n : Number) | VString (s : string) | VArray (l : list Value)
| VObject (fields : list (string * Value)).

Definition as_str (v : Value) : option string := match v with VString s => Some s | _ => None end.
Definition as_u64 (n : Number) : option Z := match n with PosInt n => Some n | _ => None end.

(** ** jsonrpc_event.rs *)

Inductive StratumMethod :=
| Subscribe | ExtranonceSubscribe | Authorize | Submit | SetDifficulty | Notify | SetExtranonce | Other (s : string).

Definition StratumMethod_from (s : string) : StratumMethod :=
  if String.eqb s "mining.subscribe" then Subscribe
  else if String.eqb s "mining.extranonce.subscribe" then ExtranonceSubscribe
  else if String.eqb s "mining.authorize" then Authorize
  else if String.eqb s "mining.submit" then Submit
  else if String.eqb s "mining.set_difficulty" then SetDifficulty
  else if String.eqb s "mining.notify" then Notify
  else if String.eqb s "mining.set_extranonce" then SetExtranonce
  else Other s.

Definition StratumMethod_into (m : StratumMethod) : string :=
  match m with
  | Subscribe => "mining.subscribe"
  | ExtranonceSubscribe => "mining.extranonce.subscribe"
  | Authorize => "mining.authorize"
  | Submit => "mining.submit"
  | SetDifficulty => "mining.set_difficulty"
  | Notify => "mining.notify"
  | SetExtranonce => "mining.set_extranonce"
  | Other s => s
  end.

Record JsonRpcEvent := { ev_id : option Value; jsonrpc : string; method : string; params : list Value }.

Definition JsonRpcEvent_new (id : option string) (method : string) (params : list Value) : JsonRpcEvent :=
  {| ev_id := VString <$> id; jsonrpc := "2.0"; method := method; params := params |}.

Definition method_enum (e : JsonRpcEvent) : StratumMethod := StratumMethod_from (method e).

Record JsonRpcResponse := { rs_id : option Value; rs_result : option Value; rs_error : option (list Value) }.

Definition JsonRpcResponse_new (event : JsonRpcEvent) (result : option Value) (error : option (list Value)) : JsonRpcResponse :=
  {| rs_id := ev_id event; rs_result := result; rs_error := error |}.
Definition JsonRpcResponse_success (id : option Value) (result : Value) : JsonRpcResponse :=
  {| rs_id := id; rs_result := Some result; rs_error := None |}.

(** [Value::Number(code.into())] for an i32. *)
Definition number_of (code : Z) : Value := VNumber (if 0 <=? code then PosInt code else NegInt code).
Definition JsonRpcResponse_error (id : option Value) (code : Z) (message : string) (data : option Value) : JsonRpcResponse :=
  {| rs_id := id; rs_result := None;
     rs_error := Some [number_of code; VString message; default VNull data] |}.

(** Text as code points. [char::is_control]: the general category Cc. *)
Definition is_control (c : Z) : bool := (c <? 32) || ((127 <=? c) && (c <=? 159)).
Definition is_bad_control (c : Z) : bool := is_control c && negb (c =? 10) && negb (c =? 13).

Definition sanitize_json_input (input : list Z) : list Z := map (λ c, if is_bad_control c then 32 else c) input.

(** [serde_json::from_str]. *)
Class JsonParser := { JsonError : Type; from_str : list Z → result JsonError JsonRpcEvent }.

Definition unmarshal_event `{!JsonParser} (input : list Z) : result JsonError JsonRpcEvent :=
  if existsb is_bad_control input then
    match from_str (sanitize_json_input input) with Ok r => Ok r | Err e => Err e end
  else from_str input.

(** ** stratum_context.rs: the connection *)

Record StratumContext := {
  remote_addr : string; remote_port : Z; local_port : Z;
  wallet_addr : string; worker_name : string; canxium_addr : string; remote_app : string;
  ctx_id : Z; extranonce : string; state : MiningState;
  session_uid : Z; session_opened : bool; disconnecting : bool }.

Definition ctx_with (wallet worker canxium app : string) (id : Z) (xn : string) (st : MiningState)
    (opened disc : bool) (c : StratumContext) : StratumContext :=
  {| remote_addr := remote_addr c; remote_port := remote_port c; local_port := local_port c; wallet_addr := wallet;
     worker_name := worker; canxium_addr := canxium; remote_app := app; ctx_id := id; extranonce := xn; state := st;
     session_uid := session_uid c; session_opened := opened; disconnecting := disc |}.
Definition set_worker_name (v : string) (c : StratumContext) : StratumContext :=
  ctx_with (wallet_addr c) v (canxium_addr c) (remote_app c) (ctx_id c) (extranonce c) (state c) (session_opened c) (disconnecting c) c.
Definition set_wallet_addr (v : string) (c : StratumContext) : StratumContext :=
  ctx_with v (worker_name c) (canxium_addr c) (remote_app c) (ctx_id c) (extranonce c) (state c) (session_opened c) (disconnecting c) c.
Definition set_canxium_addr (v : string) (c : StratumContext) : StratumContext :=
  ctx_with (wallet_addr c) (worker_name c) v (remote_app c) (ctx_id c) (extranonce c) (state c) (session_opened c) (disconnecting c) c.
Definition set_remote_app (v : string) (c : StratumContext) : StratumContext :=
  ctx_with (wallet_addr c) (worker_name c) (canxium_addr c) v (ctx_id c) (extranonce c) (state c) (session_opened c) (disconnecting c) c.
Definition set_ctx_id (v : Z) (c : StratumContext) : StratumContext :=
  ctx_with (wallet_addr c) (worker_name c) (canxium_addr c) (remote_app c) v (extranonce c) (state c) (session_opened c) (disconnecting c) c.
Definition set_extranonce (v : string) (c : StratumContext) : StratumContext :=
  ctx_with (wallet_addr c) (worker_name c) (canxium_addr c) (remote_app c) (ctx_id c) v (state c) (session_opened c) (disconnecting c) c.
Definition set_state (v : MiningState) (c : StratumContext) : StratumContext :=
  ctx_with (wallet_addr c) (worker_name c) (canxium_addr c) (remote_app c) (ctx_id c) (extranonce c) v (session_opened c) (disconnecting c) c.
Definition set_session_opened (v : bool) (c : StratumContext) : StratumContext :=
  ctx_with (wallet_addr c) (worker_name c) (canxium_addr c) (remote_app c) (ctx_id c) (extranonce c) (state c) v (disconnecting c) c.
Definition set_disconnecting (v : bool) (c : StratumContext) : StratumContext :=
  ctx_with (wallet_addr c) (worker_name c) (canxium_addr c) (remote_app c) (ctx_id c) (extranonce c) (state c) (session_opened c) v c.

Definition StratumContext_new (addr : string) (port lport uid : Z) (st : MiningState) : StratumContext :=
  {| remote_addr := addr; remote_port := port; local_port := lport; wallet_addr := ""; worker_name := "";
     canxium_addr := ""; remote_app := ""; ctx_id := 0; extranonce := ""; state := st; session_uid := uid;
     session_opened := false; disconnecting := false |}.

Definition connected (c : StratumContext) : bool := negb (disconnecting c).
Definition client_id (c : StratumContext) : option Z := if 0 <? ctx_id c then Some (ctx_id c) else None.

Definition claim_session_open (c : StratumContext) : bool * StratumContext :=
  (negb (session_opened c), set_session_opened true c).

(** [char::is_whitespace] on ASCII. *)
Definition is_space (c : ascii) : bool := (byte_of c =? 32) || ((9 <=? byte_of c) && (byte_of c <=? 13)).
(** [s.trim().is_empty()]. *)
Definition is_blank (s : string) : bool := forallb is_space (chars s).

Definition ensure_default_worker_name (c : StratumContext) : StratumContext :=
  if negb (is_blank (worker_name c)) then c
  else set_worker_name (match client_id c with
                        | Some id => "asic-" +:+ pretty id
                        | None => "asic-" +:+ pretty (remote_port c)
                        end) c.

Definition effective_worker_name (c : StratumContext) : string * StratumContext :=
  let c := ensure_default_worker_name c in (worker_name c, c).

(** The four refusals a miner can be sent. *)
Definition stale_share_response (id : option Value) : JsonRpcResponse := JsonRpcResponse_error id 21 "Job not found" None.
Definition dupe_share_response (id : option Value) : JsonRpcResponse :=
  JsonRpcResponse_error id 22 "Duplicate share submitted" None.
Definition bad_share_response (id : option Value) : JsonRpcResponse := JsonRpcResponse_error id 20 "Unknown problem" None.
Definition low_diff_share_response (id : Value) : JsonRpcResponse :=
  JsonRpcResponse_error (Some id) 23 "Invalid difficulty" None.

(** ** default_client.rs and client_handler.rs: the handshake *)

(** [s.contains(needle)]. *)
Fixpoint contains (needle s : string) : bool :=
  match strip_prefix needle s with
  | Some _ => true
  | None => match s with EmptyString => false | String _ s => contains needle s end
  end.

Definition is_bitmain (remote_app : string) : bool :=
  let app := lowercase remote_app in contains "godminer" app || contains "bitmain" app || contains "antminer" app.
Definition is_iceriver (remote_app : string) : bool :=
  let app := lowercase remote_app in contains "iceriver" app || contains "icemining" app || contains "icm" app.
Definition BIG_JOB_REGEX_is_match (remote_app : string) : bool :=
  contains "BzMiner" remote_app || contains "IceRiverMiner" remote_app.

(** The process-wide counter [GLOBAL_NEXT_EXTRANONCE]: the value handed out and the next one. *)
Definition max_extranonce : Z := 65535.
Definition next_extranonce (counter : Z) : Z * Z := (counter, if counter <? max_extranonce then counter + 1 else 0).

(** [{:04x}]. *)
Definition hex4 (n : Z) : string := hex_encode (be_bytes 2 n).

Definition assign_extranonce_for_miner (app : string) (counter : Z) (c : StratumContext) : Z * StratumContext :=
  if is_bitmain app then (counter, set_extranonce "" c)
  else let '(value, counter) := next_extranonce counter in (counter, set_extranonce (hex4 value) c).

(** [str::starts_with]. *)
Definition starts_with (p s : string) : bool := match strip_prefix p s with Some _ => true | None => false end.

Definition process_canxium_address (address : string) : string :=
  let addr := match strip_prefix "0x" address with
              | Some rest => rest
              | None => if starts_with "canxiuminer:0x" (lowercase address)
                        then of_chars (take 12 (chars address)) +:+ of_chars (drop 14 (chars address))
                        else address
              end in
  if starts_with "canxiuminer:" (lowercase addr) then addr else "canxiuminer:" +:+ addr.

(** [Address::try_from(s).is_ok()] and the search of [WALLET_REGEX]. *)
Class AddressCrate := { address_ok : string → bool; wallet_regex_find : string → option string }.

Definition has_prefix (input : string) : bool :=
  starts_with "kaspa:" input || starts_with "kaspatest:" input || starts_with "kaspadev:" input.

(** The recursion adds the prefix that stops it: one level suffices. *)
Definition clean_wallet `{!AddressCrate} (input : string) : option string :=
  let attempt input := if address_ok input then Some input else wallet_regex_find input in
  if address_ok input then Some input
  else if has_prefix input then wallet_regex_find input
  else attempt ("kaspa:" +:+ input).

(** ** Properties *)

(** Text with no control character is parsed as it is; in every case what is
    parsed is the sanitised text, which has no control character left but
    line ends. *)
Theorem unmarshal_event_sanitizes `{!JsonParser} input :
  unmarshal_event input = from_str (sanitize_json_input input) ∧
  length (sanitize_json_input input) = length input ∧
  Forall (λ c, is_bad_control c = false) (sanitize_json_input input).
Proof.
  unfold unmarshal_event, sanitize_json_input. split_and!.
  - case_bool; [by destruct (from_str _)|]. f_equal. rewrite <- (map_id input) at 1. apply map_ext_in. intros c Hc.
    destruct (is_bad_control c) eqn:Eb; [|done]. exfalso. apply not_true_iff_false in E. apply E, existsb_exists. eauto.
  - apply length_map.
  - apply List.Forall_map, Forall_forall. intros c _. destruct (is_bad_control c) eqn:Eb; [done|]. by rewrite Eb.
Qed.

(** Method names survive the trip through [StratumMethod]. *)
Lemma StratumMethod_roundtrip s : StratumMethod_into (StratumMethod_from s) = s.
Proof.
  unfold StratumMethod_from.
  repeat (case_bool; [match goal with H : String.eqb _ _ = true |- _ => by apply String.eqb_eq in H as -> end|]). done.
Qed.

Lemma length_assign_extranonce app counter c : 0 ≤ counter ≤ max_extranonce →
  (String.length (extranonce (assign_extranonce_for_miner app counter c).2) = if is_bitmain app then 0 else 4)%nat ∧
  0 ≤ (assign_extranonce_for_miner app counter c).1 ≤ max_extranonce.
Proof.
  intros H. unfold assign_extranonce_for_miner, next_extranonce. case_bool; simpl; [done|]. split; [done|].
  unfold max_extranonce in *. case_bool; bool_hyps; lia.
Qed.
