(* ===== verification/StratumWrite.v ===== *)
(** * Writing to a connection (bridge/src/stratum_context.rs)

    [write_data], [disconnect] and [check_disconnect] by the tasks that share
    a connection: a spin lock ([write_lock]), the write half that a writer
    takes out of its cell for the time of the write, and the [disconnecting]
    flag.  Each task is a program counter; a step runs one task to its next
    access of the shared state, and the socket decides how many bytes a
    pending [write_all] gets through and how it ends. *)

From S2P Require Import Prelude.
Local Open Scope Z_scope.

Record Socket := {
  disconnecting : bool; write_lock : bool;
  write_half : bool;        (* the half is in its cell *)
  half_closed : bool;       (* [disconnect] took it and shut it down *)
  wire : list Z }.

Definition StratumContext_socket : Socket :=
  {| disconnecting := false; write_lock := false; write_half := true; half_closed := false; wire := [] |}.

Definition sk_with (d l h c : bool) (w : list Z) : Socket :=
  {| disconnecting := d; write_lock := l; write_half := h; half_closed := c; wire := w |}.
Definition set_lock (l : bool) (s : Socket) : Socket := sk_with (disconnecting s) l (write_half s) (half_closed s) (wire s).
Definition set_half (h : bool) (s : Socket) : Socket := sk_with (disconnecting s) (write_lock s) h (half_closed s) (wire s).
Definition put_bytes (bs : list Z) (s : Socket) : Socket :=
  sk_with (disconnecting s) (write_lock s) (write_half s) (half_closed s) (wire s ++ bs).

(** How [timeout_at(deadline, write_all(data))] ends. *)
Inductive WriteEnd := Written | WriteError | TimedOut.
Inductive Io := Progress (n : nat) | End (r : WriteEnd).

(** A task: [n] is [attempt].  [Returned] carries whether the answer was [Ok]. *)
Inductive Task :=
| Enter (data : list Z)
| Attempt (n : nat) (data : list Z)
| Locked (n : nat) (data : list Z)
| Writing (n : nat) (data : list Z) (sent : nat)
| PutBack (n : nat) (data : list Z) (r : WriteEnd)
| Unlocking (n : nat) (data : list Z) (r : WriteEnd)
| NoHalf (data : list Z)
| Failing (data : list Z)
| Returned (data : list Z) (ok : bool)
| Disconnect
| Closing
| Disconnected.

(** [check_disconnect]: the task it spawns. *)
Definition check_disconnect (s : Socket) : list Task := if disconnecting s then [] else [Disconnect].

(** [disconnect]: the swap of the flag, then the write half. *)
Definition start_disconnect (s : Socket) : Socket * Task * list Task :=
  if disconnecting s then (s, Disconnected, [])
  else (sk_with true (write_lock s) (write_half s) (half_closed s) (wire s), Closing, []).
Definition take_half (s : Socket) : Socket * Task * list Task :=
  if write_half s then (sk_with (disconnecting s) (write_lock s) false true (wire s), Disconnected, []) else (s, Disconnected, []).

#[local] Arguments check_disconnect _ /.
#[local] Arguments start_disconnect _ /.
#[local] Arguments take_half _ /.

(** One step of a task: the socket, the task, and a task it spawns; [None] when the socket cannot
    do what [io] says. *)
Definition write_data (io : Io) (s : Socket) (t : Task) : option (Socket * Task * list Task) :=
  match t with
  | Enter data => Some (s, if disconnecting s then Returned data false else Attempt 0 data, [])
  | Attempt n data =>
      if (3 <=? n)%nat then Some (s, Returned data false, [])
      else if write_lock s then Some (s, Attempt (S n) data, [])
      else Some (set_lock true s, Locked n data, [])
  | Locked n data => Some (if write_half s then (set_half false s, Writing n data 0, []) else (s, NoHalf data, []))
  | NoHalf data => Some (set_lock false s, Returned data false, [])
  | Writing n data sent =>
      match io with
      | Progress k =>
          if (sent + k <=? length data)%nat then Some (put_bytes (take k (drop sent data)) s, Writing n data (sent + k), []) else None
      | End Written => if (sent =? length data)%nat then Some (s, PutBack n data Written, []) else None
      | End r => Some (s, PutBack n data r, [])
      end
  | PutBack n data r => Some (set_half true s, Unlocking n data r, [])
  | Unlocking n data r =>
      Some (set_lock false s,
            match r with
            | Written => Returned data true
            | WriteError => Failing data
            | TimedOut => if (n <? 2)%nat then Attempt (S n) data else Failing data
            end, [])
  | Failing data => Some (s, Returned data false, check_disconnect s)
  | Disconnect => Some (start_disconnect s)
  | Closing => Some (take_half s)
  | Returned _ _ | Disconnected => None
  end.

(** The tasks of a connection, in the order they were started. *)
Definition Conn : Type := Socket * list Task.

(** [calm]: no write fails or times out. *)
Definition calm_io (io : Io) : Prop := match io with End WriteError | End TimedOut => False | _ => True end.

Inductive conn_step (calm : bool) : Conn → Conn → Prop :=
| step_start s ts t : (t = Disconnect ∨ ∃ data, t = Enter data) → conn_step calm (s, ts) (s, ts ++ [t])
| step_task s ts i io t s' t' sp : ts !! i = Some t → write_data io s t = Some (s', t', sp) → (calm = true → calm_io io) →
    conn_step calm (s, ts) (s', <[i := t']> ts ++ sp).

Definition new_conn : Conn := (StratumContext_socket, []).

(** The tasks that take the lock, or start to write, in a step of task [i]. *)
Definition acquired (i : nat) (t t' : Task) : list nat := match t, t' with Attempt _ _, Locked _ _ => [i] | _, _ => [] end.
Definition begun (i : nat) (t t' : Task) : list nat := match t, t' with Locked _ _, Writing _ _ _ => [i] | _, _ => [] end.

(** The same steps from a new connection, with the tasks that took the lock in the order they did. *)
Inductive conn_run (calm : bool) : list nat → Conn → Prop :=
| run_new : conn_run calm [] new_conn
| run_start taken s ts t : conn_run calm taken (s, ts) → (t = Disconnect ∨ ∃ data, t = Enter data) → conn_run calm taken (s, ts ++ [t])
| run_act taken s ts i io t s' t' sp : conn_run calm taken (s, ts) → ts !! i = Some t → write_data io s t = Some (s', t', sp) →
    (calm = true → calm_io io) → conn_run calm (taken ++ acquired i t t') (s', <[i := t']> ts ++ sp).

Lemma conn_step_run calm c : rtc (conn_step calm) new_conn c → ∃ taken, conn_run calm taken c.
Proof.
  revert c. apply (rtc_ind_r (λ c, ∃ taken, conn_run calm taken c) new_conn); [exists []; constructor|].
  intros c c' _ [s ts t Ht|s ts i io t s' t' sp Hi Hw Hc] [taken Hr].
  - exists taken. by constructor.
  - eexists. by eapply run_act.
Qed.

(** A schedule, for examples. *)
Definition run_task (c : Conn) (e : nat * Io) : Conn :=
  match c.2 !! e.1 with
  | Some t => match write_data e.2 c.1 t with Some (s', t', sp) => (s', <[e.1 := t']> c.2 ++ sp) | None => c end
  | None => c
  end.
Definition run_tasks (c : Conn) (es : list (nat * Io)) : Conn := foldl run_task c es.

(** ** Exclusion *)

Definition in_critical (t : Task) : bool :=
  match t with Locked _ _ | Writing _ _ _ | PutBack _ _ _ | Unlocking _ _ _ | NoHalf _ => true | _ => false end.
Definition holds_half (t : Task) : bool := match t with Writing _ _ _ | PutBack _ _ _ => true | _ => false end.
Definition count (p : Task → bool) (ts : list Task) : nat := length (List.filter p ts).

Lemma count_list_insert p ts i t t' : ts !! i = Some t →
  (count p (<[i := t']> ts) + Nat.b2n (p t) = count p ts + Nat.b2n (p t'))%nat.
Proof.
  unfold count. revert i. induction ts as [|u ts IH]; intros [|i] Hi; simplify_eq/=.
  - destruct (p t), (p t'); simpl; lia.
  - specialize (IH i Hi). destruct (p u); simpl; lia.
Qed.

Lemma count_app p ts us : count p (ts ++ us) = (count p ts + count p us)%nat.
Proof. unfold count. by rewrite List.filter_app, length_app. Qed.

Lemma count_nil p : count p [] = 0%nat.
Proof. done. Qed.
Lemma count_one p t : count p [t] = Nat.b2n (p t).
Proof. unfold count. simpl. by destruct (p t). Qed.

Lemma count_elem p ts i t : ts !! i = Some t → p t = true → (1 ≤ count p ts)%nat.
Proof.
  unfold count. revert i. induction ts as [|u ts IH]; intros [|i] Hi Hp; simplify_eq/=; [rewrite Hp; simpl; lia|].
  specialize (IH i Hi Hp). destruct (p u); simpl; lia.
Qed.

(** A critical section has one task, exactly when the lock is taken; the write half is in its
    cell, in one task's hands, or shut down. *)
Record exclusive (c : Conn) : Prop := {
  ex_lock : count in_critical c.2 = Nat.b2n (write_lock c.1);
  ex_half : (count holds_half c.2 + Nat.b2n (write_half c.1) + Nat.b2n (half_closed c.1) = 1)%nat }.

Lemma holds_critical t : holds_half t = true → in_critical t = true.
Proof. by destruct t. Qed.

Lemma exclusive_step calm c c' : conn_step calm c c' → exclusive c → exclusive c'.
Proof.
  intros Hs [Hl Hh]. destruct Hs as [s ts t Ht|s ts i io t s' t' sp Hi Hw _]; simpl in *.
  - split; simpl; rewrite count_app, count_one; destruct Ht as [->|[data ->]]; simpl; lia.
  - pose proof (count_list_insert in_critical ts i t t' Hi) as H1. pose proof (count_list_insert holds_half ts i t t' Hi) as H2.
    destruct s as [[] [] [] [] w]; split; simpl; rewrite count_app.
    all: destruct t; simpl in Hw; repeat case_match; simplify_eq/=; repeat case_match; simplify_eq/=; rewrite ?count_nil, ?count_one; simpl in *; lia.
Qed.

Lemma critical_unique c i j t u : exclusive c → c.2 !! i = Some t → c.2 !! j = Some u →
  in_critical t = true → in_critical u = true → i = j.
Proof.
  intros [Hl _] Hi Hj Ht Hu. destruct (decide (i = j)) as [|Hne]; [done|]. exfalso.
  pose proof (count_list_insert in_critical c.2 i t Disconnected Hi) as H1. rewrite Ht in H1. simpl in H1.
  pose proof (count_elem in_critical (<[i := Disconnected]> c.2) j u) as H2. rewrite list_lookup_insert_ne in H2 by done.
  specialize (H2 Hj Hu). destruct (write_lock c.1); simpl in *; lia.
Qed.

(** ** What is on the wire *)

Definition data_of (t : Task) : list Z :=
  match t with
  | Enter d | Attempt _ d | Locked _ d | Writing _ d _ | PutBack _ d _ | Unlocking _ d _ | NoHalf d | Failing d | Returned d _ => d
  | Disconnect | Closing | Disconnected => []
  end.
Definition task_data (ts : list Task) (i : nat) : list Z := default [] (data_of <$> ts !! i).

(** The write went through. *)
Definition finished (t : Task) : bool :=
  match t with PutBack _ _ Written | Unlocking _ _ Written | Returned _ true => true | _ => false end.

(** One attempt of a task, and the bytes it got through. *)
Abbreviation Segment := (nat * nat)%type.
Definition segment_bytes (ts : list Task) (g : Segment) : list Z := take g.2 (task_data ts g.1).
Definition on_wire (ts : list Task) (segs : list Segment) : list Z := concat (map (segment_bytes ts) segs).

(** What a task that never fails has contributed. *)
Definition accounts (t : Task) (k : nat) : Prop :=
  (∃ n, t = Writing n (data_of t) k) ∨ (finished t = true ∧ k = length (data_of t)).

Record wire_ok (calm : bool) (c : Conn) (segs : list Segment) : Prop := {
  wo_wire : wire c.1 = on_wire c.2 segs;
  wo_range : ∀ i k, (i, k) ∈ segs → (i < length c.2)%nat;
  wo_writing : ∀ i n data sent, c.2 !! i = Some (Writing n data sent) → last segs = Some (i, sent) ∧ (sent ≤ length data)%nat;
  wo_finished : ∀ i t, c.2 !! i = Some t → finished t = true → (i, length (data_of t)) ∈ segs;
  wo_nodup : calm = true → NoDup (map fst segs);
  wo_accounts : calm = true → ∀ i k, (i, k) ∈ segs → ∃ t, c.2 !! i = Some t ∧ accounts t k }.

Lemma data_of_step io s t s' t' sp : write_data io s t = Some (s', t', sp) → data_of t' = data_of t ∧
  ∀ u, u ∈ sp → u = Disconnect.
Proof. destruct t; simpl; intros; repeat case_match; simplify_eq/=; set_solver. Qed.

Lemma task_data_app ts us i : (i < length ts)%nat → task_data (ts ++ us) i = task_data ts i.
Proof. intros Hi. unfold task_data. by rewrite lookup_app_l. Qed.

Lemma task_data_insert ts i j t t' : ts !! i = Some t → data_of t' = data_of t → task_data (<[i := t']> ts) j = task_data ts j.
Proof.
  intros Hi Hd. unfold task_data. destruct (decide (i = j)) as [<-|Hne]; [|by rewrite list_lookup_insert_ne].
  rewrite list_lookup_insert_eq by by eapply lookup_lt_Some. by rewrite Hi; simpl; rewrite Hd.
Qed.

Lemma on_wire_ext ts ts' segs : (∀ i k, (i, k) ∈ segs → task_data ts' i = task_data ts i) → on_wire ts' segs = on_wire ts segs.
Proof.
  unfold on_wire. intros Hd. f_equal. apply map_ext_in. intros [i k] Hin%list_elem_of_In. unfold segment_bytes. simpl. by rewrite (Hd i k Hin).
Qed.

Lemma on_wire_snoc ts segs g : on_wire ts (segs ++ [g]) = on_wire ts segs ++ segment_bytes ts g.
Proof. unfold on_wire. rewrite map_app, concat_app. simpl. by rewrite app_nil_r. Qed.

(** The tasks after a step, at an index. *)
Lemma lookup_after ts i t t' sp j u : ts !! i = Some t → (∀ v, v ∈ sp → v = Disconnect) → (<[i := t']> ts ++ sp) !! j = Some u →
  (j = i ∧ u = t') ∨ (j ≠ i ∧ ts !! j = Some u) ∨ u = Disconnect.
Proof.
  intros Hi Hsp Hj. apply lookup_app_Some in Hj as [Hj|[_ Hj]]; [|right; right; apply Hsp; by eapply list_elem_of_lookup_2].
  apply list_lookup_insert_Some in Hj as [(-> & -> & _)|[Hne Hj]]; [by left|right; left; split; [by intros ->|done]].
Qed.

Section steps.
Context (calm : bool) (s s' : Socket) (ts : list Task) (i : nat) (t t' : Task) (sp : list Task) (segs : list Segment).
Context (Hok : wire_ok calm (s, ts) segs) (Hi : ts !! i = Some t) (Hd : data_of t' = data_of t) (Hsp : ∀ u, u ∈ sp → u = Disconnect).

Lemma data_after j : (j < length ts)%nat → task_data (<[i := t']> ts ++ sp) j = task_data ts j.
Proof using Hi Hd. intros Hj. rewrite task_data_app by by rewrite length_insert. by eapply task_data_insert. Qed.

Lemma wire_after : on_wire (<[i := t']> ts ++ sp) segs = on_wire ts segs.
Proof using Hok Hi Hd. apply on_wire_ext. intros j k Hin. apply data_after. by apply (wo_range _ _ _ Hok _ _ Hin). Qed.

Lemma range_after j : (j < length ts)%nat → (j < length (<[i := t']> ts ++ sp))%nat.
Proof. rewrite length_app, length_insert. lia. Qed.

Lemma accounts_elsewhere j k : j ≠ i → (∃ u, ts !! j = Some u ∧ accounts u k) → ∃ u, (<[i := t']> ts ++ sp) !! j = Some u ∧ accounts u k.
Proof.
  intros Hne (u & Hj & Ha). exists u. split; [|done]. rewrite lookup_app_l by (rewrite length_insert; by eapply lookup_lt_Some).
  by rewrite list_lookup_insert_ne.
Qed.

Lemma lookup_here : (<[i := t']> ts ++ sp) !! i = Some t'.
Proof using Hi. rewrite lookup_app_l by (rewrite length_insert; by eapply lookup_lt_Some). apply list_lookup_insert_eq. by eapply lookup_lt_Some. Qed.

(** A step that writes nothing. *)
Lemma wire_ok_keep : wire s' = wire s → (∀ n d k, t' ≠ Writing n d k) →
  (finished t' = true → (i, length (data_of t)) ∈ segs) → (calm = true → ∀ k, (i, k) ∈ segs → accounts t k → accounts t' k) →
  wire_ok calm (s', <[i := t']> ts ++ sp) segs.
Proof using Hok Hi Hd Hsp.
  intros Hw Hnw Hf Ha. destruct Hok as [H1 H2 H3 H4 H5 H6]. split; simpl in *.
  - by rewrite Hw, wire_after.
  - intros j k Hin. by apply range_after, (H2 j k).
  - intros j n data sent Hj. apply (lookup_after ts i t) in Hj as [[_ Hx]|[[_ Hj]|Hx]]; [by destruct (Hnw n data sent)|by eapply H3|done|done|done].
  - intros j u Hj Hfu. apply (lookup_after ts i t) in Hj as [[-> ->]|[[_ Hj]| ->]]; [rewrite Hd; by apply Hf|by apply H4|done|done|done].
  - done.
  - intros Hc j k Hin. destruct (H6 Hc j k Hin) as (u & Hu & Hau). destruct (decide (j = i)) as [->|Hne].
    + exists t'. split; [apply lookup_here|]. simplify_eq. by apply Ha.
    + apply accounts_elsewhere; eauto.
Qed.

(** The write half was taken: a new attempt. *)
Lemma wire_ok_begin n data : exclusive (s, ts) → t = Locked n data → t' = Writing n data 0 → wire s' = wire s →
  wire_ok calm (s', <[i := t']> ts ++ sp) (segs ++ [(i, 0%nat)]).
Proof using Hok Hi Hd Hsp.
  intros Hex Ht Ht' Hw. destruct Hok as [H1 H2 H3 H4 H5 H6]. split; simpl in *.
  - rewrite Hw, H1, on_wire_snoc, wire_after. unfold segment_bytes. simpl. by rewrite app_nil_r.
  - intros j k [Hin|Hin%list_elem_of_singleton]%elem_of_app; apply range_after; [by apply (H2 j k)|]. simplify_eq. by eapply lookup_lt_Some.
  - intros j n' data' sent Hj. apply (lookup_after ts i t) in Hj as [[-> Heq]|[[Hne Hj]|Hx]]; [|exfalso|done|done|done].
    + rewrite last_snoc. rewrite Ht' in Heq. simplify_eq. split; [done|lia].
    + apply Hne. symmetry. eapply (critical_unique (s, ts)); [done|exact Hi|exact Hj|by rewrite Ht|done].
  - intros j u Hj Hfu. rewrite elem_of_app. left. apply (lookup_after ts i t) in Hj as [[-> ->]|[[_ Hj]| ->]]; [by rewrite Ht' in Hfu|by apply H4|done|done|done].
  - intros Hc. rewrite map_app. apply NoDup_app. split_and!; [by apply H5| |apply NoDup_singleton]. simpl.
    intros j ([j' k] & -> & Hin)%list_elem_of_fmap Heq%list_elem_of_singleton. simpl in Heq. subst j'. destruct (H6 Hc _ _ Hin) as (u & Hu & Hau). simpl in Hu.
    rewrite Hi in Hu. simplify_eq. by destruct Hau as [[m Hx]|[Hx _]].
  - intros Hc j k [Hin|Hin%list_elem_of_singleton]%elem_of_app.
    + destruct (decide (j = i)) as [->|Hne]; [|by apply accounts_elsewhere; [|apply (H6 Hc)]].
      destruct (H6 Hc _ _ Hin) as (u & Hu & Hau). rewrite Hi in Hu. simplify_eq. by destruct Hau as [[m Hx]|[Hx _]].
    + injection Hin as -> ->. exists t'. split; [apply lookup_here|]. left. exists n. by rewrite Ht'.
Qed.

(** Some more bytes. *)
Lemma wire_ok_progress n data sent k : exclusive (s, ts) → t = Writing n data sent → t' = Writing n data (sent + k) →
  wire s' = wire s ++ take k (drop sent data) → (sent + k ≤ length data)%nat →
  ∃ segs', wire_ok calm (s', <[i := t']> ts ++ sp) segs' ∧ map fst segs' = map fst segs.
Proof using Hok Hi Hd Hsp.
  intros Hex Ht Ht' Hw Hk. pose proof wire_after as Hwa. destruct Hok as [H1 H2 H3 H4 H5 H6]. simpl in *.
  destruct (H3 i n data sent) as [Hlast _]; [by rewrite Hi, Ht|]. apply last_Some in Hlast as [segs0 ->].
  assert ((i < length ts)%nat) as Hlt by by eapply lookup_lt_Some.
  assert (task_data ts i = data) as Htd by (unfold task_data; by rewrite Hi, Ht).
  assert (NoDup (map fst (segs0 ++ [(i, sent)])) → ∀ j m, (j, m) ∈ segs0 → j ≠ i) as Hother.
  { rewrite map_app. intros (_ & Hnd & _)%NoDup_app j m Hin ->. apply (Hnd i); [by apply (list_elem_of_fmap_2 fst) in Hin|set_solver]. }
  exists (segs0 ++ [(i, (sent + k)%nat)]). split; [split; simpl|by rewrite !map_app].
  - rewrite Hw, H1, <- Hwa, !on_wire_snoc, <- app_assoc. f_equal. unfold segment_bytes. simpl. rewrite data_after, Htd by done.
    by rewrite take_take_drop.
  - intros j m [Hin|Hin%list_elem_of_singleton]%elem_of_app; apply range_after; [apply (H2 j m); set_solver|by simplify_eq].
  - intros j n' data' m Hj. apply (lookup_after ts i t) in Hj as [[-> Heq]|[[Hne Hj]|Hx]]; [|exfalso|done|done|done].
    + rewrite last_snoc. rewrite Ht' in Heq. by simplify_eq.
    + apply Hne. symmetry. eapply (critical_unique (s, ts)); [done|exact Hi|exact Hj|by rewrite Ht|done].
  - intros j u Hj Hfu. apply (lookup_after ts i t) in Hj as [[-> ->]|[[Hne Hj]| ->]]; [by rewrite Ht' in Hfu| |done|done|done].
    rewrite elem_of_app. left. pose proof (H4 j u Hj Hfu) as [Hin|Hin%list_elem_of_singleton]%elem_of_app; [done|by simplify_eq].
  - intros Hc. specialize (H5 Hc). by rewrite map_app in *.
  - intros Hc j m [Hin|Hin%list_elem_of_singleton]%elem_of_app.
    + apply accounts_elsewhere; [by eapply Hother; [apply H5|]|]. apply (H6 Hc). set_solver.
    + injection Hin as -> ->. exists t'. split; [apply lookup_here|]. left. exists n. by rewrite Ht'.
Qed.
End steps.

Lemma wire_ok_start calm s ts t segs : (t = Disconnect ∨ ∃ data, t = Enter data) → wire_ok calm (s, ts) segs → wire_ok calm (s, ts ++ [t]) segs.
Proof.
  intros Ht [H1 H2 H3 H4 H5 H6]. simpl in *.
  assert (∀ j u, (ts ++ [t]) !! j = Some u → ts !! j = Some u ∨ u = t) as Hl.
  { intros j u [Hj|[_ Hj]]%lookup_app_Some; [by left|right]. apply list_elem_of_lookup_2, list_elem_of_singleton in Hj. done. }
  split; simpl.
  - rewrite H1. symmetry. apply on_wire_ext. intros j k Hin. apply task_data_app. by apply (H2 j k).
  - intros j k Hin. rewrite length_app. pose proof (H2 j k Hin). lia.
  - intros j n data sent [Hj|Heq]%Hl; [by eapply H3|by destruct Ht as [->|[d ->]]].
  - intros j u [Hj| ->]%Hl Hf; [by apply H4|by destruct Ht as [->|[d ->]]].
  - done.
  - intros Hc j k Hin. destruct (H6 Hc j k Hin) as (u & Hu & Ha). exists u. split; [by apply lookup_app_l_Some|done].
Qed.

Lemma wire_ok_act calm s ts i io t s' t' sp segs : ts !! i = Some t → write_data io s t = Some (s', t', sp) → (calm = true → calm_io io) →
  exclusive (s, ts) → wire_ok calm (s, ts) segs →
  ∃ segs', wire_ok calm (s', <[i := t']> ts ++ sp) segs' ∧ map fst segs' = map fst segs ++ begun i t t'.
Proof.
  intros Hi Hw Hc Hex Hok. destruct (data_of_step _ _ _ _ _ _ Hw) as [Hd Hsp].
  assert (wire s' = wire s → (∀ n d k, t' ≠ Writing n d k) → (finished t' = true → (i, length (data_of t)) ∈ segs) →
    (calm = true → ∀ k, (i, k) ∈ segs → accounts t k → accounts t' k) →
    wire_ok calm (s', <[i := t']> ts ++ sp) segs ∧ map fst segs = map fst segs ++ begun i t t') as Hkeep.
  { intros ? Hn ? ?. split; [by apply (wire_ok_keep calm s s' ts i t)|]. unfold begun. destruct t, t'; rewrite ?app_nil_r; try done. by edestruct Hn. }
  destruct t as [data|n data|n data|n data sent|n data r|n data r|data|data|data ok| | |]; simpl in Hw.
  - exists segs. simplify_eq. apply Hkeep; [done|by destruct (disconnecting _)|by destruct (disconnecting _)|].
    intros _ k _ [[m Hx]|[Hx _]]; done.
  - exists segs. repeat case_match; simplify_eq; (apply Hkeep; [done|done|done|intros _ k _ [[m Hx]|[Hx _]]; done]).
  - destruct (write_half s); simplify_eq.
    + exists (segs ++ [(i, 0%nat)]). split; [by eapply wire_ok_begin|by rewrite map_app].
    + exists segs. apply Hkeep; [done|done|done|intros _ k _ [[m Hx]|[Hx _]]; done].
  - destruct (wo_writing _ _ _ Hok i n data sent Hi) as [Hlast Hle]. destruct io as [k|r].
    + destruct (Nat.leb_spec (sent + k) (length data)); simplify_eq. cbn [begun]. rewrite (app_nil_r (map fst segs)). by eapply wire_ok_progress.
    + exists segs. assert (r = Written → sent = length data) as Hr by (intros ->; destruct (Nat.eqb_spec sent (length data)); done).
      assert (s' = s ∧ t' = PutBack n data r ∧ sp = []) as (-> & -> & ->) by (destruct r; repeat case_match; by simplify_eq).
      apply last_Some in Hlast as [segs0 ->]. apply Hkeep; [done|done| |].
      * simpl. destruct r; [|done|done]. intros _. rewrite <- Hr by done. set_solver.
      * intros Hcalm k _ [[m Hx]|[Hx _]]; [|done]. simplify_eq/=. right. destruct r; [|by destruct (Hc eq_refl)..]. split; [done|by apply Hr].
  - exists segs. simplify_eq. apply Hkeep; [done|done| |].
    + destruct r; [|done|done]. intros _. by apply (wo_finished _ _ _ Hok i _ Hi).
    + intros _ k _ [[m Hx]|[Hx ->]]; [done|]. right. by destruct r.
  - exists segs. simplify_eq. apply Hkeep; [done|by destruct r; repeat case_match| |].
    + destruct r; simpl; [intros _; by apply (wo_finished _ _ _ Hok i _ Hi)|done|by case_match].
    + intros _ k _ [[m Hx]|[Hx ->]]; [done|]. right. by destruct r.
  - exists segs. simplify_eq. apply Hkeep; [done|done|done|intros _ k _ [[m Hx]|[Hx _]]; done].
  - exists segs. simplify_eq. apply Hkeep; [done|done|done|intros _ k _ [[m Hx]|[Hx _]]; done].
  - done.
  - exists segs. destruct (disconnecting s); simplify_eq; (apply Hkeep; [done|done|done|intros _ k _ [[m Hx]|[Hx _]]; done]).
  - exists segs. destruct (write_half s); simplify_eq; (apply Hkeep; [done|done|done|intros _ k _ [[m Hx]|[Hx _]]; done]).
  - done.
Qed.

(** ** The order of the locks *)

(** Tasks that have had the lock and will not ask for it again when nothing fails. *)
Definition past (t : Task) : bool :=
  match t with
  | Locked _ _ | Writing _ _ _ | NoHalf _ | Failing _ | Returned _ _ | PutBack _ _ Written | Unlocking _ _ Written => true
  | _ => false
  end.

Record taken_ok (calm : bool) (ts : list Task) (writers taken : list nat) : Prop := {
  (** Who writes has taken the lock, in that order; who has the lock took it last. *)
  to_sub : sublist writers taken;
  to_last : ∀ i t, ts !! i = Some t → in_critical t = true → last taken = Some i;
  to_locked : ∀ i n data, ts !! i = Some (Locked n data) → ∃ before, taken = before ++ [i] ∧ sublist writers before;
  to_once : calm = true → NoDup taken;
  to_past : calm = true → ∀ i, i ∈ taken → ∃ t, ts !! i = Some t ∧ past t = true }.

(** How a step changes who has the lock. *)
Lemma critical_act io s t s' t' sp i : write_data io s t = Some (s', t', sp) →
  (acquired i t t' = [i] ∧ write_lock s = false ∧ (∃ n d, t = Attempt n d ∧ t' = Locked n d) ∧ begun i t t' = []) ∨
  (acquired i t t' = [] ∧ (in_critical t' = true → in_critical t = true) ∧ (∀ n d, t' ≠ Locked n d)).
Proof. destruct t; simpl; intros; repeat case_match; simplify_eq/=; try (right; split_and!; done); left; split_and!; eauto. Qed.

Lemma past_act calm io s t s' t' sp : write_data io s t = Some (s', t', sp) → (calm = true → calm_io io) → calm = true → past t = true → past t' = true.
Proof.
  intros Hw Hc ->. specialize (Hc eq_refl). destruct t; simpl in Hw |- *; try done; intros; repeat case_match; simplify_eq/=; done.
Qed.

Lemma taken_ok_act calm s ts i io t s' t' sp writers taken : ts !! i = Some t → write_data io s t = Some (s', t', sp) → (calm = true → calm_io io) →
  exclusive (s, ts) → taken_ok calm ts writers taken →
  taken_ok calm (<[i := t']> ts ++ sp) (writers ++ begun i t t') (taken ++ acquired i t t').
Proof.
  intros Hi Hw Hc Hex [H1 H2 H3 H4 H5]. destruct (data_of_step _ _ _ _ _ _ Hw) as [_ Hsp].
  assert (∀ j u, (<[i := t']> ts ++ sp) !! j = Some u → (j = i ∧ u = t') ∨ (j ≠ i ∧ ts !! j = Some u) ∨ u = Disconnect) as Hafter by (intros; by eapply lookup_after).
  assert (∀ j u, ts !! j = Some u → past u = true → calm = true → ∃ v, (<[i := t']> ts ++ sp) !! j = Some v ∧ past v = true) as Hpast.
  { intros j u Hj Hp Hcalm. destruct (decide (j = i)) as [->|Hne]; [|exists u; split; [|done]; rewrite lookup_app_l by (rewrite length_insert; by eapply lookup_lt_Some); by rewrite list_lookup_insert_ne].
    exists t'. split; [by eapply lookup_here|]. simplify_eq. by eapply past_act. }
  destruct (critical_act _ _ _ _ _ _ i Hw) as [(Ha & Hfree & (n & d & -> & ->) & Hb)|(Ha & Hcrit & Hnl)]; rewrite Ha.
  - assert (∀ j u, ts !! j = Some u → in_critical u = false) as Hnone.
    { intros j u Hj. apply not_true_iff_false. intros Hu. pose proof (count_elem in_critical ts j u Hj Hu) as Hcnt. pose proof (ex_lock _ Hex) as Hl.
      simpl in Hl. rewrite Hfree in Hl. simpl in Hl. lia. }
    rewrite Hb, app_nil_r. split.
    + by apply sublist_inserts_r.
    + intros j u [[-> _]|[[_ Hj]| ->]]%Hafter Hu; [by rewrite last_snoc|by rewrite (Hnone j u Hj) in Hu|done].
    + intros j n' d' [[-> _]|[[_ Hj]|Hx]]%Hafter; [by exists taken|by specialize (Hnone _ _ Hj)|done].
    + intros Hcalm. apply NoDup_app. split_and!; [auto| |apply NoDup_singleton]. intros x Hx ->%list_elem_of_singleton.
      destruct (H5 Hcalm i Hx) as (u & Hu & Hp). by simplify_eq.
    + intros Hcalm j [Hj|Hj%list_elem_of_singleton]%elem_of_app; [destruct (H5 Hcalm j Hj) as (u & Hu & Hp); by eapply Hpast|].
      subst j. eexists. by split; [eapply lookup_here|].
  - rewrite app_nil_r. split.
    + unfold begun. destruct t, t'; rewrite ?app_nil_r; try done. destruct (H3 i _ _ Hi) as (before & -> & Hs). by apply sublist_app.
    + intros j u [[-> ->]|[[_ Hj]| ->]]%Hafter Hu; [by eapply H2; [|apply Hcrit]|by eapply H2|done].
    + intros j n' d' [[-> Hx]|[[Hne Hj]|Hx]]%Hafter; [by destruct (Hnl n' d')| |done]. destruct (H3 j n' d' Hj) as (before & Htk & Hs). exists before.
      split; [done|]. assert (begun i t t' = []) as ->; [|by rewrite app_nil_r]. destruct t, t'; try done. exfalso. apply Hne.
      eapply (critical_unique (s, ts)); [done|exact Hj|exact Hi|done|done].
    + done.
    + intros Hcalm j Hj. destruct (H5 Hcalm j Hj) as (u & Hu & Hp). by eapply Hpast.
Qed.

Lemma taken_ok_start calm ts t writers taken : (t = Disconnect ∨ ∃ data, t = Enter data) → taken_ok calm ts writers taken → taken_ok calm (ts ++ [t]) writers taken.
Proof.
  intros Ht [H1 H2 H3 H4 H5].
  assert (∀ j u, (ts ++ [t]) !! j = Some u → ts !! j = Some u ∨ u = t) as Hl.
  { intros j u [Hj|[_ Hj]]%lookup_app_Some; [by left|right]. apply list_elem_of_lookup_2, list_elem_of_singleton in Hj. done. }
  split; [done| | |done|].
  - intros i u [Hi| ->]%Hl Hu; [by eapply H2|]. by destruct Ht as [-> |[d ->]].
  - intros i n d [Hi|Hx]%Hl; [by eapply H3|]. by destruct Ht as [-> |[d' ->]].
  - intros Hc i Hi. destruct (H5 Hc i Hi) as (u & Hu & Hp). exists u. split; [by apply lookup_app_l_Some|done].
Qed.

Lemma conn_run_ok calm taken c : conn_run calm taken c → exclusive c ∧ ∃ segs, wire_ok calm c segs ∧ taken_ok calm c.2 (map fst segs) taken.
Proof.
  induction 1 as [|taken s ts t _ (Hex & segs & Hok & Htk) Ht|taken s ts i io t s' t' sp _ (Hex & segs & Hok & Htk) Hi Hw Hc].
  - split; [done|]. exists []. split; split; simpl; try done; try set_solver; intros _; apply NoDup_nil_2.
  - split; [by eapply (exclusive_step calm); [apply step_start|]|]. exists segs. split; [by apply wire_ok_start|by apply taken_ok_start].
  - split; [by eapply (exclusive_step calm); [eapply step_task|]|]. destruct (wire_ok_act calm s ts i io t s' t' sp segs) as (segs' & Hok' & Hf); [done..|].
    exists segs'. split; [done|]. rewrite Hf. by eapply taken_ok_act.
Qed.

(** What a task has put on the wire, when nothing has failed. *)
Definition sent_by (ts : list Task) (i : nat) : list Z :=
  match ts !! i with
  | Some (Writing _ data k) => take k data
  | Some t => if finished t then data_of t else []
  | None => []
  end.

Lemma on_wire_infix ts segs i k : (i, k) ∈ segs → ∃ before after, on_wire ts segs = before ++ take k (task_data ts i) ++ after.
Proof.
  intros (a & b & ->)%list_elem_of_split. unfold on_wire. rewrite map_app, concat_app. simpl. by eexists _, _.
Qed.

Lemma concat_sublist {A} (f : nat → list A) l1 l2 : sublist l1 l2 → NoDup l2 → (∀ x, x ∈ l2 → x ∉ l1 → f x = []) → concat (map f l2) = concat (map f l1).
Proof.
  induction 1 as [|x l1 l2 Hs IH|x l1 l2 Hs IH]; intros Hnd Hf; [done| |].
  - apply NoDup_cons in Hnd as [Hx Hnd]. simpl. f_equal. apply IH; [done|]. intros y Hy Hn. apply Hf; [set_solver|]. intros [-> |Hy']%elem_of_cons; [by apply Hx|by apply Hn].
  - apply NoDup_cons in Hnd as [Hx Hnd]. simpl. rewrite Hf; [|set_solver|intros Hin; by eapply Hx, sublist_subseteq]. simpl. apply IH; [done|]. set_solver.
Qed.

(** The calm case: what each task has sent, in the order the tasks took the lock. *)
Lemma calm_wire s ts segs taken : wire_ok true (s, ts) segs → taken_ok true ts (map fst segs) taken → wire s = concat (map (sent_by ts) taken).
Proof.
  intros [H1 H2 H3 H4 _ H6] [Hs _ _ Hn _]. specialize (H6 eq_refl). simpl in *. rewrite (concat_sublist _ _ _ Hs (Hn eq_refl)).
  - rewrite H1. unfold on_wire. rewrite map_map. f_equal. apply map_ext_in. intros [i k] Hin%list_elem_of_In. simpl.
    destruct (H6 i k Hin) as (t & Ht & [[n Hx]|[Hf ->]]); unfold segment_bytes, task_data, sent_by; simpl; rewrite Ht; simpl.
    + destruct t; try done. simpl in Hx. by injection Hx as _ <-.
    + rewrite take_ge by done. by destruct t as [| | | | |? ? []| | |? []| | |]; simpl in *; try done; destruct r.
  - intros i _ Hni. unfold sent_by. destruct (ts !! i) as [t|] eqn:Ht; [|done]. destruct (finished t) eqn:Ef.
    + destruct Hni. by apply (list_elem_of_fmap_2 fst _ (i, length (data_of t))), H4.
    + destruct t; try done. destruct (H3 _ _ _ _ Ht) as [[segs0 ->]%last_Some _]. destruct Hni. rewrite map_app. set_solver.
Qed.

(** C29: Whatever the tasks of a connection and the socket do: no two tasks are writing at a time, the
    one that has the lock took it last, a write that was answered [Ok] is on the wire whole and in one
    piece, and the wire is the attempts to write a message from its start, in the order the writers took
    the lock.  If no write fails or times out, no task takes the lock twice and the wire is, in the order
    the lock was taken, each message that went through and the part already sent of the one in progress. *)
Theorem wire_carries_messages calm taken s ts : conn_run calm taken (s, ts) →
  (∀ i j t u, ts !! i = Some t → ts !! j = Some u → holds_half t = true → holds_half u = true → i = j) ∧
  (∀ i t, ts !! i = Some t → in_critical t = true → last taken = Some i) ∧
  (∀ i data, ts !! i = Some (Returned data true) → ∃ before after, wire s = before ++ data ++ after) ∧
  (∃ segs, wire s = on_wire ts segs ∧ sublist (map fst segs) taken) ∧
  (calm = true → NoDup taken ∧ wire s = concat (map (sent_by ts) taken)).
Proof.
  intros Hr. destruct (conn_run_ok _ _ _ Hr) as (Hex & segs & Hok & Htk). split_and!.
  - intros i j t u Hi Hj Ht Hu. eapply (critical_unique (s, ts)); eauto using holds_critical.
  - apply Htk.
  - intros i data Hi. pose proof (wo_wire _ _ _ Hok) as Hw. pose proof (wo_finished _ _ _ Hok i _ Hi eq_refl) as Hin. simpl in *.
    destruct (on_wire_infix ts _ _ _ Hin) as (a & b & Heq). exists a, b. rewrite Hw, Heq. unfold task_data. rewrite Hi. simpl. by rewrite take_ge.
  - exists segs. split; [apply (wo_wire _ _ _ Hok)|apply Htk].
  - intros ->. split; [by apply Htk|by eapply calm_wire].
Qed.

(** ** Runs *)

Lemma run_task_rtc calm c e : (calm = true → calm_io e.2) → rtc (conn_step calm) c (run_task c e).
Proof.
  intros Hc. unfold run_task. destruct (c.2 !! e.1) as [t|] eqn:Ht; [|done]. destruct (write_data e.2 c.1 t) as [[[s' t'] sp]|] eqn:Hw; [|done].
  apply rtc_once. destruct c as [s ts]. by eapply step_task.
Qed.

Lemma run_tasks_rtc calm es c : (calm = true → Forall (λ e, calm_io e.2) es) → rtc (conn_step calm) c (run_tasks c es).
Proof.
  revert c. induction es as [|e es IH]; intros c Hc; simpl; [done|]. etrans.
  - apply (run_task_rtc calm c e). intros ->. by apply Forall_cons in Hc as [? _].
  - apply IH. intros ->. by apply Forall_cons in Hc as [_ ?].
Qed.

(** The locks a schedule takes. *)
Definition run_taken (c : Conn) (e : nat * Io) : list nat :=
  match c.2 !! e.1 with
  | Some t => match write_data e.2 c.1 t with Some (_, t', _) => acquired e.1 t t' | None => [] end
  | None => []
  end.
Definition runs_taken (c : Conn) (es : list (nat * Io)) : list nat := (foldl (λ ct e, (run_task ct.1 e, ct.2 ++ run_taken ct.1 e)) (c, []) es).2.

Lemma run_task_run calm taken c e : (calm = true → calm_io e.2) → conn_run calm taken c → conn_run calm (taken ++ run_taken c e) (run_task c e).
Proof.
  intros Hc Hr. unfold run_task, run_taken. destruct (c.2 !! e.1) as [t|] eqn:Ht; [|by rewrite app_nil_r].
  destruct (write_data e.2 c.1 t) as [[[s' t'] sp]|] eqn:Hw; [|by rewrite app_nil_r]. destruct c as [s ts]. by eapply run_act.
Qed.
Lemma run_tasks_run calm es c : Forall (λ e, calm = true → calm_io e.2) es → conn_run calm [] c → conn_run calm (runs_taken c es) (run_tasks c es).
Proof.
  intros He Hr. unfold runs_taken, run_tasks. enough (∀ taken, conn_run calm taken c →
    conn_run calm (foldl (λ ct e, (run_task ct.1 e, ct.2 ++ run_taken ct.1 e)) (c, taken) es).2 (foldl run_task c es)) as Hg by by apply Hg.
  clear Hr. revert c. induction He as [|e es He Hes IH]; intros c taken Hr; simpl; [done|]. apply IH. by apply run_task_run.
Qed.

(** The tasks are started first. *)
Definition started (ts : list Task) : Conn := (StratumContext_socket, ts).

Lemma started_rtc calm ts : Forall (λ t, t = Disconnect ∨ ∃ data, t = Enter data) ts → rtc (conn_step calm) new_conn (started ts).
Proof.
  induction ts as [|t ts IH] using rev_ind; intros Hts; [done|]. apply Forall_app in Hts as [Hts Ht].
  eapply rtc_r; [by apply IH|]. apply step_start. by apply Forall_cons in Ht as [? _].
Qed.

Lemma started_run calm ts : Forall (λ t, t = Disconnect ∨ ∃ data, t = Enter data) ts → conn_run calm [] (started ts).
Proof.
  induction ts as [|t ts IH] using rev_ind; intros Hts; [constructor|]. apply Forall_app in Hts as [Hts Ht].
  apply run_start; [by apply IH|]. by apply Forall_cons in Ht as [? _].
Qed.

Definition msg_a : list Z := [65; 65; 10].
Definition msg_b : list Z := [66; 66; 10].
(** Two writers, one after the other, the second having found the lock taken once. *)
Definition two_writers : list (nat * Io) :=
  [(0, Progress 0); (1, Progress 0); (0, Progress 0); (0, Progress 0); (0, Progress 2); (1, Progress 0); (0, Progress 1);
   (0, End Written); (0, Progress 0); (0, Progress 0); (1, Progress 0); (1, Progress 0); (1, Progress 2)]%nat.

Lemma wire_carries_messages_witness :
  let c := run_tasks (started [Enter msg_a; Enter msg_b]) two_writers in
  wire c.1 = msg_a ++ [66; 66] ∧ wire c.1 = sent_by c.2 0 ++ sent_by c.2 1 ++ [].
Proof.
  split; [reflexivity|].
  destruct (wire_carries_messages true [0; 1]%nat (run_tasks (started [Enter msg_a; Enter msg_b]) two_writers).1
    (run_tasks (started [Enter msg_a; Enter msg_b]) two_writers).2) as (_ & _ & _ & _ & Hcalm).
  - apply (run_tasks_run true two_writers (started [Enter msg_a; Enter msg_b])).
    + repeat (apply Forall_cons_2; [intros _; exact I|]). apply Forall_nil_2.
    + apply started_run. apply Forall_cons_2; [right; by eexists|]. apply Forall_cons_2; [right; by eexists|apply Forall_nil_2].
  - exact (proj2 (Hcalm eq_refl)).
Defined.

(** A write that timed out after some bytes is repeated from its start: the answer is [Ok], and
    the line the miner reads begins with the bytes of the first attempt. *)
Lemma retry_garbles_line : ∃ s ts, rtc (conn_step false) new_conn (s, ts) ∧
  ts = [Returned msg_a true] ∧ disconnecting s = false ∧ wire s = [65] ++ msg_a.
Proof.
  pose (es := [(0, Progress 0); (0, Progress 0); (0, Progress 0); (0, Progress 1); (0, End TimedOut); (0, Progress 0); (0, Progress 0);
    (0, Progress 0); (0, Progress 0); (0, Progress 3); (0, End Written); (0, Progress 0); (0, Progress 0)]%nat).
  exists (run_tasks (started [Enter msg_a]) es).1, (run_tasks (started [Enter msg_a]) es).2. split; [|done].
  rewrite <- surjective_pairing. etrans; [apply started_rtc|by apply run_tasks_rtc].
  apply Forall_cons_2; [right; by eexists|apply Forall_nil_2].
Qed.

(** Nothing fails and nobody disconnects, yet a reply is dropped as [ErrorDisconnected]: the lock
    is tried three times within 30 ms, while another write may take five seconds. *)
Lemma contention_drops_reply : ∃ s ts, rtc (conn_step true) new_conn (s, ts) ∧
  disconnecting s = false ∧ half_closed s = false ∧ ts !! 1%nat = Some (Returned msg_b false).
Proof.
  pose (es := [(0, Progress 0); (1, Progress 0); (0, Progress 0); (0, Progress 0); (1, Progress 0); (1, Progress 0); (1, Progress 0); (1, Progress 0)]%nat).
  exists (run_tasks (started [Enter msg_a; Enter msg_b]) es).1, (run_tasks (started [Enter msg_a; Enter msg_b]) es).2. split; [|done].
  rewrite <- surjective_pairing. etrans; [apply started_rtc|apply run_tasks_rtc].
  - apply Forall_cons_2; [right; by eexists|]. apply Forall_cons_2; [right; by eexists|apply Forall_nil_2].
  - intros _. repeat (apply Forall_cons_2; [exact I|]). apply Forall_nil_2.
Qed.

(** A connection closed while a task is writing keeps its write half: it is put back afterwards
    and never shut down. *)
Lemma disconnect_misses_half : ∃ s ts, rtc (conn_step true) new_conn (s, ts) ∧
  disconnecting s = true ∧ write_half s = true ∧ half_closed s = false ∧ ts = [Returned msg_a true; Disconnected].
Proof.
  pose (es := [(0, Progress 0); (0, Progress 0); (0, Progress 0); (1, Progress 0); (1, Progress 0); (0, Progress 3); (0, End Written);
    (0, Progress 0); (0, Progress 0)]%nat).
  exists (run_tasks (started [Enter msg_a; Disconnect]) es).1, (run_tasks (started [Enter msg_a; Disconnect]) es).2. split; [|done].
  rewrite <- surjective_pairing. etrans; [apply started_rtc|apply run_tasks_rtc].
  - apply Forall_cons_2; [right; by eexists|]. apply Forall_cons_2; [by left|apply Forall_nil_2].
  - intros _. repeat (apply Forall_cons_2; [exact I|]). apply Forall_nil_2.
Qed.
