(* ===== verification/Listener.v ===== *)
(** * Reading a connection (bridge/src/stratum_listener.rs)

    The loop that turns the bytes of a socket into lines and events.  Bytes
    and characters are integers; [String::from_utf8_lossy], [str::trim] and
    the byte length of text are written out.  The connection, the anti-abuse
    guard and the handlers are behind [Peer], the interface the loop uses. *)

From S2P Require Import Prelude Float64 Mass Db DupGuard Domain Events Bytes Hasher MiningState Stratum.
Local Open Scope Z_scope.

(** ** Text *)

Definition between (lo hi c : Z) : bool := (lo <=? c) && (c <=? hi).
Definition REPLACEMENT : Z := 65533.

(** A maximal invalid sequence becomes one replacement character. *)
Fixpoint from_utf8_lossy (bs : list Z) : list Z :=
  match bs with
  | [] => []
  | b0 :: r0 =>
      if b0 <? 128 then b0 :: from_utf8_lossy r0
      else if between 194 223 b0 then
        match r0 with
        | b1 :: r1 => if between 128 191 b1 then ((b0 - 192) * 64 + (b1 - 128)) :: from_utf8_lossy r1
                      else REPLACEMENT :: from_utf8_lossy r0
        | [] => [REPLACEMENT]
        end
      else if between 224 239 b0 then
        match r0 with
        | b1 :: r1 =>
            if between (if b0 =? 224 then 160 else 128) (if b0 =? 237 then 159 else 191) b1 then
              match r1 with
              | b2 :: r2 => if between 128 191 b2
                            then ((b0 - 224) * 4096 + (b1 - 128) * 64 + (b2 - 128)) :: from_utf8_lossy r2
                            else REPLACEMENT :: from_utf8_lossy r1
              | [] => [REPLACEMENT]
              end
            else REPLACEMENT :: from_utf8_lossy r0
        | [] => [REPLACEMENT]
        end
      else if between 240 244 b0 then
        match r0 with
        | b1 :: r1 =>
            if between (if b0 =? 240 then 144 else 128) (if b0 =? 244 then 143 else 191) b1 then
              match r1 with
              | b2 :: r2 =>
                  if between 128 191 b2 then
                    match r2 with
                    | b3 :: r3 => if between 128 191 b3
                                  then ((b0 - 240) * 262144 + (b1 - 128) * 4096 + (b2 - 128) * 64 + (b3 - 128)) :: from_utf8_lossy r3
                                  else REPLACEMENT :: from_utf8_lossy r2
                    | [] => [REPLACEMENT]
                    end
                  else REPLACEMENT :: from_utf8_lossy r1
              | [] => [REPLACEMENT]
              end
            else REPLACEMENT :: from_utf8_lossy r0
        | [] => [REPLACEMENT]
        end
      else REPLACEMENT :: from_utf8_lossy r0
  end.

Definition char_len (c : Z) : Z := if c <? 128 then 1 else if c <? 2048 then 2 else if c <? 65536 then 3 else 4.
(** [str::len]. *)
Definition str_len (s : list Z) : Z := sumZ (map char_len s).

(** [char::is_whitespace]. *)
Definition is_whitespace (c : Z) : bool :=
  between 9 13 c || (c =? 32) || (c =? 133) || (c =? 160) || (c =? 5760) || between 8192 8202 c ||
  (c =? 8232) || (c =? 8233) || (c =? 8239) || (c =? 8287) || (c =? 12288).
Fixpoint trim_start (s : list Z) : list Z :=
  match s with c :: s' => if is_whitespace c then trim_start s' else s | [] => [] end.
Definition trim (s : list Z) : list Z := rev (trim_start (rev (trim_start s))).

Definition codes (s : string) : list Z := map byte_of (chars s).
Fixpoint is_prefix (p s : list Z) : bool :=
  match p, s with
  | [], _ => true
  | a :: p, b :: s => (a =? b) && is_prefix p s
  | _, [] => false
  end.

Fixpoint first_line (s : list Z) : list Z :=
  match s with c :: s' => if c =? 10 then [] else c :: first_line s' | [] => [] end.

(** What a gRPC or HTTP client sends. *)
Definition is_http (line : list Z) : bool :=
  existsb (λ p, is_prefix (codes p) line)
    ["PRI * HTTP/2.0"; "PRI * HTTP/2"; "GET "; "POST "; "PUT "; "DELETE "; "HEAD "; "OPTIONS "] ||
  bool_decide (line = codes "SM").

(** ** The loop *)

Definition MAX_STRATUM_LINE_BYTES : Z := 64 * 1024.
Definition POST_AUTH_IDLE_TIMEOUT : Z := 600 * 1000000000.

Definition append_line_data (line_buffer data : list Z) : option (list Z) :=
  if MAX_STRATUM_LINE_BYTES <? str_len line_buffer + str_len data then None else Some (line_buffer ++ data).

(** The connection, [notify_disconnect], its token bucket at an instant and the handler of each method,
    called at an instant. *)
Class Peer (W : Type) := {
  peer_connected : W → bool;
  peer_disconnect : W → W;
  peer_notify : W → W;
  peer_frame : Z → W → bool * W;
  peer_handler : string → option (Z → JsonRpcEvent → W → W) }.

Record Listener (W : Type) := { line_buffer : list Z; first_message : bool; last_activity : Z; peer : W }.
Arguments line_buffer {W} _.
Arguments first_message {W} _.
Arguments last_activity {W} _.
Arguments peer {W} _.

(** A read of the socket: end of file, bytes, an error, or five seconds of silence.  With the bytes come
    the instants at which the loop turns to the lines they complete. *)
Inductive Read := REof | RData (bytes : list Z) (frames : nat → Z) | RError | RTimeout.

Section listener.
Context {W : Type} `{!Peer W, !JsonParser}.

(** One line; [false] breaks off. *)
Definition on_line (now : Z) (line : list Z) (w : W) : bool * W :=
  match line with
  | [] => (true, w)
  | _ =>
      if is_http line then (false, peer_disconnect w)
      else
        let '(granted, w) := peer_frame now w in
        if negb granted then (false, peer_disconnect w)
        else match unmarshal_event line with
             | Ok event => (true, match peer_handler (method event) with Some handle => handle now event w | None => w end)
             | Err _ => (true, w)
             end
  end.

(** [while let Some(newline_pos) = line_buffer.find('\n')]: [cur] is the text since the last line
    end, [rest] what is still to be searched; the [n]-th line of the read is taken up at [frames n]. *)
Fixpoint process_lines (frames : nat → Z) (n : nat) (cur rest : list Z) (w : W) : list Z * W :=
  match rest with
  | [] => (cur, w)
  | c :: rest =>
      if c =? 10 then
        match on_line (frames n) (trim cur) w with
        | (true, w) => process_lines frames (S n) [] rest w
        | (false, w) => (rest, w)
        end
      else process_lines frames n (cur ++ [c]) rest w
  end.

Definition on_data (now : Z) (bytes : list Z) (frames : nat → Z) (s : Listener W) : bool * Listener W :=
  let chunk := from_utf8_lossy (List.filter (λ b, negb (b =? 0)) bytes) in
  if first_message s && is_http (trim (first_line chunk)) then
    (false, {| line_buffer := line_buffer s; first_message := true; last_activity := now; peer := peer_disconnect (peer s) |})
  else match append_line_data (line_buffer s) chunk with
       | None => (false, {| line_buffer := line_buffer s; first_message := false; last_activity := now;
                            peer := peer_disconnect (peer s) |})
       | Some buffer =>
           let '(buffer, w) := process_lines frames 0 [] buffer (peer s) in
           (true, {| line_buffer := buffer; first_message := false; last_activity := now; peer := w |})
       end.

Definition on_read (now : Z) (r : Read) (s : Listener W) : bool * Listener W :=
  match r with
  | REof | RError => (false, s)
  | RData bytes frames => on_data now bytes frames s
  | RTimeout => (negb (POST_AUTH_IDLE_TIMEOUT <=? duration_since now (last_activity s)), s)
  end.

Definition close (s : Listener W) : Listener W :=
  {| line_buffer := line_buffer s; first_message := first_message s; last_activity := last_activity s;
     peer := peer_notify (peer_disconnect (peer s)) |}.

(** The loop over the reads made so far. *)
Fixpoint client_listener (reads : list (Z * Read)) (s : Listener W) : Listener W :=
  match reads with
  | [] => s
  | (now, r) :: reads =>
      if negb (peer_connected (peer s)) then close s
      else match on_read now r s with
           | (true, s) => client_listener reads s
           | (false, s) => close s
           end
  end.

(** [spawn_client_listener] on a new connection. *)
Definition spawn_client_listener (now : Z) (w : W) (reads : list (Z * Read)) : Listener W :=
  client_listener reads {| line_buffer := []; first_message := true; last_activity := now; peer := w |}.

(** ** The buffer is bounded *)

Lemma char_len_pos c : 1 ≤ char_len c.
Proof. unfold char_len. repeat case_match; lia. Qed.

Lemma str_len_app a b : str_len (a ++ b) = str_len a + str_len b.
Proof. unfold str_len. by rewrite map_app, sumZ_app. Qed.

Lemma str_len_cons c s : str_len (c :: s) = char_len c + str_len s.
Proof. done. Qed.

Lemma str_len_nonneg s : 0 ≤ str_len s.
Proof. induction s as [|c s IH]; [done|]. rewrite str_len_cons. pose proof (char_len_pos c). lia. Qed.

Lemma process_lines_len frames n cur rest w : str_len (process_lines frames n cur rest w).1 ≤ str_len cur + str_len rest.
Proof.
  revert n cur w. induction rest as [|c rest IH]; intros n cur w; simpl; [unfold str_len at 3; simpl; lia|].
  rewrite str_len_cons. pose proof (char_len_pos c). pose proof (str_len_nonneg cur). case_bool.
  - destruct (on_line (frames n) (trim cur) w) as [[] w']; simpl; [|lia]. etrans; [apply IH|]. unfold str_len at 1; simpl. lia.
  - etrans; [apply IH|]. rewrite str_len_app, str_len_cons. unfold str_len at 2; simpl. lia.
Qed.

Lemma on_read_len now r s : str_len (line_buffer s) ≤ MAX_STRATUM_LINE_BYTES →
  str_len (line_buffer (on_read now r s).2) ≤ MAX_STRATUM_LINE_BYTES.
Proof.
  intros Hs. destruct r as [|bytes frames| |]; simpl; try done. unfold on_data, append_line_data. case_bool; [done|].
  destruct (Z.ltb_spec MAX_STRATUM_LINE_BYTES (str_len (line_buffer s) + str_len (from_utf8_lossy (List.filter (λ b, negb (b =? 0)) bytes))))
    as [|Hle]; [done|].
  pose proof (process_lines_len frames 0 [] (line_buffer s ++ from_utf8_lossy (List.filter (λ b, negb (b =? 0)) bytes)) (peer s)) as Hl.
  destruct (process_lines _ _ _ _ _) as [buffer w]. simpl in *. rewrite str_len_app in Hl. unfold str_len at 2 in Hl. simpl in Hl. lia.
Qed.

Lemma client_listener_len reads s : str_len (line_buffer s) ≤ MAX_STRATUM_LINE_BYTES →
  str_len (line_buffer (client_listener reads s)) ≤ MAX_STRATUM_LINE_BYTES.
Proof.
  revert s. induction reads as [|[now r] reads IH]; intros s Hs; simpl; [done|]. case_bool; [done|].
  pose proof (on_read_len now r s Hs) as Hr. destruct (on_read now r s) as [[] s']; [by apply IH|done].
Qed.

(** Whatever a client sends, in whatever pieces, the text held for it never exceeds 64 KiB. *)
Theorem line_buffer_bounded now w reads :
  str_len (line_buffer (spawn_client_listener now w reads)) ≤ MAX_STRATUM_LINE_BYTES.
Proof. by apply client_listener_len. Qed.

(** ** Chunking does not matter *)

(** A closed connection stays closed. *)
Class PeerOk : Prop := {
  disconnect_closes w : peer_connected (peer_disconnect w) = false;
  notify_closed w : peer_connected w = false → peer_connected (peer_notify w) = false;
  frame_closed now w : peer_connected w = false → peer_connected (peer_frame now w).2 = false;
  handler_closed m h now e w : peer_handler m = Some h → peer_connected w = false → peer_connected (h now e w) = false }.
Context `{!PeerOk}.

Lemma on_line_closed now line w : peer_connected w = false ∨ (on_line now line w).1 = false →
  peer_connected (on_line now line w).2 = false.
Proof.
  unfold on_line. destruct line as [|c line]; [simpl; naive_solver|]. case_bool; [intros _; apply disconnect_closes|].
  pose proof (frame_closed now w) as Hf. destruct (peer_frame now w) as [[] w1]; simpl in *; [|intros _; apply disconnect_closes].
  destruct (unmarshal_event _) as [e|]; simpl; [|naive_solver].
  destruct (peer_handler (method e)) as [h|] eqn:Eh; [|naive_solver]. pose proof (handler_closed _ _ now e w1 Eh). naive_solver.
Qed.

(** The lines of a text and what follows the last of them; [cur] is the text since the last line end. *)
Fixpoint lines_of (cur text : list Z) : list (list Z) * list Z :=
  match text with
  | [] => ([], cur)
  | c :: text => if c =? 10 then let '(ls, rest) := lines_of [] text in (cur :: ls, rest) else lines_of (cur ++ [c]) text
  end.

(** The lines handled one after the other, each at its instant. *)
Definition handle_lines (times : list Z) (lines : list (list Z)) (w : W) : W :=
  foldl (λ w tl, (on_line tl.1 (trim tl.2) w).2) w (zip times lines).

Lemma handle_lines_closed times lines w : peer_connected w = false → peer_connected (handle_lines times lines w) = false.
Proof.
  unfold handle_lines. revert w. induction (zip times lines) as [|[t l] tls IH]; intros w Hw; [done|]. simpl. apply IH, on_line_closed. by left.
Qed.

Lemma handle_lines_app t1 t2 l1 l2 w : length t1 = length l1 →
  handle_lines (t1 ++ t2) (l1 ++ l2) w = handle_lines t2 l2 (handle_lines t1 l1 w).
Proof. intros Hl. unfold handle_lines. by rewrite zip_with_app, foldl_app. Qed.

Lemma process_lines_closed frames n cur a w : peer_connected w = false → peer_connected (process_lines frames n cur a w).2 = false.
Proof.
  revert n cur w. induction a as [|c a IH]; intros n cur w Hw; simpl; [done|]. destruct (c =? 10); [|by apply IH].
  pose proof (on_line_closed (frames n) (trim cur) w) as Hc. destruct (on_line (frames n) (trim cur) w) as [[] w1]; simpl in *; [apply IH|]; auto.
Qed.

(** As long as the connection is open, the loop handles the lines of the text and keeps the rest. *)
Lemma process_lines_spec frames n cur text w :
  let '(ls, rest) := lines_of cur text in
  let w' := handle_lines (map frames (seq n (length ls))) ls w in
  peer_connected (process_lines frames n cur text w).2 = true ∨ peer_connected w' = true → process_lines frames n cur text w = (rest, w').
Proof.
  revert n cur w. induction text as [|c text IH]; intros n cur w; simpl; [done|]. destruct (c =? 10); [|by apply IH].
  specialize (IH (S n) [] (on_line (frames n) (trim cur) w).2). destruct (lines_of [] text) as [ls rest]. simpl.
  pose proof (on_line_closed (frames n) (trim cur) w) as Hc. unfold handle_lines in *. simpl in *.
  destruct (on_line (frames n) (trim cur) w) as [[] w1]; simpl in *; [exact IH|]. specialize (Hc (or_intror eq_refl)).
  pose proof (handle_lines_closed (map frames (seq (S n) (length ls))) ls w1 Hc) as Hh. unfold handle_lines in Hh. intros [Ho|Ho]; congruence.
Qed.

Lemma lines_of_app cur a b : lines_of cur (a ++ b) =
  let '(l1, r1) := lines_of cur a in let '(l2, r2) := lines_of r1 b in (l1 ++ l2, r2).
Proof.
  revert cur. induction a as [|c a IH]; intros cur; simpl; [by destruct (lines_of cur b)|]. destruct (c =? 10); [|by apply IH].
  rewrite IH. destruct (lines_of [] a) as [l1 r1]. by destruct (lines_of r1 b) as [l2 r2].
Qed.

Lemma lines_of_rest cur text : 10 ∉ cur → 10 ∉ (lines_of cur text).2.
Proof.
  revert cur. induction text as [|c text IH]; intros cur Hc; simpl; [done|]. destruct (Z.eqb_spec c 10).
  - specialize (IH [] (not_elem_of_nil _)). by destruct (lines_of [] text).
  - apply IH. rewrite not_elem_of_app, list_elem_of_singleton. naive_solver.
Qed.

(** The text of a buffer with no line end in it is passed over. *)
Lemma process_lines_plain frames n cur a b w : 10 ∉ a → process_lines frames n cur (a ++ b) w = process_lines frames n (cur ++ a) b w.
Proof.
  revert cur. induction a as [|c a IH]; intros cur Ha; simpl; [by rewrite app_nil_r|].
  apply not_elem_of_cons in Ha as [Hc Ha]. rewrite (proj2 (Z.eqb_neq c 10)) by done. rewrite IH by done. by rewrite <- app_assoc.
Qed.

Definition is_ascii (b : Z) : Prop := 0 ≤ b < 128.

Lemma lossy_ascii bs : Forall is_ascii bs → from_utf8_lossy bs = bs.
Proof.
  induction 1 as [|b bs Hb _ IH]; [done|]. simpl. unfold is_ascii in Hb. rewrite (proj2 (Z.ltb_lt b 128)) by lia. by rewrite IH.
Qed.

Definition cleaned (bytes : list Z) : list Z := List.filter (λ b, negb (b =? 0)) bytes.

Lemma cleaned_ascii bytes : Forall is_ascii bytes → Forall is_ascii (cleaned bytes).
Proof.
  intros Hall. apply Forall_forall. intros b Hb%list_elem_of_In. apply filter_In in Hb as [Hb%list_elem_of_In _].
  rewrite Forall_forall in Hall. by apply Hall.
Qed.

(** No line, finished or pending, comes within one read of the limit; a read fills a buffer of 1024 bytes. *)
Definition READ_BYTES : Z := 1024.
Definition short_lines (cur text : list Z) : Prop :=
  Forall (λ l, str_len l ≤ MAX_STRATUM_LINE_BYTES - READ_BYTES) ((lines_of cur text).1 ++ [(lines_of cur text).2]).

Lemma short_lines_cur cur text : short_lines cur text → str_len cur ≤ MAX_STRATUM_LINE_BYTES - READ_BYTES.
Proof.
  unfold short_lines. revert cur. induction text as [|c text IH]; intros cur; cbn [lines_of fst snd app].
  { rewrite Forall_singleton. done. }
  destruct (c =? 10); [destruct (lines_of [] text); cbn [fst snd app]; rewrite Forall_cons; by intros [? _]|].
  intros Hs%IH. rewrite str_len_app, str_len_cons in Hs. pose proof (char_len_pos c). pose proof (str_len_nonneg []). lia.
Qed.

Lemma short_lines_app cur a b : short_lines cur (a ++ b) → short_lines (lines_of cur a).2 b.
Proof.
  unfold short_lines. rewrite lines_of_app. destruct (lines_of cur a) as [l1 r1]. simpl. destruct (lines_of r1 b) as [l2 r2]. simpl.
  rewrite <- app_assoc. by intros [_ ?]%Forall_app.
Qed.

Lemma str_len_ascii l : Forall is_ascii l → str_len l = Z.of_nat (length l).
Proof.
  induction 1 as [|c l Hc _ IH]; [done|]. rewrite str_len_cons, IH. unfold char_len, is_ascii in *. rewrite (proj2 (Z.ltb_lt c 128)) by lia. simpl. lia.
Qed.

Lemma cleaned_length bytes : (length (cleaned bytes) ≤ length bytes)%nat.
Proof. unfold cleaned. induction bytes as [|b bytes IH]; simpl; [lia|]. destruct (b =? 0); simpl; lia. Qed.

(** After the first message. *)
Lemma on_data_later now bytes frames s : first_message s = false → Forall is_ascii bytes →
  str_len (line_buffer s) + str_len (cleaned bytes) ≤ MAX_STRATUM_LINE_BYTES → 10 ∉ line_buffer s →
  on_data now bytes frames s =
    let '(buffer, w) := process_lines frames 0 (line_buffer s) (cleaned bytes) (peer s) in
    (true, {| line_buffer := buffer; first_message := false; last_activity := now; peer := w |}).
Proof.
  intros Hf Ha Hl Hn. unfold on_data. rewrite Hf. fold (cleaned bytes). rewrite lossy_ascii by by apply cleaned_ascii. simpl.
  unfold append_line_data. rewrite (proj2 (Z.ltb_ge _ _)) by done. by rewrite process_lines_plain.
Qed.

Lemma cleaned_app a b : cleaned (a ++ b) = cleaned a ++ cleaned b.
Proof. apply List.filter_app. Qed.

(** The bytes of a sequence of reads, the instants at which the lines they complete are taken up, and
    that none of the reads ends the connection by itself: no end of file, error or idle timeout. *)
Definition read_bytes (r : Z * Read) : list Z := match r.2 with RData bytes _ => bytes | _ => [] end.
Definition stream (reads : list (Z * Read)) : list Z := concat (map read_bytes reads).
Fixpoint line_times (cur : list Z) (reads : list (Z * Read)) : list Z :=
  match reads with
  | [] => []
  | (_, RData bytes frames) :: reads =>
      let '(ls, rest) := lines_of cur (cleaned bytes) in map frames (seq 0 (length ls)) ++ line_times rest reads
  | _ :: reads => line_times cur reads
  end.
Fixpoint steady (last : Z) (reads : list (Z * Read)) : bool :=
  match reads with
  | [] => true
  | (now, RData _ _) :: reads => steady now reads
  | (now, RTimeout) :: reads => negb (POST_AUTH_IDLE_TIMEOUT <=? duration_since now last) && steady last reads
  | _ => false
  end.

Lemma client_listener_closed reads s : peer_connected (peer s) = false → peer_connected (peer (client_listener reads s)) = false.
Proof.
  intros Hc. destruct reads as [|[now r] reads]; [done|]. simpl. rewrite Hc. simpl. apply notify_closed, disconnect_closes.
Qed.

Lemma close_closed s : peer_connected (peer (close s)) = false.
Proof. apply notify_closed, disconnect_closes. Qed.

(** Reading in pieces is handling the lines of the stream one by one, as long as that leaves the connection open. *)
Lemma client_listener_lines reads s :
  let '(ls, rest) := lines_of (line_buffer s) (cleaned (stream reads)) in
  let w := handle_lines (line_times (line_buffer s) reads) ls (peer s) in
  first_message s = false → 10 ∉ line_buffer s → Forall is_ascii (stream reads) →
  Forall (λ r, Z.of_nat (length (read_bytes r)) ≤ READ_BYTES) reads → short_lines (line_buffer s) (cleaned (stream reads)) →
  peer_connected (peer (client_listener reads s)) = true ∨ (steady (last_activity s) reads = true ∧ peer_connected w = true) →
  peer (client_listener reads s) = w ∧ line_buffer (client_listener reads s) = rest.
Proof.
  revert s. induction reads as [|[now r] reads IH]; intros s; [done|]. specialize (IH (on_read now r s).2).
  destruct (lines_of (line_buffer s) (cleaned (stream ((now, r) :: reads)))) as [ls rest] eqn:Hls. intros w Hf Hn Ha Hlen Hshort Hor.
  apply Forall_cons in Hlen as [Hl Hlen]. cbn [client_listener steady] in Hor |- *. destruct (peer_connected (peer s)) eqn:Ep; cycle 1.
  { cbn [negb] in Hor. rewrite close_closed in Hor. destruct Hor as [|[_ Hw]]; [done|]. unfold w in Hw. by rewrite handle_lines_closed in Hw. }
  destruct r as [|bytes frames| |]; cbn [negb on_read fst snd] in Hor, IH |- *.
  - rewrite close_closed in Hor. naive_solver.
  - unfold stream in Ha, Hls, Hshort. simpl in Ha, Hls, Hshort, Hl. fold (stream reads) in Ha, Hls, Hshort. unfold read_bytes in Hl, Ha, Hls, Hshort; simpl in Hl, Ha, Hls, Hshort.
    apply Forall_app in Ha as [Hac Har]. rewrite cleaned_app in Hls, Hshort. rewrite lines_of_app in Hls. subst w. simpl in *.
    assert (on_data now bytes frames s = let '(buffer, w) := process_lines frames 0 (line_buffer s) (cleaned bytes) (peer s) in
      (true, {| line_buffer := buffer; first_message := false; last_activity := now; peer := w |})) as Hdata.
    { apply on_data_later; [done..| |done]. apply short_lines_cur in Hshort. pose proof (cleaned_length bytes).
      rewrite (str_len_ascii (cleaned bytes)) by by apply cleaned_ascii. lia. }
    apply short_lines_app in Hshort. pose proof (lines_of_rest (line_buffer s) (cleaned bytes) Hn) as Hrest.
    pose proof (process_lines_spec frames 0 (line_buffer s) (cleaned bytes) (peer s)) as Hspec.
    destruct (lines_of (line_buffer s) (cleaned bytes)) as [l1 r1]. simpl in *.
    set (w1 := handle_lines (map frames (seq 0 (length l1))) l1 (peer s)) in *.
    destruct (lines_of r1 (cleaned (stream reads))) as [l2 r2] eqn:Hl2. injection Hls as <- <-.
    rewrite handle_lines_app in Hor |- * by (by rewrite length_map, length_seq). fold w1 in Hor |- *.
    rewrite Hdata in *. destruct (process_lines frames 0 (line_buffer s) (cleaned bytes) (peer s)) as [buffer w'] eqn:Hproc. simpl in *.
    assert ((buffer, w') = (r1, w1)) as [= -> ->].
    { apply Hspec. destruct Hor as [Ho|[_ Ho]]; [left|right].
      - destruct (peer_connected w') eqn:Hw'; [done|]. by rewrite client_listener_closed in Ho.
      - destruct (peer_connected w1) eqn:Hw1; [done|]. by rewrite handle_lines_closed in Ho. }
    rewrite Hl2 in IH. by apply IH.
  - rewrite close_closed in Hor. naive_solver.
  - unfold stream in *. simpl in *. change (concat (map read_bytes reads)) with (stream reads) in *. rewrite Hls in IH. subst w. simpl in *.
    destruct (negb (POST_AUTH_IDLE_TIMEOUT <=? duration_since now (last_activity s))); cbn [andb] in Hor |- *; [by apply IH|]. rewrite close_closed in Hor. naive_solver.
Qed.

End listener.

(** ** A connection *)

(** A peer that records the events handled. *)
Record LogPeer := { lp_open : bool; lp_seen : list string }.
#[local] Instance log_peer : Peer LogPeer := {
  peer_connected := lp_open;
  peer_disconnect w := {| lp_open := false; lp_seen := lp_seen w |};
  peer_notify w := w;
  peer_frame _ w := (true, w);
  peer_handler m := Some (λ _ e w, {| lp_open := lp_open w; lp_seen := lp_seen w ++ [method e] |}) }.
#[local] Instance log_peer_ok : @PeerOk LogPeer log_peer.
Proof. split; intros; simplify_eq/=; done. Qed.

(** A parser that accepts every line as [mining.subscribe]. *)
#[local] Instance line_parser : JsonParser := {
  JsonError := unit;
  from_str _ := Ok (JsonRpcEvent_new None "mining.subscribe" []) }.

Definition open_listener : Listener LogPeer :=
  {| line_buffer := codes "{"; first_message := false; last_activity := 0; peer := {| lp_open := true; lp_seen := [] |} |}.
(** The same bytes in three reads with a silence between them, and in one. *)
Definition three_reads : list (Z * Read) :=
  [(1, RData (codes "}") (λ _, 1)); (2, RData ([10] ++ codes "{") (λ _, 2)); (5000000002, RTimeout);
   (6000000000, RData (codes "}" ++ [10] ++ codes "{") (λ n, 6000000000 + Z.of_nat n))].
Definition one_read : list (Z * Read) := [(9, RData (stream three_reads) (λ n, 9 + Z.of_nat n))].

