(* ===== verification/TreasuryLock.v ===== *)
(** * The treasury's advisory lock (crates/katpool-idempotency)

    The key of a namespace, and the guard [AdvisoryLock] over Postgres sessions:
    engines of any number of processes ask for the lock, spend, release it, fail
    and die, and the server ends sessions, each in steps of their own.  The
    server is a parameter, with what Postgres documents of session advisory
    locks as its laws; what the guard does with its answers is the code's. *)

From stdpp Require Import relations.
From S2P Require Import Prelude Float64 Mass Db DupGuard Domain Events Bytes Hasher MiningState Stratum Listener.
Local Open Scope Z_scope.

(** ** Keys *)

Definition FNV_OFFSET : Z := 14695981039346656037.
Definition FNV_PRIME : Z := 1099511628211.
(** One byte: xor, then a wrapping product. *)
Definition fnv_byte (hash byte : Z) : Z := (Z.lxor hash byte * FNV_PRIME) mod 2 ^ 64.
Definition bits_to_i64 (n : Z) : Z := if n <? 2 ^ 63 then n else n - 2 ^ 64.
Definition advisory_key (namespace : string) : Z := bits_to_i64 (foldl fnv_byte FNV_OFFSET (codes namespace)).
Definition TREASURY_SPEND_LOCK_NAMESPACE : string := "treasury:spend-leader".

(** The value the crate pins for rolling deployments. *)
Example treasury_key_pinned : advisory_key TREASURY_SPEND_LOCK_NAMESPACE = -2937957302732196380.
Proof. by vm_compute. Qed.

Lemma advisory_key_range namespace : - 2 ^ 63 ≤ advisory_key namespace < 2 ^ 63.
Proof.
  unfold advisory_key, bits_to_i64. assert (0 ≤ foldl fnv_byte FNV_OFFSET (codes namespace) < 2 ^ 64) as Hr.
  { assert (0 ≤ FNV_OFFSET < 2 ^ 64) as Ho by (unfold FNV_OFFSET; lia). revert Ho. generalize FNV_OFFSET.
    induction (codes namespace) as [|b l IH]; intros h Hh; simpl; [done|]. apply IH. unfold fnv_byte. by apply Z.mod_pos_bound. }
  destruct (Z.ltb_spec (foldl fnv_byte FNV_OFFSET (codes namespace)) (2 ^ 63)); lia.
Qed.

(** ** The server *)

(** What lock.rs uses of Postgres: connections, two functions, and the end of a session.  [lock_count] is
    how many times a session holds a key, as pg_locks shows it. *)
Class AdvisoryServer := {
  Server : Type;
  server_start : Server;
  session_open : Server → nat → bool;
  lock_count : Server → nat → Z → nat;
  pg_connect : nat → Server → Server;
  pg_try_advisory_lock : Z → nat → Server → bool * Server;
  pg_advisory_unlock : Z → nat → Server → Server;
  pg_end_session : nat → Server → Server }.

(** The documented behaviour (Postgres manual, advisory locks): a session-level lock is held until it is
    released or the session ends; [pg_try_advisory_lock] takes it when no other session has it, and says
    so; a session may take it several times, and each unlock undoes one. *)
Class AdvisoryServerOk `{!AdvisoryServer} := {
  start_closed s : session_open server_start s = false;
  closed_holds_nothing st s k : session_open st s = false → lock_count st s k = 0%nat;
  connect_opens st s s' : session_open (pg_connect s st) s' = bool_decide (s' = s) || session_open st s';
  connect_counts st s s' k : session_open st s = false → lock_count (pg_connect s st) s' k = lock_count st s' k;
  try_opens st s s' k : session_open (pg_try_advisory_lock k s st).2 s' = session_open st s';
  try_answer st s k : session_open st s = true → ((pg_try_advisory_lock k s st).1 = true ↔ ∀ s', s' ≠ s → lock_count st s' k = 0%nat);
  try_counts st s s' k k' : session_open st s = true →
    lock_count (pg_try_advisory_lock k s st).2 s' k' =
      (lock_count st s' k' + if (pg_try_advisory_lock k s st).1 && bool_decide (s' = s ∧ k' = k) then 1 else 0)%nat;
  unlock_opens st s s' k : session_open (pg_advisory_unlock k s st) s' = session_open st s';
  unlock_counts st s s' k k' : session_open st s = true →
    lock_count (pg_advisory_unlock k s st) s' k' = (lock_count st s' k' - if bool_decide (s' = s ∧ k' = k) then 1 else 0)%nat;
  end_closes st s s' : session_open (pg_end_session s st) s' = negb (bool_decide (s' = s)) && session_open st s';
  end_counts st s s' k : s' ≠ s → lock_count (pg_end_session s st) s' k = lock_count st s' k }.

(** ** The guard *)

Record AdvisoryLock := { al_conn : option nat; al_key : Z }.

(** Where an engine is in its use of the lock: at an await of [try_acquire], holding the guard, or at an
    await of [release].  A connection that is dropped leaves the engine at [Resting]; the server ends its
    session when it notices. *)
Inductive LockCall :=
| Resting
| TryQuery (conn : nat) (key : Z) | TryClose (conn : nat)
| Spending (guard : AdvisoryLock)
| ReleaseQuery (conn : nat) (key : Z) | ReleaseClose (conn : nat).

(** [pool.acquire().await?.detach()]. *)
Definition acquire_connected (key : Z) (conn : result unit nat) : LockCall :=
  match conn with Err _ => Resting | Ok conn => TryQuery conn key end.
(** The answer of [SELECT pg_try_advisory_lock($1)]; an error drops the connection. *)
Definition acquire_answered (conn : nat) (key : Z) (acquired : result unit bool) : LockCall :=
  match acquired with
  | Err _ => Resting
  | Ok true => Spending {| al_conn := Some conn; al_key := key |}
  | Ok false => TryClose conn
  end.
(** [if let Some(mut conn) = self.conn.take()]. *)
Definition lock_release (guard : AdvisoryLock) : LockCall :=
  match al_conn guard with Some conn => ReleaseQuery conn (al_key guard) | None => Resting end.
(** [.execute(&mut conn).await?], then the close. *)
Definition release_answered (conn : nat) (done : result unit unit) : LockCall :=
  match done with Err _ => Resting | Ok _ => ReleaseClose conn end.
(** [Drop]: a warning when the guard still has its connection, which closes with it. *)
Definition lock_drop (guard : AdvisoryLock) : bool * LockCall := (bool_decide (is_Some (al_conn guard)), Resting).

Section protocol.
Context `{SV : !AdvisoryServer} `{SO : !AdvisoryServerOk}.
(** The key of each engine, from the namespace it is configured with. *)
Context (key : nat → Z).

(** The server, the engines, and the names of sessions used so far. *)
Record LockWorld := { lk_server : Server; lk_calls : gmap nat LockCall; lk_named : gset nat }.
Definition lock_start : LockWorld := {| lk_server := server_start; lk_calls := ∅; lk_named := ∅ |}.
Definition call_of (w : LockWorld) (e : nat) : LockCall := default Resting (lk_calls w !! e).
Definition lk_set (st : Server) (e : nat) (c : LockCall) (w : LockWorld) : LockWorld :=
  {| lk_server := st; lk_calls := <[e := c]> (lk_calls w); lk_named := lk_named w |}.

(** One step of an engine, of its process or of the server.  A query runs on the server when the session
    is open, and its answer arrives or is lost; or it does not run at all. *)
Inductive lock_step (w : LockWorld) : LockWorld → Prop :=
| step_connect e s : call_of w e = Resting → s ∉ lk_named w →
    lock_step w {| lk_server := pg_connect s (lk_server w); lk_calls := <[e := acquire_connected (key e) (Ok s)]> (lk_calls w); lk_named := {[s]} ∪ lk_named w |}
| step_no_connection e : call_of w e = Resting → lock_step w (lk_set (lk_server w) e (acquire_connected (key e) (Err tt)) w)
| step_try e s k (delivered : bool) : call_of w e = TryQuery s k → session_open (lk_server w) s = true →
    lock_step w (lk_set (pg_try_advisory_lock k s (lk_server w)).2 e
      (acquire_answered s k (if delivered then Ok (pg_try_advisory_lock k s (lk_server w)).1 else Err tt)) w)
| step_try_fails e s k : call_of w e = TryQuery s k → lock_step w (lk_set (lk_server w) e (acquire_answered s k (Err tt)) w)
| step_release e g : call_of w e = Spending g → lock_step w (lk_set (lk_server w) e (lock_release g) w)
| step_drop e g : call_of w e = Spending g → lock_step w (lk_set (lk_server w) e (lock_drop g).2 w)
| step_unlock e s k (delivered : bool) : call_of w e = ReleaseQuery s k → session_open (lk_server w) s = true →
    lock_step w (lk_set (pg_advisory_unlock k s (lk_server w)) e (release_answered s (if delivered then Ok tt else Err tt)) w)
| step_unlock_fails e s k : call_of w e = ReleaseQuery s k → lock_step w (lk_set (lk_server w) e (release_answered s (Err tt)) w)
| step_closed e s : call_of w e = TryClose s ∨ call_of w e = ReleaseClose s → lock_step w (lk_set (lk_server w) e Resting w)
(** The process of an engine dies at any point. *)
| step_dies e : lock_step w (lk_set (lk_server w) e Resting w)
(** The server ends a session: its client closed it or died, or the connection was lost. *)
| step_session_ends s : lock_step w {| lk_server := pg_end_session s (lk_server w); lk_calls := lk_calls w; lk_named := lk_named w |}.

(** ** The invariant *)

(** The session of a call, and how often that session holds a key while it is open. *)
Definition session_of (c : LockCall) : option nat :=
  match c with
  | Resting => None
  | TryQuery s _ | TryClose s | ReleaseQuery s _ | ReleaseClose s => Some s
  | Spending g => al_conn g
  end.
Definition holds (c : LockCall) (k : Z) : nat :=
  match c with
  | Spending {| al_key := k' |} | ReleaseQuery _ k' => if bool_decide (k = k') then 1 else 0
  | _ => 0
  end.
(** The key a call works with is the engine's. *)
Definition keyed (e : nat) (c : LockCall) : Prop :=
  match c with TryQuery _ k | ReleaseQuery _ k => k = key e | Spending g => al_key g = key e ∧ is_Some (al_conn g) | _ => True end.

Record lock_ok (w : LockWorld) : Prop := {
  lo_keyed : ∀ e, keyed e (call_of w e);
  lo_own : ∀ e e' s, session_of (call_of w e) = Some s → session_of (call_of w e') = Some s → e = e';
  lo_named : ∀ e s, session_of (call_of w e) = Some s → s ∈ lk_named w;
  lo_opened : ∀ s, session_open (lk_server w) s = true → s ∈ lk_named w;
  lo_counts : ∀ e s k, session_of (call_of w e) = Some s → session_open (lk_server w) s = true → lock_count (lk_server w) s k = holds (call_of w e) k;
  lo_excl : ∀ k s s', (0 < lock_count (lk_server w) s k)%nat → (0 < lock_count (lk_server w) s' k)%nat → s = s' }.

Lemma call_of_set st e c w e' : call_of (lk_set st e c w) e' = if decide (e' = e) then c else call_of w e'.
Proof. unfold call_of. simpl. case_decide as He; [subst; by rewrite lookup_insert_eq|by rewrite lookup_insert_ne]. Qed.

(** At most one session has a key. *)
Definition exclusive (st : Server) : Prop := ∀ k s s', (0 < lock_count st s k)%nat → (0 < lock_count st s' k)%nat → s = s'.

(** A step of one engine that keeps its session or lets go of it, and touches no other session. *)
Lemma lk_set_ok e st c w : lock_ok w → keyed e c →
  (∀ s, session_of c = Some s → session_of (call_of w e) = Some s) →
  (∀ s, session_open st s = session_open (lk_server w) s) →
  (∀ s k, session_of (call_of w e) ≠ Some s → lock_count st s k = lock_count (lk_server w) s k) →
  (∀ s k, session_of c = Some s → session_open st s = true → lock_count st s k = holds c k) →
  exclusive st → lock_ok (lk_set st e c w).
Proof.
  intros [Hkey Hown Hnm Hopd Hcnt _] Hk Huse Hopen Hoth Hmine Hex.
  assert (∀ e' s, session_of (call_of (lk_set st e c w) e') = Some s → session_of (call_of w e') = Some s) as Hback.
  { intros e' s. rewrite call_of_set. case_decide as He; [subst; apply Huse|done]. }
  split; simpl.
  - intros e'. rewrite call_of_set. case_decide as He; [by subst|apply Hkey].
  - intros e1 e2 s H1%Hback H2%Hback. by eapply Hown.
  - eauto.
  - intros s. rewrite Hopen. apply Hopd.
  - intros e' s k. rewrite call_of_set. case_decide as He; [subst; apply Hmine|]. intros Hs Ho. rewrite Hopen in Ho.
    rewrite Hoth; [by apply Hcnt|]. intros Hs2. apply He. by eapply Hown.
  - exact Hex.
Qed.

(** A step that leaves the server alone. *)
Lemma lk_call_ok e c w : lock_ok w → keyed e c → (∀ s, session_of c = Some s → session_of (call_of w e) = Some s) →
  (∀ s k, session_of c = Some s → holds c k = holds (call_of w e) k) → lock_ok (lk_set (lk_server w) e c w).
Proof.
  intros Hw Hk Huse Hh. apply lk_set_ok; try done; [|exact (lo_excl _ Hw)]. intros s k Hs Ho. rewrite (Hh s k Hs). by apply (lo_counts _ Hw e); [apply Huse|].
Qed.
Lemma lk_rest_ok e w : lock_ok w → lock_ok (lk_set (lk_server w) e Resting w).
Proof. intros Hw. by apply lk_call_ok. Qed.

Lemma try_exclusive w s k : lock_ok w → session_open (lk_server w) s = true → exclusive (pg_try_advisory_lock k s (lk_server w)).2.
Proof.
  intros Hw Ho k' s1 s2. rewrite !try_counts by done. destruct (pg_try_advisory_lock k s (lk_server w)).1 eqn:Hb; simpl;
    [|rewrite !Nat.add_0_r; apply Hw].
  pose proof (proj1 (try_answer _ _ _ Ho) Hb) as Hfree. destruct (decide (k' = k)) as [->|Hk].
  - intros H1 H2. assert (∀ x, (0 < lock_count (lk_server w) x k + (if bool_decide (x = s ∧ k = k) then 1 else 0))%nat → x = s) as Hx; [|by rewrite (Hx s1 H1), (Hx s2 H2)].
    intros x. destruct (decide (x = s)) as [->|Hne]; [done|]. rewrite bool_decide_eq_false_2, (Hfree x Hne) by naive_solver. lia.
  - rewrite !bool_decide_eq_false_2, !Nat.add_0_r by naive_solver. apply Hw.
Qed.

Lemma try_ok e s k answer w : lock_ok w → call_of w e = TryQuery s k → session_open (lk_server w) s = true →
  (answer = Ok (pg_try_advisory_lock k s (lk_server w)).1 ∨ answer = Err tt) →
  lock_ok (lk_set (pg_try_advisory_lock k s (lk_server w)).2 e (acquire_answered s k answer) w).
Proof.
  intros Hw He Ho Ha. pose proof (lo_keyed _ Hw e) as Hk. pose proof (λ k', lo_counts _ Hw e s k') as Hc. rewrite He in Hk, Hc. simpl in Hk, Hc.
  apply lk_set_ok; [done| | |intros; apply try_opens| | |by apply try_exclusive].
  - destruct Ha as [-> | ->]; simpl; [|done]. by case_bool; simpl.
  - rewrite He. intros x. destruct Ha as [-> | ->]; simpl; [|done]. by case_bool; simpl.
  - rewrite He. simpl. intros x k' Hx. rewrite try_counts by done. rewrite bool_decide_eq_false_2 by naive_solver. by rewrite andb_false_r, Nat.add_0_r.
  - intros x k' Hx _. rewrite try_counts by done. destruct Ha as [-> | ->]; [|done]. destruct (pg_try_advisory_lock k s (lk_server w)).1; simpl in *; injection Hx as <-.
    + rewrite Hc by done. simpl. by repeat case_bool_decide; naive_solver.
    + rewrite Hc by done. done.
Qed.

Lemma unlock_ok e s k answer w : lock_ok w → call_of w e = ReleaseQuery s k → session_open (lk_server w) s = true →
  lock_ok (lk_set (pg_advisory_unlock k s (lk_server w)) e (release_answered s answer) w).
Proof.
  intros Hw He Ho. pose proof (λ k', lo_counts _ Hw e s k') as Hc. rewrite He in Hc. simpl in Hc.
  apply lk_set_ok; [done|by destruct answer|rewrite He; by destruct answer|intros; apply unlock_opens| | |].
  - rewrite He. simpl. intros x k' Hx. rewrite unlock_counts by done. rewrite bool_decide_eq_false_2 by naive_solver. lia.
  - intros x k' Hx _. rewrite unlock_counts by done. destruct answer; simpl in *; [|done]. injection Hx as <-. rewrite Hc by done.
    repeat case_bool_decide; naive_solver lia.
  - intros k' s1 s2. rewrite !unlock_counts by done. intros H1 H2. apply (lo_excl _ Hw k'); lia.
Qed.

Lemma connect_ok e s w : lock_ok w → s ∉ lk_named w →
  lock_ok {| lk_server := pg_connect s (lk_server w); lk_calls := <[e := acquire_connected (key e) (Ok s)]> (lk_calls w); lk_named := {[s]} ∪ lk_named w |}.
Proof.
  intros [Hkey Hown Hnm Hopd Hcnt Hex] Hs. assert (session_open (lk_server w) s = false) as Hcl.
  { apply not_true_iff_false. by intros ?%Hopd. }
  set (w' := {| lk_server := _ |}). assert (∀ e', call_of w' e' = if decide (e' = e) then TryQuery s (key e) else call_of w e') as Hcall.
  { intros e'. unfold call_of, w'. simpl. case_decide as He; [subst; by rewrite lookup_insert_eq|by rewrite lookup_insert_ne]. }
  assert (∀ e' x, session_of (call_of w' e') = Some x → if decide (e' = e) then x = s else session_of (call_of w e') = Some x ∧ x ≠ s) as Hback.
  { intros e' x. rewrite Hcall. case_decide; simpl; [by intros [= ->]|]. intros Hx. split; [done|]. intros ->. by eapply Hs, Hnm. }
  split; simpl.
  - intros e'. rewrite Hcall. case_decide; [by subst|apply Hkey].
  - intros e1 e2 x H1%Hback H2%Hback. destruct (decide (e1 = e)), (decide (e2 = e)); naive_solver.
  - intros e' x Hx%Hback. case_decide; [set_solver|]. apply elem_of_union_r, (Hnm e'), Hx.
  - intros x. rewrite connect_opens. intros [->%bool_decide_eq_true|?%Hopd]%orb_true_iff; set_solver.
  - intros e' x k Hx Ho. pose proof (Hback _ _ Hx) as Hb. rewrite connect_counts, Hcall by done. rewrite connect_opens in Ho.
    case_decide; [subst; by apply closed_holds_nothing|]. destruct Hb as [Hb Hne]. rewrite bool_decide_eq_false_2 in Ho by done. by apply Hcnt.
  - intros k x y. rewrite !connect_counts by done. apply Hex.
Qed.

Lemma session_ends_ok s w : lock_ok w → lock_ok {| lk_server := pg_end_session s (lk_server w); lk_calls := lk_calls w; lk_named := lk_named w |}.
Proof.
  intros [Hkey Hown Hnm Hopd Hcnt Hex].
  assert (∀ x k, (0 < lock_count (pg_end_session s (lk_server w)) x k)%nat → x ≠ s ∧ lock_count (pg_end_session s (lk_server w)) x k = lock_count (lk_server w) x k) as Hlive.
  { intros x k Hx. destruct (decide (x = s)) as [->|Hne]; [|split; [done|by apply end_counts]].
    rewrite closed_holds_nothing in Hx; [lia|]. by rewrite end_closes, bool_decide_eq_true_2. }
  split; simpl; [done..| | |].
  - intros x. rewrite end_closes. intros [_ ?%Hopd]%andb_true_iff. done.
  - intros e x k Hx. rewrite end_closes. intros [Hne Ho]%andb_true_iff. rewrite end_counts; [by apply (Hcnt e)|]. by apply negb_true_iff, bool_decide_eq_false in Hne.
  - intros k x y H1 H2. destruct (Hlive _ _ H1) as [_ E1], (Hlive _ _ H2) as [_ E2]. rewrite E1 in H1. rewrite E2 in H2. by apply (Hex k).
Qed.

Lemma lock_step_ok w w' : lock_step w w' → lock_ok w → lock_ok w'.
Proof.
  intros Hs Hw. destruct Hs as [e s He Hn|e He|e s k d He Ho|e s k He|e g He|e g He|e s k d He Ho|e s k He|e s He|e|s]; try by apply lk_rest_ok.
  - by apply connect_ok.
  - apply try_ok; [done..|]. destruct d; [by left|by right].
  - pose proof (lo_keyed _ Hw e) as Hk. rewrite He in Hk. destruct Hk as [Hk [s Hc]]. unfold lock_release. rewrite Hc. destruct g as [conn k]. simpl in *. subst.
    apply lk_call_ok; [done|done|by rewrite He|by rewrite He].
  - by apply unlock_ok.
  - by apply session_ends_ok.
Qed.

Lemma lock_start_ok : lock_ok lock_start.
Proof.
  assert (∀ e, call_of lock_start e = Resting) as Hr by (intros e; unfold call_of; simpl; by rewrite lookup_empty).
  assert (∀ s k, lock_count server_start s k = 0%nat) as Hz by (intros; apply closed_holds_nothing, start_closed).
  split; simpl.
  - intros e. by rewrite Hr.
  - intros e e' s. by rewrite Hr.
  - intros e s. by rewrite Hr.
  - intros s. by rewrite start_closed.
  - intros e s k. by rewrite Hr.
  - intros k s s'. rewrite Hz. lia.
Qed.
Lemma lock_reachable_ok w : rtc lock_step lock_start w → lock_ok w.
Proof. intros Hr. pose proof lock_start_ok as Hw. revert Hw. induction Hr as [|x y z Hs _ IH]; [done|]. intros Hx. by apply IH, (lock_step_ok x). Qed.

(** C19: However any number of engines in any number of processes ask, spend, release, fail and die, and
    whatever sessions the server ends: two engines with the same key that hold the guard on open sessions
    are one; a guard stands for exactly one hold of its own key; a connection that is being closed, after
    a refusal or a release, holds nothing; and an engine that asks when every other session has ended
    gets the lock, so nothing a dead engine did keeps it from the living. *)
Theorem treasury_exclusive w : rtc lock_step lock_start w →
  (∀ e e' g g' s s', key e = key e' → call_of w e = Spending g → call_of w e' = Spending g' → al_conn g = Some s → al_conn g' = Some s' →
     session_open (lk_server w) s = true → session_open (lk_server w) s' = true → e = e') ∧
  (∀ e g s, call_of w e = Spending g → al_conn g = Some s → session_open (lk_server w) s = true →
     al_key g = key e ∧ ∀ k, lock_count (lk_server w) s k = if bool_decide (k = key e) then 1%nat else 0%nat) ∧
  (∀ e s k, call_of w e = TryClose s ∨ call_of w e = ReleaseClose s → lock_count (lk_server w) s k = 0%nat) ∧
  (∀ e s k, call_of w e = TryQuery s k → session_open (lk_server w) s = true → (∀ s', session_open (lk_server w) s' = true → s' = s) →
     (pg_try_advisory_lock k s (lk_server w)).1 = true).
Proof.
  intros Hw%lock_reachable_ok.
  assert (∀ e g s, call_of w e = Spending g → al_conn g = Some s → session_open (lk_server w) s = true →
     al_key g = key e ∧ ∀ k, lock_count (lk_server w) s k = if bool_decide (k = key e) then 1%nat else 0%nat) as Hheld.
  { intros e g s He Hg Ho. pose proof (lo_keyed _ Hw e) as Hk. rewrite He in Hk. destruct Hk as [Hk _]. split; [done|]. intros k.
    rewrite (lo_counts _ Hw e) by (by rewrite ?He). rewrite He. destruct g. simpl in *. by rewrite Hk. }
  split_and!; [|done| |].
  - intros e e' g g' s s' Hk He He' Hg Hg' Ho Ho'. destruct (Hheld _ _ _ He Hg Ho) as [_ Hc]. destruct (Hheld _ _ _ He' Hg' Ho') as [_ Hc'].
    assert (s = s') as <-. { apply (lo_excl _ Hw (key e)); rewrite ?Hc, ?Hc'; rewrite bool_decide_eq_true_2 by done; lia. }
    apply (lo_own _ Hw e e' s); [by rewrite He|by rewrite He'].
  - intros e s k He. destruct (session_open (lk_server w) s) eqn:Ho; [|by apply closed_holds_nothing].
    rewrite (lo_counts _ Hw e s k); [by destruct He as [-> | ->]|by destruct He as [-> | ->]|done].
  - intros e s k He Ho Hall. apply try_answer; [done|]. intros s' Hne. apply closed_holds_nothing, not_true_iff_false. by intros ?%Hall.
Qed.
End protocol.

(** ** Two engines *)

Module LockDemo.
(** A server that keeps its open sessions and how often each holds a key. *)
#[export] Instance server : AdvisoryServer := {
  Server := list nat * (nat → Z → nat);
  server_start := ([], λ _ _, 0%nat);
  session_open st s := bool_decide (s ∈ st.1);
  lock_count st s k := if bool_decide (s ∈ st.1) then st.2 s k else 0%nat;
  pg_connect s st := (s :: st.1, λ s' k, if bool_decide (s' = s ∧ s ∉ st.1) then 0%nat else st.2 s' k);
  pg_try_advisory_lock k s st :=
    if existsb (λ s', negb (bool_decide (s' = s)) && negb (Nat.eqb (st.2 s' k) 0)) st.1 then (false, st)
    else (true, (st.1, λ s' k', (st.2 s' k' + if bool_decide (s' = s ∧ k' = k) then 1 else 0)%nat));
  pg_advisory_unlock k s st := (st.1, λ s' k', (st.2 s' k' - if bool_decide (s' = s ∧ k' = k) then 1 else 0)%nat);
  pg_end_session s st := (List.filter (λ s', negb (bool_decide (s' = s))) st.1, st.2) }.

Lemma demo_contended k s (st : list nat * (nat → Z → nat)) :
  existsb (λ s', negb (bool_decide (s' = s)) && negb (Nat.eqb (st.2 s' k) 0)) st.1 = false ↔
  ∀ s', s' ≠ s → (if bool_decide (s' ∈ st.1) then st.2 s' k else 0%nat) = 0%nat.
Proof.
  rewrite <- not_true_iff_false, existsb_exists. split.
  - intros Hn s' Hne. case_bool_decide as Hin; [|done]. destruct (decide (st.2 s' k = 0%nat)) as [|Hz]; [done|]. destruct Hn. exists s'.
    split; [by apply list_elem_of_In|]. rewrite bool_decide_eq_false_2 by done. simpl. apply negb_true_iff. by apply Nat.eqb_neq.
  - intros Hz (s' & Hin%list_elem_of_In & [Hne Hc]%andb_true_iff). apply negb_true_iff, bool_decide_eq_false in Hne. specialize (Hz s' Hne).
    rewrite bool_decide_eq_true_2 in Hz by done. by rewrite Hz in Hc.
Qed.

#[export] Instance server_ok : AdvisoryServerOk.
Proof.
  split; simpl.
  - done.
  - intros st s k Hs. by rewrite Hs.
  - intros st s s'. repeat case_bool_decide; set_solver.
  - intros st s s' k Hs. apply bool_decide_eq_false in Hs. repeat case_bool_decide; set_solver.
  - intros st s s' k. by destruct (existsb _ _).
  - intros st s k _. rewrite <- demo_contended. by destruct (existsb _ _).
  - intros st s s' k k' Hs. apply bool_decide_eq_true in Hs. destruct (existsb _ _); simpl; [by rewrite Nat.add_0_r|].
    repeat case_bool_decide; naive_solver lia.
  - done.
  - intros st s s' k k' _. repeat case_bool_decide; naive_solver lia.
  - intros st s s'. rewrite <- (bool_decide_not (s' = s)), <- bool_decide_and. apply bool_decide_ext. rewrite elem_of_retain, negb_true_iff, bool_decide_eq_false. naive_solver.
  - intros st s s' k Hne. assert (bool_decide (s' ∈ List.filter (λ s'0, negb (bool_decide (s'0 = s))) st.1) = bool_decide (s' ∈ st.1)) as ->; [|done].
    apply bool_decide_ext. rewrite elem_of_retain, negb_true_iff, bool_decide_eq_false. naive_solver.
Qed.

(** Every engine of the treasury uses the one namespace. *)
Definition treasury_key : nat → Z := λ _, advisory_key TREASURY_SPEND_LOCK_NAMESPACE.
(** Engine [e] connects as session [s] and asks. *)
Definition connect_as (e s : nat) (w : LockWorld) : LockWorld :=
  {| lk_server := pg_connect s (lk_server w); lk_calls := <[e := acquire_connected (treasury_key e) (Ok s)]> (lk_calls w); lk_named := {[s]} ∪ lk_named w |}.
Definition ask (e s : nat) (w : LockWorld) : LockWorld :=
  let w := connect_as e s w in
  lk_set (pg_try_advisory_lock (treasury_key e) s (lk_server w)).2 e
    (acquire_answered s (treasury_key e) (Ok (pg_try_advisory_lock (treasury_key e) s (lk_server w)).1)) w.
Lemma ask_steps e s w : call_of w e = Resting → s ∉ lk_named w → rtc (lock_step treasury_key) w (ask e s w).
Proof.
  intros He Hs. eapply rtc_l; [by apply (step_connect treasury_key w e s)|]. apply rtc_once. fold (connect_as e s w).
  apply (step_try treasury_key (connect_as e s w) e s (treasury_key e) true).
  - unfold call_of, connect_as. simpl. by rewrite lookup_insert_eq.
  - unfold connect_as. simpl. apply bool_decide_eq_true. left.
Qed.

Definition one_spends : LockWorld := ask 1 1 (ask 0 0 lock_start).
Lemma one_spends_run : rtc (lock_step treasury_key) lock_start one_spends.
Proof. etrans; [apply (ask_steps 0 0 lock_start); [done|set_solver]|]. apply (ask_steps 1 1 (ask 0 0 lock_start)); [done|set_solver]. Qed.
Definition guard (s : nat) : AdvisoryLock := {| al_conn := Some s; al_key := advisory_key TREASURY_SPEND_LOCK_NAMESPACE |}.

Lemma treasury_exclusive_witness : call_of one_spends 0 = Spending (guard 0) ∧ call_of one_spends 1 = TryClose 1 ∧
  (∀ e g s, call_of one_spends e = Spending g → al_conn g = Some s → session_open (lk_server one_spends) s = true → e = 0%nat).
Proof.
  split; [reflexivity|]. split; [reflexivity|]. intros e g s He Hg Hs.
  apply (proj1 (treasury_exclusive treasury_key one_spends one_spends_run) e 0%nat g (guard 0) s 0%nat); [reflexivity|exact He|reflexivity|exact Hg|reflexivity|exact Hs|].
  vm_compute. reflexivity.
Defined.

(** The lock is only as good as its connection: when the session of a spending engine is lost, another
    engine gets the lock while the first still spends. *)
Definition lost : LockWorld :=
  {| lk_server := pg_end_session 0 (lk_server (ask 0 0 lock_start)); lk_calls := lk_calls (ask 0 0 lock_start); lk_named := lk_named (ask 0 0 lock_start) |}.
Definition two_spend : LockWorld := ask 1 1 lost.
Lemma lost_session_two_spend : rtc (lock_step treasury_key) lock_start two_spend ∧ call_of two_spend 0 = Spending (guard 0) ∧ call_of two_spend 1 = Spending (guard 1).
Proof.
  split; [|split; reflexivity]. etrans; [apply (ask_steps 0 0 lock_start); [done|set_solver]|]. eapply rtc_l; [apply (step_session_ends treasury_key _ 0)|].
  apply (ask_steps 1 1 lost); [done|set_solver].
Qed.
End LockDemo.
