(* ===== verification/KaspaApi.v ===== *)
(** * The node client of the bridge (bridge/src/kaspaapi.rs)

    Submitting blocks under [BLOCK_SUBMIT_GUARD], requesting templates with
    the pool's coinbase address, the coinbase tag, the retry loops and the
    node status.  The gRPC client is not modelled: its replies are inputs.
    Text is a list of code points where characters matter, a string where it
    is only compared. *)

From S2P Require Import Prelude Float64 Mass Db DupGuard Domain Events Bytes Hasher MiningState Stratum Listener.
Local Open Scope Z_scope.

(** ** Outcomes *)

Inductive SubmitBlockRejectReason := BlockInvalid | IsInIBD | RouteIsFull.
Inductive SubmitBlockReport := Success | Reject (reason : SubmitBlockRejectReason).
Inductive BlockSubmitOutcome := BAccepted (response : SubmitBlockReport) | RejectedByNode (reason : SubmitBlockRejectReason).

Definition is_accepted (o : BlockSubmitOutcome) : bool := match o with BAccepted _ => true | RejectedByNode _ => false end.
Definition submit_block_reject_label (reason : SubmitBlockRejectReason) : string :=
  match reason with BlockInvalid => "BlockInvalid" | IsInIBD => "IsInIBD" | RouteIsFull => "RouteIsFull" end.

(** ** The coinbase tag *)

Definition STRATUM_COINBASE_TAG_BYTES : list Z := codes "RK-Stratum".
Definition MAX_COINBASE_TAG_SUFFIX_LEN : Z := 64.

Definition is_ascii_alphanumeric (c : Z) : bool := between 48 57 c || between 65 90 c || between 97 122 c.
Definition is_ascii_whitespace (c : Z) : bool := (c =? 32) || (c =? 9) || (c =? 10) || (c =? 12) || (c =? 13).
Definition is_tag_char (c : Z) : bool := is_ascii_alphanumeric c || (c =? 46) || (c =? 95) || (c =? 45).

Fixpoint trim_start_matches (c : Z) (s : list Z) : list Z :=
  match s with d :: s' => if d =? c then trim_start_matches c s' else s | [] => [] end.
Definition trim_matches (c : Z) (s : list Z) : list Z :=
  rev (trim_start_matches c (rev (trim_start_matches c s))).

(** The loop over the characters. *)
Fixpoint tag_loop (out cs : list Z) : list Z :=
  match cs with
  | [] => out
  | ch :: cs =>
      if MAX_COINBASE_TAG_SUFFIX_LEN <=? str_len out then out
      else if is_tag_char ch then tag_loop (out ++ [ch]) cs
      else if is_ascii_whitespace ch then tag_loop (out ++ [95]) cs
      else tag_loop out cs
  end.

Definition sanitize_coinbase_tag_suffix (suffix : list Z) : option (list Z) :=
  match trim_start_matches 47 (trim suffix) with
  | [] => None
  | suffix => match trim_matches 95 (tag_loop [] suffix) with [] => None | out => Some out end
  end.

Definition build_coinbase_tag_bytes (suffix : option (list Z)) : list Z :=
  match suffix ≫= sanitize_coinbase_tag_suffix with
  | Some suffix => STRATUM_COINBASE_TAG_BYTES ++ [47] ++ suffix
  | None => STRATUM_COINBASE_TAG_BYTES
  end.

(** ** The guard of submitted blocks *)

Record BlockSubmitGuard := { bg_ttl : Z; bg_max_entries : nat; bg_entries : gmap string Z; bg_order : list string }.

Definition BlockSubmitGuard_new (ttl : Z) (max_entries : nat) : BlockSubmitGuard :=
  {| bg_ttl := ttl; bg_max_entries := max_entries; bg_entries := ∅; bg_order := [] |}.

Definition bg_with (es : gmap string Z) (o : list string) (g : BlockSubmitGuard) : BlockSubmitGuard :=
  {| bg_ttl := bg_ttl g; bg_max_entries := bg_max_entries g; bg_entries := es; bg_order := o |}.

Definition block_expired (ttl now : Z) (es : gmap string Z) (key : string) : bool :=
  match es !! key with Some ts => ttl <? duration_since now ts | None => true end.

(** The two loops of [prune]. *)
Fixpoint drop_expired (ttl now : Z) (o : list string) (es : gmap string Z) : list string * gmap string Z :=
  match o with
  | [] => ([], es)
  | key :: o' => if block_expired ttl now es key then drop_expired ttl now o' (delete key es) else (o, es)
  end.
Fixpoint drop_excess (max_entries : nat) (o : list string) (es : gmap string Z) : list string * gmap string Z :=
  if (max_entries <? size es)%nat then
    match o with [] => ([], es) | key :: o' => drop_excess max_entries o' (delete key es) end
  else (o, es).

Definition guard_prune (now : Z) (g : BlockSubmitGuard) : BlockSubmitGuard :=
  let '(o, es) := drop_expired (bg_ttl g) now (bg_order g) (bg_entries g) in
  let '(o, es) := drop_excess (bg_max_entries g) o es in
  bg_with es o g.

Definition try_mark (hash : string) (now : Z) (g : BlockSubmitGuard) : bool * BlockSubmitGuard :=
  let g := guard_prune now g in
  match bg_entries g !! hash with
  | Some _ => (false, g)
  | None => (true, bg_with (<[hash := now]> (bg_entries g)) (bg_order g ++ [hash]) g)
  end.

Definition guard_remove (hash : string) (now : Z) (g : BlockSubmitGuard) : BlockSubmitGuard :=
  let g := guard_prune now g in bg_with (delete hash (bg_entries g)) (bg_order g) g.

Definition BLOCK_SUBMIT_GUARD : BlockSubmitGuard := BlockSubmitGuard_new (600 * 1000000000) 50000.

(** ** Submitting a block *)

Definition ErrDuplicateBlock : string := "ErrDuplicateBlock: block already submitted".
(** [anyhow]'s [to_string] prints the outermost context only. *)
Definition submit_context : string := "Failed to submit block".

Definition submit_start (hash : string) (now : Z) (g : BlockSubmitGuard) : result string unit * BlockSubmitGuard :=
  match try_mark hash now g with (true, g) => (Ok tt, g) | (false, g) => (Err ErrDuplicateBlock, g) end.

(** What the caller gets for the node's reply; [None] is a transport failure. *)
Definition submit_result (reply : option SubmitBlockReport) : result string BlockSubmitOutcome :=
  match reply with
  | Some Success => Ok (BAccepted Success)
  | Some (Reject reason) => Ok (RejectedByNode reason)
  | None => Err submit_context
  end.

Definition is_duplicate (error_str : string) : bool := contains "ErrDuplicateBlock" error_str || contains "duplicate" error_str.

Definition submit_finish (hash : string) (now : Z) (reply : option SubmitBlockReport) (g : BlockSubmitGuard) : BlockSubmitGuard :=
  match submit_result reply with
  | Err error_str => if negb (is_duplicate error_str) then guard_remove hash now g else g
  | Ok _ => g
  end.

(** [submit_block]: the node is called when the guard grants it; [meanwhile] is what other
    submissions do to the guard before the reply.  The flag says whether the node was called. *)
Definition submit_block (hash : string) (start : Z) (meanwhile : BlockSubmitGuard → BlockSubmitGuard)
    (finish : Z) (reply : option SubmitBlockReport) (g : BlockSubmitGuard)
    : result string BlockSubmitOutcome * bool * BlockSubmitGuard :=
  match submit_start hash start g with
  | (Err e, g) => (Err e, false, g)
  | (Ok _, g) => (submit_result reply, true, submit_finish hash finish reply (meanwhile g))
  end.

(** ** Waiting for the node *)

(** A loop that may see a shutdown request instead of a reply. *)
Inductive Polled (A : Type) := PShutdown | PReply (a : A).
Arguments PShutdown {A}.
Arguments PReply {A} _.

Definition next_backoff (backoff_ms : Z) : Z := Z.min (u64_saturating_mul backoff_ms 2) 5000.

(** The loops of [new] that connect and subscribe: [Some waits] with the pauses made when the
    replies so far end in success, [None] on shutdown or while still trying. *)
Fixpoint retry_with_backoff (backoff_ms : Z) (replies : list (Polled bool)) : option (list Z) :=
  match replies with
  | PReply true :: _ => Some []
  | PReply false :: replies => cons backoff_ms <$> retry_with_backoff (next_backoff backoff_ms) replies
  | PShutdown :: _ | [] => None
  end.

Inductive SyncEnd := Synced | ShutdownRequested | StillWaiting.

(** [wait_for_sync_with_shutdown]; [None] is a failed call. *)
Fixpoint wait_for_sync_with_shutdown (replies : list (Polled (option bool))) : SyncEnd :=
  match replies with
  | [] => StillWaiting
  | PShutdown :: _ => ShutdownRequested
  | PReply (Some true) :: _ => Synced
  | PReply _ :: replies => wait_for_sync_with_shutdown replies
  end.

(** ** Block templates *)

Definition resolve_coinbase_recipient `{!AddressCrate} (override_addr : option string) (wallet_addr : string) : option string :=
  match override_addr with
  | Some a => Some a
  | None => if address_ok wallet_addr then Some wallet_addr else None
  end.

(** The reply to a template request, after [Block::try_from]: a failed call, a block, or the text
    of a conversion error. *)
Inductive TemplateReply := TRpcError | TBlock (block : Header) | TMalformed (error_str : string).
Inductive TemplateError := BadRecipient | RpcFailed | Unconverted (error_str : string) | NoValidTemplate.

Definition max_retries : nat := 3.

(** [n] attempts are left, [attempt] were made.  A block whose header could not be serialized is
    refused in the source; serializing never fails. *)
Fixpoint template_attempts `{!AddressCrate} (coinbase_tag : list Z) (override_addr : option string) (wallet_addr : string)
    (reply : nat → TemplateReply) (n attempt : nat) : result TemplateError Header * list (string * list Z) :=
  match n with
  | O => (Err NoValidTemplate, [])
  | S n =>
      match resolve_coinbase_recipient override_addr wallet_addr with
      | None => (Err BadRecipient, [])
      | Some address =>
          let again := template_attempts coinbase_tag override_addr wallet_addr reply n (S attempt) in
          let may_retry := (attempt <? max_retries - 1)%nat in
          let '(r, requests) :=
            match reply attempt with
            | TRpcError => if may_retry then again else (Err RpcFailed, [])
            | TBlock block => (Ok block, [])
            | TMalformed e => if contains "Odd number of digits" e && may_retry then again else (Err (Unconverted e), [])
            end in
          (r, (address, coinbase_tag) :: requests)
      end
  end.

Definition get_block_template `{!AddressCrate} (coinbase_tag : list Z) (override_addr : option string) (wallet_addr : string)
    (reply : nat → TemplateReply) : result TemplateError Header * list (string * list Z) :=
  template_attempts coinbase_tag override_addr wallet_addr reply max_retries 0.

(** ** Balances and status *)

(** [*balance_map.entry(addr).or_insert(0) += amount] over the coins that have an address. *)
Definition add_balance (acc : exec (gmap string Z)) (e : option string * Z) : exec (gmap string Z) :=
  balance_map ← acc;
  match e.1 with
  | None => mret balance_map
  | Some addr => b ← u64_add (default 0 (balance_map !! addr)) e.2; mret (<[addr := b]> balance_map)
  end.
Definition sum_balances (coins : list (option string * Z)) : exec (gmap string Z) := foldl add_balance (Ret ∅) coins.

(** [None]: an address does not parse, or the call failed. *)
Definition get_balances_by_addresses `{!AddressCrate} (addresses : list string) (utxos : option (list (option string * Z)))
    : exec (option (gmap string Z)) :=
  if negb (forallb address_ok addresses) then mret None
  else match utxos with None => mret None | Some coins => Some <$> sum_balances coins end.

Record NodeStatusSnapshot := {
  last_updated : option Z; is_connected : bool; is_synced : option bool; network_id : option string;
  server_version : option string; status_daa : option Z; block_count : option Z; header_count : option Z;
  node_difficulty : option Z; tip_hash : option string; peers : option Z; mempool_size : option Z }.
Definition NodeStatusSnapshot_default : NodeStatusSnapshot :=
  {| last_updated := None; is_connected := false; is_synced := None; network_id := None; server_version := None;
     status_daa := None; block_count := None; header_count := None; node_difficulty := None; tip_hash := None;
     peers := None; mempool_size := None |}.

Record ServerInfo := { si_synced : bool; si_network : string; si_version : string; si_daa : Z }.
Record DagInfo := { di_blocks : Z; di_headers : Z; di_difficulty : Z; di_tips : list string; di_daa : Z; di_network : string }.
Record NodeInfo := { ni_mempool : Z; ni_version : string }.

Definition or_else {A} (o : option A) (a : A) : option A := match o with Some _ => o | None => Some a end.
(** The value of a reply, or what was known before. *)
Definition updated {R A} (r : option R) (f : R → A) (old : A) : A := match r with Some r => f r | None => old end.

(** One round of [start_node_status_thread]; [None] is a failed call.  The difficulty is the bit
    pattern of the f64. *)
Definition node_status_tick (now : Z) (connected : bool) (server_info : option ServerInfo) (dag_info : option DagInfo)
    (peers_info : option Z) (info_resp : option NodeInfo) (s : NodeStatusSnapshot) : NodeStatusSnapshot :=
  let network := updated server_info (Some ∘ si_network) (network_id s) in
  let version := updated server_info (Some ∘ si_version) (server_version s) in
  let daa := updated server_info (Some ∘ si_daa) (status_daa s) in
  {| last_updated := Some now; is_connected := connected;
     is_synced := updated server_info (Some ∘ si_synced) (is_synced s);
     network_id := updated dag_info (λ d, or_else network (di_network d)) network;
     server_version := updated info_resp (λ i, or_else version (ni_version i)) version;
     status_daa := updated dag_info (λ d, or_else daa (di_daa d)) daa;
     block_count := updated dag_info (Some ∘ di_blocks) (block_count s);
     header_count := updated dag_info (Some ∘ di_headers) (header_count s);
     node_difficulty := updated dag_info (Some ∘ di_difficulty) (node_difficulty s);
     tip_hash := updated dag_info (head ∘ di_tips) (tip_hash s);
     peers := updated peers_info Some (peers s);
     mempool_size := updated info_resp (Some ∘ ni_mempool) (mempool_size s) |}.

(** ** The guard remembers *)

(** What happens to the guard: submissions starting and the node's replies to them, interleaved. *)
Inductive ApiEvent := Start (hash : string) (now : Z) | Finish (hash : string) (now : Z) (reply : option SubmitBlockReport).
Definition event_time (e : ApiEvent) : Z := match e with Start _ t | Finish _ t _ => t end.
Definition api_step (g : BlockSubmitGuard) (e : ApiEvent) : BlockSubmitGuard :=
  match e with Start h t => (submit_start h t g).2 | Finish h t reply => submit_finish h t reply g end.
Definition api_run (events : list ApiEvent) (g : BlockSubmitGuard) : BlockSubmitGuard := foldl api_step g events.

Lemma drop_expired_spec ttl now o es : (drop_expired ttl now o es).2 ⊆ es ∧
  ∀ k t, es !! k = Some t → duration_since now t ≤ ttl → (drop_expired ttl now o es).2 !! k = Some t.
Proof.
  revert es. induction o as [|key o IH]; intros es; simpl; [done|]. case_bool; [|done]. destruct (IH (delete key es)) as [Hs Hk].
  split; [etrans; [exact Hs|apply delete_subseteq]|]. intros k t Hkt Ht. apply Hk; [|done]. rewrite lookup_delete_ne; [done|].
  intros <-. unfold block_expired in E. rewrite Hkt in E. apply Z.ltb_lt in E. lia.
Qed.

Lemma drop_excess_spec max o es : (drop_excess max o es).2 ⊆ es ∧ ((size es ≤ max)%nat → (drop_excess max o es).2 = es).
Proof.
  revert es. induction o as [|key o IH]; intros es; simpl; destruct (Nat.ltb_spec max (size es)) as [|]; simpl; try (split; [done|lia || done]).
  destruct (IH (delete key es)) as [Hs _]. split; [etrans; [exact Hs|apply delete_subseteq]|lia].
Qed.

Lemma prune_entries now g : bg_entries (guard_prune now g) ⊆ bg_entries g ∧
  bg_ttl (guard_prune now g) = bg_ttl g ∧ bg_max_entries (guard_prune now g) = bg_max_entries g ∧
  ((size (bg_entries g) ≤ bg_max_entries g)%nat → ∀ k t, bg_entries g !! k = Some t → duration_since now t ≤ bg_ttl g →
    bg_entries (guard_prune now g) !! k = Some t).
Proof.
  unfold guard_prune. pose proof (drop_expired_spec (bg_ttl g) now (bg_order g) (bg_entries g)) as [Hs Hk].
  destruct (drop_expired _ _ _ _) as [o es]. simpl in *. pose proof (drop_excess_spec (bg_max_entries g) o es) as [Hs' Hk'].
  destruct (drop_excess _ _ _) as [o' es']. simpl in *. split_and!; [by etrans|done|done|]. intros Hsz k t H1 H2.
  rewrite Hk'; [by apply Hk|]. etrans; [by apply map_subseteq_size|done].
Qed.

Lemma start_entries h t g : let '(r, g') := submit_start h t g in
  bg_ttl g' = bg_ttl g ∧ bg_max_entries g' = bg_max_entries g ∧ (size (bg_entries g') ≤ S (size (bg_entries g)))%nat ∧
  (r = Ok tt → bg_entries g' !! h = Some t) ∧
  ((size (bg_entries g) ≤ bg_max_entries g)%nat → ∀ k t', bg_entries g !! k = Some t' → duration_since t t' ≤ bg_ttl g →
    bg_entries g' !! k = Some t' ∧ (k = h → r = Err ErrDuplicateBlock)).
Proof.
  unfold submit_start, try_mark. destruct (prune_entries t g) as (Hs & Ht & Hm & Hk). pose proof (map_subseteq_size _ _ Hs) as Hsz.
  destruct (bg_entries (guard_prune t g) !! h) as [t0|] eqn:E; simpl; (split_and!; [done|done| | |]).
  - lia.
  - done.
  - intros Hc k t' H1 H2. split; [by apply Hk|done].
  - rewrite map_size_insert_None by done. lia.
  - intros _. apply lookup_insert_eq.
  - intros Hc k t' H1 H2. pose proof (Hk Hc k t' H1 H2) as H3. destruct (decide (k = h)) as [->|Hne]; [congruence|].
    by rewrite lookup_insert_ne.
Qed.

Lemma finish_entries h t reply g : let g' := submit_finish h t reply g in
  bg_ttl g' = bg_ttl g ∧ bg_max_entries g' = bg_max_entries g ∧ (size (bg_entries g') ≤ size (bg_entries g))%nat ∧
  ((size (bg_entries g) ≤ bg_max_entries g)%nat → ∀ k t', bg_entries g !! k = Some t' → duration_since t t' ≤ bg_ttl g →
    k ≠ h ∨ reply ≠ None → bg_entries g' !! k = Some t').
Proof.
  unfold submit_finish, guard_remove. destruct (prune_entries t g) as (Hs & Ht & Hm & Hk). pose proof (map_subseteq_size _ _ Hs) as Hsz.
  destruct reply as [[|reason]|]; simpl; split_and!; auto.
  - etrans; [apply map_subseteq_size, delete_subseteq|done].
  - intros Hc k t' H1 H2 [Hne|?]; [|done]. rewrite lookup_delete_ne by done. by apply Hk.
Qed.

Lemma api_step_params g e : bg_ttl (api_step g e) = bg_ttl g ∧ bg_max_entries (api_step g e) = bg_max_entries g ∧
  (size (bg_entries (api_step g e)) ≤ size (bg_entries g) + match e with Start _ _ => 1 | Finish _ _ _ => 0 end)%nat.
Proof.
  destruct e as [h t|h t reply]; simpl.
  - pose proof (start_entries h t g) as He. destruct (submit_start h t g) as [r g']. simpl in *. destruct He as (? & ? & ? & _). split_and!; auto; lia.
  - destruct (finish_entries h t reply g) as (? & ? & ? & _). split_and!; auto; lia.
Qed.
Lemma api_run_params events g : bg_ttl (api_run events g) = bg_ttl g ∧ bg_max_entries (api_run events g) = bg_max_entries g.
Proof.
  revert g. induction events as [|e events IH]; intros g; simpl; [done|].
  destruct (IH (api_step g e)) as (-> & ->). by destruct (api_step_params g e) as (? & ? & _).
Qed.

(** The event is not the failure of a call for this block. *)
Definition not_failure_of (h : string) (e : ApiEvent) : Prop := match e with Finish k _ None => k ≠ h | _ => True end.

(** The guard never holds more entries than it is meant to while [events] happen. *)
Definition never_overflows (events : list ApiEvent) (g : BlockSubmitGuard) : Prop :=
  ∀ n, (size (bg_entries (api_run (take n events) g)) ≤ bg_max_entries g)%nat.

(** It does not when what it holds and the submissions that start fit together. *)
Definition starts (events : list ApiEvent) : nat := length (List.filter (λ e, match e with Start _ _ => true | Finish _ _ _ => false end) events).
Lemma few_starts_fit events g : (size (bg_entries g) + starts events ≤ bg_max_entries g)%nat → never_overflows events g.
Proof.
  unfold never_overflows. revert g. induction events as [|e events IH]; intros g Hsz n; [rewrite take_nil; unfold starts in Hsz; simpl in *; lia|].
  destruct n as [|n]; [unfold starts in Hsz; simpl in *; lia|]. cbn [take]. change (api_run (e :: ?l) g) with (api_run l (api_step g e)).
  destruct (api_step_params g e) as (_ & Em & Es). rewrite <- Em. apply IH. rewrite Em. unfold starts in *. destruct e; simpl in *; lia.
Qed.

Lemma api_run_keeps h t1 events g : never_overflows events g → bg_entries g !! h = Some t1 →
  Forall (not_failure_of h) events → Forall (λ e, duration_since (event_time e) t1 ≤ bg_ttl g) events →
  bg_entries (api_run events g) !! h = Some t1.
Proof.
  revert g. induction events as [|e events IH]; intros g Hsz Hh Hn Ht; simpl in *; [done|].
  apply Forall_cons in Hn as [Hn Hns], Ht as [Ht Hts]. destruct (api_step_params g e) as (Et & Em & _).
  assert (never_overflows events (api_step g e)) as Hsz' by (intros n; rewrite Em; apply (Hsz (S n))).
  pose proof (Hsz 0%nat) as Hsz0. simpl in Hsz0. apply IH; [done| |done|by rewrite Et]. destruct e as [k t|k t reply]; simpl in *.
  - pose proof (start_entries k t g) as He. destruct (submit_start k t g) as [r g']. simpl in *. destruct He as (_ & _ & _ & _ & E4). by apply E4.
  - destruct (finish_entries k t reply g) as (_ & _ & _ & E4). apply E4; [done|done|done|destruct reply; auto].
Qed.

(** The same, for any guard. *)
Lemma sent_once g0 pre h t1 mid t2 : (submit_start h t1 (api_run pre g0)).1 = Ok tt → Forall (not_failure_of h) mid →
  Forall (λ e, duration_since (event_time e) t1 ≤ bg_ttl g0) mid → duration_since t2 t1 ≤ bg_ttl g0 →
  never_overflows mid (api_run (pre ++ [Start h t1]) g0) →
  (submit_start h t2 (api_run (pre ++ Start h t1 :: mid) g0)).1 = Err ErrDuplicateBlock.
Proof.
  intros H1 Hn Ht Ht2 Hroom. destruct (api_run_params pre g0) as (Et & Em).
  assert (api_run (pre ++ Start h t1 :: mid) g0 = api_run mid (api_run (pre ++ [Start h t1]) g0)) as ->.
  { unfold api_run. by rewrite <- foldl_app, <- app_assoc. }
  set (g1 := api_run (pre ++ [Start h t1]) g0) in *. assert (g1 = (submit_start h t1 (api_run pre g0)).2) as Hg1 by (unfold g1, api_run; by rewrite foldl_app).
  pose proof (start_entries h t1 (api_run pre g0)) as Hst. destruct (submit_start h t1 (api_run pre g0)) as [r g1']. simpl in Hst, H1, Hg1. subst g1'.
  destruct Hst as (E1 & E2 & _ & E4 & _). specialize (E4 H1).
  assert (bg_entries (api_run mid g1) !! h = Some t1) as Hkeep by (apply api_run_keeps; [done|done|done|by rewrite E1, Et]).
  destruct (api_run_params mid g1) as (F1 & F2). pose proof (start_entries h t2 (api_run mid g1)) as Hst.
  destruct (submit_start h t2 (api_run mid g1)) as [r2 g2]. destruct Hst as (_ & _ & _ & _ & G). simpl.
  apply (G ltac:(rewrite F2, <- (firstn_all mid); apply Hroom) h t1 Hkeep); [by rewrite F1, E1, Et|done].
Qed.

(** C27: Across all instances, however long the process has run and however submissions interleave, a
    block that was sent to the node is not sent again within the guard's ten minutes, unless the call
    failed in transport, as long as the guard holds no more than its 50,000 entries at any step from then
    on. *)
Theorem block_sent_once pre h t1 mid t2 :
  (submit_start h t1 (api_run pre BLOCK_SUBMIT_GUARD)).1 = Ok tt → Forall (not_failure_of h) mid →
  Forall (λ e, event_time e ≤ t1 + bg_ttl BLOCK_SUBMIT_GUARD) mid → t2 ≤ t1 + bg_ttl BLOCK_SUBMIT_GUARD →
  never_overflows mid (api_run (pre ++ [Start h t1]) BLOCK_SUBMIT_GUARD) →
  ∀ meanwhile finish reply,
    (submit_block h t2 meanwhile finish reply (api_run (pre ++ Start h t1 :: mid) BLOCK_SUBMIT_GUARD)).1 = (Err ErrDuplicateBlock, false).
Proof.
  assert (∀ t, t ≤ t1 + bg_ttl BLOCK_SUBMIT_GUARD → duration_since t t1 ≤ bg_ttl BLOCK_SUBMIT_GUARD) as Hd.
  { intros t. unfold duration_since, BLOCK_SUBMIT_GUARD. cbn [bg_ttl BlockSubmitGuard_new]. lia. }
  intros H1 Hn Ht Ht2 Hroom meanwhile finish reply. unfold submit_block.
  pose proof (sent_once BLOCK_SUBMIT_GUARD pre h t1 mid t2 H1 Hn) as Hs.
  destruct (submit_start h t2 _) as [r g]. simpl in Hs. rewrite Hs; [done|eapply Forall_impl; [exact Ht|intros; by apply Hd]|by apply Hd|done].
Qed.

(** A failed call never looks like a duplicate, so the guard lets the block be sent again. *)
Lemma transport_error_not_duplicate : is_duplicate submit_context = false.
Proof. reflexivity. Qed.

Lemma block_sent_once_witness :
  let mid := [Finish "b1" 5 (Some Success); Start "b2" 7; Finish "b2" 9 None] in
  (submit_block "b1" 20 id 21 (Some Success) (api_run ([Start "b0" 0] ++ Start "b1" 1 :: mid) BLOCK_SUBMIT_GUARD)).1 = (Err ErrDuplicateBlock, false).
Proof.
  intros mid. apply (block_sent_once [Start "b0" 0] "b1" 1 mid 20).
  - reflexivity.
  - repeat (apply Forall_cons_2; [done|]). apply Forall_nil_2.
  - repeat (apply Forall_cons_2; [vm_compute; discriminate|]). apply Forall_nil_2.
  - vm_compute. discriminate.
  - apply few_starts_fit, Nat.leb_le. vm_compute. reflexivity.
Defined.

(** ** Templates pay the pool *)

Section templates.
Context `{!AddressCrate}.

Lemma template_attempts_spec tag override_addr wallet_addr reply n attempt :
  let '(r, requests) := template_attempts tag override_addr wallet_addr reply n attempt in
  (length requests ≤ n)%nat ∧
  (∀ a t, (a, t) ∈ requests → resolve_coinbase_recipient override_addr wallet_addr = Some a ∧ t = tag) ∧
  (∀ b, r = Ok b → ∃ i, requests ≠ [] ∧ i = (attempt + (length requests - 1))%nat ∧ reply i = TBlock b).
Proof.
  revert attempt. induction n as [|n IH]; intros attempt; simpl; [split_and!; [lia|set_solver|done]|].
  destruct (resolve_coinbase_recipient override_addr wallet_addr) as [address|] eqn:Ea; [|split_and!; [simpl; lia|set_solver|done]].
  specialize (IH (S attempt)). destruct (template_attempts tag override_addr wallet_addr reply n (S attempt)) as [r requests].
  destruct IH as (Hl & Hr & Hb).
  assert (∀ e, let '(r', rs) := (@Err TemplateError Header e, @nil (string * list Z)) in
    (length ((address, tag) :: rs) ≤ S n)%nat ∧
    (∀ a t, (a, t) ∈ (address, tag) :: rs → Some address = Some a ∧ t = tag) ∧
    (∀ b, r' = Ok b → ∃ i, (address, tag) :: rs ≠ [] ∧ i = (attempt + (length ((address, tag) :: rs) - 1))%nat ∧ reply i = TBlock b)) as Hstop.
  { intros e. split_and!; [simpl; lia|set_solver|done]. }
  assert ((length ((address, tag) :: requests) ≤ S n)%nat ∧
    (∀ a t, (a, t) ∈ (address, tag) :: requests → Some address = Some a ∧ t = tag) ∧
    (∀ b, r = Ok b → ∃ i, (address, tag) :: requests ≠ [] ∧ i = (attempt + (length ((address, tag) :: requests) - 1))%nat ∧ reply i = TBlock b)) as Hgo.
  { split_and!; [simpl; lia| |].
    - intros a t [Heq|Hin]%elem_of_cons; [by simplify_eq|by apply Hr].
    - intros b Hok. destruct (Hb b Hok) as (i & Hne & -> & Hi). eexists. split_and!; [done|reflexivity|]. rewrite <- Hi. f_equal.
      destruct requests; [done|simpl; lia]. }
  destruct (reply attempt) as [|block|e] eqn:Er.
  - destruct (_ <? _)%nat; [done|apply (Hstop RpcFailed)].
  - split_and!; [simpl; lia|set_solver|]. intros b [= ->]. exists attempt. split_and!; [done|simpl; lia|done].
  - destruct (_ && _); [done|apply (Hstop (Unconverted e))].
Qed.

(** C28: In custodial mode the node is asked at most three times, each time for a template that pays
    the pool under the bridge's tag, whatever the miner gave as its wallet, even an address that
    does not parse; and a template that is handed out is the node's answer to the last request. *)
Theorem templates_pay_pool tag pool wallet_addr reply :
  let '(r, requests) := get_block_template tag (Some pool) wallet_addr reply in
  (1 ≤ length requests ≤ 3)%nat ∧ (∀ q, q ∈ requests → q = (pool, tag)) ∧
  (∀ b, r = Ok b → reply (length requests - 1)%nat = TBlock b) ∧
  r ≠ Err BadRecipient ∧ r ≠ Err NoValidTemplate.
Proof.
  unfold get_block_template. pose proof (template_attempts_spec tag (Some pool) wallet_addr reply max_retries 0) as Hs.
  assert (Hne : ∀ n attempt, (attempt + n = max_retries)%nat → n ≠ 0%nat →
    let '(r, rs) := template_attempts tag (Some pool) wallet_addr reply n attempt in rs ≠ [] ∧ r ≠ Err BadRecipient ∧ r ≠ Err NoValidTemplate).
  { induction n as [|n IH]; intros attempt Hn ?; [done|]. simpl. specialize (IH (S attempt)).
    change (max_retries - 1)%nat with 2%nat. destruct (Nat.ltb_spec attempt 2) as [Hlt|Hge]; unfold max_retries in *.
    - destruct (template_attempts _ _ _ _ n (S attempt)) as [r rs]. destruct IH as (_ & ? & ?); [lia|lia|].
      destruct (reply attempt) as [|b|e]; [|by split_and!|destruct (contains _ _); simpl]; by split_and!.
    - destruct (reply attempt) as [|b|e]; rewrite ?andb_false_r; by split_and!. }
  specialize (Hne max_retries 0%nat eq_refl ltac:(done)). destruct (template_attempts _ _ _ _ _ _) as [r rs].
  destruct Hs as (Hl & Hr & Hb), Hne as (H1 & H2 & H3). split_and!; [destruct rs; [done|simpl; lia]|done| | |done|done].
  - intros [a t] Hq. destruct (Hr a t Hq) as [Ha ->]. by simplify_eq/=.
  - intros b Hok. destruct (Hb b Hok) as (i & _ & -> & Hi). done.
Qed.
End templates.

(** ** The tag fits *)

Lemma trim_start_matches_suffix c s : ∃ p, s = p ++ trim_start_matches c s.
Proof.
  induction s as [|d s [p Hp]]; simpl; [by exists []|]. destruct (d =? c); [|by exists []]. exists (d :: p). simpl. by f_equal.
Qed.

Lemma trim_matches_sublist c s : trim_matches c s `sublist_of` s.
Proof.
  unfold trim_matches. destruct (trim_start_matches_suffix c s) as [p Hp].
  destruct (trim_start_matches_suffix c (rev (trim_start_matches c s))) as [q Hq].
  rewrite Hp at 2. apply sublist_inserts_l. rewrite <- (rev_involutive (trim_start_matches c s)) at 2. rewrite Hq at 2.
  rewrite rev_app_distr. by apply sublist_inserts_r.
Qed.

Lemma Forall_sublist {A} (P : A → Prop) l1 l2 : l1 `sublist_of` l2 → Forall P l2 → Forall P l1.
Proof. induction 1; rewrite ?Forall_cons; naive_solver. Qed.

Lemma tag_char_len c : is_tag_char c = true → char_len c = 1.
Proof.
  unfold is_tag_char, is_ascii_alphanumeric, between, char_len. intros H. destruct (Z.ltb_spec c 128); [done|].
  exfalso. repeat rewrite ?orb_true_iff, ?andb_true_iff, ?Z.leb_le, ?Z.eqb_eq in H. lia.
Qed.

Lemma tag_str_len s : Forall (λ c, is_tag_char c = true) s → str_len s = Z.of_nat (length s).
Proof. induction 1 as [|c s Hc _ IH]; [done|]. rewrite str_len_cons, IH, tag_char_len by done. simpl. lia. Qed.

Lemma tag_loop_ok out cs : Forall (λ c, is_tag_char c = true) out → str_len out ≤ MAX_COINBASE_TAG_SUFFIX_LEN →
  Forall (λ c, is_tag_char c = true) (tag_loop out cs) ∧ str_len (tag_loop out cs) ≤ MAX_COINBASE_TAG_SUFFIX_LEN.
Proof.
  revert out. induction cs as [|c cs IH]; intros out Ho Hl; simpl; [done|].
  destruct (Z.leb_spec MAX_COINBASE_TAG_SUFFIX_LEN (str_len out)) as [|Hlt]; [done|].
  assert (∀ d, is_tag_char d = true → Forall (λ c, is_tag_char c = true) (tag_loop (out ++ [d]) cs) ∧
    str_len (tag_loop (out ++ [d]) cs) ≤ MAX_COINBASE_TAG_SUFFIX_LEN) as Hd.
  { intros d Hd. apply IH; [apply Forall_app; auto|]. rewrite str_len_app, (tag_str_len [d]) by auto. simpl. lia. }
  destruct (is_tag_char c) eqn:Ec; [by apply Hd|]. destruct (is_ascii_whitespace c); [by apply Hd|by apply IH].
Qed.

(** Whatever an operator configures, the coinbase tag is the bridge's own, alone or followed by a
    slash and between 1 and 64 characters of [A-Za-z0-9._-]. *)
Theorem coinbase_tag_bounded suffix :
  build_coinbase_tag_bytes suffix = STRATUM_COINBASE_TAG_BYTES ∨
  ∃ s, build_coinbase_tag_bytes suffix = STRATUM_COINBASE_TAG_BYTES ++ [47] ++ s ∧
    (1 ≤ length s ≤ 64)%nat ∧ Forall (λ c, is_tag_char c = true) s.
Proof.
  unfold build_coinbase_tag_bytes. destruct (suffix ≫= sanitize_coinbase_tag_suffix) as [s|] eqn:E; [right|by left].
  exists s. split; [done|]. destruct suffix as [raw|]; [simpl in E|done]. unfold sanitize_coinbase_tag_suffix in E.
  destruct (trim_start_matches 47 (trim raw)) as [|c cs]; [done|].
  destruct (tag_loop_ok [] (c :: cs)) as [Hf Hl]; [done|done|]. pose proof (trim_matches_sublist 95 (tag_loop [] (c :: cs))) as Hs.
  rewrite (tag_str_len _ Hf) in Hl. unfold MAX_COINBASE_TAG_SUFFIX_LEN in Hl. pose proof (sublist_length _ _ Hs).
  destruct (trim_matches 95 (tag_loop [] (c :: cs))) as [|d s'] eqn:Et; [done|]. simplify_eq. simpl in *. split; [lia|].
  by apply (Forall_sublist _ _ _ Hs).
Qed.

(** ** Balances *)

Definition balance_of (addr : string) (coins : list (option string * Z)) : Z :=
  sumZ (map snd (List.filter (λ e, bool_decide (e.1 = Some addr)) coins)).

Lemma add_balance_Panic coins : foldl add_balance Panic coins = Panic.
Proof. by induction coins. Qed.

(** The balance reported for an address is the sum of its coins; the call aborts instead when a
    sum exceeds u64. *)
Lemma sum_balances_spec coins m m' addr : foldl add_balance (Ret m) coins = Ret m' →
  default 0 (m' !! addr) = default 0 (m !! addr) + balance_of addr coins.
Proof.
  revert m. induction coins as [|[[a|] v] coins IH]; intros m H.
  - injection H as ->. unfold balance_of. simpl. lia.
  - simpl in H. destruct (u64_add (default 0 (m !! a)) v) as [b|] eqn:Eb; simpl in H; [|by rewrite add_balance_Panic in H].
    rewrite (IH _ H). unfold u64_add in Eb. case_bool_in Eb; simplify_eq. unfold balance_of. simpl.
    destruct (decide (a = addr)) as [->|Hne].
    + rewrite lookup_insert_eq, bool_decide_eq_true_2 by done. simpl. lia.
    + rewrite lookup_insert_ne, bool_decide_eq_false_2 by congruence. done.
  - rewrite (IH m H). unfold balance_of. simpl. done.
Qed.

(** The pauses between attempts to reach the node stay between a quarter and five seconds. *)
Lemma backoff_bounded replies b waits : 250 ≤ b ≤ 5000 → retry_with_backoff b replies = Some waits → Forall (λ w, 250 ≤ w ≤ 5000) waits.
Proof.
  revert b waits. induction replies as [|[|[]] replies IH]; intros b waits Hb H; simplify_eq/=; [done|].
  destruct (retry_with_backoff _ replies) as [ws|] eqn:E; simplify_eq/=. constructor; [done|]. eapply IH; [|exact E].
  unfold next_backoff, u64_saturating_mul, u64_max. lia.
Qed.
