(* ===== verification/ShareHandler.v ===== *)
(** * Share submission (bridge/src/share_handler.rs)

    A submission runs against one connection and the handler's shared state,
    leaving a trace of what the outside sees: events on the bus, replies to
    the miner, blocks sent to the node.  Code between two awaits is one step;
    at an await the environment answers and may change the connection and the
    shared state arbitrarily ([aw_meanwhile]): other submissions, the
    difficulty and pruning threads, new jobs.  When the answers run out the
    task has been dropped.  A [WorkStats] is shared by reference, so the map
    holds indices into [cells].  Overflowing arithmetic aborts the process,
    as the release profile says.  Logging and Prometheus counters are left
    out; proof-of-work and header hashing are parameters. *)

From Stdlib Require Import Ascii.
From S2P Require Import Prelude Float64 Mass Db Effects DupGuard Domain Events Bytes Hasher MiningState Stratum KaspaApi.
Local Open Scope Z_scope.

(** ** Statistics *)

Record WorkStats := {
  blocks_found : Z; shares_found : Z; shares_diff : f64; stale_shares : Z; invalid_shares : Z;
  ws_worker_name : string; start_time : Z; last_share : Z;
  var_diff_start_time : option Z; var_diff_shares_found : Z; var_diff_window : Z; min_diff : f64 }.

Definition WorkStats_new (name : string) (start last : Z) : WorkStats :=
  {| blocks_found := 0; shares_found := 0; shares_diff := f64_zero; stale_shares := 0; invalid_shares := 0;
     ws_worker_name := name; start_time := start; last_share := last; var_diff_start_time := None;
     var_diff_shares_found := 0; var_diff_window := 0; min_diff := f64_zero |}.

Definition ws_with (blocks shares : Z) (sd : f64) (stale invalid last : Z) (vs : option Z) (vf vw : Z) (md : f64)
    (s : WorkStats) : WorkStats :=
  {| blocks_found := blocks; shares_found := shares; shares_diff := sd; stale_shares := stale; invalid_shares := invalid;
     ws_worker_name := ws_worker_name s; start_time := start_time s; last_share := last; var_diff_start_time := vs;
     var_diff_shares_found := vf; var_diff_window := vw; min_diff := md |}.

(** [*counter.lock() += 1] on the counters of an entry. *)
Definition count_block (s : WorkStats) : exec WorkStats :=
  n ← i64_add (blocks_found s) 1;
  Ret (ws_with n (shares_found s) (shares_diff s) (stale_shares s) (invalid_shares s) (last_share s)
         (var_diff_start_time s) (var_diff_shares_found s) (var_diff_window s) (min_diff s) s).
Definition count_stale (s : WorkStats) : exec WorkStats :=
  n ← i64_add (stale_shares s) 1;
  Ret (ws_with (blocks_found s) (shares_found s) (shares_diff s) n (invalid_shares s) (last_share s)
         (var_diff_start_time s) (var_diff_shares_found s) (var_diff_window s) (min_diff s) s).
Definition count_invalid (s : WorkStats) : exec WorkStats :=
  n ← i64_add (invalid_shares s) 1;
  Ret (ws_with (blocks_found s) (shares_found s) (shares_diff s) (stale_shares s) n (last_share s)
         (var_diff_start_time s) (var_diff_shares_found s) (var_diff_window s) (min_diff s) s).
Definition count_share (s : WorkStats) : exec WorkStats :=
  n ← i64_add (shares_found s) 1;
  Ret (ws_with (blocks_found s) n (shares_diff s) (stale_shares s) (invalid_shares s) (last_share s)
         (var_diff_start_time s) (var_diff_shares_found s) (var_diff_window s) (min_diff s) s).
(** The four updates of an accepted share. *)
Definition credit_share (hash_value : f64) (now : Z) (s : WorkStats) : exec WorkStats :=
  n ← i64_add (shares_found s) 1;
  v ← i64_add (var_diff_shares_found s) 1;
  Ret (ws_with (blocks_found s) n (f64_add (shares_diff s) hash_value) (stale_shares s) (invalid_shares s) now
         (var_diff_start_time s) v (var_diff_window s) (min_diff s) s).
Definition set_min_diff (d : f64) (s : WorkStats) : WorkStats :=
  ws_with (blocks_found s) (shares_found s) (shares_diff s) (stale_shares s) (invalid_shares s) (last_share s)
    (var_diff_start_time s) (var_diff_shares_found s) (var_diff_window s) d s.
(** A new difficulty restarts the observation window. *)
Definition restart_vardiff (d : f64) (now : Z) (s : WorkStats) : WorkStats :=
  ws_with (blocks_found s) (shares_found s) (shares_diff s) (stale_shares s) (invalid_shares s) (last_share s)
    (Some now) 0 0 d s.

Record ShareHandler := {
  stats : gmap string nat; cells : list WorkStats; overall : WorkStats;
  duplicate_submit_guard : DuplicateSubmitGuard; bus_attached : bool }.

Definition ShareHandler_new (now : Z) : ShareHandler :=
  {| stats := ∅; cells := []; overall := WorkStats_new "overall" now now;
     duplicate_submit_guard := DuplicateSubmitGuard_new (180 * 1000000000) 50000; bus_attached := false |}.
Definition with_event_bus (h : ShareHandler) : ShareHandler :=
  {| stats := stats h; cells := cells h; overall := overall h; duplicate_submit_guard := duplicate_submit_guard h;
     bus_attached := true |}.

Definition set_stats (m : gmap string nat) (cs : list WorkStats) (h : ShareHandler) : ShareHandler :=
  {| stats := m; cells := cs; overall := overall h; duplicate_submit_guard := duplicate_submit_guard h;
     bus_attached := bus_attached h |}.
Definition set_overall (o : WorkStats) (h : ShareHandler) : ShareHandler :=
  {| stats := stats h; cells := cells h; overall := o; duplicate_submit_guard := duplicate_submit_guard h;
     bus_attached := bus_attached h |}.
Definition set_guard (g : DuplicateSubmitGuard) (h : ShareHandler) : ShareHandler :=
  {| stats := stats h; cells := cells h; overall := overall h; duplicate_submit_guard := g;
     bus_attached := bus_attached h |}.

(** ** The world of a submission *)

(** [KaspaApi::submit_block]: the node's answer, or the text of an RPC error. *)
Inductive Act := AEvent (e : PoolEvent) | AReply (r : JsonRpcResponse) | ASubmitBlock (h : Header).

Record Await := {
  aw_delivered : bool;
  aw_block : result string BlockSubmitOutcome;
  aw_meanwhile : StratumContext * ShareHandler → StratumContext * ShareHandler }.

Record Bridge := {
  br_ctx : StratumContext; br_handler : ShareHandler; br_trace : list Act;
  br_awaits : list Await; br_clock : nat → Z; br_ticks : nat }.

Definition br_with (c : StratumContext) (h : ShareHandler) (t : list Act) (aw : list Await) (n : nat) (b : Bridge) : Bridge :=
  {| br_ctx := c; br_handler := h; br_trace := t; br_awaits := aw; br_clock := br_clock b; br_ticks := n |}.

Inductive SubmitError :=
| MalformedEvent | JobIdNotParsable | JobIdOutOfRange | JobIdType | JobDoesNotExist | NonceNotString | NonceParse
| ErrorDisconnected.

Definition H (A : Type) : Type := Bridge → outcome SubmitError A * Bridge.
#[export] Instance H_ret : MRet H := λ A a b, (Done (Ok a), b).
#[export] Instance H_bind : MBind H := λ A B k m b,
  match m b with
  | (Done (Ok a), b') => k a b'
  | (Done (Err e), b') => (Done (Err e), b')
  | (Crashed, b') => (Crashed, b')
  end.

Definition h_throw {A} (e : SubmitError) : H A := λ b, (Done (Err e), b).
Definition h_exec {A} (x : exec A) : H A := λ b, match x with Ret a => (Done (Ok a), b) | Panic => (Crashed, b) end.
Definition ask {A} (f : Bridge → A) : H A := λ b, (Done (Ok (f b)), b).
Definition put_ctx (c : StratumContext) : H unit := λ b,
  (Done (Ok tt), br_with c (br_handler b) (br_trace b) (br_awaits b) (br_ticks b) b).
Definition put_handler (h : ShareHandler) : H unit := λ b,
  (Done (Ok tt), br_with (br_ctx b) h (br_trace b) (br_awaits b) (br_ticks b) b).

(** [Instant::now()] and [Utc::now()]. *)
Definition instant_now : H Z := λ b,
  (Done (Ok (br_clock b (br_ticks b))),
   br_with (br_ctx b) (br_handler b) (br_trace b) (br_awaits b) (S (br_ticks b)) b).

Definition emit (e : PoolEvent) : H unit := λ b,
  (Done (Ok tt),
   if bus_attached (br_handler b)
   then br_with (br_ctx b) (br_handler b) (br_trace b ++ [AEvent e]) (br_awaits b) (br_ticks b) b else b).
Definition emit_opt (e : option PoolEvent) : H unit := match e with Some e => emit e | None => mret tt end.

(** An await: the trace grows by [acts], then the others run. *)
Definition await {A} (acts : Await → list Act) (k : Await → result SubmitError A) : H A := λ b,
  match br_awaits b with
  | [] => (Crashed, b)
  | aw :: aws =>
      let '(c, h) := aw_meanwhile aw (br_ctx b, br_handler b) in
      (Done (k aw), br_with c h (br_trace b ++ acts aw) aws (br_ticks b) b)
  end.

Definition reply (r : JsonRpcResponse) : H unit :=
  c ← ask br_ctx;
  if disconnecting c then h_throw ErrorDisconnected
  else await (λ aw, if aw_delivered aw then [AReply r] else [])
         (λ aw, if aw_delivered aw then Ok tt else Err ErrorDisconnected).
(** [let _ = ... .await]. *)
Definition ignore_err (m : H unit) : H unit := λ b,
  match m b with (Done (Err _), b') => (Done (Ok tt), b') | r => r end.
Definition submit_block_rpc (h : Header) : H (result string BlockSubmitOutcome) :=
  await (λ _, [ASubmitBlock h]) (λ aw, Ok (aw_block aw)).

Definition true_response (event : JsonRpcEvent) : JsonRpcResponse :=
  {| rs_id := ev_id event; rs_result := Some (VBool true); rs_error := None |}.

(** ** Shared statistics *)

Definition worker_id : H string :=
  c ← ask br_ctx; let '(name, c) := effective_worker_name c in _ ← put_ctx c; mret name.

Definition current_stratum_diff (c : StratumContext) : f64 := default f64_zero (diff_value <$> stratum_diff (state c)).

Definition get_create_stats : H nat :=
  id ← worker_id;
  h ← ask br_handler;
  match stats h !! id with
  | Some i => mret i
  | None =>
      start ← instant_now;
      last ← instant_now;
      c ← ask br_ctx;
      let seeded := current_stratum_diff c in
      let s := WorkStats_new id start last in
      let s := if f64_lt f64_zero seeded then set_min_diff seeded s else s in
      let i := length (cells h) in
      _ ← put_handler (set_stats (<[id := i]> (stats h)) (cells h ++ [s]) h);
      mret i
  end.

Definition cell (i : nat) : H WorkStats :=
  h ← ask br_handler; h_exec (match cells h !! i with Some s => Ret s | None => Panic end).

Definition on_cell (i : nat) (f : WorkStats → exec WorkStats) : H unit :=
  s ← cell i; s ← h_exec (f s); h ← ask br_handler; put_handler (set_stats (stats h) (<[i := s]> (cells h)) h).
Definition on_overall (f : WorkStats → exec WorkStats) : H unit :=
  h ← ask br_handler; o ← h_exec (f (overall h)); put_handler (set_overall o h).

Definition guard_outcome (key : string) (o : DuplicateSubmitOutcome) : H unit :=
  now ← instant_now; h ← ask br_handler; put_handler (set_guard (set_outcome key now o (duplicate_submit_guard h)) h).

(** ** Parsing *)

Fixpoint digits_value (radix : Z) (acc : Z) (s : string) : option Z :=
  match s with
  | EmptyString => Some acc
  | String c s => d ← to_digit16 c; if d <? radix then digits_value radix (radix * acc + d) s else None
  end.

(** [u64::from_str_radix]: a leading plus is allowed, overflow is an error. *)
Definition u64_from_str_radix (radix : Z) (s : string) : option Z :=
  let body := match s with String "+" rest => rest | _ => s end in
  match body with
  | EmptyString => None
  | _ => v ← digits_value radix 0 body; if v <=? u64_max then Some v else None
  end.

Definition parse_job_id (v : Value) : result SubmitError Z :=
  match v with
  | VString s => match u64_from_str_radix 10 s with Some n => Ok n | None => Err JobIdNotParsable end
  | VNumber n => match as_u64 n with Some n => Ok n | None => Err JobIdOutOfRange end
  | _ => Err JobIdType
  end.

(** [s.replace("0x", "")]. *)
Fixpoint strip_0x (s : string) : string :=
  match s with
  | String "0" (String "x" s) => strip_0x s
  | String c s => String c (strip_0x s)
  | EmptyString => EmptyString
  end.

(** [{:0>width$}]. *)
Definition pad_zeros (width : nat) (s : string) : string :=
  of_chars (replicate (width - String.length s) "0"%char) +:+ s.

(** The connection's extranonce goes in front of a short nonce; [16 - len] underflows on a longer one. *)
Definition final_nonce_str (extranonce nonce_str : string) : exec string :=
  if String.eqb extranonce "" then Ret nonce_str
  else if (16 <? String.length extranonce)%nat then Panic
  else let extranonce2_len := (16 - String.length extranonce)%nat in
       Ret (if (String.length nonce_str <=? extranonce2_len)%nat
            then extranonce +:+ pad_zeros extranonce2_len nonce_str else nonce_str).

Definition submit_key (worker : string) (job_id : Z) (nonce : string) : string :=
  worker +:+ "|" +:+ pretty job_id +:+ "|" +:+ nonce.

(** ** Events *)

Definition build_share_rejected (wallet_raw worker_raw : string) (reason : ShareRejectReason) (now correlation_id : Z)
    : option PoolEvent :=
  match WalletAddress_new wallet_raw, WorkerName_new worker_raw with
  | Ok wallet, Ok worker => Some (ShareRejected wallet worker reason now correlation_id)
  | _, _ => None
  end.

Definition reject (wallet worker : string) (reason : ShareRejectReason) (correlation_id : Z) : H unit :=
  now ← instant_now; emit_opt (build_share_rejected wallet worker reason now correlation_id).

(** [kaspa_pow::State::new(header).check_pow(nonce).1] and [hashing::header::hash(header).to_string()]. *)
Class KaspaPow := { check_pow : Header → Z → Z; header_hash : Header → string }.

Section submit.
Context `{!HexCrate, !KaspaPow}.
Variable correlation_id : Z.

Definition block_found_event (wallet worker : string) (block : Header) (now : Z) : option PoolEvent :=
  match WalletAddress_new wallet, WorkerName_new worker, BlockHash_from_hex (header_hash block) with
  | Ok wallet_d, Ok worker_d, Ok hash_d =>
      Some (BlockFound wallet_d worker_d hash_d (DaaScore_new (daa_score block)) now correlation_id)
  | _, _, _ => None
  end.

Definition block_accepted_event (block : Header) (now : Z) : option PoolEvent :=
  match BlockHash_from_hex (header_hash block) with
  | Ok hash_d => Some (BlockAccepted hash_d now correlation_id)
  | Err _ => None
  end.

(** The node's answer to a block: [Some tt] lets the submission go on to
    credit the share, [None] says the miner has its answer. *)
Definition settle_block (event : JsonRpcEvent) (key wallet worker : string) (block : Header)
    (answer : result string BlockSubmitOutcome) : H (option unit) :=
  match answer with
  | Ok (RejectedByNode _) => mret (Some tt)
  | Ok (BAccepted _) =>
      _ ← get_create_stats;
      now ← instant_now;
      _ ← emit_opt (block_accepted_event block now);
      mret (Some tt)
  | Err error_str =>
      if contains "ErrDuplicateBlock" error_str then
        _ ← guard_outcome key OStale;
        i ← get_create_stats;
        _ ← on_cell i count_stale;
        _ ← on_overall count_stale;
        _ ← reject wallet worker Stale correlation_id;
        _ ← reply (stale_share_response (ev_id event));
        mret None
      else
        i ← get_create_stats;
        _ ← on_cell i count_invalid;
        _ ← on_overall count_invalid;
        _ ← reject wallet worker BadPow correlation_id;
        _ ← guard_outcome key OBad;
        _ ← reply (bad_share_response (ev_id event));
        mret None
  end.

(** The share met the network target: announce the block, send it, settle. *)
Definition found_block (event : JsonRpcEvent) (key : string) (block : Header) : H (option unit) :=
  c ← ask br_ctx;
  worker ← worker_id;
  now ← instant_now;
  _ ← emit_opt (block_found_event (wallet_addr c) worker block now);
  answer ← submit_block_rpc block;
  settle_block event key (wallet_addr c) worker block answer.

(** What one pass of the loop decides about a job. *)
Inductive Verdict := Break (invalid_share : bool) | Answered | Continue (prev_job_id : Z) (prev : Job).

Definition pool_target (s : MiningState) : Z := default 0 (target_value <$> stratum_diff s).

(** The job-id workaround: step to the previous job unless all were tried. *)
Definition previous_job (job_id current_job_id : Z) (s : MiningState) : exec Verdict :=
  if (current_job_id =? 1) || (current_job_id mod max_jobs s =? (job_id mod max_jobs s + 1) mod max_jobs s)
  then Ret (Break true)
  else
    prev_job_id ← u64_sub current_job_id 1;
    Ret (match get_job prev_job_id s with
         | Some prev => Continue prev_job_id prev
         | None => Break true
         end).

Definition try_job (event : JsonRpcEvent) (key : string) (job_id nonce_val current_job_id : Z) (current : Job) : H Verdict :=
  let header := with_nonce nonce_val (block_header current) in
  let pow_value := check_pow header nonce_val in
  if pow_value <=? calculate_target (bits header) then
    r ← found_block event key header;
    mret (match r with Some _ => Break false | None => Answered end)
  else
    c ← ask br_ctx;
    if pool_target (state c) <=? pow_value then h_exec (previous_job job_id current_job_id (state c))
    else mret (Break false).

(** The loop over the ring; it never takes more passes than there are slots. *)
Fixpoint pow_loop (fuel : nat) (event : JsonRpcEvent) (key : string) (job_id nonce_val current_job_id : Z) (current : Job)
    : H (option (bool * Job)) :=
  v ← try_job event key job_id nonce_val current_job_id current;
  match v with
  | Break invalid_share => mret (Some (invalid_share, current))
  | Answered => mret None
  | Continue prev_id prev =>
      match fuel with
      | O => h_exec Panic
      | S fuel => pow_loop fuel event key job_id nonce_val prev_id prev
      end
  end.

Definition low_diff_share (event : JsonRpcEvent) (key : string) : H unit :=
  i ← get_create_stats;
  _ ← on_cell i count_invalid;
  _ ← on_overall count_invalid;
  c ← ask br_ctx;
  _ ← reject (wallet_addr c) (worker_name c) LowDifficulty correlation_id;
  _ ← match ev_id event with
      | Some id => ignore_err (reply (low_diff_share_response id))
      | None => mret tt
      end;
  guard_outcome key OLowDiff.

Definition share_credited_event (wallet worker : string) (assigned_diff : f64) (job : Job) (now : Z) : option PoolEvent :=
  match WalletAddress_new wallet, WorkerName_new worker, ShareDifficulty_new assigned_diff with
  | Ok wallet_d, Ok worker_d, Ok difficulty_d =>
      Some (ShareCredited wallet_d worker_d difficulty_d (DaaScore_new (daa_score (block_header job))) now correlation_id)
  | _, _, _ => None
  end.

Definition accepted_share (event : JsonRpcEvent) (key : string) (job : Job) : H unit :=
  i ← get_create_stats;
  c ← ask br_ctx;
  let hash_val := default f64_zero (hash_value <$> stratum_diff (state c)) in
  now ← instant_now;
  _ ← on_cell i (credit_share hash_val now);
  _ ← on_overall count_share;
  c ← ask br_ctx;
  i ← get_create_stats;
  s ← cell i;
  let assigned_diff := if f64_lt f64_zero (min_diff s) then min_diff s else hash_val in
  now ← instant_now;
  _ ← emit_opt (share_credited_event (wallet_addr c) (worker_name c) assigned_diff job now);
  _ ← guard_outcome key OAccepted;
  reply (true_response event).

(** A submission seen before is answered again. *)
Definition repeat_answer (event : JsonRpcEvent) (o : DuplicateSubmitOutcome) : H unit :=
  match o with
  | OAccepted | InFlight => reply (true_response event)
  | OStale => reply (stale_share_response (ev_id event))
  | OLowDiff => match ev_id event with
                | Some id => ignore_err (reply (low_diff_share_response id))
                | None => mret tt
                end
  | OBad => reply (bad_share_response (ev_id event))
  end.

(** The parameters of a submission: job id, job, nonce text and value. *)
Definition read_submission (event : JsonRpcEvent) : H (Z * Job * string * Z) :=
  c ← ask br_ctx;
  if (length (params event) <? 3)%nat then
    _ ← reject (wallet_addr c) (worker_name c) MalformedFrame correlation_id;
    h_throw MalformedEvent
  else
    match parse_job_id (default VNull (params event !! 1%nat)) with
    | Err e => h_throw e
    | Ok job_id =>
        match get_job job_id (state c) with
        | None => _ ← reject (wallet_addr c) (worker_name c) MissingJob correlation_id; h_throw JobDoesNotExist
        | Some job =>
            let nonce_param_idx := if (5 <=? length (params event))%nat then 4%nat else 2%nat in
            match as_str (default VNull (params event !! nonce_param_idx)) with
            | None => h_throw NonceNotString
            | Some raw =>
                final ← h_exec (final_nonce_str (extranonce c) (strip_0x raw));
                match u64_from_str_radix 16 final with
                | None => h_throw NonceParse
                | Some nonce_val => mret (job_id, job, final, nonce_val)
                end
            end
        end
    end.

(** Look the key up; record it as in flight when it is new. *)
Definition claim_key (key : string) : H (option DuplicateSubmitOutcome) :=
  now ← instant_now;
  h ← ask br_handler;
  let '(known, g) := guard_get key now (duplicate_submit_guard h) in
  match known with
  | Some o => _ ← put_handler (set_guard g h); mret (Some o)
  | None => _ ← put_handler (set_guard (insert_inflight key now g) h); mret None
  end.

Definition handle_submit (event : JsonRpcEvent) : H unit :=
  '(job_id, job, final, nonce_val) ← read_submission event;
  worker ← worker_id;
  let key := submit_key worker job_id final in
  known ← claim_key key;
  match known with
  | Some o => repeat_answer event o
  | None =>
      verdict ← pow_loop (Z.to_nat MAX_JOBS) event key job_id nonce_val job_id job;
      match verdict with
      | None => mret tt
      | Some (true, _) => low_diff_share event key
      | Some (false, job) => accepted_share event key job
      end
  end.
End submit.
