(* ===== verification/ShareProps.v ===== *)
(** * What a share submission does

    Theorems on [ShareHandler.handle_submit]: every way a submission can show
    on the outside, what backs a credit, that the walk over previous jobs ends,
    and the three defects the model exhibits. *)

From Stdlib Require Import Ascii.
From S2P Require Import Prelude Float64 Mass Db Effects DupGuard Domain Events Bytes Hasher MiningState Stratum KaspaApi ShareHandler.
Local Open Scope Z_scope.

(** ** Computations that show nothing *)

(** The trace, the connection's jobs and difficulty, and its wallet stay. *)
Definition silent {A} (m : H A) : Prop := ∀ b,
  br_trace (m b).2 = br_trace b ∧ state (br_ctx (m b).2) = state (br_ctx b).

Lemma silent_ret {A} (a : A) : silent (mret a : H A).
Proof. done. Qed.
Lemma silent_throw {A} e : silent (h_throw e : H A).
Proof. done. Qed.
Lemma silent_exec {A} (x : exec A) : silent (h_exec x).
Proof. by destruct x. Qed.
Lemma silent_ask {A} (f : Bridge → A) : silent (ask f).
Proof. done. Qed.
Lemma silent_handler h : silent (put_handler h).
Proof. done. Qed.
Lemma silent_now : silent instant_now.
Proof. done. Qed.
Lemma silent_bind {A B} (m : H A) (k : A → H B) : silent m → (∀ a, silent (k a)) → silent (m ≫= k).
Proof.
  intros Hm Hk b. specialize (Hm b). unfold mbind, H_bind. destruct (m b) as [[[a|e]|] b'] eqn:E; simpl in *; try done.
  destruct (Hk a b') as [-> ->]. done.
Qed.

Lemma silent_worker_id : silent worker_id.
Proof.
  intros b. unfold worker_id, ask, mbind, H_bind, effective_worker_name, put_ctx, mret, H_ret. simpl. split; [done|].
  unfold ensure_default_worker_name. by case_bool.
Qed.

Create HintDb silent.
#[export] Hint Resolve silent_ret silent_throw silent_exec silent_ask silent_handler silent_now silent_bind
  silent_worker_id : silent.

Ltac solve_silent :=
  repeat first
    [ solve [auto 1 with silent]
    | apply silent_bind
    | progress intros
    | match goal with |- silent (match ?x with _ => _ end) => destruct x end ].

Lemma silent_get_create_stats : silent get_create_stats.
Proof. unfold get_create_stats. solve_silent. Qed.
Lemma silent_cell i : silent (cell i).
Proof. unfold cell. solve_silent. Qed.
#[export] Hint Resolve silent_get_create_stats silent_cell : silent.
Lemma silent_on_cell i f : silent (on_cell i f).
Proof. unfold on_cell. solve_silent. Qed.
Lemma silent_on_overall f : silent (on_overall f).
Proof. unfold on_overall. solve_silent. Qed.
Lemma silent_guard_outcome key o : silent (guard_outcome key o).
Proof. unfold guard_outcome. solve_silent. Qed.
Lemma silent_claim_key key : silent (claim_key key).
Proof. unfold claim_key. solve_silent. Qed.
#[export] Hint Resolve silent_on_cell silent_on_overall silent_guard_outcome silent_claim_key : silent.

(** ** Traces *)

Definition returned {A} (o : outcome SubmitError A) : option A :=
  match o with Done (Ok a) => Some a | _ => None end.

(** Started in [b], the computation adds [new] to the trace, and [P] holds of
    that and of what it returns, if it does. *)
Definition shows {A} (P : list Act → option A → Prop) (m : H A) (b : Bridge) : Prop :=
  ∃ new, br_trace (m b).2 = br_trace b ++ new ∧ P new (returned (m b).1).

Lemma shows_mono {A} (P Q : list Act → option A → Prop) m b : shows P m b → (∀ l r, P l r → Q l r) → shows Q m b.
Proof. intros (l & ? & ?) HPQ. exists l. auto. Qed.

Lemma shows_and {A} (P : list Act → option A → Prop) (Q : option A → Prop) m b :
  shows P m b → Q (returned (m b).1) → shows (λ l r, P l r ∧ Q r) m b.
Proof. intros (l & ? & ?) HQ. by exists l. Qed.

Lemma shows_ret {A} (P : list Act → option A → Prop) a b : P [] (Some a) → shows P (mret a) b.
Proof. intros HP. exists []. by rewrite app_nil_r. Qed.

Lemma shows_bind {A B} (P : list Act → option B → Prop) (m : H A) (k : A → H B) b :
  shows (λ l r, match r with
                | Some a => shows (λ l2, P (l ++ l2)) (k a) (m b).2
                | None => P l None
                end) m b →
  shows P (m ≫= k) b.
Proof.
  intros (l1 & Ht & HP). unfold shows, mbind, H_bind. destruct (m b) as [[[a|e]|] b1] eqn:E; simpl in *.
  - destruct HP as (l2 & Ht2 & HP2). exists (l1 ++ l2). by rewrite Ht2, Ht, app_assoc.
  - by exists l1.
  - by exists l1.
Qed.

Lemma shows_silent {A} (P : list Act → option A → Prop) (m : H A) b :
  silent m → P [] None → (∀ a, P [] (Some a)) → shows P m b.
Proof.
  intros Hm Hn HP. exists []. rewrite app_nil_r. split; [apply Hm|]. by destruct (returned _).
Qed.

Lemma shows_after {A B} (P : list Act → option B → Prop) (m : H A) (k : A → H B) b :
  silent m → P [] None → (∀ a b', state (br_ctx b') = state (br_ctx b) → shows P (k a) b') → shows P (m ≫= k) b.
Proof.
  intros Hm Hn Hk. apply shows_bind. exists []. rewrite app_nil_r. destruct (Hm b) as [Ht Hs]. split; [done|].
  destruct (returned _); [|done]. simpl. by apply Hk.
Qed.

Lemma shows_ask {A B} (P : list Act → option B → Prop) (f : Bridge → A) (k : A → H B) b :
  shows P (k (f b)) b → shows P (ask f ≫= k) b.
Proof. done. Qed.

(** ** The acts *)

Definition credits (cid : Z) (daa : DaaScore) (l : list Act) : Prop :=
  l = [] ∨ ∃ w k d t, l = [AEvent (ShareCredited w k d daa t cid)].
Definition rejects (cid : Z) (reason : ShareRejectReason) (l : list Act) : Prop :=
  l = [] ∨ ∃ w k t, l = [AEvent (ShareRejected w k reason t cid)].
Definition found (cid : Z) (h : Header) (l : list Act) : Prop :=
  l = [] ∨ ∃ w k hash t, l = [AEvent (BlockFound w k hash (daa_score h) t cid)].
Definition accepted (cid : Z) (l : list Act) : Prop :=
  l = [] ∨ ∃ hash t, l = [AEvent (BlockAccepted hash t cid)].
Definition replies (r : JsonRpcResponse) (l : list Act) : Prop := l = [] ∨ l = [AReply r].

Lemma shows_emit e b (P : list Act → option unit → Prop) : P [] (Some tt) → P [AEvent e] (Some tt) → shows P (emit e) b.
Proof. intros H1 H2. unfold shows, emit. case_bool; simpl; [by eexists|]. exists []. by rewrite app_nil_r. Qed.

Lemma shows_emit_opt e b (P : list Act → option unit → Prop) :
  P [] (Some tt) → (∀ e', e = Some e' → P [AEvent e'] (Some tt)) → shows P (emit_opt e) b.
Proof. intros H1 H2. destruct e as [e|]; simpl; [apply shows_emit; auto|by apply shows_ret]. Qed.

Lemma shows_reply r b (P : list Act → option unit → Prop) :
  P [] None → P [AReply r] (Some tt) → shows P (reply r) b.
Proof.
  intros H1 H2. unfold shows, reply, await, ask, h_throw, mbind, H_bind. simpl.
  destruct (disconnecting _); simpl; [exists []; by rewrite app_nil_r|].
  destruct (br_awaits b) as [|aw aws]; [exists []; by rewrite app_nil_r|].
  destruct (aw_meanwhile aw _) as [c h]. destruct (aw_delivered aw); simpl; eexists; done.
Qed.

Lemma shows_ignore_reply r b (P : list Act → option unit → Prop) :
  P [] None → P [] (Some tt) → P [AReply r] (Some tt) → shows P (ignore_err (reply r)) b.
Proof.
  intros H0 H1 H2. unfold shows, ignore_err, reply, await, ask, h_throw, mbind, H_bind. simpl.
  destruct (disconnecting _); simpl; [exists []; by rewrite app_nil_r|].
  destruct (br_awaits b) as [|aw aws]; [exists []; by rewrite app_nil_r|].
  destruct (aw_meanwhile aw _) as [c h]. destruct (aw_delivered aw); simpl; eexists; done.
Qed.

Lemma shows_submit_block h b (P : list Act → option (result string BlockSubmitOutcome) → Prop) :
  P [] None → (∀ a, P [ASubmitBlock h] (Some a)) → shows P (submit_block_rpc h) b.
Proof.
  intros H1 H2. unfold shows, submit_block_rpc, await. destruct (br_awaits b) as [|aw aws]; [exists []; by rewrite app_nil_r|].
  destruct (aw_meanwhile aw _) as [c h']. simpl. eexists; done.
Qed.

Lemma shows_reject w k reason cid b (P : list Act → option unit → Prop) :
  (∀ l, rejects cid reason l → P l (Some tt)) → P [] None → shows P (reject w k reason cid) b.
Proof.
  intros HP Hn. unfold reject. apply shows_after; [auto with silent|done|]. intros now b' _.
  apply shows_emit_opt; [apply HP; by left|]. intros e He. apply HP. right. unfold build_share_rejected in He.
  destruct (WalletAddress_new w), (WorkerName_new k); simplify_eq. eauto.
Qed.

(** ** The shapes of a submission *)

Section submission.
Context `{!HexCrate, !KaspaPow}.
Context (cid : Z) (event : JsonRpcEvent).

(** After the block reached the node. *)
Inductive block_answer (h : Header) : list Act → Prop :=
| ba_share l1 l2 l3 : accepted cid l1 → credits cid (daa_score h) l2 → replies (true_response event) l3 →
    block_answer h (l1 ++ l2 ++ l3)
| ba_stale l1 l2 : rejects cid Stale l1 → replies (stale_share_response (ev_id event)) l2 → block_answer h (l1 ++ l2)
| ba_bad l1 l2 : rejects cid BadPow l1 → replies (bad_share_response (ev_id event)) l2 → block_answer h (l1 ++ l2).

(** The text that is read as the nonce: what the miner sent, behind the connection's extranonce and
    filled up with zeros to 16 digits when it is short enough for that. *)
Inductive nonce_text (extranonce sent : string) : string → Prop :=
| nt_whole : extranonce = "" ∨ (16 < String.length extranonce + String.length sent)%nat → nonce_text extranonce sent sent
| nt_prefixed zeros : extranonce ≠ "" → (String.length extranonce + zeros + String.length sent = 16)%nat →
    nonce_text extranonce sent (extranonce +:+ of_chars (replicate zeros "0"%char) +:+ sent).

(** The nonce of the submission on a connection: the last of five parameters, or the third, in hexadecimal. *)
Definition submitted_nonce (ctx : StratumContext) (n : Z) : Prop :=
  ∃ sent text, params event !! (if (5 <=? length (params event))%nat then 4%nat else 2%nat) = Some (VString sent) ∧
    nonce_text (extranonce ctx) (strip_0x sent) text ∧ u64_from_str_radix 16 text = Some n.

(** [j] is in the ring under the submitted job id or an earlier one, and [h] is its header with the
    nonce the miner submitted. *)
Definition mined (ctx : StratumContext) (j : Job) (h : Header) : Prop :=
  (∃ job_id k, parse_job_id (default VNull (params event !! 1%nat)) = Ok job_id ∧ k ≤ job_id ∧ get_job k (state ctx) = Some j) ∧
  ∃ n, submitted_nonce ctx n ∧ h = with_nonce n (block_header j).

(** What a submission on a connection in state [ctx] may add to the trace. *)
Inductive submission_trace (ctx : StratumContext) : list Act → Prop :=
| st_unread reason l : reason = MalformedFrame ∨ reason = MissingJob → rejects cid reason l → submission_trace ctx l
| st_repeat r l : replies r l → submission_trace ctx l
| st_low l1 l2 : rejects cid LowDifficulty l1 → (l2 = [] ∨ ∃ id, l2 = [AReply (low_diff_share_response id)]) →
    submission_trace ctx (l1 ++ l2)
| st_share j h l1 l2 : mined ctx j h → check_pow h (nonce h) < pool_target (state ctx) →
    credits cid (daa_score h) l1 → replies (true_response event) l2 → submission_trace ctx (l1 ++ l2)
| st_block j h l0 l : mined ctx j h → check_pow h (nonce h) ≤ calculate_target (bits h) →
    found cid h l0 → (l = [] ∨ ∃ l', l = ASubmitBlock h :: l' ∧ block_answer h l') → submission_trace ctx (l0 ++ l).

Lemma low_diff_share_shows key ctx b : shows (λ l _, submission_trace ctx l) (low_diff_share cid event key) b.
Proof.
  assert (Hst : ∀ l, rejects cid LowDifficulty l → submission_trace ctx l).
  { intros l Hl. rewrite <- (app_nil_r l). by apply st_low; [|left]. }
  assert (Hnil : submission_trace ctx []) by (apply Hst; by left).
  unfold low_diff_share. do 4 (apply shows_after; [auto with silent|done|intros ???]).
  apply shows_bind, shows_reject; [|done]. intros l1 Hl1. apply shows_bind.
  assert (Hlast : ∀ l2 b, (l2 = [] ∨ ∃ id, l2 = [AReply (low_diff_share_response id)]) →
    shows (λ l3 _, submission_trace ctx (l1 ++ l2 ++ l3)) (guard_outcome key OLowDiff) b).
  { intros l2 ? Hl2. apply shows_silent; [auto with silent|intros; rewrite app_nil_r; by apply st_low..]. }
  destruct (ev_id event) as [id|]; [apply shows_ignore_reply|apply shows_ret].
  all: rewrite ?app_nil_r; auto.
  all: apply Hlast; eauto.
Qed.

Lemma accepted_share_shows key j b (P : list Act → Prop) :
  (∀ l1 l2, credits cid (daa_score (block_header j)) l1 → replies (true_response event) l2 → P (l1 ++ l2)) →
  shows (λ l _, P l) (accepted_share cid event key j) b.
Proof.
  intros HP. assert (Hnil : P []) by (apply (HP [] []); by left).
  unfold accepted_share. do 9 (apply shows_after; [auto with silent|done|intros ???]).
  apply shows_bind.
  assert (Hlast : ∀ l1 b, credits cid (daa_score (block_header j)) l1 →
    shows (λ l2 _, P (l1 ++ l2)) (_ ← guard_outcome key OAccepted; reply (true_response event)) b).
  { intros l1 ? Hl1. assert (P l1) by (rewrite <- (app_nil_r l1); apply HP; [done|by left]).
    apply shows_after; [auto with silent|by rewrite app_nil_r|]. intros ???.
    apply shows_reply; rewrite ?app_nil_r; [done|]. apply HP; [done|by right]. }
  apply shows_emit_opt; [apply Hlast; by left|]. intros e He. apply Hlast. right. unfold share_credited_event in He.
  destruct (WalletAddress_new (wallet_addr _)); [|done]. destruct (WorkerName_new (worker_name _)); [|done].
  destruct (ShareDifficulty_new _); simplify_eq. naive_solver.
Qed.

Lemma refused_answers h l r : rejects cid Stale l ∧ r = stale_share_response (ev_id event) ∨
    rejects cid BadPow l ∧ r = bad_share_response (ev_id event) →
  block_answer h l ∧ block_answer h (l ++ [AReply r]).
Proof.
  intros [[Hl ->]|[Hl ->]]; (split; [rewrite <- (app_nil_r l)|]);
    first [apply ba_stale; [done|by left]|apply ba_stale; [done|by right]|apply ba_bad; [done|by left]|apply ba_bad; [done|by right]].
Qed.

(** After the node's answer: a share still to credit, or an answer to the miner. *)
Definition settled (h : Header) (l : list Act) (r : option (option unit)) : Prop :=
  match r with Some (Some _) => accepted cid l | _ => block_answer h l end.

Lemma settle_block_shows key w k h answer b : shows (settled h) (settle_block cid event key w k h answer) b.
Proof.
  assert (Hnil : block_answer h []) by (apply refused_answers with (r := stale_share_response (ev_id event)); left; split; [by left|done]).
  unfold settle_block. destruct answer as [[]|err].
  - do 2 (apply shows_after; [auto with silent|done|intros ???]). apply shows_bind, shows_emit_opt.
    + apply shows_ret. by left.
    + intros e He. apply shows_ret. unfold block_accepted_event in He. destruct (BlockHash_from_hex _); simplify_eq.
      right. eauto.
  - apply shows_ret. by left.
  - case_bool.
    + do 4 (apply shows_after; [auto with silent|done|intros ???]). apply shows_bind, shows_reject; [|done].
      intros l Hl. destruct (refused_answers h l _ (or_introl (conj Hl eq_refl))).
      apply shows_bind, shows_reply; [by rewrite app_nil_r|]. apply shows_ret. by rewrite app_nil_r.
    + do 3 (apply shows_after; [auto with silent|done|intros ???]). apply shows_bind, shows_reject; [|done].
      intros l Hl. destruct (refused_answers h l _ (or_intror (conj Hl eq_refl))).
      apply shows_after; [auto with silent|by rewrite app_nil_r|intros ???].
      apply shows_bind, shows_reply; [by rewrite app_nil_r|]. apply shows_ret. by rewrite app_nil_r.
Qed.

(** The block announced, then sent, then settled. *)
Definition sent_block (h : Header) (l : list Act) (r : option (option unit)) : Prop :=
  ∃ l0 l', l = l0 ++ l' ∧ found cid h l0 ∧
    (l' = [] ∧ r = None ∨ ∃ l2, l' = ASubmitBlock h :: l2 ∧ settled h l2 r).

Lemma found_block_shows key h b : shows (sent_block h) (found_block cid event key h) b.
Proof.
  assert (Hstop : ∀ l0, found cid h l0 → sent_block h l0 None).
  { intros l0 Hl. exists l0, []. rewrite app_nil_r. split_and!; [done..|by left]. }
  unfold found_block. do 3 (apply shows_after; [auto with silent|apply Hstop; by left|intros ???]).
  apply shows_bind.
  assert (Hrest : ∀ l0 b, found cid h l0 → shows (λ l2, sent_block h (l0 ++ l2))
    (answer ← submit_block_rpc h; settle_block cid event key (wallet_addr a) a0 h answer) b).
  { intros l0 ? Hl0. apply shows_bind, shows_submit_block; [rewrite app_nil_r; auto|]. intros answer.
    eapply shows_mono; [apply settle_block_shows|]. intros l2 r Hl2. exists l0, (ASubmitBlock h :: l2).
    split_and!; [done..|]. right. by exists l2. }
  apply shows_emit_opt; [apply Hrest; by left|]. intros e He. apply Hrest. right. unfold block_found_event in He.
  destruct (WalletAddress_new (wallet_addr a)); [|done]. destruct (WorkerName_new a0); [|done].
  destruct (BlockHash_from_hex _); simplify_eq. naive_solver.
Qed.

Lemma sent_block_trace ctx j h l r : mined ctx j h → check_pow h (nonce h) ≤ calculate_target (bits h) →
  sent_block h l r → (∀ u, r ≠ Some (Some u)) → submission_trace ctx l.
Proof.
  intros Hm Hp (l0 & l' & -> & Hf & Hl') Hr. eapply st_block; [done..|].
  destruct Hl' as [[-> _]|(l2 & -> & Hl2)]; [by left|right]. exists l2. split; [done|].
  destruct r as [[u|]|]; [by destruct (Hr u)|done..].
Qed.

Lemma sent_block_credited ctx j h l l1 l2 u : mined ctx j h → check_pow h (nonce h) ≤ calculate_target (bits h) →
  sent_block h l (Some (Some u)) → credits cid (daa_score h) l1 → replies (true_response event) l2 →
  submission_trace ctx (l ++ l1 ++ l2).
Proof.
  intros Hm Hp (l0 & l' & -> & Hf & [[_ ?]|(l3 & -> & Hl3)]) Hl1 Hl2; [done|]. rewrite <- app_assoc.
  eapply st_block; [done..|]. right. exists (l3 ++ l1 ++ l2). split; [done|]. by apply ba_share.
Qed.

(** What the loop leaves behind. *)
Definition looped (ctx : StratumContext) (n : Z) (l : list Act) (r : option (option (bool * Job))) : Prop :=
  match r with
  | Some (Some (true, _)) => l = []
  | Some (Some (false, j)) =>
      let h := with_nonce n (block_header j) in mined ctx j h ∧
      (l = [] ∧ check_pow h n < pool_target (state ctx) ∨
       check_pow h n ≤ calculate_target (bits h) ∧ sent_block h l (Some (Some tt)))
  | _ => submission_trace ctx l
  end.

Lemma submission_nil ctx : submission_trace ctx [].
Proof. apply (st_unread ctx MissingJob); [by right|by left]. Qed.

(** A job under an id of at most the submitted one. *)
Definition up_to (ctx : StratumContext) (job_id cur : Z) (j : Job) : Prop := cur ≤ job_id ∧ get_job cur (state ctx) = Some j.

(** One pass of the loop. *)
Definition tried (ctx : StratumContext) (job_id n : Z) (current : Job) (l : list Act) (v : option Verdict) : Prop :=
  match v with
  | Some (Break invalid) => looped ctx n l (Some (Some (invalid, current)))
  | Some (Continue prev_id prev) => l = [] ∧ up_to ctx job_id prev_id prev
  | _ => submission_trace ctx l
  end.

(** What was read from the submission. *)
Definition read_as (ctx : StratumContext) (job_id n : Z) : Prop :=
  parse_job_id (default VNull (params event !! 1%nat)) = Ok job_id ∧ submitted_nonce ctx n.

Lemma try_job_shows ctx key job_id n cur current b : state (br_ctx b) = state ctx → read_as ctx job_id n → up_to ctx job_id cur current →
  shows (tried ctx job_id n current) (try_job cid event key job_id n cur current) b.
Proof.
  intros Hb [Hid Hn] [Hcur Hring]. set (h := with_nonce n (block_header current)).
  assert (Hm : mined ctx current h) by (split; [by exists job_id, cur|by exists n]).
  unfold try_job. fold h. case_bool; [apply Z.leb_le in E|].
  - apply shows_bind. eapply shows_mono; [apply found_block_shows|]. intros l [[[]|]|] Hl.
    + apply shows_ret. rewrite app_nil_r. split; [done|by right].
    + apply shows_ret. rewrite app_nil_r. by apply (sent_block_trace ctx current h l (Some None) Hm E Hl).
    + by apply (sent_block_trace ctx current h l None Hm E Hl).
  - unfold ask, mbind, H_bind, shows. simpl. rewrite Hb. case_bool; simpl.
    + destruct (previous_job job_id cur (state ctx)) as [v|] eqn:Ep; exists []; rewrite app_nil_r; (split; [done|]); simpl;
        [|apply submission_nil].
      unfold previous_job in Ep. case_bool_in Ep; [by simplify_eq|]. apply exec_bind_Ret in Ep as (q & Hq & [= <-]).
      destruct (get_job q (state ctx)) eqn:Ej; simpl; [|done]. split; [done|]. split; [|done]. unfold u64_sub in Hq. case_bool_in Hq; simplify_eq. lia.
    + exists []. rewrite app_nil_r. split; [done|]. split; [done|]. left. apply Z.leb_gt in E0. done.
Qed.

Lemma try_job_continue key job_id n cur current b p j :
  returned (try_job cid event key job_id n cur current b).1 = Some (Continue p j) →
  (try_job cid event key job_id n cur current b).2 = b.
Proof.
  unfold try_job. case_bool.
  - unfold mbind, H_bind. destruct (found_block _ _ _ _ _) as [[[[]|]|] ?]; simpl; congruence.
  - unfold ask, mbind, H_bind. simpl. case_bool; [|done]. by destruct (previous_job _ _ _).
Qed.

Lemma pow_loop_shows ctx fuel key job_id n cur current b : state (br_ctx b) = state ctx → read_as ctx job_id n →
  up_to ctx job_id cur current →
  shows (looped ctx n) (pow_loop cid fuel event key job_id n cur current) b.
Proof.
  revert cur current b. induction fuel as [|fuel IH]; intros cur current b Hb Hread Hring.
  all: cbn [pow_loop]; apply shows_bind.
  all: eapply shows_mono; [apply shows_and with (Q := λ r, ∀ p j, r = Some (Continue p j) →
      (try_job cid event key job_id n cur current b).2 = b);
    [by apply try_job_shows|intros p j; apply try_job_continue]|].
  all: intros l [[invalid| |p prev]|] [Hl Hc]; simpl; try exact Hl.
  1, 4: apply shows_ret; by rewrite app_nil_r.
  1, 3: apply shows_ret; by rewrite app_nil_r.
  - destruct Hl as [-> _]. exists []. rewrite app_nil_r. split; [done|apply submission_nil].
  - destruct Hl as [-> ?]. rewrite (Hc p prev eq_refl). by apply IH.
Qed.

Lemma final_nonce_text en t f : final_nonce_str en t = Ret f → nonce_text en t f.
Proof.
  unfold final_nonce_str. destruct (String.eqb_spec en "") as [->|Hne]; [intros [= <-]; apply nt_whole; by left|].
  case_bool; [done|]. apply Nat.ltb_ge in E. case_bool; intros [= <-].
  - apply Nat.leb_le in E0. unfold pad_zeros. apply nt_prefixed; [done|lia].
  - apply Nat.leb_gt in E0. apply nt_whole. right. lia.
Qed.

Lemma read_submission_returns b x : returned (read_submission cid event b).1 = Some x →
  (read_submission cid event b).2 = b ∧ get_job x.1.1.1 (state (br_ctx b)) = Some x.1.1.2 ∧ read_as (br_ctx b) x.1.1.1 x.2.
Proof.
  unfold read_submission, ask, mbind, H_bind. simpl. case_bool.
  { destruct (reject _ _ _ _ b) as [[[]|] ?]; done. }
  destruct (parse_job_id _) as [id|] eqn:Eid; [|done]. destruct (get_job id _) as [job|] eqn:Ej.
  2: { destruct (reject _ _ _ _ b) as [[[]|] ?]; done. }
  set (idx := if (5 <=? length (params event))%nat then 4%nat else 2%nat).
  destruct (as_str _) as [raw|] eqn:Er; [|done]. destruct (final_nonce_str _ _) as [f|] eqn:Ef; [|done]. simpl.
  destruct (u64_from_str_radix 16 f) as [n|] eqn:En; simpl; [|done]. intros [= <-]. split_and!; [done|done|]. split; [done|].
  exists raw, f. split; [|split; [by apply final_nonce_text|done]]. change (as_str (default VNull (params event !! idx)) = Some raw) in Er. revert Er. fold idx. destruct (params event !! idx) as [v|]; simpl; [|done].
  destruct v; simpl; try done. by intros [= ->].
Qed.

Lemma read_submission_fails b : shows (λ l r, r = None → submission_trace (br_ctx b) l) (read_submission cid event) b.
Proof.
  assert (Hnil : ∀ m : H (Z * Job * string * Z), silent m →
    shows (λ l r, r = None → submission_trace (br_ctx b) l) m b).
  { intros m Hm. apply shows_silent; [done| |done]. intros _. apply submission_nil. }
  assert (Hrej : ∀ w k reason e, reason = MalformedFrame ∨ reason = MissingJob →
    shows (λ l (r : option (Z * Job * string * Z)), r = None → submission_trace (br_ctx b) l)
      (_ ← reject w k reason cid; h_throw e) b).
  { intros w k reason e Hr. apply shows_bind, shows_reject; [|intros _; apply submission_nil]. intros l Hl.
    exists []. rewrite !app_nil_r. split; [done|]. intros _. by apply (st_unread _ reason). }
  unfold read_submission. apply shows_ask. case_bool; [auto|].
  destruct (parse_job_id _) as [id|]; [|auto with silent]. destruct (get_job id _) as [job|] eqn:Ej; [|auto].
  destruct (as_str _); [|auto with silent]. apply Hnil. solve_silent.
Qed.

Lemma handle_submit_shows b :
  shows (λ l _, submission_trace (br_ctx b) l) (handle_submit cid event) b.
Proof.
  set (ctx := br_ctx b). unfold handle_submit. apply shows_bind.
  destruct (read_submission_fails b) as (l & Ht & Hl). exists l. split; [done|].
  destruct (returned (read_submission cid event b).1) as [[[[job_id job] final] n]|] eqn:Er; [|by apply Hl].
  apply read_submission_returns in Er as (Eb & Hj & Hread). simpl in Hj, Hread. rewrite Eb in *.
  assert (l = []) as -> by (rewrite <- (app_nil_r (br_trace b)) in Ht at 1; by apply app_inv_head in Ht).
  do 2 (apply shows_after; [auto with silent|apply submission_nil|]; intros ? ? ?). destruct a0 as [o|].
  { assert (∀ r, submission_trace ctx [AReply r]) by (intros r; apply (st_repeat _ r); by right).
    pose proof (submission_nil ctx). unfold repeat_answer. cbn [app].
    destruct o; try (apply shows_reply; by auto). destruct (ev_id event); [apply shows_ignore_reply|apply shows_ret]; auto. }
  apply shows_bind. eapply shows_mono; [apply (pow_loop_shows ctx); [unfold ctx; congruence|done|by split]|].
  intros l [[[[] j]|]|] Hl'; simpl in Hl'; [subst; apply low_diff_share_shows| |apply shows_ret; by rewrite app_nil_r|done].
  destruct Hl' as [Hm [[-> Hp]|[Hp Hs]]].
  - apply accepted_share_shows. intros l1 l2 Hl1 Hl2. exact (st_share ctx j (with_nonce n (block_header j)) l1 l2 Hm Hp Hl1 Hl2).
  - apply accepted_share_shows. intros l1 l2 Hl1 Hl2. exact (sent_block_credited ctx j (with_nonce n (block_header j)) l l1 l2 tt Hm Hp Hs Hl1 Hl2).
Qed.

(** ** What a trace says *)

Definition verdict (a : Act) : nat :=
  match a with AEvent (ShareCredited _ _ _ _ _ _) | AEvent (ShareRejected _ _ _ _ _) => 1 | _ => 0 end.
Definition verdicts (l : list Act) : nat := sum_list (map verdict l).

(** A credit in [l] is for a ring job: its difficulty target was met, or its block was sent. *)
Definition credit_backed (ctx : StratumContext) (l : list Act) (a : Act) : Prop :=
  match a with
  | AEvent (ShareCredited _ _ _ daa _ c) =>
      c = cid ∧ ∃ j h, mined ctx j h ∧ daa = daa_score h ∧
        (check_pow h (nonce h) < pool_target (state ctx) ∨ ASubmitBlock h ∈ l)
  | ASubmitBlock h => (∃ j, mined ctx j h) ∧ check_pow h (nonce h) ≤ calculate_target (bits h)
  | _ => True
  end.

Lemma verdicts_app l1 l2 : verdicts (l1 ++ l2) = (verdicts l1 + verdicts l2)%nat.
Proof. unfold verdicts. by rewrite map_app, sum_list_with_app. Qed.

Lemma act_facts ctx L :
  (∀ reason l, rejects cid reason l → (verdicts l ≤ 1)%nat ∧ Forall (credit_backed ctx L) l) ∧
  (∀ r l, replies r l → verdicts l = 0%nat ∧ Forall (credit_backed ctx L) l) ∧
  (∀ h l, found cid h l → verdicts l = 0%nat ∧ Forall (credit_backed ctx L) l) ∧
  (∀ l, accepted cid l → verdicts l = 0%nat ∧ Forall (credit_backed ctx L) l) ∧
  (∀ h l, credits cid (daa_score h) l →
     (∃ j, mined ctx j h ∧ (check_pow h (nonce h) < pool_target (state ctx) ∨ ASubmitBlock h ∈ L)) →
     (verdicts l ≤ 1)%nat ∧ Forall (credit_backed ctx L) l).
Proof.
  split_and!.
  - intros reason l [->|(w & k & t & ->)]; (split; [cbv; lia|]); repeat constructor.
  - intros r l [->| ->]; (split; [done|]); repeat constructor.
  - intros h l [->|(w & k & hash & t & ->)]; (split; [done|]); repeat constructor.
  - intros l [->|(hash & t & ->)]; (split; [done|]); repeat constructor.
  - intros h l [->|(w & k & d & t & ->)] (j & Hj); (split; [cbv; lia|]); [constructor|]. constructor; [|constructor].
    split; [done|]. exists j, h. naive_solver.
Qed.

(** Two parts of a trace. *)
Lemma verdicts_two (P : Act → Prop) l1 l2 n m : (verdicts l1 ≤ n)%nat ∧ Forall P l1 → (verdicts l2 ≤ m)%nat ∧ Forall P l2 →
  (verdicts (l1 ++ l2) ≤ n + m)%nat ∧ Forall P (l1 ++ l2).
Proof. intros [? ?] [? ?]. rewrite verdicts_app. split; [lia|]. by apply Forall_app. Qed.

Lemma no_verdict (P : Act → Prop) l : verdicts l = 0%nat ∧ Forall P l → (verdicts l ≤ 0)%nat ∧ Forall P l.
Proof. intros [-> ?]. by split. Qed.

Lemma block_answer_facts ctx j h L l : mined ctx j h → ASubmitBlock h ∈ L → block_answer h l →
  (verdicts l ≤ 1)%nat ∧ Forall (credit_backed ctx L) l.
Proof.
  intros Hm Hin Ha. destruct (act_facts ctx L) as (Hrj & Hrp & _ & Hac & Hcr).
  destruct Ha as [l1 l2 l3 Hx1 Hx2 Hx3|l1 l2 Hx1 Hx2|l1 l2 Hx1 Hx2].
  - apply (verdicts_two _ _ _ 0 1); [by apply no_verdict, Hac|]. apply (verdicts_two _ _ _ 1 0); [|by eapply no_verdict, Hrp].
    eapply Hcr; [done|]. exists j. auto.
  - apply (verdicts_two _ _ _ 1 0); [by eapply Hrj|by eapply no_verdict, Hrp].
  - apply (verdicts_two _ _ _ 1 0); [by eapply Hrj|by eapply no_verdict, Hrp].
Qed.

Lemma submission_facts ctx l : submission_trace ctx l → (verdicts l ≤ 1)%nat ∧ Forall (credit_backed ctx l) l.
Proof.
  intros Hl. destruct (act_facts ctx l) as (Hrj & Hrp & Hfo & _ & Hcr). destruct Hl as [reason l _ Hl|r l Hl|l1 l2 Hx1 Hx2|j h l1 l2 Hm Hp Hx1 Hx2|j h l0 l Hm Hp H0' Hl].
  - by eapply Hrj.
  - destruct (Hrp r l Hl) as [-> ?]. split; [lia|done].
  - apply (verdicts_two _ _ _ 1 0); [by eapply Hrj|]. destruct Hx2 as [->|[id ->]]; (split; [done|]); repeat constructor.
  - apply (verdicts_two _ _ _ 1 0); [|by eapply no_verdict, Hrp]. eapply Hcr; eauto.
  - apply (verdicts_two _ _ _ 0 1); [by eapply no_verdict, Hfo|]. destruct Hl as [->|(l' & -> & Ha)]; [split; [cbv; lia|constructor]|].
    destruct (block_answer_facts ctx j h (l0 ++ ASubmitBlock h :: l') l' Hm) as [? ?]; [set_solver|done|].
    split; [done|]. constructor; [|done]. split; [by exists j|done].
Qed.

(** C7: However a submission ends, and whatever the others do at its awaits: it
    adds at most one verdict, credit or rejection; a credit carries the DAA
    score of a job in the connection's ring, under the submitted job id or an
    earlier one, whose header with exactly the nonce the miner submitted
    (behind the connection's extranonce when it is short) beats the
    connection's difficulty target or was sent to the node; and every block
    sent is such a header meeting the network target. *)
Theorem handle_submit_safe b b' : b' = (handle_submit cid event b).2 →
  ∃ new, br_trace b' = br_trace b ++ new ∧ submission_trace (br_ctx b) new ∧
    (verdicts new ≤ 1)%nat ∧ Forall (credit_backed (br_ctx b) new) new.
Proof.
  intros ->. destruct (handle_submit_shows b) as (new & ? & Hn). destruct (submission_facts _ _ Hn). by exists new.
Qed.

(** ** The walk over previous jobs ends *)

Lemma last_slot job_id cur : 1 ≤ cur ≤ job_id → job_id - cur < 300 →
  cur mod 300 = (job_id mod 300 + 1) mod 300 → job_id - cur = 299.
Proof.
  intros Hc Hd E. rewrite Zplus_mod_idemp_l in E.
  pose proof (Z.div_mod cur 300). pose proof (Z.div_mod (job_id + 1) 300).
  pose proof (Z.mod_pos_bound cur 300). nia.
Qed.

Lemma previous_job_steps job_id cur s v : max_jobs s = 300 → 1 ≤ cur ≤ job_id → job_id - cur < 300 →
  previous_job job_id cur s = v →
  v = Ret (Break true) ∨ ∃ prev, v = Ret (Continue (cur - 1) prev) ∧ 1 ≤ cur - 1 ∧ job_id - (cur - 1) < 300.
Proof.
  intros Hm Hc Hd <-. unfold previous_job. rewrite Hm. case_bool; [by left|]. apply orb_false_iff in E as [E1 E2].
  apply Z.eqb_neq in E1, E2. rewrite u64_sub_le by lia. simpl. destruct (get_job _ s) as [j|]; [right|by left].
  exists j. split; [done|]. split; [lia|]. destruct (decide (job_id - cur = 299)) as [E|]; [|lia].
  exfalso. apply E2. replace cur with (job_id + 1 + (-1) * 300) by lia. rewrite Z.mod_add by lia. by rewrite Zplus_mod_idemp_l.
Qed.

Lemma bind_returns {A B} (m : H A) (k : A → H B) b a b' : m b = (Done (Ok a), b') → (m ≫= k) b = k a b'.
Proof. intros E. unfold mbind, H_bind. by rewrite E. Qed.

Lemma try_job_steps key job_id n cur current b : max_jobs (state (br_ctx b)) = 300 → 1 ≤ cur ≤ job_id → job_id - cur < 300 →
  (∃ invalid, try_job cid event key job_id n cur current b = (Done (Ok (Break invalid)), b)) ∨
  (∃ prev, try_job cid event key job_id n cur current b = (Done (Ok (Continue (cur - 1) prev)), b) ∧
     1 ≤ cur - 1 ∧ job_id - (cur - 1) < 300) ∨
  try_job cid event key job_id n cur current =
    (r ← found_block cid event key (with_nonce n (block_header current));
     mret (match r with Some _ => Break false | None => Answered end)).
Proof.
  intros Hm Hc Hd. unfold try_job. case_bool; [by right; right|].
  rewrite (bind_returns _ _ b (br_ctx b) b) by done. case_bool; [|left; by exists false].
  destruct (previous_job_steps job_id cur (state (br_ctx b)) _ Hm Hc Hd eq_refl) as [->|(prev & -> & ? & ?)].
  - left. by exists true.
  - right. left. by exists prev.
Qed.

Lemma pow_loop_ends key job_id n b fuel : max_jobs (state (br_ctx b)) = 300 → ∀ cur current,
  1 ≤ cur ≤ job_id → job_id - cur < 300 → 300 ≤ Z.of_nat fuel + (job_id - cur) →
  (∃ invalid j, pow_loop cid fuel event key job_id n cur current b = (Done (Ok (Some (invalid, j))), b)) ∨
  (∃ j, pow_loop cid fuel event key job_id n cur current b =
     (r ← found_block cid event key (with_nonce n (block_header j));
      mret (match r with Some _ => Some (false, j) | None => None end)) b).
Proof.
  intros Hm. induction fuel as [|fuel IH]; intros cur current Hc Hd Hf; [lia|]. cbn [pow_loop].
  destruct (try_job_steps key job_id n cur current b Hm Hc Hd) as [[invalid E]|[(prev & E & ? & ?)| ->]].
  - rewrite (bind_returns _ _ _ _ _ E). eauto.
  - rewrite (bind_returns _ _ _ _ _ E). apply IH; lia.
  - right. exists current. unfold mbind, H_bind, mret, H_ret. by destruct (found_block _ _ _ _ b) as [[[[[]|]|]|] ?].
Qed.

(** C23: On a job id of at least one, the loop ends within one pass per slot,
    without underflow: either it found the verdict from the jobs alone and
    changed nothing, or it ended in the block path for one of them. *)
Theorem pow_loop_terminates key job_id n current b :
  max_jobs (state (br_ctx b)) = MAX_JOBS → 1 ≤ job_id →
  (∃ invalid j, pow_loop cid (Z.to_nat MAX_JOBS) event key job_id n job_id current b = (Done (Ok (Some (invalid, j))), b)) ∨
  (∃ j, pow_loop cid (Z.to_nat MAX_JOBS) event key job_id n job_id current b =
     (r ← found_block cid event key (with_nonce n (block_header j));
      mret (match r with Some _ => Some (false, j) | None => None end)) b).
Proof. intros Hm Hid. apply pow_loop_ends; unfold MAX_JOBS in *; lia. Qed.

(** On job id zero the workaround underflows: once the ring has wrapped, a
    miner that submits job id 0 with any nonce that meets neither target
    aborts the process. *)
Theorem job_id_zero_aborts key n current b fuel :
  max_jobs (state (br_ctx b)) = MAX_JOBS →
  calculate_target (bits (block_header current)) < check_pow (with_nonce n (block_header current)) n →
  pool_target (state (br_ctx b)) ≤ check_pow (with_nonce n (block_header current)) n →
  pow_loop cid fuel event key 0 n 0 current b = (Crashed, b).
Proof.
  intros Hm Hn Hp. assert (try_job cid event key 0 n 0 current b = (Crashed, b)) as E.
  { unfold try_job. rewrite (proj2 (Z.leb_gt _ _)) by done. rewrite (bind_returns _ _ b (br_ctx b) b) by done.
    rewrite (proj2 (Z.leb_le _ _)) by done. unfold previous_job. by rewrite Hm. }
  destruct fuel; cbn [pow_loop]; unfold mbind at 1, H_bind at 1; by rewrite E.
Qed.
End submission.
