(* ===== verification/ShareDemo.v ===== *)
(** * Share submissions on concrete connections

    A proof-of-work whose value is the nonce, rings of jobs built with
    [add_job], the witnesses of the theorems on submissions, and two runs that
    show defects: one piece of work credited four times, and a share credited
    at the difficulty of another wallet's worker. *)

From Stdlib Require Import Ascii.
From S2P Require Import Prelude Float64 Mass Db Effects DupGuard Domain Events Bytes Hasher MiningState Stratum KaspaApi ShareHandler ShareProps.
Import HexModel.
Local Open Scope Z_scope.

Module Pool.
(** The header hash is not hexadecimal: no block events in these runs. *)
#[export] Instance pow : KaspaPow := {| check_pow h n := n; header_hash h := "" |}.

Definition header (daa : Z) : Header :=
  {| version := 1; parents_by_level := []; hash_merkle_root := []; accepted_id_merkle_root := []; utxo_commitment := [];
     timestamp := 0; bits := 0; nonce := 0; daa_score := daa; blue_score := 0; blue_work := 0; pruning_point := [] |}.
Definition job (i : nat) : Job := {| block_header := header (1000 + Z.of_nat i); pre_pow_hash := [] |}.

(** [n] jobs issued, at a difficulty and target. *)
Definition ring (n : nat) (diff : f64) (target : Z) : MiningState :=
  match issue (map job (seq 1 n)) (MiningState_new 0) with
  | Ret s => set_stratum_diff {| hash_value := f64_of_Z 4; diff_value := diff; target_value := target |} s
  | Panic => MiningState_new 0
  end.

Definition client (wallet : string) (st : MiningState) : StratumContext :=
  set_worker_name "rig" (set_wallet_addr wallet (StratumContext_new "10.0.0.1" 40000 5555 1 st)).

(** Every await is answered at once and nobody interferes. *)
Definition calm : Await := {| aw_delivered := true; aw_block := Ok (RejectedByNode BlockInvalid); aw_meanwhile := id |}.

Definition bridge (c : StratumContext) (h : ShareHandler) : Bridge :=
  {| br_ctx := c; br_handler := h; br_trace := []; br_awaits := replicate 10 calm; br_clock := λ n, Z.of_nat n; br_ticks := 0 |}.

Definition submit (job_id nonce : string) : JsonRpcEvent :=
  {| ev_id := Some (VNumber (PosInt 1)); jsonrpc := "2.0"; method := "mining.submit";
     params := [VString "kaspa:alice000000.rig"; VString job_id; VString nonce] |}.

Definition alice : string := "kaspa:alice000000".
Definition mallory : string := "kaspa:mallory000".
Definition start : Bridge := bridge (client alice (ring 7 (f64_of_Z 1) 1000)) (with_event_bus (ShareHandler_new 0)).

Fixpoint submit_all (cid : Z) (es : list JsonRpcEvent) (b : Bridge) : Bridge :=
  match es with [] => b | e :: es => submit_all (cid + 1) es (handle_submit cid e b).2 end.

(** The job and the nonce a submission stands for. *)
Definition work (e : JsonRpcEvent) : option (Job * Z) :=
  '(_, j, _, n) ← returned (read_submission 0 e start).1; Some (j, n).

Definition credited (b : Bridge) : list (string * f64) :=
  omap (λ a, match a with AEvent (ShareCredited w _ d _ _ _) => Some (w, d) | _ => None end) (br_trace b).

Definition replays : list JsonRpcEvent := [submit "7" "ab"; submit "307" "ab"; submit "7" "AB"; submit "7" "00ab"].
End Pool.
Import Pool.

Lemma handle_submit_safe_witness :
  ∃ new, br_trace (handle_submit 5 (submit "7" "ab") start).2 = br_trace start ++ new ∧ (verdicts new ≤ 1)%nat ∧
    length new = 2%nat.
Proof.
  destruct (handle_submit_safe 5 (submit "7" "ab") start _ eq_refl) as (new & Hn & _ & Hv & _). exists new.
  split_and!; [done..|]. apply (f_equal length) in Hn. rewrite length_app in Hn.
  assert (length (br_trace (handle_submit 5 (submit "7" "ab") start).2) = 2%nat) as E by (vm_compute; reflexivity).
  rewrite E in Hn. simpl in Hn. lia.
Defined.

(** A nonce that meets no target walks from job 7 down to job 1. *)
Lemma pow_loop_terminates_witness :
  ∃ invalid j, pow_loop 5 (Z.to_nat MAX_JOBS) (submit "7" "ffff") "k" 7 65535 7 (job 7) start
    = (Done (Ok (Some (invalid, j))), start).
Proof.
  destruct (pow_loop_terminates 5 (submit "7" "ffff") "k" 7 65535 (job 7) start eq_refl ltac:(lia)) as [H|[j H]]; [exact H|].
  exfalso. apply (f_equal (λ r, br_trace r.2)) in H. vm_compute in H. discriminate.
Defined.

(** Three hundred jobs fill slot 0; job id 0 and a bad nonce then end the process. *)
Lemma job_id_zero_aborts_witness :
  let b := bridge (client alice (ring 300 (f64_of_Z 1) 1000)) (with_event_bus (ShareHandler_new 0)) in
  pow_loop 5 300 (submit "0" "ffff") "k" 0 65535 0 (job 300) b = (Crashed, b) ∧
  (handle_submit 5 (submit "0" "ffff") b).1 = Crashed ∧ br_awaits (handle_submit 5 (submit "0" "ffff") b).2 ≠ [].
Proof.
  intros b. split; [|split; [vm_compute; reflexivity|vm_compute; discriminate]].
  apply (job_id_zero_aborts 5 (submit "0" "ffff") "k" 65535 (job 300) b 300); vm_compute; [reflexivity|reflexivity|discriminate].
Defined.

(** One piece of work, one job and one nonce, is credited four times: the
    duplicate guard compares the submitted job id and the nonce's text, but
    the job is looked up modulo 300 and the nonce read as a number. *)
Theorem replayed_work_credited :
  Forall (λ e, work e = Some (job 7, 171)) replays ∧
  credited (submit_all 1 replays start) = replicate 4 (alice, f64_of_Z 1).
Proof. split; [repeat constructor; vm_compute; reflexivity|vm_compute; reflexivity]. Qed.

(** Statistics are kept per worker name, whatever the wallet.  Alice's rig
    connects at difficulty 65536; Mallory calls his worker the same, mines at
    difficulty 1, and each of his shares is credited at 65536. *)
Theorem credit_at_another_wallets_difficulty :
  let connected := (get_create_stats (bridge (client alice (ring 1 (f64_of_Z 65536) 1)) (with_event_bus (ShareHandler_new 0)))).2 in
  let c := client mallory (ring 7 (f64_of_Z 1) 1000) in
  diff_value <$> stratum_diff (state c) = Some (f64_of_Z 1) ∧
  credited (submit_all 1 [submit "7" "ab"] (bridge c (br_handler connected))) = [(mallory, f64_of_Z 65536)].
Proof. vm_compute. done. Qed.
