(* ===== verification/Vardiff.v ===== *)
(** * Variable difficulty (bridge/src/share_handler.rs)

    The controller that moves a worker's difficulty towards a target share
    rate, the operations that read and reset it, and the background sweeps
    over the statistics map.  [f64::log2] is a parameter: its result is not
    specified to the last bit.  [2_f64.powi(e)] is the power of two itself,
    zero or infinity out of range. *)

From Stdlib Require Import SpecFloat.
From S2P Require Import Prelude Float64 Mass Db Effects DupGuard Domain Events Bytes Hasher MiningState Stratum ShareHandler.
Local Open Scope Z_scope.

Definition f64_sub : f64 → f64 → f64 := SFsub 53 1024.
Definition f64_sqrt : f64 → f64 := SFsqrt 53 1024.
Definition f64_abs : f64 → f64 := SFabs.
Definition f64_one : f64 := f64_of_Z 1.
(** [f64::max]: the other operand when one is NaN. *)
Definition f64_max (x y : f64) : f64 :=
  match x, y with
  | S754_nan, _ => y
  | _, S754_nan => x
  | _, _ => if f64_lt x y then y else x
  end.
(** [f64::clamp] with [lo <= hi]. *)
Definition f64_clamp (lo hi x : f64) : f64 :=
  let x := if f64_lt x lo then lo else x in if f64_lt hi x then hi else x.
(** A decimal literal [m / 10^k], correctly rounded. *)
Definition f64_decimal (m k : Z) : f64 := f64_div (f64_of_Z m) (f64_of_Z (10 ^ k)).
Definition f64_pow2 (e : Z) : f64 := binary_normalize 53 1024 1 e false.
Definition f64_EPSILON : f64 := f64_pow2 (-52).

Definition VARDIFF_MIN_ELAPSED_SECS : f64 := f64_of_Z 30.
Definition VARDIFF_MAX_ELAPSED_SECS_NO_SHARES : f64 := f64_of_Z 90.
Definition VARDIFF_MIN_SHARES : f64 := f64_of_Z 3.
Definition VARDIFF_LOWER_RATIO : f64 := f64_decimal 75 2.
Definition VARDIFF_UPPER_RATIO : f64 := f64_decimal 125 2.
Definition VARDIFF_MAX_STEP_UP : f64 := f64_of_Z 2.
Definition VARDIFF_MAX_STEP_DOWN : f64 := f64_decimal 5 1.

Class Log2 := { f64_log2 : f64 → f64 }.

Section vardiff.
Context `{!Log2}.

Definition vardiff_pow2_clamp_towards (current next : f64) : f64 :=
  if negb (f64_is_finite next) || f64_le next f64_zero then f64_one
  else
    let exp := if f64_le current next then f64_ceil (f64_log2 next) else f64_floor (f64_log2 next) in
    let clamped := f64_pow2 (f64_as_int (- i32_max - 1) i32_max exp) in
    if f64_lt clamped f64_one then f64_one else clamped.

(** [next], at least one, rounded to a power of two when asked. *)
Definition vardiff_bounded (current next : f64) (clamp_pow2 : bool) : f64 :=
  let next := if f64_lt next f64_one then f64_one else next in
  if clamp_pow2 then vardiff_pow2_clamp_towards current next else next.

Definition vardiff_compute_next_diff (current shares elapsed_secs expected_spm : f64) (clamp_pow2 : bool) : option f64 :=
  if negb (f64_is_finite current) || f64_le current f64_zero then None
  else if negb (f64_is_finite elapsed_secs) || f64_le elapsed_secs f64_zero then None
  else if f64_eq shares f64_zero && f64_le VARDIFF_MAX_ELAPSED_SECS_NO_SHARES elapsed_secs then
    let next := vardiff_bounded current (f64_mul current VARDIFF_MAX_STEP_DOWN) clamp_pow2 in
    if f64_lt f64_EPSILON (f64_abs (f64_sub next current)) then Some next else None
  else if f64_lt elapsed_secs VARDIFF_MIN_ELAPSED_SECS || f64_lt shares VARDIFF_MIN_SHARES then None
  else
    let observed_spm := f64_mul (f64_div shares elapsed_secs) (f64_of_Z 60) in
    let ratio := f64_div observed_spm (f64_max expected_spm f64_one) in
    if negb (f64_is_finite ratio) || f64_le ratio f64_zero then None
    else if f64_lt VARDIFF_LOWER_RATIO ratio && f64_lt ratio VARDIFF_UPPER_RATIO then None
    else
      let step := f64_clamp VARDIFF_MAX_STEP_DOWN VARDIFF_MAX_STEP_UP (f64_sqrt ratio) in
      let next := vardiff_bounded current (f64_mul current step) clamp_pow2 in
      let rel_change := f64_div (f64_abs (f64_sub next current)) (f64_max current f64_one) in
      if f64_lt rel_change (f64_decimal 1 1) then None
      else if f64_lt f64_EPSILON (f64_abs (f64_sub next current)) then Some next else None.

(** One worker on one tick of the thread; [secs] is [Duration::as_secs_f64]. *)
Definition vardiff_worker (secs : Z → f64) (expected_spm : f64) (clamp : bool) (now : Z) (v : WorkStats) : WorkStats :=
  match var_diff_start_time v with
  | None => v
  | Some start =>
      let elapsed := f64_max (secs (duration_since now start)) f64_zero in
      match vardiff_compute_next_diff (min_diff v) (f64_of_Z (var_diff_shares_found v)) elapsed expected_spm clamp with
      | None => v
      | Some next => restart_vardiff next now v
      end
  end.

Definition vardiff_tick (secs : Z → f64) (expected_share_rate : Z) (clamp : bool) (now : Z) (h : ShareHandler) : ShareHandler :=
  let expected_spm := f64_of_Z (Z.max expected_share_rate 1) in
  set_stats (stats h)
    (imap (λ i v, if existsb (Nat.eqb i) ((map_to_list (stats h)).*2) then vardiff_worker secs expected_spm clamp now v else v)
       (cells h)) h.
End vardiff.

(** ** Reading and resetting *)

Definition get_stats_if_exists (c : StratumContext) (h : ShareHandler) : option nat * StratumContext :=
  let '(name, c) := effective_worker_name c in (stats h !! name, c).

(** The previous value, and the new state. *)
Definition set_client_vardiff (diff : f64) (now : Z) (c : StratumContext) (h : ShareHandler)
    : f64 * StratumContext * ShareHandler :=
  let '(i, c) := get_stats_if_exists c h in
  match i ≫= (λ i, s ← cells h !! i; Some (i, s)) with
  | None => (current_stratum_diff c, c, h)
  | Some (i, s) => (min_diff s, c, set_stats (stats h) (<[i := restart_vardiff diff now s]> (cells h)) h)
  end.

Definition get_client_vardiff (c : StratumContext) (h : ShareHandler) : f64 * StratumContext :=
  let '(i, c) := get_stats_if_exists c h in
  match i ≫= (cells h !!.) with
  | None => (current_stratum_diff c, c)
  | Some s => (min_diff s, c)
  end.

Definition start_client_vardiff (now : Z) (c : StratumContext) (h : ShareHandler) : StratumContext * ShareHandler :=
  let '(i, c) := get_stats_if_exists c h in
  (c, match i ≫= (λ i, s ← cells h !! i; Some (i, s)) with
      | None => h
      | Some (i, s) =>
          match var_diff_start_time s with
          | Some _ => h
          | None => set_stats (stats h)
              (<[i := ws_with (blocks_found s) (shares_found s) (shares_diff s) (stale_shares s) (invalid_shares s)
                        (last_share s) (Some now) 0 (var_diff_window s) (min_diff s) s]> (cells h)) h
          end
      end).

(** The pruning sweep keeps a worker that is recent and, after three minutes, has shares. *)
Definition keep_stats (now : Z) (v : WorkStats) : bool :=
  ((0 <? shares_found v) || (duration_since now (start_time v) <? 180 * 1000000000))
  && (duration_since now (last_share v) <? 600 * 1000000000).

Definition prune_stats (now : Z) (h : ShareHandler) : ShareHandler :=
  set_stats (filter (λ kv, keep_stats now (default (WorkStats_new "" 0 0) (cells h !! kv.2)) = true) (stats h)) (cells h) h.

(** The task that waits for a block to turn blue: at most 30 polls, each
    answered yes, no, or with an error. *)
Definition BLOCK_CONFIRM_MAX_ATTEMPTS : nat := 30.
Fixpoint confirm_polls (attempts : nat) (answers : list (option bool)) : bool :=
  match attempts, answers with
  | S attempts, Some true :: _ => true
  | S attempts, _ :: answers => confirm_polls attempts answers
  | _, _ => false
  end.
Definition confirm_block (i : nat) (answers : list (option bool)) (h : ShareHandler) : exec ShareHandler :=
  if confirm_polls BLOCK_CONFIRM_MAX_ATTEMPTS answers then
    match cells h !! i with
    | None => Ret h
    | Some s =>
        s' ← count_block s;
        o ← count_block (overall h);
        Ret (set_overall o (set_stats (stats h) (<[i := s']> (cells h)) h))
    end
  else Ret h.

Definition average_worker_spm (sum_spm : f64) (worker_count : Z) : f64 :=
  if worker_count =? 0 then f64_zero else f64_div sum_spm (f64_of_Z worker_count).

(** ** Properties *)

Lemma vardiff_bounded_ge1 `{!Log2} current next clamp : f64_lt (vardiff_bounded current next clamp) f64_one = false.
Proof.
  unfold vardiff_bounded. destruct clamp.
  - unfold vardiff_pow2_clamp_towards. case_bool; [reflexivity|]. case_bool; [reflexivity|done].
  - case_bool; [reflexivity|done].
Qed.

(** A difficulty change is proposed only on evidence (ninety seconds of
    silence, or three shares over thirty seconds whose rate is off by a
    quarter), is a real change, and never goes below one. *)
Theorem vardiff_change_justified `{!Log2} current shares elapsed spm clamp next :
  vardiff_compute_next_diff current shares elapsed spm clamp = Some next →
  f64_lt next f64_one = false ∧
  f64_lt f64_EPSILON (f64_abs (f64_sub next current)) = true ∧
  (f64_eq shares f64_zero = true ∧ f64_le VARDIFF_MAX_ELAPSED_SECS_NO_SHARES elapsed = true ∨
   f64_lt elapsed VARDIFF_MIN_ELAPSED_SECS = false ∧ f64_lt shares VARDIFF_MIN_SHARES = false ∧
   let ratio := f64_div (f64_mul (f64_div shares elapsed) (f64_of_Z 60)) (f64_max spm f64_one) in
   f64_lt VARDIFF_LOWER_RATIO ratio = false ∨ f64_lt ratio VARDIFF_UPPER_RATIO = false).
Proof.
  unfold vardiff_compute_next_diff. intros H. do 2 (case_bool_in H; [done|]). case_bool_in H.
  - case_bool_in H; [|done]. injection H as <-. apply andb_true_iff in E1 as [? ?].
    split_and!; [apply vardiff_bounded_ge1|done|by left].
  - case_bool_in H; [done|]. case_bool_in H; [done|]. case_bool_in H; [done|]. case_bool_in H; [done|].
    case_bool_in H; [|done]. injection H as <-. apply orb_false_iff in E2 as [? ?]. apply andb_false_iff in E4.
    split_and!; [apply vardiff_bounded_ge1|done|right; by split_and!].
Qed.

Module VardiffModel.
#[export] Instance log2 : Log2 := {| f64_log2 x := x |}.
End VardiffModel.
Import VardiffModel.

(** Ten shares in thirty seconds against a target of five a minute: doubled. *)
Lemma vardiff_change_justified_witness :
  vardiff_compute_next_diff (f64_of_Z 1024) (f64_of_Z 10) (f64_of_Z 30) (f64_of_Z 5) false = Some (f64_of_Z 2048) ∧
  f64_lt (f64_of_Z 2048) f64_one = false.
Proof.
  split; [vm_compute; reflexivity|].
  apply (vardiff_change_justified (f64_of_Z 1024) (f64_of_Z 10) (f64_of_Z 30) (f64_of_Z 5) false). vm_compute. reflexivity.
Defined.
