(* ===== verification/AntiAbuse.v ===== *)
(** * The per-address connection guard (bridge/src/anti_abuse.rs)

    The guard's map under its mutex: each operation is one step.  A
    [ConnTicket] releases its slot when dropped, so the system state pairs the
    map with the tickets that are alive.  [raw.parse::<f64>()] is a parameter;
    durations are nanoseconds and [secs] is [Duration::as_secs_f64]. *)

From S2P Require Import Prelude Float64 Mass Db Effects DupGuard Domain Events Bytes Hasher MiningState Stratum ShareHandler Vardiff.
Local Open Scope Z_scope.

(** ** Configuration *)

Record AntiAbuseConfig := {
  max_conn_per_ip : Z; max_tracked_ips : Z; frame_rate_per_sec : f64; frame_burst : f64 }.

Definition production : AntiAbuseConfig :=
  {| max_conn_per_ip := 256; max_tracked_ips := 65536; frame_rate_per_sec := f64_of_Z 100; frame_burst := f64_of_Z 200 |}.

Inductive AntiAbuseConfigError :=
| ZeroConnCap | ZeroIpCap | InvalidFrameRate (value : f64) | InvalidFrameBurst (value : f64)
| InvalidEnvValue (key value : string).

Definition bad_rate (x : f64) : bool := negb (f64_is_finite x) || f64_le x f64_zero.

Definition AntiAbuseConfig_new (conn tracked : Z) (rate burst : f64) : result AntiAbuseConfigError AntiAbuseConfig :=
  if conn =? 0 then Err ZeroConnCap
  else if tracked =? 0 then Err ZeroIpCap
  else if bad_rate rate then Err (InvalidFrameRate rate)
  else if bad_rate burst then Err (InvalidFrameBurst burst)
  else Ok {| max_conn_per_ip := conn; max_tracked_ips := tracked; frame_rate_per_sec := rate; frame_burst := burst |}.

Class FloatParser := { parse_f64 : string → option f64 }.

(** [raw.parse::<uN>()]. *)
Definition parse_uint (max : Z) (raw : string) : option Z :=
  v ← u64_from_str_radix 10 raw; if v <=? max then Some v else None.

Definition parse_env {A} (parse : string → option A) (lookup : string → option string) (key : string) (dflt : A)
    : result AntiAbuseConfigError A :=
  match lookup key with
  | Some raw => match parse raw with Some v => Ok v | None => Err (InvalidEnvValue key raw) end
  | None => Ok dflt
  end.
Definition parse_env_u32 := parse_env (parse_uint u32_max).
Definition parse_env_usize := parse_env (parse_uint u64_max).
Definition parse_env_f64 `{!FloatParser} := parse_env parse_f64.

Definition AntiAbuseConfig_from_lookup `{!FloatParser} (lookup : string → option string)
    : result AntiAbuseConfigError AntiAbuseConfig :=
  conn ← parse_env_u32 lookup "KATPOOL_ANTI_ABUSE_MAX_CONN_PER_IP" (max_conn_per_ip production);
  tracked ← parse_env_usize lookup "KATPOOL_ANTI_ABUSE_MAX_TRACKED_IPS" (max_tracked_ips production);
  rate ← parse_env_f64 lookup "KATPOOL_ANTI_ABUSE_FRAME_RATE_PER_SEC" (frame_rate_per_sec production);
  burst ← parse_env_f64 lookup "KATPOOL_ANTI_ABUSE_FRAME_BURST" (frame_burst production);
  AntiAbuseConfig_new conn tracked rate burst.

(** ** The guard *)

Record IpEntry := { conn_count : Z; tokens : f64; last_refill : Z }.

Definition IpEntry_new (burst : f64) (now : Z) : IpEntry := {| conn_count := 0; tokens := burst; last_refill := now |}.

Definition try_consume (secs : Z → f64) (now : Z) (rate burst : f64) (e : IpEntry) : bool * IpEntry :=
  let refill := f64_mul (secs (duration_since now (last_refill e))) rate in
  let t := f64_min (f64_add (tokens e) refill) burst in
  if f64_le f64_one t
  then (true, {| conn_count := conn_count e; tokens := f64_sub t f64_one; last_refill := now |})
  else (false, {| conn_count := conn_count e; tokens := t; last_refill := now |}).

Inductive AntiAbuseRejection := ConnCapPerIp (active cap : Z) | IpCapReached.

Section guard.
Context {IpAddr : Type} `{!EqDecision IpAddr, !Countable IpAddr}.
Variable config : AntiAbuseConfig.
Variable secs : Z → f64.
Implicit Types (ip : IpAddr) (m : gmap IpAddr IpEntry).

Definition conn_count_of m ip : Z := from_option conn_count 0 (m !! ip).

Definition with_count (n : Z) (e : IpEntry) : IpEntry :=
  {| conn_count := n; tokens := tokens e; last_refill := last_refill e |}.

(** The map afterwards, also on a refusal: the entry may have been created. *)
Definition try_accept_connection ip (now : Z) m : result AntiAbuseRejection unit * gmap IpAddr IpEntry :=
  if negb (bool_decide (is_Some (m !! ip))) && (max_tracked_ips config <=? Z.of_nat (size m)) then (Err IpCapReached, m)
  else
    let e := default (IpEntry_new (frame_burst config) now) (m !! ip) in
    let m := <[ip := e]> m in
    if max_conn_per_ip config <=? conn_count e then (Err (ConnCapPerIp (conn_count e) (max_conn_per_ip config)), m)
    else (Ok tt, <[ip := with_count (conn_count e + 1) e]> m).

Definition try_consume_frame ip (now : Z) m : bool * gmap IpAddr IpEntry :=
  match m !! ip with
  | Some e => let '(ok, e) := try_consume secs now (frame_rate_per_sec config) (frame_burst config) e in (ok, <[ip := e]> m)
  | None => (false, m)
  end.

(** The drop of a ticket. *)
Definition release ip m : gmap IpAddr IpEntry :=
  match m !! ip with
  | None => m
  | Some e =>
      let n := Z.max 0 (conn_count e - 1) in
      if n =? 0 then delete ip m else <[ip := with_count n e]> m
  end.

(** ** The listener's use of it *)

Record Guarded := { ga_map : gmap IpAddr IpEntry; ga_tickets : list IpAddr }.

Inductive gstep : Guarded → Guarded → Prop :=
| g_accept ip now m m' ts : try_accept_connection ip now m = (Ok tt, m') →
    gstep {| ga_map := m; ga_tickets := ts |} {| ga_map := m'; ga_tickets := ip :: ts |}
| g_refuse ip now m m' ts r : try_accept_connection ip now m = (Err r, m') →
    gstep {| ga_map := m; ga_tickets := ts |} {| ga_map := m'; ga_tickets := ts |}
| g_frame ip now m m' ts ok : try_consume_frame ip now m = (ok, m') →
    gstep {| ga_map := m; ga_tickets := ts |} {| ga_map := m'; ga_tickets := ts |}
| g_drop ip m ts1 ts2 :
    gstep {| ga_map := m; ga_tickets := ts1 ++ ip :: ts2 |} {| ga_map := release ip m; ga_tickets := ts1 ++ ts2 |}.

(** Live tickets of an address. *)
Definition live (ts : list IpAddr) ip : Z := Z.of_nat (length (List.filter (λ x, bool_decide (x = ip)) ts)).

(** The map is exactly the count of live tickets, within both caps. *)
Definition guard_inv (g : Guarded) : Prop :=
  (∀ ip, conn_count_of (ga_map g) ip = live (ga_tickets g) ip) ∧
  (∀ ip e, ga_map g !! ip = Some e → 1 ≤ conn_count e ≤ max_conn_per_ip config) ∧
  Z.of_nat (size (ga_map g)) ≤ max_tracked_ips config.

Lemma live_nonneg ts ip : 0 ≤ live ts ip.
Proof. unfold live. lia. Qed.

Lemma live_cons x ts ip : live (x :: ts) ip = live ts ip + if bool_decide (x = ip) then 1 else 0.
Proof. unfold live. simpl. case_bool_decide; simpl; lia. Qed.

Lemma live_app ts1 ts2 ip : live (ts1 ++ ts2) ip = live ts1 ip + live ts2 ip.
Proof. unfold live. rewrite List.filter_app, length_app. lia. Qed.

Lemma count_insert m ip ip' e : conn_count_of (<[ip := e]> m) ip' = if bool_decide (ip = ip') then conn_count e else conn_count_of m ip'.
Proof. unfold conn_count_of. case_bool_decide; [subst; by rewrite lookup_insert_eq|by rewrite lookup_insert_ne]. Qed.

Hypothesis config_ok : 1 ≤ max_conn_per_ip config ∧ 1 ≤ max_tracked_ips config.

Lemma accept_inv ip now m m' ts r : guard_inv {| ga_map := m; ga_tickets := ts |} →
  try_accept_connection ip now m = (r, m') →
  guard_inv {| ga_map := m'; ga_tickets := match r with Ok _ => ip :: ts | Err _ => ts end |}.
Proof.
  intros (Hc & He & Hs) H. simpl in *. unfold try_accept_connection in H. case_bool_in H; [by simplify_eq|].
  destruct (m !! ip) as [e|] eqn:Em; simpl in *.
  - destruct (He _ _ Em). case_bool_in H; simplify_eq; simpl.
    + by rewrite insert_id.
    + apply Z.leb_gt in E0. rewrite insert_insert_eq. split_and!; simpl.
      * intros ip'. rewrite count_insert, live_cons, <- Hc. case_bool_decide; subst; simpl; [|lia].
        unfold conn_count_of. rewrite Em. done.
      * intros ip' e' [[<- <-]|[? ?]]%lookup_insert_Some; simpl; [lia|eauto].
      * by rewrite map_size_insert_Some.
  - apply Z.leb_gt in E.
    rewrite (proj2 (Z.leb_gt _ _)) in H by lia. simplify_eq. rewrite insert_insert_eq. split_and!; simpl.
    + intros ip'. rewrite count_insert, live_cons, <- Hc. case_bool_decide; subst; simpl; [|lia].
      unfold conn_count_of. rewrite Em. done.
    + intros ip' e' [[<- <-]|[? ?]]%lookup_insert_Some; simpl; [lia|eauto].
    + rewrite map_size_insert_None by done. lia.
Qed.

Lemma frame_inv ip now m m' ts ok : guard_inv {| ga_map := m; ga_tickets := ts |} →
  try_consume_frame ip now m = (ok, m') → guard_inv {| ga_map := m'; ga_tickets := ts |}.
Proof.
  intros (Hc & He & Hs) H. simpl in *. unfold try_consume_frame in H. destruct (m !! ip) as [e|] eqn:Em; [|by simplify_eq].
  destruct (try_consume _ _ _ _ e) as [ok' e'] eqn:Et. simplify_eq.
  assert (conn_count e' = conn_count e) as Hk by (unfold try_consume in Et; by case_bool_in Et; simplify_eq).
  split_and!; simpl.
  - intros ip'. rewrite count_insert, <- Hc. case_bool_decide; [|done]. subst. unfold conn_count_of. by rewrite Em.
  - intros ip' e'' [[<- <-]|[? ?]]%lookup_insert_Some; [rewrite Hk|]; eauto.
  - by rewrite map_size_insert_Some.
Qed.

Lemma drop_inv ip m ts1 ts2 : guard_inv {| ga_map := m; ga_tickets := ts1 ++ ip :: ts2 |} →
  guard_inv {| ga_map := release ip m; ga_tickets := ts1 ++ ts2 |}.
Proof.
  intros (Hc & He & Hs). simpl in *.
  assert (∀ ip', conn_count_of m ip' = live (ts1 ++ ts2) ip' + if bool_decide (ip = ip') then 1 else 0) as Hc'.
  { intros ip'. rewrite Hc, !live_app, live_cons. lia. }
  clear Hc. pose proof (Hc' ip) as Hip. rewrite bool_decide_eq_true_2 in Hip by done.
  unfold release. unfold conn_count_of in Hip. pose proof (live_nonneg (ts1 ++ ts2) ip).
  destruct (m !! ip) as [e|] eqn:Em; simpl in Hip; [|lia]. case_bool; [apply Z.eqb_eq in E|apply Z.eqb_neq in E]; split_and!; simpl.
  - intros ip'. specialize (Hc' ip'). unfold conn_count_of in *. case_bool_decide.
    + subst. rewrite lookup_delete_eq. simpl. lia.
    + rewrite lookup_delete_ne by done. lia.
  - intros ip' e' [? ?]%lookup_delete_Some. eauto.
  - rewrite map_size_delete_Some by (by eexists). lia.
  - intros ip'. rewrite count_insert. specialize (Hc' ip'). case_bool_decide; simpl; [subst; lia|lia].
  - intros ip' e' [[<- <-]|[? ?]]%lookup_insert_Some; [|eauto]. simpl. destruct (He _ _ Em). lia.
  - by rewrite map_size_insert_Some.
Qed.

Lemma gstep_inv g g' : guard_inv g → gstep g g' → guard_inv g'.
Proof.
  intros Hg Hs. destruct Hs as [ip now m m' ts H|ip now m m' ts r H|ip now m m' ts ok H|ip m ts1 ts2].
  - by apply (accept_inv ip now m m' ts (Ok tt)).
  - by apply (accept_inv ip now m m' ts (Err r)).
  - by eapply frame_inv.
  - by apply drop_inv.
Qed.

Lemma reachable_counts g : rtc gstep {| ga_map := ∅; ga_tickets := [] |} g →
  (∀ ip, conn_count_of (ga_map g) ip = live (ga_tickets g) ip ∧ live (ga_tickets g) ip ≤ max_conn_per_ip config) ∧
  (∀ ip, is_Some (ga_map g !! ip) ↔ ip ∈ ga_tickets g) ∧
  Z.of_nat (size (ga_map g)) ≤ max_tracked_ips config.
Proof.
  intros Hr. assert (guard_inv g) as (Hc & He & Hs).
  { remember {| ga_map := ∅; ga_tickets := [] |} as g0 eqn:E0.
    assert (guard_inv g0) as H0 by (subst; split_and!; simpl; [done|intros ??; by rewrite lookup_empty|rewrite map_size_empty; lia]).
    clear E0. induction Hr; eauto using gstep_inv. }
  assert (Hin : ∀ ip, ip ∈ ga_tickets g ↔ 1 ≤ live (ga_tickets g) ip).
  { intros ip. unfold live. split.
    - intros (l1 & l2 & ->)%list_elem_of_split. rewrite List.filter_app, length_app. simpl. rewrite bool_decide_eq_true_2 by done.
      simpl. lia.
    - intros H. destruct (List.filter _ _) as [|x l] eqn:Ef; [simpl in H; lia|].
      assert (x ∈ List.filter (λ x, bool_decide (x = ip)) (ga_tickets g)) as Hx by (rewrite Ef; by left).
      apply elem_of_retain in Hx as [? ->%bool_decide_eq_true]. done. }
  split_and!; [|intros ip; rewrite Hin, <- Hc; unfold conn_count_of|done].
  - intros ip. split; [done|]. rewrite <- Hc. unfold conn_count_of. destruct (ga_map g !! ip) eqn:Em; simpl; [by eapply He|lia].
  - destruct (ga_map g !! ip) as [e|] eqn:Em; simpl; [|split; [by intros [? ?]|lia]].
    destruct (He _ _ Em). split; [lia|by eexists].
Qed.

(** At any point of any interleaving of accepts, frames and disconnects, the
    guard's count for an address is the number of its live tickets, at most
    the cap; an address is tracked exactly while it has one; the map stays
    within its size limit; and a new connection is refused exactly when its
    address is at the cap, or is new while the map is full. *)
Theorem guard_counts_connections g : rtc gstep {| ga_map := ∅; ga_tickets := [] |} g →
  (∀ ip, conn_count_of (ga_map g) ip = live (ga_tickets g) ip ∧ live (ga_tickets g) ip ≤ max_conn_per_ip config) ∧
  (∀ ip, is_Some (ga_map g !! ip) ↔ ip ∈ ga_tickets g) ∧
  Z.of_nat (size (ga_map g)) ≤ max_tracked_ips config ∧
  (∀ ip now, (try_accept_connection ip now (ga_map g)).1 = Ok tt ↔
     live (ga_tickets g) ip < max_conn_per_ip config ∧
     (ip ∈ ga_tickets g ∨ Z.of_nat (size (ga_map g)) < max_tracked_ips config)).
Proof.
  intros Hr. destruct (reachable_counts g Hr) as (Hc & Hin & Hs). split_and!; [done..|]. intros ip now.
  destruct (Hc ip) as [Hip Hcap]. rewrite <- Hin. unfold try_accept_connection, conn_count_of in *.
  destruct (ga_map g !! ip) as [e|] eqn:Em; simpl in *.
  - rewrite <- Hip. case_bool; bool_hyps; simpl; split; try done; [lia|]. intros _. split; [lia|]. by left; eexists.
  - rewrite <- Hip. case_bool; [apply Z.leb_le in E|apply Z.leb_gt in E]; simpl.
    + split; [done|]. intros [_ [[? ?]|?]]; [done|lia].
    + rewrite (proj2 (Z.leb_gt _ _)) by lia. simpl. split; [|done]. intros _. split; [lia|by right].
Qed.
End guard.

(** Two connections from one address, one of them closed again. *)
Lemma guard_counts_connections_witness :
  ∃ g : Guarded (IpAddr := Z), rtc (gstep production f64_of_Z) {| ga_map := ∅; ga_tickets := [] |} g ∧
    conn_count_of (ga_map g) 7 = live (ga_tickets g) 7 ∧ live (ga_tickets g) 7 = 1.
Proof.
  set (m1 := (try_accept_connection production 7 0 (∅ : gmap Z IpEntry)).2).
  set (m2 := (try_accept_connection production 7 5 m1).2).
  exists {| ga_map := release 7 m2; ga_tickets := [7] |}.
  assert (rtc (gstep production f64_of_Z) {| ga_map := ∅; ga_tickets := [] |} {| ga_map := release 7 m2; ga_tickets := [7] |}) as Hr.
  { eapply rtc_l; [apply (g_accept _ _ 7 0 _ m1); vm_compute; reflexivity|].
    eapply rtc_l; [apply (g_accept _ _ 7 5 _ m2); vm_compute; reflexivity|].
    apply rtc_once. apply (g_drop _ _ 7 m2 [] [7]). }
  split_and!; [exact Hr| |reflexivity].
  apply (guard_counts_connections production f64_of_Z); [split; vm_compute; discriminate|exact Hr].
Defined.

(** ** Configuration errors *)

Definition config_valid (c : AntiAbuseConfig) : Prop :=
  max_conn_per_ip c ≠ 0 ∧ max_tracked_ips c ≠ 0 ∧ bad_rate (frame_rate_per_sec c) = false ∧ bad_rate (frame_burst c) = false.

Lemma config_new_spec conn tracked rate burst :
  match AntiAbuseConfig_new conn tracked rate burst with
  | Ok c => c = {| max_conn_per_ip := conn; max_tracked_ips := tracked; frame_rate_per_sec := rate; frame_burst := burst |} ∧
      config_valid c
  | Err ZeroConnCap => conn = 0
  | Err ZeroIpCap => tracked = 0
  | Err (InvalidFrameRate r) => r = rate ∧ bad_rate rate = true
  | Err (InvalidFrameBurst r) => r = burst ∧ bad_rate burst = true
  | Err (InvalidEnvValue _ _) => False
  end.
Proof.
  unfold AntiAbuseConfig_new. destruct (Z.eqb_spec conn 0), (Z.eqb_spec tracked 0); try done.
  destruct (bad_rate rate) eqn:?, (bad_rate burst) eqn:?; try done.
Qed.

(** [v] is the value of [key]: its default when unset, and never an unparsable text. *)
Definition env_value {A} (parse : string → option A) (lookup : string → option string) (key : string) (dflt v : A) : Prop :=
  lookup key = None ∧ v = dflt ∨ ∃ raw, lookup key = Some raw ∧ parse raw = Some v.

Lemma parse_env_spec {A} (parse : string → option A) lookup key dflt :
  match parse_env parse lookup key dflt with
  | Ok v => env_value parse lookup key dflt v
  | Err (InvalidEnvValue k raw) => k = key ∧ lookup key = Some raw ∧ parse raw = None
  | Err _ => False
  end.
Proof.
  unfold parse_env, env_value. destruct (lookup key) as [raw|]; [|by left]. destruct (parse raw) eqn:?; [|done]. right. eauto.
Qed.

(** Reading the configuration from the environment either fails, naming the
    variable that is set to a text that does not parse or the field that is
    out of range, or yields a valid configuration in which every field is the
    parsed value of its variable or the production default. *)
Theorem config_from_lookup_spec `{!FloatParser} lookup :
  match AntiAbuseConfig_from_lookup lookup with
  | Ok c => config_valid c ∧
      env_value (parse_uint u32_max) lookup "KATPOOL_ANTI_ABUSE_MAX_CONN_PER_IP" 256 (max_conn_per_ip c) ∧
      env_value (parse_uint u64_max) lookup "KATPOOL_ANTI_ABUSE_MAX_TRACKED_IPS" 65536 (max_tracked_ips c) ∧
      env_value parse_f64 lookup "KATPOOL_ANTI_ABUSE_FRAME_RATE_PER_SEC" (f64_of_Z 100) (frame_rate_per_sec c) ∧
      env_value parse_f64 lookup "KATPOOL_ANTI_ABUSE_FRAME_BURST" (f64_of_Z 200) (frame_burst c)
  | Err (InvalidEnvValue key raw) => lookup key = Some raw ∧
      (parse_uint u32_max raw = None ∨ parse_uint u64_max raw = None ∨ parse_f64 raw = None)
  | Err ZeroConnCap => env_value (parse_uint u32_max) lookup "KATPOOL_ANTI_ABUSE_MAX_CONN_PER_IP" 256 0
  | Err ZeroIpCap => env_value (parse_uint u64_max) lookup "KATPOOL_ANTI_ABUSE_MAX_TRACKED_IPS" 65536 0
  | Err (InvalidFrameRate r | InvalidFrameBurst r) => bad_rate r = true
  end.
Proof.
  unfold AntiAbuseConfig_from_lookup, parse_env_u32, parse_env_usize, parse_env_f64.
  repeat match goal with
  | |- context [mbind _ (parse_env ?p lookup ?k ?d)] =>
      pose proof (parse_env_spec p lookup k d); destruct (parse_env p lookup k d) as [?|[]]; simpl; try naive_solver
  end.
  pose proof (config_new_spec a a0 a1 a2) as Hn. destruct (AntiAbuseConfig_new a a0 a1 a2) as [c|[]]; naive_solver.
Qed.
