(* ===== verification/ClientHandler.v ===== *)
(** * Connections and jobs (bridge/src/client_handler.rs, default_client.rs)

    The client map, the handshake of a miner, and the two tasks that cut a
    job from a block template and send it.  A task is modelled by the messages
    it sends and the state it leaves; [get_block_template] answers with a
    header or an error text.  The message that sets the difficulty is sent
    from a task of its own, so its place among the messages is not fixed.
    The delayed task of [on_connect] only creates the worker's statistics and
    is left out. *)

From Stdlib Require Import Ascii.
From S2P Require Import Prelude Float64 Mass Db Effects DupGuard Domain Events Bytes Hasher MiningState Stratum ShareHandler Vardiff.
Local Open Scope Z_scope.

Inductive Msg := MNotification (method : string) (params : list Value) | MEvent (e : JsonRpcEvent) | MReply (r : JsonRpcResponse).

Record ClientHandler := {
  clients : gmap Z StratumContext; client_counter : Z; min_share_diff : f64; port_seeds : gmap Z f64 }.

Definition seed_for_port (ch : ClientHandler) (port : Z) : f64 := default (min_share_diff ch) (port_seeds ch !! port).

Definition with_clients (m : gmap Z StratumContext) (n : Z) (ch : ClientHandler) : ClientHandler :=
  {| clients := m; client_counter := n; min_share_diff := min_share_diff ch; port_seeds := port_seeds ch |}.

(** [AtomicI32::fetch_add] wraps. *)
Definition i32_wrapping_succ (n : Z) : Z := if n <? i32_max then n + 1 else - i32_max - 1.

Definition on_connect (c : StratumContext) (ch : ClientHandler) : StratumContext * ClientHandler :=
  let idx := client_counter ch in
  let c := set_ctx_id idx (set_extranonce "" c) in
  (c, with_clients (<[idx := c]> (clients ch)) (i32_wrapping_succ idx) ch).

Definition non_empty (s : string) : option string := if String.eqb s "" then None else Some s.
Definition worker_opt (name : string) : option string :=
  w ← non_empty name; match WorkerName_new w with Ok w => Some w | Err _ => None end.
Definition wallet_opt (addr : string) : option string := match WalletAddress_new addr with Ok a => Some a | Err _ => None end.

(** The session event, and the client map without the connection. *)
Definition on_disconnect (now correlation_id : Z) (c : StratumContext) (ch : ClientHandler)
    : option PoolEvent * StratumContext * ClientHandler :=
  let c := set_disconnecting true c in
  let ch := match client_id c with
            | Some id => with_clients (delete id (clients ch)) (client_counter ch) ch
            | None => ch
            end in
  let app := non_empty (remote_app c) in
  let worker := worker_opt (worker_name c) in
  let event := match app, worker with
               | None, None => None
               | _, _ => Some (SessionClosed (session_uid c) (a ← non_empty (wallet_addr c); wallet_opt a) worker
                                 (remote_addr c) app (connect_time (state c)) now correlation_id)
               end in
  (event, c, ch).

(** Every connection is closed and the map emptied. *)
Definition disconnect_all (ch : ClientHandler) : gmap Z StratumContext * ClientHandler :=
  (set_disconnecting true <$> clients ch, with_clients ∅ (client_counter ch) ch).

(** ** The handshake *)

(** [8 - extranonce.len() / 2]: an underflow panics. *)
Definition extranonce2_size (xn : string) : exec Z := u64_sub 8 (Z.of_nat (String.length xn) / 2).

Definition handle_subscribe (event : JsonRpcEvent) (counter : Z) (c : StratumContext)
    : exec (JsonRpcResponse * Z * StratumContext) :=
  let c := match params event with VString app :: _ => set_remote_app app c | _ => c end in
  let '(counter, c) := assign_extranonce_for_miner (remote_app c) counter c in
  if is_bitmain (remote_app c) then
    size ← extranonce2_size (extranonce c);
    Ret (JsonRpcResponse_new event (Some (VArray [VNull; VString (extranonce c); number_of size])) None, counter, c)
  else
    Ret (JsonRpcResponse_new event (Some (VArray [VBool true; VString "EthereumStratum/1.0.0"])) None, counter, c).

Inductive AuthorizeError := NoParams | AddressNotString | BadWallet.

(** [s.split('.')]. *)
Fixpoint split_dots (s : string) : list string :=
  match s with
  | EmptyString => [EmptyString]
  | String c s =>
      if Ascii.eqb c "." then EmptyString :: split_dots s
      else match split_dots s with
           | [] => [String c EmptyString]
           | p :: ps => String c p :: ps
           end
  end.

(** The identity a miner authorizes with, and the session event of its first time. *)
Definition handle_authorize `{!AddressCrate} (event : JsonRpcEvent) (correlation_id : Z) (c : StratumContext)
    : result AuthorizeError (JsonRpcResponse * option PoolEvent) * StratumContext :=
  match params event with
  | [] => (Err NoParams, c)
  | v :: _ =>
      match as_str v with
      | None => (Err AddressNotString, c)
      | Some address_str =>
          let parts := split_dots address_str in
          match clean_wallet (default "" (parts !! 0%nat)) with
          | None => (Err BadWallet, set_disconnecting true c)
          | Some address =>
              let c := set_worker_name (default "" (parts !! 1%nat)) (set_wallet_addr address c) in
              let '(worker, c) := effective_worker_name c in
              let c := match parts !! 2%nat with
                       | Some p => set_canxium_addr (process_canxium_address p) c
                       | None => c
                       end in
              let '(first, c) := claim_session_open c in
              let opened := if (first : bool)
                            then Some (SessionOpened (session_uid c) (wallet_opt address) (worker_opt worker) (remote_addr c)
                                         (non_empty (remote_app c)) (connect_time (state c)) correlation_id)
                            else None in
              (Ok (JsonRpcResponse_new event (Some (VBool true)) None, opened), c)
          end
      end
  end.

Definition send_extranonce (c : StratumContext) : exec Msg :=
  params ← (if is_bitmain (remote_app c)
            then size ← extranonce2_size (extranonce c); Ret [VString (extranonce c); number_of size]
            else Ret [VString (extranonce c)]);
  Ret (if contains "IceRiver" (remote_app c) then MNotification "mining.set_extranonce" params
       else MEvent (JsonRpcEvent_new None "mining.set_extranonce" params)).

(** ** Jobs *)

Definition diff_message (diff : f64) : Msg :=
  MEvent {| ev_id := None; jsonrpc := "2.0"; method := "mining.set_difficulty";
            params := [VNumber (if f64_is_finite diff then Float diff else PosInt (f64_as_u64 diff))] |}.

(** The data of a job in the format of the miner. *)
Definition job_params (app : string) (big : bool) (job_id : Z) (hash : list Z) (time : Z) : exec (list Value) :=
  rest ← (if is_iceriver app then Ret [VString (generate_iceriver_job_params hash time)]
          else if big then large ← generate_large_job_params hash time; Ret [VString large]
          else Ret [VArray (map (λ v, VNumber (PosInt v)) (generate_job_header hash)); VNumber (PosInt time)]);
  Ret (VString (pretty job_id) :: rest).

Definition notify_message (minimal : bool) (job_id : Z) (ps : list Value) : Msg :=
  if minimal then MNotification "mining.notify" ps
  else MEvent {| ev_id := Some (VNumber (PosInt job_id)); jsonrpc := "2.0"; method := "mining.notify"; params := ps |}.

Section jobs.
Context `{!TargetSwitches, !BlockHasher}.

(** The difficulty of a connection, in its state. *)
Definition assign_diff (diff : f64) (s : MiningState) : exec MiningState :=
  d ← set_diff_value_for_miner diff "" (default KaspaDiff_default (stratum_diff s)); Ret (set_stratum_diff d s).

(** First job of a connection: the job format and the starting difficulty. *)
Definition initialize (app : string) (diff : f64) (s : MiningState) : exec MiningState :=
  assign_diff diff (set_use_big_job (BIG_JOB_REGEX_is_match app) (set_initialized true s)).

(** Store the job cut from a template. *)
Definition cut_job (block : Header) (s : MiningState) : exec (Z * list Z * MiningState) :=
  let hash := serialize_block_header block in
  '(id, s) ← add_job {| block_header := block; pre_pow_hash := hash |} (set_big_diff (calculate_target (bits block)) s);
  Ret (id, hash, s).

(** A template that could not be fetched; a malformed address closes the connection. *)
Definition no_template (error : string) (c : StratumContext) : StratumContext :=
  if contains "Could not decode address" error then set_disconnecting true c else c.

(** After authorization. *)
Definition send_immediate_job (template : result string Header) (seed : f64) (now : Z) (c : StratumContext) (h : ShareHandler)
    : exec (list Msg * StratumContext * ShareHandler) :=
  if String.eqb (wallet_addr c) "" || disconnecting c then Ret ([], c, h)
  else match template with
  | Err e => Ret ([], no_template e c, h)
  | Ok block =>
    '(id, hash, s) ← cut_job block (set_last_header block (state c));
    s ← (if initialized s then Ret s else initialize (remote_app c) seed s);
    let current := default seed (diff_value <$> stratum_diff s) in
    let '(_, c, h) := set_client_vardiff seed now (set_state s c) h in
    ps ← job_params (remote_app c) (use_big_job s) id hash (timestamp block);
    Ret ([diff_message current; notify_message (is_iceriver (remote_app c)) id ps], c, h)
  end.

(** The connection follows the worker's vardiff. *)
Definition follow_vardiff (now : Z) (c : StratumContext) (h : ShareHandler)
    : exec (list Msg * StratumContext * ShareHandler) :=
  match stratum_diff (state c) with
  | None => Ret ([], c, h)
  | Some d =>
      let current := diff_value d in
      let '(var, c) := get_client_vardiff c h in
      let '(var, c, h) :=
        if f64_le var f64_zero && f64_lt f64_zero current then
          let '(_, c, h) := set_client_vardiff current now c h in
          let '(c, h) := start_client_vardiff now c h in (current, c, h)
        else (var, c, h) in
      if f64_eq var current then Ret ([], c, h)
      else
        s ← assign_diff var (state c);
        let '(c, h) := start_client_vardiff now (set_state s c) h in
        Ret ([diff_message var], c, h)
  end.

(** The task a new template spawns for a connected client; the messages it tries to send. *)
Definition new_block_for_client (template : result string Header) (seed : f64) (now : Z) (c : StratumContext) (h : ShareHandler)
    : exec (list Msg * StratumContext * ShareHandler) :=
  if String.eqb (wallet_addr c) "" then
    Ret ([], (if 20 * 1000000000 <? duration_since now (connect_time (state c)) then set_disconnecting true c else c), h)
  else match template with
  | Err e => Ret ([], no_template e c, h)
  | Ok block =>
    '(id, hash, s) ← cut_job block (state c);
    '(msgs, c, h) ←
      (if initialized s then follow_vardiff now (set_state s c) h
       else
         s ← initialize (remote_app c) seed s;
         let '(_, c, h) := set_client_vardiff seed now (set_state s c) h in
         Ret ([diff_message seed], c, h));
    ps ← job_params (remote_app c) (use_big_job (state c)) id hash (timestamp block);
    Ret (msgs ++ [notify_message (contains "IceRiver" (remote_app c)) id ps], c, h)
  end.
End jobs.

(** ** Properties *)

Section job_props.
Context `{!TargetSwitches, !BlockHasher}.

(** The state keeps its jobs and its counter. *)
Definition same_jobs (s s' : MiningState) : Prop := jobs s' = jobs s ∧ job_counter s' = job_counter s.

Lemma assign_diff_jobs diff s s' : assign_diff diff s = Ret s' → same_jobs s s' ∧ diff_value <$> stratum_diff s' = Some diff.
Proof.
  unfold assign_diff, set_diff_value_for_miner. intros (d & (t & _ & [= <-])%exec_bind_Ret & [= <-])%exec_bind_Ret. done.
Qed.

Lemma initialize_jobs app diff s s' : initialize app diff s = Ret s' → same_jobs s s'.
Proof. intros [Hj _]%assign_diff_jobs. exact Hj. Qed.

Lemma effective_name_state c : state (effective_worker_name c).2 = state c ∧ remote_app (effective_worker_name c).2 = remote_app c.
Proof. unfold effective_worker_name, ensure_default_worker_name. simpl. by case_bool. Qed.

Lemma set_client_vardiff_ctx d now c h r c' h' : set_client_vardiff d now c h = (r, c', h') →
  state c' = state c ∧ remote_app c' = remote_app c.
Proof.
  unfold set_client_vardiff, get_stats_if_exists. pose proof (effective_name_state c) as Hc.
  destruct (effective_worker_name c) as [n c1]. simpl in Hc.
  destruct (stats h !! n ≫= _) as [[i s]|]; intros; by simplify_eq.
Qed.

Lemma start_client_vardiff_ctx now c h c' h' : start_client_vardiff now c h = (c', h') →
  state c' = state c ∧ remote_app c' = remote_app c.
Proof.
  unfold start_client_vardiff, get_stats_if_exists. pose proof (effective_name_state c) as Hc.
  destruct (effective_worker_name c) as [n c1]. simpl in Hc.
  intros. by simplify_eq.
Qed.

Lemma get_client_vardiff_ctx c h r c' : get_client_vardiff c h = (r, c') → state c' = state c ∧ remote_app c' = remote_app c.
Proof.
  unfold get_client_vardiff, get_stats_if_exists. pose proof (effective_name_state c) as Hc.
  destruct (effective_worker_name c) as [n c1]. simpl in Hc.
  destruct (stats h !! n ≫= _); intros; by simplify_eq.
Qed.

Lemma follow_vardiff_ctx now c h msgs c' h' : follow_vardiff now c h = Ret (msgs, c', h') →
  same_jobs (state c) (state c') ∧ remote_app c' = remote_app c.
Proof.
  unfold follow_vardiff. destruct (stratum_diff (state c)) as [d|]; [|by intros; simplify_eq].
  destruct (get_client_vardiff c h) as [var c1] eqn:E1. apply get_client_vardiff_ctx in E1 as [Hs1 Ha1].
  destruct (if _ && _ then _ else _) as [[var' c2] h2] eqn:E2.
  assert (state c2 = state c ∧ remote_app c2 = remote_app c) as [Hs2 Ha2].
  { case_bool_in E2; [|by simplify_eq]. destruct (set_client_vardiff _ _ _ _) as [[r c3] h3] eqn:E3.
    apply set_client_vardiff_ctx in E3 as [? ?]. destruct (start_client_vardiff _ _ _) as [c4 h4] eqn:E4.
    apply start_client_vardiff_ctx in E4 as [? ?]. simplify_eq. split; congruence. }
  intros H. case_bool_in H; [simplify_eq; rewrite Hs2; by split|].
  apply exec_bind_Ret in H as (s & [Hj _]%assign_diff_jobs & H).
  destruct (start_client_vardiff _ _ _) as [c4 h4] eqn:E4. apply start_client_vardiff_ctx in E4 as [Hs4 Ha4]. simplify_eq.
  rewrite Hs4, Ha4. simpl. rewrite Hs2 in Hj. by split.
Qed.

Lemma cut_job_stored block s id hash s' : cut_job block s = Ret (id, hash, s') →
  hash = serialize_block_header block ∧ id = job_counter s + 1 ∧
  get_job id s' = Some {| block_header := block; pre_pow_hash := hash |}.
Proof.
  unfold cut_job, add_job, u64_add. case_bool; [|done]. simpl. intros [= <- <- <-]. split_and!; [done..|].
  unfold get_job. simpl. by rewrite lookup_insert_eq.
Qed.

(** The hash function returns 32 bytes. *)
Class BlockHasherOk : Prop := { finalize_bytes bs : hash_bytes (block_hash_finalize bs) }.

(** What a miner can read back from a job message. *)
Definition job_data (m : Msg) : option (string * list Z * Z) :=
  match m with
  | MNotification _ [VString id; VString data] | MEvent {| params := [VString id; VString data] |} =>
      '(h, t) ← read_job_params data; Some (id, h, t)
  | _ => None
  end.

Lemma job_params_data `{!BlockHasherOk} app big id block ps minimal : in_u64 (timestamp block) → is_iceriver app || big = true →
  job_params app big id (serialize_block_header block) (timestamp block) = Ret ps →
  job_data (notify_message minimal id ps) = Some (pretty id, serialize_block_header block, timestamp block).
Proof.
  intros Ht Hf H. pose proof (finalize_bytes (header_preimage block)) as Hb. fold (serialize_block_header block) in Hb.
  apply exec_bind_Ret in H as (rest & Hrest & [= <-]).
  assert (rest = [VString (generate_iceriver_job_params (serialize_block_header block) (timestamp block))]) as ->.
  { destruct (is_iceriver app); [by simplify_eq|]. simpl in Hf. subst big.
    rewrite large_job_params_agree in Hrest by apply Hb. by injection Hrest. }
  assert (read_job_params (generate_iceriver_job_params (serialize_block_header block) (timestamp block)) =
    Some (serialize_block_header block, timestamp block)) as Hr by by apply job_params_roundtrip.
  unfold notify_message, job_data. destruct minimal; by rewrite Hr.
Qed.

Lemma get_job_same s s' id : same_jobs s s' → get_job id s' = get_job id s.
Proof. intros [Hj _]. unfold get_job. by rewrite Hj. Qed.

(** C34: An authorized miner that gets a new template: its job is stored
    under the id it is sent, and (for the hexadecimal formats) the message
    decodes to that id, the template's pre-PoW hash and its timestamp. *)
Theorem job_sent_is_job_stored `{!BlockHasherOk} block seed now c h msgs c' h' :
  wallet_addr c ≠ ""%string → in_u64 (timestamp block) →
  new_block_for_client (Ok block) seed now c h = Ret (msgs, c', h') →
  let id := job_counter (state c) + 1 in
  get_job id (state c') = Some {| block_header := block; pre_pow_hash := serialize_block_header block |} ∧
  ∃ front m, msgs = front ++ [m] ∧
    (is_iceriver (remote_app c') || use_big_job (state c') = true →
     job_data m = Some (pretty id, serialize_block_header block, timestamp block)).
Proof.
  intros Hw Ht H id. unfold new_block_for_client in H.
  rewrite (proj2 (String.eqb_neq _ _) Hw) in H.
  apply exec_bind_Ret in H as ([[id' hash] s] & (-> & -> & Hst)%cut_job_stored & H).
  apply exec_bind_Ret in H as ([[front c1] h1] & Hf & H). apply exec_bind_Ret in H as (ps & Hps & [= <- <- <-]).
  assert (same_jobs s (state c1)) as Hj.
  { case_bool_in Hf; [by apply follow_vardiff_ctx in Hf as [? _]|].
    apply exec_bind_Ret in Hf as (s1 & Hi%initialize_jobs & Hf).
    destruct (set_client_vardiff _ _ _ _) as [[r c2] h2] eqn:E2. apply set_client_vardiff_ctx in E2 as [E2 _].
    simplify_eq. by rewrite E2. }
  split; [by rewrite (get_job_same _ _ _ Hj)|]. exists front. eexists. split; [done|]. intros Hhex. by eapply job_params_data.
Qed.
End job_props.

Module JobModel.
#[export] Instance switches : TargetSwitches := {| use_alternative := false; use_stratum_alt := false |}.
#[export] Instance hasher : BlockHasher := {| block_hash_finalize bs := replicate 32 (Z.of_nat (length bs) mod 256) |}.
#[export] Instance hasher_ok : BlockHasherOk.
Proof. split. intros bs. split; [apply length_replicate|]. apply Forall_replicate. by apply Z.mod_pos_bound. Qed.

Definition template : Header :=
  {| version := 1; parents_by_level := []; hash_merkle_root := []; accepted_id_merkle_root := []; utxo_commitment := [];
     timestamp := 1700000000000; bits := 486604799; nonce := 0; daa_score := 5; blue_score := 5; blue_work := 7; pruning_point := [] |}.
Definition miner : StratumContext :=
  set_remote_app "IceRiverMiner-1.0" (set_wallet_addr "kaspa:alice000000" (StratumContext_new "10.0.0.1" 1 5555 1 (MiningState_new 0))).
End JobModel.
Import JobModel.

Lemma job_sent_is_job_stored_witness :
  ∃ msgs c' h', new_block_for_client (Ok template) (f64_of_Z 256) 5 miner (ShareHandler_new 0) = Ret (msgs, c', h') ∧
    length msgs = 2%nat ∧ get_job 1 (state c') = Some {| block_header := template; pre_pow_hash := serialize_block_header template |}.
Proof.
  assert (match new_block_for_client (Ok template) (f64_of_Z 256) 5 miner (ShareHandler_new 0) with
          | Ret (m, _, _) => length m | Panic => 0%nat end = 2%nat) as Hl by (vm_compute; reflexivity).
  destruct (new_block_for_client (Ok template) (f64_of_Z 256) 5 miner (ShareHandler_new 0)) as [[[msgs c'] h']|] eqn:E;
    [|discriminate].
  exists msgs, c', h'.
  assert (in_u64 (timestamp template)) as Ht by (split; vm_compute; discriminate).
  destruct (job_sent_is_job_stored template (f64_of_Z 256) 5 miner (ShareHandler_new 0) msgs c' h'
    ltac:(discriminate) Ht E) as [Hg _].
  split_and!; [reflexivity|exact Hl|exact Hg].
Defined.

(** The first connection of a process has id 0, which [client_id] reports as
    none: its entry stays in the client map after it disconnects. *)
Lemma first_client_leaks c ch ev c' ch' : client_counter ch = 0 →
  on_disconnect 0 0 (on_connect c ch).1 (on_connect c ch).2 = (ev, c', ch') → is_Some (clients ch' !! 0).
Proof.
  intros Hc H. unfold on_connect, on_disconnect in H. rewrite Hc in H. simpl in H. injection H as _ _ <-. simpl.
  by rewrite lookup_insert_eq.
Qed.
