(* ===== verification/NewBlock.v ===== *)
(** * Templates for every client (new_block_available of bridge/src/client_handler.rs)

    A new template starts a round over the connected clients unless one started
    less than 250 ms ago; each client visited gets a task that fetches its
    template and sends the job, and the end of a round may ask the node for
    balances.  Rounds and tasks run side by side with everything else, so they
    are steps of a transition system whose other steps change the connections,
    the statistics and the set of clients in any way. *)

From stdpp Require Import relations.
From S2P Require Import Prelude Float64 Mass Db DupGuard Domain Events Bytes Hasher MiningState Stratum ShareHandler Vardiff ClientHandler.
Local Open Scope Z_scope.

Definition TEMPLATE_GAP : Z := 250 * 1000000.
Definition BALANCE_DELAY : Z := 60 * 1000000000.

(** A round: its clients, those still to visit, those given a task, those found disconnected, and the
    addresses collected. *)
Record Round := {
  ro_start : Z; ro_clients : list Z; ro_todo : list Z; ro_spawned : list Z; ro_skipped : list Z; ro_addresses : list string; ro_open : bool }.

Section fleet.
Context `{!TargetSwitches, !BlockHasher}.
(** The seeds; the clients of the handler are [fl_members] below. *)
Context (ch : ClientHandler).

(** [fl_sent] and [fl_checks] record what tasks tried to send and which balances were asked for. *)
Record Fleet := {
  fl_now : Z; fl_contexts : gmap Z StratumContext; fl_members : gset Z; fl_shares : ShareHandler; fl_last_template : Z; fl_last_balance : Z;
  fl_rounds : list Round; fl_tasks : list (Z * f64); fl_sent : list (Z * list Msg); fl_checks : list (list string) }.

Definition fleet_new (now : Z) (h : ShareHandler) : Fleet :=
  {| fl_now := now; fl_contexts := ∅; fl_members := ∅; fl_shares := h; fl_last_template := now; fl_last_balance := now; fl_rounds := []; fl_tasks := [];
     fl_sent := []; fl_checks := [] |}.

Definition with_rounds (now last_template : Z) (rounds : list Round) (f : Fleet) : Fleet :=
  {| fl_now := now; fl_contexts := fl_contexts f; fl_members := fl_members f; fl_shares := fl_shares f; fl_last_template := last_template;
     fl_last_balance := fl_last_balance f; fl_rounds := rounds; fl_tasks := fl_tasks f; fl_sent := fl_sent f; fl_checks := fl_checks f |}.
Definition with_tasks (tasks : list (Z * f64)) (f : Fleet) : Fleet :=
  {| fl_now := fl_now f; fl_contexts := fl_contexts f; fl_members := fl_members f; fl_shares := fl_shares f; fl_last_template := fl_last_template f;
     fl_last_balance := fl_last_balance f; fl_rounds := fl_rounds f; fl_tasks := tasks; fl_sent := fl_sent f; fl_checks := fl_checks f |}.

(** The throttle, then the clients of the moment in the map's order. *)
Definition begin_round (now : Z) (ids : list Z) (f : Fleet) : Fleet :=
  if duration_since now (fl_last_template f) <? TEMPLATE_GAP then with_rounds now (fl_last_template f) (fl_rounds f) f
  else
    let r := {| ro_start := now; ro_clients := ids; ro_todo := ids; ro_spawned := []; ro_skipped := []; ro_addresses := []; ro_open := true |} in
    with_rounds now now (r :: fl_rounds f) f.

Definition visit (id : Z) (todo : list Z) (c : StratumContext) (r : Round) : Round :=
  if connected c then
    {| ro_start := ro_start r; ro_clients := ro_clients r; ro_todo := todo; ro_spawned := id :: ro_spawned r; ro_skipped := ro_skipped r;
       ro_addresses := if String.eqb (wallet_addr c) "" then ro_addresses r else ro_addresses r ++ [wallet_addr c]; ro_open := ro_open r |}
  else
    {| ro_start := ro_start r; ro_clients := ro_clients r; ro_todo := todo; ro_spawned := ro_spawned r; ro_skipped := id :: ro_skipped r; ro_addresses := ro_addresses r; ro_open := ro_open r |}.
(** The next client of the [k]-th round; a connected one gets a task. *)
Definition visit_next (now : Z) (k : nat) (f : Fleet) : option Fleet :=
  r ← fl_rounds f !! k;
  match ro_todo r with
  | [] => None
  | id :: todo =>
      c ← fl_contexts f !! id;
      let f' := with_rounds now (fl_last_template f) (<[k := visit id todo c r]> (fl_rounds f)) f in
      Some (if connected c then with_tasks ((id, seed_for_port ch (local_port c)) :: fl_tasks f) f' else f')
  end.

Definition close_round (r : Round) : Round :=
  {| ro_start := ro_start r; ro_clients := ro_clients r; ro_todo := ro_todo r; ro_spawned := ro_spawned r; ro_skipped := ro_skipped r; ro_addresses := ro_addresses r; ro_open := false |}.
(** After the loop, the balance check. *)
Definition end_round (now : Z) (k : nat) (f : Fleet) : option Fleet :=
  r ← fl_rounds f !! k;
  match ro_todo r with
  | _ :: _ => None
  | [] =>
      if ro_open r then
        let f' := with_rounds now (fl_last_template f) (<[k := close_round r]> (fl_rounds f)) f in
        Some (if (BALANCE_DELAY <? duration_since now (fl_last_balance f)) && negb (bool_decide (ro_addresses r = [])) then
                {| fl_now := now; fl_contexts := fl_contexts f'; fl_members := fl_members f'; fl_shares := fl_shares f'; fl_last_template := fl_last_template f';
                   fl_last_balance := now; fl_rounds := fl_rounds f'; fl_tasks := fl_tasks f'; fl_sent := fl_sent f';
                   fl_checks := ro_addresses r :: fl_checks f' |}
              else f')
      else None
  end.

(** The [j]-th task gets its template. *)
Definition run_client_task (now : Z) (j : nat) (template : result string Header) (f : Fleet) : option (exec Fleet) :=
  '(id, seed) ← fl_tasks f !! j;
  c ← fl_contexts f !! id;
  Some ('(msgs, c, h) ← new_block_for_client template seed now c (fl_shares f);
        Ret {| fl_now := now; fl_contexts := <[id := c]> (fl_contexts f); fl_members := fl_members f; fl_shares := h; fl_last_template := fl_last_template f;
               fl_last_balance := fl_last_balance f; fl_rounds := fl_rounds f; fl_tasks := delete j (fl_tasks f); fl_sent := (id, msgs) :: fl_sent f;
               fl_checks := fl_checks f |}).

Definition with_others (now : Z) (contexts : gmap Z StratumContext) (members : gset Z) (h : ShareHandler) (f : Fleet) : Fleet :=
  {| fl_now := now; fl_contexts := contexts; fl_members := members; fl_shares := h; fl_last_template := fl_last_template f;
     fl_last_balance := fl_last_balance f; fl_rounds := fl_rounds f; fl_tasks := fl_tasks f; fl_sent := fl_sent f; fl_checks := fl_checks f |}.

Inductive fleet_step : Fleet → Fleet → Prop :=
  | step_template now ids f : fl_now f ≤ now → ids ≡ₚ elements (fl_members f) → fleet_step f (begin_round now ids f)
  | step_visit now k f f' : fl_now f ≤ now → visit_next now k f = Some f' → fleet_step f f'
  | step_end now k f f' : fl_now f ≤ now → end_round now k f = Some f' → fleet_step f f'
  | step_task now j template f f' : fl_now f ≤ now → run_client_task now j template f = Some (Ret f') → fleet_step f f'
  | step_other now contexts members h f : fl_now f ≤ now → fleet_step f (with_others now contexts members h f).

(** ** Once per round, and not too often *)

Definition occ (id : Z) (l : list Z) : nat := length (List.filter (Z.eqb id) l).
Definition spawned (rounds : list Round) : list Z := mjoin (map ro_spawned rounds).

Lemma occ_app id a b : occ id (a ++ b) = (occ id a + occ id b)%nat.
Proof. unfold occ. by rewrite List.filter_app, length_app. Qed.
Lemma occ_cons id x l : occ id (x :: l) = (occ id [x] + occ id l)%nat.
Proof. apply (occ_app id [x] l). Qed.
Lemma occ_perm id a b : a ≡ₚ b → occ id a = occ id b.
Proof.
  induction 1 as [|x a b _ IH|x y l|a b c _ IH1 _ IH2]; [done| | |by rewrite IH1].
  - by rewrite (occ_cons id x a), (occ_cons id x b), IH.
  - rewrite (occ_cons id y (x :: l)), (occ_cons id x l), (occ_cons id x (y :: l)), (occ_cons id y l). lia.
Qed.
Lemma occ_nodup id l : NoDup l → (occ id l ≤ 1)%nat.
Proof.
  induction 1 as [|x l Hx _ IH]; [unfold occ; simpl; lia|]. rewrite occ_cons. unfold occ at 1. simpl. destruct (Z.eqb_spec id x) as [->|]; [|simpl; lia].
  assert (occ x l = 0%nat) as ->; [|simpl; lia]. unfold occ. clear IH. induction l as [|y l IHl]; [done|]. apply not_elem_of_cons in Hx as [Hxy Hx]. simpl.
  rewrite (proj2 (Z.eqb_neq x y)) by done. by apply IHl.
Qed.

(** What a client has had, with one round replaced. *)
Lemma spawned_insert id k r r' rounds : rounds !! k = Some r →
  (occ id (spawned (<[k := r']> rounds)) + occ id (ro_spawned r) = occ id (spawned rounds) + occ id (ro_spawned r'))%nat.
Proof.
  revert k. induction rounds as [|r0 rounds IH]; intros k Hk; [done|]. destruct k as [|k]; simpl in *.
  - injection Hk as ->. unfold spawned. simpl. rewrite !occ_app. lia.
  - specialize (IH k Hk). unfold spawned in *. simpl. rewrite !occ_app. lia.
Qed.
Lemma spawned_bound id rounds : Forall (λ r, NoDup (ro_spawned r)) rounds → (occ id (spawned rounds) ≤ length rounds)%nat.
Proof.
  induction 1 as [|r rounds Hr _ IH]; [unfold occ; simpl; lia|]. unfold spawned in *. simpl. rewrite occ_app. pose proof (occ_nodup id _ Hr). lia.
Qed.

(** Every client of a round is waiting, has a task or was found disconnected, exactly once. *)
Definition round_ok (r : Round) : Prop := NoDup (ro_clients r) ∧ ro_clients r ≡ₚ ro_todo r ++ ro_spawned r ++ ro_skipped r.
Record fleet_ok (t0 : Z) (f : Fleet) : Prop := {
  fk_template : t0 ≤ fl_last_template f ≤ fl_now f;
  fk_balance : t0 ≤ fl_last_balance f ≤ fl_now f;
  fk_rounds : Z.of_nat (length (fl_rounds f)) * TEMPLATE_GAP ≤ fl_last_template f - t0;
  fk_once : Forall round_ok (fl_rounds f);
  fk_jobs : ∀ id, (occ id (map fst (fl_sent f)) + occ id (map fst (fl_tasks f)) = occ id (spawned (fl_rounds f)))%nat;
  fk_checks : Z.of_nat (length (fl_checks f)) * BALANCE_DELAY ≤ fl_last_balance f - t0 }.

Lemma begin_round_ok t0 now ids f : fleet_ok t0 f → fl_now f ≤ now → ids ≡ₚ elements (fl_members f) → fleet_ok t0 (begin_round now ids f).
Proof.
  intros [Ht Hb Hr Ho Hj Hc] Hn Hids. unfold begin_round. destruct (Z.ltb_spec (duration_since now (fl_last_template f)) TEMPLATE_GAP) as [_|Hgap].
  - split; simpl; try done; lia.
  - unfold duration_since in Hgap. split; simpl; try done; try lia.
    constructor; [|done]. split; simpl; [rewrite Hids; apply NoDup_elements|by rewrite app_nil_r].
Qed.

Lemma round_ok_spawned r : round_ok r → NoDup (ro_spawned r).
Proof. intros [Hn Hp]. rewrite Hp in Hn. by apply NoDup_app in Hn as (_ & _ & (? & _ & _)%NoDup_app). Qed.
Lemma visit_ok id todo c r : round_ok r → ro_todo r = id :: todo → round_ok (visit id todo c r).
Proof.
  intros [Hn Hp] Ht. rewrite Ht in Hp. unfold visit. split; [by case_bool|]. case_bool; simpl; rewrite Hp; simpl.
  - by rewrite (Permutation_middle todo).
  - rewrite !app_assoc. apply Permutation_middle.
Qed.

Lemma visit_next_ok t0 now k f f' : fleet_ok t0 f → fl_now f ≤ now → visit_next now k f = Some f' → fleet_ok t0 f'.
Proof.
  intros [Ht Hb Hr Ho Hj Hc] Hn Hv. unfold visit_next in Hv. destruct (fl_rounds f !! k) as [r|] eqn:Hk; [|done]. cbn [mbind option_bind] in Hv.
  destruct (ro_todo r) as [|id todo] eqn:Htd; [done|]. destruct (fl_contexts f !! id) as [c|]; [|done]. cbn [mbind option_bind] in Hv. injection Hv as <-.
  pose proof (visit_ok id todo c r (Forall_lookup_1 _ _ _ _ Ho Hk) Htd) as Hok. pose proof (λ x, spawned_insert x k r (visit id todo c r) _ Hk) as Hins.
  destruct (connected c) eqn:Hcon; (split; cbn [fl_now fl_last_template fl_last_balance fl_rounds fl_checks fl_sent fl_tasks with_rounds with_tasks]);
    try lia; rewrite ?length_insert; try done; try (by apply Forall_insert).
  - intros x. specialize (Hins x). specialize (Hj x). unfold visit in Hins. rewrite Hcon in Hins. cbn [ro_spawned map fst] in *. unfold visit. rewrite Hcon.
    rewrite (occ_cons x id (map fst _)). rewrite (occ_cons x id (ro_spawned r)) in Hins. lia.
  - intros x. specialize (Hins x). specialize (Hj x). unfold visit in *. rewrite Hcon in *. cbn [ro_spawned] in *. lia.
Qed.

Lemma end_round_ok t0 now k f f' : fleet_ok t0 f → fl_now f ≤ now → end_round now k f = Some f' → fleet_ok t0 f'.
Proof.
  intros [Ht Hb Hr Ho Hj Hc] Hn Hv. unfold end_round in Hv. destruct (fl_rounds f !! k) as [r|] eqn:Hk; [|done]. cbn [mbind option_bind] in Hv.
  destruct (ro_todo r) as [|id todo] eqn:Htd; [|done]. destruct (ro_open r); [|done]. injection Hv as <-.
  assert (round_ok (close_round r)) as Hok by exact (Forall_lookup_1 _ _ _ _ Ho Hk). pose proof (λ x, spawned_insert x k r (close_round r) _ Hk) as Hins.
  destruct ((BALANCE_DELAY <? duration_since now (fl_last_balance f)) && negb (bool_decide (ro_addresses r = []))) eqn:Hd;
    (split; cbn [fl_now fl_last_template fl_last_balance fl_rounds fl_checks fl_sent fl_tasks with_rounds]); try lia; rewrite ?length_insert; try done; try (by apply Forall_insert).
  - intros x. specialize (Hins x). specialize (Hj x). cbn [ro_spawned close_round] in Hins. lia.
  - apply andb_prop in Hd as [Hd%Z.ltb_lt _]. unfold duration_since in Hd. cbn [length]. unfold BALANCE_DELAY in *. lia.
  - intros x. specialize (Hins x). specialize (Hj x). cbn [ro_spawned close_round] in Hins. lia.
Qed.

Lemma run_client_task_ok t0 now j template f f' : fleet_ok t0 f → fl_now f ≤ now → run_client_task now j template f = Some (Ret f') → fleet_ok t0 f'.
Proof.
  intros [Ht Hb Hr Ho Hj Hc] Hn Hv. unfold run_client_task in Hv. destruct (fl_tasks f !! j) as [[id seed]|] eqn:Hk; [|done]. cbn [mbind option_bind] in Hv.
  destruct (fl_contexts f !! id) as [c|]; [|done]. cbn [mbind option_bind] in Hv. injection Hv as Hv. apply exec_bind_Ret in Hv as ([[msgs c'] h'] & _ & [= <-]).
  split; cbn [fl_now fl_last_template fl_last_balance fl_rounds fl_checks fl_sent fl_tasks]; try lia; try done. intros x. specialize (Hj x).
  assert (occ x (map fst (fl_tasks f)) = occ x [id] + occ x (map fst (delete j (fl_tasks f))))%nat as Hocc.
  { rewrite <- occ_app. apply occ_perm. simpl. change (id :: map fst (delete j (fl_tasks f))) with (map fst ((id, seed) :: delete j (fl_tasks f))).
    apply Permutation_map. by apply delete_Permutation. }
  cbn [map fst]. rewrite (occ_cons x id). lia.
Qed.

Lemma fleet_step_ok t0 f f' : fleet_step f f' → fleet_ok t0 f → fleet_ok t0 f'.
Proof.
  intros Hs Hf. destruct Hs as [now ids f Hn Hi|now k f f' Hn Hv|now k f f' Hn Hv|now j template f f' Hn Hv|now contexts members h f Hn].
  - by apply begin_round_ok.
  - by eapply visit_next_ok.
  - by eapply end_round_ok.
  - by eapply run_client_task_ok.
  - destruct Hf as [Ht Hb Hr Ho Hj Hc]. split; simpl; try done; lia.
Qed.
Lemma fleet_new_ok t0 h : fleet_ok t0 (fleet_new t0 h).
Proof. split; simpl; try done; lia. Qed.
Lemma fleet_reachable_ok t0 h f : rtc fleet_step (fleet_new t0 h) f → fleet_ok t0 f.
Proof.
  intros Hr. pose proof (fleet_new_ok t0 h) as Hf. revert Hf. induction Hr as [|x y z Hs _ IH]; [done|]. intros Hx. apply IH. by eapply fleet_step_ok.
Qed.

(** C40: However rounds, tasks, connections and the other tasks of the process interleave: since the server
    started a client was sent at most one job of a new template per 250 ms, and the node was asked for
    balances at most once a minute; a client that a round visited has exactly one task from it, or none
    because it had disconnected, and once a round has no client left it has visited all of its clients. *)
Theorem jobs_rate_limited t0 h f : rtc fleet_step (fleet_new t0 h) f →
  (∀ id, Z.of_nat (occ id (map fst (fl_sent f))) * TEMPLATE_GAP ≤ fl_now f - t0) ∧
  Z.of_nat (length (fl_checks f)) * BALANCE_DELAY ≤ fl_now f - t0 ∧
  ∀ r, r ∈ fl_rounds f → ro_todo r = [] → ∀ id, occ id (ro_clients r) = (occ id (ro_spawned r) + occ id (ro_skipped r))%nat ∧ (occ id (ro_clients r) ≤ 1)%nat.
Proof.
  intros [Ht Hb Hr Ho Hj Hc]%fleet_reachable_ok. split_and!; [|lia|].
  - intros id. assert (occ id (map fst (fl_sent f)) ≤ length (fl_rounds f))%nat as Hle.
    { etrans; [|apply (spawned_bound id)]; [rewrite <- Hj; lia|]. eapply Forall_impl; [exact Ho|apply round_ok_spawned]. }
    unfold TEMPLATE_GAP in *. lia.
  - intros r Hin Htd id. rewrite Forall_forall in Ho. destruct (Ho r Hin) as [Hn Hp]. rewrite Htd in Hp. split; [|by apply occ_nodup].
    by rewrite (occ_perm id _ _ Hp), <- occ_app.
Qed.
End fleet.

(** ** A run *)

Module NewBlockDemo.
Import JobModel.
Definition handler : ClientHandler := {| clients := ∅; client_counter := 0; min_share_diff := f64_of_Z 256; port_seeds := ∅ |}.
Definition ms (n : Z) : Z := n * 1000000.
Definition run (o : option Fleet) (f : Fleet) : Fleet := default f o.
Definition ran (o : option (exec Fleet)) (f : Fleet) : Fleet := match o with Some (Ret f) => f | _ => f end.

(** A client connects, a template starts a round and the client gets its job; a template 100 ms later starts none. *)
Definition f1 : Fleet := with_others (ms 1) {[7 := miner]} {[7]} (ShareHandler_new 0) (fleet_new 0 (ShareHandler_new 0)).
Definition f2 : Fleet := begin_round (ms 300) [7] f1.
Definition f3 : Fleet := run (visit_next handler (ms 301) 0 f2) f2.
Definition f4 : Fleet := run (end_round (ms 302) 0 f3) f3.
Definition f5 : Fleet := ran (run_client_task (ms 303) 0 (Ok template) f4) f4.
Definition f6 : Fleet := begin_round (ms 400) [7] f5.

Lemma run_some o f : match o with Some _ => true | None => false end = true → o = Some (run o f).
Proof. by destruct o. Qed.
Lemma ran_some o f : match o with Some (Ret _) => true | _ => false end = true → o = Some (Ret (ran o f)).
Proof. by destruct o as [[]|]. Qed.
Lemma new_block_demo_run : rtc (fleet_step handler) (fleet_new 0 (ShareHandler_new 0)) f6.
Proof.
  apply (rtc_l _ _ f1); [apply step_other; by vm_compute|]. apply (rtc_l _ _ f2); [apply step_template; by vm_compute|].
  apply (rtc_l _ _ f3); [apply (step_visit handler (ms 301) 0 f2); [by vm_compute|apply run_some; by vm_compute]|].
  apply (rtc_l _ _ f4); [apply (step_end handler (ms 302) 0 f3); [by vm_compute|apply run_some; by vm_compute]|].
  apply (rtc_l _ _ f5); [apply (step_task handler (ms 303) 0 (Ok template) f4); [by vm_compute|apply ran_some; by vm_compute]|].
  apply (rtc_l _ _ f6); [apply step_template; by vm_compute|]. constructor.
Qed.

Lemma jobs_rate_limited_witness : length (fl_rounds f6) = 1%nat ∧ map (λ s, (s.1, length s.2)) (fl_sent f6) = [(7, 2%nat)] ∧
  Z.of_nat (occ 7 (map fst (fl_sent f6))) * TEMPLATE_GAP ≤ fl_now f6 - 0.
Proof.
  split; [by vm_compute|]. split; [by vm_compute|].
  destruct (jobs_rate_limited handler 0 (ShareHandler_new 0) f6 new_block_demo_run) as [Hjobs _]. exact (Hjobs 7).
Defined.
End NewBlockDemo.
