(* ===== verification/AccountRepo.v ===== *)
(** * The accounting repositories

    crates/katpool-db/src/repo/coinbase_reward.rs, nacho_rebate.rs,
    share_window.rs, share_allocation.rs and block.rs: rewards by outpoint,
    rebate balances, closed share windows, allocations and the block
    lifecycle. *)

From Stdlib Require Import SpecFloat.
From S2P Require Import Prelude Float64 Mass Db PayoutRepo PayoutSpec.
Local Open Scope Z_scope.

Inductive EnsureOutcome := Inserted | AlreadyExisted.

(** ** coinbase_reward.rs *)

(** [x as i32] for a [u32]. *)
Definition u32_as_i32 (z : Z) : Z := if z <=? i32_max then z else z - 2 ^ 32.

(** The stored outpoint: the transaction id and the index as an [i32]. *)
Definition stored_outpoint (txid index : Z) : TransactionOutpoint :=
  {| transaction_id := txid; out_index := u32_as_i32 index |}.

Definition reward_check (r : CoinbaseReward) : bool :=
  (0 <=? out_index (cr_outpoint r)) && (0 <=? cr_amount_sompi r) && (0 <=? cr_block_daa_score r).

Definition reward_ensure (txid index amount_sompi block_daa_score now : Z) (d : Db)
    : result DbError ((Z * EnsureOutcome) * Db) :=
  let row := {| cr_id := next_id cr_id (coinbase_rewards d); cr_outpoint := stored_outpoint txid index;
                cr_amount_sompi := amount_sompi; cr_block_daa_score := u64_as_i64 block_daa_score;
                cr_discovered_at := now; cr_allocated_at := None |} in
  if reward_check row then
    match List.find (λ r, outpoint_eqb (cr_outpoint r) (cr_outpoint row)) (coinbase_rewards d) with
    | Some r => Ok ((cr_id r, AlreadyExisted), d)
    | None => Ok ((cr_id row, Inserted), set_coinbase_rewards (coinbase_rewards d ++ [row]) d)
    end
  else Err Constraint.

Definition is_unallocated (r : CoinbaseReward) : bool :=
  match cr_allocated_at r with None => true | Some _ => false end.

Definition list_unallocated (n : Z) (d : Db) : list CoinbaseReward :=
  limit n (stable_sort
    (λ x y, (cr_block_daa_score x <? cr_block_daa_score y) ||
            ((cr_block_daa_score x =? cr_block_daa_score y) && (cr_id x <=? cr_id y)))
    (List.filter is_unallocated (coinbase_rewards d))).

Definition lock_for_allocation (id : Z) (d : Db) : option CoinbaseReward :=
  List.find (λ r, cr_id r =? id) (coinbase_rewards d).

Definition stamp_allocated (now : Z) (r : CoinbaseReward) : CoinbaseReward :=
  {| cr_id := cr_id r; cr_outpoint := cr_outpoint r; cr_amount_sompi := cr_amount_sompi r;
     cr_block_daa_score := cr_block_daa_score r; cr_discovered_at := cr_discovered_at r;
     cr_allocated_at := coalesce (cr_allocated_at r) now |}.

Definition mark_allocated (id now : Z) (d : Db) : Db :=
  set_coinbase_rewards (update_where (λ r, cr_id r =? id) (stamp_allocated now) (coinbase_rewards d)) d.

Definition find_by_outpoint (txid index : Z) (d : Db) : option CoinbaseReward :=
  List.find (λ r, outpoint_eqb (cr_outpoint r) (stored_outpoint txid index)) (coinbase_rewards d).

(** ** nacho_rebate.rs *)

Definition rebate_check (r : NachoRebate) : bool :=
  (0 <=? nr_accrued_sompi r) && (0 <=? nr_paid_sompi r) && (nr_paid_sompi r <=? nr_accrued_sompi r).

Definition rebate_get (wallet_id : Z) (d : Db) : option NachoRebate :=
  List.find (λ r, nr_wallet_id r =? wallet_id) (nacho_rebates d).

Definition pending_sompi (r : NachoRebate) : exec Z := i64_add (nr_accrued_sompi r) (- nr_paid_sompi r).

(** [INSERT ... ON CONFLICT (wallet_id) DO UPDATE SET accrued_sompi = f]. *)
Definition rebate_upsert (f : Z → Z) (wallet_id delta now : Z) (d : Db) : result DbError (NachoRebate * Db) :=
  let fresh := {| nr_wallet_id := wallet_id; nr_accrued_sompi := delta; nr_paid_sompi := 0; nr_updated_at := now |} in
  match rebate_get wallet_id d with
  | None =>
      if rebate_check fresh && existsb (λ w, w_id w =? wallet_id) (wallets d)
      then Ok (fresh, set_nacho_rebates (nacho_rebates d ++ [fresh]) d) else Err Constraint
  | Some r =>
      accrued ← to_bigint (f (nr_accrued_sompi r));
      let r' := {| nr_wallet_id := wallet_id; nr_accrued_sompi := accrued;
                   nr_paid_sompi := nr_paid_sompi r; nr_updated_at := now |} in
      if rebate_check r'
      then Ok (r', set_nacho_rebates
                     (update_where (λ x, nr_wallet_id x =? wallet_id) (λ _, r') (nacho_rebates d)) d)
      else Err Constraint
  end.

Definition accrue (wallet_id delta_sompi now : Z) (d : Db) : result DbError (NachoRebate * Db) :=
  if delta_sompi <? 0 then Err Config
  else rebate_upsert (λ a, a + delta_sompi) wallet_id delta_sompi now d.

Definition set_accrual (wallet_id accrued_sompi now : Z) (d : Db) : result DbError (NachoRebate * Db) :=
  if accrued_sompi <? 0 then Err Config
  else rebate_upsert (λ _, accrued_sompi) wallet_id accrued_sompi now d.

Definition mark_paid (wallet_id delta_sompi now : Z) (d : Db) : result DbError (NachoRebate * Db) :=
  if delta_sompi <? 0 then Err Config
  else
    match rebate_get wallet_id d with
    | None => Err NotFound
    | Some r =>
        paid ← to_bigint (nr_paid_sompi r + delta_sompi);
        let r' := {| nr_wallet_id := wallet_id; nr_accrued_sompi := nr_accrued_sompi r;
                     nr_paid_sompi := paid; nr_updated_at := now |} in
        if rebate_check r'
        then Ok (r', set_nacho_rebates
                       (update_where (λ x, nr_wallet_id x =? wallet_id) (λ _, r') (nacho_rebates d)) d)
        else Err Constraint
    end.

Definition rebate_list_pending (min_pending_sompi n : Z) (d : Db) : list NachoRebate :=
  limit n (stable_sort (λ x y, nr_accrued_sompi y - nr_paid_sompi y <=? nr_accrued_sompi x - nr_paid_sompi x)
    (List.filter (λ r, min_pending_sompi <=? nr_accrued_sompi r - nr_paid_sompi r) (nacho_rebates d))).

(** ** share_window.rs *)

(** [total_weight >= 0] in Postgres, where NaN is above every number. *)
Definition pg_nonneg (x : f64) : bool := match x with S754_nan => true | _ => f64_le f64_zero x end.

Definition window_check (r : ShareWindow) : bool :=
  pg_nonneg (sw_total_weight r) && (0 <=? sw_share_count r) && (sw_daa_start r <? sw_daa_end r).

Definition same_window (w s e : Z) (r : ShareWindow) : bool :=
  (sw_wallet_id r =? w) && (sw_daa_start r =? s) && (sw_daa_end r =? e).

Definition window_insert (wallet_id daa_start daa_end started_at ended_at : Z) (total_weight : f64)
    (share_count : Z) (d : Db) : result DbError (Z * Db) :=
  let row := {| sw_id := next_id sw_id (share_windows d); sw_wallet_id := wallet_id;
                sw_daa_start := u64_as_i64 daa_start; sw_daa_end := u64_as_i64 daa_end;
                sw_started_at := started_at; sw_ended_at := ended_at;
                sw_total_weight := total_weight; sw_share_count := share_count |} in
  if window_check row &&
     negb (existsb (same_window wallet_id (sw_daa_start row) (sw_daa_end row)) (share_windows d)) &&
     existsb (λ w, w_id w =? wallet_id) (wallets d)
  then Ok (sw_id row, set_share_windows (share_windows d ++ [row]) d)
  else Err Constraint.

Definition window_find (wallet_id daa_start daa_end : Z) (d : Db) : option ShareWindow :=
  List.find (same_window wallet_id (u64_as_i64 daa_start) (u64_as_i64 daa_end)) (share_windows d).

Definition list_for_window (daa_start daa_end : Z) (d : Db) : list ShareWindow :=
  stable_sort (λ x y, f64_le (sw_total_weight y) (sw_total_weight x))
    (List.filter (λ r, (sw_daa_start r =? u64_as_i64 daa_start) && (sw_daa_end r =? u64_as_i64 daa_end))
       (share_windows d)).

(** ** share_allocation.rs *)

Record NewAllocation := {
  na_wallet_id : Z; na_weight : f64; na_window_total : f64;
  na_gross_share_sompi : Z; na_pool_fee_sompi : Z; na_nacho_accrual_sompi : Z; na_net_payout_sompi : Z;
  na_applied_topline_bps : Z; na_applied_rebate_bps : Z; na_applied_tier : WalletTier;
}.

Definition na_is_balanced (r : NewAllocation) : exec bool :=
  s ← i64_add (na_pool_fee_sompi r) (na_nacho_accrual_sompi r);
  s ← i64_add s (na_net_payout_sompi r);
  Ret (na_gross_share_sompi r =? s).

(** The constraints of one [share_allocation] row. *)
Definition allocation_check (r : NewAllocation) : bool :=
  pg_nonneg (na_weight r) && f64_lt f64_zero (na_window_total r) &&
  (0 <=? na_gross_share_sompi r) && (0 <=? na_pool_fee_sompi r) &&
  (0 <=? na_nacho_accrual_sompi r) && (0 <=? na_net_payout_sompi r) &&
  (na_gross_share_sompi r =? na_pool_fee_sompi r + na_nacho_accrual_sompi r + na_net_payout_sompi r) &&
  f64_le (na_weight r) (na_window_total r) &&
  (0 <=? na_applied_topline_bps r) && (na_applied_topline_bps r <=? 1000) &&
  (0 <=? na_applied_rebate_bps r) && (na_applied_rebate_bps r <=? 10000).

Definition allocation_row (id reward_id now : Z) (r : NewAllocation) : ShareAllocation :=
  {| sa_id := id; sa_computed_at := now; sa_coinbase_reward_id := reward_id; sa_wallet_id := na_wallet_id r;
     sa_weight := na_weight r; sa_window_total := na_window_total r;
     sa_gross_share_sompi := na_gross_share_sompi r; sa_pool_fee_sompi := na_pool_fee_sompi r;
     sa_nacho_accrual_sompi := na_nacho_accrual_sompi r; sa_net_payout_sompi := na_net_payout_sompi r;
     sa_applied_topline_bps := na_applied_topline_bps r; sa_applied_rebate_bps := na_applied_rebate_bps r;
     sa_applied_tier := na_applied_tier r |}.

(** Rows get consecutive ids. *)
Fixpoint number_rows (id reward_id now : Z) (rows : list NewAllocation) : list ShareAllocation :=
  match rows with
  | [] => []
  | r :: rows => allocation_row id reward_id now r :: number_rows (id + 1) reward_id now rows
  end.

(** The client-side balance guard over all rows. *)
Fixpoint all_balanced (rows : list NewAllocation) : exec bool :=
  match rows with
  | [] => Ret true
  | r :: rows => b ← na_is_balanced r; if (b : bool) then all_balanced rows else Ret false
  end.

Definition insert_batch (reward_id : Z) (rows : list NewAllocation) (now : Z) (d : Db)
    : exec (result DbError (Z * Db)) :=
  match rows with
  | [] => Ret (Ok (0, d))
  | _ =>
      balanced ← all_balanced rows;
      if negb balanced then Ret (Err Config)
      else
        let new := number_rows (next_id sa_id (share_allocations d)) reward_id now rows in
        let keys := map (λ a, (sa_coinbase_reward_id a, sa_wallet_id a)) (share_allocations d ++ new) in
        if forallb allocation_check rows && bool_decide (NoDup keys) &&
           existsb (λ r, cr_id r =? reward_id) (coinbase_rewards d) &&
           forallb (λ r, existsb (λ w, w_id w =? na_wallet_id r) (wallets d)) rows
        then Ret (Ok (Z.of_nat (length rows), set_share_allocations (share_allocations d ++ new) d))
        else Ret (Err Constraint)
  end.

Definition list_for_reward (reward_id : Z) (d : Db) : list ShareAllocation :=
  stable_sort (λ x y, f64_le (sa_weight y) (sa_weight x))
    (List.filter (λ a, sa_coinbase_reward_id a =? reward_id) (share_allocations d)).

Definition allocation_list_for_wallet (wallet_id n : Z) (d : Db) : list ShareAllocation :=
  limit n (stable_sort (λ x y, sa_computed_at y <=? sa_computed_at x)
    (List.filter (λ a, sa_wallet_id a =? wallet_id) (share_allocations d))).

Definition latest_applied_tier_for_wallet (wallet_id : Z) (d : Db) : option WalletTier :=
  sa_applied_tier <$> head (stable_sort
    (λ x y, (sa_computed_at y <? sa_computed_at x) ||
            ((sa_computed_at x =? sa_computed_at y) && (sa_id y <=? sa_id x)))
    (List.filter (λ a, sa_wallet_id a =? wallet_id) (share_allocations d))).

Definition pending_balance_for_wallet (wallet_id : Z) (d : Db) : result DbError Z :=
  to_bigint (allocated wallet_id d).

(** ** block.rs *)

Definition block_check (b : Block) : bool :=
  (0 <=? bl_daa_score b) &&
  match bl_blue_score b with None => true | Some s => 0 <=? s end &&
  match bl_miner_reward_sompi b with None => true | Some s => 0 <=? s end &&
  opt_le (bl_submitted_at b) (bl_found_at b) &&
  match bl_confirmed_at b, bl_submitted_at b with
  | None, _ => true | Some c, Some s => s <=? c | Some _, None => false
  end &&
  match bl_matured_at b, bl_confirmed_at b with
  | None, _ => true | Some m, Some c => c <=? m | Some _, None => false
  end.

Definition bl_with (blue : option Z) (st : BlockStatus) (su co ma rw : option Z) (b : Block) : Block :=
  {| bl_id := bl_id b; bl_finder_wallet_id := bl_finder_wallet_id b;
     bl_finder_worker_id := bl_finder_worker_id b; bl_nonce := bl_nonce b; bl_hash := bl_hash b;
     bl_daa_score := bl_daa_score b; bl_blue_score := blue; bl_status := st; bl_found_at := bl_found_at b;
     bl_submitted_at := su; bl_confirmed_at := co; bl_matured_at := ma; bl_miner_reward_sompi := rw;
     bl_correlation_id := bl_correlation_id b |}.

Definition new_block (id hash wallet worker daa nonce correlation_id now : Z) : Block :=
  {| bl_id := id; bl_finder_wallet_id := wallet; bl_finder_worker_id := worker;
     bl_nonce := u64_as_i64 nonce; bl_hash := hash; bl_daa_score := u64_as_i64 daa;
     bl_blue_score := None; bl_status := Found; bl_found_at := now; bl_submitted_at := None;
     bl_confirmed_at := None; bl_matured_at := None; bl_miner_reward_sompi := None;
     bl_correlation_id := correlation_id |}.

(** The worker foreign key is checked against the ids passed by the caller, which the [worker]
    table holds; it is not part of this model. *)
Definition block_insert (hash wallet worker daa nonce correlation_id now : Z) (d : Db) : result DbError (Z * Db) :=
  let row := new_block (next_id bl_id (blocks d)) hash wallet worker daa nonce correlation_id now in
  if block_check row && negb (existsb (λ b, bl_hash b =? hash) (blocks d)) &&
     existsb (λ w, w_id w =? wallet) (wallets d)
  then Ok (bl_id row, set_blocks (blocks d ++ [row]) d) else Err Constraint.

Definition block_ensure (hash wallet worker daa nonce correlation_id now : Z) (d : Db)
    : result DbError ((Z * EnsureOutcome) * Db) :=
  let row := new_block (next_id bl_id (blocks d)) hash wallet worker daa nonce correlation_id now in
  if block_check row then
    match List.find (λ b, bl_hash b =? hash) (blocks d) with
    | Some b => Ok ((bl_id b, AlreadyExisted), d)
    | None =>
        if existsb (λ w, w_id w =? wallet) (wallets d)
        then Ok ((bl_id row, Inserted), set_blocks (blocks d ++ [row]) d) else Err Constraint
    end
  else Err Constraint.

Definition find_by_hash (hash : Z) (d : Db) : option Block :=
  List.find (λ b, bl_hash b =? hash) (blocks d).

Definition update_blocks p f (d : Db) : result DbError Db :=
  l ← update_checked block_check p f (blocks d); Ok (set_blocks l d).

Definition mark_submitted (hash now : Z) : Db → result DbError Db :=
  update_blocks (λ b, (bl_hash b =? hash) && status_in (bl_status b) [Found; SubmittedToNode])
    (λ b, bl_with (bl_blue_score b) SubmittedToNode (coalesce (bl_submitted_at b) now)
            (bl_confirmed_at b) (bl_matured_at b) (bl_miner_reward_sompi b) b).

(** [COALESCE($2, blue_score)]: the argument wins when present. *)
Definition mark_confirmed_blue (hash : Z) (blue_score : option Z) (now : Z) : Db → result DbError Db :=
  update_blocks (λ b, (bl_hash b =? hash) && status_in (bl_status b) [SubmittedToNode; ConfirmedBlue])
    (λ b, bl_with (match blue_score with Some s => Some s | None => bl_blue_score b end) ConfirmedBlue
            (bl_submitted_at b) (coalesce (bl_confirmed_at b) now) (bl_matured_at b)
            (bl_miner_reward_sompi b) b).

Definition mark_matured (hash miner_reward_sompi now : Z) : Db → result DbError Db :=
  update_blocks (λ b, (bl_hash b =? hash) && status_in (bl_status b) [ConfirmedBlue; Matured])
    (λ b, bl_with (bl_blue_score b) Matured (bl_submitted_at b) (bl_confirmed_at b)
            (coalesce (bl_matured_at b) now) (Some miner_reward_sompi) b).

Definition mark_orphaned (hash : Z) : Db → result DbError Db :=
  update_blocks (λ b, (bl_hash b =? hash) && negb (status_in (bl_status b) [Matured]))
    (λ b, bl_with (bl_blue_score b) Orphaned (bl_submitted_at b) (bl_confirmed_at b)
            (bl_matured_at b) (bl_miner_reward_sompi b) b).

Definition list_recent (n : Z) (before_id : option Z) (d : Db) : list Block :=
  limit n (stable_sort (λ x y, bl_id y <=? bl_id x)
    (List.filter (λ b, before before_id (bl_id b)) (blocks d))).

Definition total_count (d : Db) : Z := Z.of_nat (length (blocks d)).

(** One pair per status that occurs. *)
Definition count_by_status (d : Db) : list (BlockStatus * Z) :=
  List.filter (λ '(_, n), 0 <? n)
    (map (λ s, (s, Z.of_nat (length (List.filter (λ b, bool_decide (bl_status b = s)) (blocks d)))))
       [Found; SubmittedToNode; ConfirmedBlue; Matured; Orphaned]).

Definition list_by_status (statuses : list BlockStatus) (n : Z) (d : Db) : list Block :=
  limit n (stable_sort (λ x y, bl_found_at x <=? bl_found_at y)
    (List.filter (λ b, status_in (bl_status b) statuses) (blocks d))).
