(* ===== verification/Api.v ===== *)
(** * The read-only API (api/src)

    Amounts on the wire (money.rs), query parameters (params.rs),
    configuration (config.rs), errors (error.rs with the classification of
    crates/katpool-db/src/error.rs), readiness (state.rs, handlers/health.rs)
    and the paged lists of handlers/pool.rs and handlers/miner.rs.  Text is a
    list of code points; instants are nanoseconds.  The response
    bodies are in ApiViews and the response cache in ApiCache. *)

From S2P Require Import Prelude Float64 Mass Db PayoutRepo PayoutSpec DupGuard Domain Events Bytes Hasher MiningState Stratum Listener KaspaApi AccountRepo.
Local Open Scope Z_scope.

(** ** Amounts *)

Definition KAS_DECIMALS : nat := 8.

(** [k] decimal digits of [n], the last ones. *)
Fixpoint fixed_digits (k : nat) (n : Z) : list Z :=
  match k with O => [] | S k => fixed_digits k (n / 10) ++ [48 + n mod 10] end.
(** [u64::to_string]; twenty digits hold every u64. *)
Definition u64_to_string (n : Z) : list Z :=
  match trim_start_matches 48 (fixed_digits 20 n) with [] => [48] | s => s end.
Definition trim_end_matches (c : Z) (s : list Z) : list Z := rev (trim_start_matches c (rev s)).
Definition i64_to_string (n : Z) : list Z := (if n <? 0 then [45] else []) ++ u64_to_string (Z.abs n).

(** [10_u64.pow(decimals)]. *)
Definition u64_pow10 (decimals : nat) : exec Z := if 10 ^ Z.of_nat decimals <=? u64_max then Ret (10 ^ Z.of_nat decimals) else Panic.

Definition scaled_decimal_string (units : Z) (decimals : nat) : exec (list Z) :=
  divisor ← u64_pow10 decimals;
  let negative := units <? 0 in
  let magnitude := Z.abs units in
  let whole := magnitude / divisor in
  let frac := magnitude mod divisor in
  let sign := if negative then [45] else [] in
  if frac =? 0 then mret (sign ++ u64_to_string whole)
  else
    let frac_full := fixed_digits decimals frac in
    let frac_trimmed := trim_end_matches 48 frac_full in
    mret (sign ++ u64_to_string whole ++ [46] ++ frac_trimmed).

Definition kas_string (sompi : Z) : exec (list Z) := scaled_decimal_string sompi KAS_DECIMALS.

Record KasAmount := { sompi : list Z; kas : list Z }.
Definition KasAmount_from_sompi (n : Z) : exec KasAmount :=
  kas ← scaled_decimal_string n KAS_DECIMALS; mret {| sompi := i64_to_string n; kas := kas |}.

(** ** Errors *)

(** [sqlx::Error] as far as it is told apart. *)
Inductive SqlxError := RowNotFound | SqlxIo | SqlxTls | PoolClosed | PoolTimedOut | SqlxDatabase (code : option string) | SqlxOther.
Inductive DbFailure :=
| DbConnection | DbConstraint (sqlstate : option string) | DbNotFound | DbMigration | DbConfig (message : string)
| DbAcquireTimeout | DbOther.

Definition DbError_from_sqlx (e : SqlxError) : DbFailure :=
  match e with
  | RowNotFound => DbNotFound
  | SqlxIo | SqlxTls | PoolClosed => DbConnection
  | PoolTimedOut => DbAcquireTimeout
  | SqlxDatabase code => DbConstraint code
  | SqlxOther => DbOther
  end.
Definition is_transient (e : DbFailure) : bool := match e with DbConnection | DbAcquireTimeout => true | _ => false end.
Definition sqlstate_of (e : DbFailure) : option string := match e with DbConstraint s => s | _ => None end.

Definition SQLSTATE_QUERY_CANCELED : string := "57014".
Inductive ApiError := ApiNotFound | BadRequest (message : string) | Unavailable | ApiTimeout | Internal.

Definition status (e : ApiError) : Z :=
  match e with ApiNotFound => 404 | BadRequest _ => 400 | Unavailable | ApiTimeout => 503 | Internal => 500 end.
Definition code (e : ApiError) : string :=
  match e with
  | ApiNotFound => "not_found" | BadRequest _ => "bad_request" | Unavailable => "unavailable"
  | ApiTimeout => "timeout" | Internal => "internal"
  end.
Definition api_message (e : ApiError) : string :=
  match e with
  | ApiNotFound => "not found" | BadRequest m => m | Unavailable => "service unavailable"
  | ApiTimeout => "query timed out" | Internal => "internal error"
  end.

Definition ApiError_from_db (e : DbFailure) : ApiError :=
  match e with
  | DbNotFound => ApiNotFound
  | DbConnection | DbAcquireTimeout => Unavailable
  | DbConstraint s => if bool_decide (s = Some SQLSTATE_QUERY_CANCELED) then ApiTimeout else Internal
  | DbConfig message => BadRequest message
  | DbMigration | DbOther => Internal
  end.

(** Status, code and message of the response. *)
Definition into_response (e : ApiError) : Z * string * string := (status e, code e, api_message e).

(** ** Parameters *)

Definition DEFAULT_WINDOW : Z := 600.
Definition MAX_WINDOW : Z := 24 * 60 * 60.
Definition DEFAULT_PAGE_SIZE : Z := 25.
Definition MAX_PAGE_SIZE : Z := 100.
Definition MAX_SERIES_POINTS : Z := 1000.
Definition DEFAULT_RANGE_SECS : Z := 24 * 60 * 60.
Definition NANOS : Z := 1000000000.

Inductive Bucket := OneMinute | FiveMinutes | OneHour | OneDay.
Definition seconds (b : Bucket) : Z :=
  match b with OneMinute => 60 | FiveMinutes => 300 | OneHour => 3600 | OneDay => 86400 end.
Definition Bucket_parse (raw : string) : result ApiError Bucket :=
  if String.eqb raw "1m" then Ok OneMinute
  else if String.eqb raw "5m" then Ok FiveMinutes
  else if String.eqb raw "1h" then Ok OneHour
  else if String.eqb raw "1d" then Ok OneDay
  else Err (BadRequest ("invalid bucket `" +:+ raw +:+ "`: expected one of 1m, 5m, 1h, 1d")).

(** Durations in seconds. *)
Definition window (w : option Z) : result ApiError Z :=
  match w with
  | None => Ok DEFAULT_WINDOW
  | Some secs => if secs =? 0 then Err (BadRequest "window must be > 0") else Ok (Z.min secs MAX_WINDOW)
  end.

Definition clamp (lo hi x : Z) : Z := if x <? lo then lo else if hi <? x then hi else x.

Definition leaderboard (w lim : option Z) : result ApiError (Z * Z) :=
  win ← window w; mret (win, clamp 1 MAX_PAGE_SIZE (default DEFAULT_PAGE_SIZE lim)).

Record PageParams := { pp_limit : option Z; pp_before : option Z }.
Record Page := { page_limit : Z; before_id : option Z }.
Definition page (params : PageParams) : result ApiError Page :=
  let lim := clamp 1 MAX_PAGE_SIZE (default DEFAULT_PAGE_SIZE (pp_limit params)) in
  match pp_before params with
  | Some before => if before <=? 0 then Err (BadRequest "before cursor must be a positive id")
                   else Ok {| page_limit := lim; before_id := Some before |}
  | None => Ok {| page_limit := lim; before_id := None |}
  end.

(** [DateTime::parse_from_rfc3339], as an instant. *)
Class Chrono := { parse_from_rfc3339 : string → option Z }.

Definition parse_rfc3339 `{!Chrono} (raw field : string) : result ApiError Z :=
  match parse_from_rfc3339 raw with
  | Some t => Ok t
  | None => Err (BadRequest ("`" +:+ field +:+ "` must be an RFC3339 timestamp"))
  end.

Record RangeParams := { rp_from : option string; rp_to : option string; rp_bucket : option string }.
Record Range := { range_from : Z; range_until : Z; range_bucket : Bucket }.
Definition num_seconds (d : Z) : Z := Z.quot d NANOS.

(** The text of the last error is shortened: the source adds the numbers. *)
Definition range `{!Chrono} (now : Z) (params : RangeParams) : result ApiError Range :=
  until ← match rp_to params with Some raw => parse_rfc3339 raw "to" | None => Ok now end;
  from ← match rp_from params with Some raw => parse_rfc3339 raw "from" | None => Ok (until - DEFAULT_RANGE_SECS * NANOS) end;
  bucket ← match rp_bucket params with Some raw => Bucket_parse raw | None => Ok OneHour end;
  if until <=? from then Err (BadRequest "`to` must be after `from`")
  else
    let points := Z.quot (num_seconds (until - from)) (seconds bucket) in
    if MAX_SERIES_POINTS <? points then Err (BadRequest "range too large")
    else Ok {| range_from := from; range_until := until; range_bucket := bucket |}.

Definition parse_address (raw : string) : result ApiError string :=
  match WalletAddress_new raw with Ok a => Ok a | Err _ => Err (BadRequest "invalid wallet address") end.

(** ** Configuration *)

(** Durations in seconds. *)
Record ApiConfig := {
  rate_per_second : Z; rate_burst : Z; request_timeout : Z; pool_cache_ttl : Z; wallet_cache_ttl : Z;
  cors_allow_origin : option (list Z);
  mps_pool_name : list Z; mps_url : list Z; mps_country : list Z; mps_fee_type : list Z;
  mps_fee_bps : Z; mps_min_pay_kas : Z; mps_pool_address : list Z; mps_ad_image_link : list Z }.

Definition ApiConfig_default : ApiConfig :=
  {| rate_per_second := 5; rate_burst := 20; request_timeout := 10; pool_cache_ttl := 10; wallet_cache_ttl := 5;
     cors_allow_origin := None;
     mps_pool_name := codes "Kat Pool"; mps_url := codes "app.katpool.com"; mps_country := codes "US"; mps_fee_type := codes "PROP";
     mps_fee_bps := 50; mps_min_pay_kas := 10; mps_pool_address := [];
     mps_ad_image_link := codes "https://app.katpool.xyz/images/katpoolad.gif" |}.

Fixpoint digits_val (acc : Z) (s : list Z) : option Z :=
  match s with
  | [] => Some acc
  | c :: s => if between 48 57 c then digits_val (10 * acc + (c - 48)) s else None
  end.
Definition some_digits (s : list Z) : option Z := match s with [] => None | _ => digits_val 0 s end.

(** [str::parse] to an integer of the given range: a sign (minus only where the type has one),
    then digits. *)
Definition parse_int (lo hi : Z) (raw : list Z) : option Z :=
  v ← match raw with
      | 43 :: r => some_digits r
      | 45 :: r => if lo <? 0 then Z.opp <$> some_digits r else None
      | _ => some_digits raw
      end;
  if (lo <=? v) && (v <=? hi) then Some v else None.

(** The key that did not parse, or the setting that is zero. *)
Inductive ApiConfigError := InvalidValue (key : string) (raw : list Z) | MustBePositive (key : string).

Definition parse_setting (lookup : string → option (list Z)) (key : string) (lo hi dflt : Z) : result ApiConfigError Z :=
  match lookup key with
  | None => Ok dflt
  | Some raw => match parse_int lo hi raw with Some v => Ok v | None => Err (InvalidValue key raw) end
  end.
(** [set_str]: blank values are ignored. *)
Definition set_str (slot : list Z) (raw : option (list Z)) : list Z :=
  match raw with
  | None => slot
  | Some v => match trim v with [] => slot | t => t end
  end.
Fixpoint before_comma (s : list Z) : list Z :=
  match s with [] => [] | c :: s => if c =? 44 then [] else c :: before_comma s end.

Definition validate (c : ApiConfig) : result ApiConfigError unit :=
  if rate_per_second c =? 0 then Err (MustBePositive "KATPOOL_API_RATE_PER_SECOND")
  else if rate_burst c =? 0 then Err (MustBePositive "KATPOOL_API_RATE_BURST")
  else if request_timeout c =? 0 then Err (MustBePositive "KATPOOL_API_REQUEST_TIMEOUT_SECS")
  else Ok tt.

Definition ApiConfig_from_lookup (lookup : string → option (list Z)) : result ApiConfigError ApiConfig :=
  let d := ApiConfig_default in
  rate ← parse_setting lookup "KATPOOL_API_RATE_PER_SECOND" 0 u64_max (rate_per_second d);
  burst ← parse_setting lookup "KATPOOL_API_RATE_BURST" 0 u32_max (rate_burst d);
  timeout ← parse_setting lookup "KATPOOL_API_REQUEST_TIMEOUT_SECS" 0 u64_max (request_timeout d);
  pool_ttl ← parse_setting lookup "KATPOOL_API_POOL_CACHE_TTL_SECS" 0 u64_max (pool_cache_ttl d);
  wallet_ttl ← parse_setting lookup "KATPOOL_API_WALLET_CACHE_TTL_SECS" 0 u64_max (wallet_cache_ttl d);
  let cors := lookup "KATPOOL_API_CORS_ALLOW_ORIGIN" ≫= λ raw, match trim raw with [] => None | t => Some t end in
  fee_bps ← parse_setting lookup "KATPOOL_MPS_FEE_BPS" 0 u32_max (mps_fee_bps d);
  min_pay ← parse_setting lookup "KATPOOL_MPS_MIN_PAY_KAS" i64_min i64_max (mps_min_pay_kas d);
  let c := {| rate_per_second := rate; rate_burst := burst; request_timeout := timeout; pool_cache_ttl := pool_ttl;
     wallet_cache_ttl := wallet_ttl; cors_allow_origin := cors;
     mps_pool_name := set_str (mps_pool_name d) (lookup "KATPOOL_MPS_POOL_NAME");
     mps_url := set_str (mps_url d) (lookup "KATPOOL_MPS_URL");
     mps_country := set_str (mps_country d) (lookup "KATPOOL_MPS_COUNTRY");
     mps_fee_type := set_str (mps_fee_type d) (lookup "KATPOOL_MPS_FEE_TYPE");
     mps_fee_bps := fee_bps; mps_min_pay_kas := min_pay;
     mps_pool_address := set_str (mps_pool_address d) (before_comma <$> lookup "KATPOOL_POOL_ADDRESS");
     mps_ad_image_link := set_str (mps_ad_image_link d) (lookup "KATPOOL_MPS_AD_IMAGE_LINK") |} in
  _ ← validate c;
  mret c.

(** ** Readiness *)

Record ReadinessInner := { db_reachable : bool; kaspad_synced : bool; started : bool }.
Definition ReadinessHandle_new : ReadinessInner := {| db_reachable := false; kaspad_synced := false; started := false |}.
Definition set_db_reachable (value : bool) (r : ReadinessInner) : ReadinessInner :=
  {| db_reachable := value; kaspad_synced := kaspad_synced r; started := started r |}.
Definition set_kaspad_synced (value : bool) (r : ReadinessInner) : ReadinessInner :=
  {| db_reachable := db_reachable r; kaspad_synced := value; started := started r |}.
Definition mark_started (r : ReadinessInner) : ReadinessInner :=
  {| db_reachable := db_reachable r; kaspad_synced := kaspad_synced r; started := true |}.
Definition is_ready (r : ReadinessInner) : bool := db_reachable r && kaspad_synced r.
(** The status codes of [/ready] and [/started]. *)
Definition ready_status (r : ReadinessInner) : Z := if is_ready r then 200 else 503.
Definition started_status (r : ReadinessInner) : Z := if started r then 200 else 503.

(** ** Paged lists *)

(** The rows of a page and the cursor of the next. *)
Definition next_cursor (returned : nat) (lim : Z) (last_id : option Z) : option Z :=
  if lim <=? Z.of_nat returned then last_id else None.

Definition page_rows {A} (row_id : A → Z) (query : Z → option Z → list A) (p : Page) : list A * option Z :=
  let rows := query (page_limit p) (before_id p) in
  (rows, next_cursor (length rows) (page_limit p) (row_id <$> last rows)).
(** A handler that lists rows by descending id: [blocks], [payouts] of the pool and of a miner. *)
Definition paged {A} (row_id : A → Z) (query : Z → option Z → list A) (params : PageParams)
    : result ApiError (list A * option Z) :=
  p ← page params;
  mret (page_rows row_id query p).

Definition pool_blocks (d : Db) : PageParams → result ApiError (list Block * option Z) :=
  paged bl_id (λ n b, list_recent n b d).
Definition pool_payouts (d : Db) : PageParams → result ApiError (list PayoutCycle * option Z) :=
  paged pc_id (λ n b, list_recent_cycles n b d).
(** [require_wallet] answers 404 for an address without a wallet row. *)
Definition miner_payouts (d : Db) (raw : string) (params : PageParams) : result ApiError (list WalletPayout * option Z) :=
  addr ← parse_address raw;
  p ← page params;
  match List.find (λ w, bool_decide (w_address w = addr)) (wallets d) with
  | None => Err ApiNotFound
  | Some w => paged (po_id ∘ wp_payout) (λ n b, list_for_wallet_detailed (w_id w) n b d) params
  end.

(** ** Reading an amount back *)

(** A reader of decimal amounts, as a client of the API would have it. *)
Definition read_digits (decimals : nat) (whole frac : list Z) : option Z :=
  w ← some_digits whole;
  f ← digits_val 0 (frac ++ replicate (decimals - length frac) 48);
  Some (w * 10 ^ Z.of_nat decimals + f).
Fixpoint split_point (s : list Z) : list Z * list Z :=
  match s with
  | [] => ([], [])
  | c :: s => if c =? 46 then ([], s) else let '(a, b) := split_point s in (c :: a, b)
  end.
Definition read_unsigned (decimals : nat) (s : list Z) : option Z := let '(w, f) := split_point s in read_digits decimals w f.
Definition read_decimal (decimals : nat) (s : list Z) : option Z :=
  match s with
  | c :: s' => if c =? 45 then Z.opp <$> read_unsigned decimals s' else read_unsigned decimals s
  | [] => None
  end.

Definition is_digit (c : Z) : Prop := 48 ≤ c ≤ 57.

Lemma digits_val_app acc a b : digits_val acc (a ++ b) = digits_val acc a ≫= λ v, digits_val v b.
Proof. revert acc. induction a as [|c a IH]; intros acc; simpl; [done|]. case_bool; [apply IH|done]. Qed.

Lemma fixed_digits_digits k n : Forall is_digit (fixed_digits k n).
Proof.
  revert n. induction k as [|k IH]; intros n; simpl; [constructor|]. apply Forall_app. split; [apply IH|]. constructor; [|constructor].
  unfold is_digit. pose proof (Z.mod_pos_bound n 10). lia.
Qed.

Lemma length_fixed_digits k n : length (fixed_digits k n) = k.
Proof. revert n. induction k as [|k IH]; intros n; simpl; [done|]. rewrite length_app, IH. simpl. lia. Qed.

Lemma digits_val_fixed k n acc : 0 ≤ n → digits_val acc (fixed_digits k n) = Some (acc * 10 ^ Z.of_nat k + n mod 10 ^ Z.of_nat k).
Proof.
  revert n acc. induction k as [|k IH]; intros n acc Hn; simpl fixed_digits.
  - simpl. by rewrite Z.mod_1_r, Z.mul_1_r, Z.add_0_r.
  - rewrite digits_val_app, IH by (apply Z.div_pos; lia). rewrite Nat2Z.inj_succ, Z.pow_succ_r by lia.
    cbn [mbind option_bind digits_val]. pose proof (Z.mod_pos_bound n 10 ltac:(lia)) as Hm.
    unfold between. rewrite (proj2 (Z.leb_le 48 _)), (proj2 (Z.leb_le _ 57)) by lia. simpl. f_equal.
    rewrite Z.rem_mul_r by lia. lia.
Qed.

(** Leading zeros do not matter. *)
Lemma digits_val_trim s : digits_val 0 (trim_start_matches 48 s) = digits_val 0 s.
Proof. induction s as [|c s IH]; simpl; [done|]. destruct (Z.eqb_spec c 48) as [->|]; [|done]. rewrite IH. done. Qed.

Lemma u64_to_string_spec n : 0 ≤ n ≤ u64_max → some_digits (u64_to_string n) = Some n ∧ Forall is_digit (u64_to_string n).
Proof.
  intros Hn. unfold u64_to_string. pose proof (digits_val_trim (fixed_digits 20 n)) as Hv. rewrite digits_val_fixed in Hv by lia.
  rewrite Z.mod_small in Hv by (unfold u64_max in Hn; simpl; lia). rewrite Z.mul_0_l, Z.add_0_l in Hv. destruct (trim_start_matches_suffix 48 (fixed_digits 20 n)) as [p Hp].
  pose proof (fixed_digits_digits 20 n) as Hf. rewrite Hp in Hf. apply Forall_app in Hf as [_ Hf].
  destruct (trim_start_matches 48 (fixed_digits 20 n)) as [|c s]; simpl in Hv.
  - injection Hv as <-. split; [done|]. constructor; [unfold is_digit; lia|constructor].
  - split; [done|done].
Qed.

(** The zeros [trim_end_matches] drops are the zeros a reader adds. *)
Lemma trim_start_replicate c s : ∃ m, s = replicate m c ++ trim_start_matches c s.
Proof. induction s as [|d s [m Hm]]; simpl; [by exists 0%nat|]. destruct (Z.eqb_spec d c) as [->|]; [|by exists 0%nat]. exists (S m). simpl. by f_equal. Qed.

Lemma trim_end_pad c k s : length s = k → trim_end_matches c s ++ replicate (k - length (trim_end_matches c s)) c = s.
Proof.
  intros Hk. unfold trim_end_matches. destruct (trim_start_replicate c (rev s)) as [m Hm].
  assert (rev (trim_start_matches c (rev s)) ++ replicate m c = s) as Hs.
  { rewrite <- (rev_involutive s) at 2. rewrite Hm at 2. rewrite rev_app_distr. f_equal.
    clear. induction m as [|m IH]; [done|]. simpl rev. rewrite <- IH. by rewrite <- replicate_cons_app. }
  rewrite <- Hs at 3. do 2 f_equal. apply (f_equal length) in Hs. rewrite length_app, length_replicate in Hs. lia.
Qed.

Lemma split_point_digits w f : Forall is_digit w → split_point (w ++ 46 :: f) = (w, f) ∧ split_point w = (w, []).
Proof.
  induction 1 as [|c w Hc _ [IH1 IH2]]; simpl; [done|]. unfold is_digit in Hc. rewrite (proj2 (Z.eqb_neq c 46)) by lia.
  by rewrite IH1, IH2.
Qed.

(** The whole part starts with a digit, so a minus sign is only the amount's own. *)
Lemma read_decimal_sign decimals w r negative : w ≠ [] → Forall is_digit w →
  read_decimal decimals ((if negative : bool then [45] else []) ++ w ++ r) =
    (if negative then Z.opp else id) <$> read_unsigned decimals (w ++ r).
Proof.
  intros Hne Hw. destruct w as [|c w]; [done|]. apply Forall_cons in Hw as [Hc _]. destruct negative; [done|].
  cbn [app read_decimal]. unfold is_digit in Hc. rewrite (proj2 (Z.eqb_neq c 45)) by lia. by rewrite option_fmap_id.
Qed.

Lemma trim_end_last c s : last (trim_end_matches c s) ≠ Some c.
Proof.
  unfold trim_end_matches. assert (∀ l : list Z, last (rev l) = head l) as Hl by (intros []; [done|]; simpl; apply last_snoc).
  rewrite Hl. induction (rev s) as [|d s' IH]; simpl; [done|].
  destruct (Z.eqb_spec d c); [done|]. simpl. congruence.
Qed.

Lemma last_nonempty_app {A} (a b : list A) : b ≠ [] → last (a ++ b) = last b.
Proof. intros Hb. destruct (exists_last Hb) as (b' & x & ->). by rewrite (assoc_L (++)), !last_snoc. Qed.

Lemma last_Some_elem {A} (l : list A) x : last l = Some x → x ∈ l.
Proof. intros [l' ->]%last_Some. set_solver. Qed.

Lemma sign_no_point (b : bool) : 46 ∉ (if b then [45] else []).
Proof. destruct b; set_solver. Qed.

Lemma trim_end_nonzero k n : 0 < n < 10 ^ Z.of_nat k → trim_end_matches 48 (fixed_digits k n) ≠ [].
Proof.
  intros Hn He. pose proof (trim_end_pad 48 k (fixed_digits k n) (length_fixed_digits k n)) as Hp. rewrite He in Hp.
  pose proof (digits_val_fixed k n 0 ltac:(lia)) as Hv. rewrite <- Hp, Z.mod_small in Hv by lia. simpl in Hv.
  assert (∀ m, digits_val 0 (replicate m 48) = Some 0) as Hz by (clear; induction m; done). rewrite Hz in Hv. injection Hv. lia.
Qed.

Lemma scaled_decimal_reads units decimals : i64_min ≤ units ≤ i64_max → (decimals ≤ 19)%nat →
  ∃ s, scaled_decimal_string units decimals = Ret s ∧ read_decimal decimals s = Some units ∧
    last s ≠ Some 46 ∧ (46 ∈ s → last s ≠ Some 48).
Proof.
  intros Hu Hd. unfold scaled_decimal_string, u64_pow10. pose proof (Z.pow_pos_nonneg 10 (Z.of_nat decimals) ltac:(lia) ltac:(lia)) as Hpos.
  pose proof (Z.pow_le_mono_r 10 (Z.of_nat decimals) 19 ltac:(lia) ltac:(lia)) as Hle.
  rewrite (proj2 (Z.leb_le _ u64_max)) by (unfold u64_max; lia). cbn [mbind exec_bind]. set (p := 10 ^ Z.of_nat decimals) in *.
  assert (0 ≤ Z.abs units / p ≤ u64_max) as Hw.
  { split; [apply Z.div_pos; lia|]. pose proof (Z.div_le_upper_bound (Z.abs units) p u64_max Hpos) as Hb. apply Hb.
    unfold i64_min, i64_max, u64_max in *. nia. }
  destruct (u64_to_string_spec _ Hw) as [Hv Hf]. pose proof (Z.div_mod (Z.abs units) p ltac:(lia)) as Hdm.
  pose proof (Z.mod_pos_bound (Z.abs units) p Hpos) as Hm.
  assert (u64_to_string (Z.abs units / p) ≠ []) as Hne by (intros He; by rewrite He in Hv).
  assert ((if units <? 0 then Z.opp else id) (Z.abs units) = units) as Hsign by (destruct (Z.ltb_spec units 0); simpl; lia).
  destruct (Z.eqb_spec (Z.abs units mod p) 0) as [Hz|Hz].
  - eexists. split; [reflexivity|]. pose proof (read_decimal_sign decimals _ [] (units <? 0) Hne Hf) as Hr. rewrite app_nil_r in Hr.
    assert (46 ∉ (if units <? 0 then [45] else []) ++ u64_to_string (Z.abs units / p)) as Hno.
    { rewrite not_elem_of_app. split; [apply sign_no_point|]. intros Hin. rewrite Forall_forall in Hf.
      apply Hf in Hin. unfold is_digit in Hin. lia. }
    split_and!; [|by intros H46%last_Some_elem|done]. rewrite Hr. unfold read_unsigned.
    rewrite (proj2 (split_point_digits _ [] Hf)). unfold read_digits. rewrite Hv. cbn [mbind option_bind length app].
    rewrite Nat.sub_0_r. assert (∀ m, digits_val 0 (replicate m 48) = Some 0) as -> by (clear; induction m; done).
    simpl. f_equal. etrans; [|exact Hsign]. f_equal. lia.
  - eexists. split; [reflexivity|]. set (f := trim_end_matches 48 (fixed_digits decimals (Z.abs units mod p))).
    assert (last ((if units <? 0 then [45] else []) ++ u64_to_string (Z.abs units / p) ++ [46] ++ f) = last f) as Hlast.
    { rewrite (assoc_L (++)), (assoc_L (++)). apply last_nonempty_app, trim_end_nonzero. unfold p in *. lia. }
    split_and!.
    + rewrite read_decimal_sign by done. unfold read_unsigned. simpl app at 2. rewrite (proj1 (split_point_digits _ f Hf)).
      unfold read_digits. rewrite Hv. cbn [mbind option_bind]. unfold f. rewrite trim_end_pad by apply length_fixed_digits.
      rewrite digits_val_fixed by lia. cbn [mbind option_bind]. rewrite Z.mod_small by (unfold p in *; lia). simpl. f_equal. etrans; [|exact Hsign]. f_equal. lia.
    + rewrite Hlast. intros H46%last_Some_elem. pose proof (fixed_digits_digits decimals (Z.abs units mod p)) as Hfd.
      rewrite <- (trim_end_pad 48 decimals _ (length_fixed_digits _ _)) in Hfd. apply Forall_app in Hfd as [Hfd _].
      rewrite Forall_forall in Hfd. apply Hfd in H46. unfold is_digit in H46. lia.
    + intros _. rewrite Hlast. apply trim_end_last.
Qed.

(** C33: Every i64 amount is printed exactly, at up to nineteen decimals: a reader of the text gets the
    amount back, and a fraction is never empty and never ends in a zero. *)
Theorem amounts_roundtrip units decimals : i64_min ≤ units ≤ i64_max → (decimals ≤ 19)%nat →
  ∃ s, scaled_decimal_string units decimals = Ret s ∧ read_decimal decimals s = Some units ∧
    last s ≠ Some 46 ∧ (46 ∈ s → last s ≠ Some 48).
Proof. apply scaled_decimal_reads. Qed.

(** ** Walking the pages *)

(** What a paged query promises: a page is a prefix of the rows below the cursor, by strictly
    descending positive ids. *)
Class Keyset {A} (row_id : A → Z) (query : Z → option Z → list A) (all : list A) : Prop := {
  keyset_sorted : StronglySorted (λ x y, row_id y < row_id x) all;
  keyset_positive : Forall (λ x, 0 < row_id x) all;
  keyset_page n b : query n b = take (Z.to_nat n) (List.filter (λ x, before b (row_id x)) all) }.

(** A client that follows the cursors; it stops at an error or when the fuel is used up. *)
Fixpoint fetch_all {A} (handler : PageParams → result ApiError (list A * option Z)) (fuel : nat) (lim cursor : option Z) : option (list A) :=
  match fuel with
  | O => None
  | S fuel =>
      match handler {| pp_limit := lim; pp_before := cursor |} with
      | Ok (rows, None) => Some rows
      | Ok (rows, Some c) => (λ rest, rows ++ rest) <$> fetch_all handler fuel lim (Some c)
      | Err _ => None
      end
  end.

Section keyset.
Context {A : Type} (row_id : A → Z) (query : Z → option Z → list A) (all : list A) `{!Keyset row_id query all}.

(** [rest] is what is still to be fetched at a cursor. *)
Definition remaining (cursor : option Z) (rest : list A) : Prop :=
  List.filter (λ x, before cursor (row_id x)) all = rest ∧ ∃ fetched, all = fetched ++ rest ∧
  match cursor with None => fetched = [] | Some c => 0 < c end.

Lemma filter_below fetched x rest : all = fetched ++ x :: rest → List.filter (λ y, before (Some (row_id x)) (row_id y)) all = rest.
Proof.
  intros Hall. pose proof keyset_sorted as Hs. rewrite Hall in Hs |- *. clear Hall. induction fetched as [|y fetched IH]; simpl in *.
  - rewrite Z.ltb_irrefl. apply StronglySorted_inv in Hs as [_ Hx]. apply retain_all. eapply Forall_impl; [exact Hx|].
    intros y Hy. by apply Z.ltb_lt.
  - apply StronglySorted_inv in Hs as [Hs Hy]. apply Forall_app in Hy as [_ Hy]. apply Forall_cons in Hy as [Hy _].
    rewrite (proj2 (Z.ltb_ge _ _)) by lia. by apply IH.
Qed.

Lemma fetch_all_remaining lim cursor rest fuel : remaining cursor rest → (length rest < fuel)%nat →
  fetch_all (paged row_id query) fuel lim cursor = Some rest.
Proof.
  revert cursor rest. induction fuel as [|fuel IH]; intros cursor rest [Hf (fetched & Hall & Hc)] Hlen; [lia|]. simpl.
  set (n := clamp 1 MAX_PAGE_SIZE (default DEFAULT_PAGE_SIZE lim)).
  assert (1 ≤ n) as Hn by (unfold n, clamp, MAX_PAGE_SIZE; repeat case_match; lia).
  assert (paged row_id query {| pp_limit := lim; pp_before := cursor |} =
    Ok (take (Z.to_nat n) rest, next_cursor (length (take (Z.to_nat n) rest)) n (row_id <$> last (take (Z.to_nat n) rest)))) as ->.
  { unfold paged, page. simpl. fold n. destruct cursor as [c|]; [rewrite (proj2 (Z.leb_gt c 0)) by done|]; unfold page_rows; simpl; by rewrite keyset_page, Hf. }
  unfold next_cursor. destruct (Z.leb_spec n (Z.of_nat (length (take (Z.to_nat n) rest)))) as [Hge|Hlt].
  - rewrite length_take in Hge. destruct (exists_last (l:=take (Z.to_nat n) rest)) as (rows & x & Hx).
    { intros He. apply (f_equal length) in He. rewrite length_take in He. simpl in He. lia. }
    rewrite Hx, last_snoc. simpl. pose proof (take_drop (Z.to_nat n) rest) as Htd. rewrite Hx in Htd.
    rewrite (IH (Some (row_id x)) (drop (Z.to_nat n) rest)); [by rewrite <- Htd at 2| |rewrite length_drop; lia].
    assert (all = (fetched ++ rows) ++ x :: drop (Z.to_nat n) rest) as Hall' by (rewrite Hall; rewrite <- Htd at 1; by rewrite <- !app_assoc).
    split; [by apply (filter_below (fetched ++ rows))|]. exists ((fetched ++ rows) ++ [x]). split; [by rewrite Hall', <- !app_assoc|].
    pose proof keyset_positive as Hp. rewrite Hall' in Hp. apply Forall_app in Hp as [_ Hp]. by apply Forall_cons in Hp as [? _].
  - rewrite length_take in Hlt. rewrite take_ge by lia. done.
Qed.

Lemma fetch_all_complete lim : fetch_all (paged row_id query) (S (length all)) lim None = Some all.
Proof.
  apply fetch_all_remaining; [|lia]. split; [|by exists []]. apply retain_all, Forall_true. done.
Qed.
End keyset.

Definition by_id_desc {A} (row_id : A → Z) (rows : list A) : list A := stable_sort (λ x y, row_id y <=? row_id x) rows.

Lemma desc_total {A} (row_id : A → Z) x y : (row_id y <=? row_id x) = false → (row_id x <=? row_id y) = true.
Proof. rewrite Z.leb_gt, Z.leb_le. lia. Qed.
Lemma desc_trans {A} (row_id : A → Z) x y z : (row_id y <=? row_id x) = true → (row_id z <=? row_id y) = true → (row_id z <=? row_id x) = true.
Proof. rewrite !Z.leb_le. lia. Qed.

Lemma strictly_desc {A} (row_id : A → Z) l : NoDup (map row_id l) → StronglySorted (λ a b, (row_id b <=? row_id a) = true) l →
  StronglySorted (λ x y, row_id y < row_id x) l.
Proof.
  intros Hn. induction 1 as [|x l Hl IH Hx]; [constructor|]. simpl in Hn. apply NoDup_cons in Hn as [Hnx Hn]. constructor; [by apply IH|].
  rewrite Forall_forall in Hx |- *. intros y Hy. pose proof (Hx y Hy) as Hle. apply Z.leb_le in Hle.
  assert (row_id x ≠ row_id y); [|lia]. intros He. apply Hnx. rewrite He. by apply list_elem_of_fmap_2.
Qed.

(** A table with a positive primary key, listed by descending id. *)
Lemma table_keyset {A} (row_id : A → Z) rows : NoDup (map row_id rows) → Forall (λ x, 0 < row_id x) rows →
  Keyset row_id (λ n b, limit n (by_id_desc row_id (List.filter (λ x, before b (row_id x)) rows))) (by_id_desc row_id rows).
Proof.
  intros Hn Hp. split.
  - apply strictly_desc; [|apply stable_sort_sorted; [apply desc_total|apply desc_trans]].
    unfold by_id_desc. by rewrite stable_sort_perm.
  - unfold by_id_desc. by rewrite stable_sort_perm.
  - intros n b. unfold limit, by_id_desc. f_equal. symmetry. apply stable_sort_retain; [apply desc_total|apply desc_trans].
Qed.

Lemma omap_forall {A B} (f : A → option B) (P : A → Prop) (Q : B → Prop) l :
  (∀ x y, f x = Some y → P x → Q y) → Forall P l → Forall Q (omap f l).
Proof. intros HPQ. induction 1 as [|x l Hx _ IH]; csimpl; [constructor|]. destruct (f x) eqn:E; [constructor; eauto|done]. Qed.

(** Joining in columns keeps the order and the ids. *)
Lemma joined_keyset {A B} (row_id : A → Z) (row_id' : B → Z) (f : A → option B) all : (∀ x y, f x = Some y → row_id' y = row_id x) →
  StronglySorted (λ x y, row_id y < row_id x) all → Forall (λ x, 0 < row_id x) all →
  Keyset row_id' (λ n b, limit n (omap f (List.filter (λ x, before b (row_id x)) all))) (omap f all).
Proof.
  intros Hf Hs Hp. split.
  - clear Hp. induction Hs as [|x l Hl IH Hx]; csimpl; [constructor|]. destruct (f x) as [y|] eqn:E; [|done]. constructor; [done|].
    eapply omap_forall; [|exact Hx]. intros x' y' E' Hlt. by rewrite (Hf _ _ E), (Hf _ _ E').
  - eapply omap_forall; [|exact Hp]. intros x y E. by rewrite (Hf _ _ E).
  - intros n b. unfold limit. f_equal. clear Hs Hp. induction all as [|x l IH]; csimpl; [done|].
    destruct (f x) as [y|] eqn:E; csimpl.
    + rewrite (Hf _ _ E). destruct (before b (row_id x)); csimpl; rewrite ?E; by rewrite IH.
    + destruct (before b (row_id x)); csimpl; rewrite ?E; by rewrite IH.
Qed.

Lemma fetch_all_ext {A} (h1 h2 : PageParams → result ApiError (list A * option Z)) fuel lim cursor :
  (∀ params, h1 params = h2 params) → fetch_all h1 fuel lim cursor = fetch_all h2 fuel lim cursor.
Proof. intros Heq. revert cursor. induction fuel as [|fuel IH]; intros cursor; simpl; [done|]. rewrite Heq. by repeat (case_match || rewrite IH). Qed.

Lemma filter_andb {A} (p q : A → bool) l : List.filter (λ x, p x && q x) l = List.filter q (List.filter p l).
Proof. induction l as [|x l IH]; simpl; [done|]. destruct (p x); simpl; [|done]. by rewrite IH. Qed.

Lemma NoDup_map_filter {A} (f : A → Z) (p : A → bool) l : NoDup (map f l) → NoDup (map f (List.filter p l)).
Proof. intros Hn. eapply sublist_NoDup; [exact Hn|]. apply sublist_map, retain_sublist. Qed.

Definition wallet_payout (d : Db) (p : Payout) : option WalletPayout :=
  (λ c, {| wp_payout := p; wp_kind := pc_kind c; wp_nacho_amount := kt_nacho_amount <$> transfer_of d (po_id p) |}) <$> cycle_of d p.

Lemma cycle_of_is_Some d p : po_cycle_id p ∈ map pc_id (cycles d) → is_Some (cycle_of d p).
Proof.
  intros (c & Heq & Hc)%list_elem_of_fmap. unfold cycle_of. destruct (List.find _ _) eqn:E; [done|].
  eapply find_none in E; [|by apply list_elem_of_In]. simpl in E. rewrite Heq, Z.eqb_refl in E. done.
Qed.

Lemma wallet_payouts_keyset wallet_id d : NoDup (map po_id (payouts d)) → Forall (λ p, 0 < po_id p) (payouts d) →
  Keyset (po_id ∘ wp_payout) (λ n b, list_for_wallet_detailed wallet_id n b d)
    (omap (wallet_payout d) (by_id_desc po_id (List.filter (λ p, po_wallet_id p =? wallet_id) (payouts d)))).
Proof.
  intros Hn Hp. pose proof (table_keyset po_id (List.filter (λ p, po_wallet_id p =? wallet_id) (payouts d))
    (NoDup_map_filter _ _ _ Hn)) as Hk. destruct Hk as [Hs Hpos _].
  { apply Forall_forall. intros x Hx%list_elem_of_In. apply filter_In in Hx as [Hx%list_elem_of_In _]. rewrite Forall_forall in Hp. by apply Hp. }
  destruct (joined_keyset po_id (po_id ∘ wp_payout) (wallet_payout d) _ ltac:(intros x y E; unfold wallet_payout in E;
    destruct (cycle_of d x); by simplify_eq/=) Hs Hpos) as [Hs' Hp' Hq].
  split; [done|done|]. intros n b. rewrite <- Hq. unfold list_for_wallet_detailed. do 2 f_equal. rewrite filter_andb. unfold by_id_desc.
  symmetry. apply stable_sort_retain; [apply desc_total|apply desc_trans].
Qed.

(** C32: The lists a client gets by following the cursors of the three paged endpoints, whatever page
    size it asks for: it stops, after at most one request more than there are rows, and has every
    row exactly once, newest first. *)
Theorem pages_cover d lim raw addr w : db_ok d → NoDup (map bl_id (blocks d)) →
  Forall (λ b, 0 < bl_id b) (blocks d) → Forall (λ c, 0 < pc_id c) (cycles d) → Forall (λ p, 0 < po_id p) (payouts d) →
  parse_address raw = Ok addr → List.find (λ w, bool_decide (w_address w = addr)) (wallets d) = Some w →
  fetch_all (pool_blocks d) (S (length (blocks d))) lim None = Some (by_id_desc bl_id (blocks d)) ∧
  fetch_all (pool_payouts d) (S (length (cycles d))) lim None = Some (by_id_desc pc_id (cycles d)) ∧
  ∃ rows, fetch_all (miner_payouts d raw) (S (length rows)) lim None = Some rows ∧
    map wp_payout rows = by_id_desc po_id (List.filter (λ p, po_wallet_id p =? w_id w) (payouts d)).
Proof.
  intros Hd Hb Hbp Hcp Hpp Ha Hw. split_and!.
  - pose proof (table_keyset bl_id (blocks d) Hb Hbp). rewrite <- (length_stable_sort (λ x y, bl_id y <=? bl_id x)). by apply fetch_all_complete.
  - pose proof (table_keyset pc_id (cycles d) (ok_cycle_ids _ Hd) Hcp).
    rewrite <- (length_stable_sort (λ x y, pc_id y <=? pc_id x)). by apply fetch_all_complete.
  - pose proof (wallet_payouts_keyset (w_id w) d (ok_payout_ids _ Hd) Hpp) as Hk. eexists. split.
    + erewrite fetch_all_ext; [by apply fetch_all_complete|]. intros params. unfold miner_payouts. rewrite Ha. simpl. rewrite Hw.
      unfold paged. destruct (page params); done.
    + set (l := by_id_desc _ _). assert (Forall (λ p, is_Some (wallet_payout d p)) l) as Hall.
      { unfold l, by_id_desc. rewrite stable_sort_perm. apply Forall_forall. intros p Hp%list_elem_of_In. apply filter_In in Hp as [Hp%list_elem_of_In _].
        pose proof (ok_payout_cycles _ Hd) as Hc. rewrite Forall_forall in Hc. specialize (Hc p Hp). unfold wallet_payout.
        rewrite fmap_is_Some. by apply cycle_of_is_Some. }
      clear Hk. induction Hall as [|p l' [q Hq] _ IH]; csimpl; [done|]. rewrite Hq. simpl. f_equal; [|done].
      unfold wallet_payout in Hq. destruct (cycle_of d p); by simplify_eq/=.
Qed.

(** ** Series *)

(** The cells of the epoch-aligned grid of width [bucket] that a range meets: the rows of a series
    query (floor of the epoch over the width). *)
Definition buckets_met (r : Range) : Z :=
  let width := seconds (range_bucket r) * NANOS in (range_until r - 1) / width - range_from r / width + 1.

Lemma seconds_pos b : 0 < seconds b * NANOS.
Proof. unfold NANOS. destruct b; simpl; lia. Qed.

(** An accepted range is not empty and meets at most 1002 cells; the cap of 1000 is on whole cells
    of elapsed time, and a range that is not aligned to the grid meets two more. *)
Theorem range_bounded `{!Chrono} now params r : range now params = Ok r →
  range_from r < range_until r ∧ range_until r - range_from r < (MAX_SERIES_POINTS + 1) * (seconds (range_bucket r) * NANOS) ∧
  1 ≤ buckets_met r ≤ MAX_SERIES_POINTS + 2.
Proof.
  unfold range. destruct (match rp_to params with Some _ => _ | None => _ end) as [until|]; [|done]. simpl.
  destruct (match rp_from params with Some _ => _ | None => _ end) as [from|]; [|done]. simpl.
  destruct (match rp_bucket params with Some _ => _ | None => _ end) as [bucket|]; [|done]. simpl.
  destruct (Z.leb_spec until from) as [|Hlt]; [done|]. destruct (Z.ltb_spec MAX_SERIES_POINTS (Z.quot (num_seconds (until - from)) (seconds bucket))) as [|Hp]; [done|].
  intros [= <-]. unfold buckets_met. simpl. pose proof (seconds_pos bucket) as Hw. set (width := seconds bucket * NANOS) in *.
  unfold num_seconds in Hp. rewrite Z.quot_quot in Hp by (unfold NANOS; destruct bucket; simpl; lia).
  replace (NANOS * seconds bucket) with width in Hp by (unfold width; lia). rewrite Z.quot_div_nonneg in Hp by lia.
  pose proof (Z.div_mod (until - from) width ltac:(lia)) as H1. pose proof (Z.mod_pos_bound (until - from) width Hw) as H2.
  pose proof (Z.div_mod (until - 1) width ltac:(lia)) as H3. pose proof (Z.mod_pos_bound (until - 1) width Hw) as H4.
  pose proof (Z.div_mod from width ltac:(lia)) as H5. pose proof (Z.mod_pos_bound from width Hw) as H6.
  unfold MAX_SERIES_POINTS in *. split_and!; [done|nia|nia|nia].
Qed.

(** ** Settings *)

Lemma parse_int_range lo hi raw v : parse_int lo hi raw = Some v → lo ≤ v ≤ hi.
Proof.
  unfold parse_int. destruct (match raw with [] => _ | _ :: _ => _ end) as [v'|]; [|done]. simpl.
  destruct (Z.leb_spec lo v'), (Z.leb_spec v' hi); simpl; intros; simplify_eq; lia.
Qed.

(** A setting that was read lies in its range; a refused one did not parse. *)
Lemma parse_setting_spec lookup key lo hi dflt : lo ≤ dflt ≤ hi →
  match parse_setting lookup key lo hi dflt with
  | Ok v => lo ≤ v ≤ hi
  | Err e => ∃ raw, e = InvalidValue key raw ∧ lookup key = Some raw ∧ parse_int lo hi raw = None
  end.
Proof.
  intros Hd. unfold parse_setting. destruct (lookup key) as [raw|]; [|done].
  destruct (parse_int lo hi raw) as [v|] eqn:E; [by apply parse_int_range in E|by exists raw].
Qed.

(** A zero was set, it is no default. *)
Lemma parse_setting_zero lookup key hi dflt : hi ≤ u64_max → 0 < dflt → parse_setting lookup key 0 hi dflt = Ok 0 →
  ∃ raw, lookup key = Some raw ∧ parse_int 0 u64_max raw = Some 0.
Proof.
  intros Hhi Hd H. unfold parse_setting in H. destruct (lookup key) as [raw|]; [|simplify_eq; lia].
  exists raw. split; [done|]. unfold parse_int in *. destruct (match raw with [] => _ | _ :: _ => _ end) as [v|]; [|done]. simpl in *.
  destruct (Z.leb_spec 0 v), (Z.leb_spec v hi), (Z.leb_spec v u64_max); simpl in *; simplify_eq; done || lia.
Qed.

Lemma set_str_nonempty slot raw : slot ≠ [] → set_str slot raw ≠ [].
Proof. intros Hs. unfold set_str. destruct raw as [v|]; [|done]. by destruct (trim v). Qed.

(** Whatever the environment holds, a configuration that is accepted has a positive rate, burst
    and timeout, every number within its machine type, and no empty name; and a refused one names
    a value that does not parse or is zero. *)
Theorem api_config_valid lookup :
  match ApiConfig_from_lookup lookup with
  | Ok c => 0 < rate_per_second c ≤ u64_max ∧ 0 < rate_burst c ≤ u32_max ∧ 0 < request_timeout c ≤ u64_max ∧
      0 ≤ mps_fee_bps c ≤ u32_max ∧ i64_min ≤ mps_min_pay_kas c ≤ i64_max ∧ mps_pool_name c ≠ [] ∧ cors_allow_origin c ≠ Some []
  | Err (InvalidValue key raw) => lookup key = Some raw
  | Err (MustBePositive key) => ∃ raw, lookup key = Some raw ∧ parse_int 0 u64_max raw = Some 0
  end.
Proof.
  unfold ApiConfig_from_lookup.
  repeat match goal with
  | |- context [parse_setting lookup ?k ?lo ?hi ?d] =>
      pose proof (parse_setting_spec lookup k lo hi d ltac:(vm_compute; split; discriminate));
      destruct (parse_setting lookup k lo hi d) as [?|?] eqn:?; [|naive_solver]; cbn [mbind result_bind]
  end.
  unfold validate. simpl.
  repeat match goal with
  | E : parse_setting lookup ?k 0 ?hi ?d = Ok ?v |- context [?v =? 0] =>
      destruct (Z.eqb_spec v 0) as [->|?]; [apply (parse_setting_zero lookup k hi d); [vm_compute; discriminate|done|exact E]|]
  end. simpl.
  split_and!; try lia; [by apply set_str_nonempty|]. destruct (lookup _) as [raw|]; simpl; [|done]. by destruct (trim raw).
Qed.

(** ** Examples *)

Module ApiSample.
Definition address : string := "kaspa:qz4j8mu269".
Definition ledger : Db :=
  {| wallets := [{| w_id := 1; w_address := address; w_network := "mainnet" |}];
     shares := []; share_windows := []; coinbase_rewards := []; share_allocations := []; nacho_rebates := [];
     cycles := [new_cycle 1 Kas 5000 6000 10; new_cycle 2 Kas 6000 7000 20; new_cycle 3 Kas 7000 8000 30];
     payouts := [new_payout 1 1 1 500 10; new_payout 2 2 1 600 20; new_payout 3 3 1 700 30];
     transfers := []; blocks := []; audit_log := []; treasury_snapshots := []; scan_plan := λ _ _, table_order |}.
Definition clock : Chrono := {|
  parse_from_rfc3339 s := if String.eqb s "00:00:59" then Some (59 * NANOS) else if String.eqb s "16:41:58" then Some (60118 * NANOS) else None |}.
Definition minutes : RangeParams := {| rp_from := Some "00:00:59"; rp_to := Some "16:41:58"; rp_bucket := Some "1m" |}.
End ApiSample.
#[local] Existing Instance ApiSample.clock.

Lemma amounts_roundtrip_witness :
  scaled_decimal_string (-173951600000) 8 = Ret (codes "-1739.516") ∧ read_decimal 8 (codes "-1739.516") = Some (-173951600000).
Proof.
  assert (scaled_decimal_string (-173951600000) 8 = Ret (codes "-1739.516")) as Hs by (vm_compute; reflexivity). split; [exact Hs|].
  destruct (amounts_roundtrip (-173951600000) 8) as (s & Hs' & Hr & _); [split; vm_compute; discriminate|lia|].
  rewrite Hs in Hs'. injection Hs' as <-. exact Hr.
Defined.

Lemma pages_cover_witness :
  fetch_all (pool_payouts ApiSample.ledger) 4 (Some 1) None = Some (by_id_desc pc_id (cycles ApiSample.ledger)) ∧
  by_id_desc pc_id (cycles ApiSample.ledger) = [new_cycle 3 Kas 7000 8000 30; new_cycle 2 Kas 6000 7000 20; new_cycle 1 Kas 5000 6000 10].
Proof.
  split; [|reflexivity].
  apply (pages_cover ApiSample.ledger (Some 1) ApiSample.address ApiSample.address
    {| w_id := 1; w_address := ApiSample.address; w_network := "mainnet" |}).
  - split; by_computation.
  - apply NoDup_nil_2.
  - apply Forall_nil_2.
  - by_computation.
  - by_computation.
  - vm_compute. reflexivity.
  - vm_compute. reflexivity.
Defined.

(** Minutes from 00:00:59 to 16:41:58 are accepted and meet 1002 cells, two more than the cap. *)
Lemma series_over_cap : ∃ r, range 0 ApiSample.minutes = Ok r ∧ buckets_met r = MAX_SERIES_POINTS + 2.
Proof. eexists. split; vm_compute; reflexivity. Qed.

Lemma range_bounded_witness : ∃ r, range 0 ApiSample.minutes = Ok r ∧ 1 ≤ buckets_met r ≤ MAX_SERIES_POINTS + 2.
Proof.
  destruct (range 0 ApiSample.minutes) as [r|] eqn:E; [|vm_compute in E; discriminate].
  exists r. split; [reflexivity|]. apply (range_bounded 0 ApiSample.minutes r E).
Defined.
