(* ===== verification/Consumer.v ===== *)
(** * The event consumer (accountant/src/consumer.rs)

    Turns the bridge's events into rows.  [Store] is the shared database with
    the three tables only the consumer writes (worker, share_reject,
    connection_session); repository functions of worker.rs, share_reject.rs,
    connection_session.rs and the inserts of wallet.rs and share.rs are
    modelled here.  A transaction meets one [DbReply]: it commits, is refused,
    or commits and loses the acknowledgement; when the replies run out the
    process is gone.  Parsing an address and the GeoIP lookup are parameters;
    the per-session counters, which the consumer never writes, are left out. *)

From Stdlib Require Import Ascii Floats.SpecFloat.
From S2P Require Import Prelude Float64 Mass Db AccountRepo DupGuard Domain Events Bytes.
Local Open Scope Z_scope.

(** ** Rows *)

Record Worker := { wk_id : Z; wk_wallet_id : Z; wk_name : string }.
Record ShareReject := { rj_id : Z; rj_wallet_id : Z; rj_worker_id : Z; rj_reason : ShareRejectReason; rj_rejected_at : Z; rj_correlation_id : Z }.
Record ConnectionSession := {
  cs_id : Z; cs_worker_id : option Z; cs_remote_ip : string; cs_remote_app : option string; cs_country : option string;
  cs_connected_at : Z; cs_disconnected_at : option Z }.

Record Store := {
  st_db : Db; st_workers : list Worker; st_rejects : list ShareReject; st_sessions : list ConnectionSession }.

Definition st_with (d : Db) (ws : list Worker) (rs : list ShareReject) (ss : list ConnectionSession) : Store :=
  {| st_db := d; st_workers := ws; st_rejects := rs; st_sessions := ss |}.

Definition set_wallets v d := {| wallets := v; shares := shares d; share_windows := share_windows d;
  coinbase_rewards := coinbase_rewards d; share_allocations := share_allocations d;
  nacho_rebates := nacho_rebates d; cycles := cycles d; payouts := payouts d;
  transfers := transfers d; blocks := blocks d; audit_log := audit_log d; treasury_snapshots := treasury_snapshots d; scan_plan := scan_plan d |}.
Definition set_shares v d := {| wallets := wallets d; shares := v; share_windows := share_windows d;
  coinbase_rewards := coinbase_rewards d; share_allocations := share_allocations d;
  nacho_rebates := nacho_rebates d; cycles := cycles d; payouts := payouts d;
  transfers := transfers d; blocks := blocks d; audit_log := audit_log d; treasury_snapshots := treasury_snapshots d; scan_plan := scan_plan d |}.

(** ** Repository *)

Definition VALID_NETWORKS : list string := ["mainnet"; "testnet-10"; "testnet-11"; "devnet"; "simnet"]%string.

(** The address prefix the [wallet_address_format] constraint asks for on each network. *)
Definition network_prefix (network : string) : option string :=
  if bool_decide (network = "mainnet") then Some "kaspa:"
  else if bool_decide (network = "testnet-10") || bool_decide (network = "testnet-11") then Some "kaspatest:"
  else if bool_decide (network = "devnet") then Some "kaspadev:"
  else if bool_decide (network = "simnet") then Some "kaspasim:"
  else None.

(** The CHECKs of the [wallet] row: a known network and [^prefix[a-z0-9]{50,80}$]. *)
Definition wallet_check (address network : string) : bool :=
  match network_prefix network with
  | Some p =>
      match strip_prefix p address with
      | Some body => Nat.leb 50 (String.length body) && Nat.leb (String.length body) 80 &&
                     forallb (λ c, is_ascii_lowercase c || is_ascii_digit c) (chars body)
      | None => false
      end
  | None => false
  end.

(** [worker_name_length] and [worker_name_charset]. *)
Definition worker_check (name : string) : bool :=
  Nat.leb 1 (String.length name) && Nat.leb (String.length name) 64 && forallb is_safe_worker_char (chars name).

(** [ON CONFLICT (address)]: the proposed row is checked, then an existing one is returned as it
    is ([last_seen_at] is not modelled). *)
Definition wallet_ensure (address network : string) (s : Store) : result DbError (Wallet * Store) :=
  if negb (wallet_check address network) then Err Constraint
  else match List.find (λ w, bool_decide (w_address w = address)) (wallets (st_db s)) with
       | Some w => Ok (w, s)
       | None =>
           let w := {| w_id := next_id w_id (wallets (st_db s)); w_address := address; w_network := network |} in
           Ok (w, st_with (set_wallets (wallets (st_db s) ++ [w]) (st_db s)) (st_workers s) (st_rejects s) (st_sessions s))
       end.

Definition worker_ensure (wallet_id : Z) (name : string) (s : Store) : result DbError (Worker * Store) :=
  if negb (worker_check name) then Err Constraint
  else match List.find (λ k, (wk_wallet_id k =? wallet_id) && bool_decide (wk_name k = name)) (st_workers s) with
       | Some k => Ok (k, s)
       | None =>
           if existsb (λ w, w_id w =? wallet_id) (wallets (st_db s)) then
             let k := {| wk_id := next_id wk_id (st_workers s); wk_wallet_id := wallet_id; wk_name := name |} in
             Ok (k, st_with (st_db s) (st_workers s ++ [k]) (st_rejects s) (st_sessions s))
           else Err Constraint
       end.

(** [difficulty > 0 AND difficulty = difficulty]: Postgres orders NaN above every number and
    equal to itself, so the column accepts it. *)
Definition difficulty_check (x : f64) : bool :=
  match x with S754_nan => true | _ => f64_lt f64_zero x end.

(** The row's CHECKs: the difficulty and a non-negative score. *)
Definition insert_credited (wallet_id worker_id : Z) (difficulty : f64) (daa_score : DaaScore) (correlation_id now : Z) (s : Store)
    : result DbError (unit * Store) :=
  let row := {| sh_wallet_id := wallet_id; sh_worker_id := worker_id; sh_difficulty := difficulty;
                sh_daa_score := u64_as_i64 daa_score; sh_credited_at := now; sh_correlation_id := correlation_id |} in
  if difficulty_check difficulty && (0 <=? sh_daa_score row) && existsb (λ w, w_id w =? wallet_id) (wallets (st_db s))
     && existsb (λ k, wk_id k =? worker_id) (st_workers s)
  then Ok (tt, st_with (set_shares (shares (st_db s) ++ [row]) (st_db s)) (st_workers s) (st_rejects s) (st_sessions s))
  else Err Constraint.

(** [DbShareRejectReason::try_from]: every reason the bridge has is known. *)
Definition DbShareRejectReason_try_from (r : ShareRejectReason) : result string ShareRejectReason :=
  match r with
  | Stale => Ok Stale
  | LowDifficulty => Ok LowDifficulty
  | BadPow => Ok BadPow
  | MissingJob => Ok MissingJob
  | MalformedFrame => Ok MalformedFrame
  | DuplicateSubmit => Ok DuplicateSubmit
  | BadAddress => Ok BadAddress
  end.

Definition share_reject_insert (wallet_id worker_id : Z) (reason : ShareRejectReason) (correlation_id now : Z) (s : Store)
    : result DbError (unit * Store) :=
  let row := {| rj_id := next_id rj_id (st_rejects s); rj_wallet_id := wallet_id; rj_worker_id := worker_id;
                rj_reason := reason; rj_rejected_at := now; rj_correlation_id := correlation_id |} in
  if existsb (λ w, w_id w =? wallet_id) (wallets (st_db s)) && existsb (λ k, wk_id k =? worker_id) (st_workers s)
  then Ok (tt, st_with (st_db s) (st_workers s) (st_rejects s ++ [row]) (st_sessions s))
  else Err Constraint.

(** [open] and [record_closed] insert one row, the second with its end. *)
Definition session_insert (worker_id : option Z) (ip : string) (app country : option string) (connected_at : Z)
    (disconnected_at : option Z) (s : Store) : result DbError (Z * Store) :=
  let row := {| cs_id := next_id cs_id (st_sessions s); cs_worker_id := worker_id; cs_remote_ip := ip; cs_remote_app := app;
                cs_country := country; cs_connected_at := connected_at; cs_disconnected_at := disconnected_at |} in
  if match worker_id with Some k => existsb (λ w, wk_id w =? k) (st_workers s) | None => true end &&
     match country with Some c => Nat.leb (String.length c) 2 | None => true end
  then Ok (cs_id row, st_with (st_db s) (st_workers s) (st_rejects s) (st_sessions s ++ [row]))
  else Err Constraint.

Definition close_row (now : Z) (r : ConnectionSession) : ConnectionSession :=
  {| cs_id := cs_id r; cs_worker_id := cs_worker_id r; cs_remote_ip := cs_remote_ip r; cs_remote_app := cs_remote_app r;
     cs_country := cs_country r; cs_connected_at := cs_connected_at r; cs_disconnected_at := coalesce (cs_disconnected_at r) now |}.
Definition session_close (id now : Z) (s : Store) : result DbError (unit * Store) :=
  Ok (tt, st_with (st_db s) (st_workers s) (st_rejects s) (update_where (λ r, cs_id r =? id) (close_row now) (st_sessions s))).
Definition close_all_open (now : Z) (s : Store) : result DbError (Z * Store) :=
  let open r := match cs_disconnected_at r with None => true | Some _ => false end in
  Ok (Z.of_nat (length (List.filter open (st_sessions s))),
      st_with (st_db s) (st_workers s) (st_rejects s) (update_where open (close_row now) (st_sessions s))).
Definition active_summary (s : Store) : Z * Z :=
  let live := List.filter (λ r, match cs_disconnected_at r with None => true | Some _ => false end) (st_sessions s) in
  (Z.of_nat (length live), Z.of_nat (length (remove_dups (omap cs_worker_id live)))).

(** ** The consumer *)

Inductive DbReply := RProceed (now : Z) | RRefuse | RLost (now : Z).

Record Consumer := { cn_store : Store; cn_open : gmap Z Z; cn_replies : list DbReply }.

Inductive EventError :=
| WalletEnsure (e : DbError) | WorkerEnsure (e : DbError) | ShareInsert (e : DbError) | ShareRejectInsert (e : DbError)
| UnknownRejectReason (reason : string) | BlockEnsure (e : DbError) | BlockMarkSubmitted (e : DbError)
| OrphanBlockAccepted (hash : BlockHash) | SessionBadIp (ip : string) | SessionRecord (e : DbError).

(** [None]: the process is gone. *)
Definition C (A : Type) : Type := Consumer → option (result EventError A) * Consumer.
#[export] Instance C_ret : MRet C := λ A a c, (Some (Ok a), c).
#[export] Instance C_bind : MBind C := λ A B k m c,
  match m c with
  | (Some (Ok a), c') => k a c'
  | (Some (Err e), c') => (Some (Err e), c')
  | (None, c') => (None, c')
  end.
Definition c_throw {A} (e : EventError) : C A := λ c, (Some (Err e), c).

Definition cn_with (s : Store) (o : gmap Z Z) (rs : list DbReply) : Consumer :=
  {| cn_store := s; cn_open := o; cn_replies := rs |}.

(** One transaction: begin, body, commit; [lost] is the error of begin and commit. *)
Definition in_tx {A} (lost : DbError → EventError) (body : Z → Store → result EventError (A * Store)) : C A := λ c,
  match cn_replies c with
  | [] => (None, c)
  | RRefuse :: rs => (Some (Err (lost Connection)), cn_with (cn_store c) (cn_open c) rs)
  | RProceed now :: rs =>
      match body now (cn_store c) with
      | Ok (a, s) => (Some (Ok a), cn_with s (cn_open c) rs)
      | Err e => (Some (Err e), cn_with (cn_store c) (cn_open c) rs)
      end
  | RLost now :: rs =>
      match body now (cn_store c) with
      | Ok (_, s) => (Some (Err (lost Connection)), cn_with s (cn_open c) rs)
      | Err e => (Some (Err e), cn_with (cn_store c) (cn_open c) rs)
      end
  end.

Definition err_as {A} (f : DbError → EventError) (r : result DbError A) : result EventError A :=
  match r with Ok a => Ok a | Err e => Err (f e) end.

Section consumer.
(** [remote_ip.parse::<IpAddr>()], printed again; the GeoIP lookup. *)
Variable parse_ip : string → option string.
Variable country : string → option string.
Variable network : string.

(** The two upserts every event with an identity starts with. *)
Definition ensure_identity (wallet worker : string) (s : Store) : result EventError (Z * Z * Store) :=
  '(w, s) ← err_as WalletEnsure (wallet_ensure wallet network s);
  '(k, s) ← err_as WorkerEnsure (worker_ensure (w_id w) worker s);
  Ok (w_id w, wk_id k, s).

Definition handle_share_credited (wallet worker : string) (difficulty : f64) (daa_score : DaaScore) (correlation_id : Z) : C unit :=
  in_tx ShareInsert (λ now s,
    '(w, k, s) ← ensure_identity wallet worker s;
    err_as ShareInsert (insert_credited w k difficulty daa_score correlation_id now s)).

Definition handle_share_rejected (wallet worker : string) (reason : ShareRejectReason) (correlation_id : Z) : C unit :=
  match DbShareRejectReason_try_from reason with
  | Err r => c_throw (UnknownRejectReason r)
  | Ok db_reason =>
      in_tx ShareRejectInsert (λ now s,
        '(w, k, s) ← ensure_identity wallet worker s;
        err_as ShareRejectInsert (share_reject_insert w k db_reason correlation_id now s))
  end.

(** The [bytea] key of a block. *)
Definition hash_key (h : BlockHash) : Hash := from_be_bytes h.

Definition handle_block_found (wallet worker : string) (hash : BlockHash) (daa_score : DaaScore) (correlation_id : Z) : C unit :=
  in_tx BlockEnsure (λ now s,
    '(w, k, s) ← ensure_identity wallet worker s;
    '(r, d) ← err_as BlockEnsure (block_ensure (hash_key hash) w k daa_score 0 correlation_id now (st_db s));
    Ok (tt, st_with d (st_workers s) (st_rejects s) (st_sessions s))).

Definition handle_block_accepted (hash : BlockHash) : C unit :=
  existing ← in_tx BlockMarkSubmitted (λ _ s, Ok (find_by_hash (hash_key hash) (st_db s), s));
  match existing with
  | None => c_throw (OrphanBlockAccepted hash)
  | Some _ =>
      in_tx BlockMarkSubmitted (λ now s,
        d ← err_as BlockMarkSubmitted (mark_submitted (hash_key hash) now (st_db s));
        Ok (tt, st_with d (st_workers s) (st_rejects s) (st_sessions s)))
  end.

Definition session_worker (wallet worker : option string) (s : Store) : result EventError (option Z * Store) :=
  match wallet, worker with
  | Some addr, Some name => '(_, k, s) ← ensure_identity addr name s; Ok (Some k, s)
  | _, _ => Ok (None, s)
  end.

Definition record_session (wallet worker : option string) (ip : string) (app : option string) (connected_at : Z)
    (disconnected_at : option Z) : C Z :=
  match parse_ip ip with
  | None => c_throw (SessionBadIp ip)
  | Some addr =>
      in_tx SessionRecord (λ _ s,
        '(k, s) ← session_worker wallet worker s;
        err_as SessionRecord (session_insert k addr app (country addr) connected_at disconnected_at s))
  end.

(** [open_sessions.insert]. *)
Definition remember_session (conn_id session_id : Z) : C unit := λ c,
  (Some (Ok tt), cn_with (cn_store c) (<[conn_id := session_id]> (cn_open c)) (cn_replies c)).

Definition handle_session_opened (conn_id : Z) (wallet worker : option string) (ip : string) (app : option string) (connected_at : Z)
    : C unit :=
  session_id ← record_session wallet worker ip app connected_at None;
  remember_session conn_id session_id.

Definition handle_session_closed (conn_id : Z) (wallet worker : option string) (ip : string) (app : option string)
    (connected_at disconnected_at : Z) : C unit := λ c,
  let c' := cn_with (cn_store c) (delete conn_id (cn_open c)) (cn_replies c) in
  match cn_open c !! conn_id with
  | Some session_id => in_tx SessionRecord (λ now s, err_as SessionRecord (session_close session_id now s)) c'
  | None => (_ ← record_session wallet worker ip app connected_at (Some disconnected_at); mret tt) c'
  end.

(** The handler of each variant. *)
Definition dispatch (event : PoolEvent) : C unit :=
  match event with
  | ShareCredited wallet worker difficulty daa_score _ correlation_id =>
      handle_share_credited wallet worker difficulty daa_score correlation_id
  | ShareRejected wallet worker reason _ correlation_id => handle_share_rejected wallet worker reason correlation_id
  | BlockFound wallet worker hash daa_score _ correlation_id => handle_block_found wallet worker hash daa_score correlation_id
  | BlockAccepted hash _ _ => handle_block_accepted hash
  | SessionOpened conn_id wallet worker ip app connected_at _ =>
      handle_session_opened conn_id wallet worker ip app connected_at
  | SessionClosed conn_id wallet worker ip app connected_at ts _ =>
      handle_session_closed conn_id wallet worker ip app connected_at ts
  end.

(** Errors are logged and the event is dropped; the flag tells whether the process is alive. *)
Definition finish {A} (m : C A) (c : Consumer) : bool * Consumer :=
  match m c with (Some _, c') => (true, c') | (None, c') => (false, c') end.

Definition handle_event (event : PoolEvent) : Consumer → bool * Consumer := finish (dispatch event).

(** What [rx.recv()] answers. *)
Inductive Recv := Received (e : PoolEvent) | Lagged (n : Z) | Closed.
Inductive LoopStep := Continue | Exit.

Definition step (r : Recv) (c : Consumer) : LoopStep * (bool * Consumer) :=
  match r with
  | Received e => (Continue, handle_event e c)
  | Lagged _ => (Continue, (true, c))
  | Closed => (Exit, (true, c))
  end.

(** The instant of each turn with the answer, [None] when [timeout] elapsed first. *)
Fixpoint drain_backlog (deadline : Z) (rs : list (Z * option Recv)) (c : Consumer) : bool * Consumer :=
  match rs with
  | [] => (true, c)
  | (now, r) :: rs =>
      if deadline <=? now then (true, c)
      else match r with
           | Some (Received e) =>
               match handle_event e c with
               | (true, c) => drain_backlog deadline rs c
               | dead => dead
               end
           | Some (Lagged _) => drain_backlog deadline rs c
           | Some Closed | None => (true, c)
           end
  end.

(** The branch [select!] takes: an answer of the channel, or the new value of the shutdown flag
    ([None]: its sender is gone). *)
Inductive Selected := SRecv (r : Recv) | SShutdown (flag : option bool).

Fixpoint select_loop (deadline : Z) (sel : list Selected) (backlog : list (Z * option Recv)) (c : Consumer) : bool * Consumer :=
  match sel with
  | [] => (true, c)
  | SRecv r :: sel =>
      match step r c with
      | (Continue, (true, c)) => select_loop deadline sel backlog c
      | (_, out) => out
      end
  | SShutdown (Some false) :: sel => select_loop deadline sel backlog c
  | SShutdown _ :: _ => drain_backlog deadline backlog c
  end.

Definition startup_session_sweep (c : Consumer) : bool * Consumer :=
  finish (in_tx SessionRecord (λ now s, err_as SessionRecord (close_all_open now s))) c.

Definition run_with_shutdown (already : bool) (deadline : Z) (sel : list Selected) (backlog : list (Z * option Recv)) (c : Consumer)
    : bool * Consumer :=
  match startup_session_sweep c with
  | (false, c) => (false, c)
  | (true, c) => if already then drain_backlog deadline backlog c else select_loop deadline sel backlog c
  end.
End consumer.

Inductive ConsumerConfigError := InvalidNetwork (supplied : string).
Definition ConsumerConfig_new (network : string) : result ConsumerConfigError string :=
  if bool_decide (network ∈ VALID_NETWORKS) then Ok network else Err (InvalidNetwork network).
