(* ===== verification/ConsumerProps.v ===== *)
(** * The event consumer's guarantees

    Whatever the database answers, the consumer keeps the tables consistent
    and turns each credited share into at most one row, exactly one when the
    database is up; the graceful drain loses no event it has taken. *)

From S2P Require Import Prelude Float64 Mass Db PayoutRepo AccountRepo DupGuard Domain Events Bytes Consumer.
Local Open Scope Z_scope.

Notation db_wallets s := (wallets (st_db s)).
Notation db_shares s := (shares (st_db s)).

(** ** The store's invariant *)

Definition wallet_ids (s : Store) : list Z := map w_id (db_wallets s).
Definition worker_ids (s : Store) : list Z := map wk_id (st_workers s).

(** Identities are unique, every reference resolves, every row passes its CHECKs. *)
Record store_ok (s : Store) : Prop := {
  so_address : NoDup (map w_address (db_wallets s));
  so_wallet : NoDup (wallet_ids s);
  so_rig : NoDup (map (λ k, (wk_wallet_id k, wk_name k)) (st_workers s));
  so_worker : NoDup (worker_ids s);
  so_wallet_check : Forall (λ w, wallet_check (w_address w) (w_network w) = true) (db_wallets s);
  so_worker_check : Forall (λ k, worker_check (wk_name k) = true ∧ wk_wallet_id k ∈ wallet_ids s) (st_workers s);
  so_share : Forall (λ r, sh_wallet_id r ∈ wallet_ids s ∧ 0 ≤ sh_daa_score r ∧ difficulty_check (sh_difficulty r) = true) (db_shares s);
  so_reject : Forall (λ r, rj_wallet_id r ∈ wallet_ids s ∧ rj_worker_id r ∈ worker_ids s) (st_rejects s);
  so_session : NoDup (map cs_id (st_sessions s));
  so_session_worker : Forall (λ r, ∀ k, cs_worker_id r = Some k → k ∈ worker_ids s) (st_sessions s) }.

(** ** Appending rows *)

Lemma NoDup_snoc_fresh {A B} (f : A → B) l x : NoDup (map f l) → f x ∉ map f l → NoDup (map f (l ++ [x])).
Proof.
  intros Hl Hx. rewrite map_app. simpl. apply NoDup_app. split_and!; [done| |apply NoDup_singleton].
  intros y Hy ->%list_elem_of_singleton. done.
Qed.

Lemma next_id_not_in {A} (key : A → Z) l : next_id key l ∉ map key l.
Proof. intros (x & E & Hx%list_elem_of_In%(next_id_fresh key))%list_elem_of_In%in_map_iff. lia. Qed.

Lemma find_None_not_in {A B} (f : A → B) p l b :
  List.find p l = None → (∀ x, f x = b → p x = true) → b ∉ map f l.
Proof.
  intros Hn Hp (x & E & Hx)%list_elem_of_In%in_map_iff. specialize (find_none _ _ Hn x Hx). by rewrite (Hp x E).
Qed.

Lemma existsb_id {A} (key : A → Z) z l : existsb (λ x, key x =? z) l = true ↔ z ∈ map key l.
Proof.
  rewrite existsb_exists, list_elem_of_In, in_map_iff. split; intros (x & ?); exists x; bool_hyps; [|split]; naive_solver lia.
Qed.

(** ** What a transaction may do to the store *)

(** It keeps the invariant and the shares, and only appends wallets. *)
Definition store_step (s s' : Store) : Prop :=
  store_ok s → store_ok s' ∧ db_shares s' = db_shares s ∧ db_wallets s `prefix_of` db_wallets s'.

#[export] Instance store_step_preorder : PreOrder store_step.
Proof.
  split; [intros s ?; done|]. intros s1 s2 s3 H1 H2 H.
  destruct (H1 H) as (Ha & Hb & Hc). destruct (H2 Ha) as (? & Hd & ?).
  split_and!; [done|congruence|by etrans].
Qed.

(** Only the tables the invariant reads matter. *)
Lemma store_step_db d ws rs ss d' : wallets d' = wallets d → shares d' = shares d →
  store_step (st_with d ws rs ss) (st_with d' ws rs ss).
Proof.
  intros Hw Hs []. unfold wallet_ids, worker_ids in *; simpl in *.
  split_and!; [constructor; unfold wallet_ids, worker_ids; simpl; rewrite ?Hw, ?Hs; done|simpl; congruence|simpl; by rewrite Hw].
Qed.

Lemma wallet_ensure_step address network s w s' : wallet_ensure address network s = Ok (w, s') →
  store_step s s' ∧ w ∈ db_wallets s' ∧ w_address w = address ∧ wallet_check address network = true.
Proof.
  unfold wallet_ensure. intros H. case_bool_in H; [done|]. apply negb_false_iff in E.
  destruct (List.find _ _) as [x|] eqn:F; simplify_eq.
  - apply find_Some in F as [? Hx%bool_decide_eq_true]. done.
  - simpl. split_and!; [|apply elem_of_app; right; by apply list_elem_of_singleton|done|done].
    intros []. split_and!; [|done|by apply prefix_app_r]. unfold wallet_ids, worker_ids in *.
    constructor; unfold wallet_ids, worker_ids; simpl; try done.
    + apply NoDup_snoc_fresh; [done|]. apply (find_None_not_in _ _ _ _ F). intros x Hx. by apply bool_decide_eq_true.
    + apply NoDup_snoc_fresh; [done|]. apply next_id_not_in.
    + apply Forall_app. by split; [|apply Forall_singleton].
    + eapply Forall_impl; [done|]. intros k [? ?]. split; [done|]. rewrite map_app. by apply elem_of_app; left.
    + eapply Forall_impl; [done|]. intros k [? ?]. split; [|done]. rewrite map_app. by apply elem_of_app; left.
    + eapply Forall_impl; [done|]. intros k [? ?]. split; [|done]. rewrite map_app. by apply elem_of_app; left.
Qed.

Lemma worker_ensure_step wallet_id name s k s' : worker_ensure wallet_id name s = Ok (k, s') →
  store_step s s' ∧ k ∈ st_workers s' ∧ db_wallets s' = db_wallets s ∧ worker_check name = true.
Proof.
  unfold worker_ensure. intros H. case_bool_in H; [done|]. apply negb_false_iff in E.
  destruct (List.find _ _) as [x|] eqn:F; simplify_eq.
  - apply find_Some in F as [? ?]. done.
  - case_bool_in H; [|done]. simplify_eq. simpl.
    split_and!; [|apply elem_of_app; right; by apply list_elem_of_singleton|done|done].
    intros []. split_and!; [|done|done]. unfold wallet_ids, worker_ids in *.
    constructor; unfold wallet_ids, worker_ids; simpl; try done.
    + apply NoDup_snoc_fresh; [done|]. apply (find_None_not_in _ _ _ _ F). simpl. intros x [= -> ->].
      apply andb_true_iff. split; [lia|by apply bool_decide_eq_true].
    + apply NoDup_snoc_fresh; [done|]. apply next_id_not_in.
    + apply Forall_app. split; [done|]. apply Forall_singleton. simpl. split; [done|]. by apply existsb_id.
    + eapply Forall_impl; [done|]. intros r [? ?]. split; [done|]. rewrite map_app. by apply elem_of_app; left.
    + eapply Forall_impl; [done|]. simpl. intros r Hr j Hj. rewrite map_app. by apply elem_of_app; left; apply Hr.
Qed.

Section identity.
Context (network : string).

Lemma ensure_identity_step wallet worker s w k s' : ensure_identity network wallet worker s = Ok (w, k, s') →
  store_step s s' ∧ wallet_check wallet network = true ∧ worker_check worker = true ∧
  (∃ row, row ∈ db_wallets s' ∧ w_id row = w ∧ w_address row = wallet) ∧ k ∈ worker_ids s'.
Proof.
  unfold ensure_identity, err_as. intros H.
  destruct (wallet_ensure wallet network s) as [[row s1]|] eqn:E1; simplify_eq/=.
  destruct (worker_ensure (w_id row) worker s1) as [[kr s2]|] eqn:E2; simplify_eq/=.
  apply wallet_ensure_step in E1 as (Hs1 & Hin & Ha & ?). apply worker_ensure_step in E2 as (Hs2 & Hk & Hw & ?).
  split_and!; [by etrans|done|done|exists row; by rewrite Hw|]. unfold worker_ids. apply list_elem_of_In, in_map. by apply list_elem_of_In.
Qed.

(** The two upserts are refused only by the CHECKs of their rows. *)
Lemma ensure_identity_ok wallet worker s : wallet_check wallet network = true → worker_check worker = true →
  ∃ w k s', ensure_identity network wallet worker s = Ok (w, k, s').
Proof.
  intros Hw Hk. unfold ensure_identity, err_as.
  destruct (wallet_ensure wallet network s) as [[row s1]|] eqn:E1; simpl.
  2: { unfold wallet_ensure in E1. rewrite Hw in E1. simpl in E1. by destruct (List.find _ _). }
  apply wallet_ensure_step in E1 as (_ & Hin & _).
  destruct (worker_ensure (w_id row) worker s1) as [[kr s2]|] eqn:E2; simpl; [eauto|].
  unfold worker_ensure in E2. rewrite Hk in E2. simpl in E2. destruct (List.find _ _); [done|].
  case_bool_in E2; [done|]. exfalso. apply not_true_iff_false in E. apply E, existsb_id, list_elem_of_In, in_map.
  by apply list_elem_of_In.
Qed.
End identity.

Lemma share_reject_insert_step w k r corr now s a s' :
  share_reject_insert w k r corr now s = Ok (a, s') → store_step s s'.
Proof.
  unfold share_reject_insert. intros H. case_bool_in H; [|done]. simplify_eq. intros [].
  apply andb_true_iff in E as [?%existsb_id ?%existsb_id]. split_and!; [|done|done].
  constructor; try done. simpl. apply Forall_app. by split; [|apply Forall_singleton].
Qed.

Lemma session_insert_step k ip app cty t t' s a s' :
  session_insert k ip app cty t t' s = Ok (a, s') → store_step s s'.
Proof.
  unfold session_insert. intros H. case_bool_in H; [|done]. simplify_eq. intros [].
  apply andb_true_iff in E as [E _]. split_and!; [|done|done]. constructor; try done; simpl.
  - apply NoDup_snoc_fresh; [done|apply next_id_not_in].
  - apply Forall_app. split; [done|]. apply Forall_singleton. simpl. intros j ->. by apply existsb_id in E.
Qed.

(** Closing rows changes neither their ids nor their workers. *)
Lemma close_rows_step p now s :
  store_step s (st_with (st_db s) (st_workers s) (st_rejects s) (update_where p (close_row now) (st_sessions s))).
Proof.
  intros []. split_and!; [|done|done]. constructor; try done; simpl.
  - by rewrite map_update_where.
  - apply Forall_forall. intros x (y & Hy & ->)%elem_of_update_where. rewrite Forall_forall in so_session_worker0.
    destruct (p y); apply (so_session_worker0 _ Hy).
Qed.

Lemma set_blocks_step v s : store_step s (st_with (set_blocks v (st_db s)) (st_workers s) (st_rejects s) (st_sessions s)).
Proof. destruct s. by apply store_step_db. Qed.

Lemma block_ensure_step hash w k daa nonce corr now s r d : block_ensure hash w k daa nonce corr now (st_db s) = Ok (r, d) →
  store_step s (st_with d (st_workers s) (st_rejects s) (st_sessions s)).
Proof.
  unfold block_ensure. intros H. case_bool_in H; [|done]. destruct (List.find _ _); simplify_eq.
  - by destruct s.
  - case_bool_in H; [|done]. simplify_eq. apply set_blocks_step.
Qed.

Lemma mark_submitted_step hash now s d : mark_submitted hash now (st_db s) = Ok d →
  store_step s (st_with d (st_workers s) (st_rejects s) (st_sessions s)).
Proof.
  unfold mark_submitted, update_blocks. intros H. destruct (update_checked _ _ _ _); simplify_eq/=. apply set_blocks_step.
Qed.

(** ** Computations of the consumer *)

(** They use up replies and change the store by [store_step]s. *)
Definition cstep (c c' : Consumer) : Prop :=
  store_step (cn_store c) (cn_store c') ∧ cn_replies c' `suffix_of` cn_replies c.

#[export] Instance cstep_preorder : PreOrder cstep.
Proof. split; [by split|]. intros c1 c2 c3 [] []. by split; etrans. Qed.

Definition steps {A} (m : C A) : Prop := ∀ c, cstep c (m c).2.

Lemma steps_in_tx {A} lost (body : Z → Store → result EventError (A * Store)) :
  (∀ now s a s', body now s = Ok (a, s') → store_step s s') → steps (in_tx lost body).
Proof.
  intros Hb c. unfold in_tx. destruct (cn_replies c) as [|r rs] eqn:E; simpl; [done|].
  destruct r as [now| |now]; [destruct (body now _) as [[a s]|] eqn:B| |destruct (body now _) as [[a s]|] eqn:B];
    split; simpl; try done; try (by eapply Hb); rewrite E; by eexists [_].
Qed.

Lemma steps_bind {A B} (m : C A) (k : A → C B) : steps m → (∀ a, steps (k a)) → steps (m ≫= k).
Proof.
  intros Hm Hk c. unfold mbind, C_bind. specialize (Hm c). destruct (m c) as [[[a|e]|] c'] eqn:E; simpl in *; [|done|done].
  etrans; [done|apply Hk].
Qed.

Lemma steps_throw {A} e : steps (c_throw (A := A) e).
Proof. by intros c. Qed.



Section handlers.
Context (parse_ip : string → option string) (country : string → option string) (network : string).

Lemma steps_share_rejected wallet worker reason corr : steps (handle_share_rejected network wallet worker reason corr).
Proof.
  unfold handle_share_rejected. destruct (DbShareRejectReason_try_from reason); [|apply steps_throw].
  apply steps_in_tx. intros now s [] s' H.
  destruct (ensure_identity network wallet worker s) as [[[w k] s1]|] eqn:E; simplify_eq/=.
  unfold err_as in H. destruct (share_reject_insert _ _ _ _ _ _) as [[[] s2]|] eqn:I; simplify_eq.
  apply ensure_identity_step in E as [? _]. apply share_reject_insert_step in I. by etrans.
Qed.

Lemma steps_block_found wallet worker hash daa corr : steps (handle_block_found network wallet worker hash daa corr).
Proof.
  apply steps_in_tx. intros now s [] s' H.
  destruct (ensure_identity network wallet worker s) as [[[w k] s1]|] eqn:E; simplify_eq/=.
  unfold err_as in H. destruct (block_ensure _ _ _ _ _ _ _ _) as [[r d]|] eqn:I; simplify_eq/=.
  apply ensure_identity_step in E as [? _]. apply block_ensure_step in I. by etrans.
Qed.

Lemma steps_block_accepted hash : steps (handle_block_accepted hash).
Proof.
  apply steps_bind; [by apply steps_in_tx; intros ? ? ? ? [= _ ->]|]. intros [b|]; [|apply steps_throw].
  apply steps_in_tx. intros now s [] s' H. unfold err_as in H.
  destruct (mark_submitted _ _ _) eqn:I; simplify_eq/=. by apply mark_submitted_step in I.
Qed.

Lemma steps_record_session wallet worker ip app t t' : steps (record_session parse_ip country network wallet worker ip app t t').
Proof.
  unfold record_session. destruct (parse_ip ip) as [addr|]; [|apply steps_throw]. apply steps_in_tx.
  intros now s a s' H. destruct (session_worker network wallet worker s) as [[k s1]|] eqn:E; simplify_eq/=.
  unfold err_as in H. destruct (session_insert _ _ _ _ _ _ _) as [[i s2]|] eqn:I; simplify_eq.
  apply session_insert_step in I. etrans; [|done]. unfold session_worker in E.
  destruct wallet, worker; simplify_eq; try done.
  destruct (ensure_identity network _ _ s) as [[[w k'] s3]|] eqn:F; simplify_eq/=. by apply ensure_identity_step in F as [? _].
Qed.

Lemma steps_session_opened conn wallet worker ip app t :
  steps (handle_session_opened parse_ip country network conn wallet worker ip app t).
Proof. apply steps_bind; [apply steps_record_session|]. by intros i c. Qed.

Lemma steps_session_closed conn wallet worker ip app t t' :
  steps (handle_session_closed parse_ip country network conn wallet worker ip app t t').
Proof.
  intros c. unfold handle_session_closed. etrans; [|].
  2: { destruct (cn_open c !! conn) as [i|].
       - apply (steps_in_tx SessionRecord (λ now s, err_as SessionRecord (session_close i now s))).
         intros now s [] s' [= <-]. apply close_rows_step.
       - apply (steps_bind (record_session parse_ip country network wallet worker ip app t (Some t'))
                           (λ _, mret tt)); [apply steps_record_session|by intros i c']. }
  done.
Qed.

Lemma finish_snd {A} (m : C A) c : (finish m c).2 = (m c).2.
Proof. unfold finish. by destruct (m c) as [[]]. Qed.

Lemma steps_sweep c : cstep c (startup_session_sweep c).2.
Proof.
  unfold startup_session_sweep. rewrite finish_snd. apply (steps_in_tx _ _).
  intros now s a s' [= _ <-]. apply close_rows_step.
Qed.

Definition is_credit (e : PoolEvent) : bool := match e with ShareCredited _ _ _ _ _ _ => true | _ => false end.

Lemma steps_handle_event e c : is_credit e = false → cstep c (handle_event parse_ip country network e c).2.
Proof.
  unfold handle_event. rewrite finish_snd. destruct e; simpl; intros Hc; [done|..];
    [apply steps_share_rejected|apply steps_block_found|apply steps_block_accepted
    |apply steps_session_opened|apply steps_session_closed].
Qed.

(** ** Crediting *)

(** The events the [share] table can hold. *)
Definition creditable (e : PoolEvent) : bool :=
  match e with
  | ShareCredited wallet worker difficulty daa_score _ _ =>
      wallet_check wallet network && worker_check worker && difficulty_check difficulty && (0 <=? u64_as_i64 daa_score)
  | _ => false
  end.

(** The row of a credited share: the event's difficulty and score, under the wallet with its address. *)
Definition credited_as (ws : list Wallet) (e : PoolEvent) (r : Share) : Prop :=
  match e with
  | ShareCredited wallet _ difficulty daa_score _ correlation_id =>
      sh_difficulty r = difficulty ∧ sh_daa_score r = u64_as_i64 daa_score ∧ sh_correlation_id r = correlation_id ∧
      ∃ w, w ∈ ws ∧ w_id w = sh_wallet_id r ∧ w_address w = wallet
  | _ => False
  end.

Lemma credited_as_prefix ws ws' e r : ws `prefix_of` ws' → credited_as ws e r → credited_as ws' e r.
Proof.
  intros [l ->]. destruct e; simpl; try done. intros (? & ? & ? & w & ? & ?). split_and!; [done|done|done|].
  exists w. split; [|done]. by apply elem_of_app; left.
Qed.

Definition proceeds (r : DbReply) : bool := match r with RProceed _ => true | _ => false end.

(** What one event does to the shares. *)
Definition credit_step (e : PoolEvent) (out : bool * Consumer) (c : Consumer) : Prop :=
  store_ok (cn_store out.2) ∧ db_wallets (cn_store c) `prefix_of` db_wallets (cn_store out.2) ∧
  cn_replies out.2 `suffix_of` cn_replies c ∧
  (db_shares (cn_store out.2) = db_shares (cn_store c) ∧
     (Forall proceeds (cn_replies c) → out.1 = true → creditable e = false) ∨
   creditable e = true ∧ ∃ r, db_shares (cn_store out.2) = db_shares (cn_store c) ++ [r] ∧
     credited_as (db_wallets (cn_store out.2)) e r).

Definition share_row (w k : Z) (difficulty : f64) (daa_score corr now : Z) : Share :=
  {| sh_wallet_id := w; sh_worker_id := k; sh_difficulty := difficulty; sh_daa_score := u64_as_i64 daa_score; sh_credited_at := now;
     sh_correlation_id := corr |}.

Lemma insert_credited_step w k difficulty daa corr now s s' : store_ok s →
  insert_credited w k difficulty daa corr now s = Ok (tt, s') →
  store_ok s' ∧ db_wallets s' = db_wallets s ∧ db_shares s' = db_shares s ++ [share_row w k difficulty daa corr now] ∧
  difficulty_check difficulty = true ∧ 0 ≤ u64_as_i64 daa.
Proof.
  intros [] H. unfold insert_credited in H. case_bool_in H; [|done]. simplify_eq. simpl in E.
  apply andb_true_iff in E as [[[? ?%Z.leb_le]%andb_true_iff ?%existsb_id]%andb_true_iff _].
  split_and!; try done. constructor; try done. simpl. apply Forall_app. by split; [|apply Forall_singleton].
Qed.

(** The body of the crediting transaction. *)
Definition credit_body wallet worker difficulty daa corr (now : Z) (s : Store) : result EventError (unit * Store) :=
  '(w, k, s) ← ensure_identity network wallet worker s;
  err_as ShareInsert (insert_credited w k difficulty daa corr now s).

Lemma credit_body_step wallet worker difficulty daa ts corr now s s' : store_ok s →
  credit_body wallet worker difficulty daa corr now s = Ok (tt, s') →
  store_ok s' ∧ db_wallets s `prefix_of` db_wallets s' ∧
  let e := ShareCredited wallet worker difficulty daa ts corr in
  creditable e = true ∧ ∃ r, db_shares s' = db_shares s ++ [r] ∧ credited_as (db_wallets s') e r.
Proof.
  unfold credit_body. intros Hok H.
  destruct (ensure_identity network wallet worker s) as [[[w k] s1]|] eqn:E; simplify_eq/=.
  unfold err_as in H. destruct (insert_credited _ _ _ _ _ _ _) as [[[] s2]|] eqn:I; simplify_eq.
  apply ensure_identity_step in E as (Hs & Hw & Hk & (row & Hrow & Hid & Ha) & _). destruct (Hs Hok) as (Hok1 & Hsh & Hp).
  apply insert_credited_step in I as (? & Ew & Es & Hd & Hdaa); [|done].
  split_and!; [done|by rewrite Ew|rewrite Hw, Hk, Hd; simpl; lia|].
  rewrite Es, Hsh, Ew. eexists. split; [done|]. simpl. eauto 10.
Qed.

(** It succeeds on every creditable event. *)
Lemma credit_body_ok wallet worker difficulty daa ts corr now s :
  creditable (ShareCredited wallet worker difficulty daa ts corr) = true →
  ∃ s', credit_body wallet worker difficulty daa corr now s = Ok (tt, s').
Proof.
  simpl. intros [[[Hw Hk]%andb_true_iff Hd]%andb_true_iff Hdaa]%andb_true_iff.
  destruct (ensure_identity_ok network wallet worker s Hw Hk) as (w & k & s1 & E).
  unfold credit_body. rewrite E. simpl.
  apply ensure_identity_step in E as (_ & _ & _ & (row & Hrow & <- & _) & Hk1).
  assert (Hw1 : existsb (λ x, w_id x =? w_id row) (db_wallets s1) = true).
  { by apply existsb_id, list_elem_of_In, in_map, list_elem_of_In. }
  apply existsb_id in Hk1. unfold insert_credited. simpl. rewrite Hd, Hdaa, Hw1, Hk1. simpl. eauto.
Qed.

Lemma handle_event_credits e c : store_ok (cn_store c) → credit_step e (handle_event parse_ip country network e c) c.
Proof.
  intros Hok. destruct (is_credit e) eqn:Hc.
  2: { pose proof (steps_handle_event e c Hc) as [Hs Hr]. destruct (Hs Hok) as (? & ? & ?).
       split_and!; [done|done|done|left; split; [done|by destruct e]]. }
  destruct e as [wallet worker difficulty daa ts corr| | | | | ]; try done. unfold handle_event, finish. simpl. unfold handle_share_credited.
  change (λ now s, _) with (credit_body wallet worker difficulty daa corr). unfold in_tx, credit_step.
  destruct (cn_replies c) as [|r rs] eqn:Er; simpl; [rewrite Er; split_and!; try done; left; done|].
  destruct r as [now| |now].
  1,3: destruct (credit_body _ _ _ _ _ now _) as [[[] s']|err] eqn:B; simpl;
    [apply (credit_body_step _ _ _ _ ts) in B as (? & ? & ? & ?); [|done]; split_and!; try done; [by eexists [_]|by right]
    |split_and!; try done; [by eexists [_]|left; split; [done|]]].
  - intros _ _. apply not_true_iff_false. intros Hcr. destruct (credit_body_ok _ _ _ _ ts corr now (cn_store c) Hcr). congruence.
  - intros [Hp _]%Forall_cons. done.
  - split_and!; simpl; try done; [by eexists [_]|left; split; [done|]]. by intros [Hp _]%Forall_cons.
Qed.

(** ** Runs *)

Fixpoint handle_events (es : list PoolEvent) (c : Consumer) : bool * Consumer :=
  match es with
  | [] => (true, c)
  | e :: es => match handle_event parse_ip country network e c with (true, c) => handle_events es c | dead => dead end
  end.

(** The events a run takes off the channel, drain included. *)
Fixpoint drained (deadline : Z) (rs : list (Z * option Recv)) : list PoolEvent :=
  match rs with
  | [] => []
  | (now, r) :: rs =>
      if deadline <=? now then []
      else match r with
           | Some (Received e) => e :: drained deadline rs
           | Some (Lagged _) => drained deadline rs
           | Some Closed | None => []
           end
  end.
Fixpoint selected (deadline : Z) (sel : list Selected) (backlog : list (Z * option Recv)) : list PoolEvent :=
  match sel with
  | [] => []
  | SRecv (Received e) :: sel => e :: selected deadline sel backlog
  | SRecv (Lagged _) :: sel | SShutdown (Some false) :: sel => selected deadline sel backlog
  | SRecv Closed :: _ => []
  | SShutdown _ :: _ => drained deadline backlog
  end.
Definition taken (already : bool) deadline sel backlog : list PoolEvent :=
  if already then drained deadline backlog else selected deadline sel backlog.

Lemma drain_backlog_events deadline rs c : drain_backlog parse_ip country network deadline rs c = handle_events (drained deadline rs) c.
Proof.
  revert c. induction rs as [|[now r] rs IH]; intros c; simpl; [done|]. case_bool; [done|].
  destruct r as [[e|n|]|]; simpl; [|done|done|done]. destruct (handle_event _ _ _ e c) as [[] ?]; [apply IH|done].
Qed.

Lemma select_loop_events deadline sel backlog c :
  select_loop parse_ip country network deadline sel backlog c = handle_events (selected deadline sel backlog) c.
Proof.
  revert c. induction sel as [|[[e|n|]|[[]|]] sel IH]; intros c; simpl; try done; try apply drain_backlog_events.
  destruct (handle_event _ _ _ e c) as [[] ?]; [apply IH|done].
Qed.

Lemma handle_events_credits es c : store_ok (cn_store c) →
  let out := handle_events es c in
  store_ok (cn_store out.2) ∧ db_wallets (cn_store c) `prefix_of` db_wallets (cn_store out.2) ∧
  ∃ sub news, sub `sublist_of` List.filter creditable es ∧
    (Forall proceeds (cn_replies c) → out.1 = true → sub = List.filter creditable es) ∧
    db_shares (cn_store out.2) = db_shares (cn_store c) ++ news ∧
    Forall2 (credited_as (db_wallets (cn_store out.2))) sub news.
Proof.
  revert c. induction es as [|e es IH]; intros c Hok; simpl.
  { split_and!; [done|done|]. exists [], []. rewrite app_nil_r. split_and!; done. }
  pose proof (handle_event_credits e c Hok) as (Hok1 & Hp1 & Hr1 & Hstep).
  destruct (handle_event parse_ip country network e c) as [alive c1]; simpl in *.
  assert (Hrs : Forall proceeds (cn_replies c) → Forall proceeds (cn_replies c1)).
  { destruct Hr1 as [l ->]. by intros [_ ?]%Forall_app. }
  assert (Hsub : ∀ sub, sub `sublist_of` List.filter creditable es →
                 sub `sublist_of` (if creditable e then e :: List.filter creditable es else List.filter creditable es)).
  { intros sub ?. destruct (creditable e); [by constructor|done]. }
  destruct alive; simpl.
  - destruct (IH c1 Hok1) as (Hok2 & Hp2 & sub & news & Hs & Ha & Hn & Hf).
    split_and!; [done|by etrans|]. destruct Hstep as [[E Hd]|[Hc (r & E & Hcr)]]; rewrite Hn, E.
    + exists sub, news. split_and!; [by apply Hsub| |done|done].
      intros H1 H2. rewrite (Hd H1 eq_refl). auto.
    + exists (e :: sub), (r :: news). rewrite Hc. split_and!.
      * by constructor.
      * intros H1 H2. by rewrite (Ha (Hrs H1) H2).
      * by rewrite <- app_assoc.
      * constructor; [|done]. by eapply credited_as_prefix.
  - split_and!; [done|done|]. destruct Hstep as [[E _]|[Hc (r & E & Hcr)]].
    + exists [], []. rewrite E, app_nil_r. split_and!; [apply sublist_nil_l|done|done|done].
    + exists [e], [r]. rewrite Hc. split_and!; [constructor; apply sublist_nil_l|done|done|by repeat constructor].
Qed.

(** C9: Whatever the database answers and whenever shutdown is signalled, the consumer keeps its
    tables consistent, and the rows it adds to [share] are those of some of the creditable
    events it took off the channel, in order, each once, with the event's difficulty and score
    and under the wallet that has the event's address; when every transaction goes through they
    are the rows of all of them, so the drain loses no share it has taken. *)
Theorem consumer_credits_once already deadline sel backlog c : store_ok (cn_store c) →
  let out := run_with_shutdown parse_ip country network already deadline sel backlog c in
  store_ok (cn_store out.2) ∧ db_wallets (cn_store c) `prefix_of` db_wallets (cn_store out.2) ∧
  ∃ sub news, sub `sublist_of` List.filter creditable (taken already deadline sel backlog) ∧
    (Forall proceeds (cn_replies c) → out.1 = true → sub = List.filter creditable (taken already deadline sel backlog)) ∧
    db_shares (cn_store out.2) = db_shares (cn_store c) ++ news ∧
    Forall2 (credited_as (db_wallets (cn_store out.2))) sub news.
Proof.
  intros Hok. unfold run_with_shutdown. pose proof (steps_sweep c) as [Hs Hr].
  destruct (Hs Hok) as (Hok1 & Hsh & Hp). destruct (startup_session_sweep c) as [alive c1]; simpl in *.
  assert (Hrs : Forall proceeds (cn_replies c) → Forall proceeds (cn_replies c1)).
  { destruct Hr as [l ->]. by intros [_ ?]%Forall_app. }
  destruct alive; simpl.
  - unfold taken. rewrite drain_backlog_events, select_loop_events, <- Hsh.
    destruct already; eapply handle_events_credits in Hok1 as (? & ? & sub & news & ? & ? & ? & ?);
      (split_and!; [done|by etrans|exists sub, news; split_and!; auto]).
  - split_and!; [done|done|]. exists [], []. rewrite app_nil_r. split_and!; [apply sublist_nil_l|done|done|done].
Qed.

(** ** Errors *)

Definition clean_err {A} (m : C A) : Prop := ∀ c c' err,
  Forall (λ r, match r with RLost _ => False | _ => True end) (cn_replies c) →
  m c = (Some (Err err), c') → cn_store c' = cn_store c.

Lemma clean_in_tx {A} lost (body : Z → Store → result EventError (A * Store)) : clean_err (in_tx lost body).
Proof.
  intros c c' err Hl. unfold in_tx. destruct (cn_replies c) as [|[now| |now] rs]; [done|..].
  - destruct (body now _) as [[]|]; by intros [= <- <-].
  - by intros [= <- <-].
  - apply Forall_cons in Hl. naive_solver.
Qed.

Lemma clean_session wallet worker ip app t t' : clean_err (record_session parse_ip country network wallet worker ip app t t').
Proof.
  unfold record_session. destruct (parse_ip ip); [apply clean_in_tx|]. by intros c c' err _ [= <- <-].
Qed.

(** C26: A handler that reports an error has left every table as it found it (unless only the
    acknowledgement of its commit was lost): the wallet and worker upserts are undone with the
    insert that failed.  In particular a [BlockAccepted] for an unknown block and a session with
    an unreadable address are refused with their own errors. *)
Theorem event_error_atomic e c :
  Forall (λ r, match r with RLost _ => False | _ => True end) (cn_replies c) →
  (∀ c' err, dispatch parse_ip country network e c = (Some (Err err), c') → cn_store c' = cn_store c) ∧
  (∀ hash ts corr now rs, e = BlockAccepted hash ts corr → cn_replies c = RProceed now :: rs →
     find_by_hash (hash_key hash) (st_db (cn_store c)) = None →
     ∃ c', dispatch parse_ip country network e c = (Some (Err (OrphanBlockAccepted hash)), c')) ∧
  (∀ conn wallet worker ip app t corr, e = SessionOpened conn wallet worker ip app t corr → parse_ip ip = None →
     ∃ c', dispatch parse_ip country network e c = (Some (Err (SessionBadIp ip)), c')).
Proof.
  intros Hl. split_and!.
  - intros c' err H. destruct e; simpl in H.
    + by eapply clean_in_tx.
    + unfold handle_share_rejected in H. destruct (DbShareRejectReason_try_from _); [by eapply clean_in_tx|by injection H as _ <-].
    + by eapply clean_in_tx.
    + unfold handle_block_accepted, mbind, C_bind in H.
      destruct (in_tx _ _ c) as [[[b|e]|] c1] eqn:E; [|simplify_eq; by eapply clean_in_tx|done].
      assert (Hc1 : cn_store c1 = cn_store c ∧ Forall (λ r, match r with RLost _ => False | _ => True end) (cn_replies c1)).
      { unfold in_tx in E. destruct (cn_replies c) as [|[now| |now] rs]; simplify_eq/=; apply Forall_cons in Hl as [Hr Hl]; by try destruct Hr. }
      destruct Hc1 as [<- Hl1]. destruct b; [by eapply clean_in_tx|by injection H as _ <-].
    + unfold handle_session_opened, mbind, C_bind in H.
      destruct (record_session _ _ _ _ _ _ _ _ _ c) as [[[i|e]|] c1] eqn:E; simplify_eq/=. by eapply clean_session.
    + unfold handle_session_closed in H. destruct (cn_open c !! conn_id).
      * by eapply clean_in_tx in H.
      * unfold mbind, C_bind in H. destruct (record_session _ _ _ _ _ _ _ _ _ _) as [[[i|e]|] c1] eqn:E; simplify_eq/=.
        by eapply clean_session in E.
  - intros hash ts corr now rs -> Er Hf. eexists. simpl. unfold handle_block_accepted, mbind, C_bind, in_tx at 1.
    rewrite Er. simpl. by rewrite Hf.
  - intros conn wallet worker ip app t corr -> Hp. eexists. simpl. unfold handle_session_opened, record_session, mbind, C_bind.
    rewrite Hp. done.
Qed.
End handlers.

(** ** An instance *)

Definition demo_address : string :=
  "kaspa:qqqqqqqqqqqqqqqqqqqqqqqqqqqqqqqqqqqqqqqqqqqqqqqqqqqqqqqqqqqqq"%string.
Definition demo_hash : BlockHash := repeat 7 32.
Definition demo_start : Consumer :=
  cn_with (st_with empty_db [] [] []) ∅ [RProceed 1; RProceed 2; RRefuse; RProceed 4; RProceed 5].
Definition demo_share (d : Z) : PoolEvent := ShareCredited demo_address "rig" (f64_of_Z d) 77 0 9.
Definition demo_selected : list Selected :=
  [SRecv (Received (demo_share 8)); SRecv (Received (demo_share 9)); SRecv (Lagged 3);
   SRecv (Received (SessionOpened 1 None None "?" None 0 9)); SShutdown (Some true)].
Definition demo_backlog : list (Z * option Recv) := [(10, Some (Received (demo_share 10))); (11, None)].

Lemma empty_store_ok : store_ok (cn_store demo_start).
Proof. constructor; simpl; (apply NoDup_nil_2 || apply Forall_nil_2). Qed.

Lemma consumer_credits_once_witness :
  let out := run_with_shutdown (λ _, None) (λ _, None) "mainnet" false 100 demo_selected demo_backlog demo_start in
  map sh_difficulty (db_shares (cn_store out.2)) = [f64_of_Z 8; f64_of_Z 10] ∧
  store_ok (cn_store out.2).
Proof.
  split; [vm_compute; reflexivity|].
  apply (consumer_credits_once (λ _, None) (λ _, None) "mainnet" false 100 demo_selected demo_backlog demo_start).
  apply empty_store_ok.
Defined.

Lemma event_error_atomic_witness :
  ∃ c', dispatch (λ _, None) (λ _, None) "mainnet" (BlockAccepted demo_hash 0 9) demo_start =
    (Some (Err (OrphanBlockAccepted demo_hash)), c').
Proof.
  destruct (event_error_atomic (λ _, None) (λ _, None) "mainnet" (BlockAccepted demo_hash 0 9) demo_start) as (_ & H & _).
  - vm_compute. repeat constructor.
  - by apply (H demo_hash 0 9 1 (tail (cn_replies demo_start))).
Defined.
