(* ===== verification/Replay.v ===== *)
(** * Replaying an event log (accountant/src/replay.rs)

    The log is newline-delimited JSON; [replay_all] feeds it to a consumer,
    [snapshot] reads the tables the consumer writes without their keys and
    clocks, and [verify_dual_replay] compares two replays.  Reading an event
    from JSON is a parameter.  Strings are ordered by their codes. *)

From Stdlib Require Import Ascii Floats.SpecFloat.
From S2P Require Import Prelude Float64 Mass Db PayoutRepo AccountRepo DupGuard Domain Events Bytes Hasher MiningState Stratum Listener Consumer ConsumerProps.
Local Open Scope Z_scope.

(** ** The log *)

Class EventParser := { event_from_str : list Z → option PoolEvent }.

(** [BufRead::lines]: the text between line ends, without a final carriage return. *)
Definition strip_cr (s : list Z) : list Z :=
  match last s with Some c => if c =? 13 then removelast s else s | None => s end.
Fixpoint lines_from (cur s : list Z) : list (list Z) :=
  match s with
  | [] => match cur with [] => [] | _ => [cur] end
  | c :: s => if c =? 10 then strip_cr cur :: lines_from [] s else lines_from (cur ++ [c]) s
  end.
Definition read_lines (s : list Z) : list (list Z) := lines_from [] s.

(** The number of the line that is no event. *)
Fixpoint load_lines `{!EventParser} (line_no : nat) (ls : list (list Z)) : result nat (list PoolEvent) :=
  match ls with
  | [] => Ok []
  | line :: ls =>
      match trim line with
      | [] => load_lines (S line_no) ls
      | (c :: _) as trimmed =>
          if c =? 35 then load_lines (S line_no) ls
          else match event_from_str trimmed with
               | None => Err (S line_no)
               | Some event => events ← load_lines (S line_no) ls; Ok (event :: events)
               end
      end
  end.
Definition load_ndjson_reader `{!EventParser} (text : list Z) : result nat (list PoolEvent) := load_lines 0 (read_lines text).

(** ** Reading the log *)

Section log.
Context `{!EventParser}.

(** What a line of the log stands for: nothing, or an event. *)
Inductive line_is (line : list Z) : option PoolEvent → Prop :=
| LineBlank : trim line = [] → line_is line None
| LineComment r : trim line = 35 :: r → line_is line None
| LineEvent c r e : trim line = c :: r → c ≠ 35 → event_from_str (c :: r) = Some e → line_is line (Some e).

Lemma lines_from_join cur line s : 10 ∉ line → lines_from cur (line ++ 10 :: s) = strip_cr (cur ++ line) :: lines_from [] s.
Proof.
  revert cur. induction line as [|c line IH]; intros cur Hn; simpl; [by rewrite app_nil_r|].
  apply not_elem_of_cons in Hn as [Hc Hn]. rewrite (proj2 (Z.eqb_neq c 10)) by congruence. rewrite IH by done. by rewrite <- app_assoc.
Qed.

Lemma read_lines_join ls : Forall (λ l, 10 ∉ l) ls → read_lines (flat_map (λ l, l ++ [10]) ls) = map strip_cr ls.
Proof.
  unfold read_lines. induction 1 as [|l ls Hl _ IH]; simpl; [done|]. rewrite <- app_assoc. simpl.
  rewrite lines_from_join by done. simpl. by rewrite IH.
Qed.

Lemma load_lines_app n ls os rest : Forall2 line_is ls os →
  load_lines n (ls ++ rest) = events ← load_lines (n + length ls) rest; Ok (omap id os ++ events).
Proof.
  intros Hls. revert n. induction Hls as [|l o ls os Hl _ IH]; intros n; simpl.
  - rewrite Nat.add_0_r. by destruct (load_lines n rest).
  - rewrite <- Nat.add_succ_comm. destruct Hl as [Ht|r Ht|c r e Ht Hc He]; rewrite Ht; [apply IH|apply IH|].
    rewrite (proj2 (Z.eqb_neq c 35)) by done. rewrite He, IH. by destruct (load_lines _ rest).
Qed.

(** A log of whole lines reads as the events of its event lines, in order. *)
Lemma load_ndjson_events ls os : Forall (λ l, 10 ∉ l) ls → Forall2 line_is (map strip_cr ls) os →
  load_ndjson_reader (flat_map (λ l, l ++ [10]) ls) = Ok (omap id os).
Proof.
  intros Hn Hls. unfold load_ndjson_reader. rewrite read_lines_join by done.
  rewrite <- (app_nil_r (map strip_cr ls)), (load_lines_app 0 _ os) by done. simpl. by rewrite app_nil_r.
Qed.

(** The first line that is neither blank, a comment nor an event fails the load with its number. *)
Lemma load_ndjson_error ls os bad rest c r : Forall (λ l, 10 ∉ l) (ls ++ bad :: rest) → Forall2 line_is (map strip_cr ls) os →
  trim (strip_cr bad) = c :: r → c ≠ 35 → event_from_str (c :: r) = None →
  load_ndjson_reader (flat_map (λ l, l ++ [10]) (ls ++ bad :: rest)) = Err (S (length ls)).
Proof.
  intros Hn Hls Ht Hc He. unfold load_ndjson_reader. rewrite read_lines_join, map_app by done. rewrite (load_lines_app 0 _ os) by done.
  simpl. rewrite Ht, (proj2 (Z.eqb_neq c 35)), He by done. simpl. by rewrite length_map.
Qed.
End log.

(** ** Snapshots *)

Record DbSnapshot := {
  sn_wallets : list (string * string); sn_workers : list string; sn_shares : list (f64 * Z * Z);
  sn_rejects : list (ShareRejectReason * Z); sn_blocks : list (Hash * Z * Z * BlockStatus * Z) }.

Definition snapshot (s : Store) : DbSnapshot :=
  {| sn_wallets := map (λ w, (w_address w, w_network w)) (stable_sort (λ v w, String.leb (w_address v) (w_address w)) (wallets (st_db s)));
     sn_workers := map wk_name (stable_sort (λ v w, String.leb (wk_name v) (wk_name w)) (st_workers s));
     sn_shares := stable_sort (λ x y, x.2 <=? y.2) (map (λ r, (sh_difficulty r, sh_daa_score r, sh_correlation_id r)) (shares (st_db s)));
     sn_rejects := stable_sort (λ x y, x.2 <=? y.2) (map (λ r, (rj_reason r, rj_correlation_id r)) (st_rejects s));
     sn_blocks := stable_sort (λ x y, x.1.1.1.1 <=? y.1.1.1.1)
                    (map (λ b, (bl_hash b, bl_daa_score b, bl_nonce b, bl_status b, bl_correlation_id b)) (blocks (st_db s))) |}.

(** The events whose handling was reached, in order. *)
Fixpoint replay_all (parse_ip country : string → option string) (network : string) (events : list PoolEvent) (c : Consumer) : Consumer :=
  match events with
  | [] => c
  | e :: events => replay_all parse_ip country network events (handle_event parse_ip country network e c).2
  end.

(** A fresh consumer on an empty database, with the instants of its transactions. *)
Definition fresh_consumer (clock : list Z) : Consumer := cn_with (st_with empty_db [] [] []) ∅ (map RProceed clock).

(** [==] of snapshots: f64 values compare as floats. *)
Fixpoint list_eqb {A} (eqb : A → A → bool) (l1 l2 : list A) : bool :=
  match l1, l2 with
  | [], [] => true
  | x :: l1, y :: l2 => eqb x y && list_eqb eqb l1 l2
  | _, _ => false
  end.
Definition snapshots_equal (a b : DbSnapshot) : bool :=
  bool_decide (sn_wallets a = sn_wallets b) && bool_decide (sn_workers a = sn_workers b) &&
  list_eqb (λ x y, SFeqb x.1.1 y.1.1 && (x.1.2 =? y.1.2) && (x.2 =? y.2)) (sn_shares a) (sn_shares b) &&
  bool_decide (sn_rejects a = sn_rejects b) && bool_decide (sn_blocks a = sn_blocks b).

Inductive ReplayError := BadConfig (e : ConsumerConfigError) | SnapshotsDiffer.
Definition assert_snapshots_equal (a b : DbSnapshot) : result ReplayError unit :=
  if snapshots_equal a b then Ok tt else Err SnapshotsDiffer.

Definition verify_dual_replay (parse_ip country : string → option string) (network : string) (events : list PoolEvent) (clock_a clock_b : list Z)
    : result ReplayError unit :=
  match ConsumerConfig_new network with
  | Err e => Err (BadConfig e)
  | Ok network =>
      assert_snapshots_equal (snapshot (cn_store (replay_all parse_ip country network events (fresh_consumer clock_a))))
        (snapshot (cn_store (replay_all parse_ip country network events (fresh_consumer clock_b))))
  end.

(** ** Rows without their clocks *)

Definition share_content (read : f64 → f64) (r : Share) :=
  (sh_wallet_id r, sh_worker_id r, read (sh_difficulty r), sh_daa_score r, sh_correlation_id r).
Definition reject_content (r : ShareReject) := (rj_id r, rj_wallet_id r, rj_worker_id r, rj_reason r, rj_correlation_id r).
Definition block_content (b : Block) :=
  (bl_id b, bl_finder_wallet_id b, bl_finder_worker_id b, bl_nonce b, bl_hash b, bl_daa_score b, bl_status b, bl_correlation_id b).
Definition session_content (r : ConnectionSession) :=
  (cs_id r, cs_worker_id r, cs_remote_ip r, cs_remote_app r, cs_country r, cs_connected_at r).

(** ** Two runs in step

    The second run is given the events of the first, with difficulties as [read] gives them back. *)

Definition reread_event (read : f64 → f64) (e : PoolEvent) : PoolEvent :=
  match e with ShareCredited w k difficulty daa ts corr => ShareCredited w k (read difficulty) daa ts corr | _ => e end.

Section matching.
Context (read : f64 → f64).

(** The same rows apart from the time columns, the difficulties of the first as [read] gives them. *)
Record rows_match (s1 s2 : Store) : Prop := {
  sr_wallets : wallets (st_db s1) = wallets (st_db s2);
  sr_workers : st_workers s1 = st_workers s2;
  sr_shares : map (share_content read) (shares (st_db s1)) = map (share_content id) (shares (st_db s2));
  sr_rejects : map reject_content (st_rejects s1) = map reject_content (st_rejects s2);
  sr_blocks : map block_content (blocks (st_db s1)) = map block_content (blocks (st_db s2));
  sr_sessions : map session_content (st_sessions s1) = map session_content (st_sessions s2) }.

(** The blocks of a database only the consumer has written, up to now. *)
Definition block_young (now : Z) (b : Block) : Prop :=
  block_check b = true ∧ bl_confirmed_at b = None ∧ bl_matured_at b = None ∧ bl_found_at b ≤ now.
Definition blocks_young (now : Z) (s : Store) : Prop := Forall (block_young now) (blocks (st_db s)).

Lemma map_factor {A B C} (f : A → B) (g : B → C) (h : A → C) l1 l2 :
  (∀ x, h x = g (f x)) → map f l1 = map f l2 → map h l1 = map h l2.
Proof. intros Hh He. rewrite !(map_ext _ _ Hh), <- !(map_map f g). by rewrite He. Qed.

Lemma find_factor {A B} (f : A → B) (q : B → bool) (p : A → bool) l1 l2 :
  (∀ x, p x = q (f x)) → map f l1 = map f l2 → f <$> List.find p l1 = f <$> List.find p l2.
Proof.
  intros Hp. revert l2. induction l1 as [|x l1 IH]; intros [|y l2] He; simplify_eq/=; [done|].
  rewrite !Hp. match goal with H : f x = f y |- _ => rewrite H end. destruct (q (f y)); [simpl; by f_equal|by apply IH].
Qed.

Lemma update_factor {A B} (f : A → B) (q : B → bool) (h : B → B) (p : A → bool) (g1 g2 : A → A) l1 l2 :
  (∀ x, p x = q (f x)) → (∀ x, f (g1 x) = h (f x)) → (∀ x, f (g2 x) = h (f x)) → map f l1 = map f l2 →
  map f (update_where p g1 l1) = map f (update_where p g2 l2).
Proof.
  intros Hp H1 H2 He. unfold update_where. rewrite !map_map.
  rewrite (map_ext _ (λ x, if q (f x) then h (f x) else f x)) by (intros x; rewrite Hp; by destruct (q (f x))).
  rewrite (map_ext (λ x, f (if p x then g2 x else x)) (λ x, if q (f x) then h (f x) else f x)) by (intros x; rewrite Hp; by destruct (q (f x))).
  rewrite <- !(map_map f (λ y, if q y then h y else y)). by rewrite He.
Qed.

Lemma next_id_factor {A B} (f : A → B) (g : B → Z) (key : A → Z) l1 l2 :
  (∀ x, key x = g (f x)) → map f l1 = map f l2 → next_id key l1 = next_id key l2.
Proof. intros Hk He. unfold next_id. by rewrite (map_factor f g key l1 l2 Hk He). Qed.

Definition good (now : Z) (s : Store) : Prop :=
  blocks_young now s ∧ Forall (λ r, sh_difficulty r ≠ S754_nan) (shares (st_db s)).
Definition paired (now1 now2 : Z) (s1 s2 : Store) : Prop := rows_match s1 s2 ∧ good now1 s1 ∧ good now2 s2.

(** Two transactions end the same: with related answers and alike stores, or the same error. *)
Definition twin {E A} (now1 now2 : Z) (R : A → A → Prop) (r1 r2 : result E (A * Store)) : Prop :=
  match r1, r2 with
  | Ok (a1, s1), Ok (a2, s2) => R a1 a2 ∧ paired now1 now2 s1 s2
  | Err e1, Err e2 => e1 = e2
  | _, _ => False
  end.

Lemma twin_bind {E A B} now1 now2 (R : A → A → Prop) (Q : B → B → Prop) (r1 r2 : result E (A * Store)) k1 k2 :
  twin now1 now2 R r1 r2 →
  (∀ a1 a2 s1 s2, R a1 a2 → paired now1 now2 s1 s2 → twin now1 now2 Q (k1 (a1, s1)) (k2 (a2, s2))) →
  twin now1 now2 Q (r1 ≫= k1) (r2 ≫= k2).
Proof. destruct r1 as [[a1 s1]|], r2 as [[a2 s2]|]; simpl; try done. intros [? ?]. eauto. Qed.

Lemma twin_err_as {A} now1 now2 (R : A → A → Prop) f r1 r2 : twin now1 now2 R r1 r2 → twin now1 now2 R (err_as f r1) (err_as f r2).
Proof. destruct r1 as [[a1 s1]|], r2 as [[a2 s2]|]; simpl; try done. congruence. Qed.

(** Changing one table alike. *)
Lemma paired_wallets now1 now2 s1 s2 v : paired now1 now2 s1 s2 →
  paired now1 now2 (st_with (set_wallets v (st_db s1)) (st_workers s1) (st_rejects s1) (st_sessions s1))
    (st_with (set_wallets v (st_db s2)) (st_workers s2) (st_rejects s2) (st_sessions s2)).
Proof. intros [[] [[? ?] [? ?]]]. by repeat split. Qed.
Lemma paired_workers now1 now2 s1 s2 v : paired now1 now2 s1 s2 →
  paired now1 now2 (st_with (st_db s1) v (st_rejects s1) (st_sessions s1)) (st_with (st_db s2) v (st_rejects s2) (st_sessions s2)).
Proof. intros [[] [[? ?] [? ?]]]. by repeat split. Qed.
Lemma paired_rejects now1 now2 s1 s2 v1 v2 : map reject_content v1 = map reject_content v2 → paired now1 now2 s1 s2 →
  paired now1 now2 (st_with (st_db s1) (st_workers s1) v1 (st_sessions s1)) (st_with (st_db s2) (st_workers s2) v2 (st_sessions s2)).
Proof. intros ? [[] [[? ?] [? ?]]]. by repeat split. Qed.
Lemma paired_sessions now1 now2 s1 s2 v1 v2 : map session_content v1 = map session_content v2 → paired now1 now2 s1 s2 →
  paired now1 now2 (st_with (st_db s1) (st_workers s1) (st_rejects s1) v1) (st_with (st_db s2) (st_workers s2) (st_rejects s2) v2).
Proof. intros ? [[] [[? ?] [? ?]]]. by repeat split. Qed.
Lemma paired_blocks now1 now2 s1 s2 v1 v2 : map block_content v1 = map block_content v2 →
  Forall (block_young now1) v1 → Forall (block_young now2) v2 → paired now1 now2 s1 s2 →
  paired now1 now2 (st_with (set_blocks v1 (st_db s1)) (st_workers s1) (st_rejects s1) (st_sessions s1))
    (st_with (set_blocks v2 (st_db s2)) (st_workers s2) (st_rejects s2) (st_sessions s2)).
Proof. intros ? ? ? [[] [[? ?] [? ?]]]. by repeat split. Qed.

Section twins.
Context (parse_ip country : string → option string) (network : string) (now1 now2 : Z).

Lemma twin_wallet_ensure address s1 s2 : paired now1 now2 s1 s2 →
  twin now1 now2 eq (wallet_ensure address network s1) (wallet_ensure address network s2).
Proof.
  intros Hp. pose proof (sr_wallets _ _ (proj1 Hp)) as Hw. unfold wallet_ensure. rewrite Hw. case_bool; [done|].
  destruct (List.find _ _); [done|]. split; [done|]. by apply paired_wallets.
Qed.

Lemma twin_worker_ensure wallet_id name s1 s2 : paired now1 now2 s1 s2 →
  twin now1 now2 eq (worker_ensure wallet_id name s1) (worker_ensure wallet_id name s2).
Proof.
  intros Hp. destruct (proj1 Hp) as [Hw Hk _ _ _ _]. unfold worker_ensure. rewrite Hw, Hk. case_bool; [done|].
  destruct (List.find _ _); [done|]. case_bool; [|done]. split; [done|]. by apply paired_workers.
Qed.

Lemma twin_identity wallet worker s1 s2 : paired now1 now2 s1 s2 →
  twin now1 now2 eq (ensure_identity network wallet worker s1) (ensure_identity network wallet worker s2).
Proof.
  intros Hp. eapply twin_bind; [by apply twin_err_as, twin_wallet_ensure|]. intros w _ t1 t2 <- Ht.
  eapply twin_bind; [by apply twin_err_as, twin_worker_ensure|]. by intros k _ u1 u2 <- Hu.
Qed.

Lemma twin_insert_credited w k x daa corr s1 s2 : x ≠ S754_nan → read x ≠ S754_nan → difficulty_check (read x) = difficulty_check x → paired now1 now2 s1 s2 →
  twin now1 now2 eq (insert_credited w k x daa corr now1 s1) (insert_credited w k (read x) daa corr now2 s2).
Proof.
  intros Hx Hrx Hc Hp. destruct Hp as [[Hw Hk Hs Hr Hb He] [[? ?] [? ?]]]. unfold insert_credited. simpl. rewrite Hc, Hw, Hk. case_bool; [|done].
  split; [done|]. split; [split; simpl; auto; by rewrite !map_app, Hs|].
  split; (split; [done|]; apply Forall_app; split; [done|by apply Forall_singleton]).
Qed.

Lemma twin_reject w k reason corr s1 s2 : paired now1 now2 s1 s2 →
  twin now1 now2 eq (share_reject_insert w k reason corr now1 s1) (share_reject_insert w k reason corr now2 s2).
Proof.
  intros [[Hw Hk Hs Hr Hb He] Hg]. unfold share_reject_insert. simpl. rewrite Hw, Hk. case_bool; [|done].
  split; [done|]. split; [|done]. split; simpl; auto. rewrite !map_app, Hr. f_equal. simpl. unfold reject_content. simpl.
  by rewrite (next_id_factor reject_content (λ '(i, _, _, _, _), i) rj_id _ _ (λ x, eq_refl) Hr).
Qed.

Lemma block_young_new id hash w k daa nonce corr now : 0 ≤ u64_as_i64 daa → block_young now (new_block id hash w k daa nonce corr now).
Proof. intros Hd. split_and!; [|done|done|simpl; lia]. unfold block_check. simpl. lia. Qed.

Lemma twin_block_ensure hash w k daa nonce corr s1 s2 : paired now1 now2 s1 s2 →
  twin now1 now2 eq
    ('(r, d) ← err_as BlockEnsure (block_ensure hash w k daa nonce corr now1 (st_db s1));
     Ok (tt, st_with d (st_workers s1) (st_rejects s1) (st_sessions s1)))
    ('(r, d) ← err_as BlockEnsure (block_ensure hash w k daa nonce corr now2 (st_db s2));
     Ok (tt, st_with d (st_workers s2) (st_rejects s2) (st_sessions s2))).
Proof.
  intros Hp. pose proof Hp as [[Hw Hk _ _ Hb _] [[Hy1 _] [Hy2 _]]]. unfold block_ensure.
  set (row1 := new_block _ _ _ _ _ _ _ now1). set (row2 := new_block _ _ _ _ _ _ _ now2).
  assert (block_check row1 = (0 <=? u64_as_i64 daa)) as -> by (unfold block_check; simpl; by rewrite !andb_true_r).
  assert (block_check row2 = (0 <=? u64_as_i64 daa)) as -> by (unfold block_check; simpl; by rewrite !andb_true_r).
  destruct (Z.leb_spec 0 (u64_as_i64 daa)) as [Hd|]; [|done].
  pose proof (find_factor block_content (λ '(_, _, _, _, h, _, _, _), h =? hash) (λ b, bl_hash b =? hash) _ _ (λ x, eq_refl) Hb) as Hf.
  destruct (List.find (λ b, bl_hash b =? hash) (blocks (st_db s1))) as [b1|], (List.find (λ b, bl_hash b =? hash) (blocks (st_db s2))) as [b2|];
    simplify_eq/=; [by destruct s1, s2|]. rewrite Hw. case_bool; [|done]. simpl. split; [done|]. apply paired_blocks; [| | |done].
  - rewrite !map_app, Hb. f_equal. unfold block_content. simpl.
    by rewrite (next_id_factor block_content (λ '(i, _, _, _, _, _, _, _), i) bl_id _ _ (λ x, eq_refl) Hb).
  - apply Forall_app. split; [done|]. by apply Forall_singleton, block_young_new.
  - apply Forall_app. split; [done|]. by apply Forall_singleton, block_young_new.
Qed.

Definition submit_row (now : Z) (b : Block) : Block :=
  bl_with (bl_blue_score b) SubmittedToNode (coalesce (bl_submitted_at b) now) (bl_confirmed_at b) (bl_matured_at b) (bl_miner_reward_sompi b) b.

Lemma block_young_submit now b : block_young now b → block_young now (submit_row now b).
Proof.
  intros (Hc & H1 & H2 & H3). split_and!; [|done|done|done]. unfold block_check in *. simpl. rewrite H1, H2 in *.
  destruct (bl_submitted_at b); simpl in *; [done|]. rewrite !andb_true_iff in *. split_and!; try (by destruct_and?); lia.
Qed.

Lemma twin_mark_submitted hash s1 s2 : paired now1 now2 s1 s2 →
  twin now1 now2 eq
    (d ← err_as BlockMarkSubmitted (mark_submitted hash now1 (st_db s1)); Ok (tt, st_with d (st_workers s1) (st_rejects s1) (st_sessions s1)))
    (d ← err_as BlockMarkSubmitted (mark_submitted hash now2 (st_db s2)); Ok (tt, st_with d (st_workers s2) (st_rejects s2) (st_sessions s2))).
Proof.
  intros Hp. pose proof Hp as [[_ _ _ _ Hb _] [[Hy1 _] [Hy2 _]]].
  assert (∀ now s p, blocks_young now s → update_checked block_check p (submit_row now) (blocks (st_db s)) =
    Ok (update_where p (submit_row now) (blocks (st_db s)))) as Hup.
  { intros now s p Hy. unfold update_checked. rewrite (proj2 (forallb_forall _ _)); [done|]. intros b Hin%list_elem_of_In.
    case_bool; [|done]. unfold blocks_young in Hy. rewrite Forall_forall in Hy. by apply block_young_submit, Hy. }
  unfold mark_submitted, update_blocks. rewrite (Hup now1 s1), (Hup now2 s2) by done. simpl. split; [done|]. apply paired_blocks; [| | |done].
  - apply (update_factor block_content (λ '(_, _, _, _, h, _, st, _), (h =? hash) && status_in st [Found; SubmittedToNode])
      (λ '(i, w, k, n, h, a, _, c), (i, w, k, n, h, a, SubmittedToNode, c))); done.
  - apply Forall_map. eapply Forall_impl; [exact Hy1|]. intros b Hbk. case_bool; [by apply block_young_submit|done].
  - apply Forall_map. eapply Forall_impl; [exact Hy2|]. intros b Hbk. case_bool; [by apply block_young_submit|done].
Qed.

Lemma twin_session_insert k ip app cty t u s1 s2 : paired now1 now2 s1 s2 →
  twin now1 now2 eq (session_insert k ip app cty t u s1) (session_insert k ip app cty t u s2).
Proof.
  intros Hp. pose proof Hp as [[_ Hk _ _ _ He] _]. unfold session_insert.
  assert (next_id cs_id (st_sessions s1) = next_id cs_id (st_sessions s2)) as Hn
    by exact (next_id_factor session_content (λ '(i, _, _, _, _, _), i) cs_id _ _ (λ x, eq_refl) He).
  assert (match k with Some k => existsb (λ w, wk_id w =? k) (st_workers s1) | None => true end =
    match k with Some k => existsb (λ w, wk_id w =? k) (st_workers s2) | None => true end) as -> by (by rewrite Hk).
  rewrite Hn. case_bool; [|done]. split; [done|]. apply paired_sessions; [|done]. by rewrite !map_app, He.
Qed.

Lemma twin_session_close id s1 s2 : paired now1 now2 s1 s2 → twin now1 now2 eq (session_close id now1 s1) (session_close id now2 s2).
Proof.
  intros Hp. split; [done|]. apply paired_sessions; [|done].
  by apply (update_factor session_content (λ '(i, _, _, _, _, _), i =? id) (λ x, x)), (sr_sessions _ _ (proj1 Hp)).
Qed.

Lemma twin_session_worker wallet worker s1 s2 : paired now1 now2 s1 s2 →
  twin now1 now2 eq (session_worker network wallet worker s1) (session_worker network wallet worker s2).
Proof.
  intros Hp. destruct wallet as [addr|], worker as [name|]; try by split. unfold session_worker.
  eapply twin_bind; [by apply twin_identity|]. by intros [w k] _ t1 t2 <- Ht.
Qed.
End twins.

(** ** Two consumers in step *)

(** Both still have the instants of at least [n] transactions, not before the last one. *)
Definition alike (n : nat) (c1 c2 : Consumer) : Prop :=
  ∃ t1 t2 ts1 ts2, cn_replies c1 = map RProceed ts1 ∧ cn_replies c2 = map RProceed ts2 ∧
    StronglySorted Z.le (t1 :: ts1) ∧ StronglySorted Z.le (t2 :: ts2) ∧ (n ≤ length ts1 ∧ n ≤ length ts2)%nat ∧
    cn_open c1 = cn_open c2 ∧ paired t1 t2 (cn_store c1) (cn_store c2).

Definition ends_alike {A} (R : A → A → Prop) (n : nat) (o1 o2 : option (result EventError A) * Consumer) : Prop :=
  alike n o1.2 o2.2 ∧
  match o1.1, o2.1 with
  | Some (Ok a1), Some (Ok a2) => R a1 a2
  | Some (Err e1), Some (Err e2) => e1 = e2
  | _, _ => False
  end.

Lemma alike_le m n c1 c2 : (m ≤ n)%nat → alike n c1 c2 → alike m c1 c2.
Proof. intros Hmn (t1 & t2 & ts1 & ts2 & ? & ? & ? & ? & [? ?] & ? & ?). exists t1, t2, ts1, ts2. split_and!; auto; lia. Qed.

Lemma good_later now now' s : now ≤ now' → good now s → good now' s.
Proof.
  intros Hle [Hb Hs]. split; [|done]. eapply Forall_impl; [exact Hb|]. intros b (? & ? & ? & ?). split_and!; auto; lia.
Qed.

Lemma in_tx_alike {A} (R : A → A → Prop) n lost (body body' : Z → Store → result EventError (A * Store)) c1 c2 :
  (∀ t1 t2 s1 s2, paired t1 t2 s1 s2 → twin t1 t2 R (body t1 s1) (body' t2 s2)) →
  alike (S n) c1 c2 → ends_alike R n (in_tx lost body c1) (in_tx lost body' c2).
Proof.
  intros Hbody (t1 & t2 & [|u1 ts1] & [|u2 ts2] & Hr1 & Hr2 & Ho1 & Ho2 & [Hl1 Hl2] & Hopen & Hs & Hg1 & Hg2); simpl in *; try lia.
  unfold in_tx. rewrite Hr1, Hr2. apply StronglySorted_inv in Ho1 as [Ho1 Hle1], Ho2 as [Ho2 Hle2].
  apply Forall_cons in Hle1 as [Hle1 _], Hle2 as [Hle2 _].
  assert (paired u1 u2 (cn_store c1) (cn_store c2)) as Hp by (split; [done|]; split; eauto using good_later).
  specialize (Hbody _ _ _ _ Hp). destruct (body u1 _) as [[a1 s1]|e1], (body' u2 _) as [[a2 s2]|e2]; try done.
  - split; [|apply Hbody]. exists u1, u2, ts1, ts2. split_and!; auto; try lia; apply Hbody.
  - split; [|done]. exists u1, u2, ts1, ts2. split_and!; auto; try lia.
Qed.

Lemma bind_alike {A B} (R : A → A → Prop) (Q : B → B → Prop) m n (x : C A) (k : A → C B) c1 c2 :
  (m ≤ n)%nat → ends_alike R n (x c1) (x c2) →
  (∀ a1 a2 d1 d2, R a1 a2 → alike n d1 d2 → ends_alike Q m (k a1 d1) (k a2 d2)) →
  ends_alike Q m ((x ≫= k) c1) ((x ≫= k) c2).
Proof.
  intros Hmn Hx Hk. unfold mbind, C_bind. destruct (x c1) as [[[a1|e1]|] d1], (x c2) as [[[a2|e2]|] d2], Hx as [Ha Hr]; simpl in *; try done; auto.
  split; [|done]. by eapply alike_le.
Qed.

Section handlers.
Context (parse_ip country : string → option string) (network : string).

Lemma record_session_alike n wallet worker ip app t u c1 c2 : alike (S n) c1 c2 →
  ends_alike eq n (record_session parse_ip country network wallet worker ip app t u c1) (record_session parse_ip country network wallet worker ip app t u c2).
Proof.
  intros Ha. unfold record_session. destruct (parse_ip ip) as [addr|]; [|split; [by eapply alike_le; [|exact Ha]; lia|done]].
  apply in_tx_alike; [|done]. intros t1 t2 s1 s2 Hp. eapply twin_bind; [by apply twin_session_worker|].
  intros k _ u1 u2 <- Hu. by apply twin_err_as, twin_session_insert.
Qed.

Lemma alike_open n c1 c2 f : alike n c1 c2 →
  alike n (cn_with (cn_store c1) (f (cn_open c1)) (cn_replies c1)) (cn_with (cn_store c2) (f (cn_open c2)) (cn_replies c2)).
Proof. intros (t1 & t2 & ts1 & ts2 & ? & ? & ? & ? & ? & Ho & ?). exists t1, t2, ts1, ts2. simpl. rewrite Ho. split_and!; auto; lia. Qed.

(** A share is a number, written and read, and the table takes both or neither. *)
Definition event_numeric (e : PoolEvent) : Prop :=
  match e with
  | ShareCredited _ _ x _ _ _ => x ≠ S754_nan ∧ read x ≠ S754_nan ∧ difficulty_check (read x) = difficulty_check x
  | _ => True
  end.

Lemma dispatch_alike n e c1 c2 : event_numeric e → alike (2 + n) c1 c2 →
  ends_alike eq n (dispatch parse_ip country network e c1) (dispatch parse_ip country network (reread_event read e) c2).
Proof.
  intros He Ha2. assert (alike (S n) c1 c2) as Ha1 by (eapply alike_le; [|exact Ha2]; lia).
  destruct e as [wallet worker x daa ts corr|wallet worker reason ts corr|wallet worker hash daa ts corr|hash ts corr
    |conn wallet worker ip app t corr|conn wallet worker ip app t u corr]; simpl.
  - apply in_tx_alike; [|done]. intros t1 t2 s1 s2 Hp. eapply twin_bind; [by apply twin_identity|].
    intros [w k] _ u1 u2 <- Hu. destruct He as (? & ? & ?). by apply twin_err_as, twin_insert_credited.
  - unfold handle_share_rejected. destruct (DbShareRejectReason_try_from reason); [|split; [by eapply alike_le; [|exact Ha2]; lia|done]].
    apply in_tx_alike; [|done]. intros t1 t2 s1 s2 Hp. eapply twin_bind; [by apply twin_identity|].
    intros [w k] _ u1 u2 <- Hu. by apply twin_err_as, twin_reject.
  - apply in_tx_alike; [|done]. intros t1 t2 s1 s2 Hp. eapply twin_bind; [by apply twin_identity|].
    intros [w k] _ u1 u2 <- Hu. by apply twin_block_ensure.
  - apply (bind_alike (λ o1 o2, is_Some o1 ↔ is_Some o2) _ _ (S n)); [lia| |].
    + apply in_tx_alike; [|done]. intros t1 t2 s1 s2 Hp. split; [|done]. pose proof (sr_blocks _ _ (proj1 Hp)) as Hb.
      unfold find_by_hash. pose proof (find_factor block_content (λ '(_, _, _, _, h, _, _, _), h =? hash_key hash) (λ b, bl_hash b =? hash_key hash) _ _ (λ x, eq_refl) Hb) as Hf.
      by destruct (List.find _ (blocks (st_db s1))), (List.find _ (blocks (st_db s2))).
    + intros [b1|] [b2|] d1 d2 Hb Hd; [|by destruct Hb as [[] _]|by destruct Hb as [_ []]|].
      * apply in_tx_alike; [|done]. intros. by apply twin_mark_submitted.
      * split; [|done]. eapply alike_le; [|exact Hd]. lia.
  - apply (bind_alike eq _ _ n); [lia|by apply record_session_alike|]. intros i _ d1 d2 <- Hd. split; [|done]. by apply alike_open.
  - unfold handle_session_closed. pose proof Ha1 as (_ & _ & _ & _ & _ & _ & _ & _ & _ & Ho & _). rewrite Ho.
    apply (alike_open _ _ _ (delete conn)) in Ha1. rewrite Ho in Ha1. destruct (cn_open c2 !! conn) as [id|].
    + apply in_tx_alike; [|done]. intros. by apply twin_err_as, twin_session_close.
    + apply (bind_alike eq _ _ n); [lia|by apply record_session_alike|]. by intros i _ d1 d2 <- Hd.
Qed.

Lemma replay_all_alike events n c1 c2 : Forall event_numeric events → alike (2 * length events + n) c1 c2 →
  alike n (replay_all parse_ip country network events c1) (replay_all parse_ip country network (map (reread_event read) events) c2).
Proof.
  intros Hev. revert c1 c2. induction Hev as [|e events He Hev IH]; intros c1 c2 Ha; [done|].
  cbn [map replay_all]. apply IH. pose proof (dispatch_alike (2 * length events + n) e c1 c2 He) as Hd.
  assert (alike (2 + (2 * length events + n)) c1 c2) as Ha' by (eapply alike_le; [|exact Ha]; simpl; lia).
  specialize (Hd Ha'). unfold handle_event, finish.
  destruct (dispatch _ _ _ e c1) as [[r1|] d1], (dispatch _ _ _ (reread_event read e) c2) as [[r2|] d2], Hd as [Hd _]; done.
Qed.
End handlers.

Lemma fresh_alike t ts1 ts2 n : StronglySorted Z.le (t :: ts1) → StronglySorted Z.le (t :: ts2) → (n ≤ length ts1)%nat → (n ≤ length ts2)%nat →
  alike n (fresh_consumer ts1) (fresh_consumer ts2).
Proof.
  intros H1 H2 Hl1 Hl2. exists t, t, ts1, ts2. split_and!; auto. split; [done|]. split; by split; apply Forall_nil.
Qed.
End matching.

(** ** Determinism *)

(** The same rows apart from the time columns. *)
Definition same_rows : Store → Store → Prop := rows_match id.

Lemma reread_id events : map (reread_event id) events = events.
Proof. induction events as [|e events IH]; [done|]. simpl. rewrite IH. by destruct e. Qed.

Lemma snapshot_same s1 s2 : same_rows s1 s2 → snapshot s1 = snapshot s2.
Proof.
  intros [H1 H2 H3 H4 H5 _]. unfold snapshot. rewrite H1, H2. f_equal; f_equal.
  - exact (map_factor (share_content id) (λ '(w, k, d, a, c), (d, a, c)) _ _ _ (λ x, eq_refl) H3).
  - exact (map_factor reject_content (λ '(i, w, k, r, c), (r, c)) _ _ _ (λ x, eq_refl) H4).
  - exact (map_factor block_content (λ '(i, w, k, n, h, a, s, c), (h, a, n, s, c)) _ _ _ (λ x, eq_refl) H5).
Qed.

Lemma SFeqb_refl (x : f64) : x ≠ S754_nan → SFeqb x x = true.
Proof.
  destruct x as [s|s| |s m e]; intros Hx; [done|by destruct s|done|]. unfold SFeqb. simpl.
  assert (Pos.compare_cont Eq m m = Eq) as Hm by (change (Pos.compare m m = Eq); apply Pos.compare_refl).
  destruct s; by rewrite Z.compare_refl, Hm.
Qed.

Lemma list_eqb_refl {A} (eqb : A → A → bool) l : Forall (λ x, eqb x x = true) l → list_eqb eqb l l = true.
Proof. induction 1 as [|x l Hx _ IH]; simpl; [done|]. by rewrite Hx, IH. Qed.

Lemma snapshots_equal_refl now s : good now s → snapshots_equal (snapshot s) (snapshot s) = true.
Proof.
  intros [_ Hn]. unfold snapshots_equal. rewrite !bool_decide_eq_true_2 by done. rewrite list_eqb_refl; [done|]. simpl.
  eapply Permutation_Forall; [symmetry; apply stable_sort_perm|]. apply Forall_map. eapply Forall_impl; [exact Hn|].
  intros r Hr. simpl. by rewrite SFeqb_refl, !Z.eqb_refl.
Qed.

Lemma sorted_below ts : StronglySorted Z.le ts → ∃ t0, ∀ t, t ≤ t0 → StronglySorted Z.le (t :: ts).
Proof.
  intros Hs. destruct ts as [|u ts]; [exists 0; intros; constructor; [constructor|constructor]|].
  exists u. intros t Ht. constructor; [done|]. apply StronglySorted_inv in Hs as [_ Hs]. constructor; [done|].
  eapply Forall_impl; [exact Hs|]. intros; lia.
Qed.

(** Replaying one log of events into two empty databases passes the check of the harness, whatever
    the two clocks say: the tables agree on everything but their time columns (keys and references
    included), so the snapshots are equal.  Each database answers as many transactions as two per
    event, its clock does not run backwards, and difficulties are numbers. *)
Theorem replay_deterministic parse_ip country network events clock_a clock_b :
  network ∈ VALID_NETWORKS → Forall (event_numeric id) events → StronglySorted Z.le clock_a → StronglySorted Z.le clock_b →
  (2 * length events ≤ length clock_a)%nat → (2 * length events ≤ length clock_b)%nat →
  verify_dual_replay parse_ip country network events clock_a clock_b = Ok tt ∧
  same_rows (cn_store (replay_all parse_ip country network events (fresh_consumer clock_a)))
    (cn_store (replay_all parse_ip country network events (fresh_consumer clock_b))).
Proof.
  intros Hnet Hev Ha Hb Hla Hlb. destruct (sorted_below _ Ha) as [ta Hta], (sorted_below _ Hb) as [tb Htb].
  assert (alike id (2 * length events + 0) (fresh_consumer clock_a) (fresh_consumer clock_b)) as Hal
    by (apply (fresh_alike _ (Z.min ta tb)); [apply Hta|apply Htb| |]; lia).
  pose proof (replay_all_alike id parse_ip country network events 0 _ _ Hev Hal) as Hrun. rewrite reread_id in Hrun.
  destruct Hrun as (t1 & t2 & _ & _ & _ & _ & _ & _ & _ & _ & Hs & Hg & _).
  split; [|done]. unfold verify_dual_replay, ConsumerConfig_new. rewrite bool_decide_eq_true_2 by done.
  unfold assert_snapshots_equal. rewrite <- (snapshot_same _ _ Hs). by rewrite (snapshots_equal_refl t1).
Qed.

(** A credited share, a block found and accepted, and a session; the clocks differ. *)
Definition demo_log : list PoolEvent :=
  [demo_share 8; ShareRejected demo_address "rig" Stale 0 5; BlockFound demo_address "rig" demo_hash 77 0 3; BlockAccepted demo_hash 0 3;
   SessionOpened 1 (Some demo_address) (Some "rig"%string) "10.0.0.1" None 4 6; SessionClosed 1 None None "10.0.0.1" None 4 9 6].

Lemma replay_deterministic_witness :
  let run clock := cn_store (replay_all Some (λ _, None) "mainnet" demo_log (fresh_consumer clock)) in
  verify_dual_replay Some (λ _, None) "mainnet" demo_log (repeat 100 12) (repeat 900 12) = Ok tt ∧
  same_rows (run (repeat 100 12)) (run (repeat 900 12)) ∧
  length (sn_shares (snapshot (run (repeat 100 12)))) = 1%nat ∧ length (sn_rejects (snapshot (run (repeat 100 12)))) = 1%nat ∧
  map (λ b, b.1.2) (sn_blocks (snapshot (run (repeat 100 12)))) = [SubmittedToNode].
Proof.
  cbv zeta.
  destruct (replay_deterministic Some (λ _, None) "mainnet" demo_log (repeat 100 12) (repeat 900 12)) as [H1 H2].
  - by_computation.
  - by repeat constructor.
  - repeat constructor; lia.
  - repeat constructor; lia.
  - simpl. lia.
  - simpl. lia.
  - split_and!; [exact H1|exact H2|vm_compute; reflexivity..].
Defined.

(** A difficulty that is no number, which the column accepts, makes the check report a difference
    between two equal databases. *)
Lemma nan_reported_as_difference :
  verify_dual_replay Some (λ _, None) "mainnet" [ShareCredited demo_address "rig" S754_nan 77 0 9] (repeat 100 2) (repeat 100 2) = Err SnapshotsDiffer.
Proof. vm_compute. reflexivity. Qed.
