(* ===== verification/BridgeFeed.v ===== *)
(** * From a submission to the ledger

    The stratum bridge and the event consumer together: what the bridge
    publishes for a submission is well typed, and fed to the consumer it
    leaves at most one new row in the share table, backed by proof of work. *)

From S2P Require Import Prelude Float64 Mass Db PayoutRepo AccountRepo Effects DupGuard Domain Events Bytes Hasher MiningState Stratum KaspaApi ShareHandler ShareProps ShareDemo Consumer ConsumerProps.
Local Open Scope Z_scope.

(** ** Well-typed events *)

(** An address of either network, a worker name and a difficulty as the ledger may keep them. *)
Definition good_address (s : string) : Prop := (14 ≤ String.length s ≤ 96)%nat ∧
  ∃ body, (s = "kaspa:" +:+ body ∨ s = "kaspatest:" +:+ body) ∧ Forall (λ c, is_ascii_lowercase c || is_ascii_digit c = true) (chars body).
Definition good_worker (s : string) : Prop := (1 ≤ String.length s ≤ 64)%nat ∧ Forall (λ c, is_safe_worker_char c = true) (chars s).
Definition good_difficulty (d : f64) : Prop := f64_is_finite d = true ∧ f64_lt f64_zero d = true.

Section typed.
Context `{!HexCrate, !HexCrateOk, !KaspaPow}.
Context (cid : Z) (event : JsonRpcEvent).

(** The hash of a block that is one: its header meets the network target. *)
Definition block_hash_of (h : Header) (hash : BlockHash) : Prop :=
  BlockHash_from_hex (header_hash h) = Ok hash ∧ hash_bytes hash ∧ check_pow h (nonce h) ≤ calculate_target (bits h).

(** An event of submission [cid]: its fields are in their domains, a block is announced and accepted
    under the hash and the score of a header that meets the network target, and nothing is said of
    sessions. *)
Definition event_typed (e : PoolEvent) : Prop :=
  match e with
  | ShareCredited wallet worker difficulty _ _ c => good_address wallet ∧ good_worker worker ∧ good_difficulty difficulty ∧ c = cid
  | ShareRejected wallet worker _ _ c => good_address wallet ∧ good_worker worker ∧ c = cid
  | BlockFound wallet worker hash daa _ c => good_address wallet ∧ good_worker worker ∧ c = cid ∧ ∃ h, block_hash_of h hash ∧ daa = daa_score h
  | BlockAccepted hash _ c => c = cid ∧ ∃ h, block_hash_of h hash
  | SessionOpened _ _ _ _ _ _ _ | SessionClosed _ _ _ _ _ _ _ _ => False
  end.

Definition act_typed (a : Act) : Prop := match a with AEvent e => event_typed e | _ => True end.

Lemma address_good s t : WalletAddress_new s = Ok t → good_address t.
Proof. by intros (-> & ? & ?)%WalletAddress_new_spec. Qed.
Lemma worker_good s t : WorkerName_new s = Ok t → good_worker t.
Proof. intros (-> & ? & ?)%WorkerName_new_spec. by split. Qed.
Lemma difficulty_good d t : ShareDifficulty_new d = Ok t → good_difficulty t.
Proof.
  unfold ShareDifficulty_new, good_difficulty. destruct d as [[]|[]| |[] m e]; simpl; try done. by intros [= <-].
Qed.
#[local] Hint Resolve address_good worker_good difficulty_good : core.

(** The computation adds only well-typed acts to the trace. *)
Definition typed {A} (m : H A) : Prop := ∀ b, ∃ new, br_trace (m b).2 = br_trace b ++ new ∧ Forall act_typed new.

Lemma typed_silent {A} (m : H A) : silent m → typed m.
Proof. intros Hm b. exists []. rewrite app_nil_r. split; [apply Hm|done]. Qed.

Lemma typed_bind {A B} (m : H A) (k : A → H B) : typed m → (∀ a, typed (k a)) → typed (m ≫= k).
Proof.
  intros Hm Hk b. unfold mbind, H_bind. destruct (Hm b) as (l1 & E1 & F1).
  destruct (m b) as [[[a|e]|] b1]; simpl in *; [|by exists l1..].
  destruct (Hk a b1) as (l2 & E2 & F2). exists (l1 ++ l2). rewrite E2, E1, app_assoc. split; [done|by apply Forall_app].
Qed.

Lemma typed_emit_opt e : (∀ x, e = Some x → event_typed x) → typed (emit_opt e).
Proof.
  intros He b. destruct e as [x|]; simpl; [|exists []; by rewrite app_nil_r].
  unfold emit. destruct (bus_attached (br_handler b)); simpl; [exists [AEvent x]|exists []; by rewrite app_nil_r].
  split; [done|]. apply Forall_singleton. by apply He.
Qed.

Lemma typed_await {A} acts (k : Await → result SubmitError A) : (∀ aw, Forall act_typed (acts aw)) → typed (await acts k).
Proof.
  intros Ha b. unfold await. destruct (br_awaits b) as [|aw aws]; simpl; [exists []; by rewrite app_nil_r|].
  destruct (aw_meanwhile aw _). simpl. by exists (acts aw).
Qed.

Lemma typed_reply r : typed (reply r).
Proof.
  unfold reply. apply typed_bind; [apply typed_silent; auto with silent|]. intros c. case_bool; [apply typed_silent; auto with silent|].
  apply typed_await. intros aw. case_bool; [|done]. by apply Forall_singleton.
Qed.

Lemma typed_ignore_err m : typed m → typed (ignore_err m).
Proof. intros Hm b. destruct (Hm b) as (l & E & ?). exists l. unfold ignore_err. by destruct (m b) as [[[]|] ?]. Qed.

Lemma typed_reject wallet worker reason : typed (reject wallet worker reason cid).
Proof.
  apply typed_bind; [apply typed_silent; auto with silent|]. intros now. apply typed_emit_opt. intros x.
  unfold build_share_rejected. destruct (WalletAddress_new wallet) as [w|] eqn:Ew; [|done].
  destruct (WorkerName_new worker) as [k|] eqn:Ek; [|done]. intros [= <-].
  split_and!; eauto.
Qed.

Lemma hash_typed s h : BlockHash_from_hex s = Ok h → hash_bytes h.
Proof.
  unfold BlockHash_from_hex. intros H. case_bool_in H; [done|]. apply negb_false_iff, Nat.eqb_eq in E.
  rewrite decode_to_slice_spec in H by done. destruct (hex_pairs s) as [bs|] eqn:Hp; simplify_eq.
  apply hex_pairs_bytes in Hp as [? ?]. split; [lia|done].
Qed.

Ltac solve_typed :=
  repeat first
    [ solve [apply typed_silent; auto 1 with silent]
    | apply typed_reply
    | apply typed_reject
    | apply typed_ignore_err
    | apply typed_bind
    | progress intros
    | match goal with |- typed (match ?x with _ => _ end) => destruct x end ].

Lemma typed_found_block key h : check_pow h (nonce h) ≤ calculate_target (bits h) → typed (found_block cid event key h).
Proof.
  intros Hpow. unfold found_block. solve_typed.
  - apply typed_emit_opt. intros x. unfold block_found_event. destruct (WalletAddress_new _) as [w|] eqn:Ew; [|done].
    destruct (WorkerName_new _) as [k|] eqn:Ek; [|done]. destruct (BlockHash_from_hex _) eqn:Eh; [|done]. intros [= <-].
    split_and!; eauto. exists h. split; [|done]. split_and!; [done|by eapply hash_typed|done].
  - apply typed_await. intros aw. by apply Forall_singleton.
  - unfold settle_block. solve_typed. apply typed_emit_opt. intros x. unfold block_accepted_event.
    destruct (BlockHash_from_hex _) eqn:Eh; [|done]. intros [= <-]. split; [done|]. exists h. split_and!; [done|by eapply hash_typed|done].
Qed.

Lemma typed_try_job key job_id n cur j : typed (try_job cid event key job_id n cur j).
Proof.
  unfold try_job. case_bool; [apply typed_bind; [apply typed_found_block; by apply Z.leb_le|intros r]; solve_typed|]. solve_typed.
Qed.

Lemma typed_pow_loop fuel key job_id n cur j : typed (pow_loop cid fuel event key job_id n cur j).
Proof.
  revert cur j. induction fuel as [|fuel IH]; intros cur j; cbn [pow_loop];
    (apply typed_bind; [apply typed_try_job|]); intros []; try apply IH; solve_typed.
Qed.

Lemma typed_accepted_share key j : typed (accepted_share cid event key j).
Proof.
  unfold accepted_share. solve_typed. apply typed_emit_opt. intros x. unfold share_credited_event.
  destruct (WalletAddress_new _) as [w|] eqn:Ew; [|done]. destruct (WorkerName_new _) as [k|] eqn:Ek; [|done].
  destruct (ShareDifficulty_new _) as [d|] eqn:Ed; [|done]. intros [= <-].
  split_and!; eauto.
Qed.

Lemma typed_handle_submit : typed (handle_submit cid event).
Proof.
  unfold handle_submit. apply typed_bind; [unfold read_submission; solve_typed|]. intros [[[job_id j] final] n].
  apply typed_bind; [solve_typed|]. intros w. apply typed_bind; [solve_typed|]. intros [o|]; [unfold repeat_answer; solve_typed|].
  apply typed_bind; [apply typed_pow_loop|]. intros [[[] j']|]; [unfold low_diff_share; solve_typed|apply typed_accepted_share|solve_typed].
Qed.

(** C25: Every event a submission publishes, whatever the miner sent and the other tasks did, carries the
    submission's correlation id and fields the ledger may keep: addresses of 14 to 96 characters behind a
    network prefix, worker names of 1 to 64 safe characters, finite and positive difficulties; a block is
    announced or accepted only under the 32-byte hash of a header that meets the network target, with that
    header's score; and no session event is published. *)
Theorem submitted_events_typed b :
  ∃ new, br_trace (handle_submit cid event b).2 = br_trace b ++ new ∧ Forall act_typed new.
Proof. apply typed_handle_submit. Qed.
End typed.

(** ** The consumer's side *)

Lemma good_worker_check name : good_worker name → worker_check name = true.
Proof.
  intros [[Hl1 Hl2] Hc]. unfold worker_check. rewrite (proj2 (Nat.leb_le 1 _)), (proj2 (Nat.leb_le _ 64)) by done. simpl.
  apply forallb_forall. intros c Hin%list_elem_of_In. by apply (proj1 (Forall_forall _ _) Hc).
Qed.

Lemma good_difficulty_check d : good_difficulty d → difficulty_check d = true.
Proof. unfold good_difficulty, difficulty_check. by destruct d as [[]|[]| |[] m e]; intros [? ?]. Qed.

(** The schema refuses a well-typed share for its address or its score only. *)
Lemma typed_creditable network wallet worker d daa t c : good_worker worker → good_difficulty d →
  creditable network (ShareCredited wallet worker d daa t c) = wallet_check wallet network && (0 <=? u64_as_i64 daa).
Proof.
  intros Hk Hd. simpl. by rewrite (good_worker_check _ Hk), (good_difficulty_check _ Hd), !andb_true_r.
Qed.

Definition published (l : list Act) : list PoolEvent := omap (λ a, match a with AEvent e => Some e | _ => None end) l.

Lemma credits_verdicts network l : (length (List.filter (creditable network) (published l)) ≤ verdicts l)%nat.
Proof.
  unfold verdicts. induction l as [|a l IH]; simpl; [lia|]. destruct a as [e| |]; simpl; [|lia..].
  destruct e; simpl; [|lia..]. case_bool; simpl; lia.
Qed.

Section ledger.
Context `{!HexCrate, !KaspaPow}.
Context (parse_ip : string → option string) (country : string → option string) (network : string).

(** C8: One submission, its events handed to the consumer in order: the share table gains at most
    one row, and that row carries the DAA score of a job in the connection's ring whose header
    with the miner's nonce beat the connection's target or was sent to the node. *)
Theorem submission_credits_at_most_once cid event b c : store_ok (cn_store c) →
  ∃ new, br_trace (handle_submit cid event b).2 = br_trace b ++ new ∧
  let out := handle_events parse_ip country network (published new) c in
  store_ok (cn_store out.2) ∧
  ∃ news, db_shares (cn_store out.2) = db_shares (cn_store c) ++ news ∧ (length news ≤ 1)%nat ∧
    ∀ r, r ∈ news → ∃ j h, mined event (br_ctx b) j h ∧ sh_daa_score r = u64_as_i64 (daa_score h) ∧
      (check_pow h (nonce h) < pool_target (state (br_ctx b)) ∨ ASubmitBlock h ∈ new).
Proof.
  intros Hok. destruct (handle_submit_shows cid event b) as (new & Ht & Hn). destruct (submission_facts _ _ _ _ Hn) as [Hv Hb].
  exists new. split; [done|].
  destruct (handle_events_credits parse_ip country network (published new) c Hok) as (Hok' & _ & sub & news & Hs & _ & Hsh & Hf).
  split; [done|]. exists news. split; [done|]. pose proof (Forall2_length _ _ _ Hf) as Hl. apply sublist_length in Hs as Hs'.
  pose proof (credits_verdicts network new). split; [lia|]. intros r Hr.
  apply list_elem_of_lookup in Hr as [i Hi]. destruct (Forall2_lookup_r _ _ _ _ _ Hf Hi) as (e & He%list_elem_of_lookup_2 & Hcr).
  apply (sublist_submseteq _ _) in Hs. eapply elem_of_submseteq in He; [|done].
  apply list_elem_of_In, filter_In in He as [He Hc]. destruct e as [w k d daa t c'| | | | |]; try done.
  apply list_elem_of_In, list_elem_of_omap in He as ([e'| |] & Ha & Heq); simplify_eq.
  rewrite Forall_forall in Hb. destruct (Hb _ Ha) as (_ & j & h & ? & -> & ?). destruct Hcr as (_ & ? & _). eauto 6.
Qed.
End ledger.

(** ** An instance *)

Import HexModel Pool.

Module Feed.
Definition miner : Bridge :=
  bridge (client demo_address (ring 7 (f64_of_Z 1) 1000)) (with_event_bus (ShareHandler_new 0)).
Definition share : JsonRpcEvent := submit "7" "ab".
End Feed.

Lemma submission_credits_at_most_once_witness :
  let out := handle_events (λ _, None) (λ _, None) "mainnet" (published (br_trace (handle_submit 1 Feed.share Feed.miner).2)) demo_start in
  map sh_daa_score (db_shares (cn_store out.2)) = [1007] ∧ store_ok (cn_store out.2).
Proof.
  split; [vm_compute; reflexivity|].
  destruct (submission_credits_at_most_once (λ _, None) (λ _, None) "mainnet" 1 Feed.share Feed.miner demo_start empty_store_ok)
    as (new & -> & Hok & _). exact Hok.
Defined.

Lemma submitted_events_typed_witness :
  ∃ new, br_trace (handle_submit 1 Feed.share Feed.miner).2 = br_trace Feed.miner ++ new ∧ Forall (act_typed 1) new.
Proof. exact (submitted_events_typed 1 Feed.share Feed.miner). Defined.
