(* ===== verification/Accountant.v ===== *)
(** * The accountant: windows, PROP allocation and the maturity tracker

    accountant/src/window.rs, allocation.rs, tier.rs and maturity.rs. *)

From Stdlib Require Import SpecFloat.
From S2P Require Import Prelude Float64 Mass Db PayoutRepo PayoutSpec Effects FeeModel Domain AccountRepo.
Local Open Scope Z_scope.

(** ** window.rs *)

Record CloseOutcome := { co_wallets : Z; co_shares : Z; co_total_weight : f64 }.

(** Postgres [sum(float8)]: the rows of each piece are added up in the order of the plan, then the pieces;
    an overflow to infinity is an error. *)
Definition pg_is_infinite (x : f64) : bool := match x with S754_infinity _ => true | _ => false end.
Definition pg_add_all (l : list f64) : result DbError f64 :=
  foldl (λ acc x, a ← acc;
           let r := f64_add a x in
           if pg_is_infinite r && negb (pg_is_infinite a) && negb (pg_is_infinite x)
           then Err Constraint else Ok r) (Ok f64_zero) l.
(** The result of each, or the first error. *)
Fixpoint traverse {E A B} (f : A → result E B) (l : list A) : result E (list B) :=
  match l with
  | [] => Ok []
  | x :: l => y ← f x; ys ← traverse f l; Ok (y :: ys)
  end.
Definition pg_sum (plan : ScanPlan) (l : list f64) : result DbError f64 :=
  partial ← traverse pg_add_all (pieces (sp_pieces plan) (arrange (sp_order plan) l)); pg_add_all partial.

Definition shares_in (s e : Z) (d : Db) : list Share :=
  List.filter (λ x, (s <=? sh_daa_score x) && (sh_daa_score x <? e)) (shares d).

(** The wallets of the aggregation, each once. *)
Definition contributors (l : list Share) : list Z := remove_dups (map sh_wallet_id l).

(** One group: insert its rollup, or refresh the existing one keeping [started_at]. *)
Definition upsert_rollup (s e now w : Z) (group : list Share) (d : Db) : result DbError Db :=
  weight ← pg_sum (scan_plan d "close_window" w) (map sh_difficulty group);
  let count := Z.of_nat (length group) in
  let first := match map sh_credited_at group with [] => now | t :: ts => foldr Z.min t ts end in
  let row := {| sw_id := next_id sw_id (share_windows d); sw_wallet_id := w; sw_daa_start := s;
                sw_daa_end := e; sw_started_at := first; sw_ended_at := now;
                sw_total_weight := weight; sw_share_count := count |} in
  if window_check row then
    if existsb (same_window w s e) (share_windows d) then
      Ok (set_share_windows (update_where (same_window w s e)
            (λ r, {| sw_id := sw_id r; sw_wallet_id := w; sw_daa_start := s; sw_daa_end := e;
                     sw_started_at := sw_started_at r; sw_ended_at := now;
                     sw_total_weight := weight; sw_share_count := count |}) (share_windows d)) d)
    else Ok (set_share_windows (share_windows d ++ [row]) d)
  else Err Constraint.

Fixpoint upsert_rollups (s e now : Z) (all : list Share) (ws : list Z) (d : Db) : result DbError Db :=
  match ws with
  | [] => Ok d
  | w :: ws =>
      d ← upsert_rollup s e now w (List.filter (λ x, sh_wallet_id x =? w) all) d;
      upsert_rollups s e now all ws d
  end.

(** The transaction of [close_window]. *)
Definition close_window_tx (daa_start daa_end now : Z) (d : Db) : result DbError (CloseOutcome * Db) :=
  if daa_end <=? daa_start then Err Config
  else
    let s := u64_as_i64 daa_start in
    let e := u64_as_i64 daa_end in
    let all := shares_in s e d in
    d ← upsert_rollups s e now all (contributors all) d;
    let rows := List.filter (λ r, (sw_daa_start r =? s) && (sw_daa_end r =? e)) (share_windows d) in
    weight ← pg_sum (scan_plan d "window_totals" 0) (map sw_total_weight rows);
    count ← to_bigint (sumZ (map sw_share_count rows));
    Ok ({| co_wallets := Z.of_nat (length (contributors all)); co_shares := count;
           co_total_weight := weight |}, d).

(** ** allocation.rs *)

Inductive AllocationOutcome :=
| Allocated (wallet_count : nat) (total_net total_nacho total_pool_fee residue : Z)
| AlreadyAllocated
| NoContributingWallets (retained_reward_sompi : Z).

Inductive AllocationEngineError :=
| AEDb (e : DbError)
| AEMath (e : AllocationError)
| AEUnknownReward (id : Z)
| AEInvalidWindowWeight (total_weight : f64)
| AEInvalidWalletAddress (address : string).

Definition pro_rate (block_reward_sompi : Z) (weight total_weight : f64) : Z :=
  if f64_eq weight f64_zero || f64_le total_weight f64_zero then 0
  else
    let ratio := f64_div weight total_weight in
    let portion := f64_mul (f64_of_Z block_reward_sompi) ratio in
    let floored := f64_floor portion in
    if f64_le floored f64_zero then 0
    else if f64_le (f64_of_Z block_reward_sompi) floored then block_reward_sompi
    else f64_as_i64 floored.

Record Totals := { tot_pool_fee : Z; tot_nacho : Z; tot_net : Z }.

Definition sum_totals (l : list Allocation) : Totals :=
  foldl (λ t a, {| tot_pool_fee := i64_saturating_add (tot_pool_fee t) (al_pool_fee_sompi a);
                   tot_nacho := i64_saturating_add (tot_nacho t) (al_nacho_accrual_sompi a);
                   tot_net := i64_saturating_add (tot_net t) (al_net_payout_sompi a) |})
    {| tot_pool_fee := 0; tot_nacho := 0; tot_net := 0 |} l.

(** [windows.iter().map(|w| w.total_weight).sum::<f64>()]. *)
Definition sum_f64 (l : list f64) : f64 := foldl f64_add f64_zero l.

(** The index of the smallest wallet id (the first one on a tie). *)
Definition first_wallet (windows : list ShareWindow) : option nat :=
  fst <$> head (stable_sort (λ x y, x.2 <=? y.2) (imap (λ i w, (i, sw_wallet_id w)) windows)).

(** Pro-rate, then hand the residue to the smallest wallet id. *)
Definition split_reward (reward_sompi : Z) (windows : list ShareWindow) (total_weight : f64)
    : exec (list Z * Z) :=
  let grosses := map (λ w, pro_rate reward_sompi (sw_total_weight w) total_weight) windows in
  summed ← sum_i64 grosses;
  let residue := i64_saturating_sub reward_sompi summed in
  Ret (match first_wallet windows with
       | Some i => (alter (λ g, i64_saturating_add g residue) i grosses, residue)
       | None => (grosses, residue)
       end).

(** One allocation per gross and tier; the first error stops. *)
Fixpoint compute_all (fee : FeeConfig) (l : list (Z * WalletTier)) : exec (result AllocationError (list Allocation)) :=
  match l with
  | [] => Ret (Ok [])
  | (g, t) :: l =>
      r ← compute_allocation fee g t;
      match r with
      | Err e => Ret (Err e)
      | Ok a =>
          rest ← compute_all fee l;
          Ret (match rest with Ok as_ => Ok (a :: as_) | Err e => Err e end)
      end
  end.

Definition new_row (total_weight : f64) (w : ShareWindow) (a : Allocation) : NewAllocation :=
  {| na_wallet_id := sw_wallet_id w; na_weight := sw_total_weight w; na_window_total := total_weight;
     na_gross_share_sompi := al_gross_sompi a; na_pool_fee_sompi := al_pool_fee_sompi a;
     na_nacho_accrual_sompi := al_nacho_accrual_sompi a; na_net_payout_sompi := al_net_payout_sompi a;
     na_applied_topline_bps := if al_applied_topline_bps a <=? i16_max then al_applied_topline_bps a else i16_max;
     na_applied_rebate_bps := if al_applied_rebate_bps a <=? i16_max then al_applied_rebate_bps a else i16_max;
     na_applied_tier := al_applied_tier a |}.

Fixpoint accrue_all (rows : list NewAllocation) (now : Z) (d : Db) : result DbError Db :=
  match rows with
  | [] => Ok d
  | r :: rows =>
      d ← (if 0 <? na_nacho_accrual_sompi r
           then '(_, d) ← accrue (na_wallet_id r) (na_nacho_accrual_sompi r) now d; Ok d
           else Ok d);
      accrue_all rows now d
  end.

(** A transaction body's three endings: it commits, it gives up and rolls back with an answer, or
    it fails. *)
Inductive tx_end (A : Type) := Commit (a : A) (d : Db) | Rollback (a : A) | TxFail (e : AllocationEngineError).
Arguments Commit {A} a d.
Arguments Rollback {A} a.
Arguments TxFail {A} e.

Definition tx_bind {A B} (r : result DbError A) (k : A → exec (tx_end B)) : exec (tx_end B) :=
  match r with Ok a => k a | Err e => Ret (TxFail (AEDb e)) end.

(** The transaction that writes the allocation. *)
Definition allocate_tx (reward_id : Z) (rows : list NewAllocation) (outcome : AllocationOutcome)
    (actor : string) (now : Z) (d : Db) : exec (tx_end AllocationOutcome) :=
  match lock_for_allocation reward_id d with
  | None => Ret (TxFail (AEUnknownReward reward_id))
  | Some reward =>
      if negb (is_unallocated reward) then Ret (Rollback AlreadyAllocated)
      else
        inserted ← insert_batch reward_id rows now d;
        tx_bind inserted (λ '(_, d),
          tx_bind (accrue_all rows now d) (λ d,
            let d := mark_allocated reward_id now d in
            Ret (Commit outcome
              (audit_append actor "coinbase_reward.allocated" (Some ("coinbase_reward"%string, reward_id)) d))))
  end.

Definition finalise_empty_tx (reward_id reward : Z) (actor : string) (now : Z) (d : Db)
    : exec (tx_end AllocationOutcome) :=
  match lock_for_allocation reward_id d with
  | None => Ret (TxFail (AEUnknownReward reward_id))
  | Some r =>
      if negb (is_unallocated r) then Ret (Rollback AlreadyAllocated)
      else
        let d := mark_allocated reward_id now d in
        Ret (Commit (NoContributingWallets reward)
          (audit_append actor "coinbase_reward.allocated_empty" (Some ("coinbase_reward"%string, reward_id)) d))
  end.

Section engine.
Context {Script : Type}.

(** A transaction whose body may abort the process. *)
Definition run_tx {A} (body : Z → Db → exec (tx_end A)) : M Script AllocationEngineError A := λ w,
  match w_replies w with
  | [] => (Crashed, w)
  | Refuse :: rs => (Done (Err (AEDb Connection)), world_replies rs w)
  | (Proceed now _ | Lost now _) as r :: rs =>
      match body now (w_db w) with
      | Panic => (Crashed, world_replies rs w)
      | Ret (TxFail e) => (Done (Err e), world_replies rs w)
      | Ret (Rollback a) => (Done (Ok a), world_replies rs w)
      | Ret (Commit a d) =>
          (match r with Lost _ _ => Done (Err (AEDb Connection)) | _ => Done (Ok a) end,
           world_db d (world_replies rs w))
      end
  end.

(** The engine's configuration; the tier classifier is an HTTP service behind a trait, [None] is
    its error. *)
Record AllocationEngine := {
  ae_fee : FeeConfig;
  ae_classify : string → option WalletTier;
  ae_instance_id : string;
}.

Definition finalise_empty (e : AllocationEngine) (reward_id reward : Z)
    : M Script AllocationEngineError AllocationOutcome :=
  run_tx (finalise_empty_tx reward_id reward (ae_instance_id e)).

Definition lookup_wallet_addr (wallet_id : Z) : M Script AllocationEngineError string :=
  w ← map_err AEDb (query (wallet_get_by_id wallet_id));
  match WalletAddress_new (w_address w) with
  | Ok a => mret a
  | Err _ => throw (AEInvalidWalletAddress (w_address w))
  end.

(** The classification loop: an error of the classifier means [Standard]. *)
Definition classify_all (e : AllocationEngine) (windows : list ShareWindow)
    : M Script AllocationEngineError (list WalletTier) :=
  for_each windows [] (λ w tiers,
    addr ← lookup_wallet_addr (sw_wallet_id w);
    mret (tiers ++ [default Standard (ae_classify e addr)])).

Definition allocate_coinbase_reward (e : AllocationEngine) (reward_id reward_sompi daa_start daa_end : Z)
    : M Script AllocationEngineError AllocationOutcome :=
  if reward_sompi <? 0 then throw (AEMath (NegativeGross reward_sompi))
  else
    _ ← map_err AEDb (transact (close_window_tx daa_start daa_end));
    windows ← map_err AEDb (query (λ d, Ok (list_for_window daa_start daa_end d)));
    match windows with
    | [] => finalise_empty e reward_id reward_sompi
    | _ =>
        let total_weight := sum_f64 (map sw_total_weight windows) in
        if negb (f64_is_finite total_weight) || f64_le total_weight f64_zero
        then throw (AEInvalidWindowWeight total_weight)
        else
          '(grosses, residue) ← lift_exec (split_reward reward_sompi windows total_weight);
          tiers ← classify_all e windows;
          allocations ← (r ← lift_exec (compute_all (ae_fee e) (zip grosses tiers));
                         match r with Ok l => mret l | Err e => throw (AEMath e) end);
          let rows := zip_with (new_row total_weight) windows allocations in
          let totals := sum_totals allocations in
          run_tx (allocate_tx reward_id rows
            (Allocated (length windows) (tot_net totals) (tot_nacho totals) (tot_pool_fee totals) residue)
            (ae_instance_id e))
    end.

(** ** maturity.rs *)

Definition is_mature (virtual_daa_score block_daa_score coinbase_maturity : Z) : bool :=
  match u64_checked_sub virtual_daa_score block_daa_score with
  | Some depth => coinbase_maturity <=? depth
  | None => false
  end.

Inductive BlockColor := Blue | Red | NotYetMerged.

Record CoinbaseUtxo := { cu_transaction_id : Hash; cu_index : Z; cu_amount_sompi : Z; cu_block_daa_score : Z }.

(** The node the tracker reads through its own [KaspadClient] trait; [None] is a failed call. *)
Record TrackerNode := {
  tn_virtual_daa_score : option Z;
  tn_block_color : Hash → option BlockColor;
  tn_coinbase_utxos : option (list CoinbaseUtxo);
}.

Record MaturityConfig := {
  mc_coinbase_maturity : Z; mc_window_daa_span : Z; mc_batch_size : Z; mc_coinbase_min_daa_score : Z }.

Definition MaturityConfig_default : MaturityConfig :=
  {| mc_coinbase_maturity := 1000; mc_window_daa_span := 600; mc_batch_size := 200;
     mc_coinbase_min_daa_score := 0 |}.

Record SweepStats := {
  ss_confirmed_blue : Z; ss_orphaned : Z; ss_blocks_waiting : Z; ss_rewards_discovered : Z;
  ss_rewards_allocated : Z; ss_rewards_empty : Z; ss_errors : Z; ss_skipped_below_floor : Z }.

Definition SweepStats_default : SweepStats :=
  {| ss_confirmed_blue := 0; ss_orphaned := 0; ss_blocks_waiting := 0; ss_rewards_discovered := 0;
     ss_rewards_allocated := 0; ss_rewards_empty := 0; ss_errors := 0; ss_skipped_below_floor := 0 |}.

(** Add to the counters. *)
Definition bump (b o w disc al em er fl : Z) (s : SweepStats) : SweepStats :=
  {| ss_confirmed_blue := ss_confirmed_blue s + b; ss_orphaned := ss_orphaned s + o;
     ss_blocks_waiting := ss_blocks_waiting s + w; ss_rewards_discovered := ss_rewards_discovered s + disc;
     ss_rewards_allocated := ss_rewards_allocated s + al; ss_rewards_empty := ss_rewards_empty s + em;
     ss_errors := ss_errors s + er; ss_skipped_below_floor := ss_skipped_below_floor s + fl |}.

Inductive TrackerError := TKaspad | TDb (e : DbError) | TEngine (e : AllocationEngineError).

Inductive BlockOutcome := BConfirmedBlue | BOrphaned | BStillWaiting.

Definition process_submitted (cfg : MaturityConfig) (node : TrackerNode) (blk : Block) (virtual_daa : Z)
    : M Script TrackerError BlockOutcome :=
  match tn_block_color node (bl_hash blk) with
  | None => throw TKaspad
  | Some Blue =>
      _ ← map_err TDb (statement (mark_confirmed_blue (bl_hash blk) None)); mret BConfirmedBlue
  | Some Red => _ ← map_err TDb (statement (λ _, mark_orphaned (bl_hash blk))); mret BOrphaned
  | Some NotYetMerged =>
      if u64_saturating_add (i64_as_u64 (bl_daa_score blk)) (mc_coinbase_maturity cfg) <=? virtual_daa
      then _ ← map_err TDb (statement (λ _, mark_orphaned (bl_hash blk))); mret BOrphaned
      else mret BStillWaiting
  end.

Definition sweep_blocks (cfg : MaturityConfig) (node : TrackerNode) (virtual_daa : Z) (stats : SweepStats)
    : M Script TrackerError SweepStats :=
  active ← map_err TDb (query (λ d, Ok (list_by_status [SubmittedToNode] (mc_batch_size cfg) d)));
  for_each active stats (λ blk stats,
    r ← attempt (process_submitted cfg node blk virtual_daa);
    mret (match r with
          | Ok BConfirmedBlue => bump 1 0 0 0 0 0 0 0 stats
          | Ok BOrphaned => bump 0 1 0 0 0 0 0 0 stats
          | Ok BStillWaiting => bump 0 0 1 0 0 0 0 0 stats
          | Err _ => bump 0 0 0 0 0 0 1 0 stats
          end)).

(** Record one coinbase UTXO. *)
Definition discover (cfg : MaturityConfig) (virtual_daa : Z) (utxo : CoinbaseUtxo) (stats : SweepStats)
    : M Script TrackerError SweepStats :=
  if negb (is_mature virtual_daa (cu_block_daa_score utxo) (mc_coinbase_maturity cfg)) then mret stats
  else if cu_block_daa_score utxo <? mc_coinbase_min_daa_score cfg then mret (bump 0 0 0 0 0 0 0 1 stats)
  else
    match i64_try_from (cu_amount_sompi utxo) with
    | None => mret (bump 0 0 0 0 0 0 1 0 stats)
    | Some amount =>
        r ← attempt (transact (reward_ensure (cu_transaction_id utxo) (cu_index utxo) amount
                                 (cu_block_daa_score utxo)));
        mret (match r with
              | Ok (_, Inserted) => bump 0 0 0 1 0 0 0 0 stats
              | Ok (_, AlreadyExisted) => stats
              | Err _ => bump 0 0 0 0 0 0 1 0 stats
              end)
    end.

Definition allocate_reward (cfg : MaturityConfig) (e : AllocationEngine) (reward : CoinbaseReward)
    : M Script TrackerError AllocationOutcome :=
  let daa := i64_as_u64 (cr_block_daa_score reward) in
  map_err TEngine (allocate_coinbase_reward e (cr_id reward) (cr_amount_sompi reward)
                     (u64_saturating_sub daa (mc_window_daa_span cfg)) daa).

Definition sweep_rewards (cfg : MaturityConfig) (e : AllocationEngine) (node : TrackerNode)
    (virtual_daa : Z) (stats : SweepStats) : M Script TrackerError SweepStats :=
  utxos ← match tn_coinbase_utxos node with Some l => mret l | None => throw TKaspad end;
  stats ← for_each utxos stats (discover cfg virtual_daa);
  pending ← map_err TDb (query (λ d, Ok (list_unallocated (mc_batch_size cfg) d)));
  for_each pending stats (λ reward stats,
    r ← attempt (allocate_reward cfg e reward);
    mret (match r with
          | Ok (Allocated _ _ _ _ _) => bump 0 0 0 0 1 0 0 0 stats
          | Ok (NoContributingWallets _) => bump 0 0 0 0 0 1 0 0 stats
          | Ok AlreadyAllocated => stats
          | Err _ => bump 0 0 0 0 0 0 1 0 stats
          end)).

(** One sweep: the virtual score, the block colours, then the UTXO set. *)
Definition tracker_run_once (cfg : MaturityConfig) (e : AllocationEngine) (node : TrackerNode)
    : M Script TrackerError SweepStats :=
  virtual_daa ← match tn_virtual_daa_score node with Some v => mret v | None => throw TKaspad end;
  stats ← sweep_blocks cfg node virtual_daa SweepStats_default;
  sweep_rewards cfg e node virtual_daa stats.
End engine.
