(* ===== verification/AccountantProps.v ===== *)
(** * Conservation of rewards

    Every coinbase reward is distributed exactly once and to the last sompi:
    [split_reward] hands out the reward exactly, each share splits exactly,
    and [books_ok], the invariant over the allocation, reward and rebate
    tables, survives every sweep whatever fails and wherever it dies. *)

From Stdlib Require Import SpecFloat.
From S2P Require Import Prelude Float64 Mass Db PayoutRepo PayoutSpec.
From S2P Require Import Effects FeeModel Domain AccountRepo Accountant.
Local Open Scope Z_scope.

(** ** Pro-rating *)

Lemma f64_as_i64_le x : f64_as_i64 x ≤ i64_max.
Proof. apply (f64_as_int_range i64_min i64_max x). mlia. Qed.

Lemma pro_rate_range reward w t : 0 ≤ reward ≤ i64_max → 0 ≤ pro_rate reward w t ≤ i64_max.
Proof.
  intros Hr. unfold pro_rate. case_bool; [mlia|]. case_bool; [mlia|]. case_bool; [done|].
  split; [by apply f64_as_i64_pos|apply f64_as_i64_le].
Qed.

(** The residue goes to the window of the smallest wallet id. *)
Lemma first_wallet_Some windows : windows ≠ [] →
  ∃ i w, first_wallet windows = Some i ∧ windows !! i = Some w ∧
    ∀ v, v ∈ windows → sw_wallet_id w ≤ sw_wallet_id v.
Proof.
  intros Hne. unfold first_wallet.
  set (l := imap (λ i w, (i, sw_wallet_id w)) windows). set (leb := λ x y : nat * Z, x.2 <=? y.2).
  assert (Hel : ∀ x, x ∈ l ↔ ∃ w, windows !! x.1 = Some w ∧ x.2 = sw_wallet_id w).
  { intros [j k]. unfold l. rewrite list_elem_of_lookup. setoid_rewrite list_lookup_imap. split.
    - intros (j' & (w & Hw & [= -> ->])%fmap_Some). simpl. eauto.
    - simpl. intros (w & Hw & ->). exists j. by rewrite Hw. }
  pose proof (stable_sort_sorted leb ltac:(unfold leb; intros; lia) ltac:(unfold leb; intros; lia) l) as Hs.
  assert (Hp := stable_sort_perm leb l). destruct (stable_sort leb l) as [|[i k] r] eqn:E.
  { apply Permutation_nil_l in Hp. destruct windows as [|w ws]; [done|]. by unfold l in Hp. }
  destruct (proj1 (Hel (i, k))) as (w & Hw & Hk); [rewrite <- Hp; set_solver|]. simpl in *.
  exists i, w. split_and!; [done..|]. intros v [j Hj]%list_elem_of_lookup.
  assert ((j, sw_wallet_id v) ∈ l) as Hin by (apply Hel; eauto). rewrite <- Hp in Hin.
  inversion Hs as [|?? _ Hall]; subst. apply elem_of_cons in Hin as [[= -> ->]|Hin]; [done|].
  pose proof (proj1 (Forall_forall _ _) Hall _ Hin) as Hle. unfold leb in Hle. simpl in Hle. lia.
Qed.

Lemma split_reward_shape reward windows total grosses residue :
  0 ≤ reward ≤ i64_max → windows ≠ [] → split_reward reward windows total = Ret (grosses, residue) →
  sumZ grosses = reward ∧ length grosses = length windows ∧
  ∃ i w, windows !! i = Some w ∧ (∀ v, v ∈ windows → sw_wallet_id w ≤ sw_wallet_id v) ∧
    ∀ j v, j ≠ i → windows !! j = Some v → grosses !! j = Some (pro_rate reward (sw_total_weight v) total).
Proof.
  intros Hr Hne H. apply exec_bind_Ret in H as (summed & Hsum & H).
  set (gs := map (λ w, pro_rate reward (sw_total_weight w) total) windows) in *.
  destruct (first_wallet_Some windows Hne) as (i & w & Hfw & Hw & Hmin). rewrite Hfw in H. injection H as <- <-.
  assert (Hnn : Forall (λ x, 0 ≤ x) gs).
  { apply List.Forall_map, Forall_forall. intros x _. by apply pro_rate_range. }
  assert (Hgs : ∀ j v, windows !! j = Some v → gs !! j = Some (pro_rate reward (sw_total_weight v) total)).
  { intros j v Hv. unfold gs. change (map ?f windows) with (f <$> windows). by rewrite list_lookup_fmap, Hv. }
  pose proof (Hgs i w Hw) as Hi. set (g := pro_rate reward (sw_total_weight w) total) in *.
  pose proof (sum_i64_range _ _ Hsum) as Hrange. apply sum_i64_inv in Hsum as ->.
  pose proof (sumZ_nonneg _ Hnn). assert (g ≤ sumZ gs) by (apply sumZ_elem_le; [done|by eapply list_elem_of_lookup_2]).
  assert (0 ≤ g) by (by apply pro_rate_range).
  rewrite (sumZ_alter _ _ _ _ Hi), length_alter. split_and!; [mlia|by unfold gs; rewrite length_map|].
  exists i, w. split_and!; [done..|]. intros j v Hj Hv. rewrite list_lookup_alter_ne by done. auto.
Qed.

(** The reward is handed out to the last sompi: whatever the floating-point weights, the per-wallet
    grosses add up to exactly the reward, and every wallet but the one with the smallest id gets
    exactly its floored pro-rata share. *)
Theorem split_reward_exact reward windows total grosses residue :
  0 ≤ reward ≤ i64_max → windows ≠ [] → split_reward reward windows total = Ret (grosses, residue) →
  sumZ grosses = reward ∧
  ∃ i w, windows !! i = Some w ∧ (∀ v, v ∈ windows → sw_wallet_id w ≤ sw_wallet_id v) ∧
    ∀ j v, j ≠ i → windows !! j = Some v → grosses !! j = Some (pro_rate reward (sw_total_weight v) total).
Proof. intros Hr Hne H. destruct (split_reward_shape _ _ _ _ _ Hr Hne H) as (? & _ & ?). by split. Qed.

(** ** Allocation rows *)

Lemma compute_all_spec fee l as_ : fee_ok fee → Forall (λ x, x.1 ≤ i64_max) l →
  compute_all fee l = Ret (Ok as_) → Forall2 (λ x a, split_ok x.1 a) l as_.
Proof.
  intros Hfee. revert as_. induction l as [|[g t] l IH]; intros as_ Hl H; simpl in H.
  - injection H as <-. constructor.
  - apply Forall_cons in Hl as [Hg Hl]. apply exec_bind_Ret in H as (r & Hr & H). destruct r as [a|e]; [|done].
    apply exec_bind_Ret in H as (rest & Hrest & H). destruct rest as [rest|e]; [|done]. injection H as <-.
    constructor; [|by apply IH]. by apply compute_allocation_inv in Hr.
Qed.

(** Rows whose parts are non-negative and add up. *)
Definition row_ok (a : ShareAllocation) : Prop :=
  sa_gross_share_sompi a = sa_pool_fee_sompi a + sa_nacho_accrual_sompi a + sa_net_payout_sompi a ∧
  0 ≤ sa_pool_fee_sompi a ∧ 0 ≤ sa_nacho_accrual_sompi a ∧ 0 ≤ sa_net_payout_sompi a.

Definition rows_of (reward_id : Z) (d : Db) : list ShareAllocation :=
  List.filter (λ a, sa_coinbase_reward_id a =? reward_id) (share_allocations d).

(** The rebate balance of a wallet and what its allocations say it earned. *)
Definition accrued_of (w : Z) (d : Db) : Z :=
  match rebate_get w d with Some r => nr_accrued_sompi r | None => 0 end.
Definition nacho_total (w : Z) (l : list ShareAllocation) : Z :=
  sumZ (map sa_nacho_accrual_sompi (List.filter (λ a, sa_wallet_id a =? w) l)).
Definition rebate_gap (w : Z) (d : Db) : Z := accrued_of w d - nacho_total w (share_allocations d).

(** The books: rewards have unique ids and representable amounts; a row belongs to a reward that is
    stamped allocated; the rows of a reward, if any, add up to its amount; rows balance; and rebate
    balances differ from what the rows accrued by a constant (zero for a fresh pool). *)
Record books_ok (gap : Z → Z) (d : Db) : Prop := {
  bk_ids : NoDup (map cr_id (coinbase_rewards d));
  bk_amounts : Forall (λ r, 0 ≤ cr_amount_sompi r ≤ i64_max) (coinbase_rewards d);
  bk_stamped : ∀ a, a ∈ share_allocations d →
    ∃ r, r ∈ coinbase_rewards d ∧ cr_id r = sa_coinbase_reward_id a ∧ is_Some (cr_allocated_at r);
  bk_exact : ∀ r, r ∈ coinbase_rewards d → rows_of (cr_id r) d ≠ [] →
    sumZ (map sa_gross_share_sompi (rows_of (cr_id r) d)) = cr_amount_sompi r;
  bk_rows : Forall row_ok (share_allocations d);
  bk_gap : ∀ w, rebate_gap w d = gap w;
}.

(** Tables the books do not read may change freely. *)
Lemma books_ok_frame gap d d' : coinbase_rewards d' = coinbase_rewards d →
  share_allocations d' = share_allocations d → nacho_rebates d' = nacho_rebates d →
  books_ok gap d → books_ok gap d'.
Proof.
  intros Hc Ha Hn []. unfold rows_of, rebate_gap, accrued_of, rebate_get in *.
  split; unfold rows_of, rebate_gap, accrued_of, rebate_get; rewrite ?Hc, ?Ha, ?Hn; done.
Qed.

(** *** Accrual *)

Lemma find_update_key {A} (key : A → Z) (k : Z) (f : A → A) l k' :
  (∀ x, key x = k → key (f x) = k) →
  List.find (λ x, key x =? k') (update_where (λ x, key x =? k) f l) =
  (λ x, if key x =? k then f x else x) <$> List.find (λ x, key x =? k') l.
Proof.
  intros Hf. induction l as [|x l IH]; simpl; [done|].
  destruct (Z.eqb_spec (key x) k) as [Hk|Hk].
  - rewrite (Hf x Hk). destruct (Z.eqb_spec (key x) k') as [Hk'|Hk'].
    + rewrite (proj2 (Z.eqb_eq k k')) by congruence. simpl. by rewrite (proj2 (Z.eqb_eq _ _) Hk).
    + rewrite (proj2 (Z.eqb_neq k k')) by congruence. done.
  - destruct (Z.eqb_spec (key x) k'); [|done]. simpl. by rewrite (proj2 (Z.eqb_neq _ _) Hk).
Qed.

Lemma accrue_spec w delta now d r d' : accrue w delta now d = Ok (r, d') →
  (∃ l, d' = set_nacho_rebates l d) ∧
  ∀ v, accrued_of v d' = accrued_of v d + (if v =? w then delta else 0).
Proof.
  unfold accrue, rebate_upsert. intros H. case_bool_in H; [done|].
  unfold accrued_of, rebate_get in *. destruct (List.find _ (nacho_rebates d)) as [r0|] eqn:F.
  - apply result_bind_Ok in H as (a & Ha & H). case_bool_in H; [|done]. injection H as <- <-.
    assert (a = nr_accrued_sompi r0 + delta) as ->.
    { unfold to_bigint in Ha. destruct (i64_try_from _) eqn:Ei; [|done]. injection Ha as <-.
      by apply i64_try_from_Some in Ei as [-> _]. }
    split; [by eexists|]. intros v. simpl. rewrite find_update_key by done.
    destruct (Z.eqb_spec v w) as [->|Hne].
    + rewrite F. simpl. apply find_Some in F as [_ Hw]. rewrite Hw. done.
    + destruct (List.find (λ x, nr_wallet_id x =? v) (nacho_rebates d)) as [x|] eqn:Fv; simpl; [|done].
      apply find_Some in Fv as [_ Hv]. rewrite (proj2 (Z.eqb_neq _ _)) by lia. lia.
  - case_bool_in H; [|done]. injection H as <- <-. split; [by eexists|]. intros v. simpl. rewrite find_app.
    destruct (Z.eqb_spec v w) as [->|Hne].
    + rewrite F. simpl. by rewrite Z.eqb_refl.
    + destruct (List.find (λ x, nr_wallet_id x =? v) (nacho_rebates d)); simpl; [lia|].
      rewrite (proj2 (Z.eqb_neq w v)) by congruence. done.
Qed.

Definition na_nacho_total (w : Z) (rows : list NewAllocation) : Z :=
  sumZ (map na_nacho_accrual_sompi (List.filter (λ r, na_wallet_id r =? w) rows)).

Lemma accrue_all_spec rows now d d' : Forall (λ r, 0 ≤ na_nacho_accrual_sompi r) rows →
  accrue_all rows now d = Ok d' →
  (∃ l, d' = set_nacho_rebates l d) ∧ ∀ v, accrued_of v d' = accrued_of v d + na_nacho_total v rows.
Proof.
  intros Hrows. revert d. induction Hrows as [|r rows Hr Hrows IH]; intros d H; simpl in H.
  - injection H as <-. split; [exists (nacho_rebates d); by destruct d|]. intros v. unfold na_nacho_total. simpl. lia.
  - apply result_bind_Ok in H as (d1 & H1 & H). destruct (IH _ H) as [(l & ->) Hacc].
    assert ((∃ l, d1 = set_nacho_rebates l d) ∧ ∀ v, accrued_of v d1 =
      accrued_of v d + (if v =? na_wallet_id r then na_nacho_accrual_sompi r else 0)) as [(l1 & ->) Hacc1].
    { destruct (Z.ltb_spec 0 (na_nacho_accrual_sompi r)).
      - apply result_bind_Ok in H1 as ([x d2] & H1 & [= <-]). by apply accrue_spec in H1.
      - injection H1 as <-. split; [exists (nacho_rebates d); by destruct d|]. intros v. case_bool; lia. }
    split; [by exists l|]. intros v. rewrite Hacc, Hacc1. unfold na_nacho_total. simpl.
    rewrite (Z.eqb_sym (na_wallet_id r) v). unfold sumZ. case_bool; simpl; lia.
Qed.

(** *** The allocation transaction *)

Definition reward_row (rid : Z) (rows : list NewAllocation) (new : list ShareAllocation) : Prop :=
  map sa_gross_share_sompi new = map na_gross_share_sompi rows ∧
  Forall (λ a, sa_coinbase_reward_id a = rid) new ∧
  ∀ w, nacho_total w new = na_nacho_total w rows.

Lemma number_rows_spec id rid now rows : reward_row rid rows (number_rows id rid now rows).
Proof.
  revert id. induction rows as [|r rows IH]; intros id; simpl; [done|]. destruct (IH (id + 1)) as (H1 & H2 & H3).
  split_and!; simpl; [by rewrite H1|by constructor|]. intros w. specialize (H3 w).
  unfold nacho_total, na_nacho_total, sumZ in *. simpl. case_bool; simpl; lia.
Qed.

Definition na_ok (r : NewAllocation) : Prop :=
  na_gross_share_sompi r = na_pool_fee_sompi r + na_nacho_accrual_sompi r + na_net_payout_sompi r ∧
  0 ≤ na_pool_fee_sompi r ∧ 0 ≤ na_nacho_accrual_sompi r ∧ 0 ≤ na_net_payout_sompi r.

Lemma number_rows_ok id rid now rows : Forall na_ok rows → Forall row_ok (number_rows id rid now rows).
Proof. intros H. revert id. induction H as [|r rows Hr H IH]; intros id; simpl; constructor; auto. Qed.

Lemma insert_batch_Ok rid rows now d n d' : insert_batch rid rows now d = Ret (Ok (n, d')) →
  d' = set_share_allocations (share_allocations d ++ number_rows (next_id sa_id (share_allocations d)) rid now rows) d.
Proof.
  unfold insert_batch. destruct rows as [|r rows].
  - intros [= _ <-]. simpl. rewrite app_nil_r. by destruct d.
  - intros (b & _ & H)%exec_bind_Ret. case_bool_in H; [done|]. case_bool_in H; [|done]. by injection H as _ <-.
Qed.

Lemma rows_of_app rid d l1 l2 : share_allocations d = l1 ++ l2 →
  rows_of rid d = List.filter (λ a, sa_coinbase_reward_id a =? rid) l1 ++
                  List.filter (λ a, sa_coinbase_reward_id a =? rid) l2.
Proof. intros H. unfold rows_of. by rewrite H, List.filter_app. Qed.

(** Before the first allocation, a reward has no rows. *)
Lemma unallocated_no_rows gap d r : books_ok gap d → r ∈ coinbase_rewards d → is_unallocated r = true →
  rows_of (cr_id r) d = [].
Proof.
  intros Hb Hr Hu. apply elem_of_nil_inv. intros a [Ha Hid]%elem_of_retain.
  destruct (bk_stamped _ _ Hb a Ha) as (r' & Hr' & Hid' & Hs).
  assert (r' = r) as -> by (apply (NoDup_map_eq cr_id (coinbase_rewards d)); [apply Hb|done|done|lia]).
  unfold is_unallocated in Hu. by destruct (cr_allocated_at r), Hs.
Qed.

Lemma stamp_elem id now l r : r ∈ update_where (λ r, cr_id r =? id) (stamp_allocated now) l →
  ∃ r0, r0 ∈ l ∧ cr_id r = cr_id r0 ∧ cr_amount_sompi r = cr_amount_sompi r0.
Proof. intros (r0 & Hr0 & ->)%elem_of_update_where. exists r0. by case_bool. Qed.

(** Stamping keeps ids and amounts and never unstamps. *)
Lemma books_ok_stamp gap id now d : books_ok gap d → books_ok gap (mark_allocated id now d).
Proof.
  intros []. split; simpl; try done.
  - by rewrite map_update_where.
  - rewrite Forall_forall in *. intros r (r0 & Hr0 & _ & ->)%stamp_elem. auto.
  - intros a Ha. destruct (bk_stamped0 a Ha) as (r & Hr & Hid & Hs).
    eexists. split; [apply elem_of_update_where; eauto|]. case_bool; [|done]. simpl. split; [done|].
    by destruct Hs as [t ->].
  - intros r (r0 & Hr0 & -> & ->)%stamp_elem. by apply bk_exact0.
Qed.

Lemma filter_all {A} (p : A → bool) l : Forall (λ x, p x = true) l → List.filter p l = l.
Proof. apply retain_all. Qed.

Lemma filter_none {A} (p : A → bool) l : Forall (λ x, p x = false) l → List.filter p l = [].
Proof. induction 1 as [|x l Hx Hl IH]; simpl; [done|]. by rewrite Hx. Qed.

(** Inserting the rows of an unallocated reward, accruing their rebates and stamping the reward. *)
Lemma books_ok_allocate gap d r rows now d2 (new := number_rows (next_id sa_id (share_allocations d)) (cr_id r) now rows) :
  books_ok gap d → r ∈ coinbase_rewards d → is_unallocated r = true → Forall na_ok rows →
  sumZ (map na_gross_share_sompi rows) = cr_amount_sompi r →
  accrue_all rows now (set_share_allocations (share_allocations d ++ new) d) = Ok d2 →
  books_ok gap (mark_allocated (cr_id r) now d2).
Proof.
  intros Hb Hr Hu Hrows Hsum Hacc. destruct (number_rows_spec (next_id sa_id (share_allocations d)) (cr_id r) now rows)
    as (Hgross & Hrid & Hnacho). fold new in Hgross, Hrid, Hnacho.
  apply accrue_all_spec in Hacc as [(l & ->) Hacc].
  2:{ apply (Forall_impl _ _ _ Hrows). by intros x (_ & _ & ? & _). }
  pose proof (unallocated_no_rows _ _ _ Hb Hr Hu) as Hnone. destruct Hb. split; simpl.
  - by rewrite map_update_where.
  - rewrite Forall_forall in *. intros x (r0 & Hr0 & _ & ->)%stamp_elem. auto.
  - intros a [Ha|Ha]%elem_of_app.
    + destruct (bk_stamped0 a Ha) as (x & Hx & Hid & Hs).
      eexists. split; [apply elem_of_update_where; eauto|]. case_bool; [|done]. simpl. split; [done|].
      by destruct Hs as [t ->].
    + eexists. split; [apply elem_of_update_where; eauto|]. rewrite Z.eqb_refl. simpl.
      rewrite (proj1 (Forall_forall _ _) Hrid a Ha). split; [done|]. by destruct (cr_allocated_at r).
  - intros x Hx Hne. destruct (stamp_elem _ _ _ _ Hx) as (r0 & Hr0 & Hid & Hamt).
    rewrite Hid, Hamt in *. rewrite (rows_of_app _ _ (share_allocations d) new) in * by done.
    destruct (decide (cr_id r0 = cr_id r)) as [Heq|Hneq].
    + assert (r0 = r) as -> by (by apply (NoDup_map_eq cr_id (coinbase_rewards d))).
      unfold rows_of in Hnone. rewrite Hnone, app_nil_l, filter_all; [by rewrite Hgross|].
      apply (Forall_impl _ _ _ Hrid). simpl. lia.
    + rewrite (filter_none _ new), app_nil_r in *.
      2,3: apply (Forall_impl _ _ _ Hrid); simpl; lia.
      by apply bk_exact0.
  - apply Forall_app; split; [done|]. by apply number_rows_ok.
  - intros w. specialize (Hacc w). specialize (bk_gap0 w). unfold rebate_gap in *.
    unfold accrued_of, rebate_get in *. simpl in *.
    unfold nacho_total. rewrite List.filter_app, map_app, sumZ_app.
    fold (nacho_total w (share_allocations d)) (nacho_total w new). rewrite Hnacho. lia.
Qed.

(** *** Other writes *)

Lemma upsert_rollups_frame s e now all ws d d' : upsert_rollups s e now all ws d = Ok d' →
  ∃ l, d' = set_share_windows l d.
Proof.
  revert d. induction ws as [|w ws IH]; intros d H; simpl in H.
  - injection H as <-. exists (share_windows d). by destruct d.
  - apply result_bind_Ok in H as (d1 & H1 & H). destruct (IH _ H) as (l & ->).
    unfold upsert_rollup in H1. apply result_bind_Ok in H1 as (x & _ & H1).
    case_bool_in H1; [|done]. case_bool_in H1; injection H1 as <-; by exists l.
Qed.

Lemma close_window_frame s e now d o d' : close_window_tx s e now d = Ok (o, d') →
  ∃ l, d' = set_share_windows l d.
Proof.
  unfold close_window_tx. intros H. case_bool_in H; [done|].
  apply result_bind_Ok in H as (d1 & H1 & H). apply result_bind_Ok in H as (x & _ & H).
  apply result_bind_Ok in H as (y & _ & H). injection H as _ <-. by apply upsert_rollups_frame in H1.
Qed.

Lemma update_blocks_frame p f d d' : update_blocks p f d = Ok d' → ∃ l, d' = set_blocks l d.
Proof. unfold update_blocks. intros (l & _ & [= <-])%result_bind_Ok. by exists l. Qed.

(** Rewards the sweep has already read: they stay in the table with their amounts. *)
Definition has_reward (d : Db) (r : CoinbaseReward) : Prop :=
  ∃ r', r' ∈ coinbase_rewards d ∧ cr_id r' = cr_id r ∧ cr_amount_sompi r' = cr_amount_sompi r.

Record books (gap : Z → Z) (known : list CoinbaseReward) (d : Db) : Prop := {
  books_books : books_ok gap d;
  books_known : Forall (has_reward d) known;
}.

Lemma books_frame gap known d d' : coinbase_rewards d' = coinbase_rewards d →
  share_allocations d' = share_allocations d → nacho_rebates d' = nacho_rebates d →
  books gap known d → books gap known d'.
Proof.
  intros Hc Ha Hn [Hb Hk]. split; [by eapply books_ok_frame|].
  unfold has_reward in *. by rewrite Hc.
Qed.

Lemma has_reward_stamp id now d r : has_reward d r → has_reward (mark_allocated id now d) r.
Proof.
  intros (r' & Hr' & Hid & Hamt). eexists. split; [apply elem_of_update_where; eauto|]. by case_bool.
Qed.

Lemma books_ensure gap known txid index amount daa now d o d' : amount ≤ i64_max →
  books gap known d → reward_ensure txid index amount daa now d = Ok (o, d') → books gap known d'.
Proof.
  intros Hmax [Hb Hk] H. unfold reward_ensure in H. case_bool_in H; [|done]. rename E into Hck.
  destruct (List.find _ _); injection H as _ <-; [done|]. unfold reward_check in Hck. simpl in Hck. bool_hyps.
  set (row := {| cr_id := _ |}). assert (Hfresh : ∀ r, r ∈ coinbase_rewards d → cr_id r < cr_id row).
  { intros r Hr. by apply next_id_fresh. }
  split; [|apply (Forall_impl _ _ _ Hk); intros r (r' & Hr' & ?); exists r'; simpl; set_solver].
  destruct Hb. split; simpl; try done.
  - rewrite map_app. apply NoDup_app. split_and!; [done| |apply NoDup_singleton].
    intros x (r & Hx & Hr)%list_elem_of_fmap Hx'%list_elem_of_singleton. specialize (Hfresh r Hr). simpl in *. lia.
  - apply Forall_app. split; [done|]. constructor; [simpl; lia|constructor].
  - intros a Ha. destruct (bk_stamped0 a Ha) as (r & Hr & ?). exists r. set_solver.
  - intros r [Hr|Hr]%elem_of_app Hne; [by apply bk_exact0|]. apply list_elem_of_singleton in Hr as ->. destruct Hne.
    apply elem_of_nil_inv. intros a [Ha Hid]%elem_of_retain. destruct (bk_stamped0 a Ha) as (r & Hr & Hid' & _).
    specialize (Hfresh r Hr). simpl in *. lia.
Qed.

Lemma books_empty gap known id amount actor now d o d' : books gap known d →
  finalise_empty_tx id amount actor now d = Ret (Commit o d') → books gap known d'.
Proof.
  intros [Hb Hk] H. unfold finalise_empty_tx in H. destruct (lock_for_allocation id d) as [r|]; [|done].
  case_bool_in H; [done|]. injection H as _ <-.
  apply (books_frame _ _ (mark_allocated id now d)); [done..|]. split; [by apply books_ok_stamp|].
  apply (Forall_impl _ _ _ Hk). intros. by apply has_reward_stamp.
Qed.

Lemma books_allocate gap known r rows o actor now d o' d' : books gap known d → r ∈ known →
  Forall na_ok rows → sumZ (map na_gross_share_sompi rows) = cr_amount_sompi r →
  allocate_tx (cr_id r) rows o actor now d = Ret (Commit o' d') → books gap known d'.
Proof.
  intros [Hb Hk] Hr Hrows Hsum H. unfold allocate_tx in H.
  destruct (lock_for_allocation (cr_id r) d) as [r0|] eqn:Hlock; [|done].
  case_bool_in H; [done|]. rename E into Hu. apply negb_false_iff in Hu.
  apply exec_bind_Ret in H as (ins & Hins & H). destruct ins as [[n d1]|e]; [|done]. simpl in H.
  destruct (accrue_all rows now d1) as [d2|e] eqn:Hacc; [|done]. injection H as _ <-.
  apply insert_batch_Ok in Hins as ->. apply find_Some in Hlock as [Hr0 Hid].
  apply Z.eqb_eq in Hid.
  destruct (proj1 (Forall_forall _ _) Hk r Hr) as (r1 & Hr1 & Hid1 & Hamt1).
  assert (r1 = r0) as ->.
  { apply (NoDup_map_eq cr_id (coinbase_rewards d)); [apply Hb|done|done|congruence]. }
  rewrite <- Hid in *. apply (books_frame _ _ (mark_allocated (cr_id r0) now d2)); [done..|].
  assert (books_ok gap (mark_allocated (cr_id r0) now d2)) as Hb'.
  { eapply books_ok_allocate; try done. congruence. }
  split; [done|]. apply accrue_all_spec in Hacc as [(l & ->) _].
  2:{ apply (Forall_impl _ _ _ Hrows). by intros x (_ & _ & ? & _). }
  apply (Forall_impl _ _ _ Hk). intros x Hx. by apply has_reward_stamp.
Qed.

(** ** The sweep *)

Section sweep.
Context {Script : Type}.
Implicit Type w : World Script.

Definition books_w (gap : Z → Z) (known : list CoinbaseReward) (w : World Script) : Prop :=
  books gap known (w_db w).

Lemma books_w_closed gap known : suffix_closed (books_w gap known).
Proof. by intros w r rs _. Qed.

Lemma wp_run_tx {A} I (body : Z → Db → exec (tx_end A)) (Q : A → World Script → Prop) w :
  suffix_closed I → I w →
  (∀ now a rs, I (world_replies rs w) → body now (w_db w) = Ret (Rollback a) → Q a (world_replies rs w)) →
  (∀ now a d rs, I (world_replies rs w) → body now (w_db w) = Ret (Commit a d) →
     I (world_db d (world_replies rs w)) ∧ Q a (world_db d (world_replies rs w))) →
  wp I (run_tx body) Q w.
Proof.
  intros HI Hw Hroll Hb. unfold wp, run_tx. destruct (w_replies w) as [|r rs] eqn:Er; [done|].
  pose proof (HI w r rs Er Hw) as Hrs.
  destruct r as [now v| |now v]; simpl; [|done|].
  all: destruct (body now (w_db w)) as [[a d|a|e]|] eqn:Eb; simpl; try done.
  all: try destruct (Hb now a d rs Hrs Eb) as [HI' HQ]; split; try done.
  all: intros ? [= <-]; eauto.
Qed.

Lemma classify_all_length e windows I w : suffix_closed I → I w →
  wp I (classify_all e windows) (λ tiers _, length tiers = length windows) w.
Proof.
  intros HI Hw. unfold classify_all.
  eapply wp_mono;
    [apply (wp_for_each I windows _ (λ l s w, I w ∧ (length s + length l = length windows)%nat))|].
  - intros x l s w' [Hw' Hl]. apply wp_bind. eapply wp_mono.
    + instantiate (1 := λ _, I). unfold lookup_wallet_addr. apply wp_bind, wp_map_err, wp_query; [done..|].
      intros wa rs Hrs _. destruct (WalletAddress_new _); [by apply wp_ret|by apply wp_throw].
    + intros addr w'' Hw'' _. apply wp_ret; [done|]. split; [done|].
      rewrite length_app. simpl in *. lia.
  - by intros s w' [? _].
  - split; [done|]. simpl. lia.
  - intros s w' _ [_ Hl]. simpl in Hl. lia.
Qed.

(** The rows the engine writes for one reward. *)
Lemma allocation_rows_ok total windows grosses allocations : length grosses = length windows →
  Forall2 (λ g a, split_ok g a) grosses allocations →
  let rows := zip_with (new_row total) windows allocations in
  Forall na_ok rows ∧ map na_gross_share_sompi rows = grosses.
Proof.
  intros Hlen Hall. revert windows Hlen. induction Hall as [|g a gs as_ Hg Hgs IH]; intros [|v vs] Hlen;
    simplify_eq/=; [done|].
  destruct (IH vs Hlen) as [Hok Hsum]. destruct Hg as (_ & Hgr & Hs & ?). rewrite Hsum.
  split; [constructor; [|done]|congruence]. unfold na_ok. simpl. lia.
Qed.

Lemma compute_all_zip fee grosses tiers as_ : fee_ok fee → Forall (λ g, g ≤ i64_max) grosses →
  length tiers = length grosses → compute_all fee (zip grosses tiers) = Ret (Ok as_) →
  Forall2 (λ g a, split_ok g a) grosses as_.
Proof.
  intros Hfee Hg Hlen H. apply compute_all_spec in H; [|done|].
  - rewrite <- (fst_zip grosses tiers) by lia. by apply Forall2_fmap_l.
  - apply Forall_forall. intros [g t] Hin. apply elem_of_zip_l in Hin.
    apply (proj1 (Forall_forall _ _) Hg _ Hin).
Qed.

Lemma split_reward_le reward windows total grosses residue : 0 ≤ reward ≤ i64_max →
  split_reward reward windows total = Ret (grosses, residue) → Forall (λ g, g ≤ i64_max) grosses.
Proof.
  intros Hr (s & _ & H)%exec_bind_Ret.
  assert (Forall (λ g, g ≤ i64_max) (map (λ v, pro_rate reward (sw_total_weight v) total) windows)) as Hall.
  { apply List.Forall_map, Forall_forall. intros x _. by apply pro_rate_range. }
  destruct (first_wallet windows) as [i|]; injection H as <- _; [|done].
  apply Forall_alter; [done|]. intros x _ _. mlia.
Qed.

Lemma allocate_books gap known e r s en w : fee_ok (ae_fee e) → r ∈ known → books_w gap known w →
  wp (books_w gap known) (allocate_coinbase_reward e (cr_id r) (cr_amount_sompi r) s en) (λ _ _, True) w.
Proof.
  intros Hfee Hr Hw. pose proof (books_w_closed gap known) as HI. unfold allocate_coinbase_reward.
  case_bool; [by apply wp_throw|]. apply Z.ltb_ge in E.
  assert (cr_amount_sompi r ≤ i64_max) as Hmax.
  { destruct (proj1 (Forall_forall _ _) (books_known _ _ _ Hw) r Hr) as (r' & Hr' & _ & <-).
    apply (proj1 (Forall_forall _ _) (bk_amounts _ _ (books_books _ _ _ Hw)) r' Hr'). }
  apply wp_bind, wp_map_err, wp_transact; [done..|]. intros now o d rs _ (l & ->)%close_window_frame.
  assert (books_w gap known (world_db (set_share_windows l (w_db w)) (world_replies rs w))) as Hw1.
  { by eapply books_frame, Hw. }
  split; [done|]. apply wp_bind, wp_map_err, wp_query; [done..|]. intros windows rs' Hw2 _.
  set (w2 := world_replies rs' _) in *. clearbody w2. destruct windows as [|v vs] eqn:Ews.
  { apply wp_run_tx; [done..|]. intros. split; [|done]. by eapply books_empty. }
  rewrite <- Ews. assert (windows ≠ []) as Hne by (by subst). clear Ews.
  set (total := sum_f64 _). case_bool; [by apply wp_throw|].
  apply wp_bind, wp_lift_exec; [done|]. intros [grosses residue] Hsplit.
  pose proof (split_reward_le _ _ _ _ _ (conj E Hmax) Hsplit) as Hle.
  destruct (split_reward_shape _ _ _ _ _ (conj E Hmax) Hne Hsplit) as (Hsum & Hlen & _).
  apply wp_bind. eapply wp_mono; [by apply classify_all_length|]. simpl. intros tiers w3 Hw3 Htiers.
  apply wp_bind, wp_bind, wp_lift_exec; [done|]. intros [as_|err] Hc; [|by apply wp_throw].
  apply compute_all_zip in Hc; [|done|done|lia].
  destruct (allocation_rows_ok total windows grosses as_ Hlen Hc) as [Hrows Hgr].
  apply wp_ret; [done|]. apply wp_run_tx; [done..|]. intros now' a d' rs'' Hb Hcommit. split; [|done].
  eapply books_allocate; try done. simpl. by rewrite Hgr.
Qed.

Lemma discover_books gap cfg daa utxo stats w : books_w gap [] w →
  wp (books_w gap []) (discover cfg daa utxo stats) (λ _ _, True) w.
Proof.
  intros Hw. unfold discover. case_bool; [by apply wp_ret|]. case_bool; [by apply wp_ret|].
  destruct (i64_try_from (cu_amount_sompi utxo)) as [amount|] eqn:Ha; [|by apply wp_ret].
  apply i64_try_from_Some in Ha as [-> [_ Hmax]].
  apply wp_bind. eapply wp_attempt_keeps; [|intros; by apply wp_ret].
  apply (wp_transact _ (books_w_closed gap []) _ (λ _ _, True)); [done|].
  intros now o d rs _ H. split; [|done]. by eapply books_ensure.
Qed.

Lemma process_submitted_books gap known cfg node blk daa w : books_w gap known w →
  wp (books_w gap known) (process_submitted cfg node blk daa) (λ _ _, True) w.
Proof.
  intros Hw. unfold process_submitted.
  assert (∀ (body : Z → Db → result DbError Db) (o : BlockOutcome),
    (∀ now d d', body now d = Ok d' → ∃ l, d' = set_blocks l d) →
    wp (books_w gap known) (_ ← map_err TDb (statement body); mret o) (λ _ _, True) w) as Hst.
  { intros body o Hbody. apply wp_bind, wp_map_err, wp_statement; [apply books_w_closed|done|].
    intros now d rs _ (l & ->)%Hbody.
    assert (books_w gap known (world_db (set_blocks l (w_db w)) (world_replies rs w)))
      by (by eapply books_frame, Hw).
    split; [done|]. by apply wp_ret. }
  destruct (tn_block_color node (bl_hash blk)) as [[| |]|]; [| | |by apply wp_throw].
  3: case_bool; [|by apply wp_ret].
  all: apply Hst; intros now d d' H; by eapply update_blocks_frame.
Qed.

Lemma sweep_blocks_books gap known cfg node daa stats w : books_w gap known w →
  wp (books_w gap known) (sweep_blocks cfg node daa stats) (λ _ _, True) w.
Proof.
  intros Hw. apply wp_bind, wp_map_err, wp_query; [apply books_w_closed|done|]. intros active rs Hrs _.
  eapply wp_mono; [apply (wp_for_each _ _ _ (λ _ _, books_w gap known))|done]; try done.
  intros blk l s w' Hw'. apply wp_bind. eapply wp_attempt_keeps; [by apply process_submitted_books|].
  intros r w'' Hw''. by apply wp_ret.
Qed.

Lemma pending_known n (d : Db) : Forall (has_reward d) (list_unallocated n d).
Proof.
  apply Forall_forall. intros r Hr. unfold list_unallocated, limit in Hr.
  apply elem_of_take in Hr as (i & Hr & _). apply list_elem_of_lookup_2 in Hr.
  rewrite stable_sort_perm in Hr. apply elem_of_retain in Hr as [Hr _]. by exists r.
Qed.

Lemma allocate_loop_books gap known pending cfg e stats w : fee_ok (ae_fee e) →
  (∀ r, r ∈ pending → r ∈ known) → books_w gap known w →
  wp (books_w gap known)
    (for_each pending stats (λ reward stats,
       r ← attempt (allocate_reward cfg e reward);
       mret (match r with
             | Ok (Allocated _ _ _ _ _) => bump 0 0 0 0 1 0 0 0 stats
             | Ok (NoContributingWallets _) => bump 0 0 0 0 0 1 0 0 stats
             | Ok AlreadyAllocated => stats
             | Err _ => bump 0 0 0 0 0 0 1 0 stats
             end)) : M Script TrackerError SweepStats)
    (λ _ _, True) w.
Proof.
  intros Hfee Hsub Hw. eapply wp_mono.
  - apply (wp_for_each _ _ _ (λ l _ w, books_w gap known w ∧ ∀ r, r ∈ l → r ∈ known)).
    + intros r l s w' [Hw' Hl]. apply wp_bind. eapply wp_attempt_keeps.
      * apply wp_map_err. apply allocate_books; [done|set_solver|done].
      * intros x w'' Hw''. apply wp_ret; [done|]. split; [done|set_solver].
    + by intros s w' [? _].
    + done.
  - done.
Qed.

Lemma tracker_books gap cfg e node w : fee_ok (ae_fee e) → books_w gap [] w →
  wp (books_w gap []) (tracker_run_once cfg e node) (λ _ _, True) w.
Proof.
  intros Hfee Hw. unfold tracker_run_once, sweep_rewards. apply wp_bind.
  destruct (tn_virtual_daa_score node); [|by apply wp_throw]. apply wp_ret; [done|].
  apply wp_bind. eapply wp_mono; [by apply sweep_blocks_books|]. intros s1 w1 Hw1 _.
  apply wp_bind. destruct (tn_coinbase_utxos node) as [utxos|]; [|by apply wp_throw]. apply wp_ret; [done|].
  apply wp_bind. eapply wp_mono.
  { apply (wp_for_each _ _ _ (λ _ _, books_w gap [])); [|done..]. intros u l s w' Hw'.
    eapply wp_mono; [by apply discover_books|done]. }
  intros s2 w2 Hw2 _. apply wp_bind, wp_map_err, wp_query; [apply books_w_closed|done|].
  intros pending rs Hrs [= <-]. set (pending := list_unallocated _ _).
  apply (wp_weaken _ (books_w gap pending)); [|intros w' [Hb _]; split; [done|constructor]].
  apply allocate_loop_books; [done..|]. split; [apply Hw2|apply pending_known].
Qed.

(** C3: Rewards are distributed exactly once and to the last sompi. Whatever the node reports and however
    the database behaves (refusals, lost acknowledgements, a crash at any point), a sweep keeps the
    books: reward ids are unique, only stamped rewards have allocation rows, the gross shares of a
    reward with rows add up to its amount, every row's fee, accrual and net payout are non-negative
    and add up to its gross, and the rebate balances move by exactly the accruals of the rows. *)
Theorem tracker_sweep_keeps_books gap cfg e node w :
  fee_ok (ae_fee e) → books_ok gap (w_db w) →
  books_ok gap (w_db (tracker_run_once cfg e node w).2).
Proof. intros Hfee Hb. apply (tracker_books gap cfg e node w Hfee). by split. Qed.

(** *** A settled answer means a stamped reward *)

Definition stamped (id : Z) (w : World Script) : Prop :=
  ∃ r, r ∈ coinbase_rewards (w_db w) ∧ cr_id r = id ∧ is_Some (cr_allocated_at r).

Lemma mark_allocated_stamped id now d r : r ∈ coinbase_rewards d → cr_id r = id →
  ∃ r', r' ∈ coinbase_rewards (mark_allocated id now d) ∧ cr_id r' = id ∧ is_Some (cr_allocated_at r').
Proof.
  intros Hr Hid. eexists. split; [apply elem_of_update_where; eauto|].
  rewrite (proj2 (Z.eqb_eq _ _) Hid). simpl. split; [done|]. by destruct (cr_allocated_at r).
Qed.

Lemma lock_allocated_stamped id d r : lock_for_allocation id d = Some r → negb (is_unallocated r) = true →
  ∃ r', r' ∈ coinbase_rewards d ∧ cr_id r' = id ∧ is_Some (cr_allocated_at r').
Proof.
  intros [Hr Hid]%find_Some Hu. exists r. split_and!; [done|lia|].
  unfold is_unallocated in Hu. by destruct (cr_allocated_at r).
Qed.

Lemma rebate_upsert_frame f k delta now d r d' : rebate_upsert f k delta now d = Ok (r, d') →
  ∃ l, d' = set_nacho_rebates l d.
Proof.
  unfold rebate_upsert. intros H. destruct (rebate_get k d).
  - apply result_bind_Ok in H as (a & _ & H). case_bool_in H; [|done]. injection H as _ <-. by eexists.
  - case_bool_in H; [|done]. injection H as _ <-. by eexists.
Qed.

Lemma accrue_all_frame rows now d d' : accrue_all rows now d = Ok d' → ∃ l, d' = set_nacho_rebates l d.
Proof.
  revert d. induction rows as [|r rows IH]; intros d H; simpl in H.
  - injection H as <-. exists (nacho_rebates d). by destruct d.
  - apply result_bind_Ok in H as (d1 & H1 & H). destruct (IH _ H) as (l & ->). case_bool_in H1.
    + apply result_bind_Ok in H1 as ([x d2] & H1 & [= <-]). unfold accrue in H1. case_bool_in H1; [done|].
      apply rebate_upsert_frame in H1 as (l' & ->). by exists l.
    + injection H1 as <-. by exists l.
Qed.

Lemma length_number_rows id rid now rows : length (number_rows id rid now rows) = length rows.
Proof. revert id. induction rows as [|r rows IH]; intros id; simpl; [done|]. by rewrite IH. Qed.

(** What an answer of the engine says about the tables before and after. *)
Definition settled (id : Z) (d : Db) (o : AllocationOutcome) (d' : Db) : Prop :=
  match o with
  | Allocated n _ _ _ _ =>
      ∃ rows, share_allocations d' = share_allocations d ++ rows ∧ length rows = n ∧
        Forall (λ a, sa_coinbase_reward_id a = id) rows
  | AlreadyAllocated | NoContributingWallets _ =>
      share_allocations d' = share_allocations d ∧ nacho_rebates d' = nacho_rebates d
  end.

Lemma allocate_tx_settles id rows n a b c res actor now d o d' : length rows = n →
  allocate_tx id rows (Allocated n a b c res) actor now d = Ret (Commit o d') →
  (∃ r, r ∈ coinbase_rewards d' ∧ cr_id r = id ∧ is_Some (cr_allocated_at r)) ∧ settled id d o d'.
Proof.
  intros Hn H. unfold allocate_tx in H. destruct (lock_for_allocation id d) as [r|] eqn:Hl; [|done].
  case_bool_in H; [done|]. apply exec_bind_Ret in H as (ins & Hins & H). destruct ins as [[k d1]|e]; [|done].
  simpl in H. destruct (accrue_all rows now d1) as [d2|e] eqn:Hacc; [|done]. injection H as <- <-.
  apply insert_batch_Ok in Hins as ->. apply accrue_all_frame in Hacc as (l & ->).
  apply find_Some in Hl as [Hr Hid]. split; [apply (mark_allocated_stamped id now _ r); [done|lia]|].
  simpl. eexists. split_and!; [done|by rewrite length_number_rows|]. apply number_rows_spec.
Qed.

Lemma finalise_empty_settles id amt actor now d o d' :
  finalise_empty_tx id amt actor now d = Ret (Commit o d') →
  (∃ r, r ∈ coinbase_rewards d' ∧ cr_id r = id ∧ is_Some (cr_allocated_at r)) ∧ settled id d o d'.
Proof.
  intros H. unfold finalise_empty_tx in H. destruct (lock_for_allocation id d) as [r|] eqn:Hl; [|done].
  case_bool_in H; [done|]. injection H as <- <-. apply find_Some in Hl as [Hr Hid].
  split; [apply (mark_allocated_stamped id now d r); [done|lia]|done].
Qed.

Lemma rollback_settles id rows o actor now d o' : allocate_tx id rows o actor now d = Ret (Rollback o') →
  (∃ r, r ∈ coinbase_rewards d ∧ cr_id r = id ∧ is_Some (cr_allocated_at r)) ∧ settled id d o' d.
Proof.
  unfold allocate_tx. destruct (lock_for_allocation id d) as [r|] eqn:Hl; [|done].
  intros H. case_bool_in H.
  - injection H as <-. split; [by eapply lock_allocated_stamped|done].
  - apply exec_bind_Ret in H as (ins & _ & H). destruct ins as [[k d1]|e]; [|done]. simpl in H.
    by destruct (accrue_all rows now d1).
Qed.

Lemma empty_rollback_settles id amt actor now d o' : finalise_empty_tx id amt actor now d = Ret (Rollback o') →
  (∃ r, r ∈ coinbase_rewards d ∧ cr_id r = id ∧ is_Some (cr_allocated_at r)) ∧ settled id d o' d.
Proof.
  unfold finalise_empty_tx. destruct (lock_for_allocation id d) as [r|] eqn:Hl; [|done].
  intros H. case_bool_in H; [|done]. injection H as <-. split; [by eapply lock_allocated_stamped|done].
Qed.

(** Tables the engine only changes in its last transaction. *)
Definition same_books (d d' : Db) : Prop :=
  coinbase_rewards d' = coinbase_rewards d ∧ share_allocations d' = share_allocations d ∧
  nacho_rebates d' = nacho_rebates d.

Lemma settled_same id d0 d o d' : same_books d0 d → settled id d o d' → settled id d0 o d'.
Proof. intros (_ & Ha & Hn) H. unfold settled in *. by rewrite Ha, Hn in H. Qed.

Lemma classify_all_frame e windows d w : same_books d (w_db w) →
  wp (λ _, True) (classify_all e windows) (λ tiers w', length tiers = length windows ∧ same_books d (w_db w')) w.
Proof.
  intros Hw. destruct (classify_all_length e windows (λ w', same_books d (w_db w')) w) as [H1 H2]; [|done|].
  - by intros ????.
  - split; [done|]. intros a Ha. auto.
Qed.

Lemma compute_all_length fee l as_ : compute_all fee l = Ret (Ok as_) → length as_ = length l.
Proof.
  revert as_. induction l as [|[g t] l IH]; intros as_ H; simpl in H; [by injection H as <-|].
  apply exec_bind_Ret in H as ([a|e] & _ & H); [|done].
  apply exec_bind_Ret in H as ([r|e] & Hr & H); [|done]. injection H as <-. simpl. by rewrite (IH r).
Qed.

Lemma split_reward_length reward windows total grosses residue :
  split_reward reward windows total = Ret (grosses, residue) → length grosses = length windows.
Proof.
  intros (s & _ & H)%exec_bind_Ret. destruct (first_wallet windows); injection H as <- _.
  - by rewrite length_alter, length_map.
  - by rewrite length_map.
Qed.

(** An answer is final. When the engine answers at all, the reward is stamped in the database and
    will not be allocated again; [Allocated n] appended exactly [n] rows, all for this reward, and
    the two other answers left allocations and rebates untouched. *)
Theorem allocate_answer_is_final e id amount s en w o w' :
  allocate_coinbase_reward e id amount s en w = (Done (Ok o), w') →
  stamped id w' ∧ settled id (w_db w) o (w_db w').
Proof.
  assert (wp (λ _, True) (allocate_coinbase_reward e id amount s en)
    (λ o w', stamped id w' ∧ settled id (w_db w) o (w_db w')) w) as [_ H].
  2:{ intros Heq. rewrite Heq in H. by apply H. }
  unfold allocate_coinbase_reward. case_bool; [by apply wp_throw|].
  apply wp_bind, wp_map_err, wp_transact; [done..|]. intros now oc d rs _ (l & ->)%close_window_frame.
  split; [done|]. apply wp_bind, wp_map_err, wp_query; [done..|]. intros windows rs' _ _.
  set (w2 := world_replies rs' _).
  assert (same_books (w_db w) (w_db w2)) as Hsame by done. clearbody w2. destruct windows as [|v vs] eqn:Ews.
  { apply wp_run_tx; [done..|intros ??? _ [? ?]%empty_rollback_settles|intros ???? _ [? ?]%finalise_empty_settles].
    all: split_and!; try done; by eapply settled_same. }
  rewrite <- Ews. case_bool; [by apply wp_throw|].
  apply wp_bind, wp_lift_exec; [done|]. intros [grosses residue] Hsplit%split_reward_length.
  apply wp_bind. eapply wp_mono; [by apply classify_all_frame|]. simpl. intros tiers w3 _ [Htiers Hsame3].
  apply wp_bind, wp_bind, wp_lift_exec; [done|]. intros [as_|err] Hc; [|by apply wp_throw].
  apply compute_all_length in Hc. rewrite length_zip in Hc.
  apply wp_ret; [done|].
  apply wp_run_tx; [done..|intros ??? _ [? ?]%rollback_settles|intros ???? _ [? ?]%allocate_tx_settles].
  3: rewrite length_zip_with; lia.
  all: split_and!; try done; by eapply settled_same.
Qed.
End sweep.

(** ** A pool with three miners *)

Module Pool.
Definition wallet (id : Z) (a : string) : Wallet := {| w_id := id; w_address := a; w_network := "mainnet" |}.
Definition share (w d daa : Z) : Share :=
  {| sh_wallet_id := w; sh_worker_id := w; sh_difficulty := f64_of_Z d; sh_daa_score := daa; sh_credited_at := 1;
     sh_correlation_id := daa |}.
Definition reward (id amount : Z) : CoinbaseReward :=
  {| cr_id := id; cr_outpoint := {| transaction_id := 900 + id; out_index := 0 |}; cr_amount_sompi := amount;
     cr_block_daa_score := 1000; cr_discovered_at := 1; cr_allocated_at := None |}.

(** Three shares each of a different weight, and a reward that does not divide evenly. *)
Definition db : Db :=
  {| wallets := [wallet 1 "kaspa:aaaaaaaaaa"; wallet 2 "kaspa:bbbbbbbbbb"; wallet 3 "kaspa:cccccccccc"];
     shares := [share 1 1 900; share 2 2 950; share 3 4 990]; share_windows := [];
     coinbase_rewards := [reward 1 10000000000]; share_allocations := []; nacho_rebates := [];
     cycles := []; payouts := []; transfers := []; blocks := []; audit_log := []; treasury_snapshots := []; scan_plan := λ _ _, table_order |}.

Definition view : NodeView unit :=
  {| nv_virtual_daa_score := 5000; nv_treasury_utxos := []; nv_feerate := f64_zero; nv_in_mempool := λ _, false |}.
Definition engine : AllocationEngine :=
  {| ae_fee := {| topline_bps := 100 |}; ae_classify := λ a, if bool_decide (a = "kaspa:aaaaaaaaaa"%string) then Some Elite else None;
     ae_instance_id := "node-a" |}.
Definition node : TrackerNode :=
  {| tn_virtual_daa_score := Some 5000; tn_block_color := λ _, None;
     tn_coinbase_utxos := Some [{| cu_transaction_id := 950; cu_index := 0; cu_amount_sompi := 5000000001;
                                   cu_block_daa_score := 1000 |}] |}.
Definition world (d : Db) (n : nat) : World unit :=
  {| w_db := d; w_sent := []; w_replies := replicate n (Proceed 7 view) |}.

Definition windows : list ShareWindow :=
  match close_window_tx 400 1000 7 db with Ok (_, d) => list_for_window 400 1000 d | Err _ => [] end.

(** After a sweep that dies while writing the second reward, and after the next one. *)
Definition after_crash : Db := w_db (tracker_run_once MaturityConfig_default engine node (world db 13)).2.
Definition after_two : Db := w_db (tracker_run_once MaturityConfig_default engine node (world after_crash 40)).2.

Lemma books_db : books_ok (λ _, 0) db.
Proof.
  split.
  - by_computation.
  - repeat constructor; by vm_compute.
  - intros a Ha. simpl in Ha. by apply not_elem_of_nil in Ha.
  - intros r Hr Hne. by destruct Hne.
  - constructor.
  - done.
Qed.
End Pool.

(** The sweep dies after the first reward is written; the second is still to be allocated. *)
Lemma tracker_sweep_keeps_books_witness :
  (length (share_allocations Pool.after_crash), length (coinbase_rewards Pool.after_crash)) = (3, 2)%nat ∧
  books_ok (λ _, 0) (w_db (tracker_run_once MaturityConfig_default Pool.engine Pool.node (Pool.world Pool.db 13)).2).
Proof.
  split; [by vm_compute|]. apply tracker_sweep_keeps_books; [|exact Pool.books_db].
  unfold fee_ok. by vm_compute.
Defined.

Lemma split_reward_exact_witness :
  sumZ [5714285714; 2857142857; 1428571429] = 10000000000 ∧
  ∃ i w, Pool.windows !! i = Some w ∧ (∀ v, v ∈ Pool.windows → sw_wallet_id w ≤ sw_wallet_id v) ∧
    ∀ j v, j ≠ i → Pool.windows !! j = Some v →
      [5714285714; 2857142857; 1428571429] !! j =
      Some (pro_rate 10000000000 (sw_total_weight v) (sum_f64 (map sw_total_weight Pool.windows))).
Proof.
  apply (split_reward_exact 10000000000 Pool.windows (sum_f64 (map sw_total_weight Pool.windows)) _ 1).
  - by vm_compute.
  - by vm_compute.
  - by vm_compute.
Defined.

Definition first_answer : World unit :=
  (allocate_coinbase_reward Pool.engine 1 10000000000 400 1000 (Pool.world Pool.db 40)).2.
Lemma allocate_answer_is_final_witness :
  stamped 1 first_answer ∧
  settled 1 (w_db (Pool.world Pool.db 40)) (Allocated 3 9900000001 42571427 57428572 1) (w_db first_answer).
Proof.
  apply (allocate_answer_is_final Pool.engine 1 10000000000 400 1000 (Pool.world Pool.db 40)).
  by vm_compute.
Defined.
