(* ===== verification/ShareStats.v ===== *)
(** * Statistics over shares, rejects and sessions

    crates/katpool-db/src/repo/share_stats.rs with the aggregate queries of
    share_reject.rs and connection_session.rs: what the API shows of the
    pool's and a miner's activity.  Instants are nanoseconds; a bound is sent
    to the database in whole microseconds, which is what its columns hold.
    Sums of [float8] run in the order of the query's plan, so that two queries
    over the same rows may differ in the last bits. *)

From Stdlib Require Import Floats.SpecFloat.
From S2P Require Import Prelude Float64 FloatExact Mass Db PayoutRepo PayoutSpec AccountRepo DupGuard Domain Events Bytes Hasher MiningState Stratum Listener KaspaApi Api Consumer FeeModel Accountant.
Local Open Scope Z_scope.

#[export] Instance f64_eq_dec : EqDecision f64.
Proof. solve_decision. Defined.

(** A [DateTime<Utc>] as a parameter of a query. *)
Definition bind_ts (t : Z) : Z := t / 1000 * 1000.

Definition HASHES_PER_DIFFICULTY : f64 := f64_of_Z 4294967296.

Definition hashrate_hs (weight secs : f64) : f64 := f64_div (f64_mul weight HASHES_PER_DIFFICULTY) secs.

Definition effective_window_secs (since until : Z) (pool_first : option Z) : f64 :=
  let start := match pool_first with Some first => if since <? first then first else since | None => since end in
  f64_of_Z (Z.max (num_seconds (until - start)) 1).

(** ** Accepted shares *)

Record AcceptedShareStats := { share_count : Z; total_weight : f64 }.

(** [credited_at >= since], [credited_at >= since AND credited_at < until]. *)
Definition shares_since (since : Z) (d : Db) : list Share := List.filter (λ r, bind_ts since <=? sh_credited_at r) (shares d).
Definition shares_within (since until : Z) (d : Db) : list Share :=
  List.filter (λ r, (bind_ts since <=? sh_credited_at r) && (sh_credited_at r <? bind_ts until)) (shares d).
Definition of_wallet (wallet_id : Z) : list Share → list Share := List.filter (λ r, sh_wallet_id r =? wallet_id).
Definition of_worker (worker_id : Z) : list Share → list Share := List.filter (λ r, sh_worker_id r =? worker_id).

(** [count( * ), sum(difficulty)]. *)
Definition accepted_over (plan : ScanPlan) (rows : list Share) : result DbError AcceptedShareStats :=
  weight ← pg_sum plan (map sh_difficulty rows);
  mret {| share_count := Z.of_nat (length rows); total_weight := weight |}.

Definition accepted_for_wallet (wallet_id since : Z) (d : Db) : result DbError AcceptedShareStats :=
  accepted_over (scan_plan d "accepted_for_wallet" wallet_id) (of_wallet wallet_id (shares_since since d)).
Definition accepted_pool_wide (since : Z) (d : Db) : result DbError AcceptedShareStats :=
  accepted_over (scan_plan d "accepted_pool_wide" 0) (shares_since since d).
Definition accepted_for_worker (worker_id since : Z) (d : Db) : result DbError AcceptedShareStats :=
  accepted_over (scan_plan d "accepted_for_worker" worker_id) (of_worker worker_id (shares_since since d)).

(** [min(credited_at)]. *)
Definition pool_first (rows : list Share) : option Z :=
  foldr (λ r m, Some (match m with Some t => Z.min (sh_credited_at r) t | None => sh_credited_at r end)) None rows.

(** The estimate of the rows [pick] takes from a window; the pool's first share bounds the window. *)
Definition hashrate_estimate (query : string) (group : Z) (pick : list Share → list Share) (since until : Z) (d : Db) : result DbError f64 :=
  if until <=? since then Err Config
  else
    let rows := shares_within since until d in
    weight ← pg_sum (scan_plan d query group) (map sh_difficulty (pick rows));
    mret (hashrate_hs weight (effective_window_secs since until (pool_first rows))).

Definition hashrate_estimate_for_wallet (wallet_id : Z) : Z → Z → Db → result DbError f64 :=
  hashrate_estimate "hashrate_estimate_for_wallet" wallet_id (of_wallet wallet_id).
Definition hashrate_estimate_pool_wide : Z → Z → Db → result DbError f64 := hashrate_estimate "hashrate_estimate_pool_wide" 0 (λ rows, rows).
Definition hashrate_estimate_for_worker (worker_id : Z) : Z → Z → Db → result DbError f64 :=
  hashrate_estimate "hashrate_estimate_for_worker" worker_id (of_worker worker_id).

Record WalletShareSummary := { accepted_count : Z; accepted_weight : f64; rejected_count : Z }.

Definition accepted_and_rejected_for_wallet (wallet_id since : Z) (s : Store) : result DbError WalletShareSummary :=
  accepted ← accepted_for_wallet wallet_id since (st_db s);
  mret {| accepted_count := share_count accepted; accepted_weight := total_weight accepted;
          rejected_count := Z.of_nat (length (List.filter (λ r, (rj_wallet_id r =? wallet_id) && (bind_ts since <=? rj_rejected_at r)) (st_rejects s))) |}.

Record ActiveCounts := { ac_wallets : Z; ac_workers : Z }.
Definition count_distinct (l : list Z) : Z := Z.of_nat (length (remove_dups l)).
Definition active_participant_counts (since : Z) (d : Db) : ActiveCounts :=
  {| ac_wallets := count_distinct (map sh_wallet_id (shares_since since d));
     ac_workers := count_distinct (map sh_worker_id (shares_since since d)) |}.

(** ** Groups *)

(** [GROUP BY key]: each key that occurs with its rows. *)
Definition group_by {A K} `{!EqDecision K} (key : A → K) (rows : list A) : list (K * list A) :=
  map (λ k, (k, List.filter (λ r, bool_decide (key r = k)) rows)) (remove_dups (map key rows)).

(** [ORDER BY] a [float8]: NaN is above every number. *)
Definition pg_leb (x y : f64) : bool :=
  match y with S754_nan => true | _ => match x with S754_nan => false | _ => f64_le x y end end.

(** ** Leaderboard *)

Record LeaderboardEntry := {
  le_address : string; le_network : string; le_accepted_shares : Z; le_total_weight : f64; le_hashrate_hs : f64 }.

(** A row of the query: the wallet with its count and weight. *)
Record LeaderboardRow := { lr_wallet : Wallet; lr_accepted : Z; lr_weight : f64 }.
Definition leaderboard_rows (rows : list Share) (d : Db) : result DbError (list LeaderboardRow) :=
  traverse (λ '(w, group),
      weight ← pg_sum (scan_plan d "share_leaderboard" (w_id w)) (map sh_difficulty group);
      mret {| lr_wallet := w; lr_accepted := Z.of_nat (length group); lr_weight := weight |})
    (omap (λ '(id, group), (λ w, (w, group)) <$> List.find (λ w, w_id w =? id) (wallets d)) (group_by sh_wallet_id rows)).

(** [total_weight DESC, accepted_shares DESC, w.id ASC]. *)
Definition leaderboard_leb (x y : LeaderboardRow) : bool :=
  if pg_leb (lr_weight x) (lr_weight y) then
    if pg_leb (lr_weight y) (lr_weight x) then
      (lr_accepted y <? lr_accepted x) || ((lr_accepted x =? lr_accepted y) && (w_id (lr_wallet x) <=? w_id (lr_wallet y)))
    else false
  else true.

Definition share_leaderboard (since until n : Z) (d : Db) : result DbError (list LeaderboardEntry) :=
  if until <=? since then Err Config
  else
    let window := shares_within since until d in
    rows ← leaderboard_rows window d;
    let rows := limit n (stable_sort leaderboard_leb rows) in
    let first := match rows with [] => None | _ => pool_first window end in
    let secs := effective_window_secs since until first in
    mret (map (λ r, {| le_address := w_address (lr_wallet r); le_network := w_network (lr_wallet r);
                       le_accepted_shares := lr_accepted r; le_total_weight := lr_weight r;
                       le_hashrate_hs := hashrate_hs (lr_weight r) secs |}) rows).

(** ** Series *)

Record HashratePoint := { hp_bucket_start : Z; hp_hashrate : f64; hp_is_partial : bool }.
Record ActiveMinersPoint := { am_bucket_start : Z; am_miners : Z }.

Definition validate_series_args (from until bucket_secs : Z) : result DbError f64 :=
  if until <=? from then Err Config
  else if bucket_secs <=? 0 then Err Config
  else Ok (f64_of_Z bucket_secs).

Definition bucket_effective_secs (bucket_start until bucket_secs : Z) : f64 :=
  let elapsed := num_seconds (until - bucket_start) in
  if bucket_secs <=? elapsed then f64_of_Z bucket_secs else f64_of_Z (Z.max elapsed 1).

(** [f64::round]: half away from zero. *)
Definition f64_round (x : f64) : f64 :=
  match x with
  | S754_finite s m e =>
      if 0 <=? e then x
      else let a := (Z.shiftl (2 * Z.pos m) e + 1) / 2 in binary_normalize 53 1024 (if s then - a else a) 0 s
  | _ => x
  end.

(** [DateTime::from_timestamp(secs, 0)]. *)
Class Timestamps := { from_timestamp : Z → option Z }.

(** [extract(epoch FROM credited_at)] is exact and becomes a float8 in the division. *)
Definition extract_epoch (t : Z) : f64 := f64_div (f64_of_Z (t / 1000)) (f64_of_Z 1000000).
Definition bucket_epoch (bucket_secs t : Z) : f64 :=
  let b := f64_of_Z bucket_secs in f64_mul (f64_floor (f64_div (extract_epoch t) b)) b.

Definition bucket_of (bucket_secs : Z) (r : Share) : f64 := bucket_epoch bucket_secs (sh_credited_at r).
(** [GROUP BY bucket_epoch ORDER BY bucket_epoch ASC]. *)
Definition buckets (bucket_secs : Z) (rows : list Share) : list (f64 * list Share) :=
  stable_sort (λ x y, pg_leb x.1 y.1) (group_by (bucket_of bucket_secs) rows).

Definition point_from_row `{!Timestamps} (bucket_secs until : Z) (row : f64 * f64) : result DbError HashratePoint :=
  let '(epoch, weight) := row in
  match from_timestamp (f64_as_i64 (f64_round epoch)) with
  | None => Err Config
  | Some bucket_start =>
      let effective := bucket_effective_secs bucket_start until bucket_secs in
      Ok {| hp_bucket_start := bucket_start; hp_hashrate := hashrate_hs weight effective;
            hp_is_partial := f64_lt effective (f64_of_Z bucket_secs) |}
  end.
Definition points_from_rows `{!Timestamps} (rows : list (f64 * f64)) (bucket_secs until : Z) : result DbError (list HashratePoint) :=
  traverse (point_from_row bucket_secs until) rows.

Definition hashrate_series `{!Timestamps} (query : string) (pick : list Share → list Share) (from until bucket_secs : Z) (d : Db)
    : result DbError (list HashratePoint) :=
  _ ← validate_series_args from until bucket_secs;
  rows ← traverse (λ '(epoch, group), weight ← pg_sum (scan_plan d query (f64_as_i64 epoch)) (map sh_difficulty group); mret (epoch, weight))
           (buckets bucket_secs (pick (shares_within from until d)));
  points_from_rows rows bucket_secs until.
Definition hashrate_series_pool_wide `{!Timestamps} : Z → Z → Z → Db → result DbError (list HashratePoint) :=
  hashrate_series "hashrate_series_pool_wide" (λ rows, rows).
Definition hashrate_series_for_wallet `{!Timestamps} (wallet_id : Z) : Z → Z → Z → Db → result DbError (list HashratePoint) :=
  hashrate_series "hashrate_series_for_wallet" (of_wallet wallet_id).

Definition active_wallets_series `{!Timestamps} (from until bucket_secs : Z) (d : Db) : result DbError (list ActiveMinersPoint) :=
  _ ← validate_series_args from until bucket_secs;
  traverse (λ '(epoch, group),
      match from_timestamp (f64_as_i64 (f64_round epoch)) with
      | None => Err Config
      | Some bucket_start => Ok {| am_bucket_start := bucket_start; am_miners := count_distinct (map sh_wallet_id group) |}
      end)
    (buckets bucket_secs (shares_within from until d)).

(** ** Rejects and sessions *)

#[export] Instance ShareRejectReason_eq_dec : EqDecision ShareRejectReason.
Proof. solve_decision. Defined.

(** [GROUP BY reason ORDER BY count( * ) DESC]. *)
Definition count_by_reason (rows : list ShareReject) : list (ShareRejectReason * Z) :=
  stable_sort (λ x y, y.2 <=? x.2) (map (λ '(k, group), (k, Z.of_nat (length group))) (group_by rj_reason rows)).
Definition count_by_reason_for_wallet (wallet_id since : Z) (s : Store) : list (ShareRejectReason * Z) :=
  count_by_reason (List.filter (λ r, (rj_wallet_id r =? wallet_id) && (bind_ts since <=? rj_rejected_at r)) (st_rejects s)).
Definition count_by_reason_pool_wide (since : Z) (s : Store) : list (ShareRejectReason * Z) :=
  count_by_reason (List.filter (λ r, bind_ts since <=? rj_rejected_at r) (st_rejects s)).
Definition reject_list_for_wallet (wallet_id n : Z) (s : Store) : list ShareReject :=
  limit n (stable_sort (λ x y, rj_rejected_at y <=? rj_rejected_at x) (List.filter (λ r, rj_wallet_id r =? wallet_id) (st_rejects s))).

(** The key of a slice, its distinct workers and its sessions. *)
Record SessionSlice (K : Type) := { sl_key : K; sl_workers : Z; sl_sessions : Z }.
Arguments sl_key {K} _. Arguments sl_workers {K} _. Arguments sl_sessions {K} _. Arguments Build_SessionSlice {K} _ _ _.

Definition session_in_window (since : Z) (r : ConnectionSession) : bool :=
  match cs_disconnected_at r with None => true | Some t => bind_ts since <=? t end.
(** [GROUP BY key ORDER BY workers DESC, sessions DESC]; [count(DISTINCT worker_id)] skips NULL. *)
Definition session_breakdown {K} `{!EqDecision K} (key : ConnectionSession → K) (rows : list ConnectionSession) : list (SessionSlice K) :=
  stable_sort (λ x y, (sl_workers y <? sl_workers x) || ((sl_workers x =? sl_workers y) && (sl_sessions y <=? sl_sessions x)))
    (map (λ '(k, group), {| sl_key := k; sl_workers := count_distinct (omap cs_worker_id group); sl_sessions := Z.of_nat (length group) |})
       (group_by key rows)).
Definition firmware_breakdown (since : Z) (s : Store) : list (SessionSlice (option string)) :=
  session_breakdown cs_remote_app (List.filter (session_in_window since) (st_sessions s)).
(** Rows without a country are left out. *)
Definition country_breakdown (since : Z) (s : Store) : list (SessionSlice string) :=
  session_breakdown (λ r, default ""%string (cs_country r))
    (List.filter (λ r, match cs_country r with Some _ => session_in_window since r | None => false end) (st_sessions s)).
Definition session_list_for_worker (worker_id n : Z) (s : Store) : list ConnectionSession :=
  limit n (stable_sort (λ x y, cs_connected_at y <=? cs_connected_at x)
    (List.filter (λ r, bool_decide (cs_worker_id r = Some worker_id)) (st_sessions s))).

(** ** The order of float8 values *)

(** Each value's place: sign and kind, then exponent, then mantissa. *)
Definition place (x : f64) : Z * Z * Z :=
  match x with
  | S754_infinity true => (-2, 0, 0)
  | S754_finite true m e => (-1, - e, - Z.pos m)
  | S754_zero _ => (0, 0, 0)
  | S754_finite false m e => (1, e, Z.pos m)
  | S754_infinity false => (2, 0, 0)
  | S754_nan => (3, 0, 0)
  end.
Definition place_le (x y : Z * Z * Z) : Prop :=
  x.1.1 < y.1.1 ∨ (x.1.1 = y.1.1 ∧ (x.1.2 < y.1.2 ∨ (x.1.2 = y.1.2 ∧ x.2 ≤ y.2))).

Lemma pg_leb_place x y : pg_leb x y = true ↔ place_le (place x) (place y).
Proof.
  unfold place_le.
  destruct x as [[]|[]| |[] m e], y as [[]|[]| |[] n f]; simpl; unfold f64_le, SFleb; simpl; try (split; [lia|done]); try (split; [done|lia]).
  all: destruct (Z.compare_spec e f); simpl; try (split; [lia|done]); try (split; [done|lia]).
  all: rewrite ?Pos.compare_cont_spec; destruct (Pos.compare_spec m n); simpl; split; try done; lia.
Qed.

Lemma pg_leb_false x y : pg_leb x y = false ↔ ¬ place_le (place x) (place y).
Proof. rewrite <- pg_leb_place. by destruct (pg_leb x y). Qed.

Lemma pg_leb_total x y : pg_leb x y = false → pg_leb y x = true.
Proof. rewrite pg_leb_false, pg_leb_place. unfold place_le. lia. Qed.

Lemma pg_leb_trans x y z : pg_leb x y = true → pg_leb y z = true → pg_leb x z = true.
Proof. rewrite !pg_leb_place. unfold place_le. lia. Qed.

(** The order of the leaderboard's rows. *)
Definition board_le (x y : LeaderboardRow) : Prop :=
  ¬ place_le (place (lr_weight x)) (place (lr_weight y)) ∨
  (place_le (place (lr_weight y)) (place (lr_weight x)) ∧
   (lr_accepted y < lr_accepted x ∨ (lr_accepted x = lr_accepted y ∧ w_id (lr_wallet x) ≤ w_id (lr_wallet y)))).

Lemma leaderboard_leb_le x y : leaderboard_leb x y = true ↔ board_le x y.
Proof.
  unfold leaderboard_leb, board_le. destruct (pg_leb (lr_weight x) (lr_weight y)) eqn:H1.
  - apply pg_leb_place in H1. destruct (pg_leb (lr_weight y) (lr_weight x)) eqn:H2.
    + apply pg_leb_place in H2. rewrite orb_true_iff, andb_true_iff. intuition lia.
    + apply pg_leb_false in H2. split; [done|]. by intros [?|[? _]].
  - apply pg_leb_false in H1. split; [by left|done].
Qed.

Lemma leaderboard_leb_total x y : leaderboard_leb x y = false → leaderboard_leb y x = true.
Proof.
  intros Hxy. apply leaderboard_leb_le. assert (¬ board_le x y) as Hn by (rewrite <- leaderboard_leb_le; by rewrite Hxy).
  unfold board_le, place_le in *. lia.
Qed.

Lemma leaderboard_leb_trans x y z : leaderboard_leb x y = true → leaderboard_leb y z = true → leaderboard_leb x z = true.
Proof. rewrite !leaderboard_leb_le. unfold board_le, place_le. lia. Qed.

(** ** Groups *)

Section groups.
Context {A K : Type} `{!EqDecision K} (key : A → K) (rows : list A).

Lemma group_by_keys : map fst (group_by key rows) = remove_dups (map key rows).
Proof. unfold group_by. rewrite map_map. apply map_id. Qed.

Lemma group_by_NoDup : NoDup (map fst (group_by key rows)).
Proof. rewrite group_by_keys. apply NoDup_remove_dups. Qed.

Lemma group_by_elem k group : (k, group) ∈ group_by key rows ↔
  group = List.filter (λ r, bool_decide (key r = k)) rows ∧ ∃ r, r ∈ rows ∧ key r = k.
Proof.
  unfold group_by. rewrite list_elem_of_In, in_map_iff. setoid_rewrite <- list_elem_of_In. setoid_rewrite elem_of_remove_dups.
  split.
  - intros (k' & Heq & Hk). injection Heq as -> <-. split; [done|]. apply list_elem_of_In, in_map_iff in Hk as (r & Hr & Hin).
    exists r. split; [by apply list_elem_of_In|done].
  - intros (-> & r & Hin & Hr). exists k. split; [done|]. rewrite <- Hr. by apply list_elem_of_In, in_map, list_elem_of_In.
Qed.

Lemma group_by_nonempty k group : (k, group) ∈ group_by key rows → group ≠ [].
Proof.
  intros (-> & r & Hin & Hr)%group_by_elem He. assert (r ∈ List.filter (λ r, bool_decide (key r = k)) rows) as Hf.
  { apply list_elem_of_In, filter_In. split; [by apply list_elem_of_In|]. by apply bool_decide_eq_true_2. }
  rewrite He in Hf. by apply not_elem_of_nil in Hf.
Qed.
End groups.

(** The groups split the rows. *)
Lemma filter_groups {A K} `{!EqDecision K} (key : A → K) ks rows : NoDup ks → Forall (λ r, key r ∈ ks) rows →
  concat (map (λ k, List.filter (λ r, bool_decide (key r = k)) rows) ks) ≡ₚ rows.
Proof.
  intros Hnd. revert rows. induction Hnd as [|k ks Hk _ IH]; intros rows Hall; simpl.
  - destruct Hall as [|r rows Hr _]; [done|]. by apply not_elem_of_nil in Hr.
  - assert (∀ f : A → bool, rows ≡ₚ List.filter f rows ++ List.filter (λ x, negb (f x)) rows) as Hsplit.
    { intros f. clear. induction rows as [|x rows IH]; simpl; [done|]. destruct (f x); simpl; [by rewrite <- IH|].
      by rewrite <- Permutation_middle, <- IH. }
    etrans; [|symmetry; apply (Hsplit (λ r, bool_decide (key r = k)))]. apply Permutation_app_head.
    rewrite <- (IH (List.filter (λ x, negb (bool_decide (key x = k))) rows)).
    + apply reflexive_eq. f_equal. apply map_ext_in. intros k' Hk'%list_elem_of_In. clear Hsplit Hall IH.
      induction rows as [|r rows IH]; simpl; [done|]. repeat case_bool_decide; simpl; rewrite ?bool_decide_eq_true_2 by done;
        rewrite ?bool_decide_eq_false_2 by done; try (by f_equal); try done. congruence.
    + apply Forall_forall. intros r Hr. apply list_elem_of_In, filter_In in Hr as [Hr Hne]. rewrite Forall_forall in Hall.
      apply list_elem_of_In, Hall, elem_of_cons in Hr as [He|]; [|done]. by rewrite bool_decide_eq_true_2 in Hne.
Qed.

Lemma group_by_partition {A K} `{!EqDecision K} (key : A → K) rows : concat (map snd (group_by key rows)) ≡ₚ rows.
Proof.
  unfold group_by. rewrite map_map. simpl. apply filter_groups; [apply NoDup_remove_dups|].
  apply Forall_forall. intros r Hr. apply elem_of_remove_dups, list_elem_of_In, in_map. by apply list_elem_of_In.
Qed.

Lemma traverse_Forall2 {E A B} (f : A → result E B) l ys : traverse f l = Ok ys → Forall2 (λ x y, f x = Ok y) l ys.
Proof.
  revert ys. induction l as [|x l IH]; intros ys Ht; simpl in Ht; [by injection Ht as <-|].
  destruct (f x) as [y|] eqn:Hx; [|done]. simpl in Ht. destruct (traverse f l) as [ys'|]; [|done]. simpl in Ht. injection Ht as <-. auto.
Qed.

(** ** The leaderboard *)

Section leaderboard.
Context (d : Db) (Hids : NoDup (map w_id (wallets d))).

(** A row of the board is right about its wallet. *)
Definition row_of (window : list Share) (r : LeaderboardRow) : Prop :=
  let group := of_wallet (w_id (lr_wallet r)) window in
  lr_wallet r ∈ wallets d ∧ group ≠ [] ∧ lr_accepted r = Z.of_nat (length group) ∧
  pg_sum (scan_plan d "share_leaderboard" (w_id (lr_wallet r))) (map sh_difficulty group) = Ok (lr_weight r).

Lemma of_wallet_group id rows : List.filter (λ r, bool_decide (sh_wallet_id r = id)) rows = of_wallet id rows.
Proof. apply filter_ext. intros r. case_bool_decide as He; symmetry; [by apply Z.eqb_eq|by apply Z.eqb_neq]. Qed.

Lemma find_wallet w : w ∈ wallets d → List.find (λ v, w_id v =? w_id w) (wallets d) = Some w.
Proof.
  induction (wallets d) as [|v ws IH]; intros Hin; [by apply not_elem_of_nil in Hin|]. simpl.
  apply NoDup_cons in Hids as [Hv Hws]. apply elem_of_cons in Hin as [->|Hin]; [by rewrite Z.eqb_refl|].
  destruct (Z.eqb_spec (w_id v) (w_id w)) as [He|_]; [|by apply IH].
  destruct Hv. rewrite He. by apply list_elem_of_In, in_map, list_elem_of_In.
Qed.

(** The joined groups: each active wallet with its shares, once. *)
Definition joined (window : list Share) : list (Wallet * list Share) :=
  omap (λ '(id, group), (λ w, (w, group)) <$> List.find (λ w, w_id w =? id) (wallets d)) (group_by sh_wallet_id window).

Lemma joined_elem window w group : (w, group) ∈ joined window ↔ w ∈ wallets d ∧ group = of_wallet (w_id w) window ∧ group ≠ [].
Proof.
  unfold joined. rewrite list_elem_of_omap. split.
  - intros ([id g] & Hg & Hf). simpl in Hf. destruct (List.find _ (wallets d)) as [v|] eqn:Hv; [|done]. simpl in Hf. injection Hf as -> ->.
    apply find_Some in Hv as [Hw Hid]. apply Z.eqb_eq in Hid as <-. pose proof (group_by_nonempty _ _ _ _ Hg) as Hne.
    apply group_by_elem in Hg as [-> _]. by rewrite of_wallet_group in *.
  - intros (Hw & -> & Hne). exists (w_id w, of_wallet (w_id w) window). split; [|simpl; by rewrite find_wallet].
    apply group_by_elem. split; [by rewrite of_wallet_group|]. destruct (of_wallet (w_id w) window) as [|r rest] eqn:He; [done|].
    assert (r ∈ of_wallet (w_id w) window) as Hr by (rewrite He; by left). apply list_elem_of_In, filter_In in Hr as [Hr Hid].
    exists r. split; [by apply list_elem_of_In|]. by apply Z.eqb_eq in Hid.
Qed.

Lemma joined_NoDup window : NoDup (map fst (joined window)).
Proof.
  pose proof (group_by_NoDup sh_wallet_id window) as Hnd. unfold joined.
  induction (group_by sh_wallet_id window) as [|[id g] gs IH]; simpl; [constructor|]. apply NoDup_cons in Hnd as [Hid Hnd].
  destruct (List.find (λ w, w_id w =? id) (wallets d)) as [w|] eqn:Hw; simpl; [|by apply IH]. constructor; [|by apply IH].
  intros Hin. apply list_elem_of_In, in_map_iff in Hin as ([v g'] & Hv & Hin). simpl in Hv. subst v.
  apply list_elem_of_In, list_elem_of_omap in Hin as ([id' g''] & Hin & Hf). simpl in Hf.
  destruct (List.find (λ w, w_id w =? id') (wallets d)) as [v|] eqn:Hv; [|done]. simpl in Hf. injection Hf as -> _.
  apply find_Some in Hw as [_ Hw%Z.eqb_eq], Hv as [_ Hv%Z.eqb_eq]. destruct Hid. rewrite <- Hw, Hv.
  exact (proj2 (list_elem_of_In _ _) (in_map fst _ _ (proj1 (list_elem_of_In _ _) Hin))).
Qed.

Lemma leaderboard_rows_spec window rows : leaderboard_rows window d = Ok rows →
  map lr_wallet rows = map fst (joined window) ∧ Forall (row_of window) rows.
Proof.
  intros Hr. apply traverse_Forall2 in Hr. fold (joined window) in Hr.
  assert (∀ w g, (w, g) ∈ joined window → w ∈ wallets d ∧ g = of_wallet (w_id w) window ∧ g ≠ []) as Hj by (intros; by apply joined_elem).
  induction Hr as [|[w g] r js rows Hwr _ IH]; simpl; [done|].
  destruct IH as [IH1 IH2]; [intros v h Hin; apply Hj; apply elem_of_cons; by right|]. destruct (pg_sum _ (map sh_difficulty g)) as [x|] eqn:Hs; [|done].
  simpl in Hwr. injection Hwr as <-. simpl. rewrite IH1. split; [done|]. constructor; [|done].
  destruct (Hj w g ltac:(apply elem_of_cons; by left)) as (Hw & -> & Hne). split_and!; done.
Qed.

(** A wallet's place in the ranking of the window. *)
Definition outranks (window : list Share) (v w : Wallet) : Prop :=
  ∀ x y, pg_sum (scan_plan d "share_leaderboard" (w_id v)) (map sh_difficulty (of_wallet (w_id v) window)) = Ok x →
    pg_sum (scan_plan d "share_leaderboard" (w_id w)) (map sh_difficulty (of_wallet (w_id w) window)) = Ok y → pg_leb y x = true.

Lemma sorted_outranks window rows : Forall (row_of window) rows → StronglySorted (λ x y, leaderboard_leb x y = true) rows →
  StronglySorted (outranks window) (map lr_wallet rows).
Proof.
  intros Hrows Hs. induction Hs as [|r rows Hs IH Hle]; simpl; [constructor|]. apply Forall_cons in Hrows as [Hr Hrows].
  constructor; [by apply IH|]. apply Forall_map, Forall_forall. intros q Hq. rewrite Forall_forall in Hle, Hrows.
  intros x y Hx Hy. destruct Hr as (_ & _ & _ & Hwr), (Hrows _ Hq) as (_ & _ & _ & Hwq). rewrite Hwr in Hx. rewrite Hwq in Hy.
  injection Hx as <-. injection Hy as <-. specialize (Hle _ Hq). apply leaderboard_leb_le in Hle. apply pg_leb_place.
  unfold board_le, place_le in *. lia.
Qed.
End leaderboard.

(** ** Sums under different plans *)

Lemma arrange_map {A B} (f : A → B) plan l : arrange plan (map f l) = map f (arrange plan l).
Proof.
  revert plan. induction l as [|x l IH]; intros plan; [done|]. cbn [map arrange]. rewrite length_map, IH.
  by rewrite map_app, firstn_map, map_cons, skipn_map.
Qed.
Lemma pieces_map {A B} (f : A → B) sizes l : pieces sizes (map f l) = map (map f) (pieces sizes l).
Proof. revert l. induction sizes as [|n sizes IH]; intros l; [done|]. cbn [pieces map]. by rewrite firstn_map, skipn_map, IH. Qed.

Lemma whole_not_infinite n : 0 ≤ n < 2 ^ 53 → pg_is_infinite (f64_of_Z n) = false.
Proof.
  intros Hn. destruct (decide (n = 0)) as [-> |Hn0]; [done|]. rewrite f64_of_Z_double by lia. unfold double. by destruct (n * 2 ^ (- ulp n)).
Qed.

Lemma pg_add_whole ns : Forall (λ n, 0 ≤ n) ns → sumZ ns < 2 ^ 53 → pg_add_all (map f64_of_Z ns) = Ok (f64_of_Z (sumZ ns)).
Proof.
  unfold pg_add_all. change f64_zero with (f64_of_Z 0).
  cut (∀ a, 0 ≤ a → Forall (λ n, 0 ≤ n) ns → a + sumZ ns < 2 ^ 53 →
    foldl (λ acc x, b ← acc; let r := f64_add b x in
             if pg_is_infinite r && negb (pg_is_infinite b) && negb (pg_is_infinite x) then Err Constraint else Ok r) (Ok (f64_of_Z a)) (map f64_of_Z ns)
    = Ok (f64_of_Z (a + sumZ ns))).
  { intros Hcut Hns Hsum. apply (Hcut 0); [lia|done|lia]. }
  induction ns as [|n ns IH]; intros a Ha Hns Hb; simpl in *; [by rewrite Z.add_0_r|]. apply Forall_cons in Hns as [Hn Hns].
  pose proof (sumZ_nonneg ns Hns). rewrite f64_add_exact, whole_not_infinite by lia. simpl. rewrite IH by (done || lia). do 2 f_equal. lia.
Qed.

(** Whole difficulties whose total a double holds add up to it under every plan. *)
Lemma pg_sum_whole plan ns : Forall (λ n, 0 ≤ n) ns → sumZ ns < 2 ^ 53 → pg_sum plan (map f64_of_Z ns) = Ok (f64_of_Z (sumZ ns)).
Proof.
  intros Hns Hsum. unfold pg_sum. rewrite arrange_map, pieces_map. set (parts := pieces _ _).
  assert (concat parts ≡ₚ ns) as Hp by (unfold parts; rewrite concat_pieces; apply arrange_perm).
  assert (Forall (Forall (λ n, 0 ≤ n)) parts) as Hparts by (apply Forall_concat; by rewrite Hp).
  assert (sumZ (map sumZ parts) = sumZ ns) as Hs.
  { rewrite <- Hp. clear. induction parts as [|l ls IH]; simpl; [done|]. by rewrite sumZ_app, IH. }
  clearbody parts. rewrite <- Hs in *. clear Hp Hs Hns.
  assert (traverse pg_add_all (map (map f64_of_Z) parts) = Ok (map f64_of_Z (map sumZ parts))) as ->.
  { induction Hparts as [|l ls Hl Hls IH]; simpl in *; [done|].
    assert (0 ≤ sumZ (map sumZ ls)) by (apply sumZ_nonneg, Forall_map; eapply Forall_impl; [exact Hls|]; apply sumZ_nonneg).
    pose proof (sumZ_nonneg l Hl). rewrite pg_add_whole by (done || lia). simpl. by rewrite IH by lia. }
  simpl. apply pg_add_whole; [|done]. apply Forall_map. eapply Forall_impl; [exact Hparts|]. apply sumZ_nonneg.
Qed.

(** The shares a window leaves out of the count since its start are those at or after its end. *)
Lemma since_splits w since until d : since < until →
  length (of_wallet w (shares_since since d)) =
    (length (of_wallet w (shares_within since until d)) + length (of_wallet w (shares_since until d)))%nat.
Proof.
  intros Hlt. assert (bind_ts since ≤ bind_ts until) by (unfold bind_ts; apply Z.mul_le_mono_nonneg_r; [lia|]; apply Z.div_le_mono; lia).
  unfold of_wallet, shares_since, shares_within. induction (shares d) as [|r rs IH]; [done|]. simpl.
  destruct (Z.leb_spec (bind_ts since) (sh_credited_at r)), (Z.ltb_spec (sh_credited_at r) (bind_ts until)), (Z.leb_spec (bind_ts until) (sh_credited_at r));
    try lia; simpl; try (destruct (sh_wallet_id r =? w); simpl); lia.
Qed.
Lemma since_within w since until d : of_wallet w (shares_since until d) = [] →
  of_wallet w (shares_since since d) = of_wallet w (shares_within since until d).
Proof.
  unfold of_wallet, shares_since, shares_within. induction (shares d) as [|r rs IH]; [done|]. simpl. intros He.
  destruct (Z.leb_spec (bind_ts until) (sh_credited_at r)), (Z.ltb_spec (sh_credited_at r) (bind_ts until)); try lia; simpl in He;
    destruct (bind_ts since <=? sh_credited_at r); simpl; rewrite ?andb_true_l, ?andb_false_r; simpl;
    destruct (sh_wallet_id r =? w); try discriminate He; try (f_equal; by apply IH); by apply IH.
Qed.

(** What an entry says of its wallet: its shares in the window, and how that compares with what the
    wallet's own queries answer over the same table. *)
Definition entry_of (since until : Z) (d : Db) (w : Wallet) (e : LeaderboardEntry) : Prop :=
  let window := shares_within since until d in
  let difficulties := map sh_difficulty (of_wallet (w_id w) window) in
  let secs := effective_window_secs since until (pool_first window) in
  let later := of_wallet (w_id w) (shares_since until d) in
  le_address e = w_address w ∧ le_network e = w_network w ∧
  le_accepted_shares e = Z.of_nat (length difficulties) ∧
  pg_sum (scan_plan d "share_leaderboard" (w_id w)) difficulties = Ok (le_total_weight e) ∧
  le_hashrate_hs e = hashrate_hs (le_total_weight e) secs ∧
  (∀ own, accepted_for_wallet (w_id w) since d = Ok own → share_count own = le_accepted_shares e + Z.of_nat (length later)) ∧
  (∀ rate, hashrate_estimate_for_wallet (w_id w) since until d = Ok rate →
     ∃ plan weight, pg_sum plan difficulties = Ok weight ∧ rate = hashrate_hs weight secs) ∧
  (∀ ns, difficulties = map f64_of_Z ns → Forall (λ n, 0 ≤ n) ns → sumZ ns < 2 ^ 53 →
     le_total_weight e = f64_of_Z (sumZ ns) ∧
     hashrate_estimate_for_wallet (w_id w) since until d = Ok (le_hashrate_hs e) ∧
     (later = [] → accepted_for_wallet (w_id w) since d = Ok {| share_count := le_accepted_shares e; total_weight := le_total_weight e |})).

Lemma entry_of_row since until d r : since < until → row_of d (shares_within since until d) r →
  entry_of since until d (lr_wallet r)
    {| le_address := w_address (lr_wallet r); le_network := w_network (lr_wallet r); le_accepted_shares := lr_accepted r; le_total_weight := lr_weight r;
       le_hashrate_hs := hashrate_hs (lr_weight r) (effective_window_secs since until (pool_first (shares_within since until d))) |}.
Proof.
  intros Hlt (_ & _ & Hc & Hwt). unfold entry_of. cbn [le_address le_network le_accepted_shares le_total_weight le_hashrate_hs].
  assert (until <=? since = false) as Hle by (apply Z.leb_gt; lia). split_and!; [done|done|by rewrite length_map|done|done| | |].
  - intros own Hown. unfold accepted_for_wallet, accepted_over in Hown. apply result_bind_Ok in Hown as (weight & _ & Hown). injection Hown as <-. simpl.
    rewrite (since_splits _ since until d), Hc by done. lia.
  - intros rate Hrate. unfold hashrate_estimate_for_wallet, hashrate_estimate in Hrate. rewrite Hle in Hrate.
    apply result_bind_Ok in Hrate as (weight & Hs & Hrate). injection Hrate as <-. eauto.
  - intros ns Hns Hpos Hsum. rewrite Hns, pg_sum_whole in Hwt by done. injection Hwt as Hwt. split_and!; [done| |].
    + unfold hashrate_estimate_for_wallet, hashrate_estimate. rewrite Hle, Hns, pg_sum_whole by done. simpl. by rewrite Hwt.
    + intros Hlater. unfold accepted_for_wallet, accepted_over. rewrite (since_within _ since until) by done. rewrite Hns, pg_sum_whole by done.
      simpl. by rewrite Hwt, Hc.
Qed.

(** C31: The leaderboard lists the first [n] of the window's active wallets, every one of them once, by
    falling weight, and an entry agrees with the wallet's own queries: [accepted_for_wallet] from the
    same start counts the entry's shares and those after the window's end, [hashrate_estimate_for_wallet]
    divides a sum of the same difficulties, added in its own plan's order, by the same seconds; and
    where the difficulties are whole numbers with a total below 2^53 the two are equal to the last bit. *)
Theorem leaderboard_agrees since until n d entries :
  NoDup (map w_id (wallets d)) → (∀ r, r ∈ shares d → ∃ w, w ∈ wallets d ∧ w_id w = sh_wallet_id r) →
  share_leaderboard since until n d = Ok entries →
  ∃ ranking, NoDup ranking ∧ StronglySorted (outranks d (shares_within since until d)) ranking ∧
    (∀ w, w ∈ ranking ↔ w ∈ wallets d ∧ of_wallet (w_id w) (shares_within since until d) ≠ []) ∧
    (∀ r, r ∈ shares_within since until d → ∃ w, w ∈ ranking ∧ w_id w = sh_wallet_id r) ∧
    Forall2 (entry_of since until d) (limit n ranking) entries.
Proof.
  intros Hids Hfk Hlb. unfold share_leaderboard in Hlb. destruct (Z.leb_spec until since) as [|Hlt]; [done|].
  set (window := shares_within since until d) in *. destruct (leaderboard_rows window d) as [rows|] eqn:Hrows; [|done]. simpl in Hlb.
  apply leaderboard_rows_spec in Hrows as [Hw Hrows]; [|done..].
  pose proof (stable_sort_perm leaderboard_leb rows) as Hp. pose proof (stable_sort_sorted _ leaderboard_leb_total leaderboard_leb_trans rows) as Hsorted.
  set (sorted := stable_sort leaderboard_leb rows) in *. rewrite <- Hp in Hrows. exists (map lr_wallet sorted).
  assert (map lr_wallet sorted ≡ₚ map fst (joined d window)) as Hperm by (rewrite <- Hw; by apply Permutation_map).
  assert (∀ w, w ∈ map lr_wallet sorted ↔ w ∈ wallets d ∧ of_wallet (w_id w) window ≠ []) as Hin.
  { intros w. rewrite Hperm. rewrite list_elem_of_In, in_map_iff. setoid_rewrite <- list_elem_of_In. split.
    - intros ([v g] & <- & (Hv & -> & Hne)%joined_elem); done.
    - intros [Hin Hne]. exists (w, of_wallet (w_id w) window). split; [done|]. by apply joined_elem. }
  split_and!; [rewrite Hperm; by apply joined_NoDup|by apply (sorted_outranks d)|exact Hin| |].
  - intros r Hr. destruct (Hfk r) as (w & Hw' & Hid); [by apply list_elem_of_In, filter_In in Hr as [Hr%list_elem_of_In _]|].
    exists w. split; [|done]. apply Hin. split; [done|]. intros He. apply (not_elem_of_nil (A := Share) r). rewrite <- He.
    apply list_elem_of_In, filter_In. split; [by apply list_elem_of_In|]. by apply Z.eqb_eq.
  - unfold limit in *. rewrite firstn_map. injection Hlb as <-. apply Forall2_fmap_r, Forall2_fmap_l.
    assert (Forall (row_of d window) (take (Z.to_nat n) sorted)) as Ht by (by apply Forall_take).
    assert (take (Z.to_nat n) sorted = [] ∨ ∀ o : option Z, match take (Z.to_nat n) sorted with [] => None | _ => o end = o) as Hfirst
      by (destruct (take (Z.to_nat n) sorted); auto).
    destruct Hfirst as [->|Hfirst]; [constructor|]. rewrite Hfirst. clear Hfirst. induction Ht as [|r rs Hr _ IH]; constructor; [|done].
    by apply entry_of_row.
Qed.

(** ** Series *)

Lemma buckets_perm bucket_secs rows : buckets bucket_secs rows ≡ₚ group_by (bucket_of bucket_secs) rows.
Proof. apply stable_sort_perm. Qed.

(** The buckets of a series: by strictly rising start, none empty, and every share of the range in exactly one. *)
Lemma buckets_split bucket_secs rows :
  StronglySorted (λ x y, pg_leb x.1 y.1 = true ∧ x.1 ≠ y.1) (buckets bucket_secs rows) ∧
  concat (map snd (buckets bucket_secs rows)) ≡ₚ rows ∧
  Forall (λ '(epoch, group), group ≠ [] ∧ Forall (λ r, bucket_of bucket_secs r = epoch) group) (buckets bucket_secs rows).
Proof.
  split_and!.
  - pose proof (stable_sort_sorted (λ x y : f64 * list Share, pg_leb x.1 y.1) (λ x y, pg_leb_total x.1 y.1) (λ x y z, pg_leb_trans x.1 y.1 z.1)
      (group_by (bucket_of bucket_secs) rows)) as Hs. pose proof (group_by_NoDup (bucket_of bucket_secs) rows) as Hnd. rewrite <- (buckets_perm bucket_secs rows) in Hnd.
    fold (buckets bucket_secs rows) in Hs. induction Hs as [|x l Hs IH Hle]; [constructor|]. apply NoDup_cons in Hnd as [Hx Hnd].
    constructor; [by apply IH|]. rewrite Forall_forall in Hle |- *. intros y Hy. split; [by apply Hle|]. intros He. apply Hx. rewrite He.
    by apply list_elem_of_In, in_map, list_elem_of_In.
  - rewrite (buckets_perm bucket_secs rows). apply group_by_partition.
  - rewrite (buckets_perm bucket_secs rows). apply Forall_forall. intros [epoch group] Hg. split; [by eapply group_by_nonempty|].
    apply group_by_elem in Hg as [-> _]. apply Forall_forall. intros r Hr. apply list_elem_of_In, filter_In in Hr as [_ Hr].
    by apply bool_decide_eq_true in Hr.
Qed.

(** The denominator of a bucket is between one second and its width, and only the bucket [until] falls in is partial. *)
Lemma bucket_secs_range bucket_start until bucket_secs : 0 < bucket_secs →
  ∃ secs, bucket_effective_secs bucket_start until bucket_secs = f64_of_Z secs ∧ 1 ≤ secs ≤ bucket_secs ∧
    (bucket_secs * NANOS ≤ until - bucket_start → secs = bucket_secs).
Proof.
  intros Hb. unfold bucket_effective_secs, num_seconds. destruct (Z.leb_spec bucket_secs (Z.quot (until - bucket_start) NANOS)) as [Hle|Hlt].
  - exists bucket_secs. split_and!; [done|lia|lia|done].
  - exists (Z.max (Z.quot (until - bucket_start) NANOS) 1). split_and!; [done|lia|lia|]. intros Hfull.
    apply Z.lt_nge in Hlt. destruct Hlt. apply Z.quot_le_lower_bound; unfold NANOS in *; lia.
Qed.

(** ** Examples *)

Module Demo.
Definition second : Z := NANOS.
Definition start : Z := 1750000020 * second.
Definition share (wallet difficulty at_sec : Z) : Share :=
  {| sh_wallet_id := wallet; sh_worker_id := wallet; sh_difficulty := f64_of_Z difficulty; sh_daa_score := 7;
     sh_credited_at := start + at_sec * second; sh_correlation_id := at_sec |}.
Definition wallet (id : Z) (address : string) : Wallet := {| w_id := id; w_address := address; w_network := "mainnet" |}.
Definition with_shares (l : list Share) : Db := set_shares l (set_wallets [wallet 1 "kaspa:a"; wallet 2 "kaspa:b"; wallet 3 "kaspa:c"] empty_db).
Definition board_db : Db := with_shares [share 1 4 10; share 2 9 20; share 1 2 30; share 3 1 500].

#[local] Instance utc : Timestamps := {| from_timestamp s := Some (s * NANOS) |}.

(** The window is [start, start + 100 s): the pool's first share shortens it to 90 seconds. *)
Lemma leaderboard_agrees_witness :
  let entries := map (λ '(a, n, w), {| le_address := a; le_network := "mainnet"; le_accepted_shares := n; le_total_weight := f64_of_Z w;
                        le_hashrate_hs := hashrate_hs (f64_of_Z w) (f64_of_Z 90) |}) [("kaspa:b"%string, 1, 9); ("kaspa:a"%string, 2, 6)] in
  share_leaderboard start (start + 100 * second) 5 board_db = Ok entries ∧
  ∃ ranking, NoDup ranking ∧ StronglySorted (outranks board_db (shares_within start (start + 100 * second) board_db)) ranking ∧
    (∀ w, w ∈ ranking ↔ w ∈ wallets board_db ∧ of_wallet (w_id w) (shares_within start (start + 100 * second) board_db) ≠ []) ∧
    (∀ r, r ∈ shares_within start (start + 100 * second) board_db → ∃ w, w ∈ ranking ∧ w_id w = sh_wallet_id r) ∧
    Forall2 (entry_of start (start + 100 * second) board_db) (limit 5 ranking) entries.
Proof.
  cbv zeta. split; [vm_compute; reflexivity|]. apply (leaderboard_agrees start (start + 100 * second) 5 board_db).
  - vm_compute. repeat constructor; set_solver.
  - intros r Hr. assert (sh_wallet_id r = 1 ∨ sh_wallet_id r = 2 ∨ sh_wallet_id r = 3) as Hid.
    { repeat (apply elem_of_cons in Hr as [-> | Hr]; [simpl; lia|]). by apply not_elem_of_nil in Hr. }
    destruct Hid as [-> | [-> | ->]]; [exists (wallet 1 "kaspa:a")|exists (wallet 2 "kaspa:b")|exists (wallet 3 "kaspa:c")]; (split; [|done]); set_solver.
  - vm_compute. reflexivity.
Defined.

(** A miner with a share every ten seconds: the first bucket holds only what follows [from], half of
    it, but is divided by its full width and not marked partial, so the series starts at half the rate. *)
Lemma leading_bucket_underreported :
  hashrate_series_pool_wide (start + 30 * second) (start + 120 * second) 60
    (with_shares (map (λ k, share 1 1 (10 * k)) [0; 1; 2; 3; 4; 5; 6; 7; 8; 9; 10; 11]))
  = Ok [{| hp_bucket_start := start; hp_hashrate := hashrate_hs (f64_of_Z 3) (f64_of_Z 60); hp_is_partial := false |};
        {| hp_bucket_start := start + 60 * second; hp_hashrate := hashrate_hs (f64_of_Z 6) (f64_of_Z 60); hp_is_partial := false |}].
Proof. vm_compute. reflexivity. Qed.
End Demo.
