(* ===== verification/ApiViews.v ===== *)
(** * The responses of the API

    api/src/models.rs and the handlers of api/src/handlers/pool.rs, miner.rs
    and health.rs: from the validated parameters and the tables to the body
    of each response.  A handler is an [exec] (a Rust computation that may panic) of a
    value or an [ApiError].  The columns [first_seen_at] and [last_seen_at],
    which the rows do not keep, are arguments.  [log10], [powi] and the text
    of a timestamp are parameters.  The queries of one handler see the same
    tables, but for the leaderboard's two. *)

From Stdlib Require Import Ascii Floats.SpecFloat.
From S2P Require Import Prelude Float64 Mass Db PayoutRepo PayoutSpec AccountRepo DupGuard Domain Events Bytes Hasher MiningState Stratum Listener KaspaApi Api Consumer FeeModel Accountant ShareStats.
Local Open Scope Z_scope.

(** ** Handlers *)

Definition Handler (A : Type) : Type := exec (result ApiError A).
#[export] Instance Handler_ret : MRet Handler := λ A a, Ret (Ok a).
#[export] Instance Handler_bind : MBind Handler := λ A B k m,
  match m with Ret (Ok a) => k a | Ret (Err e) => Ret (Err e) | Panic => Panic end.
Definition fail {A} (e : ApiError) : Handler A := Ret (Err e).
Definition pure {A} (m : exec A) : Handler A := match m with Ret a => Ret (Ok a) | Panic => Panic end.
Definition checked {A} (r : result ApiError A) : Handler A := Ret r.

(** [?] on a query: an aggregate out of range is SQLSTATE 22003. *)
Definition failure_of (e : DbError) : DbFailure :=
  match e with
  | Connection => DbConnection
  | Constraint => DbConstraint (Some "22003"%string)
  | NotFound => DbNotFound
  | Config => DbConfig "invalid window"
  end.
Definition queried {A} (r : result DbError A) : Handler A :=
  match r with Ok a => Ret (Ok a) | Err e => Ret (Err (ApiError_from_db (failure_of e))) end.

Fixpoint each {A B} (f : A → Handler B) (l : list A) : Handler (list B) :=
  match l with
  | [] => mret []
  | x :: l => y ← f x; ys ← each f l; mret (y :: ys)
  end.

Record Window := { win_since : Z; win_until : Z; win_secs : Z }.
Definition resolve_window (now secs : Z) : Window := {| win_since := now - secs * NANOS; win_until := now; win_secs := secs |}.

(** ** Labels *)

Definition block_status_str (s : BlockStatus) : string :=
  match s with
  | Found => "found" | SubmittedToNode => "submitted_to_node" | ConfirmedBlue => "confirmed_blue"
  | Matured => "matured" | Orphaned => "orphaned"
  end.
Definition payout_kind_str (k : PayoutKind) : string := match k with Kas => "kas" | Krc20Nacho => "nacho" end.
Definition payout_status_str (s : PayoutStatus) : string :=
  match s with
  | Planned => "planned" | Submitted => "submitted" | Accepted => "accepted" | Confirmed => "confirmed" | Failed => "failed"
  end.
Definition cycle_status_str (s : PayoutCycleStatus) : string :=
  match s with
  | CPlanned => "planned" | CBroadcasting => "broadcasting" | CPartiallySettled => "partially_settled"
  | CSettled => "settled" | CFailed => "failed"
  end.
Definition DbWalletTier_as_str (t : WalletTier) : string := match t with Standard => "standard" | Elite => "elite" end.
Definition bucket_token (b : Bucket) : string :=
  match b with OneMinute => "1m" | FiveMinutes => "5m" | OneHour => "1h" | OneDay => "1d" end.

(** A 32-byte hash in lowercase hexadecimal. *)
Definition hash_hex (h : Hash) : string := hex_encode (be_bytes 32 h).

(** ** Health *)

Record Readiness := { re_ready : bool; re_db_reachable : bool; re_kaspad_synced : bool }.
Definition ready (r : ReadinessInner) : Z * Readiness :=
  let body := {| re_ready := is_ready r; re_db_reachable := db_reachable r; re_kaspad_synced := kaspad_synced r |} in
  (if re_ready body then 200 else 503, body).
Record Started := { sd_started : bool; sd_started_at : Z; sd_uptime_secs : Z }.
Definition started_probe (r : ReadinessInner) (started_at now : Z) : Z * Started :=
  (if started r then 200 else 503,
   {| sd_started := started r; sd_started_at := started_at; sd_uptime_secs := num_seconds (now - started_at) |}).

(** ** Pool: statistics *)

Record BlockCounts := { bc_found : Z; bc_submitted_to_node : Z; bc_confirmed_blue : Z; bc_matured : Z; bc_orphaned : Z }.
Definition BlockCounts_default : BlockCounts :=
  {| bc_found := 0; bc_submitted_to_node := 0; bc_confirmed_blue := 0; bc_matured := 0; bc_orphaned := 0 |}.
Definition set_count (counts : BlockCounts) (row : BlockStatus * Z) : BlockCounts :=
  let '(s, n) := row in
  let '(f, su, c, m, o) := (bc_found counts, bc_submitted_to_node counts, bc_confirmed_blue counts, bc_matured counts, bc_orphaned counts) in
  match s with
  | Found => {| bc_found := n; bc_submitted_to_node := su; bc_confirmed_blue := c; bc_matured := m; bc_orphaned := o |}
  | SubmittedToNode => {| bc_found := f; bc_submitted_to_node := n; bc_confirmed_blue := c; bc_matured := m; bc_orphaned := o |}
  | ConfirmedBlue => {| bc_found := f; bc_submitted_to_node := su; bc_confirmed_blue := n; bc_matured := m; bc_orphaned := o |}
  | Matured => {| bc_found := f; bc_submitted_to_node := su; bc_confirmed_blue := c; bc_matured := n; bc_orphaned := o |}
  | Orphaned => {| bc_found := f; bc_submitted_to_node := su; bc_confirmed_blue := c; bc_matured := m; bc_orphaned := n |}
  end.
Definition BlockCounts_from_rows (rows : list (BlockStatus * Z)) : BlockCounts := foldl set_count BlockCounts_default rows.

Record PayoutTotals := { tt_kas_confirmed : KasAmount; tt_nacho_confirmed : KasAmount; tt_confirmed_payouts : Z }.
Record TreasuryView := { tv_captured_at : Z; tv_kas_balance : KasAmount; tv_nacho_balance : list Z; tv_daa_score : Z; tv_blue_score : Z }.
Record PoolStats := {
  ps_as_of : Z; ps_window_secs : Z; ps_miners_active : Z; ps_workers_active : Z; ps_hashrate_hs : f64; ps_accepted_shares : Z;
  ps_blocks : BlockCounts; ps_payouts : PayoutTotals; ps_treasury : option TreasuryView }.

(** treasury.rs, [latest]. *)
Definition treasury_list_recent (n : Z) (d : Db) : list TreasurySnapshot :=
  limit n (stable_sort (λ x y, ts_captured_at y <=? ts_captured_at x) (treasury_snapshots d)).
Definition treasury_latest (d : Db) : option TreasurySnapshot := head (treasury_list_recent 1 d).

Definition TreasuryView_from (t : TreasurySnapshot) : exec TreasuryView :=
  kas ← KasAmount_from_sompi (ts_kas_balance_sompi t);
  Ret {| tv_captured_at := ts_captured_at t; tv_kas_balance := kas; tv_nacho_balance := i64_to_string (ts_nacho_balance t);
         tv_daa_score := ts_daa_score t; tv_blue_score := ts_blue_score t |}.

(** [Option::map] with a computation. *)
Definition optionally {A B} (f : A → exec B) (o : option A) : exec (option B) :=
  match o with Some a => b ← f a; Ret (Some b) | None => Ret None end.

Definition build_stats (now secs : Z) (s : Store) : Handler PoolStats :=
  let w := resolve_window now secs in
  let d := st_db s in
  accepted ← queried (accepted_pool_wide (win_since w) d);
  hashrate ← queried (hashrate_estimate_pool_wide (win_since w) (win_until w) d);
  let counts := active_participant_counts (win_since w) d in
  let block_rows := count_by_status d in
  totals ← queried (pool_payout_totals d);
  kas ← pure (KasAmount_from_sompi (pt_kas_confirmed_sompi totals));
  nacho ← pure (KasAmount_from_sompi (pt_nacho_confirmed_base_units totals));
  treasury ← pure (optionally TreasuryView_from (treasury_latest d));
  mret {| ps_as_of := win_until w; ps_window_secs := win_secs w; ps_miners_active := ac_wallets counts; ps_workers_active := ac_workers counts;
          ps_hashrate_hs := hashrate; ps_accepted_shares := share_count accepted; ps_blocks := BlockCounts_from_rows block_rows;
          ps_payouts := {| tt_kas_confirmed := kas; tt_nacho_confirmed := nacho; tt_confirmed_payouts := pt_confirmed_payouts totals |};
          ps_treasury := treasury |}.

Record HashrateSnapshot := { hs_hashrate_hs : f64; hs_window_secs : Z }.
Definition pool_hashrate (now secs : Z) (s : Store) : Handler HashrateSnapshot :=
  let w := resolve_window now secs in
  hashrate ← queried (hashrate_estimate_pool_wide (win_since w) (win_until w) (st_db s));
  mret {| hs_hashrate_hs := hashrate; hs_window_secs := win_secs w |}.

(** ** Pool: series *)

Record HashratePointView := { hv_bucket_start : Z; hv_hashrate_hs : f64; hv_partial : bool }.
Record HashrateHistory := { hh_from : Z; hh_to : Z; hh_bucket : string; hh_points : list HashratePointView }.
Definition point_view (p : HashratePoint) : HashratePointView :=
  {| hv_bucket_start := hp_bucket_start p; hv_hashrate_hs := hp_hashrate p; hv_partial := hp_is_partial p |}.
Definition history_of (r : Range) (points : list HashratePoint) : HashrateHistory :=
  {| hh_from := range_from r; hh_to := range_until r; hh_bucket := bucket_token (range_bucket r); hh_points := map point_view points |}.
Definition pool_hashrate_history `{!Timestamps} (r : Range) (s : Store) : Handler HashrateHistory :=
  points ← queried (hashrate_series_pool_wide (range_from r) (range_until r) (seconds (range_bucket r)) (st_db s));
  mret (history_of r points).

Record ActiveMinersPointView := { av_bucket_start : Z; av_miners : Z }.
Record ActiveMinersHistory := { ah_from : Z; ah_to : Z; ah_bucket : string; ah_points : list ActiveMinersPointView }.
Definition active_miners_history `{!Timestamps} (r : Range) (s : Store) : Handler ActiveMinersHistory :=
  points ← queried (active_wallets_series (range_from r) (range_until r) (seconds (range_bucket r)) (st_db s));
  mret {| ah_from := range_from r; ah_to := range_until r; ah_bucket := bucket_token (range_bucket r);
          ah_points := map (λ p, {| av_bucket_start := am_bucket_start p; av_miners := am_miners p |}) points |}.

(** ** Pool: blocks and payouts *)

Record BlockView := {
  bv_id : Z; bv_hash : string; bv_status : string; bv_daa_score : Z; bv_blue_score : option Z; bv_found_at : Z;
  bv_confirmed_at : option Z; bv_matured_at : option Z; bv_reward : option KasAmount }.
Definition BlockView_from (b : Block) : exec BlockView :=
  reward ← optionally KasAmount_from_sompi (bl_miner_reward_sompi b);
  Ret {| bv_id := bl_id b; bv_hash := hash_hex (bl_hash b); bv_status := block_status_str (bl_status b); bv_daa_score := bl_daa_score b;
         bv_blue_score := bl_blue_score b; bv_found_at := bl_found_at b; bv_confirmed_at := bl_confirmed_at b;
         bv_matured_at := bl_matured_at b; bv_reward := reward |}.

Record CycleView := {
  cv_id : Z; cv_kind : string; cv_status : string; cv_daa_start : Z; cv_daa_end : Z; cv_planned_at : Z; cv_settled_at : option Z;
  cv_total : KasAmount; cv_total_recipients : Z }.
Definition CycleView_from (c : PayoutCycle) : exec CycleView :=
  total ← KasAmount_from_sompi (pc_total_sompi c);
  Ret {| cv_id := pc_id c; cv_kind := payout_kind_str (pc_kind c); cv_status := cycle_status_str (pc_status c); cv_daa_start := pc_daa_start c;
         cv_daa_end := pc_daa_end c; cv_planned_at := pc_planned_at c; cv_settled_at := pc_settled_at c; cv_total := total;
         cv_total_recipients := pc_total_recipients c |}.

(** Rows with the cursor of the next page. *)
Record PageOf (A : Type) := { pg_rows : list A; pg_next_before : option Z }.
Arguments pg_rows {A} _. Arguments pg_next_before {A} _. Arguments Build_PageOf {A} _ _.
Definition page_of {A B} (view : A → exec B) (listed : list A * option Z) : Handler (PageOf B) :=
  let '(rows, next) := listed in
  views ← each (λ r, pure (view r)) rows;
  mret {| pg_rows := views; pg_next_before := next |}.
Definition blocks_page (p : Page) (s : Store) : Handler (PageOf BlockView) :=
  page_of BlockView_from (page_rows bl_id (λ n b, list_recent n b (st_db s)) p).
Definition cycles_page (p : Page) (s : Store) : Handler (PageOf CycleView) :=
  page_of CycleView_from (page_rows pc_id (λ n b, list_recent_cycles n b (st_db s)) p).

Record CycleRecipientView := {
  rv_payout_id : Z; rv_address : string; rv_amount : KasAmount; rv_status : string; rv_tx_hash : option string;
  rv_krc20_commit_hash : option string; rv_krc20_reveal_hash : option string; rv_nacho_amount : option (list Z) }.
Definition CycleRecipientView_from (r : CycleRecipient) : exec CycleRecipientView :=
  let p := rc_payout r in
  amount ← KasAmount_from_sompi (po_amount_sompi p);
  Ret {| rv_payout_id := po_id p; rv_address := rc_address r; rv_amount := amount; rv_status := payout_status_str (po_status p);
         rv_tx_hash := hash_hex <$> po_tx_hash p; rv_krc20_commit_hash := hash_hex <$> po_krc20_commit_hash p;
         rv_krc20_reveal_hash := hash_hex <$> po_krc20_reveal_hash p; rv_nacho_amount := i64_to_string <$> rc_nacho_amount r |}.
Record CycleDetailPage := { cd_cycle : CycleView; cd_recipients : list CycleRecipientView }.
Definition payout_cycle (cycle_id : Z) (s : Store) : Handler CycleDetailPage :=
  cycle ← queried (get_cycle cycle_id (st_db s));
  recipients ← each (λ r, pure (CycleRecipientView_from r)) (list_cycle_recipients cycle_id (st_db s));
  view ← pure (CycleView_from cycle);
  mret {| cd_cycle := view; cd_recipients := recipients |}.

(** ** Pool: leaderboard and breakdowns *)

Record LeaderboardEntryView := {
  lv_rank : Z; lv_address : string; lv_network : string; lv_accepted_shares : Z; lv_hashrate_hs : f64; lv_pool_share : f64 }.
Record LeaderboardResponse := { lb_window_secs : Z; lb_entries : list LeaderboardEntryView }.
Definition entry_view (pool_weight : f64) (idx : nat) (e : LeaderboardEntry) : LeaderboardEntryView :=
  {| lv_rank := Z.of_nat idx + 1; lv_address := le_address e; lv_network := le_network e; lv_accepted_shares := le_accepted_shares e;
     lv_hashrate_hs := le_hashrate_hs e;
     lv_pool_share := if f64_lt f64_zero pool_weight then f64_div (le_total_weight e) pool_weight else f64_zero |}.
(** The pool's weight is read by a second query, which may see more shares. *)
Definition pool_leaderboard (now secs n : Z) (s1 s2 : Store) : Handler LeaderboardResponse :=
  let w := resolve_window now secs in
  rows ← queried (share_leaderboard (win_since w) (win_until w) n (st_db s1));
  pool ← queried (accepted_pool_wide (win_since w) (st_db s2));
  mret {| lb_window_secs := win_secs w; lb_entries := imap (entry_view (total_weight pool)) rows |}.

Record Breakdown (K : Type) := { bd_window_secs : Z; bd_entries : list (SessionSlice K) }.
Arguments bd_window_secs {K} _. Arguments bd_entries {K} _. Arguments Build_Breakdown {K} _ _.
Definition pool_firmware (now secs : Z) (s : Store) : Handler (Breakdown (option string)) :=
  let w := resolve_window now secs in mret {| bd_window_secs := win_secs w; bd_entries := firmware_breakdown (win_since w) s |}.
Definition pool_geo (now secs : Z) (s : Store) : Handler (Breakdown string) :=
  let w := resolve_window now secs in mret {| bd_window_secs := win_secs w; bd_entries := country_breakdown (win_since w) s |}.

Record ActiveSessionsView := { as_active_sessions : Z; as_active_workers : Z }.
Definition active_sessions (s : Store) : Handler ActiveSessionsView :=
  let '(sessions, workers) := active_summary s in mret {| as_active_sessions := sessions; as_active_workers := workers |}.

Record RejectReasonCount := { rr_reason : string; rr_count : Z }.
Definition RejectReasonCount_from_row (row : ShareRejectReason * Z) : RejectReasonCount :=
  {| rr_reason := ShareRejectReason_as_str row.1; rr_count := row.2 |}.
Record RejectsBody := { rb_window_secs : Z; rb_total : Z; rb_by_reason : list RejectReasonCount }.
Definition rejects_body (secs : Z) (rows : list (ShareRejectReason * Z)) : Handler RejectsBody :=
  total ← pure (sum_i64 (map snd rows));
  mret {| rb_window_secs := secs; rb_total := total; rb_by_reason := map RejectReasonCount_from_row rows |}.
Definition pool_rejects (now secs : Z) (s : Store) : Handler RejectsBody :=
  let w := resolve_window now secs in rejects_body (win_secs w) (count_by_reason_pool_wide (win_since w) s).

(** ** The aggregator feed *)

(** [f64::log10], [f64::powi] and [DateTime::to_rfc3339_opts] with milliseconds. *)
Class Display := { f64_log10 : f64 → f64; f64_powi : f64 → Z → f64; to_rfc3339_millis : Z → string }.

Definition UNITS : list string := ["H/s"; "KH/s"; "MH/s"; "GH/s"; "TH/s"; "PH/s"; "EH/s"; "ZH/s"]%string.

(** [{:.2}] of a positive finite float: the exact value to hundredths, ties to even. *)
Definition hundredths (x : f64) : Z :=
  match x with
  | S754_finite _ m e =>
      if 0 <=? e then 100 * Z.shiftl (Z.pos m) e
      else
        let '(q, r) := Z.div_eucl (100 * Z.pos m) (2 ^ (- e)) in
        if (2 * r <? 2 ^ (- e)) || ((2 * r =? 2 ^ (- e)) && Z.even q) then q else q + 1
  | _ => 0
  end.
(** A float has at most 309 digits before the point. *)
Definition integer_text (n : Z) : list Z := match trim_start_matches 48 (fixed_digits 309 n) with [] => [48] | s => s end.
Definition fmt2 (x : f64) : list Z := integer_text (hundredths x / 100) ++ [46] ++ fixed_digits 2 (hundredths x).

Definition format_hashrate_compact `{!Display} (hs : f64) : list Z :=
  if negb (f64_is_finite hs) || f64_le hs f64_zero then codes "0.00H/s"
  else
    let exp := Z.min (f64_as_u64 (f64_floor (f64_div (f64_log10 hs) (f64_of_Z 3)))) (Z.of_nat (length UNITS) - 1) in
    let scaled := f64_div hs (f64_powi (f64_of_Z 1000) exp) in
    fmt2 scaled ++ codes (nth (Z.to_nat exp) UNITS ""%string).

Record RecentBlockIdentity := {
  ri_hash : Hash; ri_worker_name : string; ri_wallet_address : string; ri_daa_score : Z; ri_miner_reward_sompi : option Z; ri_found_at : Z }.
(** block.rs, [list_recent_with_identity]: the inner joins drop a block without its worker or wallet. *)
Definition block_identity (s : Store) (b : Block) : option RecentBlockIdentity :=
  k ← List.find (λ k, wk_id k =? bl_finder_worker_id b) (st_workers s);
  w ← List.find (λ w, w_id w =? bl_finder_wallet_id b) (wallets (st_db s));
  mret {| ri_hash := bl_hash b; ri_worker_name := wk_name k; ri_wallet_address := w_address w; ri_daa_score := bl_daa_score b;
          ri_miner_reward_sompi := bl_miner_reward_sompi b; ri_found_at := bl_found_at b |}.
Definition list_recent_with_identity (n : Z) (s : Store) : list RecentBlockIdentity :=
  limit n (omap (block_identity s) (stable_sort (λ x y, bl_id y <=? bl_id x) (blocks (st_db s)))).

Record MpsBlock := {
  mb_mined_block_hash : string; mb_miner_id : string; mb_pool_address : list Z; mb_reward_block_hash : string; mb_wallet : string;
  mb_daa_score : Z; mb_miner_reward : Z; mb_timestamp : string }.
Record MiningPoolStats := {
  mp_coin_mined : string; mp_pool_name : list Z; mp_url : list Z; mp_pool_fee : f64; mp_current_hash_rate : list Z;
  mp_top_100_blocks : list MpsBlock; mp_total_blocks_count : Z; mp_advertise_image_link : list Z; mp_min_pay : Z; mp_country : list Z;
  mp_fee_type : list Z; mp_lastblock : string; mp_lastblocktime : string }.

Definition mps_block `{!Display} (cfg : ApiConfig) (b : RecentBlockIdentity) : MpsBlock :=
  {| mb_mined_block_hash := hash_hex (ri_hash b); mb_miner_id := ri_worker_name b; mb_pool_address := mps_pool_address cfg;
     mb_reward_block_hash := ""; mb_wallet := ri_wallet_address b; mb_daa_score := ri_daa_score b;
     mb_miner_reward := default 0 (ri_miner_reward_sompi b); mb_timestamp := to_rfc3339_millis (ri_found_at b) |}.
Definition build_mining_pool_stats `{!Display} (cfg : ApiConfig) (now : Z) (s : Store) : Handler MiningPoolStats :=
  let since := now - 600 * NANOS in
  hashrate ← queried (hashrate_estimate_pool_wide since now (st_db s));
  let recent := list_recent_with_identity 100 s in
  let '(lastblock, lastblocktime) :=
    match recent with [] => (""%string, ""%string) | b :: _ => (hash_hex (ri_hash b), to_rfc3339_millis (ri_found_at b)) end in
  mret {| mp_coin_mined := "Kaspa"; mp_pool_name := mps_pool_name cfg; mp_url := mps_url cfg;
          mp_pool_fee := f64_div (f64_of_Z (mps_fee_bps cfg)) (f64_of_Z 100); mp_current_hash_rate := format_hashrate_compact hashrate;
          mp_top_100_blocks := map (mps_block cfg) recent; mp_total_blocks_count := total_count (st_db s);
          mp_advertise_image_link := mps_ad_image_link cfg; mp_min_pay := mps_min_pay_kas cfg; mp_country := mps_country cfg;
          mp_fee_type := mps_fee_type cfg; mp_lastblock := lastblock; mp_lastblocktime := lastblocktime |}.

(** ** Miners *)

Definition find_by_address (address : string) (d : Db) : option Wallet := List.find (λ w, bool_decide (w_address w = address)) (wallets d).
Definition require_wallet (address : string) (s : Store) : Handler Wallet :=
  match find_by_address address (st_db s) with Some w => mret w | None => fail ApiNotFound end.

Record KasBalanceView := { kv_allocated : KasAmount; kv_paid : KasAmount; kv_payable : KasAmount }.
Definition kas_balance (wallet_id : Z) (s : Store) : Handler KasBalanceView :=
  computed ← queried (kas_payable_for_wallet wallet_id (st_db s));
  bal ← pure computed;
  allocated ← pure (KasAmount_from_sompi (kb_allocated_sompi bal));
  paid ← pure (KasAmount_from_sompi (kb_confirmed_paid_sompi bal));
  payable ← pure (KasAmount_from_sompi (kb_payable_sompi bal));
  mret {| kv_allocated := allocated; kv_paid := paid; kv_payable := payable |}.

Record NachoRebateView := { nv_accrued : KasAmount; nv_paid : KasAmount; nv_pending : KasAmount }.
Definition nacho_amounts (accrued paid pending : Z) : exec NachoRebateView :=
  a ← KasAmount_from_sompi accrued; p ← KasAmount_from_sompi paid; q ← KasAmount_from_sompi pending;
  Ret {| nv_accrued := a; nv_paid := p; nv_pending := q |}.
Definition NachoRebateView_zero : exec NachoRebateView := nacho_amounts 0 0 0.
Definition nacho_view (wallet_id : Z) (s : Store) : Handler NachoRebateView :=
  pure (match rebate_get wallet_id (st_db s) with
        | None => NachoRebateView_zero
        | Some r => pending ← pending_sompi r; nacho_amounts (nr_accrued_sompi r) (nr_paid_sompi r) pending
        end).

Record BalanceResponse := { br_address : string; br_network : string; br_kas : KasBalanceView; br_nacho_rebate : NachoRebateView }.
Definition miner_balance (addr : string) (s : Store) : Handler BalanceResponse :=
  wallet ← require_wallet addr s;
  kas ← kas_balance (w_id wallet) s;
  nacho ← nacho_view (w_id wallet) s;
  mret {| br_address := w_address wallet; br_network := w_network wallet; br_kas := kas; br_nacho_rebate := nacho |}.

(** The two time columns of a wallet or worker row. *)
Record SeenAt := { first_seen_at : Z; last_seen_at : Z }.

(** worker.rs. *)
Definition worker_get_by_id (id : Z) (s : Store) : result DbError Worker :=
  match List.find (λ k, wk_id k =? id) (st_workers s) with Some k => Ok k | None => Err NotFound end.
Definition worker_list_for_wallet (seen : Z → SeenAt) (wallet_id : Z) (s : Store) : list Worker :=
  stable_sort (λ x y, last_seen_at (seen (wk_id y)) <=? last_seen_at (seen (wk_id x)))
    (List.filter (λ k, wk_wallet_id k =? wallet_id) (st_workers s)).

Record MinerProfile := {
  mi_address : string; mi_network : string; mi_seen : SeenAt; mi_window_secs : Z; mi_accepted_shares : Z; mi_rejected_shares : Z;
  mi_hashrate_hs : f64; mi_workers_count : Z; mi_kas : KasBalanceView; mi_nacho_rebate : NachoRebateView }.
Definition miner_profile (wallet_seen worker_seen : Z → SeenAt) (now : Z) (addr : string) (secs : Z) (s : Store) : Handler MinerProfile :=
  wallet ← require_wallet addr s;
  let w := resolve_window now secs in
  summary ← queried (accepted_and_rejected_for_wallet (w_id wallet) (win_since w) s);
  hashrate ← queried (hashrate_estimate_for_wallet (w_id wallet) (win_since w) (win_until w) (st_db s));
  let workers := worker_list_for_wallet worker_seen (w_id wallet) s in
  kas ← kas_balance (w_id wallet) s;
  nacho ← nacho_view (w_id wallet) s;
  mret {| mi_address := w_address wallet; mi_network := w_network wallet; mi_seen := wallet_seen (w_id wallet); mi_window_secs := win_secs w;
          mi_accepted_shares := accepted_count summary; mi_rejected_shares := rejected_count summary; mi_hashrate_hs := hashrate;
          mi_workers_count := Z.of_nat (length workers); mi_kas := kas; mi_nacho_rebate := nacho |}.

Record WorkerView := { wv_name : string; wv_seen : SeenAt; wv_accepted_shares : Z; wv_hashrate_hs : f64 }.
Record WorkersResponse := { wr_address : string; wr_window_secs : Z; wr_workers : list WorkerView }.
Definition worker_view (worker_seen : Z → SeenAt) (w : Window) (s : Store) (k : Worker) : Handler WorkerView :=
  accepted ← queried (accepted_for_worker (wk_id k) (win_since w) (st_db s));
  hashrate ← queried (hashrate_estimate_for_worker (wk_id k) (win_since w) (win_until w) (st_db s));
  mret {| wv_name := wk_name k; wv_seen := worker_seen (wk_id k); wv_accepted_shares := share_count accepted; wv_hashrate_hs := hashrate |}.
Definition miner_workers (worker_seen : Z → SeenAt) (now : Z) (addr : string) (secs : Z) (s : Store) : Handler WorkersResponse :=
  wallet ← require_wallet addr s;
  let w := resolve_window now secs in
  views ← each (worker_view worker_seen w s) (worker_list_for_wallet worker_seen (w_id wallet) s);
  mret {| wr_address := w_address wallet; wr_window_secs := win_secs w; wr_workers := views |}.

Definition miner_hashrate_history `{!Timestamps} (addr : string) (r : Range) (s : Store) : Handler HashrateHistory :=
  wallet ← require_wallet addr s;
  points ← queried (hashrate_series_for_wallet (w_id wallet) (range_from r) (range_until r) (seconds (range_bucket r)) (st_db s));
  mret (history_of r points).

Record MinerPayoutView := {
  mv_id : Z; mv_cycle_id : Z; mv_kind : string; mv_amount : KasAmount; mv_status : string; mv_tx_hash : option string;
  mv_krc20_commit_hash : option string; mv_krc20_reveal_hash : option string; mv_planned_at : Z; mv_submitted_at : option Z;
  mv_confirmed_at : option Z; mv_failure_reason : option string; mv_nacho_amount : option (list Z) }.
Definition MinerPayoutView_from (r : WalletPayout) : exec MinerPayoutView :=
  let p := wp_payout r in
  amount ← KasAmount_from_sompi (po_amount_sompi p);
  Ret {| mv_id := po_id p; mv_cycle_id := po_cycle_id p; mv_kind := payout_kind_str (wp_kind r); mv_amount := amount;
         mv_status := payout_status_str (po_status p); mv_tx_hash := hash_hex <$> po_tx_hash p;
         mv_krc20_commit_hash := hash_hex <$> po_krc20_commit_hash p; mv_krc20_reveal_hash := hash_hex <$> po_krc20_reveal_hash p;
         mv_planned_at := po_planned_at p; mv_submitted_at := po_submitted_at p; mv_confirmed_at := po_confirmed_at p;
         mv_failure_reason := po_failure_reason p; mv_nacho_amount := i64_to_string <$> wp_nacho_amount r |}.
Record MinerPayoutsPage := { mpg_address : string; mpg_payouts : PageOf MinerPayoutView }.
Definition miner_payouts_page (addr : string) (p : Page) (s : Store) : Handler MinerPayoutsPage :=
  wallet ← require_wallet addr s;
  payouts ← page_of MinerPayoutView_from (page_rows (po_id ∘ wp_payout) (λ n b, list_for_wallet_detailed (w_id wallet) n b (st_db s)) p);
  mret {| mpg_address := w_address wallet; mpg_payouts := payouts |}.

Record RejectsResponse := { rs_address : string; rs_body : RejectsBody }.
Definition miner_rejects (now : Z) (addr : string) (secs : Z) (s : Store) : Handler RejectsResponse :=
  wallet ← require_wallet addr s;
  let w := resolve_window now secs in
  body ← rejects_body (win_secs w) (count_by_reason_for_wallet (w_id wallet) (win_since w) s);
  mret {| rs_address := w_address wallet; rs_body := body |}.

Record FullRebateResponse := { fr_address : string; fr_tier : option string; fr_full_rebate : bool }.
Definition full_rebate (addr : string) (s : Store) : Handler FullRebateResponse :=
  wallet ← require_wallet addr s;
  let tier := latest_applied_tier_for_wallet (w_id wallet) (st_db s) in
  mret {| fr_address := w_address wallet; fr_tier := DbWalletTier_as_str <$> tier; fr_full_rebate := bool_decide (tier = Some Elite) |}.

(** ** Figures that agree *)

Lemma pure_Ret {A} (m : exec A) (a : A) : pure m = Ret (Ok a) ↔ m = Ret a.
Proof. destruct m; simpl; split; congruence. Qed.

Lemma handler_bind_Ok {A B} (m : Handler A) (k : A → Handler B) b : m ≫= k = Ret (Ok b) → ∃ a, m = Ret (Ok a) ∧ k a = Ret (Ok b).
Proof. destruct m as [[a|e]|]; simpl; [eauto|discriminate|discriminate]. Qed.

(** An amount reads back as its number, in both spellings. *)
Definition reads (a : KasAmount) (n : Z) : Prop := sompi a = i64_to_string n ∧ read_decimal KAS_DECIMALS (kas a) = Some n.

Lemma KasAmount_reads n : in_i64 n → ∃ a, KasAmount_from_sompi n = Ret a ∧ reads a n.
Proof.
  intros Hn. destruct (scaled_decimal_reads n KAS_DECIMALS) as (t & Ht & Hr & _); [exact Hn|vm_compute; lia|].
  unfold KasAmount_from_sompi. rewrite Ht. simpl. eexists. split; [done|]. by split.
Qed.

(** A wallet's balance: it never panics, and what is payable is what is allocated less what is paid. *)
Lemma kas_balance_reads wallet_id s : Forall (λ p, payout_check p = true) (payouts (st_db s)) →
  Forall (λ a, 0 ≤ sa_net_payout_sompi a) (share_allocations (st_db s)) →
  let d := st_db s in
  (∃ v, kas_balance wallet_id s = Ret (Ok v) ∧ reads (kv_allocated v) (allocated wallet_id d) ∧
      reads (kv_paid v) (confirmed_paid wallet_id d) ∧ reads (kv_payable v) (allocated wallet_id d - confirmed_paid wallet_id d)) ∨
  (kas_balance wallet_id s = Ret (Err Internal) ∧ ¬ (in_i64 (allocated wallet_id d) ∧ in_i64 (confirmed_paid wallet_id d))).
Proof.
  intros Hp Ha d.
  assert (0 ≤ allocated wallet_id d) as H1.
  { apply sumZ_nonneg, Forall_map. unfold allocations_of. apply Forall_forall. intros a Hin. rewrite Forall_forall in Ha.
    apply list_elem_of_In, filter_In in Hin as [Hin _]. by apply Ha, list_elem_of_In. }
  assert (0 ≤ confirmed_paid wallet_id d) as H2.
  { apply sumZ_nonneg, Forall_map, Forall_forall. intros p Hin. apply list_elem_of_In, filter_In in Hin as [Hin _]. rewrite Forall_forall in Hp.
    apply list_elem_of_In, Hp in Hin. unfold payout_check in Hin. bool_hyps. lia. }
  unfold kas_balance, kas_payable_for_wallet. fold d. unfold to_bigint, i64_try_from.
  destruct ((i64_min <=? allocated wallet_id d) && (allocated wallet_id d <=? i64_max)) eqn:E1; [|right; split; [done|unfold in_i64; lia]]. simpl.
  destruct ((i64_min <=? confirmed_paid wallet_id d) && (confirmed_paid wallet_id d <=? i64_max)) eqn:E2; [|right; split; [done|unfold in_i64; lia]]. simpl. bool_hyps.
  left. assert (in_i64 (allocated wallet_id d)) as I1 by mlia. assert (in_i64 (confirmed_paid wallet_id d)) as I2 by mlia.
  assert (in_i64 (allocated wallet_id d - confirmed_paid wallet_id d)) as I3 by mlia.
  destruct (KasAmount_reads _ I1) as (a & Ea & Ra), (KasAmount_reads _ I2) as (b & Eb & Rb), (KasAmount_reads _ I3) as (c & Ec & Rc).
  assert (i64_add (allocated wallet_id d) (- confirmed_paid wallet_id d) = Ret (allocated wallet_id d - confirmed_paid wallet_id d)) as ->
    by (unfold i64_add; rewrite Z.add_opp_r, (proj2 (Z.leb_le _ _)), (proj2 (Z.leb_le _ _)) by mlia; done).
  simpl. rewrite Ea, Eb, Ec. simpl. eexists. split_and!; [done|done|done|done].
Qed.

Definition with_status (s : BlockStatus) (d : Db) : Z := Z.of_nat (length (List.filter (λ b, bool_decide (bl_status b = s)) (blocks d))).

(** Each counter is the number of blocks in its state. *)
Lemma block_counts_exact d : BlockCounts_from_rows (count_by_status d) =
  {| bc_found := with_status Found d; bc_submitted_to_node := with_status SubmittedToNode d; bc_confirmed_blue := with_status ConfirmedBlue d;
     bc_matured := with_status Matured d; bc_orphaned := with_status Orphaned d |}.
Proof.
  unfold count_by_status. cbn [map]. fold (with_status Found d) (with_status SubmittedToNode d) (with_status ConfirmedBlue d)
    (with_status Matured d) (with_status Orphaned d).
  assert (∀ s, 0 ≤ with_status s d) as Hpos by (intros; unfold with_status; lia).
  pose proof (Hpos Found). pose proof (Hpos SubmittedToNode). pose proof (Hpos ConfirmedBlue). pose proof (Hpos Matured). pose proof (Hpos Orphaned).
  generalize dependent (with_status Found d). generalize dependent (with_status SubmittedToNode d). generalize dependent (with_status ConfirmedBlue d).
  generalize dependent (with_status Matured d). generalize dependent (with_status Orphaned d). clear Hpos. intros e He m Hm c Hc u Hu f Hf.
  cbn [List.filter]. destruct (Z.ltb_spec 0 f), (Z.ltb_spec 0 u), (Z.ltb_spec 0 c), (Z.ltb_spec 0 m), (Z.ltb_spec 0 e);
    unfold BlockCounts_from_rows; simpl; f_equal; lia.
Qed.

Lemma statuses_total d : with_status Found d + with_status SubmittedToNode d + with_status ConfirmedBlue d + with_status Matured d + with_status Orphaned d = total_count d.
Proof.
  unfold with_status, total_count. induction (blocks d) as [|b l IH]; [done|]. simpl. destruct (bl_status b); simpl; lia.
Qed.

Lemma count_by_reason_total rows : sumZ (map snd (count_by_reason rows)) = Z.of_nat (length rows).
Proof.
  unfold count_by_reason. rewrite stable_sort_perm, map_map. pose proof (group_by_partition rj_reason rows) as Hp. apply Permutation_length in Hp.
  rewrite <- Hp. clear Hp. induction (group_by rj_reason rows) as [|[k g] l IH]; [done|]. simpl. rewrite length_app, Nat2Z.inj_add. simpl in IH. lia.
Qed.

Lemma count_by_reason_sorted rows : StronglySorted (λ x y, y.2 ≤ x.2) (count_by_reason rows) ∧ NoDup (map fst (count_by_reason rows)).
Proof.
  split.
  - pose proof (stable_sort_sorted (λ x y : ShareRejectReason * Z, y.2 <=? x.2) ltac:(simpl; intros; lia) ltac:(simpl; intros; lia)
      (map (λ '(k, group), (k, Z.of_nat (length group))) (group_by rj_reason rows))) as Hs.
    fold (count_by_reason rows) in Hs. induction Hs as [|x l _ IH Hx]; constructor; [done|]. eapply Forall_impl; [exact Hx|]. intros y Hy. simpl in Hy. lia.
  - unfold count_by_reason. rewrite stable_sort_perm, map_map. rewrite (map_ext _ fst) by (by intros []). apply group_by_NoDup.
Qed.

Lemma rejects_body_reads secs rows : Z.of_nat (length rows) ≤ i64_max →
  ∃ body, rejects_body secs (count_by_reason rows) = Ret (Ok body) ∧ rb_total body = Z.of_nat (length rows) ∧
    sumZ (map rr_count (rb_by_reason body)) = rb_total body ∧ StronglySorted (λ x y, rr_count y ≤ rr_count x) (rb_by_reason body) ∧
    NoDup (map rr_reason (rb_by_reason body)).
Proof.
  intros Hmax. pose proof (count_by_reason_total rows) as Ht. destruct (count_by_reason_sorted rows) as [Hs Hnd]. unfold rejects_body.
  rewrite sum_i64_Ret; [|unfold count_by_reason; rewrite stable_sort_perm, map_map; apply Forall_map, Forall_forall; intros [k g] _; simpl; lia|lia].
  simpl. eexists. split; [done|]. simpl. rewrite map_map. split_and!.
  - done.
  - done.
  - clear Hnd Ht. induction Hs as [|x l _ IH Hx]; simpl; constructor; [done|]. apply Forall_map. eapply Forall_impl; [exact Hx|]. done.
  - rewrite map_map. simpl. rewrite <- (map_map fst ShareRejectReason_as_str). apply (NoDup_fmap_2_strong ShareRejectReason_as_str); [|done].
    intros x y _ _ He. by destruct x, y.
Qed.

(** The figures of the responses add up.  The five block counters sum to the total of the aggregator
    feed; the reject total is the number of rejects in the window and the sum of its slices, which come
    by falling count, one per reason; a wallet's balance never panics, its three amounts read back
    exactly, and what is payable is what is allocated less what is paid (or a sum exceeds bigint, which
    is an internal error). *)
Theorem figures_add_up now secs s :
  Forall (λ p, payout_check p = true) (payouts (st_db s)) → Forall (λ a, 0 ≤ sa_net_payout_sompi a) (share_allocations (st_db s)) →
  Z.of_nat (length (st_rejects s)) ≤ i64_max →
  (∀ body, build_stats now secs s = Ret (Ok body) → let b := ps_blocks body in
    bc_found b + bc_submitted_to_node b + bc_confirmed_blue b + bc_matured b + bc_orphaned b = total_count (st_db s)) ∧
  (∃ body, pool_rejects now secs s = Ret (Ok body) ∧
    rb_total body = Z.of_nat (length (List.filter (λ r, bind_ts (now - secs * NANOS) <=? rj_rejected_at r) (st_rejects s))) ∧
    sumZ (map rr_count (rb_by_reason body)) = rb_total body ∧ StronglySorted (λ x y, rr_count y ≤ rr_count x) (rb_by_reason body) ∧
    NoDup (map rr_reason (rb_by_reason body))) ∧
  (∀ wallet_id, let d := st_db s in
    (∃ v, kas_balance wallet_id s = Ret (Ok v) ∧ reads (kv_allocated v) (allocated wallet_id d) ∧
      reads (kv_paid v) (confirmed_paid wallet_id d) ∧ reads (kv_payable v) (allocated wallet_id d - confirmed_paid wallet_id d)) ∨
    (kas_balance wallet_id s = Ret (Err Internal) ∧ ¬ (in_i64 (allocated wallet_id d) ∧ in_i64 (confirmed_paid wallet_id d)))).
Proof.
  intros Hp Ha Hlen. split_and!.
  - intros body Hb. unfold build_stats in Hb. repeat (apply handler_bind_Ok in Hb as (? & _ & Hb)). injection Hb as <-. simpl.
    rewrite block_counts_exact. apply statuses_total.
  - apply rejects_body_reads. etrans; [|exact Hlen]. apply inj_le, filter_length_le.
  - intros wallet_id d. by apply kas_balance_reads.
Qed.

Module Demo.
Definition block (id : Z) (status : BlockStatus) : Block :=
  bl_with None status None None None None (new_block id id 1 1 77 0 id 5).
Definition reject (id : Z) (reason : ShareRejectReason) (at_ns : Z) : ShareReject :=
  {| rj_id := id; rj_wallet_id := 1; rj_worker_id := 1; rj_reason := reason; rj_rejected_at := at_ns; rj_correlation_id := id |}.
Definition sample : Store :=
  st_with (set_blocks [block 1 Matured; block 2 Found; block 3 Matured] empty_db) []
    [reject 1 Stale 0; reject 2 BadPow (700 * NANOS); reject 3 Stale (800 * NANOS); reject 4 Stale (900 * NANOS)] [].

Lemma figures_add_up_witness :
  (∃ body, build_stats (1000 * NANOS) 600 sample = Ret (Ok body) ∧
    let b := ps_blocks body in bc_found b + bc_submitted_to_node b + bc_confirmed_blue b + bc_matured b + bc_orphaned b = 3) ∧
  (∃ body, pool_rejects (1000 * NANOS) 600 sample = Ret (Ok body) ∧ rb_total body = 3 ∧
    rb_by_reason body = [{| rr_reason := "stale"; rr_count := 2 |}; {| rr_reason := "bad_pow"; rr_count := 1 |}]).
Proof.
  destruct (figures_add_up (1000 * NANOS) 600 sample) as (H1 & (body & H2 & H3 & _) & _).
  - constructor.
  - constructor.
  - vm_compute. discriminate.
  - split.
    + destruct (build_stats (1000 * NANOS) 600 sample) as [[b|e]|] eqn:E; [|by vm_compute in E|by vm_compute in E].
      exists b. split; [done|]. exact (H1 b eq_refl).
    + exists body. split; [done|]. split; [rewrite H3; vm_compute; reflexivity|].
      assert (pool_rejects (1000 * NANOS) 600 sample = Ret (Ok {| rb_window_secs := 600; rb_total := 3;
        rb_by_reason := [{| rr_reason := "stale"; rr_count := 2 |}; {| rr_reason := "bad_pow"; rr_count := 1 |}] |})) as Hc by (vm_compute; reflexivity).
      rewrite H2 in Hc. injection Hc as ->. done.
Defined.
End Demo.
