(* ===== verification/ApiCache.v ===== *)
(** * The response caches of the API (api/src/handlers/mod.rs, state.rs)

    Every data handler validates its parameters, forms a key from them and
    answers through a TTL cache, one for the pool and one for wallets.  The
    cache is the crate moka's: a parameter with its documented contract.  A
    request here is what the parameters were validated to; its answer is one
    of the bodies of [ApiViews]. *)

From Stdlib Require Import Ascii Floats.SpecFloat.
From S2P Require Import Prelude Float64 Mass Db PayoutRepo PayoutSpec AccountRepo DupGuard Domain Events Bytes Hasher MiningState Stratum Listener KaspaApi Api Consumer FeeModel Accountant ShareStats ApiViews.
Local Open Scope Z_scope.

(** ** The cache *)

(** One call of [Cache::try_get_with]: its key, when it was made and answered, and what its own [init]
    gives, were it the one to run, with the instant it is done. *)
Record CacheCall (V : Type) := { cc_key : list Z; cc_begin : Z; cc_end : Z; cc_done : Z; cc_init : Handler V }.
Arguments cc_key {V} _.
Arguments cc_begin {V} _.
Arguments cc_end {V} _.
Arguments cc_done {V} _.
Arguments cc_init {V} _.

(** The answer of call [i] among the calls of the process (a request that was refused makes none), as moka
    documents [try_get_with]: the call's own [init]; a value another call's [init] gave for the key, less
    than the time to live ago; or, as concurrent calls for a key are coalesced, whatever another call's
    [init] gave, an error as well, while this one waited. *)
Class TtlCache (V : Type) := {
  try_get_with : Z → list (option (CacheCall V)) → nat → Handler V;
  cache_answer ttl calls i c : calls !! i = Some (Some c) →
    try_get_with ttl calls i = cc_init c ∨
    ∃ j c' x, calls !! j = Some (Some c') ∧ cc_key c' = cc_key c ∧ cc_init c' = Ret x ∧ try_get_with ttl calls i = Ret x ∧ cc_done c' ≤ cc_end c ∧
      (cc_begin c ≤ cc_done c' ∨ (∃ v, x = Ok v) ∧ cc_begin c < cc_done c' + ttl) }.

(** [cached_json]: [from_cache_err] copies the error of the computation, whoever's it was. *)
Definition cached_json {V} `{!TtlCache V} (ttl : Z) (calls : list (option (CacheCall V))) (i : nat) : Handler V := try_get_with ttl calls i.

(** ** Requests and keys *)

Definition quoted_option (o : option Z) : list Z := match o with Some n => codes "Some(" ++ i64_to_string n ++ codes ")" | None => codes "None" end.
Definition timestamp (t : Z) : Z := t / NANOS.

Inductive PoolRequest :=
| PStats (secs : Z) | PHashrate (secs : Z) | PHashrateHistory (r : Range) | PBlocks (p : Page) | PPayouts (p : Page)
| PPayoutCycle (cycle_id : Z) | PLeaderboard (secs lim : Z) | PMinersHistory (r : Range) | PFirmware (secs : Z) | PGeo (secs : Z)
| PActiveSessions | PRejects (secs : Z) | PMiningPoolStats.

Definition window_key (route : string) (secs : Z) : list Z := codes route ++ u64_to_string secs.
Definition page_key (p : Page) : list Z := i64_to_string (page_limit p) ++ codes "&before=" ++ quoted_option (before_id p).
Definition range_key (from to b : Z) : list Z := i64_to_string from ++ codes "&to=" ++ i64_to_string to ++ codes "&b=" ++ i64_to_string b.

Definition pool_key (r : PoolRequest) : list Z :=
  match r with
  | PStats secs => window_key "pool/stats?w=" secs
  | PHashrate secs => window_key "pool/hashrate?w=" secs
  | PHashrateHistory r =>
      let cache_until := timestamp (range_until r) / 10 * 10 in
      codes "pool/hashrate/history?from=" ++ range_key (timestamp (range_from r)) cache_until (seconds (range_bucket r))
  | PBlocks p => codes "pool/blocks?l=" ++ page_key p
  | PPayouts p => codes "pool/payouts?l=" ++ page_key p
  | PPayoutCycle id => codes "pool/payouts/" ++ i64_to_string id
  | PLeaderboard secs lim => window_key "pool/leaderboard?w=" secs ++ codes "&l=" ++ i64_to_string lim
  | PMinersHistory r =>
      codes "pool/miners/history?from=" ++ range_key (timestamp (range_from r)) (timestamp (range_until r)) (seconds (range_bucket r))
  | PFirmware secs => window_key "pool/firmware?w=" secs
  | PGeo secs => window_key "pool/geo?w=" secs
  | PActiveSessions => codes "pool/active-sessions"
  | PRejects secs => window_key "pool/rejects?w=" secs
  | PMiningPoolStats => codes "pool/miningPoolStats"
  end.

Inductive WalletRequest :=
| WBalance (addr : string) | WProfile (addr : string) (secs : Z) | WWorkers (addr : string) (secs : Z)
| WHashrateHistory (addr : string) (r : Range) | WPayouts (addr : string) (p : Page) | WRejects (addr : string) (secs : Z)
| WFullRebate (addr : string).

Definition wallet_key (r : WalletRequest) : list Z :=
  match r with
  | WBalance a => codes "balance/" ++ codes a
  | WProfile a secs => codes "miners/" ++ codes a ++ window_key "?w=" secs
  | WWorkers a secs => codes "miners/" ++ codes a ++ window_key "/workers?w=" secs
  | WHashrateHistory a r =>
      codes "miners/" ++ codes a ++ codes "/hashrate/history?from=" ++
        range_key (timestamp (range_from r)) (timestamp (range_until r)) (seconds (range_bucket r))
  | WPayouts a p => codes "miners/" ++ codes a ++ codes "/payouts?l=" ++ page_key p
  | WRejects a secs => codes "miners/" ++ codes a ++ window_key "/rejects?w=" secs
  | WFullRebate a => codes "full_rebate/" ++ codes a
  end.

(** ** Answers *)

Inductive PoolAnswer :=
| AStats (b : PoolStats) | AHashrate (b : HashrateSnapshot) | AHistory (b : HashrateHistory) | ABlocks (b : PageOf BlockView)
| ACycles (b : PageOf CycleView) | ACycle (b : CycleDetailPage) | ALeaderboard (b : LeaderboardResponse) | AMiners (b : ActiveMinersHistory)
| AFirmware (b : Breakdown (option string)) | AGeo (b : Breakdown string) | ASessions (b : ActiveSessionsView) | ARejects (b : RejectsBody)
| AMps (b : MiningPoolStats).
Inductive WalletAnswer :=
| ABalance (b : BalanceResponse) | AProfile (b : MinerProfile) | AWorkers (b : WorkersResponse) | AMinerHistory (b : HashrateHistory)
| AMinerPayouts (b : MinerPayoutsPage) | AMinerRejects (b : RejectsResponse) | ARebate (b : FullRebateResponse).

Definition as_answer {A B} (f : A → B) (m : Handler A) : Handler B := a ← m; mret (f a).

(** What a computation may read: the tables, twice for the leaderboard, and the time columns. *)
Record Source := { so_store : Store; so_later : Store; so_wallet_seen : Z → SeenAt; so_worker_seen : Z → SeenAt }.

Section answers.
Context `{!Timestamps, !Display} (cfg : ApiConfig).

Definition pool_answer (r : PoolRequest) (now : Z) (src : Source) : Handler PoolAnswer :=
  let s := so_store src in
  match r with
  | PStats secs => as_answer AStats (build_stats now secs s)
  | PHashrate secs => as_answer AHashrate (pool_hashrate now secs s)
  | PHashrateHistory r => as_answer AHistory (pool_hashrate_history r s)
  | PBlocks p => as_answer ABlocks (blocks_page p s)
  | PPayouts p => as_answer ACycles (cycles_page p s)
  | PPayoutCycle id => as_answer ACycle (payout_cycle id s)
  | PLeaderboard secs lim => as_answer ALeaderboard (pool_leaderboard now secs lim s (so_later src))
  | PMinersHistory r => as_answer AMiners (active_miners_history r s)
  | PFirmware secs => as_answer AFirmware (pool_firmware now secs s)
  | PGeo secs => as_answer AGeo (pool_geo now secs s)
  | PActiveSessions => as_answer ASessions (active_sessions s)
  | PRejects secs => as_answer ARejects (pool_rejects now secs s)
  | PMiningPoolStats => as_answer AMps (build_mining_pool_stats cfg now s)
  end.

Definition wallet_answer (r : WalletRequest) (now : Z) (src : Source) : Handler WalletAnswer :=
  let s := so_store src in
  match r with
  | WBalance a => as_answer ABalance (miner_balance a s)
  | WProfile a secs => as_answer AProfile (miner_profile (so_wallet_seen src) (so_worker_seen src) now a secs s)
  | WWorkers a secs => as_answer AWorkers (miner_workers (so_worker_seen src) now a secs s)
  | WHashrateHistory a r => as_answer AMinerHistory (miner_hashrate_history a r s)
  | WPayouts a p => as_answer AMinerPayouts (miner_payouts_page a p s)
  | WRejects a secs => as_answer AMinerRejects (miner_rejects now a secs s)
  | WFullRebate a => as_answer ARebate (full_rebate a s)
  end.
End answers.

(** ** Routes: the query of a request, and what it is validated to *)

Inductive PoolQuery :=
| QStats (w : option Z) | QHashrate (w : option Z) | QHashrateHistory (p : RangeParams) | QBlocks (p : PageParams) | QPayouts (p : PageParams)
| QPayoutCycle (cycle_id : Z) | QLeaderboard (w lim : option Z) | QMinersHistory (p : RangeParams) | QFirmware (w : option Z)
| QGeo (w : option Z) | QActiveSessions | QRejects (w : option Z) | QMiningPoolStats.
Inductive WalletQuery :=
| QBalance (raw : string) | QProfile (raw : string) (w : option Z) | QWorkers (raw : string) (w : option Z)
| QMinerHistory (raw : string) (p : RangeParams) | QMinerPayouts (raw : string) (p : PageParams) | QMinerRejects (raw : string) (w : option Z)
| QFullRebate (raw : string).

Definition pool_request `{!Chrono} (now : Z) (q : PoolQuery) : result ApiError PoolRequest :=
  match q with
  | QStats w => PStats <$> window w
  | QHashrate w => PHashrate <$> window w
  | QHashrateHistory p => PHashrateHistory <$> range now p
  | QBlocks p => PBlocks <$> page p
  | QPayouts p => PPayouts <$> page p
  | QPayoutCycle id => Ok (PPayoutCycle id)
  | QLeaderboard w lim => (λ '(secs, n), PLeaderboard secs n) <$> leaderboard w lim
  | QMinersHistory p => PMinersHistory <$> range now p
  | QFirmware w => PFirmware <$> window w
  | QGeo w => PGeo <$> window w
  | QActiveSessions => Ok PActiveSessions
  | QRejects w => PRejects <$> window w
  | QMiningPoolStats => Ok PMiningPoolStats
  end.
Definition wallet_request `{!Chrono} (now : Z) (q : WalletQuery) : result ApiError WalletRequest :=
  match q with
  | QBalance raw => WBalance <$> parse_address raw
  | QProfile raw w => a ← parse_address raw; WProfile a <$> window w
  | QWorkers raw w => a ← parse_address raw; WWorkers a <$> window w
  | QMinerHistory raw p => a ← parse_address raw; WHashrateHistory a <$> range now p
  | QMinerPayouts raw p => a ← parse_address raw; WPayouts a <$> page p
  | QMinerRejects raw w => a ← parse_address raw; WRejects a <$> window w
  | QFullRebate raw => WFullRebate <$> parse_address raw
  end.

(** A request to the service: its query, when it arrived and was answered; and, should its own
    computation run, the clock that computation reads, what the database holds, and when it is done. *)
Record Asked (Q : Type) := { aq_query : Q; aq_begin : Z; aq_end : Z; aq_at : Z; aq_done : Z; aq_source : Source }.
Arguments aq_query {Q} _.
Arguments aq_begin {Q} _.
Arguments aq_end {Q} _.
Arguments aq_at {Q} _.
Arguments aq_done {Q} _.
Arguments aq_source {Q} _.

Section serving.
Context {Q R V : Type}.
Context (request : Z → Q → result ApiError R) (key : R → list Z) (answer : R → Z → Source → Handler V).

(** A handler up to its call of the cache: bad parameters are refused before. *)
Definition handler_call (a : Asked Q) : result ApiError (CacheCall V) :=
  r ← request (aq_begin a) (aq_query a);
  Ok {| cc_key := key r; cc_begin := aq_begin a; cc_end := aq_end a; cc_done := aq_done a; cc_init := answer r (aq_at a) (aq_source a) |}.
Definition calls_of (trace : list (Asked Q)) : list (option (CacheCall V)) :=
  map (λ a, match handler_call a with Ok c => Some c | Err _ => None end) trace.

(** What request [i] of the service's life is answered. *)
Definition serve `{!TtlCache V} (ttl : Z) (trace : list (Asked Q)) (i : nat) : option (Handler V) :=
  a ← trace !! i;
  Some (match handler_call a with Err e => Ret (Err e) | Ok _ => cached_json ttl (calls_of trace) i end).
End serving.

(** ** Keys tell requests apart *)

(** A run of characters ends where another kind of character stands, or with the text. *)
Definition ends_run (P : Z → Prop) (x : list Z) : Prop := match x with [] => True | c :: _ => ¬ P c end.

Lemma split_run P a b x y : Forall P a → Forall P b → ends_run P x → ends_run P y → a ++ x = b ++ y → a = b ∧ x = y.
Proof.
  intros Ha. revert b. induction Ha as [|c a Hc _ IH]; intros b Hb Hx Hy He; destruct Hb as [|e b Hd Hb]; simpl in He.
  - done.
  - subst x. done.
  - subst y. done.
  - injection He as -> He. destruct (IH b Hb Hx Hy He) as [-> ->]. done.
Qed.

Definition number_char (c : Z) : Prop := is_digit c ∨ c = 45.

Lemma i64_to_string_chars n : Z.abs n ≤ u64_max → Forall number_char (i64_to_string n).
Proof.
  intros Hn. unfold i64_to_string. apply Forall_app. split; [case_bool; [by repeat constructor; right|constructor]|].
  eapply Forall_impl; [apply u64_to_string_spec; lia|]. by left.
Qed.

Lemma u64_to_string_inj m n : 0 ≤ m ≤ u64_max → 0 ≤ n ≤ u64_max → u64_to_string m = u64_to_string n → m = n.
Proof. intros Hm Hn He. pose proof (proj1 (u64_to_string_spec m Hm)) as H1. rewrite He, (proj1 (u64_to_string_spec n Hn)) in H1. by injection H1. Qed.

Lemma i64_to_string_inj m n : Z.abs m ≤ u64_max → Z.abs n ≤ u64_max → i64_to_string m = i64_to_string n → m = n.
Proof.
  intros Hm Hn. unfold i64_to_string.
  assert (∀ k t, Z.abs k ≤ u64_max → u64_to_string (Z.abs k) ≠ 45 :: t) as Hno.
  { intros k t Hk He. pose proof (proj2 (u64_to_string_spec (Z.abs k) ltac:(lia))) as Hf. rewrite He in Hf.
    apply Forall_cons in Hf as [Hf _]. unfold is_digit in Hf. lia. }
  destruct (Z.ltb_spec m 0), (Z.ltb_spec n 0); simpl; intros He.
  - injection He as He. apply u64_to_string_inj in He; lia.
  - symmetry in He. by apply Hno in He.
  - by apply Hno in He.
  - apply u64_to_string_inj in He; lia.
Qed.

Lemma number_split m n x y : Z.abs m ≤ u64_max → Z.abs n ≤ u64_max → ends_run number_char x → ends_run number_char y →
  i64_to_string m ++ x = i64_to_string n ++ y → m = n ∧ x = y.
Proof.
  intros Hm Hn Hx Hy He. apply (split_run number_char) in He as [He ->]; [|by apply i64_to_string_chars..|done|done].
  split; [|done]. by apply i64_to_string_inj.
Qed.

Lemma u64_is_i64_text n : 0 ≤ n → u64_to_string n = i64_to_string n.
Proof. intros Hn. unfold i64_to_string. rewrite (proj2 (Z.ltb_ge n 0)) by done. by rewrite Z.abs_eq. Qed.

Lemma byte_of_inj c e : byte_of c = byte_of e → c = e.
Proof. unfold byte_of. intros He%N2Z.inj. by rewrite <- (ascii_N_embedding c), He, ascii_N_embedding. Qed.

Lemma codes_inj s t : codes s = codes t → s = t.
Proof.
  unfold codes. revert t. induction s as [|c s IH]; intros [|e t] He; simpl in He; [done|done|done|].
  injection He as He1%byte_of_inj He2. subst. f_equal. by apply IH.
Qed.

(** Two texts that start with different routes differ, when no route starts another. *)
Fixpoint is_prefix (a b : list Z) : bool :=
  match a, b with
  | [], _ => true
  | x :: a, y :: b => (x =? y) && is_prefix a b
  | _ :: _, [] => false
  end.
Definition routes_apart (routes : list string) : bool :=
  forallb (λ a, forallb (λ b, bool_decide (a = b) || negb (is_prefix (codes a) (codes b))) routes) routes.

Lemma prefix_of_app a b x y : a ++ x = b ++ y → is_prefix a b = true ∨ is_prefix b a = true.
Proof.
  revert b. induction a as [|c a IH]; intros [|e b] He; simpl in *; [by left|by left|by right|].
  injection He as -> He. rewrite Z.eqb_refl. by apply IH.
Qed.

Lemma same_route routes a b x y : routes_apart routes = true → a ∈ routes → b ∈ routes → codes a ++ x = codes b ++ y → a = b ∧ x = y.
Proof.
  intros Hr Ha Hb He. assert (∀ s t, s ∈ routes → t ∈ routes → is_prefix (codes s) (codes t) = true → s = t) as Hap.
  { intros s t Hs Ht Hp. unfold routes_apart in Hr. rewrite forallb_forall in Hr. apply list_elem_of_In in Hs, Ht.
    specialize (Hr s Hs). rewrite forallb_forall in Hr. specialize (Hr t Ht). rewrite Hp in Hr. simpl in Hr.
    rewrite orb_false_r in Hr. by apply bool_decide_eq_true in Hr. }
  assert (a = b) as -> by (destruct (prefix_of_app _ _ _ _ He); [by apply Hap|symmetry; by apply Hap]).
  split; [done|]. by apply app_inv_head in He.
Qed.

Definition fits (n : Z) : Prop := Z.abs n ≤ u64_max.
Definition page_fits (p : Page) : Prop := fits (page_limit p) ∧ match before_id p with Some b => fits b | None => True end.
(** Far beyond the years a [DateTime] can hold. *)
Definition instant_fits (t : Z) : Prop := Z.abs (timestamp t) ≤ 10 ^ 14.
Definition range_fits (r : Range) : Prop := instant_fits (range_from r) ∧ instant_fits (range_until r).

Lemma quoted_option_inj a b : match a with Some n => fits n | None => True end → match b with Some n => fits n | None => True end →
  quoted_option a = quoted_option b → a = b.
Proof.
  destruct a as [m|], b as [n|]; simpl; intros Hm Hn He; [|discriminate He|discriminate He|done].
  apply (app_inv_head (codes "Some(")) in He. apply number_split in He as [-> _]; [done|done|done|..]; vm_compute; by intros [[? ?]|?].
Qed.

Lemma ends_number_codes s x : match codes s with c :: _ => (c <? 48) && negb (c =? 45) | [] => false end = true → ends_run number_char (codes s ++ x).
Proof.
  destruct (codes s) as [|c l]; simpl; [done|]. intros He [Hd|Hd]; unfold is_digit in *; lia.
Qed.

Lemma page_key_inj p q : page_fits p → page_fits q → page_key p = page_key q → p = q.
Proof.
  intros [Hp1 Hp2] [Hq1 Hq2] He. unfold page_key in He. apply number_split in He as [Hl He]; [|done|done|by apply ends_number_codes..].
  apply app_inv_head, quoted_option_inj in He; [|done|done]. destruct p, q; simpl in *. by subst.
Qed.

Lemma seconds_inj a b : seconds a = seconds b → a = b.
Proof. by destruct a, b. Qed.

Lemma range_key_inj f1 t1 b1 f2 t2 b2 : fits f1 → fits t1 → fits f2 → fits t2 →
  range_key f1 t1 (seconds b1) = range_key f2 t2 (seconds b2) → f1 = f2 ∧ t1 = t2 ∧ b1 = b2.
Proof.
  intros H1 H2 H3 H4 He. unfold range_key in He. apply number_split in He as [-> He]; [|done|done|by apply ends_number_codes..].
  apply app_inv_head, number_split in He as [-> He]; [|done|done|by apply ends_number_codes..]. apply app_inv_head in He.
  apply i64_to_string_inj in He; [|by destruct b1|by destruct b2]. by apply seconds_inj in He.
Qed.

(** Requests one entry may answer: the same, but for the part of a range the key leaves out. *)
Definition same_range (tick : Z) (a b : Range) : Prop :=
  timestamp (range_from a) = timestamp (range_from b) ∧ timestamp (range_until a) / tick = timestamp (range_until b) / tick ∧
  range_bucket a = range_bucket b.
Definition same_pool_request (a b : PoolRequest) : Prop :=
  match a, b with
  | PHashrateHistory r, PHashrateHistory r' => same_range 10 r r'
  | PMinersHistory r, PMinersHistory r' => same_range 1 r r'
  | _, _ => a = b
  end.
Definition same_wallet_request (a b : WalletRequest) : Prop :=
  match a, b with
  | WHashrateHistory a r, WHashrateHistory a' r' => a = a' ∧ same_range 1 r r'
  | _, _ => a = b
  end.

(** Integers are of their type's width, instants of chrono's. *)
Definition pool_request_fits (r : PoolRequest) : Prop :=
  match r with
  | PStats secs | PHashrate secs | PFirmware secs | PGeo secs | PRejects secs => 0 ≤ secs ≤ u64_max
  | PHashrateHistory r | PMinersHistory r => range_fits r
  | PBlocks p | PPayouts p => page_fits p
  | PPayoutCycle id => fits id
  | PLeaderboard secs lim => 0 ≤ secs ≤ u64_max ∧ fits lim
  | PActiveSessions | PMiningPoolStats => True
  end.

Definition pool_route (r : PoolRequest) : string :=
  match r with
  | PStats _ => "pool/stats?w=" | PHashrate _ => "pool/hashrate?w=" | PHashrateHistory _ => "pool/hashrate/history?from="
  | PBlocks _ => "pool/blocks?l=" | PPayouts _ => "pool/payouts?l=" | PPayoutCycle _ => "pool/payouts/" | PLeaderboard _ _ => "pool/leaderboard?w="
  | PMinersHistory _ => "pool/miners/history?from=" | PFirmware _ => "pool/firmware?w=" | PGeo _ => "pool/geo?w="
  | PActiveSessions => "pool/active-sessions" | PRejects _ => "pool/rejects?w=" | PMiningPoolStats => "pool/miningPoolStats"
  end.
Definition pool_routes : list string :=
  ["pool/stats?w="; "pool/hashrate?w="; "pool/hashrate/history?from="; "pool/blocks?l="; "pool/payouts?l="; "pool/payouts/"; "pool/leaderboard?w=";
   "pool/miners/history?from="; "pool/firmware?w="; "pool/geo?w="; "pool/active-sessions"; "pool/rejects?w="; "pool/miningPoolStats"]%string.
(** The rest of a key after its route. *)
Definition pool_rest (r : PoolRequest) : list Z :=
  match r with
  | PStats secs | PHashrate secs | PFirmware secs | PGeo secs | PRejects secs => u64_to_string secs
  | PHashrateHistory r => range_key (timestamp (range_from r)) (timestamp (range_until r) / 10 * 10) (seconds (range_bucket r))
  | PMinersHistory r => range_key (timestamp (range_from r)) (timestamp (range_until r)) (seconds (range_bucket r))
  | PBlocks p | PPayouts p => page_key p
  | PPayoutCycle id => i64_to_string id
  | PLeaderboard secs lim => u64_to_string secs ++ codes "&l=" ++ i64_to_string lim
  | PActiveSessions | PMiningPoolStats => []
  end.

Lemma pool_key_route r : pool_key r = codes (pool_route r) ++ pool_rest r ∧ pool_route r ∈ pool_routes.
Proof.
  split; [|unfold pool_routes; destruct r; simpl; repeat first [by left|right]].
  destruct r; cbn [pool_key pool_rest pool_route]; unfold window_key; rewrite ?app_nil_r, <- ?app_assoc; reflexivity.
Qed.

Lemma fits_tick t : instant_fits t → fits (timestamp t) ∧ fits (timestamp t / 10 * 10).
Proof.
  unfold instant_fits, fits, u64_max. intros Ht. pose proof (Z.div_mod (timestamp t) 10 ltac:(lia)). pose proof (Z.mod_pos_bound (timestamp t) 10).
  split; lia.
Qed.

Lemma pool_key_inj a b : pool_request_fits a → pool_request_fits b → pool_key a = pool_key b → same_pool_request a b.
Proof.
  intros Ha Hb He. destruct (pool_key_route a) as [Hka Hra], (pool_key_route b) as [Hkb Hrb]. rewrite Hka, Hkb in He.
  apply (same_route pool_routes) in He as [Hr He]; [|vm_compute; reflexivity|done|done]. clear Hka Hkb Hra Hrb.
  assert (∀ f t, instant_fits f → instant_fits t → fits (timestamp f) ∧ fits (timestamp t) ∧ fits (timestamp t / 10 * 10)) as Hfit
    by (intros f t Hf%fits_tick Ht%fits_tick; tauto).
  destruct a, b; try discriminate Hr; cbn [pool_rest pool_request_fits same_pool_request] in *; try (f_equal; by apply u64_to_string_inj); try done.
  - destruct Ha as [Ha1 Ha2], Hb as [Hb1 Hb2]. destruct (Hfit _ _ Ha1 Ha2) as (? & ? & ?), (Hfit _ _ Hb1 Hb2) as (? & ? & ?).
    apply range_key_inj in He as (Hf & Ht & Hbk); [|done..]. split_and!; [done|lia|done].
  - f_equal. by apply page_key_inj.
  - f_equal. by apply page_key_inj.
  - f_equal. by apply i64_to_string_inj.
  - destruct Ha as [Ha1 Ha2], Hb as [Hb1 Hb2]. rewrite !u64_is_i64_text in He by lia. unfold fits in *.
    apply number_split in He as [Hs He]; [|lia|lia|by apply ends_number_codes..]. apply app_inv_head, i64_to_string_inj in He; [|done|done]. by subst.
  - destruct Ha as [Ha1 Ha2], Hb as [Hb1 Hb2]. destruct (Hfit _ _ Ha1 Ha2) as (? & ? & ?), (Hfit _ _ Hb1 Hb2) as (? & ? & ?).
    apply range_key_inj in He as (Hf & Ht & Hbk); [|done..]. split_and!; [done|by rewrite Ht|done].
Qed.

Definition wallet_request_fits (r : WalletRequest) : Prop :=
  match r with
  | WProfile _ secs | WWorkers _ secs | WRejects _ secs => 0 ≤ secs ≤ u64_max
  | WHashrateHistory _ r => range_fits r
  | WPayouts _ p => page_fits p
  | WBalance _ | WFullRebate _ => True
  end.
Definition request_address (r : WalletRequest) : string :=
  match r with
  | WBalance a | WProfile a _ | WWorkers a _ | WHashrateHistory a _ | WPayouts a _ | WRejects a _ | WFullRebate a => a
  end.

(** No character of a validated address ends a part of a key. *)
Definition address_char (c : Z) : Prop := c ≠ 47 ∧ c ≠ 63.
Lemma address_chars_ok a b : WalletAddress_new a = Ok b → Forall address_char (codes b).
Proof.
  intros (-> & _ & body & Ha & Hb)%WalletAddress_new_spec.
  assert (Forall address_char (codes body)) as Hbody.
  { unfold codes. apply Forall_map. eapply Forall_impl; [exact Hb|]. intros c Hc. unfold is_ascii_lowercase, is_ascii_digit, in_range in Hc.
    change (byte_of "a") with 97 in Hc. change (byte_of "z") with 122 in Hc. change (byte_of "0") with 48 in Hc. change (byte_of "9") with 57 in Hc.
    unfold address_char. lia. }
  destruct Ha as [-> | ->]; unfold codes; rewrite chars_app, map_app; apply Forall_app; (split; [by repeat constructor|done]).
Qed.

Definition wallet_prefix (r : WalletRequest) : string :=
  match r with WBalance _ => "balance/" | WFullRebate _ => "full_rebate/" | _ => "miners/" end.
Definition wallet_part (r : WalletRequest) : string :=
  match r with
  | WBalance _ | WFullRebate _ => "" | WProfile _ _ => "?w=" | WWorkers _ _ => "/workers?w=" | WHashrateHistory _ _ => "/hashrate/history?from="
  | WPayouts _ _ => "/payouts?l=" | WRejects _ _ => "/rejects?w="
  end.
Definition miner_parts : list string := ["?w="; "/workers?w="; "/hashrate/history?from="; "/payouts?l="; "/rejects?w="]%string.
Definition wallet_rest (r : WalletRequest) : list Z :=
  match r with
  | WBalance _ | WFullRebate _ => []
  | WProfile _ secs | WWorkers _ secs | WRejects _ secs => u64_to_string secs
  | WHashrateHistory _ r => range_key (timestamp (range_from r)) (timestamp (range_until r)) (seconds (range_bucket r))
  | WPayouts _ p => page_key p
  end.

Lemma wallet_key_parts r :
  wallet_key r = codes (wallet_prefix r) ++ codes (request_address r) ++ codes (wallet_part r) ++ wallet_rest r ∧
  wallet_prefix r ∈ ["balance/"; "full_rebate/"; "miners/"]%string ∧
  (wallet_prefix r = "miners/"%string → wallet_part r ∈ miner_parts) ∧ ends_run address_char (codes (wallet_part r) ++ wallet_rest r).
Proof.
  split_and!.
  - destruct r; cbn [wallet_key wallet_prefix request_address wallet_part wallet_rest]; unfold window_key; try done;
      change (codes "") with (@nil Z); by rewrite !app_nil_r.
  - destruct r; simpl; repeat first [by left|right].
  - unfold miner_parts. destruct r; simpl; intros Hp; try discriminate Hp; repeat first [by left|right].
  - destruct r; simpl; unfold address_char; try done; vm_compute; tauto.
Qed.

Lemma wallet_key_inj a b : wallet_request_fits a → wallet_request_fits b → Forall address_char (codes (request_address a)) →
  Forall address_char (codes (request_address b)) → wallet_key a = wallet_key b → same_wallet_request a b.
Proof.
  intros Ha Hb Haa Hab He. destruct (wallet_key_parts a) as (Hka & Hpa & Hma & Hea), (wallet_key_parts b) as (Hkb & Hpb & Hmb & Heb).
  rewrite Hka, Hkb in He. apply (same_route ["balance/"; "full_rebate/"; "miners/"]%string) in He as [Hp He]; [|vm_compute; reflexivity|done|done].
  apply (split_run address_char) in He as [Haddr%codes_inj He]; [|done..]. clear Hka Hkb Hpa Hpb Hea Heb Haa Hab.
  destruct (decide (wallet_prefix a = "miners/"%string)) as [Hm|Hm].
  - apply (same_route miner_parts) in He as [Hr He]; [|vm_compute; reflexivity|by apply Hma|by apply Hmb; congruence].
    assert (∀ f t, instant_fits f → instant_fits t → fits (timestamp f) ∧ fits (timestamp t)) as Hfit by (intros f t Hf%fits_tick Ht%fits_tick; tauto).
    destruct a, b; try discriminate Hr; try discriminate Hm; cbn [wallet_rest wallet_request_fits same_wallet_request request_address] in *; subst;
      try (f_equal; by apply u64_to_string_inj).
    + destruct Ha as [Ha1 Ha2], Hb as [Hb1 Hb2]. destruct (Hfit _ _ Ha1 Ha2), (Hfit _ _ Hb1 Hb2).
      apply range_key_inj in He as (Hf & Ht & Hbk); [|done..]. split; [done|]. split_and!; [done|by rewrite Ht|done].
    + f_equal. by apply page_key_inj.
  - destruct a, b; try discriminate Hp; simpl in *; try done; by subst.
Qed.

(** ** Answers through a cache *)

(** Query parameters at their types. *)
Definition page_typed (p : PageParams) : Prop := match pp_before p with Some b => fits b | None => True end.
Definition window_typed (w : option Z) : Prop := match w with Some n => 0 ≤ n ≤ u64_max | None => True end.
Definition pool_query_typed (q : PoolQuery) : Prop :=
  match q with
  | QStats w | QHashrate w | QFirmware w | QGeo w | QRejects w | QLeaderboard w _ => window_typed w
  | QBlocks p | QPayouts p => page_typed p
  | QPayoutCycle id => fits id
  | QHashrateHistory _ | QMinersHistory _ | QActiveSessions | QMiningPoolStats => True
  end.
Definition wallet_query_typed (q : WalletQuery) : Prop :=
  match q with
  | QProfile _ w | QWorkers _ w | QMinerRejects _ w => window_typed w
  | QMinerPayouts _ p => page_typed p
  | QBalance _ | QMinerHistory _ _ | QFullRebate _ => True
  end.

(** The instants [DateTime] can hold. *)
Definition chrono_bounded `{!Chrono} : Prop := ∀ raw t, parse_from_rfc3339 raw = Some t → Z.abs (timestamp t) ≤ 10 ^ 13.

Section typed.
Context `{!Chrono} (Hchrono : chrono_bounded) (now : Z) (Hnow : Z.abs (timestamp now) ≤ 10 ^ 13).

Lemma window_fits w secs : window_typed w → window w = Ok secs → 0 ≤ secs ≤ u64_max.
Proof.
  unfold window_typed, window, DEFAULT_WINDOW, MAX_WINDOW, u64_max. destruct w as [n|]; [|intros _ [= <-]; lia].
  case_bool; [done|]. intros Hn [= <-]. lia.
Qed.

Lemma clamp_fits n : fits (clamp 1 MAX_PAGE_SIZE n).
Proof. unfold fits, clamp, MAX_PAGE_SIZE, u64_max. repeat case_match; lia. Qed.

Lemma page_request_fits p pg : page_typed p → page p = Ok pg → page_fits pg.
Proof.
  unfold page_typed, page, page_fits. destruct (pp_before p) as [b|]; [case_bool; [done|]|]; intros Hb [= <-]; simpl; split; auto using clamp_fits.
Qed.

Lemma range_request_fits p r : range now p = Ok r → range_fits r.
Proof.
  unfold range. intros Hr.
  assert (∀ raw field t, parse_rfc3339 raw field = Ok t → Z.abs (timestamp t) ≤ 10 ^ 13) as Hp.
  { intros raw field t. unfold parse_rfc3339. destruct (parse_from_rfc3339 raw) as [u|] eqn:Hu; [|done]. intros [= <-]. by eapply Hchrono. }
  destruct (match rp_to p with Some raw => parse_rfc3339 raw "to" | None => Ok now end) as [until|] eqn:Hto; [|done]. simpl in Hr.
  assert (Z.abs (timestamp until) ≤ 10 ^ 13) as Huntil by (destruct (rp_to p); [by eapply Hp|by injection Hto as <-]).
  destruct (match rp_from p with Some raw => parse_rfc3339 raw "from" | None => Ok (until - DEFAULT_RANGE_SECS * NANOS) end) as [from|] eqn:Hfrom; [|done].
  simpl in Hr. assert (Z.abs (timestamp from) ≤ 10 ^ 14) as Hf.
  { destruct (rp_from p); [pose proof (Hp _ _ _ Hfrom); lia|]. injection Hfrom as <-. unfold timestamp in *.
    replace (until - DEFAULT_RANGE_SECS * NANOS) with (until + (- DEFAULT_RANGE_SECS) * NANOS) by lia.
    rewrite Z.div_add by (unfold NANOS; lia). unfold DEFAULT_RANGE_SECS. lia. }
  destruct (match rp_bucket p with Some raw => Bucket_parse raw | None => Ok OneHour end) as [b|]; [|done]. simpl in Hr.
  case_bool_in Hr; [done|]. case_bool_in Hr; [done|]. injection Hr as <-. split; unfold instant_fits; simpl; lia.
Qed.

Lemma fmap_Ok {E A B} (f : A → B) (m : result E A) b : f <$> m = Ok b → ∃ a, m = Ok a ∧ b = f a.
Proof. destruct m as [a|]; simpl; [|done]. intros [= <-]. eauto. Qed.

Lemma pool_request_ok q r : pool_query_typed q → pool_request now q = Ok r → pool_request_fits r.
Proof.
  destruct q; simpl; intros Ht Hr; try (apply fmap_Ok in Hr as (x & Hx & ->)); try (injection Hr as <-); simpl;
    eauto using window_fits, page_request_fits, range_request_fits.
  destruct x as [secs n]. unfold leaderboard in Hx. destruct (window w) as [s|] eqn:Hw; [|done]. simpl in Hx. injection Hx as <- <-.
  split; [by eapply window_fits|apply clamp_fits].
Qed.

Lemma parse_address_chars raw a : parse_address raw = Ok a → Forall address_char (codes a).
Proof. unfold parse_address. destruct (WalletAddress_new raw) eqn:Ha; [|done]. intros [= <-]. by eapply address_chars_ok. Qed.

Lemma wallet_request_ok q r : wallet_query_typed q → wallet_request now q = Ok r →
  wallet_request_fits r ∧ Forall address_char (codes (request_address r)).
Proof.
  destruct q; simpl; intros Ht Hr; try (destruct (parse_address raw) as [addr|] eqn:Ha; [|done]; simpl in Hr);
    try (apply fmap_Ok in Hr as (x & Hx & ->)); try (injection Hr as <-); simpl; split;
    eauto using window_fits, page_request_fits, range_request_fits, parse_address_chars.
Qed.
End typed.

(** The answer to a query: the refusal of its parameters; or the outcome of computing its own request; or
    the outcome of a computation for a request that is the same, which ended before this one was answered:
    a value, computed less than [ttl] before the query came or while it waited, or an error, but then one
    of a computation that ended while this query waited. *)
Definition answered {Q R V} (request : Z → Q → result ApiError R) (answer : R → Z → Source → Handler V) (same : R → R → Prop) (ttl : Z)
    (trace : list (Asked Q)) (q : Asked Q) (a : Handler V) : Prop :=
  match request (aq_begin q) (aq_query q) with
  | Err e => a = Ret (Err e)
  | Ok r => a = answer r (aq_at q) (aq_source q) ∨
      ∃ q' r', q' ∈ trace ∧ request (aq_begin q') (aq_query q') = Ok r' ∧ same r' r ∧ answer r' (aq_at q') (aq_source q') = a ∧ aq_done q' ≤ aq_end q ∧
        ((∃ v, a = Ret (Ok v)) ∧ aq_begin q < aq_done q' + ttl ∨ (∃ x, a = Ret x) ∧ aq_begin q ≤ aq_done q')
  end.

Definition trace_typed {Q} (typed : Q → Prop) (trace : list (Asked Q)) : Prop :=
  Forall (λ q, Z.abs (timestamp (aq_begin q)) ≤ 10 ^ 13 ∧ typed (aq_query q)) trace.

Lemma served_answered {Q R V} `{!TtlCache V} (request : Z → Q → result ApiError R) key (answer : R → Z → Source → Handler V)
    (same : R → R → Prop) (typed : Q → Prop) ttl trace i q a :
  (∀ t q r t' q' r', Z.abs (timestamp t) ≤ 10 ^ 13 → Z.abs (timestamp t') ≤ 10 ^ 13 → typed q → typed q' →
    request t q = Ok r → request t' q' = Ok r' → key r = key r' → same r r') →
  trace_typed typed trace → trace !! i = Some q → serve request key answer ttl trace i = Some a →
  answered request answer same ttl trace q a.
Proof.
  intros Hkey Ht Hi Ha. unfold serve in Ha. rewrite Hi in Ha. simpl in Ha. unfold answered, handler_call in *. unfold trace_typed in Ht. rewrite Forall_forall in Ht.
  destruct (request (aq_begin q) (aq_query q)) as [r|e] eqn:Hr; simpl in Ha; [|by injection Ha as <-]. injection Ha as Ha. unfold cached_json in Ha.
  assert (∀ j c, calls_of request key answer trace !! j = Some (Some c) → ∃ q' r', trace !! j = Some q' ∧ request (aq_begin q') (aq_query q') = Ok r' ∧
    c = {| cc_key := key r'; cc_begin := aq_begin q'; cc_end := aq_end q'; cc_done := aq_done q'; cc_init := answer r' (aq_at q') (aq_source q') |}) as Hcalls.
  { intros j c. unfold calls_of. rewrite list_lookup_fmap. destruct (trace !! j) as [q'|] eqn:Hq; [|done]. simpl. unfold handler_call.
    destruct (request (aq_begin q') (aq_query q')) as [r'|] eqn:Hr'; simpl; [|done]. intros [= <-]. by exists q', r'. }
  set (c := {| cc_key := key r; cc_begin := aq_begin q; cc_end := aq_end q; cc_done := aq_done q; cc_init := answer r (aq_at q) (aq_source q) |}).
  assert (calls_of request key answer trace !! i = Some (Some c)) as Hc.
  { unfold calls_of. rewrite list_lookup_fmap, Hi. simpl. unfold handler_call. by rewrite Hr. }
  destruct (cache_answer ttl _ i c Hc) as [Hown|(j & c' & x & Hj & Hk & Hx & Hax & Hend & Hage)]; rewrite Ha in *; [by left|right].
  destruct (Hcalls j c' Hj) as (q' & r' & Hq' & Hr' & ->). simpl in *. exists q', r'. split_and!; [by eapply list_elem_of_lookup_2|done| |congruence|done|].
  - destruct (Ht _ (list_elem_of_lookup_2 _ _ _ Hi)), (Ht _ (list_elem_of_lookup_2 _ _ _ Hq')).
    by apply (Hkey (aq_begin q') (aq_query q') r' (aq_begin q) (aq_query q) r).
  - destruct Hage as [Hw|[[v ->] Hw]]; [right; eauto|left; eauto].
Qed.

(** C30: No answer of the API is for another request or older than its cache allows.  Bad parameters are
    refused; otherwise a client gets what computing its own request gives, or what a computation of the same
    request gave, where two requests are the same when route, address, window and page are, and for a
    series the bucket and the bounds to the second, except that the pool's hashrate series may end anywhere
    in the same ten-second tick.  A shared value ended being computed less than the time to live before the
    request came, or while it waited; a shared error only while it waited: no failure is kept. *)
Theorem cached_answers_fresh `{!Chrono, !Timestamps, !Display, !TtlCache PoolAnswer, !TtlCache WalletAnswer} cfg ttl :
  chrono_bounded →
  (∀ trace i q a, trace_typed pool_query_typed trace → trace !! i = Some q →
    serve pool_request pool_key (pool_answer cfg) ttl trace i = Some a →
    answered pool_request (pool_answer cfg) same_pool_request ttl trace q a) ∧
  (∀ trace i q a, trace_typed wallet_query_typed trace → trace !! i = Some q →
    serve wallet_request wallet_key wallet_answer ttl trace i = Some a →
    answered wallet_request wallet_answer same_wallet_request ttl trace q a).
Proof.
  intros Hchrono. split; intros trace i q a; apply served_answered.
  - intros t p r t' p' r' Ht Ht' Hp Hp' Hr Hr'. apply pool_key_inj;
      [exact (pool_request_ok Hchrono t Ht p r Hp Hr)|exact (pool_request_ok Hchrono t' Ht' p' r' Hp' Hr')].
  - intros t p r t' p' r' Ht Ht' Hp Hp' Hr Hr'. destruct (wallet_request_ok Hchrono t Ht p r Hp Hr), (wallet_request_ok Hchrono t' Ht' p' r' Hp' Hr').
    by apply wallet_key_inj.
Qed.

(** ** A cache, and examples *)

Module Demo.
(** A cache that serves a call what the first call in line gives that may be shared with it: one for the
    same key that ended while the call waited, or gave a value less than the time to live before. *)
Definition may_share {V} (ttl : Z) (c c' : CacheCall V) : bool :=
  bool_decide (cc_key c' = cc_key c) && (cc_done c' <=? cc_end c) &&
  match cc_init c' with
  | Ret (Ok _) => (cc_begin c <=? cc_done c') || (cc_begin c <? cc_done c' + ttl)
  | Ret (Err _) => cc_begin c <=? cc_done c'
  | Panic => false
  end.
#[local] Instance first_cache V : TtlCache V.
Proof.
  refine {| try_get_with ttl calls i :=
    match calls !! i with
    | Some (Some c) => match List.find (λ o, match o with Some c' => may_share ttl c c' | None => false end) calls with
                       | Some (Some c') => cc_init c'
                       | _ => cc_init c
                       end
    | _ => Panic
    end |}.
  intros ttl calls i c Hi. rewrite Hi. destruct (List.find _ calls) as [[c'|]|] eqn:Hf; [right|by left|by left].
  apply find_some in Hf as [Hj%list_elem_of_In Hs]. apply list_elem_of_lookup in Hj as [j Hj]. unfold may_share in Hs. apply andb_true_iff in Hs as [[Hk%bool_decide_eq_true He%Z.leb_le]%andb_true_iff Hs].
  destruct (cc_init c') as [x|] eqn:Hx; [|done]. exists j, c', x. split_and!; [done|done|done|done|done|].
  destruct x as [v|e]; [apply orb_true_iff in Hs as [Hs|Hs]; [left; lia|right; split; [by exists v|lia]]|left; lia].
Defined.
#[local] Instance chrono : Chrono := {| parse_from_rfc3339 _ := None |}.
#[local] Instance utc : Timestamps := {| from_timestamp s := Some (s * NANOS) |}.
#[local] Instance display : Display := {| f64_log10 x := x; f64_powi x n := x; to_rfc3339_millis _ := "" |}.

Lemma chrono_none : chrono_bounded.
Proof. intros raw t Ht. discriminate Ht. Qed.

Definition sessions (n : nat) : Source :=
  {| so_store := st_with empty_db [] [] (repeat {| cs_id := 1; cs_worker_id := None; cs_remote_ip := "10.0.0.1"; cs_remote_app := None;
       cs_country := None; cs_connected_at := 0; cs_disconnected_at := None |} n);
     so_later := st_with empty_db [] [] []; so_wallet_seen _ := {| first_seen_at := 0; last_seen_at := 0 |};
     so_worker_seen _ := {| first_seen_at := 0; last_seen_at := 0 |} |}.
Definition at_sec (n : Z) : Z := (1750000000 + n) * NANOS.
Definition ttl : Z := 10 * NANOS.
(** A request that arrives at second [b] and, if it computes, is done a second later. *)
Definition asked {Q} (q : Q) (b n : Z) (src : nat) : Asked Q :=
  {| aq_query := q; aq_begin := at_sec b; aq_end := at_sec n; aq_at := at_sec b; aq_done := at_sec (b + 1); aq_source := sessions src |}.
Definition trace : list (Asked PoolQuery) :=
  [asked QActiveSessions 0 1 3; asked QActiveSessions 9 10 5; asked QActiveSessions 25 26 7].
Definition counted (n : Z) : Handler PoolAnswer := mret (ASessions {| as_active_sessions := n; as_active_workers := 0 |}).

Lemma at_sec_ok n : 0 ≤ n ≤ 100 → Z.abs (timestamp (at_sec n)) ≤ 10 ^ 13.
Proof. unfold timestamp, at_sec. rewrite Z.div_mul by done. lia. Qed.
Lemma trace_ok : trace_typed pool_query_typed trace.
Proof. repeat (apply Forall_cons_2; [split; [apply at_sec_ok; lia|exact I]|]). apply Forall_nil_2. Qed.
Lemma nobody_ok : trace_typed wallet_query_typed [asked (QBalance "nobody") 0 0 0].
Proof. apply Forall_cons_2; [split; [apply at_sec_ok; lia|exact I]|]. apply Forall_nil_2. Qed.

(** The second request is served the first's answer, the third a new one. *)
Lemma cached_answers_fresh_witness :
  map (serve pool_request pool_key (pool_answer ApiConfig_default) ttl trace) [0; 1; 2]%nat = [Some (counted 3); Some (counted 3); Some (counted 7)] ∧
  answered pool_request (pool_answer ApiConfig_default) same_pool_request ttl trace (asked QActiveSessions 9 10 5) (counted 3) ∧
  answered wallet_request wallet_answer same_wallet_request ttl [asked (QBalance "nobody") 0 0 0] (asked (QBalance "nobody") 0 0 0)
    (Ret (Err (BadRequest "invalid wallet address"))).
Proof.
  split; [vm_compute; reflexivity|]. split.
  - refine (proj1 (cached_answers_fresh ApiConfig_default ttl chrono_none) trace 1%nat (asked QActiveSessions 9 10 5) (counted 3) trace_ok eq_refl _).
    vm_compute. reflexivity.
  - refine (proj2 (cached_answers_fresh ApiConfig_default ttl chrono_none) [asked (QBalance "nobody") 0 0 0] 0%nat _ _ nobody_ok eq_refl _).
    vm_compute. reflexivity.
Defined.

(** A request that waits for the computation of another is told that one's failure. *)
Lemma failure_shared_with_waiter : let slow := {| aq_query := QPayoutCycle 7; aq_begin := at_sec 0; aq_end := at_sec 2; aq_at := at_sec 0; aq_done := at_sec 2; aq_source := sessions 0 |} in
  let waiter := {| aq_query := QPayoutCycle 7; aq_begin := at_sec 1; aq_end := at_sec 2; aq_at := at_sec 1; aq_done := at_sec 3; aq_source := sessions 0 |} in
  serve pool_request pool_key (pool_answer ApiConfig_default) ttl [slow; waiter] 1 = Some (Ret (Err ApiNotFound)).
Proof. vm_compute. reflexivity. Qed.

(** Polls of the default range one second apart never share an entry, though their [to] bounds fall in
    the same ten-second tick: the default [from] moves with [to]. *)
Lemma default_polls_miss : let poll t := pool_key <$> pool_request t (QHashrateHistory {| rp_from := None; rp_to := None; rp_bucket := None |}) in
  timestamp (at_sec 0) / 10 = timestamp (at_sec 1) / 10 ∧ poll (at_sec 0) ≠ poll (at_sec 1).
Proof. cbv zeta. split; [vm_compute; reflexivity|]. intros Heq. vm_compute in Heq. discriminate Heq. Qed.
End Demo.
