(* ===== verification/Rebate.v ===== *)
(** * The NACHO floor price and the KAS to NACHO conversion

    payout-krc20/src/rebate.rs and quote.rs.  serde_json and the bigdecimal
    crate are not part of the repository: the parsed quote body and decimal
    arithmetic are parameters.  Instants and durations are numbers of
    nanoseconds. *)

From Stdlib Require Import Ascii.
From S2P Require Import Prelude Float64 Mass Db PayoutRepo PayoutSpec FeeModel Domain.
Local Open Scope Z_scope.

(** ** rebate.rs *)

Definition DEFAULT_MIN_PENDING_SOMPI : Z := 1000000000.
Definition DEFAULT_MIN_NACHO_BASE_UNITS : Z := 100000000.
Definition MAX_FLOOR_PRICE_SCALE : Z := 18.

Inductive PriceReason :=
| ZeroPrice | ScaleTooLarge | EmptyInput | MultiplePoints | NoDigits | NonDigit | OutOfRange.

Inductive RebateError :=
| PriceParse (reason : PriceReason)
| NegativePending (pending_sompi : Z)
| RebateOverflow.

Record FloorPrice := { mantissa : Z; scale : Z }.

Definition from_mantissa_scale (m s : Z) : result RebateError FloorPrice :=
  if m =? 0 then Err (PriceParse ZeroPrice)
  else if MAX_FLOOR_PRICE_SCALE <? s then Err (PriceParse ScaleTooLarge)
  else Ok {| mantissa := m; scale := s |}.

(** [str::split] on a character: at least one part. *)
Fixpoint split_on (sep : ascii) (s : string) : list string :=
  match s with
  | EmptyString => [EmptyString]
  | String c s =>
      if Ascii.eqb c sep then EmptyString :: split_on sep s
      else match split_on sep s with
           | [] => [String c EmptyString]
           | p :: ps => String c p :: ps
           end
  end.

Definition from_decimal_str (input : string) : result RebateError FloorPrice :=
  let err := λ r, Err (PriceParse r) in
  if Nat.eqb (String.length input) 0 then err EmptyInput
  else
    let parts := split_on "." input in
    let int_part := default EmptyString (parts !! 0%nat) in
    let frac_part := default EmptyString (parts !! 1%nat) in
    if bool_decide (is_Some (parts !! 2%nat)) then err MultiplePoints
    else if Nat.eqb (String.length int_part) 0 && Nat.eqb (String.length frac_part) 0 then err NoDigits
    else if negb (forallb is_ascii_digit (chars int_part ++ chars frac_part)) then err NonDigit
    else
      let sc := Z.of_nat (String.length frac_part) in
      if MAX_FLOOR_PRICE_SCALE <? sc then err ScaleTooLarge
      else
        match parse_unsigned u128_max (int_part +:+ frac_part) with
        | None => err OutOfRange
        | Some m => if m =? 0 then err ZeroPrice else Ok {| mantissa := m; scale := sc |}
        end.

(** [10u128.checked_pow]. *)
Definition checked_pow10 (s : Z) : option Z := if 10 ^ s <=? u128_max then Some (10 ^ s) else None.

Definition nacho_base_units (pending_sompi : Z) (price : FloorPrice) : result RebateError Z :=
  if pending_sompi <? 0 then Err (NegativePending pending_sompi)
  else
    match checked_pow10 (scale price) with
    | None => Err RebateOverflow
    | Some factor =>
        match u128_checked_mul pending_sompi factor with
        | None => Err RebateOverflow
        | Some scaled => Ok (scaled / mantissa price)
        end
    end.

Definition is_payable (nacho_base_units min_nacho_base_units : Z) : bool :=
  min_nacho_base_units <=? nacho_base_units.

(** ** quote.rs: deriving the price *)

Inductive QuoteError :=
| Upstream | Status | Malformed | Price (e : RebateError) | CircuitOpen.

(** What the code uses of the bigdecimal crate. *)
Class BigDecimal := {
  BD : Type;
  bd_from_str_trimmed : string → option BD;
  bd_is_negative : BD → bool;
  bd_is_zero : BD → bool;
  bd_div : BD → BD → BD;
  (** [with_scale_round(scale, RoundingMode::Down)], then [as_bigint_and_exponent]. *)
  bd_with_scale_down : Z → BD → BD;
  bd_bigint_exponent : BD → Z * Z;
}.

Definition ok_or {E A} (e : E) (o : option A) : result E A :=
  match o with Some a => Ok a | None => Err e end.
Definition map_error {E E' A} (f : E → E') (r : result E A) : result E' A :=
  match r with Ok a => Ok a | Err e => Err (f e) end.

Section quote.
Context `{!BigDecimal}.

Definition derive_floor_price (nacho_usd kaspa_usd : string) : result QuoteError FloorPrice :=
  nacho ← ok_or Malformed (bd_from_str_trimmed nacho_usd);
  kaspa ← ok_or Malformed (bd_from_str_trimmed kaspa_usd);
  if bd_is_negative nacho || bd_is_negative kaspa then Err Malformed
  else if bd_is_zero nacho then Err Malformed
  else if bd_is_zero kaspa then Err Malformed
  else
    let ratio := bd_with_scale_down MAX_FLOOR_PRICE_SCALE (bd_div nacho kaspa) in
    let '(m, exponent) := bd_bigint_exponent ratio in
    sc ← ok_or Malformed (if (0 <=? exponent) && (exponent <=? u32_max) then Some exponent else None);
    m ← ok_or Malformed (if (0 <=? m) && (m <=? u128_max) then Some m else None);
    map_error Price (from_mantissa_scale m sc).

(** The parsed body: coin id to currency to the verbatim quote text. *)
Definition SimplePriceResponse : Type := gmap string (gmap string string).

Definition usd_quote (parsed : SimplePriceResponse) (coin_id : string) : result QuoteError string :=
  ok_or Malformed (legs ← parsed !! coin_id; legs !! "usd"%string).

(** [None] is a body serde_json rejects. *)
Definition parse_simple_price_response (body : option SimplePriceResponse) (nacho_id kaspa_id : string)
    : result QuoteError FloorPrice :=
  parsed ← ok_or Malformed body;
  nacho_usd ← usd_quote parsed nacho_id;
  kaspa_usd ← usd_quote parsed kaspa_id;
  derive_floor_price nacho_usd kaspa_usd.
End quote.

(** ** quote.rs: the circuit breaker *)

Inductive CircuitState := Closed | Open | HalfOpen.
#[export] Instance CircuitState_eq_dec : EqDecision CircuitState.
Proof. solve_decision. Defined.

Record CircuitBreaker := {
  cb_state : CircuitState;
  consecutive_failures : Z;
  failure_threshold : Z;
  cooldown : Z;
  opened_at : option Z;
}.

Definition CircuitBreaker_new (threshold cool : Z) : CircuitBreaker :=
  {| cb_state := Closed; consecutive_failures := 0; failure_threshold := threshold;
     cooldown := cool; opened_at := None |}.

(** [Instant::duration_since] is zero when the argument is later. *)
Definition duration_since (now earlier : Z) : Z := Z.max 0 (now - earlier).

Definition state (b : CircuitBreaker) (now : Z) : CircuitState :=
  match cb_state b, opened_at b with
  | Open, Some opened => if cooldown b <=? duration_since now opened then HalfOpen else Open
  | s, _ => s
  end.

Definition allows_request (b : CircuitBreaker) (now : Z) : bool := negb (bool_decide (state b now = Open)).

Definition on_success (b : CircuitBreaker) : CircuitBreaker :=
  {| cb_state := Closed; consecutive_failures := 0; failure_threshold := failure_threshold b;
     cooldown := cooldown b; opened_at := None |}.

Definition u32_saturating_add (a b : Z) : Z := Z.min (a + b) u32_max.

Definition on_failure (now : Z) (b : CircuitBreaker) : CircuitBreaker :=
  if bool_decide (state b now = HalfOpen) then
    {| cb_state := Open; consecutive_failures := consecutive_failures b;
       failure_threshold := failure_threshold b; cooldown := cooldown b; opened_at := Some now |}
  else
    let n := u32_saturating_add (consecutive_failures b) 1 in
    if failure_threshold b <=? n then
      {| cb_state := Open; consecutive_failures := n; failure_threshold := failure_threshold b;
         cooldown := cooldown b; opened_at := Some now |}
    else
      {| cb_state := cb_state b; consecutive_failures := n; failure_threshold := failure_threshold b;
         cooldown := cooldown b; opened_at := opened_at b |}.

(** [BreakeredSource::floor_price]: the clock before the call, what the source would answer, and
    the clock after it. *)
Definition breakered_floor_price (before : Z) (inner : result QuoteError FloorPrice) (after : Z)
    (b : CircuitBreaker) : result QuoteError FloorPrice * CircuitBreaker :=
  if negb (allows_request b before) then (Err CircuitOpen, b)
  else (inner, match inner with Ok _ => on_success b | Err _ => on_failure after b end).

(** ** Facts *)

(** *** Parsing a price *)

(** The number a string of digits spells. *)
Definition digits_value (s : string) : Z :=
  foldl (λ acc c, 10 * acc + (byte_of c - 48)) 0 (chars s).

Lemma digit_of_digit c : is_ascii_digit c = true → digit_of c = Some (byte_of c - 48) ∧ 48 ≤ byte_of c ≤ 57.
Proof.
  unfold is_ascii_digit, in_range. change (byte_of "0") with 48. change (byte_of "9") with 57.
  unfold digit_of. fold (byte_of c). intros H. rewrite H. split; [done|]. apply andb_true_iff in H. lia.
Qed.

Lemma digits_value_ge l acc : Forall (λ c, is_ascii_digit c = true) l → 0 ≤ acc →
  acc ≤ foldl (λ acc c, 10 * acc + (byte_of c - 48)) acc l.
Proof.
  intros Hl. revert acc. induction Hl as [|c l Hc Hl IH]; intros acc Ha; simpl; [lia|].
  destruct (digit_of_digit c Hc) as [_ ?]. etrans; [|apply IH]; lia.
Qed.

Lemma parse_digits_value max s acc : Forall (λ c, is_ascii_digit c = true) (chars s) → 0 ≤ acc ≤ max →
  parse_digits max acc s =
  let v := foldl (λ acc c, 10 * acc + (byte_of c - 48)) acc (chars s) in if v <=? max then Some v else None.
Proof.
  revert acc. induction s as [|c s IH]; intros acc Hd Ha; simpl in *.
  - by rewrite (proj2 (Z.leb_le _ _)) by lia.
  - apply Forall_cons in Hd as [Hc Hd]. destruct (digit_of_digit c Hc) as [-> Hr]. simpl.
    destruct (Z.leb_spec (10 * acc + (byte_of c - 48)) max) as [Hm|Hm]; [apply IH; [done|lia]|].
    pose proof (digits_value_ge (chars s) (10 * acc + (byte_of c - 48)) Hd ltac:(lia)).
    by rewrite (proj2 (Z.leb_gt _ _)) by lia.
Qed.

Lemma parse_unsigned_value s : Forall (λ c, is_ascii_digit c = true) (chars s) → s ≠ EmptyString →
  parse_unsigned u128_max s = if digits_value s <=? u128_max then Some (digits_value s) else None.
Proof.
  intros Hd Hne. destruct s as [|c r]; [done|].
  assert (Ascii.eqb c "+" = false) as Hp.
  { apply Forall_cons in Hd as [Hc _]. apply Ascii.eqb_neq. intros ->. done. }
  unfold parse_unsigned. rewrite Hp. apply parse_digits_value; [done|mlia].
Qed.

Lemma split_on_none sep s : Forall (λ c, c ≠ sep) (chars s) → split_on sep s = [s].
Proof.
  induction s as [|c s IH]; simpl; [done|]. intros [Hc Hs]%Forall_cons.
  rewrite (proj2 (Ascii.eqb_neq _ _) Hc). by rewrite IH.
Qed.

Lemma split_on_app sep a s : Forall (λ c, c ≠ sep) (chars a) →
  split_on sep (a +:+ String sep s) = a :: split_on sep s.
Proof.
  induction a as [|c a IH]; simpl; [by rewrite Ascii.eqb_refl|]. intros [Hc Ha]%Forall_cons.
  rewrite (proj2 (Ascii.eqb_neq _ _) Hc), IH by done. done.
Qed.

(** Splitting loses nothing. *)
Lemma split_on_cases sep s :
  (split_on sep s = [s]) ∨ ∃ a r, s = a +:+ String sep r ∧ split_on sep s = a :: split_on sep r.
Proof.
  induction s as [|c s IH]; simpl; [by left|]. destruct (Ascii.eqb_spec c sep) as [->|Hne].
  - right. exists EmptyString, s. done.
  - destruct IH as [->|(a & r & -> & ->)]; [by left|]. right. exists (String c a), r. done.
Qed.

Lemma digit_not_point c : is_ascii_digit c = true → c ≠ "."%char.
Proof. by intros H ->. Qed.

Lemma decimal_digits s : Forall (λ c, is_ascii_digit c = true) (chars s) ↔ forallb is_ascii_digit (chars s) = true.
Proof. rewrite forallb_forall, Forall_forall. setoid_rewrite list_elem_of_In. done. Qed.

(** The parts of an accepted price and the checks on them. *)
Definition decimal_parts (ip fp : string) (p : FloorPrice) : Prop :=
  (ip ≠ EmptyString ∨ fp ≠ EmptyString) ∧ Forall (λ c, is_ascii_digit c = true) (chars (ip +:+ fp)) ∧
  (String.length fp ≤ 18)%nat ∧ 0 < digits_value (ip +:+ fp) ≤ u128_max ∧
  p = {| mantissa := digits_value (ip +:+ fp); scale := Z.of_nat (String.length fp) |}.

Lemma digits_value_nonneg s : Forall (λ c, is_ascii_digit c = true) (chars s) → 0 ≤ digits_value s.
Proof. intros H. by apply digits_value_ge. Qed.

Lemma from_parts ip fp p :
  (if Nat.eqb (String.length ip) 0 && Nat.eqb (String.length fp) 0 then Err (PriceParse NoDigits)
   else if negb (forallb is_ascii_digit (chars ip ++ chars fp)) then Err (PriceParse NonDigit)
   else
     let sc := Z.of_nat (String.length fp) in
     if MAX_FLOOR_PRICE_SCALE <? sc then Err (PriceParse ScaleTooLarge)
     else
       match parse_unsigned u128_max (ip +:+ fp) with
       | None => Err (PriceParse OutOfRange)
       | Some m => if m =? 0 then Err (PriceParse ZeroPrice) else Ok {| mantissa := m; scale := sc |}
       end) = Ok p ↔ decimal_parts ip fp p.
Proof.
  unfold decimal_parts. rewrite <- chars_app.
  assert (Nat.eqb (String.length ip) 0 && Nat.eqb (String.length fp) 0 = true ↔ ip = EmptyString ∧ fp = EmptyString) as Hne.
  { rewrite andb_true_iff, !Nat.eqb_eq. destruct ip, fp; naive_solver. }
  destruct (Nat.eqb _ 0 && _) eqn:E1.
  { destruct (proj1 Hne eq_refl) as [-> ->]. split; [done|]. intros ([?|?] & _); done. }
  assert (¬ (ip = EmptyString ∧ fp = EmptyString)) as Hne'. { by intros ?%Hne. }
  destruct (forallb _ _) eqn:E2; simpl.
  2:{ split; [done|]. intros (_ & Hd%decimal_digits & _). congruence. }
  apply decimal_digits in E2. unfold MAX_FLOOR_PRICE_SCALE. destruct (Z.ltb_spec 18 (Z.of_nat (String.length fp))).
  { split; [done|]. intros (_ & _ & ? & _). lia. }
  rewrite parse_unsigned_value; [|done|destruct ip; [destruct fp|]; naive_solver].
  pose proof (digits_value_nonneg _ E2). destruct (Z.leb_spec (digits_value (ip +:+ fp)) u128_max).
  2:{ split; [done|]. intros (_ & _ & _ & ? & _). lia. }
  destruct (Z.eqb_spec (digits_value (ip +:+ fp)) 0).
  { split; [done|]. intros (_ & _ & _ & ? & _). lia. }
  split.
  - intros [= <-]. split_and!; try done; try lia. destruct ip; [right|left]; [destruct fp|]; naive_solver.
  - by intros (_ & _ & _ & _ & ->).
Qed.

(** The floor price parser accepts exactly the plain decimals: digits with at most one point, at
    most eighteen of them after it, spelling a positive number of at most 128 bits, and the price it
    returns is that number over the power of ten of the fractional digits. *)
Theorem from_decimal_str_spec s p : from_decimal_str s = Ok p ↔
  ∃ ip fp, (s = ip ∧ fp = EmptyString ∨ s = ip +:+ "." +:+ fp) ∧ decimal_parts ip fp p.
Proof.
  assert (∀ ip fp, decimal_parts ip fp p → Forall (λ c, c ≠ "."%char) (chars ip) ∧ Forall (λ c, c ≠ "."%char) (chars fp)) as Hnp.
  { intros ip fp (_ & Hd & _). rewrite chars_app, Forall_app in Hd. destruct Hd.
    split; eapply Forall_impl; eauto using digit_not_point. }
  unfold from_decimal_str. split.
  - intros H. case_bool_in H; [done|]. destruct (split_on_cases "." s) as [Hs|(a & r & -> & Hs)]; rewrite Hs in H; simpl in H.
    + exists s, EmptyString. split; [by left|]. by apply from_parts.
    + destruct (split_on_cases "." r) as [Hr|(b & q & -> & Hr)]; rewrite Hr in H; simpl in H.
      * exists a, r. split; [by right|]. by apply from_parts.
      * case_bool_in H; [done|]. exfalso. apply bool_decide_eq_false in E0. apply E0.
        destruct (split_on_cases "." q) as [->|(? & ? & _ & ->)]; by eexists.
  - intros (ip & fp & Hs & Hp). destruct (Hnp ip fp Hp) as [Hi Hf].
    assert (Nat.eqb (String.length s) 0 = false) as ->.
    { apply Nat.eqb_neq. destruct Hp as (Hne & _). destruct Hs as [[-> ->]| ->].
      - destruct Hne as [Hne|?]; [|done]. by destruct ip.
      - by destruct ip. }
    destruct Hs as [[-> ->]| ->].
    + rewrite split_on_none by done. exact (proj2 (from_parts ip EmptyString p) Hp).
    + change ("." +:+ fp) with (String "." fp). rewrite split_on_app, split_on_none by done. simpl. by apply from_parts.
Qed.

(** *** Converting *)

Definition price_ok (p : FloorPrice) : Prop := 0 < mantissa p ∧ 0 ≤ scale p ≤ MAX_FLOOR_PRICE_SCALE.

Lemma nacho_base_units_eq pending p : 0 ≤ pending ≤ i64_max → price_ok p →
  nacho_base_units pending p = Ok (pending * 10 ^ scale p / mantissa p).
Proof.
  unfold price_ok, MAX_FLOOR_PRICE_SCALE. intros Hp [Hm Hs]. unfold nacho_base_units, checked_pow10.
  rewrite (proj2 (Z.ltb_ge _ _)) by lia.
  assert (1 ≤ 10 ^ scale p ≤ 10 ^ 18) as Hpow.
  { split; [change 1 with (10 ^ 0)|]; apply Z.pow_le_mono_r; lia. }
  rewrite (proj2 (Z.leb_le _ _)) by (change (10 ^ 18) with 1000000000000000000 in Hpow; unfold u128_max; lia).
  unfold u128_checked_mul. rewrite (proj2 (Z.leb_le _ _)); [done|].
  change (10 ^ 18) with 1000000000000000000 in Hpow. unfold i64_max, u128_max in *. nia.
Qed.

(** The conversion is total and rounds down: a negative balance is refused, no balance of 64 bits
    overflows, and the NACHO base units are the largest number whose price does not exceed the
    balance. *)
Theorem nacho_base_units_floor pending p : in_i64 pending → price_ok p →
  (pending < 0 ∧ nacho_base_units pending p = Err (NegativePending pending)) ∨
  (0 ≤ pending ∧ ∃ n, nacho_base_units pending p = Ok n ∧ 0 ≤ n ∧
    n * mantissa p ≤ pending * 10 ^ scale p < (n + 1) * mantissa p).
Proof.
  intros Hi Hp. destruct (Z.ltb_spec pending 0) as [Hneg|Hpos].
  - left. split; [done|]. unfold nacho_base_units. by rewrite (proj2 (Z.ltb_lt _ _)).
  - right. split; [done|]. destruct Hi as [_ Hi]. eexists. split; [by apply nacho_base_units_eq|].
    destruct Hp as [Hm Hs]. set (v := pending * 10 ^ scale p).
    assert (0 ≤ v) by (unfold v; apply Z.mul_nonneg_nonneg; [done|by apply Z.pow_nonneg]).
    pose proof (Z.mul_div_le v (mantissa p) Hm). pose proof (Z.mul_succ_div_gt v (mantissa p) Hm).
    split; [by apply Z.div_pos|]. lia.
Qed.

Lemma nacho_base_units_floor_witness :
  nacho_base_units 1000000000 {| mantissa := 365; scale := 6 |} = Ok 2739726027397.
Proof.
  destruct (nacho_base_units_floor 1000000000 {| mantissa := 365; scale := 6 |})
    as [[H _]|(_ & n & -> & _ & H)]; [mlia|unfold price_ok, MAX_FLOOR_PRICE_SCALE; simpl; lia|lia|].
  change (n * 365 ≤ 1000000000000000 < (n + 1) * 365) in H. f_equal. lia.
Defined.

(** Rounding the price down rounds the payment up: the floored ratio of two quotes never buys fewer
    base units than the exact ratio, and can buy more, against the stated intent of the flooring. *)
Theorem floored_price_overpays :
  (∀ pending num den, 0 ≤ pending ≤ i64_max → 0 < num → 0 < den → 0 < num * 10 ^ 18 / den →
     ∃ n, nacho_base_units pending {| mantissa := num * 10 ^ 18 / den; scale := 18 |} = Ok n ∧
       pending * den / num ≤ n) ∧
  nacho_base_units 1000000000 {| mantissa := 15 * 10 ^ 18 / 10 ^ 19; scale := 18 |} = Ok (10 ^ 27) ∧
  1000000000 * 10 ^ 19 / 15 = 666666666666666666666666666.
Proof.
  split; [|split; by vm_compute].
  intros pending num den Hp Hn Hd Hm. set (m := num * 10 ^ 18 / den) in *.
  eexists. split; [apply nacho_base_units_eq; [done|]; unfold price_ok, MAX_FLOOR_PRICE_SCALE; simpl; lia|].
  cbn [mantissa scale]. assert (Hmd : m * den ≤ num * 10 ^ 18).
  { unfold m. rewrite Z.mul_comm. by apply Z.mul_div_le. }
  apply Z.div_le_lower_bound; [done|].
  pose proof (Z.mul_div_le (pending * den) num Hn) as Hq. set (q := pending * den / num) in *.
  assert (0 ≤ q) by (unfold q; apply Z.div_pos; nia).
  apply (Z.mul_le_mono_pos_r _ _ den); [done|].
  transitivity (q * (num * 10 ^ 18)).
  - replace (m * q * den) with (q * (m * den)) by ring. by apply Z.mul_le_mono_nonneg_l.
  - replace (q * (num * 10 ^ 18)) with (num * q * 10 ^ 18) by ring.
    replace (pending * 10 ^ 18 * den) with (pending * den * 10 ^ 18) by ring.
    by apply Z.mul_le_mono_nonneg_r.
Qed.

(** *** The circuit breaker *)

(** A call: the clock before it, what the source would answer, the clock after it. *)
Definition Call : Type := Z * result QuoteError FloorPrice * Z.

(** Serve calls in order, keeping the answers that reached the source, newest first, and when. *)
Definition serve (c : Call) (s : CircuitBreaker * list (bool * Z)) : CircuitBreaker * list (bool * Z) :=
  let '(before, inner, after) := c in
  let '(b, hist) := s in
  if allows_request b before
  then ((breakered_floor_price before inner after b).2,
        (match inner with Ok _ => true | Err _ => false end, after) :: hist)
  else s.

(** What the breaker promises, from the history alone: the number of failures since the last
    success and the time of the last one. *)
Fixpoint trailing_failures (hist : list (bool * Z)) : Z :=
  match hist with
  | (false, _) :: h => 1 + trailing_failures h
  | _ => 0
  end.
Definition must_refuse (threshold cool : Z) (hist : list (bool * Z)) (now : Z) : bool :=
  match hist with
  | (false, t) :: _ => (threshold <=? trailing_failures hist) && (duration_since now t <? cool)
  | _ => false
  end.

Definition breaker_inv (threshold cool : Z) (b : CircuitBreaker) (hist : list (bool * Z)) : Prop :=
  failure_threshold b = threshold ∧ cooldown b = cool ∧
  match cb_state b with
  | Closed => consecutive_failures b = trailing_failures hist ∧
      (hist = [] ∨ (∃ t h, hist = (true, t) :: h) ∨ trailing_failures hist < threshold)
  | Open => ∃ t h, hist = (false, t) :: h ∧ opened_at b = Some t ∧
      threshold ≤ trailing_failures hist ∧ threshold ≤ consecutive_failures b
  | HalfOpen => False
  end.

Lemma trailing_nonneg h : 0 ≤ trailing_failures h.
Proof. induction h as [|[[] t] h IH]; simpl; lia. Qed.

Lemma breaker_refuses threshold cool b hist now : breaker_inv threshold cool b hist →
  allows_request b now = negb (must_refuse threshold cool hist now).
Proof.
  intros (<- & <- & Hs). unfold allows_request, state, must_refuse. f_equal.
  destruct (cb_state b) eqn:Es; [|destruct Hs as (t & h & -> & -> & Ht & _)|done].
  - rewrite bool_decide_eq_false_2 by done.
    destruct Hs as [_ [->|[(t & h & ->)|Hlt]]]; [done..|]. destruct hist as [|[[] t] h]; try done.
    by rewrite (proj2 (Z.leb_gt _ _)).
  - rewrite (proj2 (Z.leb_le (failure_threshold b) _)) by done. simpl. rewrite Z.ltb_antisym.
    by destruct (cooldown b <=? duration_since now t).
Qed.

Lemma breaker_serve threshold cool c s : 0 ≤ threshold ≤ u32_max → breaker_inv threshold cool s.1 s.2 →
  breaker_inv threshold cool (serve c s).1 (serve c s).2.
Proof.
  intros Hth. destruct c as [[before inner] after], s as [b hist]. simpl. intros Hinv.
  unfold breakered_floor_price. destruct (allows_request b before) eqn:Ha; [|done]. simpl.
  destruct inner as [p|e].
  { destruct Hinv as (Ht & Hc & _). split_and!; [done..|]. simpl. split; [done|]. right. left. eauto. }
  destruct Hinv as (Ht & Hc & Hs). unfold on_failure.
  destruct (bool_decide (state b after = HalfOpen)) eqn:Eh.
  - apply bool_decide_eq_true in Eh. unfold state in Eh.
    destruct (cb_state b) eqn:Es; [done| |done]. destruct Hs as (t & h & -> & Ho & Htr & Hcf).
    split_and!; [done..|]. simpl. eexists _, _. split_and!; [done..| |done]. simpl in Htr. lia.
  - rewrite Ht. assert (Hn : u32_saturating_add (consecutive_failures b) 1 = Z.min (consecutive_failures b + 1) u32_max) by done.
    rewrite Hn. destruct (Z.leb_spec threshold (Z.min (consecutive_failures b + 1) u32_max)).
    + split_and!; [done..|]. simpl. eexists _, _. split_and!; [done..| |lia].
      destruct (cb_state b) eqn:Es; [| |done].
      * destruct Hs as [Hcf _]. lia.
      * destruct Hs as (t & h & -> & _ & Htr & _). simpl in *. lia.
    + split_and!; [done..|]. simpl. destruct (cb_state b) eqn:Es; [| |done].
      * destruct Hs as [Hcf _]. pose proof (trailing_nonneg hist). split; [lia|]. right. right. lia.
      * destruct Hs as (t & h & _ & _ & _ & Hcf). lia.
Qed.

(** The breaker fails closed: whatever the calls and the clock, a request is refused exactly when
    the source has failed at least [threshold] times in a row since its last success and less than
    the cooldown has passed since the last failure. *)
Theorem circuit_breaker_refines threshold cool calls now : 0 ≤ threshold ≤ u32_max →
  let s := foldr serve (CircuitBreaker_new threshold cool, []) calls in
  allows_request s.1 now = negb (must_refuse threshold cool s.2 now).
Proof.
  intros Hth s. apply breaker_refuses. unfold s. induction calls as [|c calls IH]; simpl.
  - split_and!; [done..|]. simpl. by split; [|left].
  - by apply breaker_serve.
Qed.

(** Two failures in a row open the breaker for ten nanoseconds. *)
Definition two_failures : list Call := [(3, Err Upstream, 4); (1, Err Upstream, 2)].
Lemma circuit_breaker_refines_witness :
  let s := foldr serve (CircuitBreaker_new 2 10, []) two_failures in
  allows_request s.1 13 = negb (must_refuse 2 10 s.2 13) ∧ allows_request s.1 13 = false.
Proof. split; [apply circuit_breaker_refines; mlia|by vm_compute]. Defined.
