(* ===== verification/TierKasplex.v ===== *)
(** * The Kasplex tier classifier (accountant/src/tier_kasplex.rs)

    A wallet is Elite when one of three endpoints says so.  A call is one
    step with three clock readings and the endpoints' replies: the allocation
    engine, its only caller, classifies wallets one after another.  The
    breaker is the state machine of payout-krc20's quote module ([Rebate]),
    which the source duplicates. *)

From Stdlib Require Import Ascii.
From S2P Require Import Prelude Float64 Mass Db PayoutRepo PayoutSpec FeeModel DupGuard Domain Rebate.
Local Open Scope Z_scope.

Record KasplexConfig := {
  elite_krc20_threshold_base_units : Z; kx_ttl : Z; breaker_threshold : Z; breaker_cooldown : Z }.

Definition DEFAULT_ELITE_KRC20_THRESHOLD : Z := 10000000000000000.
Definition DEFAULT_TTL : Z := 300 * 1000000000.
Definition DEFAULT_BREAKER_THRESHOLD : Z := 5.
Definition DEFAULT_BREAKER_COOLDOWN : Z := 30 * 1000000000.
Definition KasplexConfig_default : KasplexConfig :=
  {| elite_krc20_threshold_base_units := DEFAULT_ELITE_KRC20_THRESHOLD; kx_ttl := DEFAULT_TTL;
     breaker_threshold := DEFAULT_BREAKER_THRESHOLD; breaker_cooldown := DEFAULT_BREAKER_COOLDOWN |}.

(** ** Replies *)

Inductive ClassifierError := Upstream | MalformedReply.

(** A request fails, or answers a status and a body that may not decode. *)
Inductive HttpReply (T : Type) := NoReply | Replied (status : Z) (rows : option (list T)).
Arguments NoReply {T}.
Arguments Replied {T} status rows.

Record NftRow := { nft_tick : string; token_id : string }.
Record Krc20Row := { kr_tick : string; balance : string; locked : string; dec : string }.

Definition body_rows {T} (r : HttpReply T) : result ClassifierError (list T) :=
  match r with
  | NoReply => Err Upstream
  | Replied status rows =>
      if negb (status =? 200) then Err Upstream
      else match rows with Some l => Ok l | None => Err MalformedReply end
  end.

Definition fetch_nft (r : HttpReply NftRow) : result ClassifierError bool :=
  rows ← body_rows r; Ok (match rows with [] => false | _ => true end).

Definition starts_with_zero (s : string) : bool := match s with String "0" _ => true | _ => false end.

Definition parse_base_units (s : string) : option Z :=
  match s with
  | EmptyString => None
  | _ =>
      if negb (String.eqb s "0") && starts_with_zero s then None
      else if negb (forallb is_ascii_digit (chars s)) then None
      else parse_unsigned u128_max s
  end.

Definition u128_checked_add (a b : Z) : option Z := if a + b <=? u128_max then Some (a + b) else None.

(** The loop over the rows, with its early return. *)
Fixpoint sum_holdings (threshold total : Z) (rows : list Krc20Row) : result ClassifierError bool :=
  match rows with
  | [] => Ok (threshold <=? total)
  | row :: rows =>
      match (bal ← parse_base_units (balance row); lock ← parse_base_units (locked row);
             t ← u128_checked_add total bal; u128_checked_add t lock) with
      | None => Err MalformedReply
      | Some total => if threshold <=? total then Ok true else sum_holdings threshold total rows
      end
  end.

Definition fetch_krc20 (cfg : KasplexConfig) (r : HttpReply Krc20Row) : result ClassifierError bool :=
  rows ← body_rows r; sum_holdings (elite_krc20_threshold_base_units cfg) 0 rows.

(** ** The classifier *)

Record CacheEntry := { tier : WalletTier; expires_at : Z }.
Record KasplexTierClassifier := { kx_cache : gmap string CacheEntry; kx_breaker : CircuitBreaker }.

Definition KasplexTierClassifier_new (cfg : KasplexConfig) : KasplexTierClassifier :=
  {| kx_cache := ∅; kx_breaker := CircuitBreaker_new (breaker_threshold cfg) (breaker_cooldown cfg) |}.

Definition cached (key : string) (now : Z) (c : KasplexTierClassifier) : option WalletTier * KasplexTierClassifier :=
  match kx_cache c !! key with
  | Some e =>
      if now <? expires_at e then (Some (tier e), c)
      else (None, {| kx_cache := delete key (kx_cache c); kx_breaker := kx_breaker c |})
  | None => (None, c)
  end.

Definition store (ttl : Z) (key : string) (t : WalletTier) (now : Z) (c : KasplexTierClassifier) : KasplexTierClassifier :=
  {| kx_cache := <[key := {| tier := t; expires_at := now + ttl |}]> (kx_cache c); kx_breaker := kx_breaker c |}.

Definition cache_len (c : KasplexTierClassifier) : nat := size (kx_cache c).
Definition clear_cache (c : KasplexTierClassifier) : KasplexTierClassifier :=
  {| kx_cache := ∅; kx_breaker := kx_breaker c |}.

Definition with_breaker (b : CircuitBreaker) (c : KasplexTierClassifier) : KasplexTierClassifier :=
  {| kx_cache := kx_cache c; kx_breaker := b |}.

(** A call: when the cache was read, the breaker asked and the outcome recorded, and the replies. *)
Record Probe := {
  pb_read : Z; pb_ask : Z; pb_done : Z;
  pb_nacho : HttpReply NftRow; pb_katclaim : HttpReply NftRow; pb_krc20 : HttpReply Krc20Row }.

Definition is_true (r : result ClassifierError bool) : bool := match r with Ok b => b | Err _ => false end.
Definition is_err (r : result ClassifierError bool) : bool := match r with Ok _ => false | Err _ => true end.

Definition classify (cfg : KasplexConfig) (wallet : string) (p : Probe) (c : KasplexTierClassifier)
    : WalletTier * KasplexTierClassifier :=
  match cached wallet (pb_read p) c with
  | (Some t, c) => (t, c)
  | (None, c) =>
      if negb (allows_request (kx_breaker c) (pb_ask p)) then (Standard, c)
      else
        let nacho := fetch_nft (pb_nacho p) in
        let katclaim := fetch_nft (pb_katclaim p) in
        let krc20 := fetch_krc20 cfg (pb_krc20 p) in
        let any_elite := is_true nacho || is_true katclaim || is_true krc20 in
        let any_err := is_err nacho || is_err katclaim || is_err krc20 in
        if any_elite then (Elite, store (kx_ttl cfg) wallet Elite (pb_done p) (with_breaker (on_success (kx_breaker c)) c))
        else if negb any_err then
          (Standard, store (kx_ttl cfg) wallet Standard (pb_done p) (with_breaker (on_success (kx_breaker c)) c))
        else (Standard, with_breaker (on_failure (pb_done p) (kx_breaker c)) c)
  end.

(** ** Holdings *)

Definition holding (row : Krc20Row) : option Z :=
  bal ← parse_base_units (balance row); lock ← parse_base_units (locked row); Some (bal + lock).

(** The rows read so far are well formed and add up to the threshold. *)
Definition holds (threshold : Z) (rows : list Krc20Row) : Prop :=
  ∃ hs, mapM holding rows = Some hs ∧ threshold ≤ sumZ hs.

Lemma parse_digits_le max acc s n : 0 ≤ acc ≤ max → parse_digits max acc s = Some n → 0 ≤ n ≤ max.
Proof.
  revert acc. induction s as [|c s IH]; intros acc Ha H; simpl in H; [by simplify_eq|].
  apply bind_Some in H as (d & Hd & H). case_bool_in H; [|done]. apply Z.leb_le in E.
  unfold digit_of in Hd. case_bool_in Hd; [|done]. simplify_eq. bool_hyps. eapply IH in H; lia.
Qed.

Lemma parse_base_units_range s n : parse_base_units s = Some n → 0 ≤ n ≤ u128_max.
Proof.
  unfold parse_base_units. intros H. destruct s as [|c s]; [done|]. do 2 (case_bool_in H; [done|]).
  unfold parse_unsigned in H. case_bool_in H; [destruct s; [done|]|]; by eapply parse_digits_le in H; [|mlia].
Qed.

Lemma sum_holdings_spec threshold rows total b : 0 ≤ total → sum_holdings threshold total rows = Ok b →
  if b then ∃ k, holds (threshold - total) (take k rows)
  else ∃ hs, mapM holding rows = Some hs ∧ total + sumZ hs < threshold.
Proof.
  revert total. induction rows as [|row rows IH]; intros total Ht H; simpl in H.
  - injection H as <-. destruct (Z.leb_spec threshold total); [exists 0%nat|]; exists []; (split; [done|unfold sumZ; simpl; lia]).
  - destruct (parse_base_units (balance row)) as [bal|] eqn:E1; simpl in H; [|done].
    destruct (parse_base_units (locked row)) as [lock|] eqn:E2; simpl in H; [|done].
    unfold u128_checked_add in H. case_bool_in H; simpl in H; [|done]. case_bool_in H; simpl in H; [|done].
    assert (holding row = Some (bal + lock)) as Eh by (unfold holding; by rewrite E1, E2).
    apply parse_base_units_range in E1, E2. case_bool_in H.
    + injection H as <-. exists 1%nat. exists [bal + lock]. simpl. rewrite Eh. simpl.
      split; [done|]. unfold sumZ; simpl. bool_hyps; lia.
    + apply IH in H; [|lia]. destruct b.
      * destruct H as (k & hs & Hk & Hs). exists (S k), (bal + lock :: hs). simpl. rewrite Eh. simpl. rewrite Hk. simpl.
        split; [done|]. unfold sumZ in *; simpl. lia.
      * destruct H as (hs & Hk & Hs). exists (bal + lock :: hs). simpl. rewrite Eh. simpl. rewrite Hk. simpl. split; [done|].
        unfold sumZ in *; simpl. lia.
Qed.

(** ** Evidence *)

(** What a call's replies establish: Elite when one endpoint says so, Standard when all deny it. *)
Definition evidence (cfg : KasplexConfig) (p : Probe) : option WalletTier :=
  let rs := [fetch_nft (pb_nacho p); fetch_nft (pb_katclaim p); fetch_krc20 cfg (pb_krc20 p)] in
  if existsb is_true rs then Some Elite else if existsb is_err rs then None else Some Standard.

(** A token of a collection, or holdings at the threshold: what [Elite] stands for. *)
Definition elite_evidence (cfg : KasplexConfig) (p : Probe) : Prop :=
  (∃ row rows, pb_nacho p = Replied 200 (Some (row :: rows))) ∨
  (∃ row rows, pb_katclaim p = Replied 200 (Some (row :: rows))) ∨
  (∃ rows k, pb_krc20 p = Replied 200 (Some rows) ∧ holds (elite_krc20_threshold_base_units cfg) (take k rows)).

Lemma body_rows_Ok {T} (r : HttpReply T) l : body_rows r = Ok l → r = Replied 200 (Some l).
Proof.
  unfold body_rows. intros H. destruct r as [|status rows]; [done|]. case_bool_in H; [done|]. apply negb_false_iff, Z.eqb_eq in E.
  destruct rows; simplify_eq. done.
Qed.

Lemma fetch_nft_true r : is_true (fetch_nft r) = true → ∃ row rows, r = Replied 200 (Some (row :: rows)).
Proof.
  unfold fetch_nft. destruct (body_rows r) as [l|] eqn:E; simpl; [|done]. apply body_rows_Ok in E as ->.
  destruct l; [done|]. eauto.
Qed.

Lemma fetch_krc20_true cfg r : is_true (fetch_krc20 cfg r) = true →
  ∃ rows k, r = Replied 200 (Some rows) ∧ holds (elite_krc20_threshold_base_units cfg) (take k rows).
Proof.
  unfold fetch_krc20. destruct (body_rows r) as [l|] eqn:E; simpl; [|done]. apply body_rows_Ok in E as ->.
  destruct (sum_holdings _ 0 l) as [b|] eqn:S; simpl; [|done]. intros ->. apply sum_holdings_spec in S as [k Hk]; [|done].
  exists l, k. by rewrite Z.sub_0_r in Hk.
Qed.

Lemma evidence_Elite cfg p : evidence cfg p = Some Elite → elite_evidence cfg p.
Proof.
  unfold evidence. destruct (existsb is_true _) eqn:E; [intros _|by case_bool]. simpl in E.
  apply orb_true_iff in E as [?|E]; [left; by apply fetch_nft_true|].
  apply orb_true_iff in E as [?|E]; [right; left; by apply fetch_nft_true|].
  rewrite orb_false_r in E. right; right. by apply fetch_krc20_true.
Qed.

(** [classify] in terms of the evidence. *)
Lemma classify_eq cfg wallet p c : classify cfg wallet p c =
  match cached wallet (pb_read p) c with
  | (Some t, c) => (t, c)
  | (None, c) =>
      if negb (allows_request (kx_breaker c) (pb_ask p)) then (Standard, c)
      else match evidence cfg p with
           | Some t => (t, store (kx_ttl cfg) wallet t (pb_done p) (with_breaker (on_success (kx_breaker c)) c))
           | None => (Standard, with_breaker (on_failure (pb_done p) (kx_breaker c)) c)
           end
  end.
Proof.
  unfold classify, evidence. destruct (cached wallet (pb_read p) c) as [[t|] c']; [done|].
  destruct (negb (allows_request _ _)); [done|]. cbn [existsb].
  destruct (fetch_nft (pb_nacho p)) as [[]|], (fetch_nft (pb_katclaim p)) as [[]|], (fetch_krc20 cfg (pb_krc20 p)) as [[]|]; done.
Qed.

(** The classifier after a history of calls, the newest first. *)
Definition after_calls (cfg : KasplexConfig) (calls : list (string * Probe)) : KasplexTierClassifier :=
  foldr (λ call c, (classify cfg call.1 call.2 c).2) (KasplexTierClassifier_new cfg) calls.

Definition cache_backed (cfg : KasplexConfig) (calls : list (string * Probe)) (c : KasplexTierClassifier) : Prop :=
  ∀ w e, kx_cache c !! w = Some e →
    ∃ p, (w, p) ∈ calls ∧ evidence cfg p = Some (tier e) ∧ expires_at e = pb_done p + kx_ttl cfg.

Lemma cached_backed cfg calls w now c : cache_backed cfg calls c → cache_backed cfg calls (cached w now c).2.
Proof.
  intros Hc w' e. unfold cached. destruct (kx_cache c !! w) as [x|] eqn:E; [|apply Hc]. case_bool; [apply Hc|]. simpl.
  intros [_ H]%lookup_delete_Some. by apply Hc.
Qed.

Lemma cache_backed_cons cfg calls call c : cache_backed cfg calls c → cache_backed cfg (call :: calls) c.
Proof. intros Hc w e H. destruct (Hc w e H) as (p & ? & ?). exists p. split; [by right|done]. Qed.

Lemma after_calls_backed cfg calls : cache_backed cfg calls (after_calls cfg calls).
Proof.
  induction calls as [|[w p] calls IH]; [intros w e H; simpl in H; by rewrite lookup_empty in H|]. simpl. rewrite classify_eq.
  pose proof (cached_backed cfg calls w (pb_read p) _ IH) as Hc.
  destruct (cached w (pb_read p) _) as [[t|] c]; simpl in Hc; [by apply cache_backed_cons|].
  destruct (negb _); [by apply cache_backed_cons|]. destruct (evidence cfg p) as [t|] eqn:E; [|by apply cache_backed_cons].
  intros w' e H. simpl in H. apply lookup_insert_Some in H as [[<- <-]|[_ H]]; [exists p; split; [by left|done]|].
  destruct (Hc w' e H) as (p' & ? & ?). exists p'. split; [by right|done].
Qed.

(** C37: After any history of calls, a wallet is classified Elite only on evidence that it holds a
    token of one of the collections or NACHO at the threshold, from this call or from one whose
    cached result has not expired; an unexpired definitive result is returned as it is; and a
    call without a definitive result falls back to Standard and caches nothing. *)
Theorem elite_needs_evidence cfg calls wallet p :
  let c := after_calls cfg calls in
  let '(t, c') := classify cfg wallet p c in
  (t = Elite → ∃ p', ((wallet, p') ∈ calls ∧ pb_read p < pb_done p' + kx_ttl cfg ∨ p' = p) ∧ elite_evidence cfg p') ∧
  (∀ e, kx_cache c !! wallet = Some e → pb_read p < expires_at e → t = tier e) ∧
  (evidence cfg p = None → kx_cache c' ⊆ kx_cache c).
Proof.
  simpl. pose proof (after_calls_backed cfg calls) as Hb. rewrite classify_eq. set (c := after_calls cfg calls) in *.
  unfold cached. destruct (kx_cache c !! wallet) as [e|] eqn:E.
  - destruct (Z.ltb_spec (pb_read p) (expires_at e)) as [Hlt|Hge].
    + destruct (Hb _ _ E) as (p' & Hin & He & Hx). split_and!; [|by intros ? [= <-]|done].
      intros Ht. exists p'. rewrite Ht in He. split; [left; split; [done|lia]|by apply evidence_Elite].
    + simpl. assert (delete wallet (kx_cache c) ⊆ kx_cache c) by apply delete_subseteq.
      destruct (allows_request _ _); simpl; [destruct (evidence cfg p) as [t|] eqn:He|]; simpl;
        (split_and!; [|intros ? [= <-] ?; lia|done]); intros [= ->]; exists p; split; [by right|by apply evidence_Elite].
  - destruct (allows_request _ _); simpl; [destruct (evidence cfg p) as [t|] eqn:He|]; simpl;
      (split_and!; [|done|done]); intros [= ->]; exists p; split; [by right|by apply evidence_Elite].
Qed.
