(* ===== verification/Krc20Plan.v ===== *)
(** * Planning and signing a KRC-20 commit/reveal pair

    payout-krc20/src/inscription.rs, plan.rs and sign.rs.  The script
    builder, the P2SH derivation, JSON string quoting and Schnorr signing
    belong to crates outside the repository: they are the operations of the
    class [ScriptLib].  Bytes are numbers. *)

From S2P Require Import Prelude Float64 Mass Fee Planner Db Domain Effects KasExecute.
Local Open Scope Z_scope.

(** What the code uses of kaspa-txscript, kaspa-addresses, serde_json and
    secp256k1, beyond [Signer]. *)
Class ScriptLib (Script : Type) := {
  Prefix : Type;
  OpCheckSig : Z;
  OpFalse : Z;
  OpIf : Z;
  OpEndIf : Z;
  SIG_HASH_ALL : Z;
  (** [ScriptBuilder]; [None] when the script-size limit is exceeded. *)
  add_data : list Z → list Z → option (list Z);
  add_op : Z → list Z → option (list Z);
  add_i64 : Z → list Z → option (list Z);
  (** serde_json's rendering of a string, quotes included. *)
  json_string : string → string;
  pay_to_script_hash_script : list Z → Script;
  pay_to_script_hash_signature_script : list Z → list Z → option (list Z);
  (** [extract_script_pub_key_address], as the address text. *)
  extract_script_pub_key_address : Script → Prefix → option string;
  (** The treasury key's x-only public key. *)
  xonly_pubkey : list Z;
  (** Sighash and Schnorr signature of input 0; [None] when the digest is no message. *)
  schnorr_signature : Transaction Script → UtxoEntry Script → option (list Z);
}.

(** Documented behaviour of the transaction id: signature scripts do not enter it, and signing
    changes nothing else. *)
Definition strip_input (i : TransactionInput) : TransactionInput :=
  {| previous_outpoint := previous_outpoint i; signature_script := []; sequence := sequence i;
     sig_op_count := sig_op_count i |}.
Definition strip_scripts {Script} (tx : Transaction Script) : Transaction Script :=
  {| version := version _ tx; inputs := map strip_input (inputs tx); outputs := outputs tx;
     lock_time := lock_time _ tx; subnetwork_id := subnetwork_id _ tx; gas := gas _ tx;
     payload := payload _ tx |}.
Class TxIdOk (Script : Type) `{!Signer Script} := {
  tx_id_strip tx : tx_id (strip_scripts tx) = tx_id tx;
  sign_strip tx es : strip_scripts (sign_inputs tx es) = strip_scripts tx;
}.

(** ** inscription.rs *)

Definition KASPLEX_TAG : string := "kasplex".
Definition KRC20_PROTOCOL : string := "krc-20".

Inductive InscriptionError := ScriptBuilderError | AddressDerivation.

Record Krc20Transfer := { kr_p : string; kr_op : string; kr_tick : string; kr_amt : string; kr_to : string }.

Definition Krc20Transfer_new (tick amt to_ : string) : Krc20Transfer :=
  {| kr_p := KRC20_PROTOCOL; kr_op := "transfer"; kr_tick := tick; kr_amt := amt; kr_to := to_ |}.

Definition bytes_of (s : string) : list Z := map byte_of (chars s).

Section inscription.
Context {Script : Type} `{!ScriptLib Script}.

(** The derived [Serialize]: fields in declaration order, compact. *)
Definition to_json (t : Krc20Transfer) : string :=
  "{" +:+ json_string "p" +:+ ":" +:+ json_string (kr_p t) +:+ ","
      +:+ json_string "op" +:+ ":" +:+ json_string (kr_op t) +:+ ","
      +:+ json_string "tick" +:+ ":" +:+ json_string (kr_tick t) +:+ ","
      +:+ json_string "amt" +:+ ":" +:+ json_string (kr_amt t) +:+ ","
      +:+ json_string "to" +:+ ":" +:+ json_string (kr_to t) +:+ "}".

Definition build_transfer_inscription (t : Krc20Transfer) : result InscriptionError (list Z) :=
  match (s ← add_data xonly_pubkey [];
         s ← add_op OpCheckSig s;
         s ← add_op OpFalse s;
         s ← add_op OpIf s;
         s ← add_data (bytes_of KASPLEX_TAG) s;
         s ← add_i64 0 s;
         s ← add_data (bytes_of (to_json t)) s;
         add_op OpEndIf s) with
  | Some s => Ok s
  | None => Err ScriptBuilderError
  end.

Definition commit_script_public_key (redeem_script : list Z) : Script := pay_to_script_hash_script redeem_script.

Definition commit_address (redeem_script : list Z) (prefix : Prefix) : result InscriptionError string :=
  match extract_script_pub_key_address (commit_script_public_key redeem_script) prefix with
  | Some a => Ok a
  | None => Err AddressDerivation
  end.

Definition reveal_signature_script (redeem_script signature : list Z) : result InscriptionError (list Z) :=
  match pay_to_script_hash_signature_script redeem_script signature with
  | Some s => Ok s
  | None => Err ScriptBuilderError
  end.
End inscription.

(** ** plan.rs *)

Definition STANDARD_SIGNATURE_SCRIPT_LEN : nat := 66.
Definition DEFAULT_COMMIT_AMOUNT_SOMPI : Z := 20000000.
Definition SIG_OP_COUNT_PER_INPUT : Z := 1.

Inductive Krc20FeePolicy :=
| Adaptive (rate : FeeRate)
| Frozen (commit_fee_sompi reveal_fee_sompi : Z).

Definition reveal_fee (p : Krc20FeePolicy) (reveal_mass : TxMass) : Z :=
  match p with Adaptive rate => fee_for rate reveal_mass | Frozen _ r => r end.
Definition commit_fee (p : Krc20FeePolicy) (commit_mass : TxMass) : Z :=
  match p with Adaptive rate => fee_for rate commit_mass | Frozen c _ => c end.

Record CommitRevealConfig := { crc_commit_amount_sompi : Z; crc_fee_policy : Krc20FeePolicy }.

Record PlannedCommitReveal (Script : Type) := {
  redeem_script : list Z;
  commit_spk : Script;
  commit_amount_sompi : Z;
  commit_inputs : list (TreasuryUtxo Script);
  commit_change_sompi : Z;
  commit_fee_sompi : Z;
  commit_mass_of : TxMass;
  reveal_return_sompi : Z;
  reveal_fee_sompi : Z;
  reveal_mass : TxMass;
}.
Arguments redeem_script {Script} _.
Arguments commit_spk {Script} _.
Arguments commit_amount_sompi {Script} _.
Arguments commit_inputs {Script} _.
Arguments commit_change_sompi {Script} _.
Arguments commit_fee_sompi {Script} _.
Arguments commit_mass_of {Script} _.
Arguments reveal_return_sompi {Script} _.
Arguments reveal_fee_sompi {Script} _.
Arguments reveal_mass {Script} _.

Inductive PlanError :=
| PInscription (e : InscriptionError)
| InsufficientFunds (needed_sompi available_sompi : Z)
| RevealBelowFloor (return_sompi floor_sompi : Z)
| CommitMassExceeded (mass : TxMass) (limit : Z)
| RevealMassExceeded (mass : TxMass) (limit : Z)
| MassEval (e : MassEvaluationError).

Record FundedCommit (Script : Type) := {
  fc_inputs : list (TreasuryUtxo Script); fc_change_sompi : Z; fc_fee_sompi : Z; fc_mass : TxMass }.
Arguments fc_inputs {Script} _.
Arguments fc_change_sompi {Script} _.
Arguments fc_fee_sompi {Script} _.
Arguments fc_mass {Script} _.

(** [commit_amount.checked_sub(reveal_fee).filter(>= floor)]. *)
Definition reveal_return (commit_amount fee : Z) : result PlanError Z :=
  match u64_checked_sub commit_amount fee with
  | Some r => if MIN_PAYOUT_OUTPUT_SOMPI <=? r then Ok r
              else Err (RevealBelowFloor (u64_saturating_sub commit_amount fee) MIN_PAYOUT_OUTPUT_SOMPI)
  | None => Err (RevealBelowFloor (u64_saturating_sub commit_amount fee) MIN_PAYOUT_OUTPUT_SOMPI)
  end.

Section plan.
Context {Script : Type} `{!MassCalculator Script} `{!Signer Script} `{!ScriptLib Script}.
Implicit Type utxos : list (TreasuryUtxo Script).

Definition reveal_only (transfer : Krc20Transfer) (commit_amount fee : Z)
    : result PlanError (PlannedCommitReveal Script) :=
  ret ← reveal_return commit_amount fee;
  match build_transfer_inscription transfer with
  | Err e => Err (PInscription e)
  | Ok redeem =>
      let zero_mass := {| compute_mass := 0; storage_mass := 0; transient_mass := 0 |} in
      Ok {| redeem_script := redeem; commit_spk := commit_script_public_key redeem;
            commit_amount_sompi := commit_amount; commit_inputs := []; commit_change_sompi := 0;
            commit_fee_sompi := 0; reveal_return_sompi := ret; reveal_fee_sompi := fee;
            commit_mass_of := zero_mass; reveal_mass := zero_mass |}
  end.

Definition build_tx (ins : list (TransactionOutpoint * list Z)) (outs : list (TransactionOutput Script))
    : Transaction Script :=
  {| version := 0;
     inputs := map (λ '(o, sig), {| previous_outpoint := o; signature_script := sig; sequence := 0;
                                    sig_op_count := SIG_OP_COUNT_PER_INPUT |}) ins;
     outputs := outs; lock_time := 0; subnetwork_id := SUBNETWORK_ID_NATIVE; gas := 0; payload := [] |}.

Definition evaluate (tx : Transaction Script) (entries : list (UtxoEntry Script)) : result MassEvaluationError TxMass :=
  evaluate_populated tx entries.

(** The outputs of a commit: the P2SH lock, then change if any. *)
Definition commit_outputs (spk : Script) (commit_amount : Z) (treasury_script : Script) (change : Z)
    : list (TransactionOutput Script) :=
  let outs := [{| value := commit_amount; out_script := spk |}] in
  if 0 <? change then outs ++ [{| value := change; out_script := treasury_script |}] else outs.

Definition commit_mass ins (spk : Script) (commit_amount : Z) (treasury_script : Script) (change : Z)
    : result MassEvaluationError TxMass :=
  evaluate (build_tx (map (λ u : TreasuryUtxo Script, (outpoint u, replicate STANDARD_SIGNATURE_SCRIPT_LEN 0)) ins)
              (commit_outputs spk commit_amount treasury_script change))
    (map entry ins).

(** The body of the [while input_count <= sorted.len()] loop on the first [input_count] coins;
    [None] is [continue]. *)
Definition fund_step ins (spk treasury_script : Script) (commit_amount : Z) (policy : Krc20FeePolicy)
    : exec (option (result PlanError (FundedCommit Script))) :=
  input_sum ← sum_u64 (map coin ins);
  if input_sum <=? commit_amount then Ret None
  else
    gross_change ← u64_sub input_sum commit_amount;
    match commit_mass ins spk commit_amount treasury_script gross_change with
    | Err e => Ret (Some (Err (MassEval e)))
    | Ok gross_mass =>
        let fee := commit_fee policy gross_mass in
        if input_sum <? u64_saturating_add commit_amount fee then Ret None
        else
          rest ← u64_sub input_sum commit_amount;
          change ← u64_sub rest fee;
          if (change =? 0) || is_change_dust change treasury_script then
            match commit_mass ins spk commit_amount treasury_script 0 with
            | Err e => Ret (Some (Err (MassEval e)))
            | Ok mass =>
                fee ← u64_sub input_sum commit_amount;
                Ret (Some (Ok {| fc_inputs := ins; fc_change_sompi := 0; fc_fee_sompi := fee;
                                 fc_mass := mass |}))
            end
          else Ret (Some (Ok {| fc_inputs := ins; fc_change_sompi := change; fc_fee_sompi := fee;
                                fc_mass := gross_mass |}))
    end.

(** The loop; [None] when it ends without funding. Each turn takes one more input, so [fuel] above
    the number of coins left is enough. *)
Fixpoint fund_loop (fuel : nat) (sorted : list (TreasuryUtxo Script)) (spk treasury_script : Script)
    (commit_amount : Z) (policy : Krc20FeePolicy) (input_count : nat)
    : exec (option (result PlanError (FundedCommit Script))) :=
  match fuel with
  | O => Panic
  | S fuel =>
      if (length sorted <? input_count)%nat then Ret None
      else
        r ← fund_step (take input_count sorted) spk treasury_script commit_amount policy;
        match r with
        | Some r => Ret (Some r)
        | None => fund_loop fuel sorted spk treasury_script commit_amount policy (S input_count)
        end
  end.

Definition fund_commit utxos (spk treasury_script : Script) (commit_amount : Z) (policy : Krc20FeePolicy)
    : exec (result PlanError (FundedCommit Script)) :=
  let sorted := sort_utxos_desc utxos in
  available ← sum_u64 (map coin sorted);
  r ← fund_loop (S (length sorted)) sorted spk treasury_script commit_amount policy 1;
  match r with
  | Some r => Ret r
  | None =>
      let needed :=
        match u64_checked_sub available commit_amount with
        | Some gross_change =>
            match commit_mass sorted spk commit_amount treasury_script gross_change with
            | Ok m => u64_saturating_add commit_amount (commit_fee policy m)
            | Err _ => commit_amount
            end
        | None => commit_amount
        end in
      Ret (Err (InsufficientFunds needed available))
  end.

Definition commit_p2sh_placeholder : TransactionOutpoint := {| transaction_id := 0; out_index := 0 |}.

(** The mass of the reveal: one P2SH input carrying the redeem script, one treasury output. *)
Definition reveal_shape_mass (redeem : list Z) (spk treasury_script : Script) (commit_amount : Z)
    : result PlanError TxMass :=
  match reveal_signature_script redeem (replicate STANDARD_SIGNATURE_SCRIPT_LEN 0) with
  | Err e => Err (PInscription e)
  | Ok sig =>
      match evaluate (build_tx [(commit_p2sh_placeholder, sig)]
                        [{| value := commit_amount; out_script := treasury_script |}])
              [{| amount := commit_amount; script_public_key := spk; block_daa_score := 0;
                  is_coinbase := false; covenant_id := None |}] with
      | Ok m => if fits_independently m MAINNET_MAX_BLOCK_MASS then Ok m
                else Err (RevealMassExceeded m MAINNET_MAX_BLOCK_MASS)
      | Err e => Err (MassEval e)
      end
  end.

Definition plan_commit_reveal utxos (treasury_script : Script) (transfer : Krc20Transfer)
    (cfg : CommitRevealConfig) : exec (result PlanError (PlannedCommitReveal Script)) :=
  match build_transfer_inscription transfer with
  | Err e => Ret (Err (PInscription e))
  | Ok redeem =>
      let spk := commit_script_public_key redeem in
      let commit_amount := crc_commit_amount_sompi cfg in
      match reveal_shape_mass redeem spk treasury_script commit_amount with
      | Err e => Ret (Err e)
      | Ok rmass =>
          let rfee := reveal_fee (crc_fee_policy cfg) rmass in
          match reveal_return commit_amount rfee with
          | Err e => Ret (Err e)
          | Ok ret =>
              r ← fund_commit utxos spk treasury_script commit_amount (crc_fee_policy cfg);
              match r with
              | Err e => Ret (Err e)
              | Ok commit =>
                  if negb (fits_independently (fc_mass commit) MAINNET_MAX_BLOCK_MASS)
                  then Ret (Err (CommitMassExceeded (fc_mass commit) MAINNET_MAX_BLOCK_MASS))
                  else Ret (Ok {| redeem_script := redeem; commit_spk := spk;
                                  commit_amount_sompi := commit_amount; commit_inputs := fc_inputs commit;
                                  commit_change_sompi := fc_change_sompi commit;
                                  commit_fee_sompi := fc_fee_sompi commit;
                                  commit_mass_of := fc_mass commit; reveal_return_sompi := ret;
                                  reveal_fee_sompi := rfee; reveal_mass := rmass |})
              end
          end
      end
  end.

(** ** sign.rs *)

Definition COMMIT_P2SH_OUTPUT_INDEX : Z := 0.
Definition COMMIT_CHANGE_OUTPUT_INDEX : Z := 1.

Inductive CommitSignError := CSEmptyInputs | CSVirtualInput | CSKey | CSMessage | CSScript | CSVerify (input : nat).

(** [SignedCommit] and [SignedReveal]: the transaction and the entries it spends. *)
Record SignedTx := { st_tx : Transaction Script; st_entries : list (UtxoEntry Script) }.

Definition signed_txid (s : SignedTx) : Hash := tx_id (st_tx s).
Definition commit_outpoint (s : SignedTx) : TransactionOutpoint :=
  {| transaction_id := tx_id (st_tx s); out_index := COMMIT_P2SH_OUTPUT_INDEX |}.

Definition build_commit_unsigned (plan : PlannedCommitReveal Script) (treasury_script : Script)
    : result CommitSignError (Transaction Script * list (UtxoEntry Script)) :=
  match commit_inputs plan with
  | [] => Err CSEmptyInputs
  | _ =>
      if existsb is_planning_virtual (commit_inputs plan) then Err CSVirtualInput
      else
        Ok ({| version := TX_VERSION;
               inputs := map (λ u : TreasuryUtxo Script, {| previous_outpoint := outpoint u; signature_script := [];
                                          sequence := 0; sig_op_count := 1 |}) (commit_inputs plan);
               outputs := commit_outputs (commit_spk plan) (commit_amount_sompi plan) treasury_script
                            (commit_change_sompi plan);
               lock_time := 0; subnetwork_id := SUBNETWORK_ID_NATIVE; gas := 0; payload := [] |},
            map entry (commit_inputs plan))
  end.

Definition commit_txid (plan : PlannedCommitReveal Script) (treasury_script : Script) : result CommitSignError Hash :=
  '(tx, _) ← build_commit_unsigned plan treasury_script; Ok (tx_id tx).

Definition verify (tx : Transaction Script) (entries : list (UtxoEntry Script)) : result CommitSignError unit :=
  match List.find (λ i, negb (execute_input tx entries i)) (seq 0 (length (inputs tx))) with
  | Some i => Err (CSVerify i)
  | None => Ok tt
  end.

Definition sign_commit (plan : PlannedCommitReveal Script) (treasury_script : Script) : result CommitSignError SignedTx :=
  '(unsigned, entries) ← build_commit_unsigned plan treasury_script;
  if treasury_key_valid then
    let tx := sign_inputs unsigned entries in
    _ ← verify tx entries;
    Ok {| st_tx := tx; st_entries := entries |}
  else Err CSKey.

Definition build_reveal_unsigned (plan : PlannedCommitReveal Script) (o : TransactionOutpoint)
    (treasury_script : Script) : Transaction Script :=
  {| version := TX_VERSION;
     inputs := [{| previous_outpoint := o; signature_script := []; sequence := 0; sig_op_count := 1 |}];
     outputs := [{| value := reveal_return_sompi plan; out_script := treasury_script |}];
     lock_time := 0; subnetwork_id := SUBNETWORK_ID_NATIVE; gas := 0; payload := [] |}.

Definition reveal_entry (plan : PlannedCommitReveal Script) : UtxoEntry Script :=
  {| amount := commit_amount_sompi plan; script_public_key := commit_spk plan; block_daa_score := 0;
     is_coinbase := false; covenant_id := None |}.

Definition reveal_txid (plan : PlannedCommitReveal Script) (o : TransactionOutpoint) (treasury_script : Script) : Hash :=
  tx_id (build_reveal_unsigned plan o treasury_script).

(** [tx.inputs[0].signature_script = sig]. *)
Definition with_sig_script (sig : list Z) (tx : Transaction Script) : option (Transaction Script) :=
  match inputs tx with
  | [] => None
  | i :: rest =>
      Some {| version := version _ tx;
              inputs := {| previous_outpoint := previous_outpoint i; signature_script := sig;
                           sequence := sequence i; sig_op_count := sig_op_count i |} :: rest;
              outputs := outputs tx; lock_time := lock_time _ tx; subnetwork_id := subnetwork_id _ tx;
              gas := gas _ tx; payload := payload _ tx |}
  end.

Definition sign_reveal (plan : PlannedCommitReveal Script) (o : TransactionOutpoint) (treasury_script : Script)
    : result CommitSignError SignedTx :=
  let tx := build_reveal_unsigned plan o treasury_script in
  let entry := reveal_entry plan in
  if negb treasury_key_valid then Err CSKey
  else
    match schnorr_signature tx entry with
    | None => Err CSMessage
    | Some sig =>
        match pay_to_script_hash_signature_script (redeem_script plan) ([65] ++ sig ++ [SIG_HASH_ALL]) with
        | None => Err CSScript
        | Some sig_script =>
            match with_sig_script sig_script tx with
            | None => Err CSEmptyInputs
            | Some tx =>
                _ ← verify tx [entry];
                Ok {| st_tx := tx; st_entries := [entry] |}
            end
        end
    end.
End plan.
Arguments SignedTx Script : clear implicits.
