(* ===== verification/Krc20PlanProps.v ===== *)
(** * Correctness of the commit/reveal planner and signer

    A plan always exists or is refused with a reason, balances to the sompi,
    and signing keeps the transaction id recorded before it.  A frozen replay
    of the fees rebuilds the same commit when fees do not fall as inputs are
    added, and a run shows it does not otherwise. *)

From S2P Require Import Prelude Float64 Mass Fee Planner PlannerProps Db Domain Effects KasExecute Krc20Plan.
Local Open Scope Z_scope.

Section props.
Context {Script : Type} `{!MassCalculator Script} `{!Signer Script} `{!ScriptLib Script}.
Implicit Types utxos ins : list (TreasuryUtxo Script).
Implicit Types spk cs : Script.
Abbreviation coin_sum us := (sumZ (map (@coin Script) us)).

(** ** Funding *)

(** What a funded commit satisfies. *)
Record funded_ok spk cs (amt : Z) (policy : Krc20FeePolicy) (f : FundedCommit Script) : Prop := {
  fo_balance : coin_sum (fc_inputs f) = amt + fc_change_sompi f + fc_fee_sompi f;
  fo_inputs : fc_inputs f ≠ [];
  fo_change : fc_change_sompi f = 0 ∨ 0 < fc_change_sompi f ∧ is_change_dust (fc_change_sompi f) cs = false;
  fo_fee : ∃ gross, commit_mass (fc_inputs f) spk amt cs (coin_sum (fc_inputs f) - amt) = Ok gross ∧
    commit_fee policy gross ≤ fc_fee_sompi f ∧
    (fc_change_sompi f = 0 → commit_mass (fc_inputs f) spk amt cs 0 = Ok (fc_mass f)) ∧
    (fc_change_sompi f ≠ 0 → fc_mass f = gross ∧ fc_fee_sompi f = commit_fee policy gross);
}.

Definition policy_ok (policy : Krc20FeePolicy) : Prop := ∀ m, 0 ≤ commit_fee policy m.

(** One turn of the loop, case by case. *)
Lemma fund_step_spec ins spk cs amt policy : 0 ≤ amt → policy_ok policy → ins ≠ [] →
  Forall (λ x, 0 ≤ x) (map coin ins) → coin_sum ins < u64_max →
  ∃ r, fund_step ins spk cs amt policy = Ret r ∧
    match r with
    | None => coin_sum ins ≤ amt ∨ ∃ m, amt < coin_sum ins ∧ commit_mass ins spk amt cs (coin_sum ins - amt) = Ok m ∧
                coin_sum ins < amt + commit_fee policy m
    | Some (Ok f) => fc_inputs f = ins ∧ funded_ok spk cs amt policy f
    | Some (Err e) => ∃ m, e = MassEval m
    end.
Proof.
  intros Ha Hp Hne Hc Hs. unfold fund_step. rewrite sum_u64_Ret by (done || lia). simpl.
  change (sumZ (map coin ins)) with (coin_sum ins). destruct (Z.leb_spec (coin_sum ins) amt).
  { eexists. split; [done|]. by left. }
  rewrite !u64_sub_le by lia. simpl.
  destruct (commit_mass ins spk amt cs (coin_sum ins - amt)) as [m|e] eqn:Em; [|eexists; split; [reflexivity|by eexists]].
  specialize (Hp m). set (fee := commit_fee policy m) in *.
  destruct (Z.ltb_spec (coin_sum ins) (u64_saturating_add amt fee)) as [Hlt|Hge].
  { eexists. split; [done|]. right. exists m. split_and!; [done..|]. unfold u64_saturating_add in Hlt. lia. }
  assert (amt + fee ≤ coin_sum ins) as Hge'. { unfold u64_saturating_add in Hge. lia. }
  rewrite u64_sub_le by lia. simpl. case_bool.
  - destruct (commit_mass ins spk amt cs 0) as [m0|e] eqn:Em0; [|eexists; split; [reflexivity|by eexists]].
    eexists. split; [done|]. split; [done|]. split; simpl; [lia|done|by left|].
    exists m. split_and!; [done|unfold fee in *; lia|done|done].
  - apply orb_false_iff in E as [E1%Z.eqb_neq E2]. eexists. split; [done|]. split; [done|].
    split; simpl; [lia|done|right; split; [lia|done]|]. exists m. split_and!; [done|lia|intros; lia|done].
Qed.

(** The loop finds the first prefix that funds the commit. *)
Definition widened spk cs amt policy ins : Prop :=
  coin_sum ins ≤ amt ∨ ∃ m, amt < coin_sum ins ∧ commit_mass ins spk amt cs (coin_sum ins - amt) = Ok m ∧
    coin_sum ins < amt + commit_fee policy m.

Lemma take_nonempty {A} (l : list A) n : (1 ≤ n)%nat → (n ≤ length l)%nat → take n l ≠ [].
Proof. destruct l, n; simpl; try lia; done. Qed.

Lemma fund_loop_spec fuel sorted spk cs amt policy n :
  0 ≤ amt → policy_ok policy → coins_ok sorted → (1 ≤ n ≤ S (length sorted))%nat → (S (length sorted) < fuel + n)%nat →
  ∃ r, fund_loop fuel sorted spk cs amt policy n = Ret r ∧
    match r with
    | None => ∀ k, (n ≤ k ≤ length sorted)%nat → widened spk cs amt policy (take k sorted)
    | Some (Ok f) => ∃ k, (n ≤ k ≤ length sorted)%nat ∧ fc_inputs f = take k sorted ∧
        funded_ok spk cs amt policy f ∧ ∀ j, (n ≤ j < k)%nat → widened spk cs amt policy (take j sorted)
    | Some (Err e) => ∃ m, e = MassEval m
    end.
Proof.
  intros Ha Hp Hc. revert n. induction fuel as [|fuel IH]; intros n Hn Hf; simpl.
  - lia.
  - destruct (Nat.ltb_spec (length sorted) n) as [Hlt|Hge].
    { eexists. split; [done|]. intros k Hk. lia. }
    destruct (coins_take n sorted Hc) as [Hpos [_ Hsum]].
    destruct (fund_step_spec (take n sorted) spk cs amt policy) as (r & -> & Hr); try done.
    { apply take_nonempty; lia. }
    simpl. destruct r as [[f|e]|].
    + destruct Hr as [Hi Hr]. eexists. split; [done|]. exists n. split_and!; [lia..|done|done|]. lia.
    + eexists. split; [done|]. done.
    + destruct (IH (S n)) as (r & -> & Hr'); [lia..|]. eexists. split; [done|].
      assert (∀ j, (n ≤ j)%nat → (S n ≤ j)%nat ∨ j = n) as Hcase by lia.
      destruct r as [[f|e]|]; [|done|].
      * destruct Hr' as (k & Hk & Hi & Hok & Hw). exists k. split_and!; [lia..|done|done|].
        intros j Hj. destruct (Hcase j ltac:(lia)) as [?| ->]; [apply Hw; lia|done].
      * intros k Hk. destruct (Hcase k ltac:(lia)) as [?| ->]; [apply Hr'; lia|done].
Qed.

Lemma fund_commit_spec utxos spk cs amt policy : 0 ≤ amt → policy_ok policy → coins_ok utxos →
  ∃ r, fund_commit utxos spk cs amt policy = Ret r ∧
    ∀ f, r = Ok f → ∃ k, (1 ≤ k ≤ length (sort_utxos_desc utxos))%nat ∧ fc_inputs f = take k (sort_utxos_desc utxos) ∧
      funded_ok spk cs amt policy f ∧
      ∀ j, (1 ≤ j < k)%nat → widened spk cs amt policy (take j (sort_utxos_desc utxos)).
Proof.
  intros Ha Hp Hc. apply coins_ok_sort in Hc. unfold fund_commit. set (sorted := sort_utxos_desc utxos) in *.
  destruct (fund_loop_spec (S (length sorted)) sorted spk cs amt policy 1) as (r & -> & Hr); [done..|lia|lia|].
  destruct Hc as [Hpos Hsum]. rewrite sum_u64_Ret; [|by apply List.Forall_map|lia]. simpl. destruct r as [[f|e]|]; [|by eexists..].
  eexists. split; [done|]. by intros ? [= <-].
Qed.

(** ** Plans *)

Record plan_ok (utxos : list (TreasuryUtxo Script)) cs (cfg : CommitRevealConfig) (p : PlannedCommitReveal Script) : Prop := {
  pl_amount : commit_amount_sompi p = crc_commit_amount_sompi cfg;
  pl_balance : coin_sum (commit_inputs p) = commit_amount_sompi p + commit_change_sompi p + commit_fee_sompi p;
  pl_reveal : commit_amount_sompi p = reveal_return_sompi p + reveal_fee_sompi p;
  pl_floor : MIN_PAYOUT_OUTPUT_SOMPI ≤ reveal_return_sompi p;
  pl_inputs : commit_inputs p ≠ [] ∧ ∃ rest, commit_inputs p ++ rest ≡ₚ utxos;
  pl_change : commit_change_sompi p = 0 ∨
    0 < commit_change_sompi p ∧ is_change_dust (commit_change_sompi p) cs = false;
  pl_fits : effective (commit_mass_of p) ≤ MAINNET_MAX_BLOCK_MASS ∧ effective (reveal_mass p) ≤ MAINNET_MAX_BLOCK_MASS;
  pl_fee : ∃ gross, commit_mass (commit_inputs p) (commit_spk p) (commit_amount_sompi p) cs
      (coin_sum (commit_inputs p) - commit_amount_sompi p) = Ok gross ∧
    commit_fee (crc_fee_policy cfg) gross ≤ commit_fee_sompi p;
}.

Lemma reveal_return_Ok amt fee r : reveal_return amt fee = Ok r → amt = r + fee ∧ MIN_PAYOUT_OUTPUT_SOMPI ≤ r.
Proof.
  unfold reveal_return, u64_checked_sub. destruct (Z.leb_spec fee amt); [|done].
  destruct (Z.leb_spec MIN_PAYOUT_OUTPUT_SOMPI (amt - fee)); [|done]. intros [= <-]. lia.
Qed.

Lemma reveal_shape_fits redeem spk cs amt m : reveal_shape_mass redeem spk cs amt = Ok m →
  effective m ≤ MAINNET_MAX_BLOCK_MASS.
Proof.
  unfold reveal_shape_mass. destruct (reveal_signature_script _ _); [|done]. destruct (evaluate _ _) as [m'|]; [|done].
  destruct (fits_independently m' MAINNET_MAX_BLOCK_MASS) eqn:E; [|done]. intros [= <-]. by apply fits_independently_spec.
Qed.


(** ** Replaying frozen fees *)

(** Fees do not fall as coins are added. *)
Definition fees_monotone utxos spk cs (amt : Z) (rate : FeeRate) : Prop :=
  ∀ j k mj mk, (1 ≤ j ≤ k)%nat →
    commit_mass (take j (sort_utxos_desc utxos)) spk amt cs (coin_sum (take j (sort_utxos_desc utxos)) - amt) = Ok mj →
    commit_mass (take k (sort_utxos_desc utxos)) spk amt cs (coin_sum (take k (sort_utxos_desc utxos)) - amt) = Ok mk →
    fee_for rate mj ≤ fee_for rate mk.

(** One turn under the frozen fee of a funding found under an adaptive rate. *)
Lemma fund_step_frozen ins spk cs amt rate rf f : 0 ≤ amt → ins ≠ [] →
  Forall (λ x, 0 ≤ x) (map coin ins) → coin_sum ins < u64_max →
  fund_step ins spk cs amt (Adaptive rate) = Ret (Some (Ok f)) →
  fund_step ins spk cs amt (Frozen (fc_fee_sompi f) rf) = Ret (Some (Ok f)).
Proof.
  intros Ha Hne Hc Hs. unfold fund_step. rewrite sum_u64_Ret by (done || lia). simpl.
  change (sumZ (map coin ins)) with (coin_sum ins). destruct (Z.leb_spec (coin_sum ins) amt); [done|].
  rewrite !u64_sub_le by lia. simpl.
  destruct (commit_mass ins spk amt cs (coin_sum ins - amt)) as [m|e] eqn:Em; [|done].
  destruct (Z.ltb_spec (coin_sum ins) (u64_saturating_add amt (fee_for rate m))) as [|Hge]; [done|].
  assert (amt + fee_for rate m ≤ coin_sum ins) as Hge'. { unfold u64_saturating_add in Hge. lia. }
  rewrite u64_sub_le by lia. simpl. destruct ((_ =? 0) || _) eqn:Efold.
  - destruct (commit_mass ins spk amt cs 0) as [m0|e] eqn:Em0; [|done]. intros [= <-]. simpl.
    rewrite u64_saturating_add_exact by lia. rewrite (proj2 (Z.ltb_ge _ _)) by lia.
    rewrite u64_sub_le by lia. simpl. replace (_ - _ - _) with 0 by lia. done.
  - intros [= <-]. simpl. rewrite (proj2 (Z.ltb_ge _ _)) by done. rewrite u64_sub_le by lia. simpl.
    by rewrite Efold.
Qed.

Lemma fund_step_frozen_widens ins spk cs amt rate fee rf : 0 ≤ amt → ins ≠ [] →
  Forall (λ x, 0 ≤ x) (map coin ins) → coin_sum ins < u64_max →
  (∀ m, commit_mass ins spk amt cs (coin_sum ins - amt) = Ok m → fee_for rate m ≤ fee) →
  fund_step ins spk cs amt (Adaptive rate) = Ret None →
  fund_step ins spk cs amt (Frozen fee rf) = Ret None.
Proof.
  intros Ha Hne Hc Hs Hfee. unfold fund_step. rewrite sum_u64_Ret by (done || lia). simpl.
  change (sumZ (map coin ins)) with (coin_sum ins). destruct (Z.leb_spec (coin_sum ins) amt); [done|].
  rewrite !u64_sub_le by lia. simpl.
  destruct (commit_mass ins spk amt cs (coin_sum ins - amt)) as [m|e] eqn:Em; [|done].
  specialize (Hfee m eq_refl). destruct (Z.ltb_spec (coin_sum ins) (u64_saturating_add amt (fee_for rate m))) as [Hlt|Hge].
  - intros _. rewrite (proj2 (Z.ltb_lt _ _)); [done|]. unfold u64_saturating_add in *. lia.
  - assert (amt + fee_for rate m ≤ coin_sum ins) as Hge'. { unfold u64_saturating_add in Hge. lia. }
    rewrite u64_sub_le by lia. simpl. destruct ((_ =? 0) || _); [|done]. by destruct (commit_mass ins spk amt cs 0).
Qed.

Lemma fund_loop_frozen fuel sorted spk cs amt rate rf f n k :
  0 ≤ amt → coins_ok sorted → (1 ≤ n)%nat → (k ≤ length sorted)%nat → fc_inputs f = take k sorted →
  (∀ j m, (n ≤ j < k)%nat →
     commit_mass (take j sorted) spk amt cs (coin_sum (take j sorted) - amt) = Ok m → fee_for rate m ≤ fc_fee_sompi f) →
  fund_loop fuel sorted spk cs amt (Adaptive rate) n = Ret (Some (Ok f)) → (n ≤ k)%nat ∧
  fund_loop fuel sorted spk cs amt (Frozen (fc_fee_sompi f) rf) n = Ret (Some (Ok f)).
Proof.
  intros Ha Hc Hn Hk Hin. revert n Hn. induction fuel as [|fuel IH]; intros n Hn Hfee; simpl; [done|].
  destruct (Nat.ltb_spec (length sorted) n) as [|Hlen]; [done|].
  destruct (coins_take n sorted Hc) as [Hpos [_ Hsum]].
  assert (take n sorted ≠ []) as Hne by (apply take_nonempty; lia).
  destruct (fund_step_spec (take n sorted) spk cs amt (Adaptive rate) Ha (fee_for_nonneg rate) Hne Hpos Hsum)
    as (r & Hr & Hspec). rewrite Hr. simpl. destruct r as [r|].
  - intros [= ->]. rewrite (fund_step_frozen _ _ _ _ _ _ _ Ha Hne Hpos Hsum Hr). split; [|done].
    destruct Hspec as [Hin' _]. apply (f_equal length) in Hin'. rewrite Hin, !length_take in Hin'. lia.
  - intros H. destruct (IH (S n)) as [Hle Hloop]; [lia|intros j m Hj; apply Hfee; lia|done|].
    rewrite (fund_step_frozen_widens _ _ _ _ rate (fc_fee_sompi f) rf Ha Hne Hpos Hsum);
      [split; [lia|done]|intros m Hm; apply (Hfee n m); [lia|done]|done].
Qed.

Lemma fund_commit_frozen utxos spk cs amt rate rf f :
  0 ≤ amt → coins_ok utxos → fees_monotone utxos spk cs amt rate →
  fund_commit utxos spk cs amt (Adaptive rate) = Ret (Ok f) →
  fund_commit utxos spk cs amt (Frozen (fc_fee_sompi f) rf) = Ret (Ok f).
Proof.
  intros Ha Hc Hmono H. destruct (fund_commit_spec utxos spk cs amt (Adaptive rate) Ha (fee_for_nonneg rate) Hc)
    as (r & Hr & Hspec). rewrite H in Hr. injection Hr as <-.
  destruct (Hspec f eq_refl) as (k & Hk & Hin & Hf & _). unfold fund_commit in *.
  apply exec_bind_Ret in H as (av & -> & H). apply exec_bind_Ret in H as (r & Hloop & H).
  destruct r as [r|]; [injection H as ->|done].
  destruct (fund_loop_frozen (S (length (sort_utxos_desc utxos))) (sort_utxos_desc utxos) spk cs amt rate rf f 1 k)
    as [_ ->]; [done|by apply coins_ok_sort|lia|lia|done| |done|done].
  intros j m Hj Hm. destruct (fo_fee _ _ _ _ _ Hf) as (gross & Hg & Hle & _).
  etrans; [|exact Hle]. rewrite Hin in Hg. apply (Hmono j k); [lia|done|done].
Qed.

(** A frozen replay rebuilds the commit: planning again from the same coins with the fees of a plan
    made at a live rate gives that plan back, inputs, change and fees included, provided fees do not
    fall as coins are added. *)
Theorem frozen_replay_exact utxos cs transfer amt rate redeem p :
  coins_ok utxos → 0 ≤ amt → build_transfer_inscription transfer = Ok redeem →
  fees_monotone utxos (commit_script_public_key redeem) cs amt rate →
  plan_commit_reveal utxos cs transfer {| crc_commit_amount_sompi := amt; crc_fee_policy := Adaptive rate |}
    = Ret (Ok p) →
  plan_commit_reveal utxos cs transfer {| crc_commit_amount_sompi := amt;
    crc_fee_policy := Frozen (commit_fee_sompi p) (reveal_fee_sompi p) |} = Ret (Ok p).
Proof.
  intros Hc Ha Hi Hmono. unfold plan_commit_reveal. rewrite Hi. cbn [crc_commit_amount_sompi crc_fee_policy].
  destruct (reveal_shape_mass _ _ _ _) as [rm|e]; [|done].
  destruct (reveal_return amt _) as [ret|e] eqn:Eret; [|done]. intros (r & Hr & H)%exec_bind_Ret.
  destruct r as [f|e]; [|done]. destruct (negb _) eqn:Efit; [done|]. injection H as <-.
  cbn [commit_fee_sompi reveal_fee_sompi reveal_fee] in *. rewrite Eret.
  rewrite (fund_commit_frozen _ _ _ _ _ _ _ Ha Hc Hmono Hr). simpl. by rewrite Efit.
Qed.

(** ** Signing *)

Context `{!SignerOk Script} `{!TxIdOk Script}.

Lemma sign_commit_id (p : PlannedCommitReveal Script) cs s : sign_commit p cs = Ok s →
  commit_txid p cs = Ok (signed_txid s) ∧
  outputs (st_tx s) = commit_outputs (commit_spk p) (commit_amount_sompi p) cs (commit_change_sompi p) ∧
  map previous_outpoint (inputs (st_tx s)) = map outpoint (commit_inputs p).
Proof.
  unfold sign_commit, commit_txid. intros ([tx es] & Hb & H)%result_bind_Ok. rewrite Hb. simpl.
  destruct treasury_key_valid; [|done]. apply result_bind_Ok in H as (_ & _ & [= <-]).
  unfold signed_txid. simpl. rewrite <- (tx_id_strip (sign_inputs tx es)), sign_strip, tx_id_strip.
  split; [done|]. rewrite sign_outputs, sign_outpoints. unfold build_commit_unsigned in Hb.
  destruct (commit_inputs p) eqn:Ein; [done|]. destruct (existsb _ _); [done|]. injection Hb as <- _. simpl.
  split; [done|]. f_equal. by rewrite map_map.
Qed.

Lemma sign_reveal_id (p : PlannedCommitReveal Script) o cs s : sign_reveal p o cs = Ok s →
  signed_txid s = reveal_txid p o cs ∧
  outputs (st_tx s) = [{| value := reveal_return_sompi p; out_script := cs |}] ∧
  map previous_outpoint (inputs (st_tx s)) = [o].
Proof.
  unfold sign_reveal. destruct (negb _); [done|]. destruct (schnorr_signature _ _); [|done].
  destruct (pay_to_script_hash_signature_script _ _) as [sig|]; [|done]. simpl.
  intros (_ & _ & [= <-])%result_bind_Ok. unfold signed_txid, reveal_txid. simpl.
  split; [|done]. rewrite <- tx_id_strip. symmetry. rewrite <- tx_id_strip. done.
Qed.

(** What is recorded before a broadcast is what is broadcast: the ids of the commit and of the
    reveal computed from the unsigned transactions are the ids of the signed ones, and signing
    changes neither what they spend nor what they pay. *)
Theorem recorded_ids_are_final p o cs :
  (∀ s, sign_commit p cs = Ok s → commit_txid p cs = Ok (signed_txid s) ∧
     outputs (st_tx s) = commit_outputs (commit_spk p) (commit_amount_sompi p) cs (commit_change_sompi p) ∧
     map previous_outpoint (inputs (st_tx s)) = map outpoint (commit_inputs p)) ∧
  (∀ s, sign_reveal p o cs = Ok s → signed_txid s = reveal_txid p o cs ∧
     outputs (st_tx s) = [{| value := reveal_return_sompi p; out_script := cs |}] ∧
     map previous_outpoint (inputs (st_tx s)) = [o]).
Proof. split; intros s; [apply sign_commit_id|apply sign_reveal_id]. Qed.
End props.

(** ** A stand-in chain

    Compute mass by counting, storage mass by the KIP-9 formula with [C = 10^12], ids by hashing
    everything but signature scripts. *)

Module Chain.
Definition C : Z := 1000000000000.
Definition kip9 (tx : Transaction Z) (es : list (UtxoEntry Z)) : Z :=
  let outs := sumZ (map (λ o, C / value o) (outputs tx)) in
  let n_in := Z.of_nat (length es) in
  let n_out := Z.of_nat (length (outputs tx)) in
  let total := sumZ (map amount es) in
  let ins := if (n_in =? 1) || (n_out =? 1) || ((n_in =? 2) && (n_out =? 2))
             then sumZ (map (λ e, C / amount e) es) else n_in * (C / (total / n_in)) in
  Z.max 0 (outs - ins).

#[export] Instance calculator : MassCalculator Z := {
  calc_non_contextual_masses tx :=
    (1000 * Z.of_nat (length (inputs tx)) + 500 * Z.of_nat (length (outputs tx)),
     400 * Z.of_nat (length (inputs tx)));
  calc_contextual_masses tx es := Some (kip9 tx es);
  transaction_output_estimated_serialized_size _ := 52;
  MAINNET_MAX_BLOCK_MASS := 500000;
}.

Definition mix (h x : Z) : Z := (h * 1000003 + x) mod 2 ^ 61.
#[export] Instance signer : Signer Z := {
  TX_VERSION := 0;
  SUBNETWORK_ID_NATIVE := [];
  script_of_address s := Some (Z.of_nat (String.length s));
  treasury_key_valid := true;
  sign_inputs tx _ := tx;
  execute_input _ _ _ := true;
  tx_id tx := foldl mix 5 (map (λ i, transaction_id (previous_outpoint i)) (inputs tx) ++ map value (outputs tx)
                            ++ map out_script (outputs tx));
}.
#[export] Instance signer_ok : SignerOk Z.
Proof. by split. Qed.
#[export] Instance tx_id_ok : TxIdOk Z.
Proof. split; [|done]. intros tx. simpl. by rewrite map_map. Qed.

#[export] Instance scripts : ScriptLib Z := {
  Prefix := unit;
  OpCheckSig := 172; OpFalse := 0; OpIf := 99; OpEndIf := 104; SIG_HASH_ALL := 1;
  add_data d s := Some (s ++ [Z.of_nat (length d)] ++ d);
  add_op o s := Some (s ++ [o]);
  add_i64 n s := Some (s ++ [n]);
  json_string s := s;
  pay_to_script_hash_script s := foldl mix 7 s;
  pay_to_script_hash_signature_script r sig := Some (sig ++ r);
  extract_script_pub_key_address s _ := Some (PayoutRepo.show_u64 s);
  xonly_pubkey := replicate 32 2;
  schnorr_signature _ _ := Some (replicate 64 9);
}.

Definition coin_of (txid amt : Z) : TreasuryUtxo Z :=
  {| outpoint := {| transaction_id := txid; out_index := 0 |};
     entry := {| amount := amt; script_public_key := 7; block_daa_score := 0;
                 is_coinbase := false; covenant_id := None |} |}.
Definition transfer : Krc20Transfer := Krc20Transfer_new "NACHO" "2739726027397" "kaspa:aaaaaaaaaa".
Definition rate : FeeRate := from_feerate (f64_of_Z 30).

(** One large coin, or two small ones. *)
Definition rich : list (TreasuryUtxo Z) := [coin_of 100 3000000000].
Definition poor : list (TreasuryUtxo Z) := [coin_of 101 25000000; coin_of 102 10000000].

Definition config (policy : Krc20FeePolicy) : CommitRevealConfig :=
  {| crc_commit_amount_sompi := DEFAULT_COMMIT_AMOUNT_SOMPI; crc_fee_policy := policy |}.
Definition planned (utxos : list (TreasuryUtxo Z)) (policy : Krc20FeePolicy) : exec (result PlanError (PlannedCommitReveal Z)) :=
  plan_commit_reveal utxos 7 transfer (config policy).
Definition the_plan (utxos : list (TreasuryUtxo Z)) : PlannedCommitReveal Z :=
  match planned utxos (Adaptive rate) with
  | Ret (Ok p) => p
  | _ => {| redeem_script := []; commit_spk := 0; commit_amount_sompi := 0; commit_inputs := []; commit_change_sompi := 0;
            commit_fee_sompi := 0; commit_mass_of := {| compute_mass := 0; storage_mass := 0; transient_mass := 0 |};
            reveal_return_sompi := 0; reveal_fee_sompi := 0;
            reveal_mass := {| compute_mass := 0; storage_mass := 0; transient_mass := 0 |} |}
  end.
Definition replay (utxos : list (TreasuryUtxo Z)) : exec (result PlanError (PlannedCommitReveal Z)) :=
  planned utxos (Frozen (commit_fee_sompi (the_plan utxos)) (reveal_fee_sompi (the_plan utxos))).
End Chain.
Import Chain.

Lemma rich_coins_ok : coins_ok rich.
Proof. split; by_computation. Qed.


Lemma rich_fees redeem : fees_monotone rich (commit_script_public_key redeem) 7 DEFAULT_COMMIT_AMOUNT_SOMPI rate.
Proof.
  assert (∀ j, (1 ≤ j)%nat → take j (sort_utxos_desc rich) = rich) as Htake.
  { intros j Hj. apply take_ge. done. }
  intros j k mj mk Hjk. rewrite !Htake by lia. intros -> [= <-]. done.
Qed.

Lemma frozen_replay_exact_witness : replay rich = planned rich (Adaptive rate).
Proof.
  transitivity (Ret (Ok (E := PlanError) (the_plan rich))); [|by vm_compute].
  apply (frozen_replay_exact rich 7 transfer DEFAULT_COMMIT_AMOUNT_SOMPI rate (redeem_script (the_plan rich))).
  - exact rich_coins_ok.
  - by vm_compute.
  - by vm_compute.
  - apply rich_fees.
  - by vm_compute.
Defined.

Lemma recorded_ids_are_final_witness :
  ∃ s, sign_commit (the_plan rich) 7 = Ok s ∧ commit_txid (the_plan rich) 7 = Ok (signed_txid s).
Proof.
  destruct (sign_commit (the_plan rich) 7) as [s|e] eqn:E; [|vm_compute in E; discriminate].
  exists s. split; [done|]. by apply (recorded_ids_are_final (the_plan rich) (commit_p2sh_placeholder) 7).
Defined.

(** A frozen replay can fail to rebuild the commit: the first coin alone leaves a change so small
    that its storage mass prices it out at the live rate, so two coins are taken and their small fee
    is frozen; at that fee the first coin alone suffices, and the replay builds another commit. *)
Theorem frozen_replay_drifts :
  planned poor (Adaptive rate) = Ret (Ok (the_plan poor)) ∧
  length (commit_inputs (the_plan poor)) = 2%nat ∧
  match replay poor with
  | Ret (Ok p) => length (commit_inputs p) = 1%nat ∧ commit_txid p 7 ≠ commit_txid (the_plan poor) 7
  | _ => False
  end.
Proof. vm_compute. split_and!; by try reflexivity. Qed.
