(* ===== verification/Krc20Cycle.v ===== *)
(** * The KRC-20 cycle: planning, crediting, failing, reconciling

    payout-krc20/src/cycle.rs.  The floor-price source is behind a trait:
    its answer to a tick is a parameter. *)

From S2P Require Import Prelude Float64 Mass Fee Planner Db PayoutRepo PayoutSpec Effects KasCycle KasExecute.
From S2P Require Import Domain AccountRepo Rebate Krc20Plan.
Local Open Scope Z_scope.

Definition KRC20_AUDIT_ACTOR : string := "payout-krc20".
Definition DEFAULT_CYCLE_LIMIT : Z := 1000.
Definition DEFAULT_QUOTE_TICKER : string := "NACHO".

Inductive Krc20CycleError :=
| KCDb (e : DbError)
| KCQuote (e : QuoteError)
| KCRebate (e : RebateError)
| KCInscription (e : InscriptionError)
| KCAmountTooLarge (wallet_id nacho : Z)
| KCCommitAmount (commit_amount_sompi : Z).

Record Krc20CycleParams := {
  kp_daa_start : Z; kp_daa_end : Z; kp_min_pending_sompi : Z; kp_min_nacho_base_units : Z;
  kp_ticker : string; kp_commit_amount_sompi : Z; kp_limit : Z }.

Definition Krc20CycleParams_new (daa_start daa_end : Z) : Krc20CycleParams :=
  {| kp_daa_start := daa_start; kp_daa_end := daa_end; kp_min_pending_sompi := DEFAULT_MIN_PENDING_SOMPI;
     kp_min_nacho_base_units := DEFAULT_MIN_NACHO_BASE_UNITS; kp_ticker := DEFAULT_QUOTE_TICKER;
     kp_commit_amount_sompi := DEFAULT_COMMIT_AMOUNT_SOMPI; kp_limit := DEFAULT_CYCLE_LIMIT |}.

Record Krc20CycleState := { ks_cycle : PayoutCycle; ks_transfers : list Krc20PendingTransfer }.

Definition counts_step (c : PayoutStatusCounts) (k : Krc20PendingTransfer) : PayoutStatusCounts :=
  match kt_status k with
  | Pending => {| ct_total := ct_total c; ct_pending := ct_pending c + 1; ct_in_flight := ct_in_flight c;
                  ct_confirmed := ct_confirmed c; ct_failed := ct_failed c |}
  | CommitSubmitted | RevealSubmitted =>
      {| ct_total := ct_total c; ct_pending := ct_pending c; ct_in_flight := ct_in_flight c + 1;
         ct_confirmed := ct_confirmed c; ct_failed := ct_failed c |}
  | Completed => {| ct_total := ct_total c; ct_pending := ct_pending c; ct_in_flight := ct_in_flight c;
                    ct_confirmed := ct_confirmed c + 1; ct_failed := ct_failed c |}
  | TFailed => {| ct_total := ct_total c; ct_pending := ct_pending c; ct_in_flight := ct_in_flight c;
                  ct_confirmed := ct_confirmed c; ct_failed := ct_failed c + 1 |}
  end.

Definition counts_from_transfers (l : list Krc20PendingTransfer) : PayoutStatusCounts :=
  foldl counts_step
    {| ct_total := Z.of_nat (length l); ct_pending := 0; ct_in_flight := 0; ct_confirmed := 0; ct_failed := 0 |} l.

Definition krc20_derived_status (s : Krc20CycleState) : PayoutCycleStatus :=
  derive_cycle_status (counts_from_transfers (ks_transfers s)).

(** A transaction whose body has its own errors: an error rolls it back. *)
Definition transact_in {Script E A} (inj : DbError → E) (body : Z → Db → result E (A * Db)) : M Script E A := λ w,
  match w_replies w with
  | [] => (Crashed, w)
  | Refuse :: rs => (Done (Err (inj Connection)), world_replies rs w)
  | (Proceed now _ | Lost now _) as r :: rs =>
      match body now (w_db w) with
      | Ok (a, d) =>
          (match r with Lost _ _ => Done (Err (inj Connection)) | _ => Done (Ok a) end,
           world_db d (world_replies rs w))
      | Err e => (Done (Err e), world_replies rs w)
      end
  end.

(** [?] from a database error. *)
Definition db_try {A} (r : result DbError A) : result Krc20CycleError A := map_error KCDb r.

Section cycle.
Context {Script : Type} `{!ScriptLib Script}.
Variable prefix : Prefix.

(** One eligible wallet: convert, gate, inscribe, record; [None] is [continue]. *)
Definition plan_recipient (price : FloorPrice) (params : Krc20CycleParams) (commit_amount cycle_id now : Z)
    (wallet : Krc20EligibleWallet) (d : Db) : result Krc20CycleError (option Db) :=
  nacho ← map_error KCRebate (nacho_base_units (kre_pending_sompi wallet) price);
  if negb (is_payable nacho (kp_min_nacho_base_units params)) then Ok None
  else
    match i64_try_from nacho with
    | None => Err (KCAmountTooLarge (kre_wallet_id wallet) nacho)
    | Some nacho_amount =>
        let transfer := Krc20Transfer_new (kp_ticker params) (show_u64 nacho_amount) (kre_address wallet) in
        redeem ← map_error KCInscription (build_transfer_inscription transfer);
        p2sh ← map_error KCInscription (commit_address redeem prefix);
        '(payout, d) ← db_try (ensure_payout cycle_id (kre_wallet_id wallet) (kre_pending_sompi wallet) now d);
        '(_, d) ← db_try (ensure_krc20_pending (po_id payout) commit_amount nacho_amount p2sh now d);
        Ok (Some d)
    end.

Fixpoint plan_recipients20 (price : FloorPrice) (params : Krc20CycleParams) (commit_amount cycle_id now : Z)
    (ws : list Krc20EligibleWallet) (total_sompi recipients : Z) (d : Db) : result Krc20CycleError (Z * Z * Db) :=
  match ws with
  | [] => Ok (total_sompi, recipients, d)
  | w :: ws =>
      r ← plan_recipient price params commit_amount cycle_id now w d;
      match r with
      | None => plan_recipients20 price params commit_amount cycle_id now ws total_sompi recipients d
      | Some d => plan_recipients20 price params commit_amount cycle_id now ws
                    (i64_saturating_add total_sompi (kre_pending_sompi w)) (i32_saturating_add recipients 1) d
      end
  end.

(** The transaction of [plan_krc20_cycle]. *)
Definition plan_krc20_tx (price : FloorPrice) (params : Krc20CycleParams) (commit_amount now : Z) (d : Db)
    : result Krc20CycleError (Z * Db) :=
  '(cycle, d) ← db_try (create_cycle Krc20Nacho (kp_daa_start params) (kp_daa_end params) now d);
  eligible ← db_try (list_krc20_eligible_wallets (kp_min_pending_sompi params) (kp_limit params) d);
  '(total, recipients, d) ← plan_recipients20 price params commit_amount (pc_id cycle) now eligible 0 0 d;
  d ← db_try (set_cycle_totals (pc_id cycle) total recipients d);
  Ok (pc_id cycle, audit_append KRC20_AUDIT_ACTOR "krc20_cycle.plan" (Some ("payout_cycle"%string, pc_id cycle)) d).

Definition plan_krc20_cycle (quote : result QuoteError FloorPrice) (params : Krc20CycleParams)
    : M Script Krc20CycleError Krc20CycleState :=
  price ← lift_result (map_error KCQuote quote);
  commit_amount ← lift_result (ok_or (KCCommitAmount (kp_commit_amount_sompi params))
                                 (i64_try_from (kp_commit_amount_sompi params)));
  cycle_id ← transact_in KCDb (plan_krc20_tx price params commit_amount);
  cycle ← map_err KCDb (query (get_cycle cycle_id));
  transfers ← map_err KCDb (query (λ d, Ok (list_krc20_for_cycle cycle_id d)));
  mret {| ks_cycle := cycle; ks_transfers := transfers |}.

Definition resume_or_plan_krc20_cycle (quote : result QuoteError FloorPrice) (params : Krc20CycleParams)
    : M Script Krc20CycleError Krc20CycleState :=
  let key := idempotency_key Krc20Nacho (kp_daa_start params) (kp_daa_end params) in
  found ← map_err KCDb (query (λ d, Ok (find_cycle_by_idempotency_key key d)));
  match found with
  | Some cycle =>
      transfers ← map_err KCDb (query (λ d, Ok (list_krc20_for_cycle (pc_id cycle) d)));
      _ ← map_err KCDb (statement (λ _ d,
            Ok (audit_append KRC20_AUDIT_ACTOR "krc20_cycle.resume" (Some ("payout_cycle"%string, pc_id cycle)) d)));
      mret {| ks_cycle := cycle; ks_transfers := transfers |}
  | None => plan_krc20_cycle quote params
  end.
End cycle.

(** ** Crediting *)

Record CreditReport := { cr_credited : nat; cr_already_credited : nat; cr_paid_sompi : Z }.
Definition CreditReport_default : CreditReport := {| cr_credited := 0; cr_already_credited := 0; cr_paid_sompi := 0 |}.

(** The transaction per transfer: confirm once and pay, or roll back. *)
Definition credit_tx (payout_id wallet_id amount now : Z) (d : Db) : result DbError (bool * Db) :=
  '(fresh, d') ← confirm_krc20_payout_once payout_id now d;
  if (fresh : bool) then
    '(_, d') ← mark_paid wallet_id amount now d';
    Ok (true, audit_append KRC20_AUDIT_ACTOR "krc20.credit" (Some ("payout"%string, payout_id)) d')
  else Ok (false, d).

Section credit.
Context {Script : Type}.

Definition credit_transfer (transfer : Krc20PendingTransfer) (report : CreditReport)
    : M Script Krc20CycleError CreditReport :=
  row ← map_err KCDb (query (get_payout (kt_payout_id transfer)));
  fresh ← map_err KCDb (transact (credit_tx (kt_payout_id transfer) (po_wallet_id row) (po_amount_sompi row)));
  mret (if (fresh : bool)
        then {| cr_credited := S (cr_credited report); cr_already_credited := cr_already_credited report;
                cr_paid_sompi := i64_saturating_add (cr_paid_sompi report) (po_amount_sompi row) |}
        else {| cr_credited := cr_credited report; cr_already_credited := S (cr_already_credited report);
                cr_paid_sompi := cr_paid_sompi report |}).

Definition credit_completed_transfers (limit : Z) : M Script Krc20CycleError CreditReport :=
  completed ← map_err KCDb (query (λ d, Ok (list_krc20_by_status [Completed] limit d)));
  for_each completed CreditReport_default credit_transfer.

(** ** Failing and reconciling *)

Definition fail_tx (payout_id : Z) (reason : string) (now : Z) (d : Db) : result DbError Db :=
  d ← mark_krc20_failed payout_id now d;
  d ← mark_payout_failed payout_id reason d;
  Ok (audit_append KRC20_AUDIT_ACTOR "krc20.fail" (Some ("payout"%string, payout_id)) d).

Definition fail_krc20_transfer (payout_id : Z) (reason : string) : M Script Krc20CycleError unit :=
  map_err KCDb (statement (fail_tx payout_id reason)).

Definition reconcile_krc20_tx (cycle_id : Z) (derived : PayoutCycleStatus) (now : Z) (d : Db)
    : result DbError Db :=
  d ← match derived with
      | CPlanned => Ok d
      | CBroadcasting => mark_cycle_broadcasting cycle_id now d
      | CPartiallySettled =>
          d ← mark_cycle_broadcasting cycle_id now d; mark_cycle_partially_settled cycle_id d
      | CSettled => d ← mark_cycle_broadcasting cycle_id now d; mark_cycle_settled cycle_id now d
      | CFailed => mark_cycle_failed cycle_id d
      end;
  Ok (audit_append KRC20_AUDIT_ACTOR "krc20_cycle.reconcile" (Some ("payout_cycle"%string, cycle_id)) d).

Definition reconcile_krc20_cycle_status (cycle_id : Z) : M Script Krc20CycleError PayoutCycleStatus :=
  transfers ← map_err KCDb (query (λ d, Ok (list_krc20_for_cycle cycle_id d)));
  let derived := derive_cycle_status (counts_from_transfers transfers) in
  _ ← map_err KCDb (statement (reconcile_krc20_tx cycle_id derived));
  mret derived.
End credit.
