(* ===== verification/Krc20Execute.v ===== *)
(** * Executing KRC-20 transfers: the commit/reveal state machine and the engine

    payout-krc20/src/execute.rs and engine.rs.  A reply's [nv_treasury_utxos]
    answers whichever address the call names.  The label of a broadcast is
    the payout it belongs to and the output it pays. *)

From S2P Require Import Prelude Float64 Mass Fee Planner Db PayoutRepo PayoutSpec Effects KasCycle KasExecute.
From S2P Require Import Domain AccountRepo Rebate Krc20Plan Krc20Cycle.
Local Open Scope Z_scope.

Definition NACHO_TICK : string := "NACHO".

Inductive TransferStep :=
| CommitBroadcast | CommitRebroadcast | CommitPending | RevealBroadcast | RevealRebroadcast
| RevealPending | StepCompleted | NoChange.

Record SettleReport := {
  sr_commits_broadcast : nat; sr_reveals_broadcast : nat; sr_rebroadcasts : nat; sr_completed : nat;
  sr_pending : nat; sr_errors : list (Z * Z) }.

Definition SettleReport_default : SettleReport :=
  {| sr_commits_broadcast := 0; sr_reveals_broadcast := 0; sr_rebroadcasts := 0; sr_completed := 0;
     sr_pending := 0; sr_errors := [] |}.

Definition settle_add (c r b d p : nat) (e : list (Z * Z)) (s : SettleReport) : SettleReport :=
  {| sr_commits_broadcast := sr_commits_broadcast s + c; sr_reveals_broadcast := sr_reveals_broadcast s + r;
     sr_rebroadcasts := sr_rebroadcasts s + b; sr_completed := sr_completed s + d;
     sr_pending := sr_pending s + p; sr_errors := sr_errors s ++ e |}.

Definition record (s : SettleReport) (step : TransferStep) : SettleReport :=
  match step with
  | CommitBroadcast => settle_add 1 0 0 0 0 [] s
  | RevealBroadcast => settle_add 0 1 0 0 0 [] s
  | CommitRebroadcast | RevealRebroadcast => settle_add 0 0 1 0 0 [] s
  | StepCompleted => settle_add 0 0 0 1 0 [] s
  | CommitPending | RevealPending => settle_add 0 0 0 0 1 [] s
  | NoChange => s
  end.

Inductive Krc20ExecuteError :=
| KXDb (e : DbError)
| KXKaspad (e : KaspadError)
| KXPlan (e : PlanError)
| KXInscription (e : InscriptionError)
| KXSign (e : CommitSignError)
| KXKey
| KXAmount (payout_id : Z) (field : string) (value : Z)
| KXMissingHash (payout_id : Z) (kind : string)
| KXMissingFee (payout_id : Z) (kind : string)
| KXInscriptionMismatch (payout_id : Z) (stored rebuilt : string)
| KXCommitDrift (payout_id : Z) (recorded rebuilt : Hash)
| KXRevealDrift (payout_id : Z) (recorded rebuilt : Hash).

(** ** The sweep ledger *)

Record SweepLedger (Script : Type) := {
  consumed : list TransactionOutpoint; chained : list (TreasuryUtxo Script) }.
Arguments consumed {Script} _.
Arguments chained {Script} _.

Definition SweepLedger_default {Script} : SweepLedger Script := {| consumed := []; chained := [] |}.

Section ledger.
Context {Script : Type}.

Definition is_consumed (spent : list TransactionOutpoint) (u : TreasuryUtxo Script) : bool :=
  bool_decide (outpoint u ∈ spent).

Definition reconcile (l : SweepLedger Script) (utxos : list (TreasuryUtxo Script)) : list (TreasuryUtxo Script) :=
  match consumed l, chained l with
  | [], [] => utxos
  | _, _ => List.filter (λ u, negb (is_consumed (consumed l) u)) utxos ++ chained l
  end.

Definition note_commit (commit_id : Hash) (plan : PlannedCommitReveal Script) (treasury_script : Script)
    (l : SweepLedger Script) : SweepLedger Script :=
  let spent := map outpoint (commit_inputs plan) ++ consumed l in
  let kept := List.filter (λ u, negb (is_consumed spent u)) (chained l) in
  {| consumed := spent;
     chained := if 0 <? commit_change_sompi plan
                then kept ++ [{| outpoint := {| transaction_id := commit_id; out_index := COMMIT_CHANGE_OUTPUT_INDEX |};
                                 entry := {| amount := commit_change_sompi plan; script_public_key := treasury_script;
                                             block_daa_score := 0; is_coinbase := false; covenant_id := None |} |}]
                else kept |}.
End ledger.

(** ** One transfer *)

Record TransferCtx := {
  cx_fee_rate : FeeRate;
  cx_frozen_commit_fee : option Z;
  cx_frozen_reveal_fee : option Z;
  cx_inscription : Krc20Transfer;
  cx_commit_amount_sompi : Z;
  cx_payout_id : Z;
  cx_p2sh_address : string;
}.

Definition ctx_reveal_fee (ctx : TransferCtx) : result Krc20ExecuteError Z :=
  ok_or (KXMissingFee (cx_payout_id ctx) "reveal") (cx_frozen_reveal_fee ctx).

Definition frozen_policy (ctx : TransferCtx) : result Krc20ExecuteError Krc20FeePolicy :=
  c ← ok_or (KXMissingFee (cx_payout_id ctx) "commit") (cx_frozen_commit_fee ctx);
  r ← ctx_reveal_fee ctx;
  Ok (Frozen c r).

Definition opt_fee (value : option Z) (payout_id : Z) (field : string) : result Krc20ExecuteError (option Z) :=
  match value with
  | None => Ok None
  | Some v => match u64_try_from v with Some u => Ok (Some u) | None => Err (KXAmount payout_id field v) end
  end.

(** A recorded hash is stored as 32 bytes by construction, so it is never malformed here. *)
Definition recorded_txid (hash : option Hash) (payout_id : Z) (kind : string) : result Krc20ExecuteError Hash :=
  ok_or (KXMissingHash payout_id kind) hash.

(** The intent transactions: fees, hash and state in one. *)
Definition record_commit_tx (payout_id commit_fee reveal_fee : Z) (h : Hash) (now : Z) (d : Db) : result DbError Db :=
  d ← record_krc20_fees payout_id commit_fee reveal_fee now d;
  d ← record_krc20_commit_hash payout_id h d;
  mark_krc20_commit_submitted payout_id now d.
Definition record_reveal_tx (payout_id : Z) (h : Hash) (now : Z) (d : Db) : result DbError Db :=
  d ← record_krc20_reveal_hash payout_id h d;
  mark_krc20_reveal_submitted payout_id now d.

Section execute.
Context {Script : Type} `{!MassCalculator Script} `{!Signer Script} `{!ScriptLib Script}.
Variable treasury_script : Script.
Variable prefix : Prefix.

Definition fetch_spendable_utxos : M Script Krc20ExecuteError (list (TreasuryUtxo Script)) :=
  virtual_daa ← map_err KXKaspad virtual_daa_score;
  protected ← map_err KXDb (query (λ d, Ok (in_flight_spend_tx_hashes d)));
  snapshots ← map_err KXKaspad treasury_utxos;
  mret (spendable_utxos virtual_daa protected snapshots).

Definition plan_from_utxos (ctx : TransferCtx) (utxos : list (TreasuryUtxo Script)) (policy : Krc20FeePolicy)
    : M Script Krc20ExecuteError (PlannedCommitReveal Script) :=
  r ← lift_exec (plan_commit_reveal utxos treasury_script (cx_inscription ctx)
        {| crc_commit_amount_sompi := cx_commit_amount_sompi ctx; crc_fee_policy := policy |});
  lift_result (map_error KXPlan r).

Definition verify_p2sh (ctx : TransferCtx) (plan : PlannedCommitReveal Script) : result Krc20ExecuteError unit :=
  rebuilt ← map_error KXInscription (commit_address (redeem_script plan) prefix);
  if bool_decide (rebuilt = cx_p2sh_address ctx) then Ok tt
  else Err (KXInscriptionMismatch (cx_payout_id ctx) (cx_p2sh_address ctx) rebuilt).

(** The labels of the two transactions. *)
Definition commit_label (ctx : TransferCtx) (plan : PlannedCommitReveal Script) : list (PayoutRecipient Script) :=
  [{| rid := cx_payout_id ctx; amount_sompi := commit_amount_sompi plan; recipient_script := commit_spk plan |}].
Definition reveal_label (ctx : TransferCtx) (plan : PlannedCommitReveal Script) : list (PayoutRecipient Script) :=
  [{| rid := cx_payout_id ctx; amount_sompi := reveal_return_sompi plan; recipient_script := treasury_script |}].

(** The part of [handle_pending] before the ledger changes. *)
Definition prepare_commit (ctx : TransferCtx) (ledger : SweepLedger Script)
    : M Script Krc20ExecuteError (PlannedCommitReveal Script * SignedTx Script) :=
  utxos ← fetch_spendable_utxos;
  plan ← plan_from_utxos ctx (reconcile ledger utxos) (Adaptive (cx_fee_rate ctx));
  _ ← lift_result (verify_p2sh ctx plan);
  signed ← lift_result (map_error KXSign (sign_commit plan treasury_script));
  mret (plan, signed).

(** The part after it: record the intent, then broadcast. *)
Definition broadcast_commit (ctx : TransferCtx) (plan : PlannedCommitReveal Script) (signed : SignedTx Script)
    (mode : ExecutionMode) : M Script Krc20ExecuteError TransferStep :=
  if is_dry_run mode then mret NoChange
  else
    commit_fee ← lift_result (ok_or (KXAmount (cx_payout_id ctx) "commit_fee_sompi" i64_max)
                                (i64_try_from (commit_fee_sompi plan)));
    reveal_fee ← lift_result (ok_or (KXAmount (cx_payout_id ctx) "reveal_fee_sompi" i64_max)
                                (i64_try_from (reveal_fee_sompi plan)));
    _ ← map_err KXDb (statement (record_commit_tx (cx_payout_id ctx) commit_fee reveal_fee (signed_txid signed)));
    _ ← map_err KXKaspad (submit_transaction {| bc_payouts := commit_label ctx plan; bc_tx := st_tx signed |});
    mret CommitBroadcast.

(** [handle_pending]: the ledger is updated as soon as the commit is signed, whatever follows. *)
Definition handle_pending {E} (ctx : TransferCtx) (ledger : SweepLedger Script) (mode : ExecutionMode)
    : M Script E (result Krc20ExecuteError TransferStep * SweepLedger Script) :=
  prepared ← attempt (prepare_commit ctx ledger);
  match prepared with
  | Err e => mret (Err e, ledger)
  | Ok (plan, signed) =>
      let ledger := note_commit (signed_txid signed) plan treasury_script ledger in
      r ← attempt (broadcast_commit ctx plan signed mode);
      mret (r, ledger)
  end.

Definition broadcast_reveal (ctx : TransferCtx) (plan : PlannedCommitReveal Script) (o : TransactionOutpoint)
    (mode : ExecutionMode) : M Script Krc20ExecuteError TransferStep :=
  signed ← lift_result (map_error KXSign (sign_reveal plan o treasury_script));
  if is_dry_run mode then mret NoChange
  else
    _ ← map_err KXDb (statement (record_reveal_tx (cx_payout_id ctx) (signed_txid signed)));
    _ ← map_err KXKaspad (submit_transaction {| bc_payouts := reveal_label ctx plan; bc_tx := st_tx signed |});
    mret RevealBroadcast.

Definition p2sh_outpoint (commit_id : Hash) : TransactionOutpoint :=
  {| transaction_id := commit_id; out_index := COMMIT_P2SH_OUTPUT_INDEX |}.

Definition handle_commit_submitted (ctx : TransferCtx) (row : Payout) (mode : ExecutionMode)
    : M Script Krc20ExecuteError TransferStep :=
  recorded ← lift_result (recorded_txid (po_krc20_commit_hash row) (cx_payout_id ctx) "commit");
  fee ← lift_result (ctx_reveal_fee ctx);
  reveal_plan ← lift_result (map_error KXPlan (reveal_only (cx_inscription ctx) (cx_commit_amount_sompi ctx) fee));
  _ ← lift_result (map_error KXInscription (commit_address (redeem_script reveal_plan) prefix));
  let o := p2sh_outpoint recorded in
  virtual_daa ← map_err KXKaspad virtual_daa_score;
  p2sh_utxos ← map_err KXKaspad treasury_utxos;
  match List.find (λ s : TreasuryUtxo Script, outpoint_eqb (outpoint s) o) p2sh_utxos with
  | Some s =>
      if is_spendable (block_daa_score (entry s)) (is_coinbase (entry s)) virtual_daa
      then broadcast_reveal ctx reveal_plan o mode
      else mret CommitPending
  | None =>
      in_mempool ← map_err KXKaspad (transaction_in_mempool recorded);
      if (in_mempool : bool) then mret CommitPending
      else if is_dry_run mode then mret NoChange
      else
        utxos ← fetch_spendable_utxos;
        policy ← lift_result (frozen_policy ctx);
        plan ← plan_from_utxos ctx utxos policy;
        rebuilt ← lift_result (map_error KXSign (commit_txid plan treasury_script));
        if negb (rebuilt =? recorded) then throw (KXCommitDrift (cx_payout_id ctx) recorded rebuilt)
        else
          signed ← lift_result (map_error KXSign (sign_commit plan treasury_script));
          _ ← map_err KXKaspad (submit_transaction {| bc_payouts := commit_label ctx plan; bc_tx := st_tx signed |});
          mret CommitRebroadcast
  end.

Definition handle_reveal_submitted (ctx : TransferCtx) (row : Payout) (mode : ExecutionMode)
    : M Script Krc20ExecuteError TransferStep :=
  recorded ← lift_result (recorded_txid (po_krc20_reveal_hash row) (cx_payout_id ctx) "reveal");
  virtual_daa ← map_err KXKaspad virtual_daa_score;
  utxos ← map_err KXKaspad treasury_utxos;
  let on_chain := (λ s : TreasuryUtxo Script, block_daa_score (entry s)) <$>
                    List.find (λ s : TreasuryUtxo Script, transaction_id (outpoint s) =? recorded) utxos in
  in_mempool ← match on_chain with
               | Some _ => mret false
               | None => map_err KXKaspad (transaction_in_mempool recorded)
               end;
  match classify_confirmation {| ci_virtual_daa_score := virtual_daa; ci_in_mempool := in_mempool;
          ci_change_block_daa_score := on_chain; ci_recorded_accept_daa := None |} with
  | ConfConfirmed =>
      if is_dry_run mode then mret NoChange
      else
        _ ← map_err KXDb (statement (mark_krc20_completed (cx_payout_id ctx)));
        mret StepCompleted
  | ConfAccepted | ConfPending => mret RevealPending
  | ConfUnknown =>
      if is_dry_run mode then mret NoChange
      else
        commit_recorded ← lift_result (recorded_txid (po_krc20_commit_hash row) (cx_payout_id ctx) "commit");
        fee ← lift_result (ctx_reveal_fee ctx);
        reveal_plan ← lift_result (map_error KXPlan (reveal_only (cx_inscription ctx) (cx_commit_amount_sompi ctx) fee));
        let o := p2sh_outpoint commit_recorded in
        let rebuilt := reveal_txid reveal_plan o treasury_script in
        if negb (rebuilt =? recorded) then throw (KXRevealDrift (cx_payout_id ctx) recorded rebuilt)
        else
          signed ← lift_result (map_error KXSign (sign_reveal reveal_plan o treasury_script));
          _ ← map_err KXKaspad (submit_transaction {| bc_payouts := reveal_label ctx reveal_plan; bc_tx := st_tx signed |});
          mret RevealRebroadcast
  end.

(** Build the context of a transfer. *)
Definition transfer_ctx (fee_rate : FeeRate) (transfer : Krc20PendingTransfer)
    : M Script Krc20ExecuteError (TransferCtx * Payout) :=
  if negb treasury_key_valid then throw KXKey
  else
    row ← map_err KXDb (query (get_payout (kt_payout_id transfer)));
    recipient ← map_err KXDb (query (wallet_get_by_id (po_wallet_id row)));
    nacho_amount ← lift_result (ok_or (KXAmount (kt_payout_id transfer) "nacho_amount" (kt_nacho_amount transfer))
                                  (u64_try_from (kt_nacho_amount transfer)));
    commit_amount ← lift_result (ok_or (KXAmount (kt_payout_id transfer) "sompi_to_miner" (kt_sompi_to_miner transfer))
                                   (u64_try_from (kt_sompi_to_miner transfer)));
    commit_fee ← lift_result (opt_fee (kt_commit_fee_sompi transfer) (kt_payout_id transfer) "commit");
    reveal_fee ← lift_result (opt_fee (kt_reveal_fee_sompi transfer) (kt_payout_id transfer) "reveal");
    mret ({| cx_fee_rate := fee_rate; cx_frozen_commit_fee := commit_fee; cx_frozen_reveal_fee := reveal_fee;
             cx_inscription := Krc20Transfer_new NACHO_TICK (show_u64 nacho_amount) (w_address recipient);
             cx_commit_amount_sompi := commit_amount; cx_payout_id := kt_payout_id transfer;
             cx_p2sh_address := kt_p2sh_address transfer |}, row).

(** A handler that leaves the ledger alone. *)
Definition keep_ledger {E A} (ledger : SweepLedger Script) (m : M Script Krc20ExecuteError A)
    : M Script E (result Krc20ExecuteError A * SweepLedger Script) :=
  r ← attempt m; mret (r, ledger).

Definition advance_transfer_inner {E} (fee_rate : FeeRate) (ledger : SweepLedger Script)
    (transfer : Krc20PendingTransfer) (mode : ExecutionMode)
    : M Script E (result Krc20ExecuteError TransferStep * SweepLedger Script) :=
  match kt_status transfer with
  | Completed | TFailed => mret (Ok NoChange, ledger)
  | Pending =>
      r ← attempt (transfer_ctx fee_rate transfer);
      match r with
      | Err e => mret (Err e, ledger)
      | Ok (ctx, _) => handle_pending ctx ledger mode
      end
  | CommitSubmitted =>
      keep_ledger ledger ('(ctx, row) ← transfer_ctx fee_rate transfer; handle_commit_submitted ctx row mode)
  | RevealSubmitted =>
      keep_ledger ledger ('(ctx, row) ← transfer_ctx fee_rate transfer; handle_reveal_submitted ctx row mode)
  end.

Definition settle_one (fee_rate : FeeRate) (mode : ExecutionMode) (transfer : Krc20PendingTransfer)
    (s : SettleReport * SweepLedger Script) : M Script Krc20ExecuteError (SettleReport * SweepLedger Script) :=
  '(r, ledger) ← advance_transfer_inner fee_rate s.2 transfer mode;
  mret (match r with
        | Ok step => record s.1 step
        | Err _ => settle_add 0 0 0 0 0 [(kt_id transfer, kt_payout_id transfer)] s.1
        end, ledger).

Definition settle_pending (limit : Z) (mode : ExecutionMode) : M Script Krc20ExecuteError SettleReport :=
  transfers ← map_err KXDb (query (λ d, Ok (list_krc20_by_status [Pending; CommitSubmitted; RevealSubmitted] limit d)));
  estimate ← attempt fee_estimate_sompi_per_gram;
  let fee_rate := match estimate with
                  | Ok feerate => from_feerate feerate
                  | Err _ => from_feerate f64_zero
                  end in
  s ← for_each transfers (SettleReport_default, SweepLedger_default) (settle_one fee_rate mode);
  mret s.1.

(** ** engine.rs *)

Inductive Krc20EngineError :=
| KGDb (e : DbError)
| KGCycle (e : Krc20CycleError)
| KGExecute (e : Krc20ExecuteError)
| KGKaspad (e : KaspadError)
| KGKey
| KGSpanTooSmall (span depth : Z)
| KGSpendCapExceeded (total cap : Z).

Record Krc20PayoutEngineConfig := {
  kg_cycle_span_daa : Z; kg_mode : ExecutionMode; kg_min_pending_sompi : Z; kg_min_nacho_base_units : Z;
  kg_ticker : string; kg_commit_amount_sompi : Z; kg_batch_limit : Z;
  kg_max_nacho_base_units_per_cycle : option Z }.

Definition cycle_params (c : Krc20PayoutEngineConfig) (daa_start daa_end : Z) : Krc20CycleParams :=
  {| kp_daa_start := daa_start; kp_daa_end := daa_end; kp_min_pending_sompi := kg_min_pending_sompi c;
     kp_min_nacho_base_units := kg_min_nacho_base_units c; kp_ticker := kg_ticker c;
     kp_commit_amount_sompi := kg_commit_amount_sompi c; kp_limit := kg_batch_limit c |}.

Record Krc20TickReport := {
  kr_cycle_id : Z; kr_virtual_daa : Z; kr_daa_start : Z; kr_daa_end : Z;
  kr_settle : SettleReport; kr_credit : CreditReport; kr_status : PayoutCycleStatus }.

Inductive Krc20TickOutcome := KSkippedNotLeader | KRan (r : Krc20TickReport).

Definition krc20_engine_new (c : Krc20PayoutEngineConfig) : result Krc20EngineError Krc20PayoutEngineConfig :=
  if kg_cycle_span_daa c <=? KAS_PAYOUT_CONFIRMATION_DAA
  then Err (KGSpanTooSmall (kg_cycle_span_daa c) KAS_PAYOUT_CONFIRMATION_DAA) else Ok c.

Definition outbound_nacho (s : Krc20CycleState) : Z :=
  foldl i64_saturating_add 0
    (map kt_nacho_amount (List.filter (λ k, negb (bool_decide (kt_status k = TFailed))) (ks_transfers s))).

Definition krc20_run_locked (config : Krc20PayoutEngineConfig) (quote : result QuoteError FloorPrice)
    : M Script Krc20EngineError Krc20TickOutcome :=
  if negb treasury_key_valid then throw KGKey
  else
    virtual_daa ← map_err KGKaspad virtual_daa_score;
    let '(daa_start, daa_end) := cycle_window virtual_daa (kg_cycle_span_daa config) in
    state ← map_err KGCycle (resume_or_plan_krc20_cycle prefix quote (cycle_params config daa_start daa_end));
    let cycle_id := pc_id (ks_cycle state) in
    let outbound := outbound_nacho state in
    if over_spend_cap outbound (kg_max_nacho_base_units_per_cycle config) then
      throw (KGSpendCapExceeded outbound (default 0 (kg_max_nacho_base_units_per_cycle config)))
    else
      settle ← map_err KGExecute (settle_pending (kg_batch_limit config) (kg_mode config));
      credit ← (if is_dry_run (kg_mode config) then mret CreditReport_default
                else map_err KGCycle (credit_completed_transfers (kg_batch_limit config)));
      status ← map_err KGCycle (reconcile_krc20_cycle_status cycle_id);
      mret (KRan {| kr_cycle_id := cycle_id; kr_virtual_daa := virtual_daa; kr_daa_start := daa_start;
                    kr_daa_end := daa_end; kr_settle := settle; kr_credit := credit; kr_status := status |}).

(** The bounded wait for the lock: [polls] attempts fit before the deadline. *)
Fixpoint acquire_treasury_lock (polls : nat) : M Script DbError bool :=
  leader ← try_acquire;
  if (leader : bool) then mret true
  else match polls with
       | O => mret false
       | S polls => acquire_treasury_lock polls
       end.

Definition krc20_run_once (config : Krc20PayoutEngineConfig) (quote : result QuoteError FloorPrice) (polls : nat)
    : M Script Krc20EngineError Krc20TickOutcome :=
  leader ← map_err KGDb (acquire_treasury_lock polls);
  if (leader : bool) then
    outcome ← attempt (krc20_run_locked config quote);
    _ ← attempt (query (λ _, Ok tt));
    lift_result outcome
  else mret KSkippedNotLeader.
End execute.
