(* ===== verification/Krc20Spec.v ===== *)
(** * What a KRC-20 tick may do

    [kstep]: the atomic effects of the engine of payout-krc20 as a step
    relation on the database and the wire, each with the state it requires.
    [krc20_tick_refines]: a tick, wherever it stops, is a sequence of them. *)

From S2P Require Import Prelude Float64 Mass Fee Planner Db PayoutRepo PayoutSpec Effects KasCycle KasExecute.
From S2P Require Import Domain AccountRepo Rebate Krc20Plan Krc20PlanProps Krc20Cycle Krc20Execute.
Local Open Scope Z_scope.

Section spec.
Context {Script : Type} `{!MassCalculator Script} `{!Signer Script} `{!ScriptLib Script}.
Context `{!SignerOk Script} `{!TxIdOk Script}.
Context (treasury_script : Script) (prefix : Prefix).
Implicit Types (w : World Script) (d : Db) (b : Broadcast Script).

(** ** The step relation *)

Definition has_transfer d (i : Z) (st : Krc20TransferStatus) : Prop :=
  ∃ k, k ∈ transfers d ∧ kt_payout_id k = i ∧ kt_status k = st.

(** The redeem script of the transfer of payout [i], and the sompi it locks. *)
Definition inscribed d (i : Z) (redeem : list Z) (locked : Z) : Prop :=
  ∃ k p wal, k ∈ transfers d ∧ kt_payout_id k = i ∧ kt_sompi_to_miner k = locked ∧
    get_payout i d = Ok p ∧ wallet_get_by_id (po_wallet_id p) d = Ok wal ∧
    build_transfer_inscription (Krc20Transfer_new NACHO_TICK (show_u64 (kt_nacho_amount k)) (w_address wal))
      = Ok redeem.

(** A commit of payout [i]: it locks the recorded amount behind the inscription that pays the
    recorded tokens to the payout's wallet; the rest is treasury change. *)
Definition is_commit d (i : Z) b : Prop :=
  map rid (bc_payouts b) = [i] ∧ ∃ redeem locked change, inscribed d i redeem locked ∧
    outputs (bc_tx b) = commit_outputs (commit_script_public_key redeem) locked treasury_script change.

(** A reveal of payout [i]: it spends the output of commit [c] back to the treasury. *)
Definition is_reveal d (i : Z) (c : Hash) b : Prop :=
  map rid (bc_payouts b) = [i] ∧ map previous_outpoint (inputs (bc_tx b)) = [p2sh_outpoint c] ∧
  ∃ redeem locked fee, inscribed d i redeem locked ∧ MIN_PAYOUT_OUTPUT_SOMPI ≤ locked - fee ∧
    outputs (bc_tx b) = [{| value := locked - fee; out_script := treasury_script |}].

Definition commit_recorded d (i : Z) (h : Hash) : Prop :=
  ∃ p, p ∈ payouts d ∧ po_id p = i ∧ po_krc20_commit_hash p = Some h.
Definition reveal_recorded d (i : Z) (c h : Hash) : Prop :=
  ∃ p, p ∈ payouts d ∧ po_id p = i ∧ po_krc20_commit_hash p = Some c ∧ po_krc20_reveal_hash p = Some h.

Definition kstate : Type := Db * list (Broadcast Script).

Inductive kstep : kstate → kstate → Prop :=
| k_plan price params commit_amount now cid d d' sent :
    find_cycle_by_idempotency_key
      (idempotency_key Krc20Nacho (kp_daa_start params) (kp_daa_end params)) d = None →
    plan_krc20_tx prefix price params commit_amount now d = Ok (cid, d') → kstep (d, sent) (d', sent)
| k_audit actor action subject d sent : kstep (d, sent) (audit_append actor action subject d, sent)
| k_record_commit i cf rf h now d d' sent : has_transfer d i Pending →
    record_commit_tx i cf rf h now d = Ok d' → kstep (d, sent) (d', sent)
| k_send_commit i b d sent : has_transfer d i CommitSubmitted → commit_recorded d i (tx_id (bc_tx b)) →
    is_commit d i b → kstep (d, sent) (d, sent ++ [b])
| k_record_reveal i c h now d d' sent : has_transfer d i CommitSubmitted → commit_recorded d i c →
    record_reveal_tx i h now d = Ok d' → kstep (d, sent) (d', sent)
| k_send_reveal i c b d sent : has_transfer d i RevealSubmitted → reveal_recorded d i c (tx_id (bc_tx b)) →
    is_reveal d i c b → kstep (d, sent) (d, sent ++ [b])
| k_complete i now d d' sent : has_transfer d i RevealSubmitted →
    mark_krc20_completed i now d = Ok d' → kstep (d, sent) (d', sent)
| k_credit i p fresh now d d' sent : has_transfer d i Completed → get_payout i d = Ok p →
    credit_tx i (po_wallet_id p) (po_amount_sompi p) now d = Ok (fresh, d') → kstep (d, sent) (d', sent)
| k_reconcile cid status now d d' sent :
    reconcile_krc20_tx cid status now d = Ok d' → kstep (d, sent) (d', sent).

(** ** Following a tick *)

Context (s0 : kstate).

(** Reached by steps, the rows still to visit being as they were listed. *)
Definition follows (rest : list Krc20PendingTransfer) w : Prop :=
  rtc kstep s0 (w_db w, w_sent w) ∧ ∀ k, k ∈ rest → k ∈ transfers (w_db w).

Lemma follows_closed rest : suffix_closed (follows rest).
Proof. by intros w r rs _. Qed.
Hint Resolve follows_closed : core.

Lemma follows_step rest w d : follows rest w → kstep (w_db w, w_sent w) (d, w_sent w) →
  (∀ k, k ∈ rest → k ∈ transfers d) → follows rest (world_db d w).
Proof. intros [Hr _] Hs Hk. split; [|done]. by eapply rtc_r. Qed.

Lemma follows_send rest w b : follows rest w → kstep (w_db w, w_sent w) (w_db w, w_sent w ++ [b]) →
  follows rest (world_send b w).
Proof. intros [Hr Hk] Hs. split; [|done]. by eapply rtc_r. Qed.

Lemma wp_transact_in {E A} I (inj : DbError → E) (body : Z → Db → result E (A * Db))
    (Q : A → World Script → Prop) w : suffix_closed I → I w →
  (∀ now a d rs, body now (w_db w) = Ok (a, d) →
     I (world_db d (world_replies rs w)) ∧ Q a (world_db d (world_replies rs w))) →
  wp I (transact_in inj body) Q w.
Proof.
  intros HI Hw HQ. unfold wp, transact_in.
  destruct (w_replies w) as [|r rs] eqn:Er; [by split|]. pose proof (HI w r rs Er Hw) as Hrs.
  destruct r as [now v| |now v]; simpl; [|by split|].
  all: destruct (body now (w_db w)) as [[a d]|e] eqn:Eb; simpl; [|by split].
  all: destruct (HQ now a d rs Eb); split; try done.
  by intros ? [= <-].
Qed.

(** *** What the updates of one transfer leave alone *)

Lemma update_transfers_elem p f d d' k : update_transfers p f d = Ok d' → k ∈ transfers d →
  (if p k then f k else k) ∈ transfers d'.
Proof.
  intros (l & [-> _]%update_checked_Ok & [= <-])%result_bind_Ok Hk. simpl.
  apply elem_of_update_where. by exists k.
Qed.

Lemma update_transfers_frame p f d d' : update_transfers p f d = Ok d' → ∃ l, d' = set_transfers l d.
Proof. intros (l & _ & [= <-])%result_bind_Ok. by exists l. Qed.

Lemma update_payouts_frame p f d d' : update_payouts p f d = Ok d' → ∃ l, d' = set_payouts l d.
Proof. intros (l & _ & [= <-])%result_bind_Ok. by exists l. Qed.

Lemma update_payouts_get p f d d' i : update_payouts p f d = Ok d' → (∀ x, po_id (f x) = po_id x) →
  get_payout i d' = q ← get_payout i d; Ok (if p q then f q else q).
Proof.
  intros (l & [-> _]%update_checked_Ok & [= <-])%result_bind_Ok Hf. unfold get_payout. simpl.
  rewrite find_update_where by (intros x; by rewrite Hf). by destruct (List.find _ _).
Qed.

Lemma get_payout_Ok i d p : get_payout i d = Ok p → p ∈ payouts d ∧ po_id p = i.
Proof.
  unfold get_payout. destruct (List.find _ _) as [q|] eqn:F; [|done]. intros [= ->].
  apply find_Some in F as [? ?]. split; [done|lia].
Qed.
(** One transfer moved to [st] with its payout updated by [g], the rest as it was. *)
Definition moves (i : Z) (from st : Krc20TransferStatus) (hashes : Payout → option Hash * option Hash) d d' : Prop :=
  wallets d' = wallets d ∧
  (∀ k, k ∈ transfers d → kt_payout_id k ≠ i → k ∈ transfers d') ∧
  (∀ k, k ∈ transfers d → kt_payout_id k = i → kt_status k = from → ∃ k', k' ∈ transfers d' ∧
     kt_payout_id k' = i ∧ kt_status k' = st ∧ kt_sompi_to_miner k' = kt_sompi_to_miner k ∧
     kt_nacho_amount k' = kt_nacho_amount k) ∧
  (∀ p, get_payout i d = Ok p → ∃ p', get_payout i d' = Ok p' ∧ po_wallet_id p' = po_wallet_id p ∧
     (po_krc20_commit_hash p', po_krc20_reveal_hash p') = hashes p).

Lemma record_commit_moves i cf rf h now d d' : record_commit_tx i cf rf h now d = Ok d' →
  moves i Pending CommitSubmitted (λ p, (Some h, po_krc20_reveal_hash p)) d d'.
Proof.
  intros (d1 & H1 & (d2 & H2 & H3)%result_bind_Ok)%result_bind_Ok.
  pose proof (update_transfers_frame _ _ _ _ H1) as (l1 & E1).
  pose proof (update_payouts_frame _ _ _ _ H2) as (l2 & E2).
  pose proof (update_transfers_frame _ _ _ _ H3) as (l3 & E3).
  assert (Hk : ∀ k, k ∈ transfers d → ∃ k1, k1 ∈ transfers d2 ∧ kt_payout_id k1 = kt_payout_id k ∧
     kt_status k1 = kt_status k ∧ kt_sompi_to_miner k1 = kt_sompi_to_miner k ∧
     kt_nacho_amount k1 = kt_nacho_amount k ∧ (kt_payout_id k ≠ i → k1 = k)).
  { intros k Hk. apply (update_transfers_elem _ _ _ _ k H1) in Hk. eexists. split; [by rewrite E2|].
    case_bool; [|done]. split_and!; [done..|]. intros. bool_hyps. lia. }
  split_and!.
  - by rewrite E3, E2, E1.
  - intros k (k1 & Hk1 & _ & _ & _ & _ & Heq)%Hk Hne. rewrite (Heq Hne) in Hk1.
    apply (update_transfers_elem _ _ _ _ k H3) in Hk1. case_bool_in Hk1; [|done]. bool_hyps. lia.
  - intros k (k1 & Hk1 & Hp & Hs & Hm & Hn & _)%Hk Hi Hst.
    apply (update_transfers_elem _ _ _ _ k1 H3) in Hk1. eexists. split; [exact Hk1|].
    rewrite Hp, Hs, Hi, Hst, Z.eqb_refl. simpl. split_and!; congruence.
  - intros p Hp. assert (get_payout i d2 = Ok (po_with (po_status p) (po_tx_hash p) (Some h) (po_krc20_reveal_hash p)
      (po_submitted_at p) (po_confirmed_at p) (po_accepted_daa_score p) (po_failure_reason p) p)) as H.
    { rewrite (update_payouts_get _ _ _ _ i H2) by done.
      assert (get_payout i d1 = get_payout i d) as -> by (by rewrite E1). rewrite Hp. simpl.
      apply get_payout_Ok in Hp as [_ ->]. by rewrite Z.eqb_refl. }
    rewrite E3. by eexists.
Qed.

Lemma record_reveal_moves i h now d d' : record_reveal_tx i h now d = Ok d' →
  moves i CommitSubmitted RevealSubmitted (λ p, (po_krc20_commit_hash p, Some h)) d d'.
Proof.
  intros (d2 & H2 & H3)%result_bind_Ok.
  pose proof (update_payouts_frame _ _ _ _ H2) as (l2 & E2).
  pose proof (update_transfers_frame _ _ _ _ H3) as (l3 & E3).
  split_and!.
  - by rewrite E3, E2.
  - intros k Hk Hne. assert (k ∈ transfers d2) as Hk1 by (by rewrite E2).
    apply (update_transfers_elem _ _ _ _ k H3) in Hk1. case_bool_in Hk1; [|done]. bool_hyps. lia.
  - intros k Hk Hi Hst. assert (k ∈ transfers d2) as Hk1 by (by rewrite E2).
    apply (update_transfers_elem _ _ _ _ k H3) in Hk1. eexists. split; [exact Hk1|].
    rewrite Hi, Hst, Z.eqb_refl. simpl. done.
  - intros p Hp. pose proof (update_payouts_get _ _ _ _ i H2) as H. rewrite Hp in H. simpl in H.
    pose proof (get_payout_Ok _ _ _ Hp) as [_ Hi]. rewrite Hi, Z.eqb_refl in H.
    rewrite E3. eexists. split; [by apply H|done].
Qed.

Lemma complete_keeps i now d d' k : mark_krc20_completed i now d = Ok d' → k ∈ transfers d →
  kt_payout_id k ≠ i → k ∈ transfers d'.
Proof.
  intros H Hk Hne. apply (update_transfers_elem _ _ _ _ k H) in Hk. case_bool_in Hk; [|done]. bool_hyps. lia.
Qed.

Lemma moves_inscribed i from st hs d d' k p wal redeem : moves i from st hs d d' →
  k ∈ transfers d → kt_payout_id k = i → kt_status k = from → get_payout i d = Ok p →
  wallet_get_by_id (po_wallet_id p) d = Ok wal →
  build_transfer_inscription (Krc20Transfer_new NACHO_TICK (show_u64 (kt_nacho_amount k)) (w_address wal))
    = Ok redeem →
  inscribed d' i redeem (kt_sompi_to_miner k).
Proof.
  intros (Hw & _ & Hk & Hp) Hin Hi Hst Hg Hwal Hb. destruct (Hk k Hin Hi Hst) as (k' & Hk' & Hi' & _ & Hm & Hn).
  destruct (Hp p Hg) as (p' & Hp' & Hw' & _). exists k', p', wal.
  rewrite Hn, Hw'. unfold wallet_get_by_id in *. rewrite Hw. done.
Qed.
Lemma map_error_Ok {E E' A} (f : E → E') (r : result E A) a : map_error f r = Ok a → r = Ok a.
Proof. destruct r; simpl; [by intros [= ->]|done]. Qed.

(** *** Plans *)

Lemma plan_commit_reveal_fields utxos transfer cfg p :
  plan_commit_reveal utxos treasury_script transfer cfg = Ret (Ok p) →
  ∃ redeem, build_transfer_inscription transfer = Ok redeem ∧
    commit_spk p = commit_script_public_key redeem ∧ commit_amount_sompi p = crc_commit_amount_sompi cfg.
Proof.
  unfold plan_commit_reveal. destruct (build_transfer_inscription transfer) as [redeem|]; [|done].
  destruct (reveal_shape_mass _ _ _ _); [|done]. destruct (reveal_return _ _); [|done].
  intros ([f|] & _ & H)%exec_bind_Ret; [|done]. case_bool_in H; [done|]. injection H as <-. eauto.
Qed.

Lemma reveal_only_fields transfer amt fee (p : PlannedCommitReveal Script) : reveal_only transfer amt fee = Ok p →
  ∃ redeem, build_transfer_inscription transfer = Ok redeem ∧
    reveal_return_sompi p = amt - fee ∧ MIN_PAYOUT_OUTPUT_SOMPI ≤ amt - fee.
Proof.
  unfold reveal_only. destruct (reveal_return amt fee) as [ret|] eqn:E; [|done].
  destruct (build_transfer_inscription transfer) as [redeem|]; [|done]. intros [= <-]. simpl.
  apply reveal_return_Ok in E as [-> ?]. eexists. split_and!; [done|lia..].
Qed.

(** *** The context of a transfer *)

Definition ctx_of d (k : Krc20PendingTransfer) (cr : TransferCtx * Payout) : Prop :=
  cx_payout_id cr.1 = kt_payout_id k ∧ cx_commit_amount_sompi cr.1 = kt_sompi_to_miner k ∧
  get_payout (kt_payout_id k) d = Ok cr.2 ∧ ∃ wal, wallet_get_by_id (po_wallet_id cr.2) d = Ok wal ∧
    cx_inscription cr.1 = Krc20Transfer_new NACHO_TICK (show_u64 (kt_nacho_amount k)) (w_address wal).

Lemma ctx_of_inscribed d k cr redeem : ctx_of d k cr → k ∈ transfers d →
  build_transfer_inscription (cx_inscription cr.1) = Ok redeem →
  inscribed d (kt_payout_id k) redeem (cx_commit_amount_sompi cr.1).
Proof. intros (_ & -> & Hg & wal & Hw & ->) Hk Hb. exists k, cr.2, wal. done. Qed.

Lemma ok_or_u64 {E} (e : E) z u : ok_or e (u64_try_from z) = Ok u → u = z.
Proof. unfold ok_or. destruct (u64_try_from z) eqn:H; [|done]. intros [= <-]. by apply u64_try_from_Some in H as [-> _]. Qed.

Lemma transfer_ctx_wp rest fee_rate k w : follows rest w →
  wp (follows rest) (transfer_ctx fee_rate k)
    (λ cr w', (∃ rs, w' = world_replies rs w) ∧ ctx_of (w_db w) k cr) w.
Proof.
  intros Hw. unfold transfer_ctx. case_bool; [by apply wp_throw|].
  apply wp_bind, wp_map_err, wp_query; [done..|]. intros row rs _ Hrow.
  apply wp_bind, wp_map_err, wp_query; [done..|]. intros wal rs' _ Hwal.
  apply wp_bind, wp_lift_result; [done|]. intros nacho Hn. apply wp_bind, wp_lift_result; [done|]. intros amt Ha.
  do 2 (apply wp_bind, wp_lift_result; [done|]; intros ? _).
  apply wp_ret; [done|]. split; [by exists rs'|]. apply ok_or_u64 in Hn as ->. apply ok_or_u64 in Ha as ->.
  split_and!; [done..|]. by exists wal.
Qed.

Lemma fetch_wp rest w : follows rest w →
  wp (follows rest) fetch_spendable_utxos (λ _ w', ∃ rs, w' = world_replies rs w) w.
Proof.
  intros Hw. unfold fetch_spendable_utxos.
  apply wp_bind, wp_map_err, wp_node_read; [done..|]. intros _ v rs _ _.
  apply wp_bind, wp_map_err, wp_query; [done..|]. intros prot rs' _ _.
  apply wp_bind, wp_map_err, wp_node_read; [done..|]. intros _ v2 rs2 _ _.
  apply wp_ret; [done|]. by eexists.
Qed.

Lemma plan_from_wp rest ctx utxos policy w (Q : PlannedCommitReveal Script → World Script → Prop) :
  follows rest w →
  (∀ p redeem, build_transfer_inscription (cx_inscription ctx) = Ok redeem →
     commit_spk p = commit_script_public_key redeem → commit_amount_sompi p = cx_commit_amount_sompi ctx → Q p w) →
  wp (follows rest) (plan_from_utxos treasury_script ctx utxos policy) Q w.
Proof.
  intros Hw HQ. unfold plan_from_utxos. apply wp_bind, wp_lift_exec; [done|]. intros r Hr.
  apply wp_lift_result; [done|]. intros p Hp. destruct r as [q|]; [|done]. injection Hp as <-.
  apply plan_commit_reveal_fields in Hr as (redeem & ? & ? & ?). by apply (HQ q redeem).
Qed.
(** *** The handlers *)

Section handlers.
Context (rest : list Krc20PendingTransfer) (k : Krc20PendingTransfer) (ctx : TransferCtx) (row : Payout).
Context (Hrest : ∀ k', k' ∈ rest → kt_payout_id k' ≠ kt_payout_id k).

Abbreviation current w := (follows rest w ∧ k ∈ transfers (w_db w) ∧ ctx_of (w_db w) k (ctx, row)).

Lemma rest_kept from st hs w d : follows rest w → moves (kt_payout_id k) from st hs (w_db w) d →
  ∀ k', k' ∈ rest → k' ∈ transfers d.
Proof. intros [_ Hin] (_ & Hk & _) k' Hk'. apply Hk; [by apply Hin|by apply Hrest]. Qed.

Lemma moves_transfer i from st hs d d' : moves i from st hs d d' → has_transfer d i from → has_transfer d' i st.
Proof. intros (_ & _ & Hk & _) (x & Hx & Hi & Hs). destruct (Hk x Hx Hi Hs) as (x' & ? & ? & ? & _). by exists x'. Qed.

(** A signed commit of the context. *)
Definition signed_commit (plan : PlannedCommitReveal Script) (signed : SignedTx Script) : Prop :=
  sign_commit plan treasury_script = Ok signed ∧ ∃ redeem,
    build_transfer_inscription (cx_inscription ctx) = Ok redeem ∧
    commit_spk plan = commit_script_public_key redeem ∧ commit_amount_sompi plan = cx_commit_amount_sompi ctx.

Lemma signed_is_commit d plan signed : ctx_of d k (ctx, row) → signed_commit plan signed →
  (∀ redeem, build_transfer_inscription (cx_inscription ctx) = Ok redeem →
     inscribed d (kt_payout_id k) redeem (cx_commit_amount_sompi ctx)) →
  is_commit d (kt_payout_id k) {| bc_payouts := commit_label ctx plan; bc_tx := st_tx signed |}.
Proof.
  intros (Hi & _) (Hs & redeem & Hb & Hspk & Ham) Hins. apply sign_commit_id in Hs as (_ & Ho & _).
  split; [simpl in *; by rewrite Hi|]. exists redeem, (cx_commit_amount_sompi ctx), (commit_change_sompi plan).
  split; [by apply Hins|]. simpl. by rewrite Ho, Hspk, Ham.
Qed.

Lemma prepare_commit_wp ledger w : follows rest w →
  wp (follows rest) (prepare_commit treasury_script prefix ctx ledger)
    (λ ps w', (∃ rs, w' = world_replies rs w) ∧ signed_commit ps.1 ps.2) w.
Proof.
  intros Hw. unfold prepare_commit. apply wp_bind. eapply wp_mono; [by apply fetch_wp|].
  intros utxos w1 Hw1 [rs ->]. apply wp_bind, plan_from_wp; [done|]. intros plan redeem Hb Hspk Ham.
  apply wp_bind, wp_lift_result; [done|]. intros _ _. apply wp_bind, wp_lift_result; [done|].
  intros signed Hs. apply wp_ret; [done|]. split; [by exists rs|].
  split; [|by exists redeem]. by eapply map_error_Ok.
Qed.

Lemma broadcast_commit_wp plan signed mode w : current w → kt_status k = Pending → signed_commit plan signed →
  wp (follows rest) (broadcast_commit ctx plan signed mode) (λ _, follows rest) w.
Proof.
  intros (Hw & Hk & Hctx) Hst Hs. unfold broadcast_commit. case_bool; [by apply wp_ret|].
  apply wp_bind, wp_lift_result; [done|]. intros cf _. apply wp_bind, wp_lift_result; [done|]. intros rf _.
  pose proof Hctx as (Hi & Ham & Hg & wal & Hwal & Hins). simpl in *. rewrite Hi.
  apply wp_bind, wp_map_err, wp_statement; [done..|]. intros now d rs _ Hd.
  pose proof (record_commit_moves _ _ _ _ _ _ _ Hd) as Hm.
  assert (Hht : has_transfer (w_db w) (kt_payout_id k) Pending) by (by exists k).
  assert (Hf : follows rest (world_db d (world_replies rs w))).
  { apply follows_step; [done|eapply k_record_commit; [exact Hht|exact Hd]|]. by eapply rest_kept. }
  split; [done|]. apply wp_bind, wp_map_err, wp_submit_tx; [done..|]. intros rs' _.
  assert (follows rest (world_send {| bc_payouts := commit_label ctx plan; bc_tx := st_tx signed |}
    (world_replies rs' (world_db d (world_replies rs w))))) as Hf'; [|split; [done|by apply wp_ret]].
  apply follows_send; [done|]. apply (k_send_commit (kt_payout_id k)).
  - by eapply moves_transfer.
  - destruct Hm as (_ & _ & _ & Hp). destruct (Hp _ Hg) as (p' & Hp' & _ & [= Hc _]).
    apply get_payout_Ok in Hp' as [? ?]. by exists p'.
  - destruct Hs as (Hsig & redeem & Hb & Hspk & Hamt). apply sign_commit_id in Hsig as (_ & Ho & _).
    split; [simpl; by rewrite Hi|]. exists redeem, (cx_commit_amount_sompi ctx), (commit_change_sompi plan).
    split; [|simpl; by rewrite Ho, Hspk, Hamt]. rewrite Ham. rewrite Hins in Hb. by eapply moves_inscribed.
Qed.

Lemma handle_pending_wp {E} ledger mode w : current w → kt_status k = Pending →
  wp (follows rest) (handle_pending treasury_script prefix ctx ledger mode : M Script E _) (λ _, follows rest) w.
Proof.
  intros (Hw & Hk & Hctx) Hst. unfold handle_pending. apply wp_bind.
  eapply wp_attempt_both; [by apply prepare_commit_wp| |intros e w' Hw'; by apply wp_ret].
  intros [plan signed] w' Hw' [[rs ->] Hs]. apply wp_bind.
  eapply wp_attempt_keeps; [by apply broadcast_commit_wp|]. intros r w2 Hw2. by apply wp_ret.
Qed.
Lemma row_commit w h : ctx_of (w_db w) k (ctx, row) → po_krc20_commit_hash row = Some h →
  commit_recorded (w_db w) (kt_payout_id k) h.
Proof. intros (_ & _ & Hg & _) Hh. apply get_payout_Ok in Hg as [? ?]. by exists row. Qed.

Lemma recorded_txid_Ok hash i kind h : recorded_txid hash i kind = Ok h → hash = Some h.
Proof. unfold recorded_txid, ok_or. destruct hash; [by intros [= ->]|done]. Qed.

(** What is broadcast as the reveal of commit [c]. *)
Lemma signed_is_reveal d plan fee c signed : cx_payout_id ctx = kt_payout_id k →
  reveal_only (cx_inscription ctx) (cx_commit_amount_sompi ctx) fee = Ok plan →
  sign_reveal plan (p2sh_outpoint c) treasury_script = Ok signed →
  (∀ redeem, build_transfer_inscription (cx_inscription ctx) = Ok redeem →
     inscribed d (kt_payout_id k) redeem (cx_commit_amount_sompi ctx)) →
  is_reveal d (kt_payout_id k) c {| bc_payouts := reveal_label treasury_script ctx plan; bc_tx := st_tx signed |}.
Proof.
  intros Hi Hp Hs Hins. apply reveal_only_fields in Hp as (redeem & Hb & Hret & Hmin).
  apply sign_reveal_id in Hs as (_ & Ho & Hin). split_and!; [simpl; by rewrite Hi|done|].
  exists redeem, (cx_commit_amount_sompi ctx), fee. split_and!; [by apply Hins|done|]. simpl. by rewrite Ho, Hret.
Qed.

Lemma broadcast_reveal_wp plan fee c mode w : current w → kt_status k = CommitSubmitted →
  po_krc20_commit_hash row = Some c →
  reveal_only (cx_inscription ctx) (cx_commit_amount_sompi ctx) fee = Ok plan →
  wp (follows rest) (broadcast_reveal treasury_script ctx plan (p2sh_outpoint c) mode) (λ _, follows rest) w.
Proof.
  intros (Hw & Hk & Hctx) Hst Hc Hplan. unfold broadcast_reveal.
  apply wp_bind, wp_lift_result; [done|]. intros signed Hs%map_error_Ok. case_bool; [by apply wp_ret|].
  pose proof Hctx as (Hi & Ham & Hg & wal & Hwal & Hins). cbn [fst snd] in *. rewrite Hi.
  apply wp_bind, wp_map_err, wp_statement; [done..|]. intros now d rs _ Hd.
  pose proof (record_reveal_moves _ _ _ _ _ Hd) as Hm.
  assert (Hht : has_transfer (w_db w) (kt_payout_id k) CommitSubmitted) by (by exists k).
  assert (Hf : follows rest (world_db d (world_replies rs w))).
  { apply follows_step; [done| |by eapply rest_kept].
    eapply k_record_reveal; [exact Hht|by apply (row_commit w)|exact Hd]. }
  split; [done|]. apply wp_bind, wp_map_err, wp_submit_tx; [done..|]. intros rs' _.
  assert (follows rest (world_send {| bc_payouts := reveal_label treasury_script ctx plan; bc_tx := st_tx signed |}
    (world_replies rs' (world_db d (world_replies rs w))))) as Hf'; [|split; [done|by apply wp_ret]].
  apply follows_send; [done|]. apply (k_send_reveal (kt_payout_id k) c).
  - by eapply moves_transfer.
  - destruct Hm as (_ & _ & _ & Hp). destruct (Hp _ Hg) as (p' & Hp' & _ & [= Hc' Hr']).
    apply get_payout_Ok in Hp' as [? ?]. exists p'. by rewrite Hc'.
  - eapply signed_is_reveal; [done..|]. intros redeem Hb. rewrite Ham. rewrite Hins in Hb. by eapply moves_inscribed.
Qed.

Lemma handle_commit_wp mode w : current w → kt_status k = CommitSubmitted →
  wp (follows rest) (handle_commit_submitted treasury_script prefix ctx row mode) (λ _, follows rest) w.
Proof.
  intros (Hw & Hk & Hctx) Hst. unfold handle_commit_submitted.
  apply wp_bind, wp_lift_result; [done|]. intros c Hc%recorded_txid_Ok.
  apply wp_bind, wp_lift_result; [done|]. intros fee _.
  apply wp_bind, wp_lift_result; [done|]. intros plan Hplan%map_error_Ok.
  apply wp_bind, wp_lift_result; [done|]. intros _ _.
  apply wp_bind, wp_map_err, wp_node_read; [done..|]. intros _ v rs _ _.
  apply wp_bind, wp_map_err, wp_node_read; [done..|]. intros _ v2 rs2 _ _.
  destruct (List.find _ _).
  - case_bool; [|by apply wp_ret]. by eapply broadcast_reveal_wp.
  - apply wp_bind, wp_map_err, wp_in_mempool; [done..|]. intros b rs3 _.
    case_bool; [by apply wp_ret|]. case_bool; [by apply wp_ret|].
    apply wp_bind. eapply wp_mono; [by apply fetch_wp|]. intros utxos w1 Hw1 [rs4 ->].
    apply wp_bind, wp_lift_result; [done|]. intros policy _. apply wp_bind, plan_from_wp; [done|].
    intros plan' redeem Hb Hspk Ham. apply wp_bind, wp_lift_result; [done|]. intros rebuilt Hid%map_error_Ok.
    case_bool; [by apply wp_throw|]. bool_hyps. apply Z.eqb_eq in E1 as ->.
    apply wp_bind, wp_lift_result; [done|]. intros signed Hs%map_error_Ok.
    apply wp_bind, wp_map_err, wp_submit_tx; [done..|]. intros rs5 _.
    assert (follows rest (world_send {| bc_payouts := commit_label ctx plan'; bc_tx := st_tx signed |}
      (world_replies rs5 w))) as Hf; [|split; [done|by apply wp_ret]].
    apply follows_send; [done|]. apply (k_send_commit (kt_payout_id k)); [by exists k| |].
    + apply sign_commit_id in Hs as (Hid' & _). apply (row_commit w); [done|].
      rewrite Hid in Hid'. injection Hid' as ->. done.
    + eapply signed_is_commit; [done|split; [done|by exists redeem]|]. intros. by eapply (ctx_of_inscribed _ k (ctx, row)).
Qed.

Lemma handle_reveal_wp mode w : current w → kt_status k = RevealSubmitted →
  wp (follows rest) (handle_reveal_submitted treasury_script ctx row mode) (λ _, follows rest) w.
Proof.
  intros (Hw & Hk & Hctx) Hst. unfold handle_reveal_submitted.
  assert (Hht : has_transfer (w_db w) (kt_payout_id k) RevealSubmitted) by (by exists k).
  apply wp_bind, wp_lift_result; [done|]. intros h Hh%recorded_txid_Ok.
  apply wp_bind, wp_map_err, wp_node_read; [done..|]. intros _ v rs _ _.
  apply wp_bind, wp_map_err, wp_node_read; [done..|]. intros _ v2 rs2 _ _.
  apply wp_bind. eapply (wp_mono _ _ (λ _ w', ∃ rs', w' = world_replies rs' w)).
  { destruct (_ <$> List.find _ _); [apply wp_ret; [done|]; by eexists|].
    apply wp_map_err, wp_in_mempool; [done..|]. intros b rs3 _. by eexists. }
  intros b w1 Hw1 [rs3 ->]. destruct (classify_confirmation _); try by apply wp_ret.
  - case_bool; [by apply wp_ret|]. pose proof Hctx as (Hi & _). cbn [fst] in Hi. rewrite Hi.
    apply wp_bind, wp_map_err, wp_statement; [done..|]. intros now d rs4 _ Hd.
    assert (follows rest (world_db d (world_replies rs4 w))) as Hf; [|split; [done|by apply wp_ret]].
    apply follows_step; [done|eapply k_complete; [exact Hht|exact Hd]|].
    intros k' Hk'. eapply complete_keeps; [exact Hd|by apply Hw|by apply Hrest].
  - case_bool; [by apply wp_ret|]. apply wp_bind, wp_lift_result; [done|]. intros c Hc%recorded_txid_Ok.
    apply wp_bind, wp_lift_result; [done|]. intros fee _.
    apply wp_bind, wp_lift_result; [done|]. intros plan Hplan%map_error_Ok.
    case_bool; [by apply wp_throw|]. bool_hyps. apply Z.eqb_eq in E0 as Hid.
    apply wp_bind, wp_lift_result; [done|]. intros signed Hs%map_error_Ok.
    apply wp_bind, wp_map_err, wp_submit_tx; [done..|]. intros rs5 _.
    assert (follows rest (world_send {| bc_payouts := reveal_label treasury_script ctx plan; bc_tx := st_tx signed |}
      (world_replies rs5 w))) as Hf; [|split; [done|by apply wp_ret]].
    apply follows_send; [done|]. apply (k_send_reveal (kt_payout_id k) c); [done| |].
    + pose proof Hctx as (_ & _ & Hg & _). apply get_payout_Ok in Hg as [? ?].
      apply sign_reveal_id in Hs as (Hid' & _). exists row. split_and!; [done..|].
      cbn [bc_tx]. unfold signed_txid in Hid'. by rewrite Hid', Hid.
    + eapply signed_is_reveal; [by apply Hctx|done..|]. intros. by eapply (ctx_of_inscribed _ k (ctx, row)).
Qed.
End handlers.
Lemma advance_wp {E} rest fee_rate ledger k mode w :
  (∀ k', k' ∈ rest → kt_payout_id k' ≠ kt_payout_id k) → follows rest w → k ∈ transfers (w_db w) →
  wp (follows rest) (advance_transfer_inner treasury_script prefix fee_rate ledger k mode : M Script E _)
    (λ _, follows rest) w.
Proof.
  intros Hrest Hw Hk. unfold advance_transfer_inner, keep_ledger. destruct (kt_status k) eqn:Hst; try by apply wp_ret.
  - apply wp_bind. eapply wp_attempt_both; [by apply transfer_ctx_wp| |intros; by apply wp_ret].
    intros [ctx row] w' Hw' [[rs ->] Hctx]. by eapply handle_pending_wp.
  - apply wp_bind. eapply wp_attempt_keeps; [|intros; by apply wp_ret].
    apply wp_bind. eapply wp_mono; [by apply transfer_ctx_wp|].
    intros [ctx row] w' Hw' [[rs ->] Hctx]. by eapply handle_commit_wp.
  - apply wp_bind. eapply wp_attempt_keeps; [|intros; by apply wp_ret].
    apply wp_bind. eapply wp_mono; [by apply transfer_ctx_wp|].
    intros [ctx row] w' Hw' [[rs ->] Hctx]. by eapply handle_reveal_wp.
Qed.

Lemma follows_nil rest w : follows rest w → follows [] w.
Proof. intros [? _]. split; [done|]. by intros k ?%not_elem_of_nil. Qed.

Lemma list_by_status_sub sts n d k : k ∈ list_krc20_by_status sts n d → k ∈ transfers d ∧ kt_status k ∈ sts.
Proof.
  unfold list_krc20_by_status, limit. intros Hk. apply elem_of_take in Hk as (j & Hk & _).
  apply list_elem_of_lookup_2 in Hk. rewrite stable_sort_perm in Hk.
  apply elem_of_retain in Hk as [? ?%status_in_elem]. done.
Qed.

Lemma list_by_status_nodup sts n d : NoDup (map kt_payout_id (transfers d)) →
  NoDup (map kt_payout_id (list_krc20_by_status sts n d)).
Proof.
  intros Hn. unfold list_krc20_by_status, limit. eapply sublist_NoDup; [|apply sublist_map, sublist_take].
  eapply NoDup_Permutation_proper; [apply Permutation_map, stable_sort_perm|].
  eapply sublist_NoDup; [exact Hn|]. apply sublist_map, retain_sublist.
Qed.

Lemma settle_wp n mode w : follows [] w → NoDup (map kt_payout_id (transfers (w_db w))) →
  wp (follows []) (settle_pending treasury_script prefix n mode) (λ _, follows []) w.
Proof.
  intros Hw Hnd. unfold settle_pending. apply wp_bind, wp_map_err, wp_query; [done..|]. intros ks rs _ [= <-].
  set (ks := list_krc20_by_status _ _ _).
  assert (Hks : follows ks (world_replies rs w)).
  { split; [apply Hw|]. intros k Hk. by apply list_by_status_sub in Hk as [? _]. }
  assert (Hn : NoDup (map kt_payout_id ks)) by by apply list_by_status_nodup. clearbody ks.
  apply wp_bind. apply (wp_weaken _ (follows ks)); [|apply follows_nil].
  eapply wp_attempt_keeps; [by apply (wp_node_read _ (follows_closed ks) _ (λ _ _, True))|]. intros est w1 Hw1.
  apply (wp_weaken _ (follows [])); [|done]. apply wp_bind. eapply wp_mono.
  - apply (wp_for_each _ _ _ (λ ks _ w', follows ks w' ∧ NoDup (map kt_payout_id ks))); [|by intros ? ? [? _]|done].
    intros k rest st w2 [[Hr2 Hin2] Hn2]. simpl in Hn2. apply NoDup_cons in Hn2 as [Hk2 Hn2].
    assert (Hw2 : follows rest w2) by (split; [done|]; set_solver).
    unfold settle_one. apply wp_bind. apply (wp_weaken _ (follows rest)); [|apply follows_nil].
    eapply wp_mono; [apply (advance_wp rest); [|done|set_solver]|].
    + intros k' Hk' Heq. apply Hk2. rewrite <- Heq. by apply list_elem_of_fmap_2.
    + intros [r ledger] w3 _ Hw3. apply wp_ret; [by eapply follows_nil|done].
  - intros st w2 Hw2 _. by apply wp_ret.
Qed.
(** *** The schema *)

Lemma plan_recipient_steps price params amt cid now el d r :
  plan_recipient prefix price params amt cid now el d = Ok (Some r) → rtc repo_step d r.
Proof.
  unfold plan_recipient. intros (n & _ & H)%result_bind_Ok. case_bool_in H; [done|].
  destruct (i64_try_from n); [|done]. apply result_bind_Ok in H as (redeem & _ & H).
  apply result_bind_Ok in H as (p2sh & _ & H). apply result_bind_Ok in H as ([p d1] & H1%map_error_Ok & H).
  apply result_bind_Ok in H as ([k d2] & H2%map_error_Ok & [= <-]).
  eapply rtc_l; [by eapply step_ensure_payout|]. by eapply rtc_once, step_ensure_krc20.
Qed.

Lemma plan_recipients20_steps price params amt cid now els t n d r :
  plan_recipients20 prefix price params amt cid now els t n d = Ok r → rtc repo_step d r.2.
Proof.
  revert t n d. induction els as [|el els IH]; intros t n d H; simpl in H; [by injection H as <-|].
  apply result_bind_Ok in H as ([d1|] & H1 & H); [|by eapply IH].
  etrans; [by eapply plan_recipient_steps|by eapply IH].
Qed.

Lemma plan_krc20_tx_steps price params amt now d r :
  plan_krc20_tx prefix price params amt now d = Ok r → rtc repo_step d r.2.
Proof.
  intros ([c d1] & H1%map_error_Ok & H)%result_bind_Ok. apply result_bind_Ok in H as (el & _ & H).
  apply result_bind_Ok in H as ([[t n] d2] & H2%plan_recipients20_steps & H).
  apply result_bind_Ok in H as (d3 & H3%map_error_Ok & [= <-]).
  eapply rtc_l; [by eapply step_create_cycle|]. etrans; [exact H2|].
  eapply rtc_l; [by eapply step_cycle_totals|]. apply rtc_once, step_audit.
Qed.

Lemma reconcile_krc20_tx_steps cid st now d d' : reconcile_krc20_tx cid st now d = Ok d' → rtc repo_step d d'.
Proof.
  intros (d1 & H & [= <-])%result_bind_Ok. eapply rtc_r; [|apply step_audit].
  destruct st; [| |apply result_bind_Ok in H as (d2 & H2 & H)..|].
  - by injection H as ->.
  - by eapply rtc_once, step_cycle_broadcasting.
  - eapply rtc_l; [by eapply step_cycle_broadcasting|]. by eapply rtc_once, step_cycle_partially.
  - eapply rtc_l; [by eapply step_cycle_broadcasting|]. by eapply rtc_once, step_cycle_settled.
  - by eapply rtc_once, step_cycle_failed.
Qed.

Lemma record_commit_steps i cf rf h now d d' : record_commit_tx i cf rf h now d = Ok d' → rtc repo_step d d'.
Proof.
  intros (d1 & H1 & (d2 & H2 & H3)%result_bind_Ok)%result_bind_Ok.
  eapply rtc_l; [by eapply step_fees|]. eapply rtc_l; [by eapply step_commit_hash|].
  by eapply rtc_once, step_commit_submitted.
Qed.

Lemma record_reveal_steps i h now d d' : record_reveal_tx i h now d = Ok d' → rtc repo_step d d'.
Proof.
  intros (d2 & H2 & H3)%result_bind_Ok. eapply rtc_l; [by eapply step_reveal_hash|].
  by eapply rtc_once, step_reveal_submitted.
Qed.

Lemma mark_paid_frame v a now d r d' : mark_paid v a now d = Ok (r, d') → ∃ l, d' = set_nacho_rebates l d.
Proof.
  unfold mark_paid. intros H. case_bool_in H; [done|]. destruct (rebate_get v d); [|done].
  apply result_bind_Ok in H as (x & _ & H). case_bool_in H; [|done]. injection H as _ <-. by eexists.
Qed.

(** A credit confirms the payout once and pays it, or changes nothing. *)
Lemma credit_tx_cases i v a now d fresh d' : credit_tx i v a now d = Ok (fresh, d') →
  (fresh = false ∧ d' = d) ∨
  (fresh = true ∧ ∃ d1 r d2, confirm_krc20_payout_once i now d = Ok (true, d1) ∧ mark_paid v a now d1 = Ok (r, d2) ∧
     d' = audit_append KRC20_AUDIT_ACTOR "krc20.credit" (Some ("payout"%string, i)) d2).
Proof.
  intros ([[] d1] & H1 & H)%result_bind_Ok.
  - apply result_bind_Ok in H as ([r d2] & H2 & [= <- <-]). right. eauto 10.
  - injection H as <- <-. by left.
Qed.

Lemma db_ok_rebates l d : db_ok d → db_ok (set_nacho_rebates l d).
Proof. by intros []. Qed.

Lemma kstep_good s s' : kstep s s' → evolves s.1 s'.1 ∧ (db_ok s.1 → db_ok s'.1).
Proof.
  destruct 1 as [price params amt now cid d d' sent _ H|actor act sub d sent|i cf rf h now d d' sent _ H|i b d sent
    |i c h now d d' sent _ _ H|i c b d sent|i now d d' sent _ H|i p fresh now d d' sent _ _ H|cid st now d d' sent H];
    cbn [fst snd]; try done.
  - by apply plan_krc20_tx_steps, repo_steps_good in H.
  - apply repo_step_good, step_audit.
  - by apply record_commit_steps, repo_steps_good in H.
  - by apply record_reveal_steps, repo_steps_good in H.
  - by eapply repo_step_good, step_completed.
  - apply credit_tx_cases in H as [[_ ->]|(_ & d1 & r & d2 & H1 & (l & ->)%mark_paid_frame & ->)]; [done|].
    eapply step_confirm_once, repo_step_good in H1 as [[] Hok]. split; [by split|].
    intros Hd. pose proof (db_ok_rebates l _ (Hok Hd)) as []. by split.
  - by apply reconcile_krc20_tx_steps, repo_steps_good in H.
Qed.

Lemma ksteps_good s s' : rtc kstep s s' → evolves s.1 s'.1 ∧ (db_ok s.1 → db_ok s'.1).
Proof.
  induction 1 as [|? ? ? [? ?]%kstep_good _ [? ?]]; [done|]. split; [by etrans|auto].
Qed.
(** *** The tick *)

Context (Hs0 : db_ok s0.1).

Lemma follows_ok rest w : follows rest w → db_ok (w_db w).
Proof. intros [H%ksteps_good _]. by apply H. Qed.

Lemma wp_kstatement (body : Z → Db → result DbError Db) (Q : unit → World Script → Prop) w :
  follows [] w → (∀ now d, body now (w_db w) = Ok d → kstep (w_db w, w_sent w) (d, w_sent w)) →
  (∀ w', follows [] w' → Q tt w') → wp (follows []) (statement body) Q w.
Proof.
  intros Hw Hb HQ. apply wp_statement; [done..|]. intros now d rs _ Hd.
  assert (follows [] (world_db d (world_replies rs w))); [|auto].
  apply follows_step; [done|by eapply Hb|]. by intros k ?%not_elem_of_nil.
Qed.

Lemma resume_or_plan_krc20_wp quote params w : follows [] w →
  wp (follows []) (resume_or_plan_krc20_cycle prefix quote params) (λ _, follows []) w.
Proof.
  intros Hw. unfold resume_or_plan_krc20_cycle. apply wp_bind, wp_map_err, wp_query; [done..|].
  intros found rs _ [= Hf]. destruct found as [c|].
  - apply wp_bind, wp_map_err, wp_query; [done..|]. intros ks rs2 _ _.
    apply wp_bind, wp_map_err, wp_kstatement; [done|intros ? ? [= <-]; apply k_audit|].
    intros. by apply wp_ret.
  - unfold plan_krc20_cycle. apply wp_bind, wp_lift_result; [done|]. intros price _.
    apply wp_bind, wp_lift_result; [done|]. intros amt _.
    apply wp_bind, wp_transact_in; [done..|]. intros now cid d rs2 Hd.
    assert (Hw2 : follows [] (world_db d (world_replies rs2 w))).
    { apply follows_step; [done|by eapply k_plan|]. by intros k ?%not_elem_of_nil. }
    split; [done|]. apply wp_bind, wp_map_err, wp_query; [done..|]. intros c rs3 _ _.
    apply wp_bind, wp_map_err, wp_query; [done..|]. intros ks rs4 _ _. by apply wp_ret.
Qed.

Lemma credit_wp n w : follows [] w → wp (follows []) (credit_completed_transfers n) (λ _, follows []) w.
Proof.
  intros Hw. unfold credit_completed_transfers. apply wp_bind, wp_map_err, wp_query; [done..|]. intros ks rs _ [= <-].
  eapply wp_mono; [|by intros a w' H _; exact H].
  apply (wp_for_each _ _ _ (λ ks _ w', follows [] w' ∧ ∀ k, k ∈ ks → k ∈ transfers (w_db w') ∧ kt_status k = Completed));
    [|by intros ? ? [? _]|split; [done|]].
  - intros k rest rep w1 [Hw1 Hks]. destruct (Hks k) as [Hk Hst]; [set_solver|].
    unfold credit_transfer. apply wp_bind, wp_map_err, wp_query; [done..|]. intros row rs1 _ Hrow.
    apply wp_bind, wp_map_err, wp_transact; [done..|]. intros now fresh d rs2 _ Hd.
    assert (Htr : transfers d = transfers (w_db w1)).
    { apply credit_tx_cases in Hd as [[_ ->]|(_ & d1 & r & d2 & H1 & (l & ->)%mark_paid_frame & ->)]; [done|].
      apply result_bind_Ok in H1 as (d3 & (l3 & ->)%update_payouts_frame & [= _ <-]). done. }
    assert (Hw2 : follows [] (world_db d (world_replies rs2 w1))).
    { apply follows_step; [done| |by intros ? ?%not_elem_of_nil].
      eapply k_credit; [|exact Hrow|exact Hd]. by exists k. }
    split; [done|]. apply wp_ret; [done|]. split; [done|]. intros k' Hk'. cbn [w_db world_db]. rewrite Htr.
    apply Hks. set_solver.
  - intros k Hk. apply list_by_status_sub in Hk as [? ?%list_elem_of_singleton]. done.
Qed.

Lemma reconcile_krc20_wp cid w : follows [] w →
  wp (follows []) (reconcile_krc20_cycle_status cid) (λ _, follows []) w.
Proof.
  intros Hw. unfold reconcile_krc20_cycle_status. apply wp_bind, wp_map_err, wp_query; [done..|]. intros ks rs _ _.
  apply wp_bind, wp_map_err, wp_kstatement; [done|intros now d Hd; by eapply k_reconcile|].
  intros. by apply wp_ret.
Qed.

Lemma krc20_run_locked_wp config quote w : follows [] w →
  wp (follows []) (krc20_run_locked treasury_script prefix config quote) (λ _, follows []) w.
Proof.
  intros Hw. unfold krc20_run_locked. case_bool; [by apply wp_throw|].
  apply wp_bind, wp_map_err, wp_node_read; [done..|]. intros _ v rs _ _. destruct (cycle_window _ _) as [s e].
  apply wp_bind, wp_map_err. eapply wp_mono; [by apply resume_or_plan_krc20_wp|]. intros st w1 _ Hw1.
  case_bool; [by apply wp_throw|]. apply wp_bind, wp_map_err.
  eapply wp_mono; [apply settle_wp; [done|]; by apply ok_transfer_payouts, (follows_ok [])|].
  intros settle w2 _ Hw2. apply wp_bind.
  eapply (wp_mono _ _ (λ _, follows [])); [case_bool; [by apply wp_ret|by apply wp_map_err, credit_wp]|].
  intros credit w3 _ Hw3. apply wp_bind, wp_map_err. eapply wp_mono; [by apply reconcile_krc20_wp|].
  intros. by apply wp_ret.
Qed.

Lemma try_acquire_follows w : follows [] w → wp (follows []) try_acquire (λ _, follows []) w.
Proof.
  intros Hw. unfold wp, try_acquire. by destruct (w_replies w) as [|[?? | | ??] rs] eqn:Er.
Qed.

Lemma acquire_lock_follows polls w : follows [] w →
  wp (follows []) (acquire_treasury_lock polls) (λ _, follows []) w.
Proof.
  revert w. induction polls as [|polls IH]; intros w Hw; simpl; apply wp_bind.
  all: eapply wp_mono; [by apply try_acquire_follows|]; intros leader w1 _ Hw1.
  all: case_bool; [by apply wp_ret|].
  - by apply wp_ret.
  - by apply IH.
Qed.

Lemma krc20_run_once_follows config quote polls w : follows [] w →
  follows [] (krc20_run_once treasury_script prefix config quote polls w).2.
Proof.
  intros Hw. cut (wp (follows []) (krc20_run_once treasury_script prefix config quote polls) (λ _, follows []) w); [by intros []|].
  unfold krc20_run_once. apply wp_bind, wp_map_err. eapply wp_mono; [by apply acquire_lock_follows|].
  intros leader w1 _ Hw1. case_bool; [|by apply wp_ret]. apply wp_bind.
  eapply wp_attempt_keeps; [by apply krc20_run_locked_wp|]. intros r w2 Hw2. apply wp_bind.
  eapply wp_attempt_keeps; [by apply (wp_query _ (follows_closed []) _ (λ _ _, True))|]. intros r2 w3 Hw3.
  by apply wp_lift_result.
Qed.
End spec.

(** C21: A tick of the KRC-20 engine, wherever it dies and whatever the database, the node and the price
    source answer, is a sequence of the steps of [kstep] on the database and the wire. *)
Theorem krc20_tick_refines {Script} `{!MassCalculator Script, !Signer Script, !ScriptLib Script}
    `{!SignerOk Script, !TxIdOk Script} (treasury_script : Script) prefix config quote polls (w : World Script) :
  db_ok (w_db w) →
  let w' := (krc20_run_once treasury_script prefix config quote polls w).2 in
  rtc (kstep treasury_script prefix) (w_db w, w_sent w) (w_db w', w_sent w').
Proof.
  intros Hd. apply (krc20_run_once_follows treasury_script prefix (w_db w, w_sent w)); [done|].
  split; [done|]. by intros k ?%not_elem_of_nil.
Qed.

