(* ===== verification/Krc20Safety.v ===== *)
(** * Safety of the KRC-20 engine

    Invariants of the step relation [kstep] and of the services around the
    engine: the rebate ledger pays each balance once and never more than was
    accrued, and the wire carries at most one commit and one reveal per
    payout, those recorded. *)

From S2P Require Import Prelude Float64 Mass Fee Planner Db PayoutRepo PayoutSpec Effects KasCycle KasExecute.
From S2P Require Import Domain AccountRepo Accountant AccountantProps Rebate Krc20Plan Krc20PlanProps.
From S2P Require Import Krc20Cycle Krc20Execute Krc20Spec.
Local Open Scope Z_scope.

(** ** Sums over selected rows *)

Lemma sumZ_filter {A} (P : A → bool) (f : A → Z) l :
  sumZ (map f (List.filter P l)) = sumZ (map (λ x, if P x then f x else 0) l).
Proof. induction l as [|x l IH]; simpl; [done|]. destruct (P x); simpl; unfold sumZ in *; lia. Qed.

Lemma sumZ_Forall2 {A} (f g : A → Z) l l' : Forall2 (λ x y, g y = f x) l l' → sumZ (map g l') = sumZ (map f l).
Proof. unfold sumZ. induction 1; simpl; lia. Qed.

(** Changing the one row that has the key. *)
Lemma sumZ_update {A} (key : A → Z) (f : A → Z) (p : A → bool) (g : A → A) i x l :
  NoDup (map key l) → x ∈ l → key x = i → p x = true → (∀ y, p y = true → key y = i) →
  sumZ (map f (update_where p g l)) = sumZ (map f l) - f x + f (g x).
Proof.
  intros Hnd Hx Hk Hpx Hp. induction l as [|y l IH]; [by apply not_elem_of_nil in Hx|].
  simpl in Hnd. apply NoDup_cons in Hnd as [Hy Hnd]. apply elem_of_cons in Hx as [->|Hx]; simpl.
  - rewrite Hpx. assert (update_where p g l = l) as ->; [|unfold sumZ; simpl; lia].
    unfold update_where. rewrite <- (map_id l) at 2. apply map_ext_in. intros z Hz%list_elem_of_In.
    destruct (p z) eqn:E; [|done]. exfalso. apply Hy. rewrite Hk, <- (Hp z E). by apply list_elem_of_fmap_2.
  - destruct (p y) eqn:E.
    + exfalso. apply Hy. rewrite (Hp y E), <- Hk. by apply list_elem_of_fmap_2.
    + specialize (IH Hnd Hx). unfold sumZ in *. simpl. lia.
Qed.

(** ** The rebate ledger *)

Definition paid_of (v : Z) (d : Db) : Z := match rebate_get v d with Some r => nr_paid_sompi r | None => 0 end.

Definition kind_of (d : Db) (cid : Z) : option PayoutKind := pc_kind <$> List.find (λ c, pc_id c =? cid) (cycles d).
Definition krc20 (d : Db) (p : Payout) : bool := bool_decide (kind_of d (po_cycle_id p) = Some Krc20Nacho).

Definition confirmed_nacho (v : Z) (d : Db) : Z :=
  sumZ (map po_amount_sompi (List.filter (λ p, (po_wallet_id p =? v) && (krc20 d p && status_in (po_status p) [Confirmed]))
    (payouts d))).

Lemma is_open_eq d p : is_open_krc20 d p = krc20 d p && negb (status_in (po_status p) [Failed; Confirmed]).
Proof.
  unfold is_open_krc20, krc20, kind_of, cycle_of. destruct (List.find _ _) as [c|]; simpl; [|done].
  f_equal. apply bool_decide_ext. split; congruence.
Qed.

(** The books: a wallet was paid what its confirmed payouts say, on top of [base]; a confirmed payout
    has a completed transfer; what is paid and what is reserved never exceed what was accrued. *)
Record krc20_books (base : Z → Z) (d : Db) : Prop := {
  kb_ok : db_ok d;
  kb_rebates : NoDup (map nr_wallet_id (nacho_rebates d));
  kb_status : ∀ p, p ∈ payouts d → krc20 d p = true → po_status p = Planned ∨ po_status p = Confirmed;
  kb_transfer : ∀ k, k ∈ transfers d → ∃ p, p ∈ payouts d ∧ po_id p = kt_payout_id k ∧ krc20 d p = true;
  kb_completed : ∀ p, p ∈ payouts d → krc20 d p = true → po_status p = Confirmed → has_transfer d (po_id p) Completed;
  kb_paid : ∀ v, paid_of v d = base v + confirmed_nacho v d;
  kb_reserve : ∀ v, paid_of v d + open_sompi v d ≤ accrued_of v d;
}.

(** *** Kinds *)

Lemma kind_of_grows d d' cid kd : grows pc_evolves (cycles d) (cycles d') → kind_of d cid = Some kd →
  kind_of d' cid = Some kd.
Proof.
  unfold kind_of. intros (l & new & -> & HF) (c & Hc & ->)%fmap_Some. rewrite find_app.
  assert (∃ c', List.find (λ c, pc_id c =? cid) l = Some c' ∧ pc_kind c' = pc_kind c) as (c' & -> & <-); [|done].
  revert Hc. induction HF as [|x y l1 l2 [] HF IH]; simpl; [done|]. rewrite pce_id.
  destruct (pc_id x =? cid); [intros [= ->]; eauto|auto].
Qed.

Lemma payout_kind d p : db_ok d → p ∈ payouts d → ∃ kd, kind_of d (po_cycle_id p) = Some kd.
Proof.
  intros Hd Hp. pose proof (proj1 (Forall_forall _ _) (ok_payout_cycles _ Hd) p Hp) as Hc. simpl in Hc.
  unfold kind_of. destruct (List.find _ (cycles d)) as [c|] eqn:F; [by eexists|].
  apply list_elem_of_fmap in Hc as (c & Heq & Hc). eapply find_None in Hc; [|done]. simpl in Hc. lia.
Qed.

Lemma krc20_grows d d' p q : db_ok d → grows pc_evolves (cycles d) (cycles d') → p ∈ payouts d →
  po_cycle_id q = po_cycle_id p → krc20 d' q = krc20 d p.
Proof.
  intros Hd Hg Hp Hc. destruct (payout_kind d p Hd Hp) as [kd Hk].
  unfold krc20. by rewrite Hc, Hk, (kind_of_grows _ _ _ _ Hg Hk).
Qed.

(** *** Changes that leave KRC-20 money alone *)

(** A row keeps its recipient and amount, and its status if it is a KRC-20 payout. *)
Record money_kept (d : Db) (p q : Payout) : Prop := {
  mk_id : po_id q = po_id p;
  mk_cycle : po_cycle_id q = po_cycle_id p;
  mk_wallet : po_wallet_id q = po_wallet_id p;
  mk_amount : po_amount_sompi q = po_amount_sompi p;
  mk_status : krc20 d p = true → po_status q = po_status p;
}.

#[export] Instance money_kept_refl d : Reflexive (money_kept d).
Proof. by split. Qed.

Record keeps_money (d d' : Db) : Prop := {
  km_ok : db_ok d';
  km_cycles : grows pc_evolves (cycles d) (cycles d');
  km_payouts : ∃ l new, payouts d' = l ++ new ∧ Forall2 (money_kept d) (payouts d) l ∧
    Forall (λ q, krc20 d' q = false) new;
  km_transfers : ∀ k', k' ∈ transfers d' → ∃ k, k ∈ transfers d ∧ kt_payout_id k = kt_payout_id k';
  km_completed : ∀ i, has_transfer d i Completed → has_transfer d' i Completed;
  km_rebates : NoDup (map nr_wallet_id (nacho_rebates d'));
  km_paid : ∀ v, paid_of v d' = paid_of v d;
  km_accrued : ∀ v, accrued_of v d ≤ accrued_of v d';
}.

(** A sum over KRC-20 rows that reads nothing but money. *)
Lemma krc20_sum_kept d d' (sel : PayoutStatus → bool) v : db_ok d → keeps_money d d' →
  sumZ (map po_amount_sompi (List.filter (λ p, (po_wallet_id p =? v) && (krc20 d' p && sel (po_status p))) (payouts d'))) =
  sumZ (map po_amount_sompi (List.filter (λ p, (po_wallet_id p =? v) && (krc20 d p && sel (po_status p))) (payouts d))).
Proof.
  intros Hd [_ Hc (l & new & -> & HF & Hnew) _ _ _ _ _]. rewrite !sumZ_filter, map_app, sumZ_app.
  assert (sumZ (map (λ p, if (po_wallet_id p =? v) && (krc20 d' p && sel (po_status p)) then po_amount_sompi p else 0) new) = 0) as ->.
  { unfold sumZ. induction Hnew as [|q new Hq Hnew IH]; simpl; [done|]. by rewrite Hq, andb_false_r, IH. }
  rewrite Z.add_0_r. apply sumZ_Forall2. apply Forall2_same_length_lookup_2.
  - by eapply Forall2_length.
  - intros i p q Hp Hq. pose proof (Forall2_lookup_lr _ _ _ _ _ _ HF Hp Hq) as [].
    rewrite mk_wallet0, mk_amount0, (krc20_grows d d' p q) by (try done; by apply list_elem_of_lookup_2 in Hp).
    destruct (krc20 d p); [|done]. by rewrite mk_status0.
Qed.

Lemma open_sompi_eq v d : open_sompi v d =
  sumZ (map po_amount_sompi (List.filter (λ p, (po_wallet_id p =? v) &&
    (krc20 d p && negb (status_in (po_status p) [Failed; Confirmed]))) (payouts d))).
Proof. unfold open_sompi. do 2 f_equal. apply List.filter_ext. intros p. by rewrite is_open_eq. Qed.

Lemma krc20_books_kept base d d' : krc20_books base d → keeps_money d d' → krc20_books base d'.
Proof.
  intros [] Hk. pose proof Hk as []. destruct km_payouts0 as (l & new & Hp & HF & Hnew).
  assert (Hback : ∀ q, q ∈ payouts d' → krc20 d' q = true → ∃ p, p ∈ payouts d ∧ krc20 d p = true ∧ money_kept d p q).
  { intros q Hq Hkind. rewrite Hp in Hq. apply elem_of_app in Hq as [Hq|Hq].
    - apply list_elem_of_lookup in Hq as [i Hq]. destruct (Forall2_lookup_r _ _ _ _ _ HF Hq) as (p & Hi & Hm).
      apply list_elem_of_lookup_2 in Hi. exists p. split_and!; [done| |done].
      rewrite <- Hkind. symmetry. by apply krc20_grows; [..|apply Hm].
    - rewrite Forall_forall in Hnew. by rewrite Hnew in Hkind. }
  split; try done.
  - intros q Hq Hkind. destruct (Hback q Hq Hkind) as (p & Hpin & Hpk & []). rewrite mk_status0 by done. auto.
  - intros k' Hk'. destruct (km_transfers0 k' Hk') as (k & Hkin & Hid).
    destruct (kb_transfer0 k Hkin) as (p & Hpin & Hpid & Hpk).
    apply list_elem_of_lookup in Hpin as [i Hi]. destruct (Forall2_lookup_l _ _ _ _ _ HF Hi) as (q & Hq & Hm).
    exists q. split_and!.
    + rewrite Hp. apply elem_of_app. left. by apply list_elem_of_lookup_2 in Hq.
    + rewrite (mk_id _ _ _ Hm). congruence.
    + rewrite <- Hpk. apply krc20_grows; [done..|by apply list_elem_of_lookup_2 in Hi|apply Hm].
  - intros q Hq Hkind Hst. destruct (Hback q Hq Hkind) as (p & Hpin & Hpk & []).
    rewrite mk_id0. apply km_completed0, kb_completed0; [done..|]. by rewrite <- mk_status0.
  - intros v. rewrite km_paid0, kb_paid0. f_equal. symmetry.
    by apply (krc20_sum_kept d d' (λ s, status_in s [Confirmed])).
  - intros v. specialize (kb_reserve0 v). specialize (km_accrued0 v). rewrite km_paid0.
    assert (open_sompi v d' = open_sompi v d) as ->; [|lia]. rewrite !open_sompi_eq.
    by apply (krc20_sum_kept d d' (λ s, negb (status_in s [Failed; Confirmed]))).
Qed.

Lemma Forall2_update_where {A} (R : relation A) `{!Reflexive R} p f (l : list A) :
  (∀ x, R x (f x)) → Forall2 R l (update_where p f l).
Proof. intros Hf. unfold update_where. induction l as [|x l IH]; simpl; constructor; [by destruct (p x)|done]. Qed.

Lemma completed_kept d d' i : grows kt_evolves (transfers d) (transfers d') →
  has_transfer d i Completed → has_transfer d' i Completed.
Proof.
  intros Hg (k & Hk & Hi & Hs). destruct (grows_elem _ _ _ _ Hg Hk) as (k' & Hk' & []).
  exists k'. split_and!; [done|congruence|]. rewrite Hs in kte_status. by destruct (kt_status k').
Qed.

Lemma keeps_money_rows d d' : NoDup (map nr_wallet_id (nacho_rebates d)) → evolves d d' → db_ok d' →
  nacho_rebates d' = nacho_rebates d → Forall2 (money_kept d) (payouts d) (payouts d') →
  map kt_payout_id (transfers d') = map kt_payout_id (transfers d) → keeps_money d d'.
Proof.
  intros Hnd [] Hok Hr HF Hm. unfold paid_of, accrued_of, rebate_get in *. split; try done.
  - exists (payouts d'), []. by rewrite app_nil_r.
  - intros k' Hk'. assert (kt_payout_id k' ∈ map kt_payout_id (transfers d)) as Hin
      by (rewrite <- Hm; by apply list_elem_of_fmap_2).
    apply list_elem_of_fmap in Hin as (k & ? & ?). eauto.
  - intros i. by apply completed_kept.
  - by rewrite Hr.
  - intros v. unfold paid_of, rebate_get. by rewrite Hr.
  - intros v. unfold accrued_of, rebate_get. by rewrite Hr.
Qed.

Lemma update_transfers_ids p f d d' : update_transfers p f d = Ok d' → (∀ k, kt_payout_id (f k) = kt_payout_id k) →
  map kt_payout_id (transfers d') = map kt_payout_id (transfers d).
Proof.
  intros (l & [-> _]%update_checked_Ok & [= <-])%result_bind_Ok Hf. simpl. by apply map_update_where.
Qed.

Lemma update_payouts_money p f d d' d0 : update_payouts p f d = Ok d' → (∀ x, money_kept d0 x (f x)) →
  Forall2 (money_kept d0) (payouts d) (payouts d').
Proof.
  intros (l & [-> _]%update_checked_Ok & [= <-])%result_bind_Ok Hf. simpl. by apply Forall2_update_where; [apply _|].
Qed.

Section steps.
Context {Script : Type} `{!MassCalculator Script} `{!Signer Script} `{!ScriptLib Script}.
Context (treasury_script : Script) (prefix : Prefix).
Abbreviation step := (kstep treasury_script prefix).

Lemma record_commit_money i cf rf h now d d' : record_commit_tx i cf rf h now d = Ok d' →
  nacho_rebates d' = nacho_rebates d ∧ Forall2 (money_kept d) (payouts d) (payouts d') ∧
  map kt_payout_id (transfers d') = map kt_payout_id (transfers d).
Proof.
  intros (d1 & H1 & (d2 & H2 & H3)%result_bind_Ok)%result_bind_Ok.
  pose proof (update_transfers_ids _ _ _ _ H1) as I1. pose proof (update_transfers_ids _ _ _ _ H3) as I3.
  apply update_transfers_frame in H1 as (l1 & ->). pose proof (update_payouts_money _ _ _ _ d H2) as HF.
  apply update_payouts_frame in H2 as (l2 & ->). apply update_transfers_frame in H3 as (l3 & ->).
  split_and!; [done|by apply HF|]. etrans; [by apply I3|by apply I1].
Qed.

Lemma record_reveal_money i h now d d' : record_reveal_tx i h now d = Ok d' →
  nacho_rebates d' = nacho_rebates d ∧ Forall2 (money_kept d) (payouts d) (payouts d') ∧
  map kt_payout_id (transfers d') = map kt_payout_id (transfers d).
Proof.
  intros (d2 & H2 & H3)%result_bind_Ok.
  pose proof (update_transfers_ids _ _ _ _ H3) as I3. pose proof (update_payouts_money _ _ _ _ d H2) as HF.
  apply update_payouts_frame in H2 as (l2 & ->). apply update_transfers_frame in H3 as (l3 & ->).
  split_and!; [done|by apply HF|]. by apply I3.
Qed.

Lemma update_cycles_frame p f d d' : update_cycles p f d = Ok d' → ∃ l, d' = set_cycles l d.
Proof. intros (l & _ & [= <-])%result_bind_Ok. by exists l. Qed.

Lemma set_cycles_twice l1 l2 d : set_cycles l1 (set_cycles l2 d) = set_cycles l1 d.
Proof. done. Qed.

Lemma reconcile_frame cid st now d d' : reconcile_krc20_tx cid st now d = Ok d' →
  ∃ c a, d' = set_audit_log a (set_cycles c d).
Proof.
  intros (d1 & H & [= <-])%result_bind_Ok. destruct st; [| |apply result_bind_Ok in H as (d2 & H2 & H)..|].
  - injection H as ->. exists (cycles d1). eexists. unfold audit_append. by destruct d1.
  - apply update_cycles_frame in H as (l & ->). by eexists _, _.
  - apply update_cycles_frame in H2 as (l2 & ->). apply update_cycles_frame in H as (l & ->). by eexists _, _.
  - apply update_cycles_frame in H2 as (l2 & ->). apply update_cycles_frame in H as (l & ->). by eexists _, _.
  - apply update_cycles_frame in H as (l & ->). by eexists _, _.
Qed.
(** *** Crediting *)

Lemma mark_paid_spec x a now d r d' : mark_paid x a now d = Ok (r, d') →
  (∃ l, d' = set_nacho_rebates l d ∧ map nr_wallet_id l = map nr_wallet_id (nacho_rebates d)) ∧
  ∀ v, paid_of v d' = paid_of v d + (if v =? x then a else 0) ∧ accrued_of v d' = accrued_of v d.
Proof.
  unfold mark_paid. intros H. case_bool_in H; [done|]. unfold paid_of, accrued_of, rebate_get in *.
  destruct (List.find _ (nacho_rebates d)) as [r0|] eqn:F; [|done].
  apply result_bind_Ok in H as (b & Hb & H). case_bool_in H; [|done]. injection H as <- <-.
  assert (b = nr_paid_sompi r0 + a) as ->.
  { unfold to_bigint in Hb. destruct (i64_try_from _) eqn:Ei; [|done]. injection Hb as <-.
    by apply i64_try_from_Some in Ei as [-> _]. }
  split.
  - eexists. split; [done|]. unfold update_where. rewrite map_map. apply map_ext. intros y.
    destruct (Z.eqb_spec (nr_wallet_id y) x); simpl; congruence.
  - intros v. simpl. rewrite find_update_key by done. destruct (Z.eqb_spec v x) as [->|Hne].
    + rewrite F. simpl. apply find_Some in F as [_ Hw]. by rewrite Hw.
    + destruct (List.find (λ y, nr_wallet_id y =? v) (nacho_rebates d)) as [y|] eqn:Fv; simpl; [|lia].
      apply find_Some in Fv as [_ Hv]. rewrite (proj2 (Z.eqb_neq _ _)) by lia. lia.
Qed.

(** The payout a transfer belongs to. *)
Lemma transfer_payout base d i st p : krc20_books base d → has_transfer d i st → get_payout i d = Ok p →
  krc20 d p = true ∧ p ∈ payouts d ∧ po_id p = i.
Proof.
  intros [] (k & Hk & Hi & _) [Hp Hpi]%get_payout_Ok. destruct (kb_transfer0 k Hk) as (q & Hq & Hqi & Hkind).
  assert (q = p) as <-; [|done]. apply (NoDup_map_eq po_id (payouts d)); [apply kb_ok0|done..|congruence].
Qed.

Definition confirm_row (now : Z) (p : Payout) : Payout :=
  po_with Confirmed (po_tx_hash p) (po_krc20_commit_hash p) (po_krc20_reveal_hash p)
    (coalesce (po_submitted_at p) now) (coalesce (po_confirmed_at p) now)
    (po_accepted_daa_score p) (po_failure_reason p) p.

Lemma confirm_once_fresh i now d d' : confirm_krc20_payout_once i now d = Ok (true, d') →
  d' = set_payouts (update_where (not_confirmed i) (confirm_row now) (payouts d)) d ∧
  ∃ q, q ∈ payouts d ∧ not_confirmed i q = true.
Proof.
  intros (d1 & (l & [-> _]%update_checked_Ok & [= <-])%result_bind_Ok & [= Hn <-])%result_bind_Ok. split; [done|].
  apply Nat.eqb_eq in Hn. destruct (List.filter (not_confirmed i) (payouts d)) as [|q l] eqn:F; [done|].
  exists q. apply elem_of_retain. rewrite F. set_solver.
Qed.

Lemma not_confirmed_spec i p : not_confirmed i p = true ↔ po_id p = i ∧ po_status p ≠ Confirmed.
Proof.
  unfold not_confirmed. rewrite andb_true_iff, Z.eqb_eq, negb_true_iff, status_in_false. set_solver.
Qed.

Lemma credit_sum (sel : PayoutStatus → bool) v i now d p : NoDup (map po_id (payouts d)) → p ∈ payouts d →
  po_id p = i → po_status p ≠ Confirmed → krc20 d p = true →
  let sum l := sumZ (map po_amount_sompi
    (List.filter (λ p, (po_wallet_id p =? v) && (krc20 d p && sel (po_status p))) l)) in
  sum (update_where (not_confirmed i) (confirm_row now) (payouts d)) =
  sum (payouts d) + (if v =? po_wallet_id p then po_amount_sompi p else 0) *
    ((if sel Confirmed then 1 else 0) - (if sel (po_status p) then 1 else 0)).
Proof.
  intros Hnd Hp Hi Hs Hk sum. unfold sum. rewrite !sumZ_filter.
  rewrite (sumZ_update po_id _ _ _ i p); [|done|done|done|by apply not_confirmed_spec|by intros y [? _]%not_confirmed_spec].
  change (krc20 d (confirm_row now p)) with (krc20 d p). rewrite Hk. simpl. rewrite (Z.eqb_sym (po_wallet_id p) v).
  destruct (v =? po_wallet_id p), (sel Confirmed), (sel (po_status p)); simpl; lia.
Qed.

Lemma credit_books base i p fresh now d d' : krc20_books base d → has_transfer d i Completed →
  get_payout i d = Ok p → credit_tx i (po_wallet_id p) (po_amount_sompi p) now d = Ok (fresh, d') → krc20_books base d'.
Proof.
  intros Hb Hht Hg H. destruct (transfer_payout _ _ _ _ _ Hb Hht Hg) as (Hkind & Hp & Hpi).
  assert (Hgood : db_ok d').
  { apply (kstep_good treasury_script prefix (d, []) (d', [])); [by eapply k_credit|apply Hb]. }
  apply credit_tx_cases in H as [[_ ->]|(_ & d1 & r & d2 & H1 & H2 & ->)]; [done|].
  apply confirm_once_fresh in H1 as [-> (q & Hq & Hnc)]. apply not_confirmed_spec in Hnc as [Hqi Hqs].
  assert (q = p) as ->.
  { apply (NoDup_map_eq po_id (payouts d)); [apply Hb|done..|congruence]. }
  apply mark_paid_spec in H2 as [(l & -> & Hl) Hpaid].
  destruct Hb. pose proof (ok_payout_ids _ kb_ok0) as Hnd.
  assert (Hst : po_status p = Planned) by (destruct (kb_status0 p Hp Hkind); [done|congruence]).
  assert (Hback : ∀ x, x ∈ update_where (not_confirmed i) (confirm_row now) (payouts d) → ∃ y, y ∈ payouts d ∧
    po_id x = po_id y ∧ po_cycle_id x = po_cycle_id y ∧ (x = y ∨ po_status x = Confirmed ∧ po_id y = i)).
  { intros x (y & Hy & ->)%elem_of_update_where. exists y. case_bool; [|by auto].
    apply not_confirmed_spec in E as [? _]. auto 10. }
  split; simpl; try done.
  - by rewrite Hl.
  - intros x Hx Hk. destruct (Hback x Hx) as (y & Hy & _ & Hc & [->|[-> _]]); [by apply kb_status0|by right].
  - intros k Hk. destruct (kb_transfer0 k Hk) as (y & Hy & Hyi & Hyk).
    exists (if not_confirmed i y then confirm_row now y else y). split; [apply elem_of_update_where; eauto|].
    by case_bool.
  - intros x Hx Hk Hs. destruct (Hback x Hx) as (y & Hy & Hi & Hc & [->|[_ Hyi]]); [by apply kb_completed0|].
    rewrite Hi, Hyi. done.
  - intros v. destruct (Hpaid v) as [Hv _]. etrans; [exact Hv|].
    pose proof (credit_sum (λ s, status_in s [Confirmed]) v i now d p Hnd Hp Hpi Hqs Hkind) as Hc.
    rewrite Hst in Hc. change (status_in Confirmed [Confirmed]) with true in Hc.
    change (status_in Planned [Confirmed]) with false in Hc.
    pose proof (kb_paid0 v) as Hbase. unfold confirmed_nacho in *. simpl in *.
    change (paid_of v (set_payouts _ d)) with (paid_of v d).
    etrans; [|apply (f_equal (Z.add (base v))); symmetry; exact Hc]. lia.
  - intros v. destruct (Hpaid v) as [Hv Ha]. pose proof (kb_reserve0 v) as Hr.
    pose proof (credit_sum (λ s, negb (status_in s [Failed; Confirmed])) v i now d p Hnd Hp Hpi Hqs Hkind) as Hc.
    rewrite Hst in Hc. change (status_in Confirmed [Failed; Confirmed]) with true in Hc.
    change (status_in Planned [Failed; Confirmed]) with false in Hc. simpl in Hc.
    rewrite open_sompi_eq in *. simpl.
    etrans; [apply Z.add_le_mono; [apply Z.eq_le_incl; exact Hv|apply Z.eq_le_incl; exact Hc]|].
    etrans; [|apply Z.eq_le_incl; symmetry; exact Ha].
    change (paid_of v (set_payouts _ d)) with (paid_of v d). change (accrued_of v (set_payouts _ d)) with (accrued_of v d).
    lia.
Qed.
(** *** Planning *)

(** What a wallet may still be promised. *)
Definition affordable (d : Db) (el : Krc20EligibleWallet) : Prop :=
  paid_of (kre_wallet_id el) d + open_sompi (kre_wallet_id el) d + kre_pending_sompi el ≤ accrued_of (kre_wallet_id el) d.

Lemma krc20_eligible_spec m n d els : NoDup (map nr_wallet_id (nacho_rebates d)) →
  list_krc20_eligible_wallets m n d = Ok els → NoDup (map kre_wallet_id els) ∧ Forall (affordable d) els.
Proof.
  intros Hnd (rows & Hrows & [= <-])%result_bind_Ok.
  assert (Hrow : ∀ r b, krc20_row d r = Ok (Some b) → kre_wallet_id b = nr_wallet_id r ∧
    kre_pending_sompi b = nr_accrued_sompi r - nr_paid_sompi r - open_sompi (nr_wallet_id r) d).
  { intros r b. unfold krc20_row, to_bigint. destruct (List.find _ _); [|done]. intros H.
    repeat (case_match; simpl in H; try done). injection H as <-.
    repeat match goal with E : i64_try_from _ = Some _ |- _ => apply i64_try_from_Some in E as [-> _] end. done. }
  unfold limit. split.
  - eapply sublist_NoDup; [|apply sublist_map, sublist_take]. rewrite stable_sort_perm.
    eapply sublist_NoDup; [exact Hnd|]. etrans; [apply sublist_map, retain_sublist|].
    eapply collect_sublist; [|done]. naive_solver.
  - apply Forall_forall. intros el Hel. apply elem_of_take in Hel as (j & Hel & _).
    apply list_elem_of_lookup_2 in Hel. rewrite stable_sort_perm in Hel. apply elem_of_retain in Hel as [Hel _].
    destruct (collect_elem _ _ _ _ Hrows Hel) as (r & Hr & [Hi Hp]%Hrow).
    unfold affordable, paid_of, accrued_of, rebate_get. rewrite Hi.
    destruct (List.find _ (nacho_rebates d)) as [r'|] eqn:F.
    + apply find_Some in F as [Hr' Heq]. assert (r' = r) as ->; [|lia].
      apply (NoDup_map_eq nr_wallet_id (nacho_rebates d)); [done..|]. lia.
    + eapply find_None in Hr; [|done]. simpl in Hr. lia.
Qed.

(** The sums after a new KRC-20 row. *)
Lemma krc20_sum_snoc (sel : PayoutStatus → bool) v d p : krc20 d p = true →
  let sum l := sumZ (map po_amount_sompi
    (List.filter (λ p, (po_wallet_id p =? v) && (krc20 d p && sel (po_status p))) l)) in
  sum (payouts d ++ [p]) = sum (payouts d) +
    (if sel (po_status p) then if v =? po_wallet_id p then po_amount_sompi p else 0 else 0).
Proof.
  intros Hk sum. unfold sum. rewrite List.filter_app, map_app, sumZ_app. simpl. rewrite Hk.
  rewrite (Z.eqb_sym (po_wallet_id p) v). destruct (v =? po_wallet_id p), (sel (po_status p)); simpl; lia.
Qed.

(** Promising a wallet what it can afford. *)
Lemma ensure_payout_books base cid v a now d p d' : krc20_books base d → kind_of d cid = Some Krc20Nacho →
  paid_of v d + open_sompi v d + a ≤ accrued_of v d → ensure_payout cid v a now d = Ok (p, d') →
  krc20_books base d' ∧ p ∈ payouts d' ∧ krc20 d' p = true ∧
  ∃ l, d' = set_payouts l d ∧ ∀ v', v' ≠ v → open_sompi v' d' = open_sompi v' d.
Proof.
  intros Hb Hkind Haff H. pose proof (ensure_payout_spec _ _ _ _ _ _ _ H) as [_ Hok]. specialize (Hok (kb_ok _ _ Hb)).
  unfold ensure_payout in H. case_bool_in H; [|done]. destruct (List.find _ _) as [q|] eqn:F.
  - injection H as <- <-. apply find_Some in F as [Hq Hs]. unfold same_recipient in Hs. bool_hyps.
    split_and!; [done..| |exists (payouts d); by destruct d]. unfold krc20. apply bool_decide_eq_true. rewrite <- Hkind. f_equal. lia.
  - case_bool_in H; [|done]. injection H as <- <-. set (row := new_payout _ _ _ _ _) in *.
    assert (Hrow : krc20 d row = true) by (by apply bool_decide_eq_true).
    assert (Hopen : ∀ v', open_sompi v' (set_payouts (payouts d ++ [row]) d) =
      open_sompi v' d + (if v' =? v then a else 0)).
    { intros v'. rewrite !open_sompi_eq.
      pose proof (krc20_sum_snoc (λ s, negb (status_in s [Failed; Confirmed])) v' d row Hrow) as Hs.
      change (status_in (po_status row) [Failed; Confirmed]) with false in Hs. exact Hs. }
    split_and!; [|simpl; set_solver|done|].
    + destruct Hb. split; simpl; try done.
      * intros x [Hx| ->%list_elem_of_singleton]%elem_of_app Hk; [by apply kb_status0|by left].
      * intros k Hk. destruct (kb_transfer0 k Hk) as (x & Hx & ? & ?). exists x. split_and!; [set_solver|done..].
      * intros x [Hx| ->%list_elem_of_singleton]%elem_of_app Hk Hs; [by apply kb_completed0|done].
      * intros v'. etrans; [exact (kb_paid0 v')|]. f_equal. symmetry. unfold confirmed_nacho.
        pose proof (krc20_sum_snoc (λ s, status_in s [Confirmed]) v' d row Hrow) as Hs.
        change (status_in (po_status row) [Confirmed]) with false in Hs. etrans; [exact Hs|apply Z.add_0_r].
      * intros v'. specialize (kb_reserve0 v'). rewrite Hopen.
        change (paid_of v' (set_payouts _ d)) with (paid_of v' d).
        change (accrued_of v' (set_payouts _ d)) with (accrued_of v' d).
        destruct (Z.eqb_spec v' v) as [->|]; lia.
    + eexists. split; [done|]. intros v' Hne. rewrite Hopen, (proj2 (Z.eqb_neq _ _) Hne). lia.
Qed.
Lemma ensure_krc20_books base p s n addr now d k d' : krc20_books base d → p ∈ payouts d → krc20 d p = true →
  ensure_krc20_pending (po_id p) s n addr now d = Ok (k, d') → krc20_books base d' ∧ ∃ l, d' = set_transfers l d.
Proof.
  intros Hb Hp Hk H. pose proof (ensure_krc20_spec _ _ _ _ _ _ _ _ H) as [Hev Hok]. specialize (Hok (kb_ok _ _ Hb)).
  assert (∃ l, d' = set_transfers l d ∧
    ∀ k', k' ∈ l → kt_payout_id k' = po_id p ∨ ∃ k0, k0 ∈ transfers d ∧ kt_payout_id k0 = kt_payout_id k') as (l & -> & Hl).
  { unfold ensure_krc20_pending in H. case_bool_in H; [|done]. destruct (List.find _ _) as [kf|].
    - apply result_bind_Ok in H as (d1 & (l & [-> _]%update_checked_Ok & [= <-])%result_bind_Ok & [= _ <-]).
      eexists. split; [done|]. intros k' (k0 & Hk0 & ->)%elem_of_update_where. right. exists k0. by case_bool.
    - case_bool_in H; [|done]. injection H as _ <-. eexists. split; [done|].
      intros k' [Hk'| ->%list_elem_of_singleton]%elem_of_app; eauto. }
  split; [|by exists l]. destruct Hb, Hev. split; simpl; try done.
  - intros k' [->|(k0 & Hk0 & <-)]%Hl; [by exists p|by apply kb_transfer0].
  - intros x Hx Hkx Hs. apply (completed_kept d); [done|by apply kb_completed0].
Qed.

Lemma plan_recipient_books base price params amt cid now el d d' :
  krc20_books base d → kind_of d cid = Some Krc20Nacho → affordable d el →
  plan_recipient prefix price params amt cid now el d = Ok (Some d') →
  krc20_books base d' ∧ kind_of d' cid = Some Krc20Nacho ∧
  ∀ el', kre_wallet_id el' ≠ kre_wallet_id el → affordable d el' → affordable d' el'.
Proof.
  unfold plan_recipient. intros Hb Hkind Haff (n & _ & H)%result_bind_Ok. case_bool_in H; [done|].
  destruct (i64_try_from n); [|done]. apply result_bind_Ok in H as (redeem & _ & H).
  apply result_bind_Ok in H as (p2sh & _ & H). apply result_bind_Ok in H as ([p d1] & H1%map_error_Ok & H).
  apply result_bind_Ok in H as ([k d2] & H2%map_error_Ok & [= <-]).
  destruct (ensure_payout_books _ _ _ _ _ _ _ _ Hb Hkind Haff H1) as (Hb1 & Hp & Hpk & l & -> & Hopen).
  destruct (ensure_krc20_books _ _ _ _ _ _ _ _ _ Hb1 Hp Hpk H2) as (Hb2 & l2 & ->).
  split_and!; [done..|]. intros el' Hne Haff'. specialize (Hopen _ Hne). unfold affordable in *.
  change (open_sompi (kre_wallet_id el') (set_transfers l2 (set_payouts l d)))
    with (open_sompi (kre_wallet_id el') (set_payouts l d)). by rewrite Hopen.
Qed.

Lemma plan_recipients20_books base price params amt cid now els t n d r :
  krc20_books base d → kind_of d cid = Some Krc20Nacho → NoDup (map kre_wallet_id els) → Forall (affordable d) els →
  plan_recipients20 prefix price params amt cid now els t n d = Ok r → krc20_books base r.2.
Proof.
  revert t n d. induction els as [|el els IH]; intros t n d Hb Hkind Hnd Haff H; simpl in H; [by injection H as <-|].
  simpl in Hnd. apply NoDup_cons in Hnd as [Hel Hnd]. apply Forall_cons in Haff as [Ha Haff].
  apply result_bind_Ok in H as ([d1|] & H1 & H); [|by eapply IH].
  destruct (plan_recipient_books _ _ _ _ _ _ _ _ _ Hb Hkind Ha H1) as (Hb1 & Hk1 & Hrest).
  eapply (IH _ _ d1 Hb1 Hk1 Hnd); [|exact H]. rewrite Forall_forall in *. intros el' Hel'. apply Hrest; [|auto].
  intros Heq. apply Hel. rewrite <- Heq. by apply list_elem_of_fmap_2.
Qed.

Lemma keeps_money_tables base d d' : krc20_books base d → good_step d d' → nacho_rebates d' = nacho_rebates d →
  payouts d' = payouts d → transfers d' = transfers d → krc20_books base d'.
Proof.
  intros Hb [Hev Hok] Hr Hp Ht. apply (krc20_books_kept _ d); [done|].
  apply keeps_money_rows; [apply Hb|done|by apply Hok, Hb|done| |by rewrite Ht].
  rewrite Hp. reflexivity.
Qed.

Lemma plan_books base price params amt now cid d d' : krc20_books base d →
  find_cycle_by_idempotency_key (idempotency_key Krc20Nacho (kp_daa_start params) (kp_daa_end params)) d = None →
  plan_krc20_tx prefix price params amt now d = Ok (cid, d') → krc20_books base d'.
Proof.
  intros Hb Hnone ([c d1] & H1%map_error_Ok & H)%result_bind_Ok.
  apply result_bind_Ok in H as (els & Hel%map_error_Ok & H).
  apply result_bind_Ok in H as ([[t n] d2] & H2 & H). apply result_bind_Ok in H as (d3 & H3%map_error_Ok & [= _ <-]).
  pose proof (create_cycle_spec _ _ _ _ _ _ _ H1) as Hg1.
  unfold create_cycle in H1. case_bool_in H1; [|done]. unfold find_cycle_by_idempotency_key in Hnone.
  rewrite Hnone in H1. injection H1 as <- <-. set (row := new_cycle _ _ _ _ _) in *.
  assert (Hb1 : krc20_books base (set_cycles (cycles d ++ [row]) d)) by by eapply keeps_money_tables.
  assert (Hkind : kind_of (set_cycles (cycles d ++ [row]) d) (pc_id row) = Some Krc20Nacho).
  { unfold kind_of. cbn [cycles set_cycles]. rewrite find_app.
    destruct (List.find (λ c, pc_id c =? pc_id row) (cycles d)) as [c|] eqn:F.
    - apply find_Some in F as [Hc Heq]. apply (next_id_ne pc_id) in Hc.
      destruct Hc. by apply Z.eqb_eq in Heq.
    - simpl. by rewrite Z.eqb_refl. }
  destruct (krc20_eligible_spec _ _ _ _ (kb_rebates _ _ Hb1) Hel) as [Hnd Haff].
  pose proof (plan_recipients20_books _ _ _ _ _ _ _ _ _ _ _ Hb1 Hkind Hnd Haff H2) as Hb2. simpl in Hb2.
  assert (Hb3 : krc20_books base d3).
  { eapply keeps_money_tables; [exact Hb2|by eapply repo_step_good, step_cycle_totals|..].
    all: by apply update_cycles_frame in H3 as (l & ->). }
  eapply keeps_money_tables; [exact Hb3|apply audit_spec|done..].
Qed.

(** Every step of the engine keeps the books. *)
Lemma kstep_books base s s' : step s s' → krc20_books base s.1 → krc20_books base s'.1.
Proof.
  intros Hst Hb. pose proof (kstep_good _ _ _ _ Hst) as [Hev Hok]. specialize (Hok (kb_ok _ _ Hb)).
  destruct Hst as [price params amt now cid d d' sent Hn H|actor act sub d sent|i cf rf h now d d' sent _ H|i b d sent
    |i c h now d d' sent _ _ H|i c b d sent|i now d d' sent _ H|i p fresh now d d' sent Hht Hg H|cid st now d d' sent H];
    cbn [fst snd] in *; try done.
  - by eapply plan_books.
  - by eapply keeps_money_tables; [|apply audit_spec|..].
  - apply record_commit_money in H as (? & ? & ?). apply (krc20_books_kept _ d); [done|].
    by apply keeps_money_rows; [apply Hb|..].
  - apply record_reveal_money in H as (? & ? & ?). apply (krc20_books_kept _ d); [done|].
    by apply keeps_money_rows; [apply Hb|..].
  - pose proof (update_transfers_ids _ _ _ _ H) as Hids. apply update_transfers_frame in H as (l & ->).
    apply (krc20_books_kept _ d); [done|]. apply keeps_money_rows; [apply Hb|done..| |by apply Hids].
    simpl. reflexivity.
  - by eapply credit_books.
  - apply reconcile_frame in H as (c & a & ->). by eapply keeps_money_tables; [|split|..].
Qed.

Lemma ksteps_books base s s' : rtc step s s' → krc20_books base s.1 → krc20_books base s'.1.
Proof. induction 1; eauto using kstep_books. Qed.
(** ** The wire *)

(** A broadcast is the recorded commit of its payout, or its recorded reveal, which spends that
    commit, and the transfer has moved past the state that decides it. *)
Definition on_record (d : Db) (i : Z) (b : Broadcast Script) : Prop :=
  ∃ k p, k ∈ transfers d ∧ kt_payout_id k = i ∧ p ∈ payouts d ∧ po_id p = i ∧
   (kt_status k ≠ Pending ∧ po_krc20_commit_hash p = Some (tx_id (bc_tx b)) ∨
    kt_status k ∉ [Pending; CommitSubmitted] ∧ po_krc20_reveal_hash p = Some (tx_id (bc_tx b)) ∧
    ∃ c, po_krc20_commit_hash p = Some c ∧ map previous_outpoint (inputs (bc_tx b)) = [p2sh_outpoint c]).

Definition wire_ok (s : kstate (Script:=Script)) : Prop :=
  ∀ b, b ∈ s.2 → ∃ i, map rid (bc_payouts b) = [i] ∧ on_record s.1 i b.

(** Records of a payout survive while its hashes do. *)
Lemma on_record_kept d d' i b : grows kt_evolves (transfers d) (transfers d') →
  (∀ p, p ∈ payouts d → po_id p = i → ∃ q, q ∈ payouts d' ∧ po_id q = i ∧
     po_krc20_commit_hash q = po_krc20_commit_hash p ∧ po_krc20_reveal_hash q = po_krc20_reveal_hash p) →
  on_record d i b → on_record d' i b.
Proof.
  intros Hg Hp (k & p & Hk & Hki & Hpin & Hpi & Hr). destruct (grows_elem _ _ _ _ Hg Hk) as (k' & Hk' & []).
  destruct (Hp p Hpin Hpi) as (q & Hq & Hqi & Hc & Hv). exists k', q. rewrite Hc, Hv.
  split_and!; [done|congruence|done..|].
  destruct Hr as [[Hs ?]|[Hs ?]]; [left|right]; (split; [|done]).
  - by destruct (kt_status k), (kt_status k').
  - destruct (kt_status k), (kt_status k'); try done; set_solver.
Qed.

Lemma wire_ok_kept d d' sent : grows kt_evolves (transfers d) (transfers d') →
  (∀ p, p ∈ payouts d → ∃ q, q ∈ payouts d' ∧ po_id q = po_id p ∧
     po_krc20_commit_hash q = po_krc20_commit_hash p ∧ po_krc20_reveal_hash q = po_krc20_reveal_hash p) →
  wire_ok (d, sent) → wire_ok (d', sent).
Proof.
  intros Hg Hp Hw b Hb. destruct (Hw b Hb) as (i & Hi & Hr). exists i. split; [done|].
  apply (on_record_kept d); [done| |done]. intros p Hpin <-. by apply Hp.
Qed.

Lemma wire_ok_same d d' sent : grows kt_evolves (transfers d) (transfers d') → payouts d' = payouts d →
  wire_ok (d, sent) → wire_ok (d', sent).
Proof. intros Hg Hp. apply wire_ok_kept; [done|]. rewrite Hp. eauto 10. Qed.

Lemma wire_ok_send d sent b i : map rid (bc_payouts b) = [i] → on_record d i b →
  wire_ok (d, sent) → wire_ok (d, sent ++ [b]).
Proof. intros Hi Hr Hw b' [Hb| ->%list_elem_of_singleton]%elem_of_app; [by apply Hw|by exists i]. Qed.

(** Recording for payout [i]: the broadcasts of [i] are dealt with, the others keep their rows. *)
Lemma wire_ok_record i f d d' sent : evolves d d' →
  payouts d' = update_where (λ p, po_id p =? i) f (payouts d) → (∀ p, po_id (f p) = po_id p) →
  (∀ b, on_record d i b → on_record d' i b) → wire_ok (d, sent) → wire_ok (d', sent).
Proof.
  intros Hev Hp Hf Hi Hw b Hb. destruct (Hw b Hb) as (j & Hj & Hr). exists j. split; [done|]. cbn [fst] in *.
  destruct (decide (j = i)) as [->|Hne]; [by apply Hi|]. apply (on_record_kept d); [apply Hev| |done].
  intros p Hpin <-. exists p. split_and!; [|done..]. rewrite Hp. apply elem_of_update_where. exists p.
  split; [done|]. by rewrite (proj2 (Z.eqb_neq _ _) Hne).
Qed.

Lemma transfer_unique d k i st : db_ok d → has_transfer d i st → k ∈ transfers d → kt_payout_id k = i → kt_status k = st.
Proof.
  intros Hd (k' & Hk' & Hi & <-) Hk Hki. f_equal.
  apply (NoDup_map_eq kt_payout_id (transfers d)); [apply Hd|done..|congruence].
Qed.

Lemma ensure_payout_keeps cid v a now d p d' x : ensure_payout cid v a now d = Ok (p, d') → x ∈ payouts d → x ∈ payouts d'.
Proof.
  unfold ensure_payout. intros H Hx. case_bool_in H; [|done]. destruct (List.find _ _); [by injection H as _ <-|].
  case_bool_in H; [|done]. injection H as _ <-. simpl. set_solver.
Qed.

Lemma ensure_krc20_payouts i s n addr now d k d' : ensure_krc20_pending i s n addr now d = Ok (k, d') →
  payouts d' = payouts d.
Proof.
  unfold ensure_krc20_pending. intros H. case_bool_in H; [|done]. destruct (List.find _ _).
  - by apply result_bind_Ok in H as (d1 & (l & ->)%update_transfers_frame & [= _ <-]).
  - case_bool_in H; [|done]. by injection H as _ <-.
Qed.

(** Planning appends rows and changes none. *)
Lemma plan_recipients20_keeps price params amt cid now els t n d r x :
  plan_recipients20 prefix price params amt cid now els t n d = Ok r → x ∈ payouts d → x ∈ payouts r.2.
Proof.
  revert t n d. induction els as [|el els IH]; intros t n d H Hx; simpl in H; [by injection H as <-|].
  apply result_bind_Ok in H as ([d1|] & H1 & H); [|by eapply IH]. eapply IH; [exact H|].
  unfold plan_recipient in H1. apply result_bind_Ok in H1 as (m & _ & H1). case_bool_in H1; [done|].
  destruct (i64_try_from m); [|done]. apply result_bind_Ok in H1 as (redeem & _ & H1).
  apply result_bind_Ok in H1 as (p2sh & _ & H1). apply result_bind_Ok in H1 as ([p d2] & H2%map_error_Ok & H1).
  apply result_bind_Ok in H1 as ([k d3] & H3%map_error_Ok & [= <-]).
  rewrite (ensure_krc20_payouts _ _ _ _ _ _ _ _ H3). by eapply ensure_payout_keeps.
Qed.

Lemma plan_keeps price params amt now d r x :
  plan_krc20_tx prefix price params amt now d = Ok r → x ∈ payouts d → x ∈ payouts r.2.
Proof.
  intros ([c d1] & H1%map_error_Ok & H)%result_bind_Ok Hx. apply result_bind_Ok in H as (els & _ & H).
  apply result_bind_Ok in H as ([[t n] d2] & H2 & H).
  apply result_bind_Ok in H as (d3 & (l & ->)%map_error_Ok%update_cycles_frame & [= <-]). simpl.
  apply (plan_recipients20_keeps _ _ _ _ _ _ _ _ _ _ _ H2). unfold create_cycle in H1. case_bool_in H1; [|done].
  by destruct (List.find _ _); injection H1 as _ <-.
Qed.

Lemma record_commit_payouts i cf rf h now d d' : record_commit_tx i cf rf h now d = Ok d' →
  payouts d' = update_where (λ p, po_id p =? i) (λ p, po_with (po_status p) (po_tx_hash p) (Some h)
    (po_krc20_reveal_hash p) (po_submitted_at p) (po_confirmed_at p) (po_accepted_daa_score p)
    (po_failure_reason p) p) (payouts d).
Proof.
  intros (d1 & (l1 & ->)%update_transfers_frame & (d2 & H2 & (l3 & ->)%update_transfers_frame)%result_bind_Ok)%result_bind_Ok.
  by apply result_bind_Ok in H2 as (l & [-> _]%update_checked_Ok & [= <-]).
Qed.

Lemma record_reveal_payouts i h now d d' : record_reveal_tx i h now d = Ok d' →
  payouts d' = update_where (λ p, po_id p =? i) (λ p, po_with (po_status p) (po_tx_hash p)
    (po_krc20_commit_hash p) (Some h) (po_submitted_at p) (po_confirmed_at p) (po_accepted_daa_score p)
    (po_failure_reason p) p) (payouts d).
Proof.
  intros (d2 & H2 & (l3 & ->)%update_transfers_frame)%result_bind_Ok.
  by apply result_bind_Ok in H2 as (l & [-> _]%update_checked_Ok & [= <-]).
Qed.

(** Only the commit of a transfer in [commit_submitted] can be on the wire; recording the reveal keeps it. *)
Lemma record_reveal_on_record i h now d d' b : db_ok d → has_transfer d i CommitSubmitted →
  record_reveal_tx i h now d = Ok d' → on_record d i b → on_record d' i b.
Proof.
  intros Hok Hht H (k & p & Hk & Hki & Hp & Hpi & Hr). pose proof (transfer_unique _ _ _ _ Hok Hht Hk Hki) as Hs.
  rewrite Hs in Hr. destruct Hr as [[_ Hc]|[Hn _]]; [|set_solver].
  destruct (moves_transfer _ _ _ _ _ _ (record_reveal_moves _ _ _ _ _ H) Hht) as (k' & Hk' & Hki' & Hs').
  pose proof (record_reveal_payouts _ _ _ _ _ H) as Hpay. eexists k', _. split_and!; [done..| | |].
  - rewrite Hpay. apply elem_of_update_where. exists p. split; [done|reflexivity].
  - by rewrite Hpi, Z.eqb_refl.
  - left. rewrite Hs', Hpi, Z.eqb_refl. done.
Qed.

Lemma credit_hashes i v a now d fresh d' p : credit_tx i v a now d = Ok (fresh, d') → p ∈ payouts d →
  ∃ q, q ∈ payouts d' ∧ po_id q = po_id p ∧ po_krc20_commit_hash q = po_krc20_commit_hash p ∧
    po_krc20_reveal_hash q = po_krc20_reveal_hash p.
Proof.
  intros [[_ ->]|(_ & d1 & r & d2 & [-> _]%confirm_once_fresh & (l & ->)%mark_paid_frame & ->)]%credit_tx_cases Hp; [eauto 10|].
  simpl. eexists. split; [apply elem_of_update_where; exists p; split; [done|reflexivity]|]. by case_bool.
Qed.

(** Every step of the engine keeps the wire. *)
Lemma kstep_wire s s' : step s s' → db_ok s.1 → wire_ok s → wire_ok s'.
Proof.
  intros Hst Hok Hw. pose proof (kstep_good _ _ _ _ Hst) as [Hev _].
  destruct Hst as [price params amt now cid d d' sent Hn H|actor act sub d sent|i cf rf h now d d' sent Hht H
    |i b d sent Hht Hc Hb|i c h now d d' sent Hht Hc H|i c b d sent Hht Hr Hb|i now d d' sent _ H
    |i p fresh now d d' sent Hht Hg H|cid st now d d' sent H]; cbn [fst snd] in *.
  - apply (wire_ok_kept d); [apply Hev| |done]. intros p Hp. exists p.
    split_and!; [by apply (plan_keeps _ _ _ _ _ _ _ H)|done..].
  - by apply (wire_ok_same d).
  - eapply (wire_ok_record i); [done|by apply (record_commit_payouts _ _ _ _ _ _ _ H)|done| |done].
    intros b (k & p & Hk & Hki & _ & _ & Hr). exfalso. pose proof (transfer_unique _ _ _ _ Hok Hht Hk Hki) as Hs.
    rewrite Hs in Hr. destruct Hr as [[? _]|[? _]]; [done|set_solver].
  - destruct Hb as [Hi _]. apply (wire_ok_send _ _ _ i); [done| |done].
    destruct Hht as (k & Hk & Hki & Hs), Hc as (p & Hp & Hpi & Hh). exists k, p. split_and!; [done..|]. left.
    by rewrite Hs.
  - eapply (wire_ok_record i); [done|by apply (record_reveal_payouts _ _ _ _ _ H)|done| |done].
    intros b. by eapply record_reveal_on_record.
  - destruct Hb as (Hi & Hin & _). apply (wire_ok_send _ _ _ i); [done| |done].
    destruct Hht as (k & Hk & Hki & Hs), Hr as (p & Hp & Hpi & Hh & Hv). exists k, p. split_and!; [done..|]. right.
    rewrite Hs. split_and!; [set_solver|done|by exists c].
  - apply (wire_ok_same d); [apply Hev| |done]. by apply update_transfers_frame in H as (l & ->).
  - apply (wire_ok_kept d); [apply Hev| |done]. intros q Hq. by eapply credit_hashes.
  - apply (wire_ok_same d); [apply Hev| |done]. by apply reconcile_frame in H as (x & a & ->).
Qed.

Lemma ksteps_wire s s' : rtc step s s' → db_ok s.1 → wire_ok s → wire_ok s'.
Proof.
  induction 1 as [|x y z Hxy _ IH]; [done|]. intros Hok Hw. apply IH; [by apply (kstep_good _ _ _ _ Hxy)|].
  by eapply kstep_wire.
Qed.
End steps.

(** ** The system: ticks of the engine among other services *)

(** What the accountant and the KAS engine do meanwhile: they accrue, they move their own payouts,
    they open their own cycles; no KRC-20 row and no transfer is theirs. *)
Record other_services (d d' : Db) : Prop := {
  os_money : keeps_money d d';
  os_transfers : transfers d' = transfers d;
  os_rows : ∀ p, p ∈ payouts d → krc20 d p = true → p ∈ payouts d';
}.

(** The accountant's accrual is such a service. *)
Lemma accrue_other w delta now d r d' : db_ok d → NoDup (map nr_wallet_id (nacho_rebates d)) →
  accrue w delta now d = Ok (r, d') → other_services d d'.
Proof.
  intros Hok Hnd H. assert (Hd : 0 ≤ delta) by (unfold accrue in H; case_bool_in H; [done|lia]).
  assert (Hrows : ∃ l, d' = set_nacho_rebates l d ∧ NoDup (map nr_wallet_id l) ∧
    ∀ v, paid_of v (set_nacho_rebates l d) = paid_of v d).
  { unfold accrue, rebate_upsert, rebate_get in H. case_bool_in H; [done|].
    unfold paid_of, rebate_get. destruct (List.find _ (nacho_rebates d)) as [r0|] eqn:F.
    - apply result_bind_Ok in H as (a & _ & H). case_bool_in H; [|done]. injection H as _ <-.
      eexists. split_and!; [done| |].
      + unfold update_where. rewrite map_map. rewrite (map_ext _ nr_wallet_id); [done|]. intros x.
        destruct (Z.eqb_spec (nr_wallet_id x) w); simpl; congruence.
      + intros v. simpl. rewrite find_update_key by done.
        destruct (List.find (λ y, nr_wallet_id y =? v) (nacho_rebates d)) as [y|] eqn:Fv; [|done]. simpl.
        destruct (Z.eqb_spec (nr_wallet_id y) w) as [<-|]; [|done]. simpl.
        apply find_Some in Fv as [Hy _]. apply find_Some in F as [Hr0 He].
        rewrite (NoDup_map_eq nr_wallet_id (nacho_rebates d) r0 y); [done..|lia].
    - case_bool_in H; [|done]. injection H as _ <-. eexists. split_and!; [done| |].
      + apply NoDup_snoc; [done|]. intros y Hy He. eapply find_None in Hy; [|done]. simpl in *. lia.
      + intros v. simpl. rewrite find_app.
        destruct (List.find (λ y, nr_wallet_id y =? v) (nacho_rebates d)); [done|]. simpl.
        by destruct (w =? v). }
  destruct Hrows as (l & -> & Hl & Hpaid). apply accrue_spec in H as [_ Hacc]. split; [split|..]; simpl; try done.
  - by apply db_ok_rebates.
  - exists (payouts d), []. by rewrite app_nil_r.
  - eauto.
  - intros v. rewrite Hacc. case_bool; lia.
Qed.

Section system.
Context {Script : Type} `{!MassCalculator Script} `{!Signer Script} `{!ScriptLib Script}.
Context `{!SignerOk Script} `{!TxIdOk Script}.
Context (treasury_script : Script) (prefix : Prefix).
Implicit Types (w : World Script) (b : Broadcast Script).

(** One step: a tick under any configuration, price and replies, or other services. *)
Inductive krc20_sys w : World Script → Prop :=
| krc20_tick config quote polls replies :
    krc20_sys w (krc20_run_once treasury_script prefix config quote polls (world_replies replies w)).2
| krc20_other d : other_services (w_db w) d → krc20_sys w (world_db d w).

Definition krc20_inv (base : Z → Z) w : Prop := krc20_books base (w_db w) ∧ wire_ok (w_db w, w_sent w).

Lemma other_wire base d d' sent : krc20_books base d → other_services d d' → wire_ok (Script:=Script) (d, sent) →
  wire_ok (d', sent).
Proof.
  intros Hb [_ Ht Hr] Hw b Hin. destruct (Hw b Hin) as (i & Hi & Hrec). exists i. split; [done|].
  destruct Hrec as (k & p & Hk & Hki & Hp & Hpi & Hrec). exists k, p. cbn [fst] in *. rewrite Ht. split_and!; try done.
  apply Hr; [done|]. destruct (kb_transfer _ _ Hb k Hk) as (q & Hq & Hqi & Hqk).
  rewrite <- (NoDup_map_eq po_id (payouts d) q p); [done|apply Hb|done..|congruence].
Qed.

Lemma krc20_sys_inv base w w' : krc20_sys w w' → krc20_inv base w → krc20_inv base w'.
Proof.
  intros [config quote polls replies|d Hd] [Hb Hw].
  - assert (follows treasury_script prefix (w_db w, w_sent w) []
      (krc20_run_once treasury_script prefix config quote polls (world_replies replies w)).2) as [Hst _].
    { apply krc20_run_once_follows; [apply Hb|]. split; [done|]. by intros k ?%not_elem_of_nil. }
    split; [by apply (ksteps_books _ _ _ _ _ Hst)|by apply (ksteps_wire _ _ _ _ Hst); [apply Hb|]].
  - split; [by eapply krc20_books_kept, Hd|by eapply other_wire].
Qed.

Lemma krc20_steps_inv base w w' : rtc krc20_sys w w' → krc20_inv base w → krc20_inv base w'.
Proof. induction 1; eauto using krc20_sys_inv. Qed.

Lemma krc20_start base w : krc20_books base (w_db w) → w_sent w = [] → krc20_inv base w.
Proof. intros Hb Hs. split; [done|]. intros b Hin. cbn [snd] in Hin. rewrite Hs in Hin. by apply not_elem_of_nil in Hin. Qed.

(** [b'] spends the locked output of [b] and nothing else. *)
Definition reveals_of b b' : Prop := map previous_outpoint (inputs (bc_tx b')) = [p2sh_outpoint (tx_id (bc_tx b))].

(** C5: No crash, lost acknowledgement, refused query or rebroadcast makes the engine send a payout's
    tokens twice: everything ever put on the wire for a payout is its recorded commit or its
    recorded reveal, so any two of its broadcasts are the same transaction or a commit and the one
    reveal that spends it. *)
Theorem krc20_never_double_pays base w0 w :
  krc20_books base (w_db w0) → w_sent w0 = [] → rtc krc20_sys w0 w →
  (∀ b, b ∈ w_sent w → ∃ i, map rid (bc_payouts b) = [i] ∧ on_record (w_db w) i b) ∧
  (∀ b1 b2, b1 ∈ w_sent w → b2 ∈ w_sent w → map rid (bc_payouts b1) = map rid (bc_payouts b2) →
     tx_id (bc_tx b1) = tx_id (bc_tx b2) ∨ reveals_of b1 b2 ∨ reveals_of b2 b1).
Proof.
  intros Hb Hs Hst. apply (krc20_steps_inv base) in Hst as [Hbk Hw]; [|by apply krc20_start]. split; [exact Hw|].
  intros b1 b2 H1 H2 He. destruct (Hw b1 H1) as (i & Hi1 & k1 & p1 & _ & _ & Hp1 & Hpi1 & Hr1).
  destruct (Hw b2 H2) as (j & Hi2 & k2 & p2 & _ & _ & Hp2 & Hpi2 & Hr2). cbn [fst] in *.
  assert (j = i) as -> by congruence.
  assert (p2 = p1) as -> by (apply (NoDup_map_eq po_id (payouts (w_db w))); [apply Hbk|done..|congruence]).
  unfold reveals_of. destruct Hr1 as [[_ Hc1]|(_ & Hv1 & c1 & Hc1 & Hin1)], Hr2 as [[_ Hc2]|(_ & Hv2 & c2 & Hc2 & Hin2)].
  - left. congruence.
  - right. left. rewrite Hin2. congruence.
  - right. right. rewrite Hin1. congruence.
  - left. congruence.
Qed.

(** C6: The rebate ledger is exact in every reachable state: a wallet has been marked paid exactly the
    sum of its confirmed KRC-20 payouts, each of them once and each backed by a completed transfer,
    and what is paid together with what is promised never exceeds what was accrued. *)
Theorem krc20_credits_exactly base w0 w :
  krc20_books base (w_db w0) → w_sent w0 = [] → rtc krc20_sys w0 w →
  (∀ v, paid_of v (w_db w) = base v + confirmed_nacho v (w_db w) ∧
        paid_of v (w_db w) + open_sompi v (w_db w) ≤ accrued_of v (w_db w)) ∧
  (∀ p, p ∈ payouts (w_db w) → krc20 (w_db w) p = true → po_status p = Confirmed →
     has_transfer (w_db w) (po_id p) Completed).
Proof.
  intros Hb Hs Hst. apply (krc20_steps_inv base) in Hst as [[] _]; [|by apply krc20_start]. auto.
Qed.
End system.

(** ** Crediting *)

Lemma open_covers base d p : krc20_books base d → p ∈ payouts d → krc20 d p = true → po_status p = Planned →
  po_amount_sompi p ≤ open_sompi (po_wallet_id p) d.
Proof.
  intros Hb Hp Hk Hs. rewrite open_sompi_eq. apply sumZ_elem_le.
  - apply List.Forall_map, Forall_forall. intros q [Hq _]%elem_of_retain.
    pose proof (proj1 (Forall_forall _ _) (ok_payout_checks _ (kb_ok _ _ Hb)) q Hq) as Hc.
    simpl in Hc. unfold payout_check in Hc. bool_hyps. lia.
  - apply list_elem_of_fmap_2, elem_of_retain. split; [done|]. rewrite Z.eqb_refl, Hk, Hs. done.
Qed.

Lemma filter_single {A} (P : A → bool) l x : NoDup l → x ∈ l → P x = true → (∀ y, y ∈ l → P y = true → y = x) →
  List.filter P l = [x].
Proof.
  intros Hnd Hx Px Hu. induction l as [|y l IH]; [by apply not_elem_of_nil in Hx|].
  apply NoDup_cons in Hnd as [Hy Hnd]. simpl. destruct (P y) eqn:Py.
  - assert (y = x) as -> by (apply Hu; [set_solver|done]). f_equal. apply filter_none, Forall_forall.
    intros z Hz. destruct (P z) eqn:Pz; [|done]. by rewrite (Hu z) in Hz by (set_solver || done).
  - apply elem_of_cons in Hx as [->|Hx]; [congruence|]. apply IH; [done..|]. intros z Hz. apply Hu. set_solver.
Qed.

(** A payment the balance covers goes through. *)
Lemma mark_paid_lands v a now d : Forall (λ r, rebate_check r = true ∧ nr_accrued_sompi r ≤ i64_max) (nacho_rebates d) →
  0 < a → paid_of v d + a ≤ accrued_of v d → ∃ r d', mark_paid v a now d = Ok (r, d').
Proof.
  intros Hr Ha Hle. unfold mark_paid. rewrite (proj2 (Z.ltb_ge a 0)) by lia. unfold paid_of, accrued_of in Hle.
  destruct (rebate_get v d) as [r|] eqn:F; [|lia]. unfold rebate_get in F. apply find_Some in F as [Hin _].
  rewrite Forall_forall in Hr. destruct (Hr r Hin) as [Hc Hmax]. unfold rebate_check in Hc. bool_hyps.
  assert (to_bigint (nr_paid_sompi r + a) = Ok (nr_paid_sompi r + a)) as ->.
  { unfold to_bigint, i64_try_from. case_bool; [done|]. mlia. }
  cbn [mbind result_bind]. unfold rebate_check. cbn [nr_accrued_sompi nr_paid_sompi].
  rewrite (proj2 (andb_true_iff _ _)); [by eexists _, _|]. rewrite andb_true_iff. lia.
Qed.

(** The [paid <= accrued] constraint never rejects a credit: for an uncredited completed transfer
    the credit transaction goes through, confirms the payout and pays its wallet the whole amount. *)
Theorem krc20_credit_lands base d i p now :
  krc20_books base d → Forall (λ r, rebate_check r = true ∧ nr_accrued_sompi r ≤ i64_max) (nacho_rebates d) →
  has_transfer d i Completed → get_payout i d = Ok p → po_status p = Planned →
  po_submitted_at p = None → po_confirmed_at p = None → po_planned_at p ≤ now →
  ∃ d', credit_tx i (po_wallet_id p) (po_amount_sompi p) now d = Ok (true, d') ∧
    (∃ q, get_payout i d' = Ok q ∧ po_status q = Confirmed) ∧
    paid_of (po_wallet_id p) d' = paid_of (po_wallet_id p) d + po_amount_sompi p.
Proof.
  intros Hb Hrange Hht Hg Hs Hsub Hcon Hnow. destruct (transfer_payout _ _ _ _ _ Hb Hht Hg) as (Hkind & Hp & Hpi).
  pose proof (open_covers _ _ _ Hb Hp Hkind Hs) as Hopen. pose proof (kb_reserve _ _ Hb (po_wallet_id p)) as Hres.
  pose proof (proj1 (Forall_forall _ _) (ok_payout_checks _ (kb_ok _ _ Hb)) p Hp) as Hc. simpl in Hc.
  pose proof (ok_payout_ids _ (kb_ok _ _ Hb)) as Hnd.
  set (d1 := set_payouts (update_where (not_confirmed i) (confirm_row now) (payouts d)) d).
  assert (Hone : ∀ x, x ∈ payouts d → not_confirmed i x = true → x = p).
  { intros x Hx [Hxi _]%not_confirmed_spec. apply (NoDup_map_eq po_id (payouts d)); [done..|congruence]. }
  assert (Hconf : confirm_krc20_payout_once i now d = Ok (true, d1)).
  { unfold confirm_krc20_payout_once, update_payouts, update_checked. rewrite (proj2 (forallb_forall _ _)).
    2:{ intros x Hx%list_elem_of_In. destruct (not_confirmed i x) eqn:E; [|done]. rewrite (Hone x Hx E).
        unfold payout_check in *. simpl. rewrite Hsub, Hcon. bool_hyps. simpl. rewrite !andb_true_iff. split_and!; try done; lia. }
    cbn [mbind result_bind]. do 2 f_equal. apply Nat.eqb_eq. rewrite (filter_single _ _ p); [done|by eapply NoDup_fmap_1|done| |done].
    apply not_confirmed_spec. by rewrite Hs. }
  assert (0 < po_amount_sompi p) by (unfold payout_check in Hc; bool_hyps; lia).
  destruct (mark_paid_lands (po_wallet_id p) (po_amount_sompi p) now d1) as (r & d2 & Hpay); [done|done| |].
  { change (paid_of (po_wallet_id p) d1) with (paid_of (po_wallet_id p) d).
    change (accrued_of (po_wallet_id p) d1) with (accrued_of (po_wallet_id p) d). lia. }
  eexists. split; [unfold credit_tx; rewrite Hconf; cbn [mbind result_bind]; by rewrite Hpay|].
  pose proof (mark_paid_spec _ _ _ _ _ _ Hpay) as [(l & -> & _) Hpaid]. split.
  - exists (confirm_row now p). split; [|done]. unfold get_payout. simpl. rewrite find_update_where by done.
    unfold get_payout in Hg. destruct (List.find _ (payouts d)) as [x|]; [|done]. injection Hg as ->. simpl.
    rewrite (proj2 (not_confirmed_spec i p)); [done|]. by rewrite Hs.
  - destruct (Hpaid (po_wallet_id p)) as [Hv _]. rewrite Z.eqb_refl in Hv. exact Hv.
Qed.

(** Crediting reads the oldest completed rows: once [n] of them are credited, a pass of [n] rows
    changes nothing, so a transfer that completes later is never credited. *)
Theorem credit_starves {Script} n (w : World Script) :
  NoDup (map po_id (payouts (w_db w))) →
  (∀ k, k ∈ list_krc20_by_status [Completed] n (w_db w) →
     ∃ p, p ∈ payouts (w_db w) ∧ po_id p = kt_payout_id k ∧ po_status p = Confirmed) →
  w_db (credit_completed_transfers n w).2 = w_db w.
Proof.
  intros Hnd Hall. set (I := λ w' : World Script, w_db w' = w_db w).
  assert (HI : suffix_closed I) by (by intros ? ? ? _ ?).
  cut (wp I (credit_completed_transfers n) (λ _ _, True) w); [by intros []|].
  unfold credit_completed_transfers. apply wp_bind, wp_map_err, wp_query; [done..|]. intros ks rs _ [= <-].
  eapply wp_mono; [|done].
  apply (wp_for_each _ _ _ (λ ks _ w', I w' ∧ ∀ k, k ∈ ks → ∃ p, p ∈ payouts (w_db w) ∧ po_id p = kt_payout_id k ∧
    po_status p = Confirmed)); [|by intros ? ? [? _]|done].
  intros k rest rep w1 [Hw1 Hks]. unfold I in Hw1. unfold credit_transfer.
  apply wp_bind, wp_map_err, wp_query; [done..|]. intros row rs1 _ _.
  apply wp_bind, wp_map_err, wp_transact; [done..|]. intros now fresh d rs2 _ Hd.
  assert (d = w_db w) as ->.
  { apply credit_tx_cases in Hd as [[_ ->]|(_ & d1 & r & d2 & [_ (q & Hq & [Hqi Hqs]%not_confirmed_spec)]%confirm_once_fresh & _)]; [done|].
    cbn [w_db world_replies] in Hq. rewrite Hw1 in Hq. destruct (Hks k) as (p & Hp & Hpi & Hps); [set_solver|].
    assert (q = p) as ->; [|done]. apply (NoDup_map_eq po_id (payouts (w_db w))); [done..|congruence]. }
  split; [done|]. apply wp_ret; [done|]. split; [done|]. intros k' Hk'. apply Hks. set_solver.
Qed.
