(* ===== verification/Krc20Demo.v ===== *)
(** * The KRC-20 engine on a concrete ledger

    Three ticks on the stand-in chain of [Krc20PlanProps] take one rebate
    balance from accrual to credit; the witnesses of the theorems on the
    engine are taken from this run. *)

From S2P Require Import Prelude Float64 Mass Fee Planner Db PayoutRepo PayoutSpec Effects KasCycle KasExecute.
From S2P Require Import Domain AccountRepo Accountant AccountantProps Rebate Krc20Plan Krc20PlanProps.
From S2P Require Import Krc20Cycle Krc20Execute Krc20Spec Krc20Safety.
Import Chain.
Local Open Scope Z_scope.

Module Run.
Definition db : Db :=
  set_nacho_rebates [{| nr_wallet_id := 1; nr_accrued_sompi := 5000000000; nr_paid_sompi := 0; nr_updated_at := 0 |}]
    {| wallets := [{| w_id := 1; w_address := "kaspa:aaaaaaaaaa"; w_network := "mainnet" |}];
       shares := []; share_windows := []; coinbase_rewards := []; share_allocations := []; nacho_rebates := [];
       cycles := []; payouts := []; transfers := []; blocks := []; audit_log := []; treasury_snapshots := []; scan_plan := λ _ _, table_order |}.

Definition net : @Prefix Z scripts := tt.
Definition start : World Z := {| w_db := db; w_sent := []; w_replies := [] |}.

Definition engine : Krc20PayoutEngineConfig :=
  {| kg_cycle_span_daa := 1000; kg_mode := Live; kg_min_pending_sompi := DEFAULT_MIN_PENDING_SOMPI;
     kg_min_nacho_base_units := DEFAULT_MIN_NACHO_BASE_UNITS; kg_ticker := NACHO_TICK;
     kg_commit_amount_sompi := DEFAULT_COMMIT_AMOUNT_SOMPI; kg_batch_limit := 10;
     kg_max_nacho_base_units_per_cycle := None |}.
Definition price : result QuoteError FloorPrice := Ok {| mantissa := 365; scale := 6 |}.

Definition served (now daa : Z) (coins : list (TreasuryUtxo Z)) : list (Reply Z) :=
  replicate 40 (Proceed now {| nv_virtual_daa_score := daa; nv_treasury_utxos := coins; nv_feerate := f64_of_Z 1;
    nv_in_mempool := λ _, false |}).

Definition tick (replies : list (Reply Z)) (w : World Z) : World Z :=
  (krc20_run_once 7 net engine price 3 (world_replies replies w)).2.

(** The last transaction put on the wire. *)
Definition last_id (w : World Z) : Hash := match rev (w_sent w) with b :: _ => tx_id (bc_tx b) | [] => 0 end.

(** The first tick dies after submitting the commit; the second, not seeing it, submits it again;
    the third reveals it and the fourth completes and credits it. *)
Definition crashed : World Z := tick (take 15 (served 100 5100 rich)) start.
Definition committed : World Z := tick (served 150 5150 rich) crashed.
Definition revealed : World Z := tick (served 200 5200 [coin_of (last_id committed) DEFAULT_COMMIT_AMOUNT_SOMPI]) committed.
Definition credited : World Z := tick (served 300 5300 [coin_of (last_id revealed) 19000000]) revealed.
(** The fourth tick dying between completion and credit. *)
Definition completed : World Z := tick (take 12 (served 300 5300 [coin_of (last_id revealed) 19000000])) revealed.

(** Two completed transfers, the older one credited. *)
Definition payout (i : Z) (st : PayoutStatus) : Payout :=
  {| po_id := i; po_cycle_id := 1; po_wallet_id := i; po_amount_sompi := 1000000000; po_status := st;
     po_tx_hash := None; po_krc20_commit_hash := Some (10 + i); po_krc20_reveal_hash := Some (20 + i);
     po_planned_at := 0; po_submitted_at := None; po_confirmed_at := None; po_accepted_daa_score := None;
     po_failure_reason := None |}.
Definition moved (i : Z) : Krc20PendingTransfer :=
  {| kt_id := i; kt_payout_id := i; kt_sompi_to_miner := 20000000; kt_nacho_amount := 100; kt_p2sh_address := "p2sh";
     kt_status := Completed; kt_commit_fee_sompi := Some 1; kt_reveal_fee_sompi := Some 1; kt_created_at := i;
     kt_updated_at := 9 |}.
Definition backlog : World Z :=
  {| w_db := set_payouts [payout 1 Confirmed; payout 2 Planned] (set_transfers [moved 1; moved 2] db);
     w_sent := []; w_replies := served 400 5400 [] |}.
End Run.

Lemma run_db_ok : db_ok Run.db.
Proof. split; by_computation. Qed.

Lemma run_books : krc20_books (λ _, 0) Run.db.
Proof.
  split; [exact run_db_ok|by_computation|..].
  - by intros p ?%not_elem_of_nil.
  - by intros k ?%not_elem_of_nil.
  - by intros p ?%not_elem_of_nil.
  - intros v. unfold paid_of, rebate_get. simpl. by case_bool.
  - intros v. unfold paid_of, accrued_of, rebate_get. simpl. case_bool; by vm_compute.
Qed.

Lemma tick_step replies w : krc20_sys 7 Run.net w (Run.tick replies w).
Proof. apply (krc20_tick 7 Run.net w Run.engine Run.price 3 replies). Qed.

Lemma run_steps : rtc (krc20_sys (Script:=Z) 7 Run.net) Run.start Run.credited.
Proof.
  apply (rtc_l _ _ Run.crashed); [exact (tick_step _ _)|]. apply (rtc_l _ _ Run.committed); [exact (tick_step _ _)|].
  apply (rtc_l _ _ Run.revealed); [exact (tick_step _ _)|]. apply rtc_once. exact (tick_step _ _).
Qed.

Lemma krc20_tick_refines_witness :
  rtc (kstep (Script:=Z) 7 Run.net) (Run.db, []) (w_db Run.crashed, w_sent Run.crashed) ∧ length (w_sent Run.crashed) = 1%nat.
Proof.
  split; [|by vm_compute].
  apply (krc20_tick_refines (Script:=Z) 7 Run.net Run.engine Run.price 3 (world_replies (take 15 (Run.served 100 5100 rich)) Run.start)).
  exact run_db_ok.
Defined.

(** Three transactions reach the wire: the commit twice, then its reveal. *)
Lemma krc20_never_double_pays_witness :
  length (w_sent Run.credited) = 3%nat ∧
  ∀ b1 b2, b1 ∈ w_sent Run.credited → b2 ∈ w_sent Run.credited → map rid (bc_payouts b1) = map rid (bc_payouts b2) →
    tx_id (bc_tx b1) = tx_id (bc_tx b2) ∨ reveals_of b1 b2 ∨ reveals_of b2 b1.
Proof.
  split; [by vm_compute|].
  apply (krc20_never_double_pays (Script:=Z) 7 Run.net (λ _, 0) Run.start Run.credited run_books eq_refl run_steps).
Defined.

Lemma krc20_credits_exactly_witness :
  paid_of 1 (w_db Run.credited) = 5000000000 ∧
  paid_of 1 (w_db Run.credited) = 0 + confirmed_nacho 1 (w_db Run.credited).
Proof.
  split; [by vm_compute|].
  apply (krc20_credits_exactly (Script:=Z) 7 Run.net (λ _, 0) Run.start Run.credited run_books eq_refl run_steps).
Defined.

Lemma run_completed : rtc (krc20_sys (Script:=Z) 7 Run.net) Run.start Run.completed.
Proof.
  apply (rtc_l _ _ Run.crashed); [exact (tick_step _ _)|]. apply (rtc_l _ _ Run.committed); [exact (tick_step _ _)|].
  apply (rtc_l _ _ Run.revealed); [exact (tick_step _ _)|]. apply rtc_once. exact (tick_step _ _).
Qed.

Lemma run_completed_transfer : has_transfer (w_db Run.completed) 1 Completed.
Proof.
  destruct (transfers (w_db Run.completed)) as [|k l] eqn:E; [vm_compute in E; discriminate|].
  exists k. split; [rewrite E; by left|]. vm_compute in E. injection E as <- _. done.
Qed.

Lemma krc20_credit_lands_witness :
  ∃ p d', get_payout 1 (w_db Run.completed) = Ok p ∧ po_status p = Planned ∧
    credit_tx 1 1 5000000000 400 (w_db Run.completed) = Ok (true, d') ∧ paid_of 1 d' = 5000000000.
Proof.
  destruct (get_payout 1 (w_db Run.completed)) as [p|e] eqn:Hp; [|vm_compute in Hp; discriminate].
  assert (Hf : po_status p = Planned ∧ po_submitted_at p = None ∧ po_confirmed_at p = None ∧ po_planned_at p = 100 ∧
    po_wallet_id p = 1 ∧ po_amount_sompi p = 5000000000).
  { vm_compute in Hp. injection Hp as <-. done. }
  destruct Hf as (Hs & Hsub & Hcon & Hpl & Hw & Ha).
  destruct (krc20_credit_lands (λ _, 0) (w_db Run.completed) 1 p 400) as (d' & Hd & _ & Hpaid).
  - by apply (krc20_steps_inv 7 Run.net (λ _, 0) Run.start Run.completed run_completed), krc20_start; [exact run_books|].
  - by_computation.
  - exact run_completed_transfer.
  - exact Hp.
  - exact Hs.
  - exact Hsub.
  - exact Hcon.
  - rewrite Hpl. lia.
  - exists p, d'. rewrite Hw, Ha in *. split_and!; [done..|]. rewrite Hpaid. by vm_compute.
Defined.

(** With a limit of one row the newer transfer is never credited. *)
Lemma credit_starves_witness :
  w_db (credit_completed_transfers 1 Run.backlog).2 = w_db Run.backlog ∧
  map po_status (payouts (w_db Run.backlog)) = [Confirmed; Planned].
Proof.
  split; [|done]. apply (credit_starves 1 Run.backlog); [by_computation|].
  intros k Hk. assert (k = Run.moved 1) as -> by (vm_compute in Hk |- *; set_solver).
  exists (Run.payout 1 Confirmed). split_and!; [by left|done..].
Defined.
