(* ===== verification/RuntimeConfig.v ===== *)
(** * Configuration of the pool process

    The environment and file layers of katpool/src/main.rs (crates/katpool-config
    holds the file), the settings of the connection pool
    (crates/katpool-db/src/pool.rs) and the treasury key
    (crates/katpool-secrets).  Values are UTF-8 strings, instants and durations
    are nanoseconds.  Kaspa addresses, socket addresses, the TOML/YAML reader,
    the file system and [mlock] are the class [Platform]. *)

From Stdlib Require Import Ascii.
From S2P Require Import Prelude Float64 Mass Db PayoutRepo FeeModel DupGuard Domain Events Bytes Hasher MiningState Stratum Listener KaspaApi AccountRepo Api.
From S2P Require Import Consumer Accountant Rebate Krc20Plan Krc20Cycle.
Local Open Scope Z_scope.

(** ** Text *)

(** The code points of a string. *)
Definition text (s : string) : list Z := from_utf8_lossy (codes s).

(** [str::split] at a character, and [split_once]. *)
Fixpoint split_at (sep : Z) (cur s : list Z) : list (list Z) :=
  match s with
  | [] => [cur]
  | c :: s => if c =? sep then cur :: split_at sep [] s else split_at sep (cur ++ [c]) s
  end.
Definition split (sep : Z) (s : list Z) : list (list Z) := split_at sep [] s.
Fixpoint split_once (sep : Z) (s : list Z) : option (list Z * list Z) :=
  match s with
  | [] => None
  | c :: s => if c =? sep then Some ([], s) else '(a, b) ← split_once sep s; Some (c :: a, b)
  end.
Definition is_empty (s : list Z) : bool := match s with [] => true | _ => false end.

(** ** The file layer *)

Record FileConfig := {
  f_kaspad_url : option string; f_database_url : option string; f_pool_address : option string;
  f_network : option string; f_instance_id : option string;
  f_stratum_port : option string; f_stratum_ports : option string; f_min_share_diff : option Z;
  f_var_diff : option bool; f_shares_per_min : option Z; f_proxy_protocol : option bool;
  f_fee_topline_bps : option Z; f_broadcast_capacity : option Z;
  f_prom_port : option string; f_api_port : option string; f_health_check_port : option string;
  f_maturity_poll_secs : option Z; f_coinbase_maturity : option Z; f_window_daa_span : option Z;
  f_maturity_batch_size : option Z; f_tier_classifier : option string; f_shutdown_drain_secs : option Z }.
Definition FileConfig_default : FileConfig :=
  {| f_kaspad_url := None; f_database_url := None; f_pool_address := None; f_network := None; f_instance_id := None;
     f_stratum_port := None; f_stratum_ports := None; f_min_share_diff := None; f_var_diff := None;
     f_shares_per_min := None; f_proxy_protocol := None; f_fee_topline_bps := None; f_broadcast_capacity := None;
     f_prom_port := None; f_api_port := None; f_health_check_port := None; f_maturity_poll_secs := None;
     f_coinbase_maturity := None; f_window_daa_span := None; f_maturity_batch_size := None; f_tier_classifier := None;
     f_shutdown_drain_secs := None |}.

(** [#[validate(range(...))]]: an absent value passes. *)
Definition at_least (n : Z) (v : option Z) : bool := match v with Some v => n <=? v | None => true end.
Definition at_most (n : Z) (v : option Z) : bool := match v with Some v => v <=? n | None => true end.
Definition FileConfig_validate (f : FileConfig) : bool :=
  at_least 1 (f_min_share_diff f) && at_least 1 (f_shares_per_min f) && at_most 10000 (f_fee_topline_bps f) &&
  at_least 1 (f_broadcast_capacity f) && at_least 1 (f_maturity_poll_secs f).

Inductive FileConfigError := Source | Invalid.

(** ** What the process is given *)

(** [kaspa_addresses::Prefix]. *)
Inductive AddressPrefix := PMainnet | PTestnet | PDevnet | PSimnet.

Class Platform := {
  Address : Type;
  Address_eq_dec : EqDecision Address;
  Address_try_from : list Z → option Address;
  address_prefix : Address → AddressPrefix;
  SocketAddr : Type;
  parse_socket_addr : string → option SocketAddr;
  (** [config::Config] over a file, deserialised. *)
  read_config : string → option FileConfig;
  (** [std::fs::read_to_string] and [Path::join]. *)
  read_to_string : string → option string;
  path_join : string → string → string;
  mlock : bool;
  (** The P2PK address of a secret key, when it is one. *)
  p2pk_address : list Z → AddressPrefix → option Address }.
#[export] Existing Instance Address_eq_dec.

Section platform.
Context `{!Platform}.

Definition FileConfig_load (path : string) : result FileConfigError FileConfig :=
  match read_config path with
  | None => Err Source
  | Some parsed => if FileConfig_validate parsed then Ok parsed else Err Invalid
  end.

(** Why the process does not start. *)
Inductive BootError :=
| BadFile (path : string) (e : FileConfigError)
| Unset (var : string)
| BadValue (var raw : string)
| BadPortEntry (entry : list Z)
| BadAddress (entry : list Z)
| NoAddress
| UnknownNetwork
| UnknownTier (raw : string)
| BadApiConfig (e : ApiConfigError).

(** ** Environment variables *)

(** [std::env::var(var).ok()]. *)
Definition Env : Type := string → option string.

Definition optional (env : Env) (var : string) : option string :=
  match env var with Some s => if bool_decide (s = EmptyString) then None else Some s | None => None end.

Definition or_else {A} (a b : option A) : option A := match a with Some _ => a | None => b end.

Definition require (env : Env) (var : string) (file_value : option string) : result BootError string :=
  match or_else (optional env var) file_value with Some s => Ok s | None => Err (Unset var) end.

Definition optional_int (lo hi : Z) (env : Env) (var : string) : result BootError (option Z) :=
  match optional env var with
  | None => Ok None
  | Some s => match parse_int lo hi (text s) with Some v => Ok (Some v) | None => Err (BadValue var s) end
  end.
Definition optional_u16 : Env → string → result BootError (option Z) := optional_int 0 u16_max.
Definition optional_u32 : Env → string → result BootError (option Z) := optional_int 0 u32_max.
Definition optional_u64 : Env → string → result BootError (option Z) := optional_int 0 u64_max.
Definition optional_i64 : Env → string → result BootError (option Z) := optional_int i64_min i64_max.
Definition optional_u128 : Env → string → result BootError (option Z) := optional_int 0 u128_max.
Definition optional_usize : Env → string → result BootError (option Z) := optional_int 0 u64_max.

Definition optional_bool (env : Env) (var : string) : result BootError (option bool) :=
  match optional env var with
  | None => Ok None
  | Some s =>
      let s := lowercase s in
      if bool_decide (s ∈ ["true"; "1"; "yes"; "on"]%string) then Ok (Some true)
      else if bool_decide (s ∈ ["false"; "0"; "no"; "off"]%string) then Ok (Some false)
      else Err (BadValue var s)
  end.

Definition parse_bind_addr (var s : string) : result BootError SocketAddr :=
  let normalized := match s with
                    | String c port => if bool_decide (c = ":"%char) then ("0.0.0.0:" +:+ port)%string else s
                    | EmptyString => s
                    end in
  match parse_socket_addr normalized with Some a => Ok a | None => Err (BadValue var s) end.
(** [Option::map] then [transpose]. *)
Definition parse_bind_opt (var : string) (raw : option string) : result BootError (option SocketAddr) :=
  match raw with None => Ok None | Some s => a ← parse_bind_addr var s; Ok (Some a) end.

Definition parse_port_entry (entry : list Z) : result BootError (list Z * Z) :=
  match split_once 58 entry with
  | None => Err (BadPortEntry entry)
  | Some (port, seed) =>
      let port := trim port in
      match parse_int 0 u16_max port, parse_int 0 u32_max (trim seed) with
      | Some _, Some seed => Ok (port, seed)
      | _, _ => Err (BadPortEntry entry)
      end
  end.
(** [.split(',').map(str::trim).filter(|s| !s.is_empty())]. *)
Definition entries (s : list Z) : list (list Z) := List.filter (λ e, negb (is_empty e)) (map trim (split 44 s)).
Definition parse_stratum_ports (raw : option string) : result BootError (list (list Z * Z)) :=
  match raw with
  | None => Ok []
  | Some raw =>
      let raw := trim (text raw) in
      if is_empty raw then Ok [] else mapM parse_port_entry (entries raw)
  end.

Definition parse_pool_addresses (raw : string) : result BootError (list Address) :=
  pool_addresses ← mapM (λ s, match Address_try_from s with Some a => Ok a | None => Err (BadAddress s) end) (entries (text raw));
  match pool_addresses with [] => Err NoAddress | _ => Ok pool_addresses end.

Definition network_of (p : AddressPrefix) : string :=
  match p with PMainnet => "mainnet" | PTestnet => "testnet-10" | PDevnet => "devnet" | PSimnet => "simnet" end.
Definition resolve_network (pool_addresses : list Address) (network_override : option string) : result BootError string :=
  resolved ← match network_override with
             | Some n => Ok n
             | None => match pool_addresses with a :: _ => Ok (network_of (address_prefix a)) | [] => Err NoAddress end
             end;
  if bool_decide (resolved ∈ VALID_NETWORKS) then Ok resolved else Err UnknownNetwork.

(** ** The configuration *)

Inductive TierClassifierKind := TStatic | TKasplex.
Definition TierClassifierKind_parse (raw : option string) : result BootError TierClassifierKind :=
  match raw with
  | None => Ok TStatic
  | Some s => if bool_decide (s = "static"%string) then Ok TStatic
              else if bool_decide (s = "kasplex"%string) then Ok TKasplex else Err (UnknownTier s)
  end.

Inductive KeySource := SystemdCredential (name : string) | KeyFile (path : string).

Definition from_secs (n : Z) : Z := n * NANOS.

Record PayoutConfig := {
  pf_dry_run : bool; pf_poll_interval : Z; pf_cycle_span_daa : Z; pf_threshold_sompi : Z;
  pf_max_sompi_per_cycle : option Z; pf_key_source : KeySource }.
Record ConsolidationConfig := {
  sf_dry_run : bool; sf_poll_interval : Z; sf_tick_timeout : Z; sf_trigger_utxo_count : Z; sf_target_utxo_count : Z;
  sf_max_inputs_per_tx : Z; sf_max_txs_per_tick : Z; sf_key_source : KeySource }.
Record Krc20RuntimeConfig := {
  kf_dry_run : bool; kf_poll_interval : Z; kf_cycle_span_daa : Z; kf_min_pending_sompi : Z; kf_min_nacho_base_units : Z;
  kf_commit_amount_sompi : Z; kf_batch_limit : Z; kf_max_nacho_base_units_per_cycle : option Z; kf_ticker : string;
  kf_quote_base : string; kf_breaker_threshold : Z; kf_breaker_cooldown : Z; kf_key_source : KeySource }.

Definition DEFAULT_QUOTE_BASE : string := "https://api.coingecko.com".
Definition DEFAULT_SHUTDOWN_DRAIN_IDLE : Z := 500 * 1000000.
Definition DEFAULT_SHUTDOWN_DRAIN_BUDGET_SECS : Z := 10.

Definition Krc20RuntimeConfig_from_env (env : Env) (key_source : KeySource) : result BootError Krc20RuntimeConfig :=
  dry_run ← optional_bool env "KATPOOL_KRC20_PAYOUT_DRY_RUN";
  poll_secs ← optional_u64 env "KATPOOL_KRC20_PAYOUT_POLL_SECS";
  cycle_span_daa ← optional_u64 env "KATPOOL_KRC20_PAYOUT_CYCLE_SPAN_DAA";
  min_pending_sompi ← optional_i64 env "KATPOOL_KRC20_MIN_PENDING_SOMPI";
  min_nacho_base_units ← optional_u128 env "KATPOOL_KRC20_MIN_NACHO_BASE_UNITS";
  commit_amount_sompi ← optional_u64 env "KATPOOL_KRC20_COMMIT_AMOUNT_SOMPI";
  batch_limit ← optional_i64 env "KATPOOL_KRC20_BATCH_LIMIT";
  max_nacho ← optional_i64 env "KATPOOL_KRC20_MAX_NACHO_PER_CYCLE";
  breaker_threshold ← optional_u32 env "KATPOOL_KRC20_QUOTE_BREAKER_THRESHOLD";
  cooldown_secs ← optional_u64 env "KATPOOL_KRC20_QUOTE_BREAKER_COOLDOWN_SECS";
  Ok {| kf_dry_run := default true dry_run; kf_poll_interval := from_secs (default 60 poll_secs);
        kf_cycle_span_daa := default 216000 cycle_span_daa;
        kf_min_pending_sompi := default DEFAULT_MIN_PENDING_SOMPI min_pending_sompi;
        kf_min_nacho_base_units := default DEFAULT_MIN_NACHO_BASE_UNITS min_nacho_base_units;
        kf_commit_amount_sompi := default DEFAULT_COMMIT_AMOUNT_SOMPI commit_amount_sompi;
        kf_batch_limit := default DEFAULT_CYCLE_LIMIT batch_limit; kf_max_nacho_base_units_per_cycle := max_nacho;
        kf_ticker := default DEFAULT_QUOTE_TICKER (optional env "KATPOOL_KRC20_TICKER");
        kf_quote_base := default DEFAULT_QUOTE_BASE (optional env "KATPOOL_KRC20_QUOTE_BASE");
        kf_breaker_threshold := default 3 breaker_threshold; kf_breaker_cooldown := from_secs (default 60 cooldown_secs);
        kf_key_source := key_source |}.
Definition key_source_from_env (env : Env) : KeySource :=
  match optional env "KATPOOL_TREASURY_KEY_PATH" with
  | Some path => KeyFile path
  | None => SystemdCredential (default "treasury-key"%string (optional env "KATPOOL_TREASURY_CREDENTIAL"))
  end.

Definition payout_from_env (env : Env) : result BootError (bool * PayoutConfig) :=
  enabled ← optional_bool env "KATPOOL_PAYOUT_ENABLED";
  dry_run ← optional_bool env "KATPOOL_PAYOUT_DRY_RUN";
  poll_secs ← optional_u64 env "KATPOOL_PAYOUT_POLL_SECS";
  cycle_span_daa ← optional_u64 env "KATPOOL_PAYOUT_CYCLE_SPAN_DAA";
  threshold_sompi ← optional_i64 env "KATPOOL_PAYOUT_THRESHOLD_SOMPI";
  max_sompi ← optional_i64 env "KATPOOL_PAYOUT_MAX_SOMPI_PER_CYCLE";
  Ok (default false enabled,
      {| pf_dry_run := default true dry_run; pf_poll_interval := from_secs (default 60 poll_secs);
         pf_cycle_span_daa := default 216000 cycle_span_daa;
         pf_threshold_sompi := default DEFAULT_KAS_PAYOUT_THRESHOLD_SOMPI threshold_sompi;
         pf_max_sompi_per_cycle := max_sompi; pf_key_source := key_source_from_env env |}).

Definition consolidation_from_env (env : Env) : result BootError (bool * ConsolidationConfig) :=
  enabled ← optional_bool env "KATPOOL_CONSOLIDATION_ENABLED";
  dry_run ← optional_bool env "KATPOOL_CONSOLIDATION_DRY_RUN";
  poll_secs ← optional_u64 env "KATPOOL_CONSOLIDATION_POLL_SECS";
  timeout_secs ← optional_u64 env "KATPOOL_CONSOLIDATION_TICK_TIMEOUT_SECS";
  trigger ← optional_usize env "KATPOOL_CONSOLIDATION_TRIGGER_UTXO_COUNT";
  target ← optional_usize env "KATPOOL_CONSOLIDATION_TARGET_UTXO_COUNT";
  max_inputs ← optional_usize env "KATPOOL_CONSOLIDATION_MAX_INPUTS_PER_TX";
  max_txs ← optional_usize env "KATPOOL_CONSOLIDATION_MAX_TXS_PER_TICK";
  Ok (default false enabled,
      {| sf_dry_run := default true dry_run; sf_poll_interval := from_secs (default 120 poll_secs);
         sf_tick_timeout := from_secs (default 120 timeout_secs); sf_trigger_utxo_count := default 1000 trigger;
         sf_target_utxo_count := default 50 target; sf_max_inputs_per_tx := default 80 max_inputs;
         sf_max_txs_per_tick := default 50 max_txs; sf_key_source := key_source_from_env env |}).

Record RuntimeConfig := {
  rc_kaspad_url : string; rc_database_url : string; rc_api_database_url : option string; rc_pool_addresses : list Address;
  rc_stratum_port : string; rc_stratum_ports : list (list Z * Z); rc_prom_port : string; rc_health_check_port : string;
  rc_instance_id : string; rc_fee_topline_bps : Z; rc_min_share_diff : Z; rc_var_diff : bool; rc_shares_per_min : Z;
  rc_proxy_protocol : bool; rc_broadcast_capacity : Z; rc_maturity_poll_interval : Z; rc_maturity : MaturityConfig;
  rc_network : string; rc_event_record_path : option string; rc_geoip_db_path : option string;
  rc_api_bind : option SocketAddr; rc_health_bind : option SocketAddr; rc_api_config : ApiConfig;
  rc_payout_enabled : bool; rc_payout : PayoutConfig; rc_krc20_payout_enabled : bool; rc_krc20_payout : Krc20RuntimeConfig;
  rc_consolidation_enabled : bool; rc_consolidation : ConsolidationConfig; rc_tier_classifier : TierClassifierKind;
  rc_shutdown_drain_idle : Z; rc_shutdown_drain_budget : Z }.

Definition file_layer (env : Env) : result BootError FileConfig :=
  match optional env "KATPOOL_CONFIG" with
  | Some path => match FileConfig_load path with Ok f => Ok f | Err e => Err (BadFile path e) end
  | None => Ok FileConfig_default
  end.

(** [optional_x(var)?.or(file.x).unwrap_or(dflt)]. *)
Definition layered {A} (from_env : result BootError (option A)) (file_value : option A) (dflt : A) : result BootError A :=
  v ← from_env; Ok (default dflt (or_else v file_value)).

Definition from_env (env : Env) : result BootError RuntimeConfig :=
  file ← file_layer env;
  kaspad_url ← require env "KASPAD_GRPC_URL" (f_kaspad_url file);
  database_url ← require env "KATPOOL_DATABASE_URL" (f_database_url file);
  stratum_port ← require env "KATPOOL_STRATUM_PORT" (f_stratum_port file);
  stratum_ports ← parse_stratum_ports (or_else (optional env "KATPOOL_STRATUM_PORTS") (f_stratum_ports file));
  pool_address_raw ← require env "KATPOOL_POOL_ADDRESS" (f_pool_address file);
  pool_addresses ← parse_pool_addresses pool_address_raw;
  fee_topline_bps ← layered (optional_u16 env "KATPOOL_FEE_TOPLINE_BPS") (f_fee_topline_bps file) 75;
  min_share_diff ← layered (optional_u32 env "KATPOOL_MIN_SHARE_DIFF") (f_min_share_diff file) 4096;
  var_diff ← layered (optional_bool env "KATPOOL_VAR_DIFF") (f_var_diff file) true;
  shares_per_min ← layered (optional_u32 env "KATPOOL_SHARES_PER_MIN") (f_shares_per_min file) 20;
  proxy_protocol ← layered (optional_bool env "KATPOOL_STRATUM_PROXY_PROTOCOL") (f_proxy_protocol file) false;
  broadcast_capacity ← layered (optional_usize env "KATPOOL_BROADCAST_CAPACITY") (f_broadcast_capacity file) 4096;
  poll_secs ← layered (optional_u64 env "KATPOOL_MATURITY_POLL_SECS") (f_maturity_poll_secs file) 15;
  coinbase_maturity ← layered (optional_u64 env "KATPOOL_COINBASE_MATURITY") (f_coinbase_maturity file) 1000;
  window_daa_span ← layered (optional_u64 env "KATPOOL_WINDOW_DAA_SPAN") (f_window_daa_span file) 600;
  batch_size ← layered (optional_i64 env "KATPOOL_MATURITY_BATCH_SIZE") (f_maturity_batch_size file) 200;
  coinbase_min_daa_score ← layered (optional_u64 env "KATPOOL_COINBASE_MIN_DAA_SCORE") None 0;
  network ← resolve_network pool_addresses (or_else (optional env "KATPOOL_NETWORK") (f_network file));
  api_bind ← parse_bind_opt "KATPOOL_API_PORT" (or_else (optional env "KATPOOL_API_PORT") (f_api_port file));
  let health_check_raw := or_else (optional env "KATPOOL_HEALTH_CHECK_PORT") (f_health_check_port file) in
  health_bind ← parse_bind_opt "KATPOOL_HEALTH_CHECK_PORT" health_check_raw;
  api_config ← match ApiConfig_from_lookup (λ k, text <$> env k) with Ok c => Ok c | Err e => Err (BadApiConfig e) end;
  '(payout_enabled, payout) ← payout_from_env env;
  '(consolidation_enabled, consolidation) ← consolidation_from_env env;
  krc20_payout_enabled ← optional_bool env "KATPOOL_KRC20_PAYOUT_ENABLED";
  krc20_payout ← Krc20RuntimeConfig_from_env env (key_source_from_env env);
  tier_classifier ← TierClassifierKind_parse (or_else (optional env "KATPOOL_TIER_CLASSIFIER") (f_tier_classifier file));
  drain_secs ← layered (optional_u64 env "KATPOOL_SHUTDOWN_DRAIN_SECS") (f_shutdown_drain_secs file) DEFAULT_SHUTDOWN_DRAIN_BUDGET_SECS;
  Ok {| rc_kaspad_url := kaspad_url; rc_database_url := database_url;
        rc_api_database_url := optional env "KATPOOL_API_DATABASE_URL"; rc_pool_addresses := pool_addresses;
        rc_stratum_port := stratum_port; rc_stratum_ports := stratum_ports;
        rc_prom_port := default EmptyString (or_else (optional env "KATPOOL_PROM_PORT") (f_prom_port file));
        rc_health_check_port := default EmptyString health_check_raw;
        rc_instance_id := default "katpool-runtime"%string (or_else (optional env "KATPOOL_INSTANCE_ID") (f_instance_id file));
        rc_fee_topline_bps := fee_topline_bps; rc_min_share_diff := min_share_diff; rc_var_diff := var_diff;
        rc_shares_per_min := shares_per_min; rc_proxy_protocol := proxy_protocol; rc_broadcast_capacity := broadcast_capacity;
        rc_maturity_poll_interval := from_secs poll_secs;
        rc_maturity := {| mc_coinbase_maturity := coinbase_maturity; mc_window_daa_span := window_daa_span;
                          mc_batch_size := batch_size; mc_coinbase_min_daa_score := coinbase_min_daa_score |};
        rc_network := network; rc_event_record_path := optional env "KATPOOL_EVENT_RECORD_PATH";
        rc_geoip_db_path := optional env "KATPOOL_GEOIP_DB"; rc_api_bind := api_bind; rc_health_bind := health_bind;
        rc_api_config := api_config; rc_payout_enabled := payout_enabled; rc_payout := payout;
        rc_krc20_payout_enabled := default false krc20_payout_enabled; rc_krc20_payout := krc20_payout;
        rc_consolidation_enabled := consolidation_enabled; rc_consolidation := consolidation;
        rc_tier_classifier := tier_classifier; rc_shutdown_drain_idle := DEFAULT_SHUTDOWN_DRAIN_IDLE;
        rc_shutdown_drain_budget := from_secs drain_secs |}.

(** ** The treasury key *)

Inductive SecretError := CredentialsDirUnset | Read (path : string) | InvalidKeyMaterial | AllZeroKey | MlockFailed.

Definition KEY_LEN : nat := 32.
(** [hex::decode_to_slice] into [KEY_LEN] bytes: exactly as many digits, of either case. *)
Definition hex_val (c : Z) : option Z :=
  if between 48 57 c then Some (c - 48) else if between 97 102 c then Some (c - 87) else if between 65 70 c then Some (c - 55) else None.
Fixpoint decode_hex (n : nat) (s : list Z) : option (list Z) :=
  match n, s with
  | O, [] => Some []
  | S n, a :: b :: s => h ← hex_val a; l ← hex_val b; bs ← decode_hex n s; Some (16 * h + l :: bs)
  | _, _ => None
  end.

Definition TreasurySecret_from_bytes (bytes : list Z) : result SecretError (list Z) :=
  if forallb (λ b, b =? 0) bytes then Err AllZeroKey else if mlock then Ok bytes else Err MlockFailed.
Definition from_hex (hex_str : string) : result SecretError (list Z) :=
  match decode_hex KEY_LEN (trim (text hex_str)) with
  | None => Err InvalidKeyMaterial
  | Some bytes => TreasurySecret_from_bytes bytes
  end.
Definition load_from_path (path : string) : result SecretError (list Z) :=
  match read_to_string path with None => Err (Read path) | Some raw => from_hex raw end.
(** [credentials] is [$CREDENTIALS_DIRECTORY]. *)
Definition load_from_systemd_credential (credentials : option string) (name : string) : result SecretError (list Z) :=
  match credentials with None => Err CredentialsDirUnset | Some dir => load_from_path (path_join dir name) end.
Definition load_secret (credentials : option string) (k : KeySource) : result SecretError (list Z) :=
  match k with KeyFile path => load_from_path path | SystemdCredential name => load_from_systemd_credential credentials name end.

Definition treasury_address_from_secret (secret : list Z) (prefix : AddressPrefix) : option Address := p2pk_address secret prefix.
Definition key_controls_address (secret : list Z) (expected : Address) : bool :=
  match treasury_address_from_secret secret (address_prefix expected) with
  | Some derived => bool_decide (derived = expected)
  | None => false
  end.
End platform.

(** ** The connection pool *)

Record PoolConfig := {
  pl_url : string; pl_min_connections : Z; pl_max_connections : Z; pl_acquire_timeout : Z; pl_idle_timeout : Z;
  pl_max_lifetime : Z; pl_statement_timeout : Z; pl_application_name : string }.

Definition PoolConfig_production (url : string) : PoolConfig :=
  {| pl_url := url; pl_min_connections := 4; pl_max_connections := 32; pl_acquire_timeout := from_secs 5;
     pl_idle_timeout := from_secs 600; pl_max_lifetime := from_secs 3600; pl_statement_timeout := from_secs 30;
     pl_application_name := "katpool" |}.

Definition PoolConfig_validate (c : PoolConfig) : result DbError unit :=
  if bool_decide (pl_url c = EmptyString) then Err Db.Config
  else if pl_max_connections c =? 0 then Err Db.Config
  else if pl_max_connections c <? pl_min_connections c then Err Db.Config
  else if pl_statement_timeout c =? 0 then Err Db.Config
  else Ok tt.

Definition pool_setting (lookup : string → option string) (hi dflt : Z) (key : string) : result DbError Z :=
  match lookup key with
  | None => Ok dflt
  | Some raw => match parse_int 0 hi (text raw) with Some v => Ok v | None => Err Db.Config end
  end.
Definition pool_secs (lookup : string → option string) (dflt : Z) (key : string) : result DbError Z :=
  match lookup key with
  | None => Ok dflt
  | Some raw => match parse_int 0 u64_max (text raw) with Some v => Ok (from_secs v) | None => Err Db.Config end
  end.

Definition PoolConfig_from_lookup (lookup : string → option string) : result DbError PoolConfig :=
  url ← match lookup "KATPOOL_DATABASE_URL"%string with Some u => Ok u | None => Err Db.Config end;
  let d := PoolConfig_production url in
  min_connections ← pool_setting lookup u32_max (pl_min_connections d) "KATPOOL_DB_MIN_CONNECTIONS";
  max_connections ← pool_setting lookup u32_max (pl_max_connections d) "KATPOOL_DB_MAX_CONNECTIONS";
  acquire_timeout ← pool_secs lookup (pl_acquire_timeout d) "KATPOOL_DB_ACQUIRE_TIMEOUT_SECS";
  idle_timeout ← pool_secs lookup (pl_idle_timeout d) "KATPOOL_DB_IDLE_TIMEOUT_SECS";
  max_lifetime ← pool_secs lookup (pl_max_lifetime d) "KATPOOL_DB_MAX_LIFETIME_SECS";
  statement_timeout ← pool_secs lookup (pl_statement_timeout d) "KATPOOL_DB_STATEMENT_TIMEOUT_SECS";
  let c := {| pl_url := url; pl_min_connections := min_connections; pl_max_connections := max_connections;
              pl_acquire_timeout := acquire_timeout; pl_idle_timeout := idle_timeout; pl_max_lifetime := max_lifetime;
              pl_statement_timeout := statement_timeout;
              pl_application_name := default (pl_application_name d) (lookup "KATPOOL_DB_APPLICATION_NAME"%string) |} in
  _ ← PoolConfig_validate c;
  Ok c.

(** The [statement_timeout] of every connection, in milliseconds. *)
Definition statement_timeout_ms (c : PoolConfig) : result DbError Z :=
  let ms := pl_statement_timeout c / 1000000 in if ms <=? u64_max then Ok ms else Err Db.Config.

(** ** What the settings promise *)

Lemma pool_setting_range lookup hi dflt key v : 0 ≤ dflt ≤ hi → pool_setting lookup hi dflt key = Ok v → 0 ≤ v ≤ hi.
Proof.
  unfold pool_setting. intros Hd. destruct (lookup key); [|by intros [= <-]].
  destruct (parse_int _ _ _) as [z|] eqn:E; [|done]. intros [= <-]. by eapply parse_int_range.
Qed.

Lemma pool_secs_nonneg lookup dflt key v : 0 ≤ dflt → pool_secs lookup dflt key = Ok v → 0 ≤ v.
Proof.
  unfold pool_secs, from_secs, NANOS. intros Hd. destruct (lookup key); [|by intros [= <-]].
  destruct (parse_int _ _ _) as [z|] eqn:E; [|done]. intros [= <-]. apply parse_int_range in E. lia.
Qed.

(** A pool configured from the environment can hold a connection and bounds every statement. *)
Lemma PoolConfig_from_lookup_ok lookup c : PoolConfig_from_lookup lookup = Ok c →
  pl_url c ≠ EmptyString ∧ 0 < pl_max_connections c ≤ u32_max ∧ 0 ≤ pl_min_connections c ≤ pl_max_connections c ∧ 0 < pl_statement_timeout c.
Proof.
  unfold PoolConfig_from_lookup. intros (url & _ & Hc)%result_bind_Ok.
  apply result_bind_Ok in Hc as (mn & Hmn & Hc). apply result_bind_Ok in Hc as (mx & Hmx & Hc).
  do 3 apply result_bind_Ok in Hc as (? & _ & Hc). apply result_bind_Ok in Hc as (st & Hst & Hc).
  apply result_bind_Ok in Hc as ([] & Hv & Hc). injection Hc as <-. unfold PoolConfig_validate in Hv. simpl in *.
  apply pool_setting_range in Hmn; [|by split]. apply pool_setting_range in Hmx; [|by split]. apply pool_secs_nonneg in Hst; [|done].
  case_bool_decide; [done|]. repeat case_bool_in Hv; try done. split_and!; try done; lia.
Qed.

(** ** The key file *)

Lemma hex_digit_facts n : 0 ≤ n < 16 → let c := byte_of (hex_digit n) in hex_val c = Some n ∧ is_ascii c ∧ is_whitespace c = false.
Proof.
  intros Hn. assert (n ∈ seqZ 0 16) as Hin by (apply elem_of_seqZ; lia). clear Hn. revert n Hin. unfold is_ascii.
  apply Forall_forall. by_computation.
Qed.

Lemma nibbles b : is_byte b → 0 ≤ b / 16 < 16 ∧ 0 ≤ b mod 16 < 16 ∧ 16 * (b / 16) + b mod 16 = b.
Proof.
  unfold is_byte. intros Hb. pose proof (Z.mod_pos_bound b 16 eq_refl). pose proof (Z.div_mod b 16).
  split_and!; [apply Z.div_pos; lia|apply Z.div_lt_upper_bound; lia|lia..].
Qed.

Lemma codes_hex_encode b bs : codes (hex_encode (b :: bs)) = byte_of (hex_digit (b / 16)) :: byte_of (hex_digit (b mod 16)) :: codes (hex_encode bs).
Proof. done. Qed.

Lemma decode_hex_encode bs : Forall is_byte bs → decode_hex (length bs) (codes (hex_encode bs)) = Some bs.
Proof.
  induction 1 as [|b bs Hb _ IH]; [done|]. destruct (nibbles b Hb) as (H1 & H2 & H3). rewrite codes_hex_encode.
  cbn [length decode_hex]. destruct (hex_digit_facts _ H1) as [-> _], (hex_digit_facts _ H2) as [-> _]. simpl. rewrite IH. simpl. by rewrite H3.
Qed.

Lemma hex_text_solid bs : Forall is_byte bs → Forall (λ c, is_ascii c ∧ is_whitespace c = false) (codes (hex_encode bs)).
Proof.
  induction 1 as [|b bs Hb _ IH]; [constructor|]. destruct (nibbles b Hb) as (H1 & H2 & _). rewrite codes_hex_encode.
  destruct (hex_digit_facts _ H1) as [_ ?], (hex_digit_facts _ H2) as [_ ?]. constructor; [done|]. by constructor.
Qed.

(** Splitting at separators that the parts do not contain. *)
Lemma split_plain sep cur x : sep ∉ x → split_at sep cur x = [cur ++ x].
Proof.
  revert cur. induction x as [|c x IH]; intros cur; simpl; [by rewrite app_nil_r|]. intros [Hc Hx]%not_elem_of_cons.
  rewrite (proj2 (Z.eqb_neq c sep)), IH by (congruence || done). by rewrite <- app_assoc.
Qed.
Lemma split_sep sep cur x r : sep ∉ x → split_at sep cur (x ++ sep :: r) = (cur ++ x) :: split_at sep [] r.
Proof.
  revert cur. induction x as [|c x IH]; intros cur; simpl; [by rewrite Z.eqb_refl, app_nil_r|]. intros [Hc Hx]%not_elem_of_cons.
  rewrite (proj2 (Z.eqb_neq c sep)), IH by (congruence || done). by rewrite <- app_assoc.
Qed.

Lemma trim_solid s : Forall (λ c, is_whitespace c = false) s → trim s = s.
Proof.
  assert (∀ s, Forall (λ c, is_whitespace c = false) s → trim_start s = s) as Ht.
  { intros l Hl. destruct Hl as [|c l Hc _]; [done|]. cbn [trim_start]. by rewrite Hc. }
  intros Hs. unfold trim. rewrite (Ht s), (Ht (rev s)); [by rewrite rev_involutive| |done]. by apply Forall_rev.
Qed.

Lemma trim_trailing s ws : Forall (λ c, is_whitespace c = true) ws → s ≠ [] → Forall (λ c, is_whitespace c = false) s → trim (s ++ ws) = s.
Proof.
  intros Hws Hne Hs. pose proof (trim_solid s Hs) as Hd. unfold trim in *. destruct Hs as [|c s Hc Hs]; [done|].
  assert (trim_start (c :: s) = c :: s) as Hc1 by (cbn [trim_start]; by rewrite Hc).
  assert (trim_start ((c :: s) ++ ws) = (c :: s) ++ ws) as -> by (cbn [trim_start app]; by rewrite Hc).
  rewrite Hc1 in Hd. rewrite rev_app_distr. apply Forall_rev in Hws. induction Hws as [|z l Hz _ IH]; [done|]. cbn [app trim_start]. by rewrite Hz.
Qed.

(** A key written in hex, in either case of digit its encoder uses and with any trailing blanks, loads as itself. *)
Lemma from_hex_roundtrip `{!Platform} bs ws : Forall is_byte bs → length bs = KEY_LEN → existsb (λ b, negb (b =? 0)) bs = true → mlock = true →
  Forall (λ c, is_ascii c ∧ is_whitespace c = true) (codes ws) → from_hex (hex_encode bs +:+ ws) = Ok bs.
Proof.
  intros Hb Hlen Hnz Hlock Hws. pose proof (hex_text_solid bs Hb) as Hs. unfold from_hex, text.
  assert (codes (hex_encode bs +:+ ws) = codes (hex_encode bs) ++ codes ws) as ->.
  { clear. induction bs as [|b bs IH]; [done|]. rewrite codes_hex_encode. cbn [app]. rewrite <- IH. done. }
  rewrite lossy_ascii by (apply Forall_app; split; eapply Forall_impl; [exact Hs|naive_solver|exact Hws|naive_solver]).
  rewrite trim_trailing; [|eapply Forall_impl; [exact Hws|naive_solver]|by destruct bs|eapply Forall_impl; [exact Hs|naive_solver]].
  rewrite <- Hlen, decode_hex_encode by done. unfold TreasurySecret_from_bytes.
  destruct (forallb (λ b, b =? 0) bs) eqn:Hz; [|by rewrite Hlock].
  apply existsb_exists in Hnz as (b & Hin & Hn). rewrite forallb_forall in Hz. by rewrite (Hz b Hin) in Hn.
Qed.
