(* ===== verification/ApiServer.v ===== *)
(** * The HTTP shell of the API (api/src/lib.rs)

    The route table, the layers around it (body limit, timeout, cache control,
    CORS), the rate limiter's parameters, the separate health router and the
    readiness probe.  The data handlers are in ApiViews.v; here a handler is what
    it answers, or that it takes too long.  axum's matching of a pattern is the
    documented one: a literal segment matches itself, a parameter one segment that
    is not empty.  The limiter's bookkeeping is tower_governor's, an argument. *)

From S2P Require Import Prelude Float64 Mass Db PayoutRepo PayoutSpec DupGuard Domain Events Bytes Hasher MiningState Stratum Listener KaspaApi AccountRepo Api RuntimeConfig.
Local Open Scope Z_scope.

(** ** Routes *)

Inductive Endpoint :=
  | EHealth | EReady | EStarted | EMiningPoolStats | EPoolStats | EPoolHashrate | EPoolHashrateHistory | EPoolBlocks | EPoolPayouts
  | EPayoutCycle (cycle_id : list Z) | ELeaderboard | EMinersHistory | EFirmware | EPoolRejects | EGeo | EActiveSessions
  | EBalance (address : list Z) | EMiner (address : list Z) | EMinerWorkers (address : list Z) | EMinerHistory (address : list Z)
  | EMinerPayouts (address : list Z) | EMinerRejects (address : list Z) | EFullRebate (address : list Z).

(** A pattern's segments; [None] is a parameter. *)
Definition Pattern : Type := list (option string).
Fixpoint match_pattern (p : Pattern) (segs : list (list Z)) : option (list (list Z)) :=
  match p, segs with
  | [], [] => Some []
  | Some lit :: p, s :: segs => if bool_decide (s = codes lit) then match_pattern p segs else None
  | None :: p, s :: segs => match s with [] => None | _ => params ← match_pattern p segs; Some (s :: params) end
  | _, _ => None
  end.

Definition lit : list string → Pattern := map Some.
Definition with_param (before after : list string) : Pattern := lit before ++ None :: lit after.
Definition no_params (e : Endpoint) (params : list (list Z)) : option Endpoint := match params with [] => Some e | _ => None end.
Definition one_param (e : list Z → Endpoint) (params : list (list Z)) : option Endpoint := match params with [a] => Some (e a) | _ => None end.

Definition v1_routes : list (Pattern * (list (list Z) → option Endpoint)) :=
  [(lit ["pool"; "stats"], no_params EPoolStats); (lit ["pool"; "hashrate"], no_params EPoolHashrate);
   (lit ["pool"; "hashrate"; "history"], no_params EPoolHashrateHistory); (lit ["pool"; "blocks"], no_params EPoolBlocks);
   (lit ["pool"; "payouts"], no_params EPoolPayouts); (with_param ["pool"; "payouts"] [], one_param EPayoutCycle);
   (lit ["pool"; "leaderboard"], no_params ELeaderboard); (lit ["pool"; "miners"; "history"], no_params EMinersHistory);
   (lit ["pool"; "firmware"], no_params EFirmware); (lit ["pool"; "rejects"], no_params EPoolRejects); (lit ["pool"; "geo"], no_params EGeo);
   (lit ["pool"; "active-sessions"], no_params EActiveSessions); (with_param ["balance"] [], one_param EBalance);
   (with_param ["miners"] [], one_param EMiner); (with_param ["miners"] ["workers"], one_param EMinerWorkers);
   (with_param ["miners"] ["hashrate"; "history"], one_param EMinerHistory);
   (with_param ["miners"] ["payouts"], one_param EMinerPayouts); (with_param ["miners"] ["rejects"], one_param EMinerRejects);
   (with_param ["full_rebate"] [], one_param EFullRebate)]%string.
Definition health_routes : list (Pattern * (list (list Z) → option Endpoint)) :=
  [(lit ["health"], no_params EHealth); (lit ["ready"], no_params EReady); (lit ["started"], no_params EStarted)]%string.
Definition app_routes : list (Pattern * (list (list Z) → option Endpoint)) :=
  health_routes ++ [(lit ["api"; "pool"; "miningPoolStats"], no_params EMiningPoolStats)]%string ++ map (λ r, (lit ["api"; "v1"]%string ++ r.1, r.2)) v1_routes.

(** The segments after the leading slash. *)
Definition segments (path : list Z) : option (list (list Z)) := match path with 47 :: r => Some (split 47 r) | _ => None end.
Definition resolve (routes : list (Pattern * (list (list Z) → option Endpoint))) (path : list Z) : option Endpoint :=
  segs ← segments path;
  foldr (λ r found, match match_pattern r.1 segs with Some params => r.2 params | None => found end) None routes.

(** ** Layers *)

Inductive Method := GET | HEAD | OtherMethod.
Record ApiCall := { rq_method : Method; rq_path : list Z; rq_content_length : Z }.
Record ApiReply := { rp_status : Z; rp_no_store : bool; rp_cors : bool }.
Definition MAX_BODY_BYTES : Z := 16 * 1024.

(** A handler's status, [None] when it is not there within the timeout. *)
Definition Handlers : Type := Endpoint → option Z.

(** Get routes answer HEAD too, and refuse other methods. *)
Definition routed (routes : list (Pattern * (list (list Z) → option Endpoint))) (h : Handlers) (r : ApiCall) : option Z :=
  match resolve routes (rq_path r) with
  | None => Some 404
  | Some e => match rq_method r with OtherMethod => Some 405 | _ => h e end
  end.
Definition body_limited (inner : ApiCall → option Z) (r : ApiCall) : option Z := if MAX_BODY_BYTES <? rq_content_length r then Some 413 else inner r.
Definition timed (inner : ApiCall → option Z) (r : ApiCall) : Z := default 503 (inner r).
Definition api_no_store (inner : ApiCall → Z) (r : ApiCall) : ApiReply :=
  {| rp_status := inner r; rp_no_store := Listener.is_prefix (codes "/api/") (rq_path r); rp_cors := false |}.
(** A value that is no header value leaves CORS off. *)
Definition cors_layer (header_value : list Z → bool) (origin : option (list Z)) : bool := match origin with Some o => header_value o | None => false end.
Definition app (header_value : list Z → bool) (origin : option (list Z)) (h : Handlers) (r : ApiCall) : ApiReply :=
  let reply := api_no_store (timed (body_limited (routed app_routes h))) r in
  {| rp_status := rp_status reply; rp_no_store := rp_no_store reply; rp_cors := cors_layer header_value origin |}.
Definition health_router (h : Handlers) (r : ApiCall) : option Z := routed health_routes h r.

(** ** The rate limiter *)

Definition SECOND : Z := 1000000000.
Definition replenish_period (rate_per_second : Z) : Z := Z.max (SECOND / Z.max (Z.min rate_per_second (2 ^ 32 - 1)) 1) 1.

(** The limiter decides by peer before any other layer sees the request. *)
Definition serve_call (allowed : bool) (header_value : list Z → bool) (origin : option (list Z)) (h : Handlers) (r : ApiCall) : ApiReply :=
  if allowed then app header_value origin h r else {| rp_status := 429; rp_no_store := false; rp_cors := false |}.

(** One turn of the readiness probe. *)
Definition db_probe (select_one : bool) (r : ReadinessInner) : ReadinessInner := set_db_reachable select_one r.

(** ** What holds of them *)

Definition is_data (e : Endpoint) : bool := match e with EHealth | EReady | EStarted => false | _ => true end.

(** A path in segments, as a client writes it. *)
Fixpoint path_of_segments (segs : list (list Z)) : list Z := match segs with [] => [] | s :: segs => 47 :: s ++ path_of_segments segs end.

Lemma replenish_period_spec rate : 1 ≤ rate ≤ SECOND →
  1 ≤ replenish_period rate ∧ rate * replenish_period rate ≤ SECOND < rate * (replenish_period rate + 1).
Proof.
  unfold replenish_period, SECOND. intros Hr. rewrite (Z.min_l rate), (Z.max_l rate 1) by lia.
  assert (1 ≤ 1000000000 / rate) as Hq by (apply Z.div_le_lower_bound; lia). rewrite Z.max_l by done.
  pose proof (Z.div_mod 1000000000 rate ltac:(lia)). pose proof (Z.mod_pos_bound 1000000000 rate ltac:(lia)). lia.
Qed.
(** Whatever the rate, there is a limiter. *)
Lemma replenish_period_pos rate : 1 ≤ replenish_period rate.
Proof. unfold replenish_period. lia. Qed.

Lemma split_first sep cur s x y l : split_at sep cur s = x :: y :: l → ∃ a b, s = a ++ sep :: b ∧ x = cur ++ a.
Proof.
  revert cur. induction s as [|c s IH]; intros cur; simpl; [done|]. destruct (Z.eqb_spec c sep) as [-> |Hc].
  - intros [= <- _]. exists [], s. by rewrite app_nil_r.
  - intros (a & b & -> & ->)%IH. exists (c :: a), b. by rewrite <- app_assoc.
Qed.

Lemma resolve_route routes path e : resolve routes path = Some e →
  ∃ segs p f params, segments path = Some segs ∧ (p, f) ∈ routes ∧ match_pattern p segs = Some params ∧ f params = Some e.
Proof.
  unfold resolve. destruct (segments path) as [segs|]; [|done]. cbn [mbind option_bind]. induction routes as [|[p f] routes IH]; simpl; [done|].
  destruct (match_pattern p segs) as [params|] eqn:Hp.
  - intros He. exists segs, p, f, params. split_and!; [done|by left|done|done].
  - intros He. destruct (IH He) as (segs' & p' & f' & params & [= <-] & Hin & Hm & Hf). exists segs, p', f', params. split_and!; [done|by right|done|done].
Qed.

(** Only the probes lie outside [/api/]. *)
Lemma data_under_api path e : resolve app_routes path = Some e → is_data e = true → Listener.is_prefix (codes "/api/") path = true.
Proof.
  intros (segs & p & f & params & Hs & Hin & Hm & Hf)%resolve_route Hd. unfold segments in Hs. destruct path as [|c r]; [done|].
  destruct (decide (c = 47)) as [-> |Hc]; [|repeat case_match; lia || done]. injection Hs as <-.
  assert (∃ q1 q, p = Some "api"%string :: q1 :: q) as (q1 & q & ->).
  { unfold app_routes in Hin. rewrite !elem_of_app in Hin. destruct Hin as [Hin|[Hin|Hin]].
    - exfalso. unfold health_routes in Hin. repeat (apply elem_of_cons in Hin as [[= -> ->]|Hin]; [unfold no_params in Hf; destruct params; [injection Hf as <-|]; done|]). by apply elem_of_nil in Hin.
    - apply list_elem_of_singleton in Hin as [= -> _]. by eexists _, _.
    - apply list_elem_of_fmap in Hin as ([p' f'] & [= -> _] & _). by eexists _, _. }
  unfold split in Hm. destruct (split_at 47 [] r) as [|x [|y l]] eqn:Hsp; simpl in Hm; [done|by case_bool_decide; destruct q1|].
  case_bool_decide as Hx; [|done]. destruct (split_first _ _ _ _ _ _ Hsp) as (a & b & -> & Ha). simpl in Ha. rewrite <- Ha, Hx. done.
Qed.

(** A client's request under [/api/] that the limiter lets through is never cacheable, and every data route is one. *)
Lemma api_never_cached header_value origin h r : Listener.is_prefix (codes "/api/") (rq_path r) = true ∨ (∃ e, resolve app_routes (rq_path r) = Some e ∧ is_data e = true) →
  rp_no_store (serve_call true header_value origin h r) = true.
Proof. intros [Hp|(e & He & Hd)]; [done|]. by apply (data_under_api _ e). Qed.

(** The segments of a path are those it was written with. *)
Lemma segments_path segs : segs ≠ [] → Forall (λ s, 47 ∉ s) segs → segments (path_of_segments segs) = Some segs.
Proof.
  intros Hne Hs. destruct segs as [|s segs]; [done|]. cbn [path_of_segments segments]. unfold split. f_equal. clear Hne. revert s Hs.
  induction segs as [|t segs IH]; intros s [Hs Ht]%Forall_cons; cbn [path_of_segments]; [rewrite app_nil_r; by apply split_plain|].
  rewrite split_sep by done. simpl. f_equal. by apply IH.
Qed.

(** Every route is reached by its path, whatever its parameter: no other route takes it. *)
Fixpoint fill (p : Pattern) (a : list Z) : list (list Z) :=
  match p with [] => [] | Some l :: p => codes l :: fill p a | None :: p => a :: fill p a end.
Definition params_of (p : Pattern) (a : list Z) : list (list Z) := if existsb (λ s, match s with None => true | Some _ => false end) p then [a] else [].
Lemma routes_reached p f a : (p, f) ∈ app_routes → a ≠ [] → 47 ∉ a → resolve app_routes (path_of_segments (fill p a)) = f (params_of p a).
Proof.
  intros Hin Hne Ha. destruct a as [|c a]; [done|]. unfold resolve.
  unfold app_routes, health_routes, v1_routes in Hin. cbn [app map fst snd] in Hin.
  repeat (apply elem_of_cons in Hin as [[= -> ->]|Hin];
    [rewrite segments_path; [by vm_compute|done|]; unfold with_param, lit; cbn [fill map app]; repeat constructor; first [exact Ha|by apply (bool_decide_unpack _); vm_compute]|]).
  by apply elem_of_nil in Hin.
Qed.

(** The limiter's refusal comes from outside the other layers: a browser of another origin cannot read it. *)
Lemma refusal_has_no_cors header_value origin h r : rp_cors (serve_call false header_value origin h r) = false.
Proof. done. Qed.
