(* ===== verification/Runtime.v ===== *)
(** * The pool process (katpool/src/main.rs)

    The commands, the services a daemon starts and their timer loops
    (payout-kas/src/engine.rs, payout-krc20/src/engine.rs,
    payout-kas/src/consolidate/engine.rs), the operator's [payout run-now] and
    [treasury audit], the recorder of events and the bridge to the readiness
    probes.  Whether a dependency can be reached is a parameter; what the
    services do once started is modelled with their components. *)

From Stdlib Require Import Floats.SpecFloat.
From S2P Require Import Prelude Float64 Mass Db PayoutRepo PayoutSpec FeeModel Effects KasCycle KasExecute KasSafety ConsolidateEngine.
From S2P Require Import DupGuard Domain Events Bytes Hasher MiningState Stratum Listener KaspaApi AccountRepo Api Consumer ConsumerProps Replay.
From S2P Require Import Fee Planner PlannerProps KasDemo Accountant Rebate Krc20Plan Krc20PlanProps Krc20Cycle Krc20Execute RuntimeConfig.
Local Open Scope Z_scope.

(** ** Commands *)

Inductive Command := Daemon | PayoutRunNow (dry_run : bool) | TreasuryAudit | Help.

(** The flags after [payout run-now]; [None] on an unknown one. *)
Fixpoint run_now_flags (dry_run : bool) (args : list string) : option bool :=
  match args with
  | [] => Some dry_run
  | arg :: args => if bool_decide (arg = "--dry-run"%string) then run_now_flags true args else None
  end.

Definition parse_args (args : list string) : option Command :=
  match args with
  | [] => Some Daemon
  | cmd :: rest =>
      if bool_decide (cmd ∈ ["-h"; "--help"; "help"]%string) then Some Help
      else if bool_decide (cmd = "payout"%string) then
        match rest with
        | sub :: flags => if bool_decide (sub = "run-now"%string) then PayoutRunNow <$> run_now_flags false flags else None
        | [] => None
        end
      else if bool_decide (cmd = "treasury"%string) then
        match rest with
        | sub :: flags => if bool_decide (sub = "audit"%string) then match flags with [] => Some TreasuryAudit | _ => None end else None
        | [] => None
        end
      else None
  end.

(** ** The daemon *)

(** What has to be reached or built at start. *)
Inductive Dependency := MainDb | ApiDb | BridgeNode | TrackerNode | KasNode | Krc20Node | ConsolidationNode | KasplexHttp | QuoteHttp.

Inductive MainError :=
| BadArguments
| Boot (e : BootError)
| Unreachable (d : Dependency)
| Secret (e : SecretError)
| FeeInvalid
| ConsumerInvalid (e : ConsumerConfigError)
| EngineInvalid (e : EngineError)
| Krc20EngineInvalid (e : Krc20EngineError)
| KeyInvalid
| KeyMismatch
| Tick (e : EngineError)
| LockHeld
| Rejected (n : nat).

Definition TREASURY_SPEND_LOCK_NAMESPACE : string := "treasury:spend-leader".

(** A treasury engine with what its loop needs; [en_lock_wait] is zero for the KAS engine, which tries once. *)
Record Engine (C : Type) := {
  en_config : C; en_poll_interval : Z; en_lock_wait : Z; en_lock_namespace : string; en_secret : list Z }.
Arguments en_config {C} _.
Arguments en_poll_interval {C} _.
Arguments en_lock_wait {C} _.
Arguments en_lock_namespace {C} _.
Arguments en_secret {C} _.

Definition mode_of (dry_run : bool) : ExecutionMode := if dry_run then DryRun else Live.

Record BridgeServerConfig := {
  bs_instance_id : string; bs_stratum_port : string; bs_stratum_ports : list (list Z * Z); bs_kaspad_address : string;
  bs_prom_port : string; bs_print_stats : bool; bs_log_to_file : bool; bs_health_check_port : string; bs_block_wait_time : Z;
  bs_min_share_diff : Z; bs_var_diff : bool; bs_shares_per_min : Z; bs_var_diff_stats : bool; bs_extranonce_size : Z;
  bs_pow2_clamp : bool; bs_coinbase_tag_suffix : option string; bs_proxy_protocol : bool }.

Section platform.
Context `{!Platform}.
(** What can be reached, and [$CREDENTIALS_DIRECTORY]. *)
Context (up : Dependency → bool) (credentials : option string).

Definition reach (d : Dependency) : result MainError unit := if up d then Ok tt else Err (Unreachable d).
Definition secret_of (k : KeySource) : result MainError (list Z) :=
  match load_secret credentials k with Ok s => Ok s | Err e => Err (Secret e) end.
Definition treasury_of (cfg : RuntimeConfig) : result MainError Address :=
  match rc_pool_addresses cfg with a :: _ => Ok a | [] => Err (Boot NoAddress) end.

Definition payout_engine_config (cfg : RuntimeConfig) (mode : ExecutionMode) : PayoutEngineConfig :=
  let p := rc_payout cfg in
  {| cfg_cycle_span_daa := pf_cycle_span_daa p; cfg_threshold_sompi := pf_threshold_sompi p;
     cfg_max_payout_sompi_per_cycle := pf_max_sompi_per_cycle p; cfg_mode := mode |}.

Definition kas_engine (cfg : RuntimeConfig) : result MainError (option (Engine PayoutEngineConfig)) :=
  if rc_payout_enabled cfg then
    secret ← secret_of (pf_key_source (rc_payout cfg));
    _ ← reach KasNode;
    match engine_new (payout_engine_config cfg (mode_of (pf_dry_run (rc_payout cfg)))) with
    | Err e => Err (EngineInvalid e)
    | Ok config => Ok (Some {| en_config := config; en_poll_interval := pf_poll_interval (rc_payout cfg); en_lock_wait := 0;
                               en_lock_namespace := TREASURY_SPEND_LOCK_NAMESPACE; en_secret := secret |})
    end
  else Ok None.

Definition krc20_engine_config (cfg : RuntimeConfig) : Krc20PayoutEngineConfig :=
  let k := rc_krc20_payout cfg in
  {| kg_cycle_span_daa := kf_cycle_span_daa k; kg_mode := mode_of (kf_dry_run k); kg_min_pending_sompi := kf_min_pending_sompi k;
     kg_min_nacho_base_units := kf_min_nacho_base_units k; kg_ticker := kf_ticker k;
     kg_commit_amount_sompi := kf_commit_amount_sompi k; kg_batch_limit := kf_batch_limit k;
     kg_max_nacho_base_units_per_cycle := kf_max_nacho_base_units_per_cycle k |}.

Definition krc20_engine (cfg : RuntimeConfig) : result MainError (option (Engine Krc20PayoutEngineConfig)) :=
  if rc_krc20_payout_enabled cfg then
    let k := rc_krc20_payout cfg in
    secret ← secret_of (kf_key_source k);
    _ ← reach Krc20Node;
    _ ← reach QuoteHttp;
    match krc20_engine_new (krc20_engine_config cfg) with
    | Err e => Err (Krc20EngineInvalid e)
    | Ok config => Ok (Some {| en_config := config; en_poll_interval := kf_poll_interval k; en_lock_wait := kf_poll_interval k / 4;
                               en_lock_namespace := TREASURY_SPEND_LOCK_NAMESPACE; en_secret := secret |})
    end
  else Ok None.

Definition consolidation_engine_config (cfg : RuntimeConfig) : ConsolidationEngineConfig :=
  let c := rc_consolidation cfg in
  {| co_mode := mode_of (sf_dry_run c); co_trigger_utxo_count := Z.to_nat (sf_trigger_utxo_count c);
     co_target_utxo_count := Z.to_nat (sf_target_utxo_count c); co_max_inputs_per_tx := Z.to_nat (sf_max_inputs_per_tx c);
     co_max_txs_per_tick := Z.to_nat (sf_max_txs_per_tick c) |}.

Definition consolidation_engine (cfg : RuntimeConfig) : result MainError (option (Engine ConsolidationEngineConfig)) :=
  if rc_consolidation_enabled cfg then
    let c := rc_consolidation cfg in
    secret ← secret_of (sf_key_source c);
    _ ← reach ConsolidationNode;
    Ok (Some {| en_config := consolidation_engine_config cfg; en_poll_interval := sf_poll_interval c;
                en_lock_wait := sf_poll_interval c / 4; en_lock_namespace := TREASURY_SPEND_LOCK_NAMESPACE; en_secret := secret |})
  else Ok None.

Definition bridge_config (cfg : RuntimeConfig) : BridgeServerConfig :=
  {| bs_instance_id := rc_instance_id cfg; bs_stratum_port := rc_stratum_port cfg; bs_stratum_ports := rc_stratum_ports cfg;
     bs_kaspad_address := rc_kaspad_url cfg; bs_prom_port := rc_prom_port cfg; bs_print_stats := false; bs_log_to_file := false;
     bs_health_check_port := rc_health_check_port cfg; bs_block_wait_time := 500 * 1000000;
     bs_min_share_diff := rc_min_share_diff cfg; bs_var_diff := rc_var_diff cfg; bs_shares_per_min := rc_shares_per_min cfg;
     bs_var_diff_stats := false; bs_extranonce_size := 2; bs_pow2_clamp := true; bs_coinbase_tag_suffix := None;
     bs_proxy_protocol := rc_proxy_protocol cfg |}.

(** The pool of the API: its own when a read-only URL is set. *)
Definition is_some {A} (o : option A) : bool := match o with Some _ => true | None => false end.
Definition api_pool (cfg : RuntimeConfig) : result MainError unit :=
  if is_some (rc_api_bind cfg) || is_some (rc_health_bind cfg) then
    match rc_api_database_url cfg with
    | Some url => if bool_decide (url = EmptyString) then Ok tt else reach ApiDb
    | None => Ok tt
    end
  else Ok tt.

Record Services := {
  sv_treasury : Address; sv_fee : FeeConfig; sv_tier : TierClassifierKind; sv_maturity : MaturityConfig; sv_maturity_poll : Z;
  sv_network : string; sv_recorder : option string; sv_kas : option (Engine PayoutEngineConfig);
  sv_krc20 : option (Engine Krc20PayoutEngineConfig); sv_consolidation : option (Engine ConsolidationEngineConfig);
  sv_bridge : BridgeServerConfig }.

Definition assemble (cfg : RuntimeConfig) : result MainError Services :=
  coinbase_override ← treasury_of cfg;
  _ ← reach BridgeNode;
  _ ← reach TrackerNode;
  fee ← match FeeConfig_new (rc_fee_topline_bps cfg) with Some f => Ok f | None => Err FeeInvalid end;
  _ ← match rc_tier_classifier cfg with TStatic => Ok tt | TKasplex => reach KasplexHttp end;
  _ ← api_pool cfg;
  network ← match ConsumerConfig_new (rc_network cfg) with Ok n => Ok n | Err e => Err (ConsumerInvalid e) end;
  kas ← kas_engine cfg;
  krc20 ← krc20_engine cfg;
  consolidation ← consolidation_engine cfg;
  Ok {| sv_treasury := coinbase_override; sv_fee := fee; sv_tier := rc_tier_classifier cfg; sv_maturity := rc_maturity cfg;
        sv_maturity_poll := rc_maturity_poll_interval cfg; sv_network := network; sv_recorder := rc_event_record_path cfg;
        sv_kas := kas; sv_krc20 := krc20; sv_consolidation := consolidation; sv_bridge := bridge_config cfg |}.

(** [broadcast::channel]: the capacity is positive and at most half of [usize]. *)
Definition broadcast_channel (capacity : Z) : exec unit := if (0 <? capacity) && (capacity <=? u64_max / 2) then Ret tt else Panic.

Definition daemon (cfg : RuntimeConfig) : exec (result MainError Services) :=
  if up MainDb then _ ← broadcast_channel (rc_broadcast_capacity cfg); mret (assemble cfg) else mret (Err (Unreachable MainDb)).

(** ** The audit of the treasury key *)

Definition run_treasury_audit (cfg : RuntimeConfig) : result MainError unit :=
  expected ← treasury_of cfg;
  secret ← secret_of (pf_key_source (rc_payout cfg));
  match treasury_address_from_secret secret (address_prefix expected) with
  | None => Err KeyInvalid
  | Some derived => if bool_decide (derived = expected) then Ok tt else Err KeyMismatch
  end.

Inductive Dispatch := Usage | RunNow (cfg : RuntimeConfig) (dry_run : bool) | Audit (r : result MainError unit)
| Run (services : exec (result MainError Services)).

Definition main (args : list string) (env : Env) : result MainError Dispatch :=
  match parse_args args with
  | None => Err BadArguments
  | Some Help => Ok Usage
  | Some command =>
      match from_env env with
      | Err e => Err (Boot e)
      | Ok cfg => Ok (match command with
                      | PayoutRunNow dry_run => RunNow cfg dry_run
                      | TreasuryAudit => Audit (run_treasury_audit cfg)
                      | Daemon | Help => Run (daemon cfg)
                      end)
      end
  end.
End platform.

(** ** Timer loops *)

(** What wakes a loop: the interval, with what the tick finds around it, or a change of the shutdown
    flag (its last value when the sender is gone). *)
Inductive Wake (X : Type) := Due (x : X) | ShutdownChanged (flag : bool).
Arguments Due {X} x.
Arguments ShutdownChanged {X} flag.

Section loops.
Context {Script : Type} `{!MassCalculator Script} `{!Signer Script} `{!ScriptLib Script}.
Context (treasury_script : Script).

(** [time::interval] and [interval_at] refuse a zero period. *)
Definition interval {E} (period : Z) : M Script E unit := if period =? 0 then abort else mret tt.

Fixpoint timer_loop {E X S} (tick : X → S → M Script E S) (wakes : list (Wake X)) (s : S) : M Script E S :=
  match wakes with
  | [] | ShutdownChanged true :: _ => mret s
  | ShutdownChanged false :: wakes => timer_loop tick wakes s
  | Due x :: wakes => s ← tick x s; timer_loop tick wakes s
  end.

(** A failed tick is logged and the loop goes on. *)
Definition kas_tick {E} (e : Engine PayoutEngineConfig) (_ : unit) (_ : unit) : M Script E unit :=
  _ ← attempt (run_once (en_config e) treasury_script); mret tt.
Definition kas_run_loop {E} (e : Engine PayoutEngineConfig) (wakes : list (Wake unit)) : M Script E unit :=
  _ ← interval (en_poll_interval e); timer_loop (kas_tick e) wakes tt.

(** A tick of the KRC-20 engine finds a price and a number of polls of the lock. *)
Definition krc20_tick {E} (prefix : Prefix) (e : Engine Krc20PayoutEngineConfig) (x : result QuoteError FloorPrice * nat) (_ : unit)
    : M Script E unit :=
  _ ← attempt (krc20_run_once treasury_script prefix (en_config e) x.1 x.2); mret tt.
Definition krc20_run_loop {E} (prefix : Prefix) (e : Engine Krc20PayoutEngineConfig)
    (wakes : list (Wake (result QuoteError FloorPrice * nat))) : M Script E unit :=
  _ ← interval (en_poll_interval e); timer_loop (krc20_tick prefix e) wakes tt.

(** The consolidation engine remembers its campaign. *)
Definition consolidation_tick {E} (e : Engine ConsolidationEngineConfig) (polls : nat) (campaign : bool) : M Script E bool :=
  r ← attempt (consolidation_run_once treasury_script (en_config e) campaign polls);
  mret (match r with Ok (_, campaign) => campaign | Err _ => campaign end).
Definition consolidation_run_loop {E} (e : Engine ConsolidationEngineConfig) (wakes : list (Wake nat)) : M Script E bool :=
  _ ← interval (en_poll_interval e); timer_loop (consolidation_tick e) wakes false.

(** ** Payout on demand *)

(** One attempt, and [retries] more while another instance holds the lock. *)
Fixpoint drive_cycle (config : PayoutEngineConfig) (retries : nat) : M Script MainError TickReport :=
  outcome ← map_err Tick (run_once config treasury_script);
  match outcome with
  | Ran report => mret report
  | SkippedNotLeader => match retries with S retries => drive_cycle config retries | O => throw LockHeld end
  end.

Definition run_payout_now `{!Platform} (up : Dependency → bool) (credentials : option string) (cfg : RuntimeConfig) (force_dry_run : bool)
    : M Script MainError unit :=
  _ ← lift_result (reach up MainDb);
  _ ← lift_result (treasury_of cfg);
  _ ← lift_result (secret_of credentials (pf_key_source (rc_payout cfg)));
  _ ← lift_result (reach up KasNode);
  let mode := mode_of (force_dry_run || pf_dry_run (rc_payout cfg)) in
  config ← lift_result (match engine_new (payout_engine_config cfg mode) with Ok c => Ok c | Err e => Err (EngineInvalid e) end);
  report ← drive_cycle config 9;
  match er_submit_errors (tr_broadcast report) with
  | [] => mret tt
  | errors => throw (Rejected (length errors))
  end.
End loops.

(** ** The recorder of events *)

(** [serde_json::to_string]. *)
Class EventPrinter := { event_to_string : PoolEvent → option (list Z) }.

(** The text appended for what the channel delivers; a failed write leaves the given number of
    characters of the line behind. *)
Fixpoint record_events `{!EventPrinter} (rs : list (Recv * option nat)) : list Z :=
  match rs with
  | [] => []
  | (Received event, failed) :: rs =>
      match event_to_string event with
      | None => record_events rs
      | Some line => match failed with None => line ++ 10 :: record_events rs | Some k => take k (line ++ [10]) end
      end
  | (Lagged _, _) :: rs => record_events rs
  | (Consumer.Closed, _) :: _ => []
  end.
(** [file] is [None] when the output cannot be opened. *)
Definition event_recorder `{!EventPrinter} (file : option (list Z)) (rs : list (Recv * option nat)) : option (list Z) :=
  (λ old, old ++ record_events rs) <$> file.

(** ** Readiness *)

(** The values the tracker published, as the bridge sees them. *)
Definition observe_sync (r : ReadinessInner) (synced : bool) : ReadinessInner :=
  let r := set_kaspad_synced synced r in if synced then mark_started r else r.
Definition readiness_bridge (seen : list bool) (r : ReadinessInner) : ReadinessInner := foldl observe_sync r seen.

(** ** What the environment decides *)

(** The steps of a computation in [result] that succeeded. *)
Ltac inv_steps H :=
  repeat match type of H with
  | (_ ≫= _) = Ok _ => let x := fresh "x" in let Hx := fresh "Hx" in apply result_bind_Ok in H as (x & Hx & H)
  | (let '(_, _) := ?p in _) = Ok _ => destruct p
  end.

(** A variable that is set to one of the words for a boolean. *)
Definition says (env : Env) (var : string) (b : bool) : Prop :=
  ∃ s, env var = Some s ∧ lowercase s ∈ (if b then ["true"; "1"; "yes"; "on"] else ["false"; "0"; "no"; "off"])%string.

Lemma optional_bool_says env var b : optional_bool env var = Ok (Some b) → says env var b.
Proof.
  unfold optional_bool, optional, says. destruct (env var) as [s|]; [|done]. case_bool_decide; [done|]. intros Hb. exists s. split; [done|].
  repeat case_bool_decide; naive_solver.
Qed.

Section config.
Context `{!Platform}.

(** The settings of the three engines come from the environment alone. *)
Record money_policy (env : Env) (cfg : RuntimeConfig) : Prop := {
  mp_payout : payout_from_env env = Ok (rc_payout_enabled cfg, rc_payout cfg);
  mp_consolidation : consolidation_from_env env = Ok (rc_consolidation_enabled cfg, rc_consolidation cfg);
  mp_krc20_enabled : rc_krc20_payout_enabled cfg = true → says env "KATPOOL_KRC20_PAYOUT_ENABLED" true;
  mp_krc20 : Krc20RuntimeConfig_from_env env (key_source_from_env env) = Ok (rc_krc20_payout cfg);
  mp_network : rc_network cfg ∈ VALID_NETWORKS;
  mp_addresses : rc_pool_addresses cfg ≠ [] }.

Lemma resolve_network_valid addrs o n : resolve_network addrs o = Ok n → n ∈ VALID_NETWORKS.
Proof. unfold resolve_network. intros (r & _ & Hr)%result_bind_Ok. case_bool_decide; naive_solver. Qed.

Lemma parse_pool_addresses_ne raw l : parse_pool_addresses raw = Ok l → l ≠ [].
Proof. unfold parse_pool_addresses. intros (r & _ & Hr)%result_bind_Ok. by destruct r; naive_solver. Qed.

Lemma from_env_policy env cfg : from_env env = Ok cfg → money_policy env cfg.
Proof.
  unfold from_env. intros Hb.
  inv_steps Hb.
  injection Hb as <-. split; simpl; try done.
  - intros Hen. apply optional_bool_says.
    match goal with H : optional_bool _ "KATPOOL_KRC20_PAYOUT_ENABLED" = Ok ?o |- _ => by destruct o as [[]|] end.
  - eauto using resolve_network_valid.
  - eauto using parse_pool_addresses_ne.
Qed.
End config.

(** ** Dry runs are quiet *)

Section quiet.
Context {Script : Type} `{!MassCalculator Script} `{!Signer Script} `{!ScriptLib Script}.
Context (treasury_script : Script) (prefix : Prefix).

Lemma timer_loop_quiet {E X S} (tick : X → S → M Script E S) wakes s : (∀ x s, quiet (tick x s)) → quiet (timer_loop tick wakes s).
Proof. intros Ht. revert s. induction wakes as [|[x|[]] wakes IH]; intros s; simpl; [done|by apply quiet_bind|done..]. Qed.

Lemma interval_quiet {E} period : quiet (interval (Script:=Script) (E:=E) period).
Proof. intros w. unfold interval. by destruct (period =? 0). Qed.

Lemma transact_in_quiet {E A} (g : DbError → E) (body : Z → Db → result E (A * Db)) : quiet (transact_in (Script:=Script) g body).
Proof.
  intros w. unfold transact_in. destruct (w_replies w) as [|[now v| |now v] rs]; try done.
  all: by destruct (body now (w_db w)) as [[a d]|e].
Qed.

#[local] Hint Resolve try_acquire_quiet interval_quiet transact_in_quiet : quiet.

Lemma acquire_treasury_lock_quiet polls : quiet (acquire_treasury_lock (Script:=Script) polls).
Proof. induction polls; simpl; solve_quiet. Qed.

Lemma settle_pending_dry_quiet n : quiet (settle_pending treasury_script prefix n DryRun).
Proof.
  unfold settle_pending, settle_one, advance_transfer_inner, keep_ledger, transfer_ctx, handle_pending, prepare_commit,
    fetch_spendable_utxos, plan_from_utxos, broadcast_commit, handle_commit_submitted, broadcast_reveal, handle_reveal_submitted. cbn [is_dry_run].
  solve_quiet.
Qed.

Lemma resume_or_plan_krc20_quiet quote params : quiet (resume_or_plan_krc20_cycle (Script:=Script) prefix quote params).
Proof. unfold resume_or_plan_krc20_cycle, plan_krc20_cycle. solve_quiet. Qed.

Lemma reconcile_krc20_quiet cid : quiet (reconcile_krc20_cycle_status (Script:=Script) cid).
Proof. unfold reconcile_krc20_cycle_status. solve_quiet. Qed.

#[local] Hint Resolve acquire_treasury_lock_quiet settle_pending_dry_quiet resume_or_plan_krc20_quiet reconcile_krc20_quiet : quiet.

Lemma krc20_dry_run_quiet config quote polls : kg_mode config = DryRun → quiet (krc20_run_once treasury_script prefix config quote polls).
Proof. intros Hm. unfold krc20_run_once, krc20_run_locked. rewrite Hm. cbn [is_dry_run]. solve_quiet. Qed.

Lemma kas_loop_quiet {E} e wakes : cfg_mode (en_config e) = DryRun → quiet (kas_run_loop (E:=E) treasury_script e wakes).
Proof.
  intros Hm. apply quiet_bind; [apply interval_quiet|]. intros _. apply timer_loop_quiet. intros x s.
  apply quiet_bind; [|done]. apply quiet_attempt. intros w. by apply dry_run_never_broadcasts.
Qed.

Lemma krc20_loop_quiet {E} e wakes : kg_mode (en_config e) = DryRun → quiet (krc20_run_loop (E:=E) treasury_script prefix e wakes).
Proof.
  intros Hm. apply quiet_bind; [apply interval_quiet|]. intros _. apply timer_loop_quiet. intros x s.
  apply quiet_bind; [|done]. by apply quiet_attempt, krc20_dry_run_quiet.
Qed.

Lemma consolidation_loop_quiet {E} e wakes : co_mode (en_config e) = DryRun → quiet (consolidation_run_loop (E:=E) treasury_script e wakes).
Proof.
  intros Hm. apply quiet_bind; [apply interval_quiet|]. intros _. apply timer_loop_quiet. intros polls campaign.
  apply quiet_bind; [|done]. apply quiet_attempt, consolidation_dry_run_quiet. by rewrite Hm.
Qed.

Lemma drive_cycle_quiet config retries : cfg_mode config = DryRun → quiet (drive_cycle treasury_script config retries).
Proof.
  intros Hm. induction retries as [|retries IH]; simpl.
  all: apply quiet_bind; [apply quiet_map_err; intros w; by apply dry_run_never_broadcasts|]; intros []; done.
Qed.

Lemma run_payout_now_quiet `{!Platform} up credentials cfg force_dry_run : force_dry_run || pf_dry_run (rc_payout cfg) = true →
  quiet (run_payout_now treasury_script up credentials cfg force_dry_run).
Proof.
  intros Hd. unfold run_payout_now. rewrite Hd. do 4 (apply quiet_bind; [apply quiet_lift_result|intros ?]).
  unfold engine_new. destruct (_ <=? _); [done|]. match goal with |- quiet (lift_result (Ok ?c) ≫= ?k) => change (quiet (k c)) end.
  apply quiet_bind; [by apply drive_cycle_quiet|]. intros report. by destruct (er_submit_errors _).
Qed.
End quiet.

(** ** Consent *)

Section consent.
Context `{!Platform}.

Lemma default_some {A} (a b : A) o : a ≠ b → default a o = b → o = Some b.
Proof. destruct o; naive_solver. Qed.

Lemma payout_from_env_says env enabled p : payout_from_env env = Ok (enabled, p) →
  (enabled = true → says env "KATPOOL_PAYOUT_ENABLED" true) ∧ (pf_dry_run p = false → says env "KATPOOL_PAYOUT_DRY_RUN" false).
Proof.
  unfold payout_from_env. intros (a & Ha & (b & Hb & Hr)%result_bind_Ok)%result_bind_Ok.
  repeat (apply result_bind_Ok in Hr as (? & _ & Hr)). injection Hr as <- <-. simpl.
  split; intros Hd; apply default_some in Hd as ->; try done; by apply optional_bool_says.
Qed.

Lemma consolidation_from_env_says env enabled c : consolidation_from_env env = Ok (enabled, c) →
  (enabled = true → says env "KATPOOL_CONSOLIDATION_ENABLED" true) ∧ (sf_dry_run c = false → says env "KATPOOL_CONSOLIDATION_DRY_RUN" false).
Proof.
  unfold consolidation_from_env. intros (a & Ha & (b & Hb & Hr)%result_bind_Ok)%result_bind_Ok.
  repeat (apply result_bind_Ok in Hr as (? & _ & Hr)). injection Hr as <- <-. simpl.
  split; intros Hd; apply default_some in Hd as ->; try done; by apply optional_bool_says.
Qed.

Lemma krc20_from_env_says env source k : Krc20RuntimeConfig_from_env env source = Ok k →
  kf_dry_run k = false → says env "KATPOOL_KRC20_PAYOUT_DRY_RUN" false.
Proof.
  unfold Krc20RuntimeConfig_from_env. intros (a & Ha & Hr)%result_bind_Ok.
  repeat (apply result_bind_Ok in Hr as (? & _ & Hr)). injection Hr as <-. simpl.
  intros Hd. apply default_some in Hd as ->; [|done]. by apply optional_bool_says.
Qed.

Context (up : Dependency → bool) (credentials : option string).

(** A started engine was enabled, and its mode is the configured one. *)
Lemma kas_engine_started cfg e : kas_engine up credentials cfg = Ok (Some e) →
  rc_payout_enabled cfg = true ∧ cfg_mode (en_config e) = mode_of (pf_dry_run (rc_payout cfg)).
Proof.
  unfold kas_engine. destruct (rc_payout_enabled cfg); [|done]. intros (s & _ & (u & _ & Hr)%result_bind_Ok)%result_bind_Ok.
  unfold engine_new in Hr. destruct (_ <=? _); [done|]. by injection Hr as <-.
Qed.

Lemma krc20_engine_started cfg e : krc20_engine up credentials cfg = Ok (Some e) →
  rc_krc20_payout_enabled cfg = true ∧ kg_mode (en_config e) = mode_of (kf_dry_run (rc_krc20_payout cfg)).
Proof.
  unfold krc20_engine. destruct (rc_krc20_payout_enabled cfg); [|done].
  intros (s & _ & (u & _ & (v & _ & Hr)%result_bind_Ok)%result_bind_Ok)%result_bind_Ok.
  unfold krc20_engine_new in Hr. destruct (_ <=? _); [done|]. by injection Hr as <-.
Qed.

Lemma consolidation_engine_started cfg e : consolidation_engine up credentials cfg = Ok (Some e) →
  rc_consolidation_enabled cfg = true ∧ co_mode (en_config e) = mode_of (sf_dry_run (rc_consolidation cfg)).
Proof.
  unfold consolidation_engine. destruct (rc_consolidation_enabled cfg); [|done].
  intros (s & _ & (u & _ & Hr)%result_bind_Ok)%result_bind_Ok. by injection Hr as <-.
Qed.

Lemma main_services args env sv : main up credentials args env = Ok (Run (Ret (Ok sv))) →
  ∃ cfg, from_env env = Ok cfg ∧ kas_engine up credentials cfg = Ok (sv_kas sv) ∧ krc20_engine up credentials cfg = Ok (sv_krc20 sv) ∧
    consolidation_engine up credentials cfg = Ok (sv_consolidation sv).
Proof.
  unfold main. intros Hm. destruct (parse_args args) as [cmd|]; [|done].
  assert (∃ cfg, from_env env = Ok cfg ∧ daemon up credentials cfg = Ret (Ok sv)) as (cfg & Hcfg & Hd).
  { destruct cmd, (from_env env) as [cfg|] eqn:Hcfg; simplify_eq; eauto. }
  exists cfg. split; [done|]. unfold daemon in Hd. destruct (up MainDb); [|done].
  apply exec_bind_Ret in Hd as (u & _ & Hd). injection Hd as Hd. unfold assemble in Hd.
  inv_steps Hd.
  by injection Hd as <-.
Qed.

Lemma run_now_flags_dry b args : run_now_flags b args = Some false → "--dry-run"%string ∉ args.
Proof.
  revert b. induction args as [|a args IH]; intros b Hr; [by apply not_elem_of_nil|]. simpl in Hr. case_bool_decide; [|done].
  assert (run_now_flags true args ≠ Some false) as Hn; [|done]. clear. induction args; simpl; [done|]. by case_bool_decide.
Qed.

Lemma main_run_now args env cfg b : main up credentials args env = Ok (RunNow cfg b) →
  from_env env = Ok cfg ∧ (b = false → "--dry-run"%string ∉ args).
Proof.
  unfold main. intros Hm. destruct (parse_args args) as [cmd|] eqn:Hargs; [|done].
  destruct cmd, (from_env env) as [c|] eqn:Hcfg; simplify_eq. split; [done|]. intros ->.
  unfold parse_args in Hargs. destruct args as [|a [|a' args]]; repeat (case_bool_decide; simplify_eq); [done| |by destruct args].
  destruct (run_now_flags false args) as [d|] eqn:Hf; [|done]. injection Hargs as ->.
  apply run_now_flags_dry in Hf. by rewrite !not_elem_of_cons.
Qed.
End consent.

Section spending.
Context `{!Platform} {Script : Type} `{!MassCalculator Script} `{!Signer Script} `{!ScriptLib Script}.
Context (treasury_script : Script) (prefix : Prefix).
Context (up : Dependency → bool) (credentials : option string) (args : list string) (env : Env).

(** C14: The process moves funds only when told to in the environment: whatever the configuration file
    says, a daemon's engine broadcasts only if its ENABLED variable is set to a word for true and its
    DRY_RUN variable to a word for false, and [payout run-now] only if KATPOOL_PAYOUT_DRY_RUN is set
    to a word for false and [--dry-run] was not given. *)
Theorem spending_needs_consent :
  (∀ sv, main up credentials args env = Ok (Run (Ret (Ok sv))) →
    (∀ e wakes w, sv_kas sv = Some e → w_sent (kas_run_loop (E:=False) treasury_script e wakes w).2 ≠ w_sent w →
      says env "KATPOOL_PAYOUT_ENABLED" true ∧ says env "KATPOOL_PAYOUT_DRY_RUN" false) ∧
    (∀ e wakes w, sv_krc20 sv = Some e → w_sent (krc20_run_loop (E:=False) treasury_script prefix e wakes w).2 ≠ w_sent w →
      says env "KATPOOL_KRC20_PAYOUT_ENABLED" true ∧ says env "KATPOOL_KRC20_PAYOUT_DRY_RUN" false) ∧
    (∀ e wakes w, sv_consolidation sv = Some e → w_sent (consolidation_run_loop (E:=False) treasury_script e wakes w).2 ≠ w_sent w →
      says env "KATPOOL_CONSOLIDATION_ENABLED" true ∧ says env "KATPOOL_CONSOLIDATION_DRY_RUN" false)) ∧
  (∀ cfg dry_run w, main up credentials args env = Ok (RunNow cfg dry_run) →
    w_sent (run_payout_now treasury_script up credentials cfg dry_run w).2 ≠ w_sent w →
    "--dry-run"%string ∉ args ∧ says env "KATPOOL_PAYOUT_DRY_RUN" false).
Proof.
  split.
  - intros sv (cfg & Hp%from_env_policy & Hk & Hn & Hc)%main_services. destruct Hp as [Hpay Hcon Hen Hkrc _ _].
    apply payout_from_env_says in Hpay as [He1 Hd1]. apply consolidation_from_env_says in Hcon as [He2 Hd2].
    pose proof (krc20_from_env_says _ _ _ Hkrc) as Hd3.
    split_and!; intros e wakes w He Hs; rewrite He in *.
    + apply kas_engine_started in Hk as [Hon Hm]. split; [auto|]. destruct (pf_dry_run (rc_payout cfg)); [|auto].
      by destruct Hs; apply kas_loop_quiet.
    + apply krc20_engine_started in Hn as [Hon Hm]. split; [auto|]. destruct (kf_dry_run (rc_krc20_payout cfg)); [|auto].
      by destruct Hs; apply krc20_loop_quiet.
    + apply consolidation_engine_started in Hc as [Hon Hm]. split; [auto|]. destruct (sf_dry_run (rc_consolidation cfg)); [|auto].
      by destruct Hs; apply consolidation_loop_quiet.
  - intros cfg dry_run w [Hp%from_env_policy Hargs]%main_run_now Hs. destruct (payout_from_env_says _ _ _ (mp_payout _ _ Hp)) as [_ Hd].
    destruct dry_run; [by destruct Hs; apply run_payout_now_quiet|]. split; [auto|]. destruct (pf_dry_run (rc_payout cfg)) eqn:E; [|auto].
    by destruct Hs; apply run_payout_now_quiet; rewrite E.
Qed.
End spending.

(** ** Payout on demand *)

(** Computations whose results satisfy a predicate. *)
Definition yields {Script E A} (P : A → Prop) (m : M Script E A) : Prop := ∀ w a, (m w).1 = Done (Ok a) → P a.

Lemma yields_bind {Script E A B} (P : B → Prop) (m : M Script E A) (k : A → M Script E B) : (∀ a, yields P (k a)) → yields P (m ≫= k).
Proof. intros Hk w b. unfold mbind, M_bind. destruct (m w) as [[[a|e]|] w'] eqn:Em; [apply Hk|done..]. Qed.

Section on_demand.
Context {Script : Type} `{!MassCalculator Script} `{!Signer Script} (treasury_script : Script).
Implicit Types (w : World Script).

Lemma world_replies_id w : world_replies (w_replies w) w = w.
Proof. by destruct w. Qed.

(** Another session held the lock. *)
Definition held (r : Reply Script) : Prop := match r with Lost _ _ => True | _ => False end.

Lemma run_locked_ran config : yields (λ o, o ≠ SkippedNotLeader) (run_locked config treasury_script).
Proof.
  unfold run_locked. apply yields_bind. intros v. destruct (cycle_window v (cfg_cycle_span_daa config)).
  repeat (apply yields_bind; intros ?). cbv zeta. destruct (over_spend_cap _ _); [by intros w o|].
  repeat (apply yields_bind; intros ?). by intros w o [= <-].
Qed.

Lemma run_once_held config w now v rs : w_replies w = Lost now v :: rs →
  run_once config treasury_script w = (Done (Ok SkippedNotLeader), world_replies rs w).
Proof. intros Hr. unfold run_once, map_err, try_acquire, mbind, M_bind. by rewrite Hr. Qed.

Lemma run_once_decides config w : (∀ r, head (w_replies w) = Some r → ¬ held r) → (run_once config treasury_script w).1 ≠ Done (Ok SkippedNotLeader).
Proof.
  intros Hh. unfold run_once, map_err, try_acquire, mbind at 1, M_bind at 1. destruct (w_replies w) as [|[now v| |now v] rs]; [done| |done|by destruct (Hh _ eq_refl)].
  assert (yields (λ o, o ≠ SkippedNotLeader) (outcome ← attempt (run_locked config treasury_script);
    _ ← attempt (query (λ _, Ok tt)); lift_result outcome : M Script EngineError TickOutcome)) as Hy.
  { intros w' o. unfold attempt, mbind, M_bind. destruct (run_locked config treasury_script w') as [[[o'|e]|] w''] eqn:El.
    - destruct (query _ w'') as [[?|] ?]; [|done]. intros [= ->]. apply (run_locked_ran config w'). by rewrite El.
    - by destruct (query _ w'') as [[?|] ?].
    - done. }
  intros Hs. by apply (Hy (world_replies rs w) SkippedNotLeader).
Qed.

Lemma drive_cycle_once config retries w : (run_once config treasury_script w).1 ≠ Done (Ok SkippedNotLeader) →
  (drive_cycle treasury_script config retries w).1 ≠ Done (Err LockHeld) ∧
  (drive_cycle treasury_script config retries w).2 = (run_once config treasury_script w).2.
Proof.
  intros Hd. destruct retries; simpl; unfold mbind, M_bind, map_err.
  all: by destruct (run_once config treasury_script w) as [[[[|report]|e]|] w'].
Qed.

(** The command ends with one decisive tick, after at most [retries] in which the lock was held, or
    gives up having done nothing. *)
Lemma drive_cycle_decides config retries w : ∃ waits rest, w_replies w = waits ++ rest ∧ Forall held waits ∧
  ((length waits = S retries ∧ drive_cycle treasury_script config retries w = (Done (Err LockHeld), world_replies rest w)) ∨
   ((length waits ≤ retries)%nat ∧ (drive_cycle treasury_script config retries w).1 ≠ Done (Err LockHeld) ∧
    (drive_cycle treasury_script config retries w).2 = (run_once config treasury_script (world_replies rest w)).2)).
Proof.
  revert w. induction retries as [|retries IH]; intros w; destruct (w_replies w) as [|[now v| |now v] rs] eqn:Hr.
  4: exists [Lost now v], rs; split_and!; [done|by repeat constructor|left; split; [done|]; simpl; unfold mbind, M_bind, map_err;
    by rewrite (run_once_held _ _ _ _ _ Hr)].
  7: { destruct (IH (world_replies rs w)) as (waits & rest & Hw & Hh & Hcase). simpl in Hw. subst rs.
    assert (drive_cycle treasury_script config (S retries) w = drive_cycle treasury_script config retries (world_replies (waits ++ rest) w)) as ->
      by (simpl; unfold mbind at 1, M_bind at 1, map_err at 1; by rewrite (run_once_held _ _ _ _ _ Hr)).
    exists (Lost now v :: waits), rest. split_and!; [done|by constructor|]. simpl.
    destruct Hcase as [[Hl He]|(Hl & He1 & He2)]; [left; split; [lia|done]|right; split_and!; [lia|done|done]]. }
  all: exists [], (w_replies w); rewrite world_replies_id; split_and!; [by rewrite Hr|done|right; split; [simpl; lia|]].
  all: apply drive_cycle_once, run_once_decides; rewrite Hr; intros r Hx Hh; by destruct r.
Qed.

Context `{!SignerOk Script} `{!Platform} (up : Dependency → bool) (credentials : option string).

#[local] Arguments drive_cycle : simpl never.

Lemma run_payout_now_drives cfg dry_run w : let out := run_payout_now treasury_script up credentials cfg dry_run w in
  (out.2 = w ∧ out.1 ≠ Done (Err LockHeld)) ∨
  let config := payout_engine_config cfg (mode_of (dry_run || pf_dry_run (rc_payout cfg))) in
  out.2 = (drive_cycle treasury_script config 9 w).2 ∧
  (out.1 = Done (Err LockHeld) → (drive_cycle treasury_script config 9 w).1 = Done (Err LockHeld)).
Proof.
  unfold run_payout_now. set (mode := mode_of _). clearbody mode. unfold mbind, M_bind, reach, treasury_of, secret_of, engine_new.
  destruct (up MainDb); [|by left]. destruct (rc_pool_addresses cfg); [by left|]. simpl.
  destruct (load_secret credentials _); [|by left]. simpl. destruct (up KasNode); [|by left]. simpl. destruct (_ <=? _); [by left|]. right.
  cbn [lift_result mret M_ret]. destruct (drive_cycle treasury_script (payout_engine_config cfg mode) 9 w) as [[[report|e]|] w'].
  - by destruct (er_submit_errors (tr_broadcast report)).
  - split; [done|]. by intros [= ->].
  - by split.
Qed.

(** C15: An operator's [payout run-now], whatever else has happened to the treasury and however it is
    interrupted, keeps every guarantee of the engine: no row is paid twice and every row paid is
    recorded; with a per-cycle cap it sends at most that much; and it gives up on the lock only after
    finding it held ten times, having changed nothing. *)
Theorem run_payout_now_safe w0 w cfg dry_run replies :
  db_ok (w_db w0) → w_sent w0 = [] → w_replies w0 = [] → rtc (sys_step treasury_script) w0 w → Forall reply_ok replies →
  let out := run_payout_now treasury_script up credentials cfg dry_run (world_replies replies w) in
  (NoDup (sent_ids out.2) ∧ ∀ b r, b ∈ w_sent out.2 → r ∈ bc_payouts b → recorded (w_db out.2) r) ∧
  (∀ c, pf_max_sompi_per_cycle (rc_payout cfg) = Some c → 0 ≤ c < i64_max → sent_total out.2 ≤ sent_total w + c) ∧
  (out.1 = Done (Err LockHeld) → w_db out.2 = w_db w ∧ w_sent out.2 = w_sent w ∧
    ∃ waits rest, replies = waits ++ rest ∧ length waits = 10%nat ∧ Forall held waits).
Proof.
  intros Hd Hs Hr Hst Hrep out. apply sys_steps_inv in Hst as [told Hl]; [|by apply ledger_start].
  set (w1 := world_replies replies w) in *.
  assert (∀ budget, within budget (sent_total w1) → ledger_inv budget (λ _, True) replies w1) as Hw1.
  { intros budget Hb. by eapply ledger_tick. }
  assert (∀ budget, within budget (sent_total w1) →
    affords budget (payout_engine_config cfg (mode_of (dry_run || pf_dry_run (rc_payout cfg)))) w1 → ledger_inv budget (λ _, True) replies out.2) as Hinv.
  { intros budget Hb Ha. destruct (run_payout_now_drives cfg dry_run w1) as [[He _]|[He _]]; [subst out; rewrite He; auto|].
    subst out. rewrite He. set (config := payout_engine_config _ _) in *.
    destruct (drive_cycle_decides config 9 w1) as (waits & rest & Hw & Hh & Hcase).
    assert (ledger_inv budget (λ _, True) replies (world_replies rest w1)) as Hrest.
    { destruct (Hw1 budget Hb) as [? Hok ????]. rewrite Hw in Hok. apply Forall_app in Hok as [_ Hok]. by split. }
    destruct Hcase as [[_ ->]|(_ & _ & ->)]; [done|]. by apply run_once_inv. }
  split_and!.
  - exact (li_once _ _ _ _ (Hinv None I I)).
  - exact (li_recorded _ _ _ _ (Hinv None I I)).
  - intros c Hc [Hc0 Hmax]. apply (li_budget (Some (sent_total w + c)) (λ _, True) replies), Hinv.
    + unfold within, sent_total. simpl. lia.
    + exists c. unfold sent_total. simpl. split_and!; [done|lia|lia].
  - intros He. destruct (run_payout_now_drives cfg dry_run w1) as [[_ Hn]|[He2 Hlock]]; [done|]. specialize (Hlock He).
    subst out. rewrite He2. set (config := payout_engine_config _ _) in *. destruct (drive_cycle_decides config 9 w1) as (waits & rest & Hw & Hh & [[Hlen Hdrive]|(_ & Hn & _)]); [|done].
    rewrite Hdrive. split_and!; [done|done|]. by exists waits, rest.
Qed.
End on_demand.

(** ** Recording and replaying *)

(** Difficulties far from the ends of the range of doubles. *)
Definition moderate (x : f64) : bool := f64_le (f64_div (f64_of_Z 1) (f64_of_Z (2 ^ 100))) x && f64_le x (f64_of_Z (2 ^ 100)).
Definition event_moderate (e : PoolEvent) : Prop :=
  match e with ShareCredited _ _ difficulty _ _ _ => moderate difficulty = true | _ => True end.

(** [serde_json] as src/Cargo.toml configures it.  A written event is one line, an object with its
    control characters escaped, that reads back as the event; but without the feature [float_roundtrip]
    a fraction need not read back as the double that was printed: [read_difficulty] is what the reader
    makes of the printed difficulty, of which only the sign is assumed. *)
Class EventCodec `{!EventPrinter, !EventParser} := {
  read_difficulty : f64 → f64;
  event_line_object e line : event_to_string e = Some line → ∃ r, line = 123 :: r ∧ last line = Some 125 ∧ 10 ∉ line;
  event_line_reads e line : event_to_string e = Some line → event_moderate e → event_from_str line = Some (reread_event read_difficulty e);
  read_positive x : moderate x = true → f64_lt f64_zero (read_difficulty x) = true }.

Lemma moderate_positive x : moderate x = true → f64_lt f64_zero x = true.
Proof.
  unfold moderate. replace (f64_div (f64_of_Z 1) (f64_of_Z (2 ^ 100))) with (S754_finite false 4503599627370496 (-152)) by (vm_compute; reflexivity).
  intros [Hx _]%andb_true_iff. by destruct x as [[]|[]| |[] m e].
Qed.

Lemma positive_check x : f64_lt f64_zero x = true → x ≠ S754_nan ∧ difficulty_check x = true.
Proof. by destruct x. Qed.

Lemma moderate_numeric read e : (∀ x, moderate x = true → f64_lt f64_zero (read x) = true) → event_moderate e → event_numeric read e.
Proof.
  intros Hread He. destruct e; [|done..]. simpl in *. destruct (positive_check _ (moderate_positive _ He)), (positive_check _ (Hread _ He)). by split_and!; [..|congruence].
Qed.

Section recorder.
Context `{!EventPrinter, !EventParser} `{codec : !EventCodec}.

(** The events a recorder with a working disk was given and could print, up to the end of the channel. *)
Fixpoint delivered (rs : list Recv) : list PoolEvent :=
  match rs with
  | [] | Consumer.Closed :: _ => []
  | Received e :: rs => match event_to_string e with Some _ => e :: delivered rs | None => delivered rs end
  | Lagged _ :: rs => delivered rs
  end.

Lemma trim_ends c r z : is_whitespace c = false → last (c :: r) = Some z → is_whitespace z = false → trim (c :: r) = c :: r.
Proof.
  intros Hc Hl Hz. unfold trim. replace (trim_start (c :: r)) with (c :: r) by (cbn [trim_start]; by rewrite Hc).
  apply last_Some in Hl as [l ->]. rewrite rev_app_distr. cbn [rev app trim_start]. rewrite Hz. cbn [rev]. by rewrite rev_involutive.
Qed.

Lemma record_events_lines rs : ∃ ls, record_events (map (λ r, (r, None)) rs) = flat_map (λ l, l ++ [10]) ls ∧
  Forall2 (λ l e, event_to_string e = Some l) ls (delivered rs).
Proof.
  induction rs as [|[e|n|] rs (ls & Hls & Hev)]; simpl; [by exists []| |by exists ls|by exists []].
  destruct (event_to_string e) as [line|] eqn:He; [|by exists ls]. exists (line :: ls). simpl. rewrite Hls, <- app_assoc.
  split; [done|by constructor].
Qed.

(** The log of a recorder whose writes all succeeded reads as the events delivered to it, their difficulties as read. *)
Lemma recorded_log_reads rs : Forall event_moderate (delivered rs) →
  load_ndjson_reader (record_events (map (λ r, (r, None)) rs)) = Ok (map (reread_event read_difficulty) (delivered rs)).
Proof.
  intros Hmod.  destruct (record_events_lines rs) as (ls & -> & Hev).
  rewrite (load_ndjson_events ls (map (λ e, Some (reread_event read_difficulty e)) (delivered rs))).
  - f_equal. clear. induction (delivered rs) as [|e es IH]; [done|]. simpl. f_equal. exact IH.
  - clear -Hev codec. induction Hev as [|l e ls es He _ IH]; [done|]. constructor; [|done]. by destruct (event_line_object e l He) as (r & _ & _ & Hn).
  - clear -Hev Hmod codec. induction Hev as [|l e ls es He _ IH]; simpl; [constructor|]. apply Forall_cons in Hmod as [Hm Hmod].
    constructor; [|by apply IH]. destruct (event_line_object e l He) as (r & Hl & Hlast & _). unfold strip_cr. rewrite Hlast. simpl.
    apply (LineEvent _ 123 r); [|done|rewrite <- Hl; by apply event_line_reads].
    rewrite Hl in *. by apply (trim_ends _ _ 125).
Qed.
End recorder.

Section live.
Context (read : f64 → f64) (parse_ip country : string → option string) (network : string).
#[local] Notation numeric := (event_numeric read).
#[local] Notation in_step := (alike read).

Lemma handle_event_alive e n c1 c2 : numeric e → in_step (2 + n) c1 c2 →
  (handle_event parse_ip country network e c1).1 = true ∧
  in_step n (handle_event parse_ip country network e c1).2 (handle_event parse_ip country network (reread_event read e) c2).2.
Proof.
  intros He Ha. pose proof (dispatch_alike read parse_ip country network n e c1 c2 He Ha) as [Hd Hr]. unfold handle_event, finish.
  destruct (dispatch _ _ _ e c1) as [[[r1|r1]|] d1], (dispatch _ _ _ (reread_event read e) c2) as [[[r2|r2]|] d2]; done.
Qed.

Lemma events_alike (e : PoolEvent) events n : (2 * length (e :: events) + n = 2 + (2 * length events + n))%nat.
Proof. simpl. lia. Qed.

Lemma select_loop_handles deadline events n sel backlog c1 c2 : Forall numeric events → in_step (2 * length events + n) c1 c2 →
  select_loop parse_ip country network deadline (map (λ e, SRecv (Received e)) events ++ sel) backlog c1 =
  select_loop parse_ip country network deadline sel backlog (replay_all parse_ip country network events c1).
Proof.
  intros Hev. revert c1 c2. induction Hev as [|e events He _ IH]; intros c1 c2 Ha; [done|]. rewrite events_alike in Ha.
  destruct (handle_event_alive e _ c1 c2 He Ha) as [Hlive Ha']. cbn [map app select_loop step replay_all].
  destruct (handle_event parse_ip country network e c1) as [[] c1']; [|done]. by eapply IH.
Qed.

Lemma drain_handles deadline now events n c1 c2 : now < deadline → Forall numeric events → in_step (2 * length events + n) c1 c2 →
  drain_backlog parse_ip country network deadline (map (λ e, (now, Some (Received e))) events ++ [(now, None)]) c1 =
  (true, replay_all parse_ip country network events c1).
Proof.
  intros Hnow Hev. revert c1 c2. induction Hev as [|e events He _ IH]; intros c1 c2 Ha; simpl.
  - by rewrite (proj2 (Z.leb_gt deadline now)).
  - rewrite (proj2 (Z.leb_gt deadline now)) by done. rewrite events_alike in Ha.
    destruct (handle_event_alive e _ c1 c2 He Ha) as [Hlive Ha'].
    destruct (handle_event parse_ip country network e c1) as [[] c1']; [|done]. by eapply IH.
Qed.

Lemma replay_all_app events late c : replay_all parse_ip country network (events ++ late) c =
  replay_all parse_ip country network late (replay_all parse_ip country network events c).
Proof. revert c. induction events as [|e events IH]; intros c; [done|]. apply IH. Qed.

Lemma sweep_fresh t clock : startup_session_sweep (fresh_consumer (t :: clock)) = (true, fresh_consumer clock).
Proof. done. Qed.

(** A run without faults or lag on an empty database, shut down with [late] still in the channel, ends
    with the tables that replaying its events as [read] gives them fills in. *)
Lemma live_replayed events late deadline now t clock_a clock_b :
  let live := run_with_shutdown parse_ip country network false deadline (map (λ e, SRecv (Received e)) events ++ [SShutdown (Some true)])
                (map (λ e, (now, Some (Received e))) late ++ [(now, None)]) (fresh_consumer (t :: clock_a)) in
  Forall numeric (events ++ late) → now < deadline → StronglySorted Z.le clock_a → StronglySorted Z.le clock_b →
  (2 * length (events ++ late) ≤ length clock_a)%nat → (2 * length (events ++ late) ≤ length clock_b)%nat →
  live.1 = true ∧
  rows_match read (cn_store live.2)
    (cn_store (replay_all parse_ip country network (map (reread_event read) (events ++ late)) (fresh_consumer clock_b))).
Proof.
  intros live Hnum Hnow Ha Hb Hla Hlb. destruct (sorted_below _ Ha) as [ta Hta], (sorted_below _ Hb) as [tb Htb].
  assert (in_step (2 * length (events ++ late)) (fresh_consumer clock_a) (fresh_consumer clock_b)) as Hal
    by (apply (fresh_alike _ (Z.min ta tb)); [apply Hta|apply Htb|done|done]; lia).
  subst live. rewrite length_app, Nat.mul_add_distr_l in Hal. apply Forall_app in Hnum as [Hn1 Hn2].
  pose proof (replay_all_alike read parse_ip country network events _ _ _ Hn1 Hal) as Hmid.
  rewrite <- (Nat.add_0_r (2 * length late)) in Hmid.
  pose proof (replay_all_alike read parse_ip country network late _ _ _ Hn2 Hmid) as (t1 & t2 & _ & _ & _ & _ & _ & _ & _ & _ & Hs & _).
  unfold run_with_shutdown. rewrite sweep_fresh, (select_loop_handles _ _ _ _ _ _ _ Hn1 Hal).
  cbn [select_loop]. rewrite (drain_handles _ _ _ _ _ _ Hnow Hn2 Hmid). split; [done|]. by rewrite map_app, replay_all_app.
Qed.
End live.


(** ** Readiness *)

(** Once started, the probe says so for good; the node counts as synced as the last sweep found it. *)
Lemma readiness_bridge_spec seen r : started (readiness_bridge seen r) = started r || existsb id seen ∧
  kaspad_synced (readiness_bridge seen r) = default (kaspad_synced r) (last seen) ∧ db_reachable (readiness_bridge seen r) = db_reachable r.
Proof.
  induction seen as [|b seen IH] using rev_ind; [simpl; by rewrite orb_false_r|].
  unfold readiness_bridge in *. rewrite foldl_snoc, existsb_app, last_snoc. destruct IH as (H1 & H2 & H3).
  destruct b; simpl; rewrite ?H1, ?orb_true_r, ?orb_false_r; done.
Qed.

(** ** Starting *)

Section boot.
Context `{!Platform} (up : Dependency → bool) (credentials : option string).

(** A configuration that was read starts the accountant: the network is one the consumer takes and
    there is a treasury address. *)
Lemma boot_configured env cfg : from_env env = Ok cfg →
  (∃ treasury, treasury_of cfg = Ok treasury) ∧ ConsumerConfig_new (rc_network cfg) = Ok (rc_network cfg).
Proof.
  intros [_ _ _ _ Hnet Hne]%from_env_policy. unfold treasury_of, ConsumerConfig_new.
  rewrite bool_decide_eq_true_2 by done. destruct (rc_pool_addresses cfg); [done|]. split; [by eexists|done].
Qed.

(** The audit succeeds exactly when the loaded key controls the treasury address. *)
Lemma treasury_audit_spec cfg : run_treasury_audit credentials cfg = Ok tt ↔
  ∃ expected secret, treasury_of cfg = Ok expected ∧ secret_of credentials (pf_key_source (rc_payout cfg)) = Ok secret ∧
    key_controls_address secret expected = true.
Proof.
  unfold run_treasury_audit, key_controls_address. rewrite result_bind_Ok. setoid_rewrite result_bind_Ok. split.
  - intros (a & Ha & s & Hs & Hr). exists a, s. split_and!; [done|done|]. destruct (treasury_address_from_secret _ _); [|done]. by case_bool_decide.
  - intros (a & s & Ha & Hs & Hr). exists a. split; [done|]. exists s. split; [done|]. destruct (treasury_address_from_secret _ _); [|done].
    by case_bool_decide.
Qed.

(** A file that leaves [api_port] or [health_check_port] empty, which is meant to switch the listener
    off, stops the process instead when the variable is unset. *)
Lemma empty_bind_aborts var : parse_socket_addr EmptyString = None → parse_bind_opt var (Some EmptyString) = Err (BadValue var EmptyString).
Proof. intros He. unfold parse_bind_opt, parse_bind_addr. simpl. by rewrite He. Qed.

(** The environment is not held to the ranges of the file: a capacity of zero is read, and the
    channel panics. *)
Lemma zero_capacity_aborts env cfg : from_env env = Ok cfg → env "KATPOOL_BROADCAST_CAPACITY"%string = Some "0"%string → up MainDb = true →
  daemon up credentials cfg = Panic.
Proof.
  intros Hb He Hup. assert (rc_broadcast_capacity cfg = 0) as H0.
  { unfold from_env in Hb. inv_steps Hb. injection Hb as <-. simpl.
    assert (optional_usize env "KATPOOL_BROADCAST_CAPACITY" = Ok (Some 0)) as Hz
      by (unfold optional_usize, optional_int, optional; rewrite He; vm_compute; reflexivity).
    match goal with Hl : layered (optional_usize env _) _ _ = Ok ?x |- ?x = 0 => rewrite Hz in Hl; by injection Hl as <- end. }
  unfold daemon. rewrite Hup, H0. done.
Qed.
End boot.

(** ** Examples *)

Module Boot.
Import Toy KasDemo.Demo.

(** A host with one pool address, one key file and one configuration file. *)
#[local] Instance host : Platform := {
  Address := AddressPrefix;
  Address_eq_dec := ltac:(solve_decision);
  Address_try_from s := if bool_decide (s = codes "kaspa:pool") then Some PMainnet else None;
  address_prefix a := a;
  SocketAddr := string;
  parse_socket_addr s := if bool_decide (s = "0.0.0.0:8080"%string) then Some s else None;
  read_config path := if bool_decide (path = "pool.yaml"%string)
    then Some {| f_kaspad_url := Some "grpc://node"%string; f_database_url := Some "postgres://db"%string; f_pool_address := Some "kaspa:pool"%string;
                 f_network := None; f_instance_id := None; f_stratum_port := Some "5555"%string; f_stratum_ports := Some "1111:256, 8888:2048"%string;
                 f_min_share_diff := Some 8192; f_var_diff := None; f_shares_per_min := None; f_proxy_protocol := None; f_fee_topline_bps := Some 90;
                 f_broadcast_capacity := None; f_prom_port := None; f_api_port := Some ":8080"%string; f_health_check_port := None;
                 f_maturity_poll_secs := None; f_coinbase_maturity := None; f_window_daa_span := None; f_maturity_batch_size := None;
                 f_tier_classifier := None; f_shutdown_drain_secs := None |}
    else None;
  read_to_string path := if bool_decide (path = "/run/key"%string) then Some "1111111111111111111111111111111111111111111111111111111111111111"%string else None;
  path_join dir name := (dir +:+ "/" +:+ name)%string;
  mlock := true;
  p2pk_address _ prefix := Some prefix }.

Definition vars : list (string * string) :=
  [("KATPOOL_CONFIG", "pool.yaml"); ("KATPOOL_PAYOUT_DRY_RUN", "Off"); ("KATPOOL_PAYOUT_CYCLE_SPAN_DAA", "1000");
   ("KATPOOL_PAYOUT_MAX_SOMPI_PER_CYCLE", "9000000000"); ("KATPOOL_TREASURY_KEY_PATH", "/run/key"); ("KATPOOL_MIN_SHARE_DIFF", "4096")]%string.
Definition env : Env := λ var, snd <$> List.find (λ kv, bool_decide (kv.1 = var)) vars.
Definition all_up : Dependency → bool := λ _, true.
Definition run_now : list string := ["payout"; "run-now"]%string.

(** The environment wins over the file, the file over the defaults, and the engines are off. *)
Example layers : ∃ cfg, from_env env = Ok cfg ∧ rc_min_share_diff cfg = 4096 ∧ rc_fee_topline_bps cfg = 90 ∧ rc_shares_per_min cfg = 20 ∧
  rc_network cfg = "mainnet"%string ∧ rc_api_bind cfg = Some "0.0.0.0:8080"%string ∧
  rc_stratum_ports cfg = [(codes "1111", 256); (codes "8888", 2048)] ∧ rc_payout_enabled cfg = false ∧ rc_consolidation_enabled cfg = false.
Proof. eexists. split; [vm_compute; reflexivity|]. vm_compute. repeat split. Qed.

(** A pool address that comes from the file is not the one the aggregator feed publishes. *)
Example file_pool_address_unpublished : ∃ cfg, from_env env = Ok cfg ∧ rc_pool_addresses cfg = [PMainnet] ∧ mps_pool_address (rc_api_config cfg) = [].
Proof. eexists. split; [vm_compute; reflexivity|]. vm_compute. by split. Qed.

Definition served_world : World Z := world_replies (served 100 5990 early) start.

(** Without KATPOOL_PAYOUT_ENABLED the daemon starts no engine, and [payout run-now] pays. *)
Lemma run_now_without_enabled : env "KATPOOL_PAYOUT_ENABLED"%string = None ∧
  (∃ sv, main all_up None [] env = Ok (Run (Ret (Ok sv))) ∧ sv_kas sv = None) ∧
  ∃ cfg, main all_up None run_now env = Ok (RunNow cfg false) ∧
    length (w_sent (run_payout_now 7 all_up None cfg false served_world).2) = 1%nat.
Proof.
  split_and!; [vm_compute; reflexivity| |]; eexists; (split; [vm_compute; reflexivity|]); vm_compute; reflexivity.
Qed.

Lemma spending_needs_consent_witness : "--dry-run"%string ∉ run_now ∧ says env "KATPOOL_PAYOUT_DRY_RUN" false.
Proof.
  destruct run_now_without_enabled as (_ & _ & cfg & Hm & Hs).
  destruct (spending_needs_consent (ScriptLib0 := Chain.scripts) 7 tt all_up None run_now env) as [_ Hrun].
  apply (Hrun cfg false served_world Hm). intros He. rewrite He in Hs. discriminate Hs.
Defined.

Lemma run_payout_now_safe_witness : ∃ cfg, main all_up None run_now env = Ok (RunNow cfg false) ∧
  let out := run_payout_now 7 all_up None cfg false served_world in
  NoDup (sent_ids out.2) ∧ sent_ids out.2 = [1; 2] ∧ sent_total out.2 ≤ 9000000000.
Proof.
  eexists. split; [vm_compute; reflexivity|]. intros out.
  assert (Forall reply_ok (served 100 5990 early)) as Hok by (apply demo_replies_ok, demo_early_ok).
  match goal with o := run_payout_now _ _ _ ?c _ _ |- _ =>
    destruct (run_payout_now_safe 7 all_up None start start c false (served 100 5990 early) sample_ledger_ok eq_refl eq_refl (rtc_refl _ _) Hok)
      as ([Honce _] & Hcap & _) end.
  split_and!; [exact Honce|vm_compute; reflexivity|]. apply (Hcap 9000000000); [reflexivity|by_computation].
Defined.

(** While another instance keeps the lock, ten attempts are made and nothing happens. *)
Example lock_held_throughout : ∃ cfg, main all_up None run_now env = Ok (RunNow cfg false) ∧
  (run_payout_now 7 all_up None cfg false (world_replies (replicate 12 (Lost 0 (view 5990 early))) start)).1 = Done (Err LockHeld).
Proof. eexists. split; [vm_compute; reflexivity|]. vm_compute. reflexivity. Qed.

(** Numbered lines for the events of an example log; a difficulty is read one unit in the last place off. *)
Definition bump (x : f64) : f64 := match x with S754_finite s m e => S754_finite s (m + 1) e | _ => x end.
#[local] Instance float_eq_dec : EqDecision f64.
Proof. solve_decision. Defined.
#[local] Instance event_eq_dec : EqDecision PoolEvent.
Proof. solve_decision. Defined.
#[local] Instance numbers : EventPrinter :=
  {| event_to_string e := (λ ie, [123; 48 + Z.of_nat ie.1; 125]) <$> list_find (λ x, x = e) demo_log |}.
#[local] Instance numbered : EventParser :=
  {| event_from_str s := match s with [123; d; 125] => reread_event bump <$> demo_log !! Z.to_nat (d - 48) | _ => None end |}.
#[local] Instance codec : EventCodec.
Proof.
  refine {| read_difficulty := bump |}.
  - intros e line; cbn [event_to_string numbers]; intros ([i x] & Hf & ->)%fmap_Some; cbn [fst].
    eexists. split_and!; [done|done|]. apply list_find_Some in Hf as (Hi%lookup_lt_Some & _). change (length demo_log) with 6%nat in Hi.
    rewrite !not_elem_of_cons. split_and!; [lia|lia|lia|apply not_elem_of_nil].
  - intros e line; cbn [event_to_string numbers]; intros ([i x] & Hf & ->)%fmap_Some _; cbn [fst].
    apply list_find_Some in Hf as (Hi & -> & _). cbn [event_from_str numbered]. replace (Z.to_nat (48 + Z.of_nat i - 48)) with i by lia. by rewrite Hi.
  - intros x Hx%moderate_positive. by destruct x as [| | |[] m e].
Defined.

End Boot.
