(* ===== verification/Server.v ===== *)
(** * The stratum server (bridge/src/stratum_server.rs and the accept loop)

    Bind addresses and per-port starting difficulties (net_utils.rs,
    stratum_server.rs), the PROXY protocol header and the accept loop of
    stratum_listener.rs with its disconnect queue, and the source of new
    jobs (kaspaapi.rs).
    The [ppp] parser, IP addresses and their text are parameters; a stream is
    the bytes that arrive within the deadline. *)

From Stdlib Require Import Ascii.
From S2P Require Import Prelude Float64 Mass Db Effects DupGuard Domain Events Bytes Hasher MiningState Stratum Listener ShareHandler Vardiff AntiAbuse ClientHandler.
From S2P Require Import KaspaApi AccountRepo Api RuntimeConfig.
Local Open Scope Z_scope.

(** ** Ports *)

Definition is_decimal (c : Z) : bool := between 48 57 c.
Definition normalize_port (port_or_addr : list Z) : list Z :=
  let s := trim port_or_addr in
  match s with
  | [] => []
  | c :: _ => if c =? 58 then s else if forallb is_decimal s then 58 :: s else s
  end.
Definition bind_addr_from_port (port_or_addr : list Z) : list Z :=
  let s := normalize_port port_or_addr in
  match s with
  | [] => []
  | c :: _ => if c =? 58 then codes "0.0.0.0" ++ s else s
  end.

(** [addr.rsplit(':').next()]: what follows the last colon. *)
Fixpoint after_last_colon (tail s : list Z) : list Z :=
  match s with [] => tail | c :: s => if c =? 58 then after_last_colon s s else after_last_colon tail s end.
Definition parse_port_number (addr : list Z) : option Z := parse_int 0 u16_max (trim (after_last_colon addr addr)).

Section ports.
Context `{!Log2}.

Definition clamp_seed (pow2_clamp : bool) (raw : Z) : f64 :=
  let d := f64_of_Z raw in
  let d := if pow2_clamp && f64_lt f64_zero d then f64_pow2 (f64_as_int (- i32_max - 1) i32_max (f64_floor (f64_log2 d))) else d in
  if f64_eq d f64_zero then f64_of_Z 4 else d.

Definition listen_ports (stratum_port : list Z) (stratum_ports : list (list Z * Z)) : list (list Z) :=
  match stratum_ports with [] => [stratum_port] | _ => map fst stratum_ports end.
(** Later entries for a port replace earlier ones. *)
Definition server_port_seeds (pow2_clamp : bool) (stratum_ports : list (list Z * Z)) : gmap Z f64 :=
  foldl (λ m e, match parse_port_number e.1 with Some n => <[n := clamp_seed pow2_clamp e.2]> m | None => m end) ∅ stratum_ports.
Definition server_extranonce_size (configured : Z) : Z := if 0 <? configured then Z.min configured 3 else 2.

(** The client handler the server starts with. *)
Definition server_client_handler (pow2_clamp : bool) (min_share_diff : Z) (stratum_ports : list (list Z * Z)) : ClientHandler :=
  {| clients := ∅; client_counter := 0; min_share_diff := clamp_seed pow2_clamp min_share_diff;
     port_seeds := server_port_seeds pow2_clamp stratum_ports |}.
End ports.

(** ** The PROXY protocol header *)

Section server.
Context {IpAddr : Type} `{!EqDecision IpAddr, !Countable IpAddr}.

(** [ppp::v2::Addresses]. *)
Inductive Addresses := AIPv4 (source : IpAddr) (source_port : Z) | AIPv6 (source : IpAddr) (source_port : Z) | AUnspecified | AUnix.

Class Network := { parse_v2 : list Z → option Addresses; ip_to_string : IpAddr → string }.
Context `{!Network}.

Inductive ProxyV2Source := PClient (ip : IpAddr) (port : Z) | PHealthCheck.
Inductive ProxyError := ShortHeader | NotProxyV2 | BadHeader | UnsupportedFamily.

(** [read_exact]; the bytes that arrive may be too few. *)
Definition read_exact (n : nat) (s : list Z) : option (list Z * list Z) :=
  if (n <=? length s)%nat then Some (take n s, drop n s) else None.

Definition PROXY_SIG : list Z := [13; 10; 13; 10; 0; 13; 10; 81; 85; 73; 84; 10].

(** The source, and the stream after the header. *)
Definition read_proxy_v2_source (stream : list Z) : result ProxyError (ProxyV2Source * list Z) :=
  match read_exact 16 stream with
  | None => Err ShortHeader
  | Some (fixed, stream) =>
      if negb (bool_decide (take 12 fixed = PROXY_SIG)) then Err NotProxyV2
      else
        let addr_len := 256 * default 0 (fixed !! 14%nat) + default 0 (fixed !! 15%nat) in
        match read_exact (Z.to_nat addr_len) stream with
        | None => Err ShortHeader
        | Some (block, stream) =>
            match parse_v2 (fixed ++ block) with
            | None => Err BadHeader
            | Some (AIPv4 ip port) | Some (AIPv6 ip port) => Ok (PClient ip port, stream)
            | Some AUnspecified => Ok (PHealthCheck, stream)
            | Some AUnix => Err UnsupportedFamily
            end
        end
  end.

(** ** Accepting connections *)

Record PeerConn := { pe_ip : IpAddr; pe_port : Z; pe_local_port : Z; pe_stream : list Z }.

(** A connection is [se_live] while its task reads, then in [se_queue] until the disconnect task
    handles it; its ticket, here with the session it belongs to, is dropped when the task returns. *)
Record Server := {
  se_guard : gmap IpAddr IpEntry; se_tickets : list (Z * IpAddr); se_live : list StratumContext; se_queue : list StratumContext;
  se_handler : ClientHandler; se_next_uid : Z; se_disconnects : Z; se_events : list PoolEvent }.

Inductive Accepted := AProxyError (e : ProxyError) | AHealthCheck | ARefused (r : AntiAbuseRejection) | AOpened (stream : list Z).

Definition server_with (guard : gmap IpAddr IpEntry) (tickets : list (Z * IpAddr)) (live queue : list StratumContext) (h : ClientHandler) (s : Server) : Server :=
  {| se_guard := guard; se_tickets := tickets; se_live := live; se_queue := queue; se_handler := h; se_next_uid := se_next_uid s;
     se_disconnects := se_disconnects s; se_events := se_events s |}.
Definition next_uid (s : Server) : Server :=
  {| se_guard := se_guard s; se_tickets := se_tickets s; se_live := se_live s; se_queue := se_queue s; se_handler := se_handler s;
     se_next_uid := se_next_uid s + 1; se_disconnects := se_disconnects s; se_events := se_events s |}.
Definition count_disconnect (event : option PoolEvent) (s : Server) : Server :=
  {| se_guard := se_guard s; se_tickets := se_tickets s; se_live := se_live s; se_queue := se_queue s; se_handler := se_handler s;
     se_next_uid := se_next_uid s; se_disconnects := se_disconnects s + 1;
     se_events := se_events s ++ match event with Some e => [e] | None => [] end |}.

Definition client_address (proxy_protocol : bool) (peer : PeerConn) : result Accepted (IpAddr * Z * list Z) :=
  if proxy_protocol then
    match read_proxy_v2_source (pe_stream peer) with
    | Ok (PClient ip port, stream) => Ok (ip, port, stream)
    | Ok (PHealthCheck, _) => Err AHealthCheck
    | Err e => Err (AProxyError e)
    end
  else Ok (pe_ip peer, pe_port peer, pe_stream peer).

(** The body of the accept loop for one connection. *)
Definition accept (config : AntiAbuseConfig) (proxy_protocol : bool) (now : Z) (peer : PeerConn) (s : Server) : Accepted * Server :=
  match client_address proxy_protocol peer with
  | Err a => (a, s)
  | Ok (ip, port, stream) =>
      match try_accept_connection config ip now (se_guard s) with
      | (Err r, guard) => (ARefused r, server_with guard (se_tickets s) (se_live s) (se_queue s) (se_handler s) s)
      | (Ok _, guard) =>
          let ctx := StratumContext_new (ip_to_string ip) port (pe_local_port peer) (se_next_uid s) (MiningState_new now) in
          let '(ctx, handler) := on_connect ctx (se_handler s) in
          (AOpened stream, next_uid (server_with guard ((se_next_uid s, ip) :: se_tickets s) (se_live s ++ [ctx]) (se_queue s) handler s))
      end
  end.

(** The end of a connection's task: [disconnect] and [notify_disconnect]. *)
Definition task_end (i : nat) (s : Server) : Server :=
  match se_live s !! i with
  | None => s
  | Some ctx => server_with (se_guard s) (se_tickets s) (delete i (se_live s)) (se_queue s ++ [set_disconnecting true ctx]) (se_handler s) s
  end.
(** Then the ticket is dropped. *)
Definition ticket_drop (i : nat) (s : Server) : Server :=
  match se_tickets s !! i with
  | None => s
  | Some (_, ip) => server_with (release ip (se_guard s)) (delete i (se_tickets s)) (se_live s) (se_queue s) (se_handler s) s
  end.
(** One turn of the disconnect task. *)
Definition disconnect_turn (now correlation_id : Z) (s : Server) : Server :=
  match se_queue s with
  | [] => s
  | ctx :: queue =>
      let '(event, _, handler) := on_disconnect now correlation_id ctx (se_handler s) in
      count_disconnect event (server_with (se_guard s) (se_tickets s) (se_live s) queue handler s)
  end.
(** When the listeners stop. *)
Definition server_stop (s : Server) : Server :=
  let '(_, handler) := disconnect_all (se_handler s) in
  server_with (se_guard s) (se_tickets s) (map (λ c, if bool_decide (is_Some (clients (se_handler s) !! ctx_id c)) then set_disconnecting true c else c) (se_live s))
    (se_queue s) handler s.

(** ** The server as a system *)

Context (config : AntiAbuseConfig) (secs : Z → f64) (proxy_protocol : bool).
(** What a validated configuration has. *)
Context (config_ok : 1 ≤ max_conn_per_ip config ∧ 1 ≤ max_tracked_ips config).

(** What handlers and other tasks may do to a connection: anything but change which one it is. *)
Definition same_conn (c c' : StratumContext) : Prop :=
  ctx_id c' = ctx_id c ∧ session_uid c' = session_uid c ∧ remote_addr c' = remote_addr c.

Inductive server_step (s : Server) : Server → Prop :=
| sv_accept now peer : server_step s (accept config proxy_protocol now peer s).2
| sv_frame ip now : server_step s (server_with (try_consume_frame config secs ip now (se_guard s)).2 (se_tickets s) (se_live s) (se_queue s) (se_handler s) s)
| sv_touch live queue : Forall2 same_conn (se_live s) live → Forall2 same_conn (se_queue s) queue →
    server_step s (server_with (se_guard s) (se_tickets s) live queue (se_handler s) s)
(** Each port has a queue of its own; [se_queue] lists them in some order. *)
| sv_ports queue : queue ≡ₚ se_queue s → server_step s (server_with (se_guard s) (se_tickets s) (se_live s) queue (se_handler s) s)
| sv_end i : server_step s (task_end i s)
| sv_drop i u ip : se_tickets s !! i = Some (u, ip) → u ∉ map session_uid (se_live s) → server_step s (ticket_drop i s)
| sv_turn now correlation_id : server_step s (disconnect_turn now correlation_id s)
| sv_stop : server_step s (server_stop s).

Definition server_start (h : ClientHandler) : Server :=
  {| se_guard := ∅; se_tickets := []; se_live := []; se_queue := []; se_handler := h; se_next_uid := 1; se_disconnects := 0; se_events := [] |}.

(** The sessions not yet closed, and those whose end was published. *)
Definition open_uids (s : Server) : list Z := map session_uid (se_live s) ++ map session_uid (se_queue s).
Definition closed_uid (e : PoolEvent) : option Z := match e with SessionClosed u _ _ _ _ _ _ _ => Some u | _ => None end.
Definition closed_uids (s : Server) : list Z := omap closed_uid (se_events s).

Record server_ok (s : Server) : Prop := {
  so_guard : guard_inv config {| ga_map := se_guard s; ga_tickets := map snd (se_tickets s) |};
  so_counter : client_counter (se_handler s) = se_next_uid s - 1;
  so_next : 1 ≤ se_next_uid s;
  so_ids : Forall (λ c, ctx_id c = session_uid c - 1) (se_live s ++ se_queue s);
  so_fresh : Forall (λ u, 1 ≤ u < se_next_uid s) (open_uids s ++ closed_uids s);
  so_once : NoDup (open_uids s ++ closed_uids s);
  so_count : Z.of_nat (length (open_uids s)) + se_disconnects s = se_next_uid s - 1;
  so_clients : ∀ id, is_Some (clients (se_handler s) !! id) → id = 0 ∨ id + 1 ∈ open_uids s;
  so_tickets : Forall (λ c, ∃ ip, (session_uid c, ip) ∈ se_tickets s ∧ remote_addr c = ip_to_string ip) (se_live s);
}.

Lemma server_start_ok h : clients h = ∅ → client_counter h = 0 → server_ok (server_start h).
Proof.
  intros Hc Hn. assert (guard_inv config {| ga_map := (∅ : gmap IpAddr IpEntry); ga_tickets := [] |}) as Hg by (split; [by intros ip|split; [by intros ip e|destruct config_ok; change (0 ≤ max_tracked_ips config); lia]]).
  split; [exact Hg|simpl; lia|simpl; lia|constructor|constructor|constructor|done| |constructor].
  intros id [c Hid]. simpl in Hid. by rewrite Hc in Hid.
Qed.

Lemma same_conn_uids l l' : Forall2 same_conn l l' → map session_uid l' = map session_uid l.
Proof. induction 1 as [|c c' l l' (_ & Hu & _) _ IH]; simpl; [done|]. by rewrite Hu, IH. Qed.

Lemma same_conn_Forall (P : StratumContext → Prop) l l' : (∀ c c', same_conn c c' → P c → P c') → Forall2 same_conn l l' → Forall P l → Forall P l'.
Proof. intros HP Hl. induction Hl; intros Hf; [constructor|]. apply Forall_cons in Hf as [? ?]. constructor; eauto. Qed.

(** A step that keeps guard, tickets and handler only has to say what it does to the connections. *)
Lemma touched_ok s live queue : server_ok s → Forall2 same_conn (se_live s) live → Forall2 same_conn (se_queue s) queue →
  server_ok (server_with (se_guard s) (se_tickets s) live queue (se_handler s) s).
Proof.
  intros [] Hl Hq. assert (open_uids (server_with (se_guard s) (se_tickets s) live queue (se_handler s) s) = open_uids s) as Hu
    by (unfold open_uids; simpl; by rewrite (same_conn_uids _ _ Hl), (same_conn_uids _ _ Hq)).
  split; rewrite ?Hu; simpl; try done.
  - eapply same_conn_Forall; [|by apply Forall2_app|done]. intros c c' (Hid & Huid & _) Hc. congruence.
  - eapply same_conn_Forall; [|exact Hl|done]. intros c c' (_ & Huid & Ha) (ip & Hin & Hr). exists ip. by rewrite Huid, Ha.
Qed.

Lemma reordered_ok s queue : server_ok s → queue ≡ₚ se_queue s →
  server_ok (server_with (se_guard s) (se_tickets s) (se_live s) queue (se_handler s) s).
Proof.
  intros [] Hq. assert (open_uids (server_with (se_guard s) (se_tickets s) (se_live s) queue (se_handler s) s) ≡ₚ open_uids s) as Hu
    by (unfold open_uids; simpl; by rewrite Hq).
  split; rewrite ?Hu; simpl; try done.
  - by rewrite Hq.
  - intros id Hid. rewrite Hu. by apply so_clients0.
Qed.

Lemma guard_touched_ok s guard : server_ok s → guard_inv config {| ga_map := guard; ga_tickets := map snd (se_tickets s) |} →
  server_ok (server_with guard (se_tickets s) (se_live s) (se_queue s) (se_handler s) s).
Proof. by intros [] Hg. Qed.

Lemma open_uids_end i s c : se_live s !! i = Some c → open_uids (task_end i s) ≡ₚ open_uids s.
Proof.
  intros Hi. unfold task_end, open_uids. rewrite Hi. simpl. rewrite map_app. simpl. change (session_uid (set_disconnecting true c)) with (session_uid c).
  rewrite (delete_Permutation (se_live s) i c Hi) at 2. simpl. rewrite app_assoc. by rewrite <- Permutation_cons_append.
Qed.

Lemma task_end_ok i s : server_ok s → server_ok (task_end i s).
Proof.
  intros Hok. destruct (se_live s !! i) as [c|] eqn:Hi; [|unfold task_end; by rewrite Hi]. destruct Hok.
  pose proof (open_uids_end i s c Hi) as Hu. pose proof (delete_Permutation (se_live s) i c Hi) as Hp.
  assert (closed_uids (task_end i s) = closed_uids s ∧ se_handler (task_end i s) = se_handler s ∧ se_next_uid (task_end i s) = se_next_uid s ∧
    se_disconnects (task_end i s) = se_disconnects s) as (Hcl & Hh & Hn & Hdc) by (unfold task_end; by rewrite Hi).
  split; rewrite ?Hcl, ?Hh, ?Hn, ?Hdc, ?Hu; try done.
  - unfold task_end. by rewrite Hi.
  - unfold task_end. rewrite Hi. simpl. rewrite Hp in so_ids0. simpl in so_ids0. apply Forall_cons in so_ids0 as [Hc Hrest].
    rewrite app_assoc. apply Forall_app. split; [done|]. by constructor.
  - intros id Hid. rewrite Hu. by apply so_clients0.
  - unfold task_end. rewrite Hi. simpl. rewrite Hp in so_tickets0. by apply Forall_cons in so_tickets0 as [_ ?].
Qed.

Lemma ticket_drop_ok i u ip s : se_tickets s !! i = Some (u, ip) → u ∉ map session_uid (se_live s) → server_ok s → server_ok (ticket_drop i s).
Proof.
  intros Hi Hu []. unfold ticket_drop. rewrite Hi. split; simpl; try done.
  - rewrite <- (take_drop_middle _ _ _ Hi), map_app in so_guard0. simpl in so_guard0.
    rewrite delete_take_drop, map_app. by apply drop_inv.
  - rewrite Forall_forall in so_tickets0. apply Forall_forall. intros c Hc. destruct (so_tickets0 c Hc) as (ip' & Hin & Hr).
    exists ip'. split; [|done]. rewrite (delete_Permutation _ _ _ Hi) in Hin. apply elem_of_cons in Hin as [[= He _]|]; [|done].
    destruct Hu. rewrite <- He. by apply list_elem_of_In, in_map, list_elem_of_In.
Qed.

Lemma disconnect_turn_ok now corr s : server_ok s → server_ok (disconnect_turn now corr s).
Proof.
  intros Hok. unfold disconnect_turn. destruct (se_queue s) as [|c queue] eqn:Hq; [done|].
  destruct (on_disconnect now corr c (se_handler s)) as [[event c'] handler] eqn:Hd. destruct Hok.
  assert (open_uids s ≡ₚ session_uid c :: (map session_uid (se_live s) ++ map session_uid queue)) as Hu
    by (unfold open_uids; rewrite Hq; simpl; by rewrite Permutation_middle).
  assert (client_counter handler = client_counter (se_handler s)) as Hcc by (unfold on_disconnect in Hd; injection Hd as _ _ <-; by destruct (client_id _)).
  assert (∀ id, is_Some (clients handler !! id) → is_Some (clients (se_handler s) !! id) ∧ (id = ctx_id c → id ≤ 0)) as Hcl.
  { intros id. unfold on_disconnect in Hd. injection Hd as _ _ <-. unfold client_id. simpl. destruct (Z.ltb_spec 0 (ctx_id c)) as [Hpos|Hpos]; simpl.
    - destruct (decide (id = ctx_id c)) as [-> |Hne]; [by rewrite lookup_delete_eq; intros [? ?]|]. rewrite lookup_delete_ne by done. naive_solver.
    - intros Hid. split; [done|lia]. }
  assert (match event with Some e => closed_uid e = Some (session_uid c) | None => True end) as Hev
    by (unfold on_disconnect in Hd; injection Hd as <- _ _; simpl; destruct (non_empty _), (worker_opt _); done).
  set (s' := count_disconnect event _).
  assert (open_uids s' = map session_uid (se_live s) ++ map session_uid queue) as Hu' by done.
  assert (∃ rest, open_uids s ++ closed_uids s ≡ₚ (open_uids s' ++ closed_uids s') ++ rest) as [rest Hrest].
  { assert (closed_uids s' = closed_uids s ++ match event with Some _ => [session_uid c] | None => [] end) as Hcs.
    { unfold s', closed_uids. simpl. rewrite omap_app. f_equal. destruct event as [e|]; [|done]. simpl. by rewrite Hev. }
    destruct event as [e|]; [exists []|exists [session_uid c]]; rewrite Hu, Hu', Hcs, ?app_nil_r; [|by rewrite <- Permutation_cons_append].
    rewrite app_assoc. by rewrite <- Permutation_cons_append. }
  split; try done.
  - simpl. congruence.
  - rewrite Hq in so_ids0. apply Forall_app in so_ids0 as [Hl Hqs]. apply Forall_cons in Hqs as [_ Hqs]. by apply Forall_app.
  - rewrite Hrest in so_fresh0. by apply Forall_app in so_fresh0 as [? _].
  - rewrite Hrest in so_once0. by apply NoDup_app in so_once0 as [? _].
  - rewrite Hu'. rewrite Hu in so_count0. simpl in *. lia.
  - intros id Hid. destruct (Hcl id Hid) as [Hin Hle]. destruct (so_clients0 id Hin) as [|Ho]; [by left|].
    rewrite Hu in Ho. apply elem_of_cons in Ho as [He|Ho]; [|by right].
    rewrite Hq in so_ids0. apply Forall_app in so_ids0 as [_ Hqs]. apply Forall_cons in Hqs as [Hidc _].
    rewrite Forall_app in so_fresh0. destruct so_fresh0 as [Hf _]. rewrite Hu in Hf. apply Forall_cons in Hf as [[Hc1 _] _]. left. lia.
Qed.

Lemma accept_ok now peer s : se_next_uid (accept config proxy_protocol now peer s).2 ≤ i32_max → server_ok s →
  server_ok (accept config proxy_protocol now peer s).2.
Proof.
  intros Hmax Hok. unfold accept in *. destruct (client_address proxy_protocol peer) as [[[ip port] stream]|a]; [|done].
  destruct (try_accept_connection config ip now (se_guard s)) as [[u|r] guard] eqn:Ht.
  2: { apply guard_touched_ok; [done|]. destruct Hok. by apply (accept_inv config config_ok ip now _ _ _ (Err r) so_guard0). }
  simpl in *. destruct Hok. set (ctx := set_ctx_id _ _) in *. set (s' := next_uid _).
  assert (open_uids s' ≡ₚ se_next_uid s :: open_uids s) as Hu.
  { unfold open_uids. simpl. rewrite map_app. simpl. rewrite <- app_assoc. simpl. by rewrite <- Permutation_middle. }
  split; simpl.
  - by apply (accept_inv config config_ok ip now _ _ _ (Ok u) so_guard0).
  - unfold i32_wrapping_succ. rewrite so_counter0, (proj2 (Z.ltb_lt _ _)) by lia. lia.
  - lia.
  - rewrite <- app_assoc. apply Forall_app in so_ids0 as [Hl Hq]. apply Forall_app. split; [done|]. constructor; [|done]. simpl. lia.
  - rewrite Hu. constructor; [lia|]. eapply Forall_impl; [exact so_fresh0|]. simpl. lia.
  - rewrite Hu. constructor; [|done]. intros Hin. rewrite Forall_forall in so_fresh0. specialize (so_fresh0 _ Hin). simpl in so_fresh0. lia.
  - rewrite Hu. simpl. lia.
  - intros id. rewrite Hu, so_counter0. destruct (decide (id = se_next_uid s - 1)) as [-> |Hne].
    + intros _. right. apply elem_of_cons. left. lia.
    + rewrite lookup_insert_ne by congruence. intros Hid. destruct (so_clients0 id Hid); [by left|right]. by apply elem_of_cons; right.
  - apply Forall_app. split.
    + eapply Forall_impl; [exact so_tickets0|]. intros c (ip' & Hin & Hr). exists ip'. split; [by apply elem_of_cons; right|done].
    + constructor; [|constructor]. exists ip. split; [apply elem_of_cons; by left|done].
Qed.

Lemma server_step_ok s s' : se_next_uid s' ≤ i32_max → server_step s s' → server_ok s → server_ok s'.
Proof.
  intros Hmax Hs Hok. destruct Hs as [now peer|ip now|live queue Hl Hq|queue Hq|i|i u ip Hi Hu|now corr|].
  - by apply accept_ok.
  - apply guard_touched_ok; [done|]. destruct (try_consume_frame config secs ip now (se_guard s)) as [ok m'] eqn:Hf. destruct Hok. by apply (frame_inv config secs ip now _ _ _ ok so_guard0).
  - by apply touched_ok.
  - by apply reordered_ok.
  - by apply task_end_ok.
  - by apply (ticket_drop_ok i u ip).
  - by apply disconnect_turn_ok.
  - unfold server_stop, disconnect_all. set (live := map _ (se_live s)).
    assert (Forall2 same_conn (se_live s) live) as Hl.
    { unfold live. apply Forall2_fmap_r. apply Forall_Forall2_diag, Forall_true. intros c. unfold compose. by destruct (bool_decide (is_Some (clients (se_handler s) !! ctx_id c))). }
    assert (Forall2 same_conn (se_queue s) (se_queue s)) as Hq by (by apply Forall_Forall2_diag, Forall_true).
    destruct (touched_ok s live (se_queue s) Hok Hl Hq). split; try done. by intros id [? Hid].
Qed.

Lemma next_uid_mono s s' : server_step s s' → se_next_uid s ≤ se_next_uid s'.
Proof.
  intros Hs. destruct Hs; simpl; try lia.
  - unfold accept. destruct (client_address _ _) as [[[ip port] stream]|a]; [|simpl; lia].
    destruct (try_accept_connection _ _ _ _) as [[u|r] guard]; simpl; lia.
  - unfold task_end. destruct (se_live s !! i); simpl; lia.
  - unfold ticket_drop. destruct (se_tickets s !! i) as [[? ?]|]; simpl; lia.
  - unfold disconnect_turn. destruct (se_queue s); simpl; lia.
Qed.

(** C24: At any point of any interleaving of accepts, frames, ends of connections, dropped tickets, turns of
    the disconnect task and a stop of the listeners, with fewer than 2^31 connections so far: every
    connection still read holds a ticket, no address more than its cap, and every connection was
    counted once as open, waiting or disconnected.  The client map keeps no connection that is gone
    (but client 0), and the end of no session is published twice or before it ended. *)
Theorem server_accounts_for_connections h s :
  clients h = ∅ → client_counter h = 0 → rtc server_step (server_start h) s → se_next_uid s ≤ i32_max →
  (∀ c, c ∈ se_live s → ∃ ip, (session_uid c, ip) ∈ se_tickets s ∧ remote_addr c = ip_to_string ip) ∧
  (∀ ip, live (map snd (se_tickets s)) ip ≤ max_conn_per_ip config) ∧
  Z.of_nat (length (se_live s)) + Z.of_nat (length (se_queue s)) + se_disconnects s = se_next_uid s - 1 ∧
  (∀ id, is_Some (clients (se_handler s) !! id) → id = 0 ∨ ∃ c, c ∈ se_live s ++ se_queue s ∧ ctx_id c = id) ∧
  NoDup (closed_uids s) ∧ (∀ u, u ∈ closed_uids s → u ∉ map session_uid (se_live s ++ se_queue s)).
Proof.
  intros Hc Hn Hr. assert (se_next_uid s ≤ i32_max → server_ok s) as Hok.
  { revert Hr. apply (rtc_ind_r (λ s, se_next_uid s ≤ i32_max → server_ok s)).
    - intros _. by apply server_start_ok.
    - intros s1 s2 _ Hstep IH Hmax. apply next_uid_mono in Hstep as Hle. apply (server_step_ok s1); [done|done|]. apply IH. lia. }
  intros Hmax. destruct (Hok Hmax) as [(Hcount & Hcaps & _) _ _ Hids _ Honce Hsum Hcl Htk]. unfold open_uids in *. rewrite <- map_app in *.
  apply NoDup_app in Honce as (_ & Hdis & Hnd). split_and!.
  - by apply Forall_forall.
  - intros ip. rewrite <- Hcount. unfold conn_count_of. simpl. destruct (se_guard s !! ip) as [e|] eqn:He; simpl; [|lia]. apply Hcaps in He. lia.
  - rewrite length_map, length_app in Hsum. lia.
  - intros id Hid. destruct (Hcl id Hid) as [|Hin]; [by left|right]. apply list_elem_of_In, in_map_iff in Hin as (c & He & Hin%list_elem_of_In).
    exists c. split; [done|]. rewrite Forall_forall in Hids. rewrite (Hids c Hin). lia.
  - done.
  - intros u Hu Hin. by apply (Hdis u Hin).
Qed.
End server.

(** ** The source of new jobs *)

Inductive Notice := NewBlockTemplate (drained : nat) | OtherNotice | ChannelClosed.
(** What [select!] answers in a turn of the template listener. *)
Inductive TemplateTurn := TNotice (n : Notice) | TTick | TShutdown (flag : bool).

(** [wait_for_sync]: the answers of the node until it says that it is synced. *)
Definition wait_for_sync (answers : list (option bool)) : bool := existsb (λ a, bool_decide (a = Some true)) answers.

(** How many times [new_block_available] is called; a turn starts when the node is synced. *)
Fixpoint template_listener (turns : list (list (option bool) * TemplateTurn)) : nat :=
  match turns with
  | [] => 0
  | (answers, turn) :: turns =>
      if negb (wait_for_sync answers) then 0%nat
      else match turn with
           | TNotice (NewBlockTemplate _) | TTick => S (template_listener turns)
           | TNotice OtherNotice | TShutdown false => template_listener turns
           | TNotice ChannelClosed | TShutdown true => 0
           end
  end.

(** The poller without a concrete client: every tick until the shutdown. *)
Fixpoint template_poller (turns : list TemplateTurn) : nat :=
  match turns with
  | [] | TShutdown true :: _ => 0
  | TTick :: turns => S (template_poller turns)
  | _ :: turns => template_poller turns
  end.

(** Which of them [listen_and_serve] starts: with a concrete client whose notifications are already
    taken, neither. *)
Inductive JobSource := Notified | Polled | NoSource.
Definition job_source (concrete receiver_free : bool) : JobSource := if concrete then if receiver_free then Notified else NoSource else Polled.

Definition productive (t : TemplateTurn) : bool := match t with TNotice (NewBlockTemplate _) | TTick => true | _ => false end.
Definition final (t : TemplateTurn) : bool := match t with TNotice ChannelClosed | TShutdown true => true | _ => false end.

(** While the node is synced and the channel open, every tick and every burst of notifications gives
    one call; from the moment the channel closes no tick does, although the ticker is meant to be the
    fallback for notifications. *)
Lemma template_listener_calls turns : Forall (λ t, wait_for_sync t.1 = true) turns → Forall (λ t, final t.2 = false) turns →
  ∀ rest, template_listener (turns ++ rest) = (length (List.filter (λ t, productive t.2) turns) + template_listener rest)%nat.
Proof.
  intros Hs Hf rest. induction turns as [|[answers t] turns IH]; [done|]. apply Forall_cons in Hs as [Hs1 Hs], Hf as [Hf1 Hf].
  simpl in *. rewrite Hs1. simpl. destruct t as [[n| |]| |[]]; simpl; try done; rewrite IH by done; lia.
Qed.
Lemma closed_channel_stops_polling answers rest : template_listener ((answers, TNotice ChannelClosed) :: rest) = 0%nat.
Proof. simpl. by destruct (wait_for_sync answers). Qed.

(** ** Configured ports *)

Lemma digits_val_solid acc s v : digits_val acc s = Some v → Forall (λ c, is_decimal c = true) s.
Proof.
  revert acc. induction s as [|c s IH]; intros acc Hd; [constructor|]. cbn [digits_val] in Hd. destruct (between 48 57 c) eqn:Hc; [|done].
  constructor; [done|]. by eapply IH.
Qed.

Lemma parse_u16_solid p v : parse_int 0 u16_max p = Some v → Forall (λ c, is_whitespace c = false ∧ c ≠ 58) p.
Proof.
  assert (∀ c, is_decimal c = true → is_whitespace c = false ∧ c ≠ 58) as Hdig.
  { intros c Hc. unfold is_decimal, between in Hc. apply andb_true_iff in Hc as [H1%Z.leb_le H2%Z.leb_le].
    assert (Forall (λ c, is_whitespace c = false ∧ c ≠ 58) (seqZ 48 10)) as Hall by by_computation.
    rewrite Forall_forall in Hall. apply Hall, elem_of_seqZ. lia. }
  intros Hp. unfold parse_int in Hp. apply bind_Some in Hp as (z & Hz & _).
  assert (∀ s x, some_digits s = Some x → Forall (λ c, is_whitespace c = false ∧ c ≠ 58) s) as Hs.
  { intros s x Hx. destruct s; [done|]. eapply Forall_impl; [by eapply digits_val_solid|]. exact Hdig. }
  destruct p as [|c p]; [constructor|]. destruct (decide (c = 43)) as [-> |]; [constructor; [done|]; by eapply Hs|].
  destruct (decide (c = 45)) as [-> |]; [done|]. eapply Hs. rewrite <- Hz. by destruct c as [|c|c]; repeat (destruct c; try done).
Qed.

Lemma after_last_colon_none tail s : Forall (λ c, c ≠ 58) s → after_last_colon tail s = tail.
Proof. induction 1 as [|c s Hc _ IH]; [done|]. simpl. by rewrite (proj2 (Z.eqb_neq c 58)). Qed.

Lemma mapM_elem {E A B} (f : A → result E B) l k y : mapM f l = Ok k → y ∈ k → ∃ x, x ∈ l ∧ f x = Ok y.
Proof.
  revert k. induction l as [|x l IH]; intros k Hk Hy; simpl in Hk; [injection Hk as <-; by apply not_elem_of_nil in Hy|].
  apply result_bind_Ok in Hk as (z & Hz & Hk). apply result_bind_Ok in Hk as (zs & Hzs & Hk). injection Hk as <-.
  apply elem_of_cons in Hy as [-> |Hy]; [exists x; split; [by left|done]|]. destruct (IH zs Hzs Hy) as (x' & Hx' & He). exists x'. split; [by right|done].
Qed.

(** Every [port:seed] of KATPOOL_STRATUM_PORTS names a port the server knows by number. *)
Lemma configured_port_number raw ports p seed : parse_stratum_ports raw = Ok ports → (p, seed) ∈ ports →
  ∃ n, parse_port_number p = Some n ∧ 0 ≤ n ≤ u16_max ∧ 0 ≤ seed ≤ u32_max.
Proof.
  unfold parse_stratum_ports. destruct raw as [raw|]; [|by intros [= <-] ?%not_elem_of_nil].
  destruct (is_empty _); [by intros [= <-] ?%not_elem_of_nil|]. intros Hm Hin. destruct (mapM_elem _ _ _ _ Hm Hin) as (e & _ & He).
  unfold parse_port_entry in He. destruct (split_once 58 e) as [[port sd]|]; [|done]. cbv zeta in He.
  destruct (parse_int 0 u16_max (trim port)) as [n|] eqn:Hn; [|done]. destruct (parse_int 0 u32_max (trim sd)) as [z|] eqn:Hz; [|done].
  injection He as <- <-. exists n. apply parse_int_range in Hz. split_and!; try apply (parse_int_range _ _ _ _ Hn); try lia.
  pose proof (parse_u16_solid _ _ Hn) as Hs. unfold parse_port_number.
  rewrite after_last_colon_none by (eapply Forall_impl; [exact Hs|naive_solver]).
  rewrite trim_solid by (eapply Forall_impl; [exact Hs|naive_solver]). done.
Qed.

Section seeds.
Context `{!Log2}.

Lemma port_seeds_last clamp ports n seed p : (p, seed) ∈ ports → parse_port_number p = Some n →
  ∃ p' seed', (p', seed') ∈ ports ∧ parse_port_number p' = Some n ∧ server_port_seeds clamp ports !! n = Some (clamp_seed clamp seed').
Proof.
  intros Hin Hp. unfold server_port_seeds. induction ports as [|[q s] ports IH] using rev_ind; [by apply not_elem_of_nil in Hin|].
  rewrite foldl_snoc. simpl. destruct (parse_port_number q) as [m|] eqn:Hq.
  - destruct (decide (m = n)) as [-> |Hne].
    + exists q, s. rewrite lookup_insert_eq. split_and!; [apply elem_of_app; right; by apply list_elem_of_singleton|done|done].
    + apply elem_of_app in Hin as [Hin|Hin]; [|apply list_elem_of_singleton in Hin; congruence].
      destruct (IH Hin) as (p' & s' & Hin' & Hp' & Hl). exists p', s'. rewrite lookup_insert_ne by done. split_and!; [apply elem_of_app; by left|done|done].
  - apply elem_of_app in Hin as [Hin|Hin]; [|apply list_elem_of_singleton in Hin; congruence].
    destruct (IH Hin) as (p' & s' & Hin' & Hp' & Hl). exists p', s'. split_and!; [apply elem_of_app; by left|done|done].
Qed.

(** From the setting to the miner: a connection that lands on a configured port starts at the clamped
    seed of the last entry for that port; on any other port at the clamped default. *)
Theorem starting_difficulty_configured raw ports clamp min_share_diff : parse_stratum_ports raw = Ok ports →
  let h := server_client_handler clamp min_share_diff ports in
  (∀ p seed, (p, seed) ∈ ports → ∃ n p' seed', parse_port_number p = Some n ∧ (p', seed') ∈ ports ∧ parse_port_number p' = Some n ∧
    seed_for_port h n = clamp_seed clamp seed') ∧
  (∀ n, (∀ p seed, (p, seed) ∈ ports → parse_port_number p ≠ Some n) → seed_for_port h n = clamp_seed clamp min_share_diff).
Proof.
  intros Hr h. split.
  - intros p seed Hin. destruct (configured_port_number _ _ _ _ Hr Hin) as (n & Hn & _).
    destruct (port_seeds_last clamp ports n seed p Hin Hn) as (p' & seed' & Hin' & Hp' & Hl). exists n, p', seed'.
    split_and!; [done..|]. unfold seed_for_port. simpl. by rewrite Hl.
  - intros n Hn. unfold seed_for_port. simpl. replace (server_port_seeds clamp ports !! n) with (@None f64); [done|]. clear Hr h. symmetry.
    unfold server_port_seeds. induction ports as [|[q s] ports IH] using rev_ind; [done|]. rewrite foldl_snoc. simpl.
    assert (parse_port_number q ≠ Some n) as Hq by (apply (Hn q s), elem_of_app; right; by apply list_elem_of_singleton).
    destruct (parse_port_number q) as [m|]; [rewrite lookup_insert_ne by congruence|]; apply IH; intros p seed Hin; apply (Hn p seed), elem_of_app; by left.
Qed.
End seeds.

(** ** The header leaves the payload alone *)

Section proxy.
Context {IpAddr : Type} `{!Network (IpAddr := IpAddr)}.

Lemma read_exact_Some n s a b : read_exact n s = Some (a, b) ↔ s = a ++ b ∧ length a = n.
Proof.
  unfold read_exact. destruct (Nat.leb_spec n (length s)) as [Hn|Hn]; split.
  - intros [= <- <-]. by rewrite take_drop, length_take_le.
  - intros [-> <-]. by rewrite take_app_length, drop_app_length.
  - done.
  - intros [-> <-]. rewrite length_app in Hn. lia.
Qed.

(** Exactly the header is consumed, as long as it says, and what follows has no influence. *)
Lemma proxy_header_framed stream src rest : read_proxy_v2_source stream = Ok (src, rest) →
  ∃ header, stream = header ++ rest ∧ take 12 header = PROXY_SIG ∧
    Z.of_nat (length header) = 16 + Z.max 0 (256 * default 0 (header !! 14%nat) + default 0 (header !! 15%nat)) ∧
    ∀ payload, read_proxy_v2_source (header ++ payload) = Ok (src, payload).
Proof.
  unfold read_proxy_v2_source. destruct (read_exact 16 stream) as [[fixed s1]|] eqn:H1; [|done]. apply read_exact_Some in H1 as [-> Hl1].
  case_bool_decide as Hsig; [|done]. cbn [negb]. set (addr_len := 256 * _ + _).
  destruct (read_exact (Z.to_nat addr_len) s1) as [[block s2]|] eqn:H2; [|done]. apply read_exact_Some in H2 as [-> Hl2]. intros Hp.
  assert (rest = s2) as -> by (destruct (parse_v2 _) as [[]|]; naive_solver).
  assert (∀ i, (i < 16)%nat → (fixed ++ block) !! i = fixed !! i) as Hlk by (intros i Hi; apply lookup_app_l; lia).
  exists (fixed ++ block). split_and!.
  - by rewrite app_assoc.
  - rewrite take_app_le by lia. done.
  - rewrite !Hlk by lia. fold addr_len. rewrite length_app, Hl1, Hl2. lia.
  - intros payload. rewrite <- app_assoc. rewrite (proj2 (read_exact_Some 16 _ fixed (block ++ payload))) by done.
    rewrite bool_decide_eq_true_2 by done. cbn [negb]. fold addr_len. rewrite (proj2 (read_exact_Some _ _ block payload)) by done.
    destruct (parse_v2 _) as [[]|]; naive_solver.
Qed.
End proxy.

(** ** The accept loop waits for headers *)

Definition PROXY_DEADLINE : Z := 5 * 1000000000.
(** When each connection is taken up, given how long each peer takes to send its header: the loop reads
    one header at a time. *)
Fixpoint taken_up (now : Z) (header_delays : list Z) : list Z :=
  match header_delays with [] => [] | d :: ds => now :: taken_up (now + Z.min d PROXY_DEADLINE) ds end.

(** A miner behind [n] peers that connect and stay silent waits five seconds for each of them, and the
    loop does not see a shutdown meanwhile. *)
Lemma silent_peers_delay now n delays : Forall (λ d, PROXY_DEADLINE ≤ d) delays → length delays = n →
  taken_up now (delays ++ [0]) !! n = Some (now + Z.of_nat n * PROXY_DEADLINE).
Proof.
  intros Hd <-. revert now. induction Hd as [|d ds Hd1 _ IH]; intros now; [simpl; f_equal; lia|].
  cbn [app taken_up length lookup list_lookup]. rewrite IH, Z.min_r by done. f_equal. lia.
Qed.

(** ** An example *)

Module ServerDemo.
#[local] Instance net : Network (IpAddr := Z) := {| parse_v2 _ := Some (AIPv4 9 4000); ip_to_string ip := pretty ip |}.
#[local] Instance demo_log2 : Log2 := {| f64_log2 _ := f64_of_Z 8 |}.

Definition handler : ClientHandler := server_client_handler true 256 [].
Definition header : list Z := PROXY_SIG ++ [33; 17; 0; 1; 7].
Definition peer : PeerConn (IpAddr := Z) := {| pe_ip := 1; pe_port := 2; pe_local_port := 5555; pe_stream := header ++ codes "{" |}.

(** Two connections through the forwarder; the second one names its software, ends and is handled. *)
Definition s1 := (accept production true 0 peer (server_start handler)).2.
Definition s2 := (accept production true 5 peer s1).2.
Definition s3 := server_with (se_guard s2) (se_tickets s2) (imap (λ i c, if (i =? 1)%nat then set_remote_app "IceRiver" c else c) (se_live s2))
  (se_queue s2) (se_handler s2) s2.
Definition s4 := task_end 1 s3.
Definition s5 := disconnect_turn 9 77 s4.

Lemma demo_run : rtc (server_step production f64_of_Z true) (server_start handler) s5.
Proof.
  eapply rtc_l; [apply (sv_accept _ _ _ _ 0 peer)|]. eapply rtc_l; [apply (sv_accept _ _ _ _ 5 peer)|].
  eapply rtc_l; [apply (sv_touch _ _ _ _ (se_live s3) (se_queue s2)); repeat constructor|].
  eapply rtc_l; [apply (sv_end _ _ _ _ 1)|]. apply rtc_once, (sv_turn _ _ _ _ 9 77).
Qed.

Lemma server_accounts_for_connections_witness :
  length (se_live s5) = 1%nat ∧ live (map snd (se_tickets s5)) 9 ≤ 256 ∧ closed_uids s5 = [2] ∧ NoDup (closed_uids s5) ∧
  map_to_list (ctx_id <$> clients (se_handler s5)) = [(0, 0)].
Proof.
  assert (1 ≤ max_conn_per_ip production ∧ 1 ≤ max_tracked_ips production) as Hok by (split; vm_compute; discriminate).
  assert (se_next_uid s5 ≤ i32_max) as Hmax by (vm_compute; discriminate).
  destruct (server_accounts_for_connections production f64_of_Z true Hok handler s5 eq_refl eq_refl demo_run Hmax) as (_ & Hcap & _ & _ & Hnd & _).
  split_and!; [reflexivity|apply Hcap|reflexivity|exact Hnd|reflexivity].
Defined.
End ServerDemo.
