(* ===== verification/Tracker.v ===== *)
(** * The maturity tracker and its node (accountant)

    The gRPC adapter the tracker reads the node through (kaspad_grpc.rs), the
    tracker's timer loop (maturity.rs) and the configuration of the stand-alone
    runner (bin/accountant-tracker-runner.rs).  The gRPC client and the text of
    its errors are parameters; every sweep may find another state of the node. *)

From S2P Require Import Prelude Float64 Mass Db PayoutRepo PayoutSpec Effects FeeModel Domain Stratum AccountRepo Accountant AccountantProps RuntimeConfig Runtime.
Local Open Scope Z_scope.

Lemma Forall2_impl_in {A B} (P Q : A → B → Prop) l k : Forall2 P l k → (∀ x y, x ∈ l → P x y → Q x y) → Forall2 Q l k.
Proof. induction 1 as [|x y l k Hxy _ IH]; intros HQ; constructor; [apply HQ; [by left|done]|]. apply IH. intros. apply HQ; [by right|done]. Qed.

(** ** kaspad_grpc.rs *)

(** [kaspa_rpc_core::RpcError]: the variants the adapter tells apart. *)
Inductive RpcError := MergerNotFound (hash : Hash) | General (msg : string) | OtherRpcError (name : string).
Class RpcDisplay := rpc_display : RpcError → string.

Record RpcUtxosByAddressesEntry := {
  ue_transaction_id : Hash; ue_index : Z; ue_amount : Z; ue_block_daa_score : Z; ue_is_coinbase : bool }.

Inductive TransportError := Transport (msg : string).

Definition MERGER_NOT_FOUND_FRAGMENT : string := "doesn't have any merger block".
Definition is_merger_not_found (err : RpcError) : bool :=
  match err with
  | MergerNotFound _ => true
  | General msg => contains MERGER_NOT_FOUND_FRAGMENT msg
  | OtherRpcError _ => false
  end.

Definition coinbase_utxos_from_entries (entries : list RpcUtxosByAddressesEntry) : list CoinbaseUtxo :=
  map (λ e, {| cu_transaction_id := ue_transaction_id e; cu_index := ue_index e; cu_amount_sompi := ue_amount e;
               cu_block_daa_score := ue_block_daa_score e |})
    (List.filter ue_is_coinbase entries).

Section tracker.
Context `{!Platform} `{!RpcDisplay}.

(** What the node answers during a sweep. *)
Record GrpcClient := {
  gc_virtual_daa_score : result RpcError Z;
  gc_current_block_color : Hash → result RpcError bool;
  gc_utxos_by_addresses : list Address → result RpcError (list RpcUtxosByAddressesEntry) }.
Record KaspadGrpcClient := { kc_client : GrpcClient; kc_pool_addresses : list Address }.

Definition map_rpc_error_to_transport (err : RpcError) : TransportError := Transport (rpc_display err).

Definition get_virtual_daa_score (k : KaspadGrpcClient) : result TransportError Z :=
  match gc_virtual_daa_score (kc_client k) with Ok v => Ok v | Err e => Err (map_rpc_error_to_transport e) end.
Definition get_block_color (k : KaspadGrpcClient) (hash : Hash) : result TransportError BlockColor :=
  match gc_current_block_color (kc_client k) hash with
  | Ok blue => Ok (if blue then Blue else Red)
  | Err e => if is_merger_not_found e then Ok NotYetMerged else Err (map_rpc_error_to_transport e)
  end.
Definition get_pool_coinbase_utxos (k : KaspadGrpcClient) : result TransportError (list CoinbaseUtxo) :=
  match gc_utxos_by_addresses (kc_client k) (kc_pool_addresses k) with
  | Ok entries => Ok (coinbase_utxos_from_entries entries)
  | Err e => Err (map_rpc_error_to_transport e)
  end.

(** The adapter as the tracker's node. *)
Definition ok {E A} (r : result E A) : option A := match r with Ok a => Some a | Err _ => None end.
Definition tracker_node (k : KaspadGrpcClient) : Accountant.TrackerNode :=
  {| tn_virtual_daa_score := ok (get_virtual_daa_score k); tn_block_color hash := ok (get_block_color k hash);
     tn_coinbase_utxos := ok (get_pool_coinbase_utxos k) |}.

(** ** The timer loop *)

Context {Script : Type}.
Context (cfg : MaturityConfig) (engine : AllocationEngine) (pool_addresses : list Address).

Definition node_of (client : GrpcClient) : Accountant.TrackerNode := tracker_node {| kc_client := client; kc_pool_addresses := pool_addresses |}.

(** A sweep that fails is logged; whether it succeeded is what the observer of readiness hears. *)
Definition tracker_tick (client : GrpcClient) (observed : list bool) : M Script TrackerError (list bool) :=
  r ← attempt (tracker_run_once cfg engine (node_of client));
  mret (observed ++ [match r with Ok _ => true | Err _ => false end]).
(** The immediate tick of the interval is skipped. *)
Definition tracker_run_loop (poll_interval : Z) (wakes : list (Wake GrpcClient)) : M Script TrackerError (list bool) :=
  _ ← interval poll_interval; timer_loop tracker_tick wakes [].

(** ** The tracker believes the node *)

(** The states of the node that the sweeps before the shutdown find. *)
Fixpoint swept (wakes : list (Wake GrpcClient)) : list GrpcClient :=
  match wakes with
  | [] | ShutdownChanged true :: _ => []
  | Due client :: wakes => client :: swept wakes
  | ShutdownChanged false :: wakes => swept wakes
  end.

(** The block has got a status the node's answers call for. *)
Definition called_for (client : GrpcClient) (b : Block) (s : BlockStatus) : Prop :=
  match s with
  | ConfirmedBlue => gc_current_block_color client (bl_hash b) = Ok true
  | Orphaned =>
      gc_current_block_color client (bl_hash b) = Ok false ∨
      (∃ err v, gc_current_block_color client (bl_hash b) = Err err ∧ is_merger_not_found err = true ∧
         gc_virtual_daa_score client = Ok v ∧ u64_saturating_add (i64_as_u64 (bl_daa_score b)) (mc_coinbase_maturity cfg) ≤ v)
  | _ => False
  end.
Definition block_follows (clients : list GrpcClient) (b b' : Block) : Prop :=
  b' = b ∨
  (bl_status b = SubmittedToNode ∧
   ∃ client s confirmed_at, client ∈ clients ∧ called_for client b s ∧
     b' = bl_with (bl_blue_score b) s (bl_submitted_at b) confirmed_at (bl_matured_at b) (bl_miner_reward_sompi b) b).

(** The same reward, allocated or not. *)
Definition same_reward (r r' : CoinbaseReward) : Prop :=
  cr_id r' = cr_id r ∧ cr_outpoint r' = cr_outpoint r ∧ cr_amount_sompi r' = cr_amount_sompi r ∧
  cr_block_daa_score r' = cr_block_daa_score r ∧ cr_discovered_at r' = cr_discovered_at r.
(** A mature coinbase output of the pool, above the floor. *)
Definition reward_reported (client : GrpcClient) (r : CoinbaseReward) : Prop :=
  ∃ entries e v, gc_utxos_by_addresses client pool_addresses = Ok entries ∧ e ∈ entries ∧ ue_is_coinbase e = true ∧
    gc_virtual_daa_score client = Ok v ∧ is_mature v (ue_block_daa_score e) (mc_coinbase_maturity cfg) = true ∧
    mc_coinbase_min_daa_score cfg ≤ ue_block_daa_score e ∧
    cr_outpoint r = stored_outpoint (ue_transaction_id e) (ue_index e) ∧ cr_amount_sompi r = ue_amount e ∧
    cr_block_daa_score r = u64_as_i64 (ue_block_daa_score e).
Definition reward_known (d : Db) (clients : list GrpcClient) (r : CoinbaseReward) : Prop :=
  (∃ r0, r0 ∈ coinbase_rewards d ∧ same_reward r0 r) ∨ (∃ client, client ∈ clients ∧ reward_reported client r).

Record follows (d : Db) (clients : list GrpcClient) (w : World Script) : Prop := {
  fo_blocks : Forall2 (block_follows clients) (blocks d) (blocks (w_db w));
  fo_rewards : Forall (reward_known d clients) (coinbase_rewards (w_db w)) }.

Lemma tracker_follows_closed d clients : suffix_closed (follows d clients).
Proof. by intros w r rs _ []. Qed.

Lemma follows_frame d clients w d' : blocks d' = blocks (w_db w) → coinbase_rewards d' = coinbase_rewards (w_db w) →
  follows d clients w → ∀ rs, follows d clients (world_db d' (world_replies rs w)).
Proof. intros Hb Hr [H1 H2] rs. split; simpl; by rewrite ?Hb, ?Hr. Qed.

Lemma follows_stamp d clients w id now rs : follows d clients w → follows d clients (world_db (mark_allocated id now (w_db w)) (world_replies rs w)).
Proof.
  intros [H1 H2]. split; [done|]. simpl. rewrite Forall_forall in H2. apply Forall_forall. intros r Hr.
  apply elem_of_update_where in Hr as (r1 & Hr1 & ->). specialize (H2 r1 Hr1). case_bool; [|done].
  destruct H2 as [(r0 & Hr0 & Hs)|(client & Hc & Hrep)]; [left|right]; eauto.
Qed.

Section run.
Context (d : Db) (clients : list GrpcClient) (unique : NoDup (map bl_hash (blocks d))).
Notation I := (follows d clients).

Lemma mark_follows client blk s conf p w d' rs :
  client ∈ clients → blk ∈ blocks d → bl_status blk = SubmittedToNode → called_for client blk s →
  (∀ b, p b = true → bl_hash b = bl_hash blk) → I w →
  update_blocks p (λ b, bl_with (bl_blue_score b) s (bl_submitted_at b) (conf b) (bl_matured_at b) (bl_miner_reward_sompi b) b) (w_db w) = Ok d' →
  I (world_db d' (world_replies rs w)).
Proof.
  intros Hc Hblk Hst Hcall Hp [Hb Hr] (l & [-> _]%update_checked_Ok & [= <-])%result_bind_Ok. split; [simpl|done].
  apply Forall2_fmap_r. eapply Forall2_impl_in; [exact Hb|]. intros b b' Hin Hf. simpl. case_bool; [|done]. apply Hp in E.
  assert (bl_hash b' = bl_hash b) as Hh by (by destruct Hf as [-> |(_ & ? & ? & ? & _ & _ & ->)]).
  assert (b = blk) as -> by (apply (NoDup_map_eq bl_hash (blocks d)); [done..|congruence]).
  right. split; [done|]. exists client, s, (conf b'). split_and!; [done..|].
  by destruct Hf as [-> |(_ & ? & ? & ? & _ & _ & ->)].
Qed.

Lemma process_follows client blk daa w : client ∈ clients → blk ∈ blocks d → bl_status blk = SubmittedToNode →
  gc_virtual_daa_score client = Ok daa → I w →
  wp I (process_submitted cfg (node_of client) blk daa) (λ _ _, True) w.
Proof.
  intros Hc Hblk Hst Hdaa Hw. pose proof (tracker_follows_closed d clients) as HI.
  assert (∀ (body : Z → Db → result DbError Db) (o : BlockOutcome),
    (∀ now d' rs, body now (w_db w) = Ok d' → I (world_db d' (world_replies rs w))) →
    wp I (_ ← map_err TDb (statement body); mret o) (λ _ _, True) w) as Hmark.
  { intros body o Hbody. apply wp_bind, wp_map_err, wp_statement; [done..|]. intros now d' rs _ Hd%(Hbody _ _ rs). split; [done|]. by apply wp_ret. }
  assert (∀ b : Block, (bl_hash b =? bl_hash blk) = true → bl_hash b = bl_hash blk) as Hh by (intros; lia).
  unfold process_submitted. simpl. unfold get_block_color. simpl.
  destruct (gc_current_block_color client (bl_hash blk)) as [[]|err] eqn:Hcol; simpl.
  - apply Hmark. intros now d' rs Hupd. eapply (mark_follows client blk ConfirmedBlue); [..|exact Hupd]; try done. by intros b [? _]%andb_prop; apply Hh.
  - apply Hmark. intros now d' rs Hupd. eapply (mark_follows client blk Orphaned); [..|exact Hupd]; try done; [by left|]. by intros b [? _]%andb_prop; apply Hh.
  - destruct (is_merger_not_found err) eqn:Hm; simpl; [|by apply wp_throw]. case_bool; [|by apply wp_ret].
    apply Hmark. intros now d' rs Hupd. eapply (mark_follows client blk Orphaned); [..|exact Hupd]; try done; [|by intros b [? _]%andb_prop; apply Hh].
    right. exists err, daa. split_and!; [done..|lia].
Qed.

(** What is listed as submitted has been submitted from the start. *)
Lemma listed_from_start n w blk : I w → blk ∈ list_by_status [SubmittedToNode] n (w_db w) → blk ∈ blocks d ∧ bl_status blk = SubmittedToNode.
Proof.
  intros [Hb _] Hin. unfold list_by_status, limit in Hin. apply elem_of_take in Hin as (i & Hin & _). apply list_elem_of_lookup_2 in Hin.
  rewrite stable_sort_perm in Hin. apply elem_of_retain in Hin as [Hin Hst].
  assert (bl_status blk = SubmittedToNode) as Hs by (by destruct (bl_status blk)). split; [|done].
  apply list_elem_of_lookup in Hin as [j Hj]. destruct (Forall2_lookup_r _ _ _ _ _ Hb Hj) as (b & Hbj & [-> |(_ & ? & s & ? & _ & Hcall & ->)]).
  - by eapply list_elem_of_lookup_2.
  - simpl in Hs. subst s. done.
Qed.

Lemma sweep_blocks_follows client daa stats w : client ∈ clients → gc_virtual_daa_score client = Ok daa → I w →
  wp I (sweep_blocks cfg (node_of client) daa stats) (λ _ _, True) w.
Proof.
  intros Hc Hdaa Hw. apply wp_bind, wp_map_err, wp_query; [apply tracker_follows_closed|done|]. intros active rs Hrs [= <-].
  eapply wp_mono; [apply (wp_for_each _ _ _ (λ l _ w', I w' ∧ ∀ b, b ∈ l → b ∈ blocks d ∧ bl_status b = SubmittedToNode))|done].
  - intros blk l s w' [Hw' Hl]. apply wp_bind. eapply wp_attempt_keeps.
    + destruct (Hl blk) as [H1 H2]; [by left|]. by apply process_follows.
    + intros r w'' Hw''. apply wp_ret; [done|]. split; [done|]. intros b Hb. apply Hl. by right.
  - by intros s w' [? _].
  - split; [done|]. intros b. by apply listed_from_start.
Qed.

Lemma discover_follows client entries daa utxo stats w : client ∈ clients → gc_virtual_daa_score client = Ok daa →
  gc_utxos_by_addresses client pool_addresses = Ok entries → utxo ∈ coinbase_utxos_from_entries entries → I w →
  wp I (discover cfg daa utxo stats) (λ _ _, True) w.
Proof.
  intros Hc Hdaa Hes Hin Hw. unfold discover. case_bool; [by apply wp_ret|]. case_bool; [by apply wp_ret|]. bool_hyps.
  destruct (i64_try_from (cu_amount_sompi utxo)) as [amount|] eqn:Ha; [|by apply wp_ret]. apply i64_try_from_Some in Ha as [-> _].
  apply wp_bind. eapply wp_attempt_keeps; [|intros; by apply wp_ret].
  apply (wp_transact _ (tracker_follows_closed d clients) _ (λ _ _, True)); [done|]. intros now o d' rs _ Hens. split; [|done].
  unfold reward_ensure in Hens. case_bool_in Hens; [|done]. destruct (List.find _ _); injection Hens as _ <-; [by apply follows_frame|].
  destruct Hw as [Hb Hr]. split; [done|]. simpl. apply Forall_app. split; [done|]. constructor; [|constructor]. right. exists client. split; [done|].
  apply list_elem_of_In, in_map_iff in Hin as (e & <- & [Hin Hcb]%filter_In). exists entries, e, daa. simpl in *.
  split_and!; try done; [by apply list_elem_of_In|lia].
Qed.

Lemma allocate_tx_tables id rows o actor now d0 o' d' : allocate_tx id rows o actor now d0 = Ret (Commit o' d') →
  blocks d' = blocks d0 ∧ coinbase_rewards d' = coinbase_rewards (mark_allocated id now d0).
Proof.
  unfold allocate_tx. intros Htx. destruct (lock_for_allocation id d0) as [r0|]; [|done]. case_bool_in Htx; [done|].
  apply exec_bind_Ret in Htx as (ins & Hins & Htx). destruct ins as [[n d1]|e]; [|done]. simpl in Htx.
  destruct (accrue_all rows now d1) as [d2|e] eqn:Hacc; [|done]. injection Htx as _ <-.
  apply insert_batch_Ok in Hins as ->. by apply accrue_all_frame in Hacc as (l & ->).
Qed.
Lemma finalise_empty_tables id amount actor now d0 o' d' : finalise_empty_tx id amount actor now d0 = Ret (Commit o' d') →
  blocks d' = blocks d0 ∧ coinbase_rewards d' = coinbase_rewards (mark_allocated id now d0).
Proof.
  unfold finalise_empty_tx. intros Htx. destruct (lock_for_allocation id d0) as [r0|]; [|done]. case_bool_in Htx; [done|]. by injection Htx as _ <-.
Qed.

Lemma settle_follows (body : Z → Db → exec (tx_end AllocationOutcome)) id w :
  (∀ now o d', body now (w_db w) = Ret (Commit o d') → blocks d' = blocks (w_db w) ∧ coinbase_rewards d' = coinbase_rewards (mark_allocated id now (w_db w))) →
  I w → wp I (run_tx body) (λ _ _, True) w.
Proof.
  intros Hbody Hw. apply wp_run_tx; [apply tracker_follows_closed|done|done|]. intros now o d' rs _ [Hb Hr]%Hbody. split; [|done].
  destruct (follows_stamp d clients w id now rs Hw) as [H1 H2]. split; simpl in *; by rewrite ?Hb, ?Hr.
Qed.

Lemma allocate_follows e id amount s en w : I w → wp I (allocate_coinbase_reward e id amount s en) (λ _ _, True) w.
Proof.
  intros Hw. pose proof (tracker_follows_closed d clients) as HI. unfold allocate_coinbase_reward. case_bool; [by apply wp_throw|].
  apply wp_bind, wp_map_err, wp_transact; [done..|]. intros now o d1 rs _ (l & ->)%close_window_frame.
  pose proof (follows_frame d clients w (set_share_windows l (w_db w)) eq_refl eq_refl Hw rs) as Hw1. split; [done|].
  apply wp_bind, wp_map_err, wp_query; [done..|]. intros windows rs' Hw2 _. set (w2 := world_replies rs' _) in *. clearbody w2.
  destruct windows as [|v vs] eqn:Ews.
  { apply (settle_follows _ id); [|done]. intros ???. apply finalise_empty_tables. }
  rewrite <- Ews. case_bool; [by apply wp_throw|]. apply wp_bind, wp_lift_exec; [done|]. intros [grosses residue] _.
  apply wp_bind. eapply wp_mono; [by apply classify_all_length|]. simpl. intros tiers w3 Hw3 _.
  apply wp_bind, wp_bind, wp_lift_exec; [done|]. intros [as_|err] _; [|by apply wp_throw]. apply wp_ret; [done|].
  apply (settle_follows _ id); [|done]. intros ???. apply allocate_tx_tables.
Qed.

Lemma run_once_follows client w : client ∈ clients → I w → wp I (tracker_run_once cfg engine (node_of client)) (λ _ _, True) w.
Proof.
  intros Hc Hw. unfold tracker_run_once, sweep_rewards. apply wp_bind. simpl. unfold get_virtual_daa_score, get_pool_coinbase_utxos. simpl.
  destruct (gc_virtual_daa_score client) as [daa|err] eqn:Hdaa; simpl; [|by apply wp_throw]. apply wp_ret; [done|].
  apply wp_bind. eapply wp_mono; [by apply sweep_blocks_follows|]. intros s1 w1 Hw1 _. apply wp_bind.
  destruct (gc_utxos_by_addresses client pool_addresses) as [entries|err] eqn:Hes; simpl; [|by apply wp_throw]. apply wp_ret; [done|].
  apply wp_bind. eapply wp_mono.
  { apply (wp_for_each _ _ _ (λ l _ w', I w' ∧ ∀ u, u ∈ l → u ∈ coinbase_utxos_from_entries entries)); [|by intros s w' [? _]|done].
    intros u l s w' [Hw' Hl]. eapply wp_mono; [apply (discover_follows client entries); try done; apply Hl; by left|].
    intros s' w'' Hw'' _. split; [done|]. intros u' Hu'. apply Hl. by right. }
  intros s2 w2 Hw2 _. apply wp_bind, wp_map_err, wp_query; [apply tracker_follows_closed|done|]. intros pending rs Hrs _.
  eapply wp_mono; [apply (wp_for_each _ _ _ (λ _ _, I))|done]; try done. intros r l s w' Hw'. apply wp_bind. eapply wp_attempt_keeps.
  - by apply wp_map_err, allocate_follows.
  - intros x w'' Hw''. by apply wp_ret.
Qed.

Lemma loop_follows wakes observed w : (∀ client, client ∈ swept wakes → client ∈ clients) → I w →
  wp I (timer_loop tracker_tick wakes observed) (λ _ _, True) w.
Proof.
  revert observed w. induction wakes as [|[client|[]] wakes IH]; intros observed w Hin Hw; simpl; try by apply wp_ret.
  - apply wp_bind. unfold tracker_tick. apply wp_bind. eapply wp_attempt_keeps; [apply run_once_follows; [apply Hin; by left|done]|].
    intros r w' Hw'. apply wp_ret; [done|]. apply IH; [|done]. intros c Hc. apply Hin. by right.
  - by apply IH.
Qed.
End run.

(** C4: However long the tracker runs, whatever the database refuses and wherever the process dies: a
    block has changed only if it was submitted and the node, at some sweep, called it blue (it is
    confirmed), red, or unmerged at an age past the maturity depth (it is orphaned); every reward is
    one that was there before or a mature coinbase output of the pool, above the floor, that the node
    reported, with its amount and score.  So a run in which the node answers with errors only leaves both
    tables as they were. *)
Theorem tracker_follows_node poll_interval wakes w (clients := swept wakes) :
  NoDup (map bl_hash (blocks (w_db w))) →
  Forall2 (block_follows clients) (blocks (w_db w)) (blocks (w_db (tracker_run_loop poll_interval wakes w).2)) ∧
  Forall (reward_known (w_db w) clients) (coinbase_rewards (w_db (tracker_run_loop poll_interval wakes w).2)).
Proof.
  intros Hu. assert (follows (w_db w) clients w) as Hw.
  { split; [apply Forall_Forall2_diag, Forall_true; by left|]. apply Forall_forall. intros r Hr. left. by exists r. }
  assert (wp (follows (w_db w) clients) (tracker_run_loop poll_interval wakes) (λ _ _, True) w) as [[H1 H2] _]; [|done].
  unfold tracker_run_loop, interval. apply wp_bind. destruct (poll_interval =? 0); [by split|]. apply wp_ret; [done|].
  by apply loop_follows.
Qed.
End tracker.

(** ** The stand-alone runner *)

Section runner.
Context `{!Platform}.

Record RunnerConfig := {
  ru_kaspad_url : string; ru_database_url : string; ru_pool_addresses : list Address; ru_instance_id : string;
  ru_fee_topline_bps : Z; ru_poll_interval : Z; ru_maturity : MaturityConfig }.

(** An empty value counts here. *)
Definition required (env : Env) (var : string) : result BootError string :=
  match env var with Some s => Ok s | None => Err (Unset var) end.

Definition RunnerConfig_from_env (env : Env) : result BootError RunnerConfig :=
  kaspad_url ← required env "KASPAD_GRPC_URL";
  database_url ← required env "KATPOOL_DATABASE_URL";
  pool_address_raw ← required env "KATPOOL_POOL_ADDRESS";
  pool_addresses ← parse_pool_addresses pool_address_raw;
  fee_topline_bps ← optional_u16 env "KATPOOL_FEE_TOPLINE_BPS";
  poll_secs ← optional_u64 env "KATPOOL_MATURITY_POLL_SECS";
  coinbase_maturity ← optional_u64 env "KATPOOL_COINBASE_MATURITY";
  window_daa_span ← optional_u64 env "KATPOOL_WINDOW_DAA_SPAN";
  batch_size ← optional_i64 env "KATPOOL_MATURITY_BATCH_SIZE";
  coinbase_min_daa_score ← optional_u64 env "KATPOOL_COINBASE_MIN_DAA_SCORE";
  Ok {| ru_kaspad_url := kaspad_url; ru_database_url := database_url; ru_pool_addresses := pool_addresses;
        ru_instance_id := default "tracker-runner"%string (optional env "KATPOOL_INSTANCE_ID");
        ru_fee_topline_bps := default 75 fee_topline_bps; ru_poll_interval := from_secs (default 15 poll_secs);
        ru_maturity := {| mc_coinbase_maturity := default 1000 coinbase_maturity; mc_window_daa_span := default 600 window_daa_span;
                          mc_batch_size := default 200 batch_size; mc_coinbase_min_daa_score := default 0 coinbase_min_daa_score |} |}.

Lemma require_env env var s : require env var None = Ok s → required env var = Ok s.
Proof.
  unfold require, required, optional. destruct (env var) as [s'|]; simpl; [|done]. by destruct (bool_decide (s' = EmptyString)); simpl; intros [= ->].
Qed.
Lemma layered_env {A} (r : result BootError (option A)) dflt v : layered r None dflt = Ok v → ∃ o, r = Ok o ∧ v = default dflt o.
Proof. unfold layered. intros (o & -> & [= <-])%result_bind_Ok. exists o. split; [done|]. by destruct o. Qed.

(** An environment the daemon starts from without a file gives the runner the same node, database,
    pool addresses, fee and maturity settings. *)
Lemma runner_agrees env cfg : optional env "KATPOOL_CONFIG" = None → from_env env = Ok cfg →
  ∃ r, RunnerConfig_from_env env = Ok r ∧ ru_kaspad_url r = rc_kaspad_url cfg ∧ ru_database_url r = rc_database_url cfg ∧
    ru_pool_addresses r = rc_pool_addresses cfg ∧ ru_fee_topline_bps r = rc_fee_topline_bps cfg ∧
    ru_poll_interval r = rc_maturity_poll_interval cfg ∧ ru_maturity r = rc_maturity cfg.
Proof.
  intros Hnofile Hcfg. unfold from_env in Hcfg. apply result_bind_Ok in Hcfg as (file & Hfile & Hcfg).
  unfold file_layer in Hfile. rewrite Hnofile in Hfile. injection Hfile as <-. inv_steps Hcfg. simplify_eq/=.
  repeat match goal with
  | He : require env _ None = Ok _ |- _ => apply require_env in He
  | He : layered _ None _ = Ok _ |- _ => apply layered_env in He as (? & ? & ->)
  end.
  unfold RunnerConfig_from_env. simplify_option_eq.
  repeat match goal with He : ?r = Ok _ |- context [?r] => rewrite He; simpl end. by eexists.
Qed.
End runner.

(** ** A node that changes its mind *)

Module TrackerDemo.
#[local] Instance text : RpcDisplay := λ e,
  match e with MergerNotFound _ => "Block doesn't have any merger block."%string | General m => m | OtherRpcError n => n end.
#[local] Existing Instance Runtime.Boot.host.

Definition block (id hash daa : Z) : Block :=
  bl_with None SubmittedToNode (Some 2) None None None (new_block id hash 1 1 daa 0 id 1).
(** Blue, red, lost, young and unknown; the node forgets the blue one afterwards. *)
Definition db : Db := set_blocks [block 1 11 100; block 2 12 100; block 3 13 100; block 4 14 4500; block 5 15 4500] Pool.db.
Definition entry (txid daa : Z) (coinbase : bool) : RpcUtxosByAddressesEntry :=
  {| ue_transaction_id := txid; ue_index := 0; ue_amount := 5000000000; ue_block_daa_score := daa; ue_is_coinbase := coinbase |}.
Definition colors (h : Hash) : result RpcError bool :=
  if h =? 11 then Ok true else if h =? 12 then Ok false
  else if h =? 15 then Err (OtherRpcError "timeout"%string) else Err (General "Block 0d doesn't have any merger block."%string).
Definition first : GrpcClient :=
  {| gc_virtual_daa_score := Ok 5000; gc_current_block_color := colors;
     gc_utxos_by_addresses _ := Ok [entry 950 1000 true; entry 951 1000 false; entry 952 4500 true] |}.
Definition second : GrpcClient :=
  {| gc_virtual_daa_score := Ok 5010; gc_current_block_color _ := Ok false;
     gc_utxos_by_addresses _ := Err (General "no utxo index"%string) |}.
Definition wakes : list (Wake GrpcClient) := [Due first; ShutdownChanged false; Due second; ShutdownChanged true; Due second].
Definition final : outcome TrackerError (list bool) * World unit :=
  tracker_run_loop MaturityConfig_default Pool.engine [PMainnet] 15 wakes (Pool.world db 60).

Lemma tracker_follows_node_witness :
  final.1 = Done (Ok [true; false]) ∧
  map bl_status (blocks (w_db final.2)) = [ConfirmedBlue; Orphaned; Orphaned; Orphaned; Orphaned] ∧
  map (λ r, transaction_id (cr_outpoint r)) (coinbase_rewards (w_db final.2)) = [901; 950] ∧
  Forall2 (block_follows MaturityConfig_default [first; second]) (blocks db) (blocks (w_db final.2)).
Proof.
  split_and!; [vm_compute; reflexivity..|].
  refine (proj1 (tracker_follows_node MaturityConfig_default Pool.engine [PMainnet] 15 wakes (Pool.world db 60) _)).
  apply (bool_decide_unpack _). vm_compute. exact Logic.I.
Defined.
End TrackerDemo.
