(* ===== verification/BridgeFile.v ===== *)
(** * The settings file of the bridge (bridge/src/app_config.rs)

    The YAML settings of the stand-alone bridge with their normalisation and
    validation, and the two endpoints that show and change them
    (get_config_json and update_config_from_json of bridge/src/prom.rs).  Text
    is a list of code points, durations are nanoseconds.  The YAML reader and
    writer are parameters: a document is the fields it gives, at their types. *)

From S2P Require Import Prelude Float64 Mass Db DupGuard Domain Events Bytes Hasher MiningState Stratum Listener KaspaApi Api RuntimeConfig Server.
Local Open Scope Z_scope.

(** ** Settings *)

Record InstanceConfig := {
  ic_stratum_port : list Z; ic_min_share_diff : Z; ic_prom_port : option (list Z); ic_log_to_file : option bool;
  ic_block_wait_time : option Z; ic_extranonce_size : option Z; ic_var_diff : option bool; ic_shares_per_min : option Z;
  ic_var_diff_stats : option bool; ic_pow2_clamp : option bool }.

Record GlobalConfig := {
  gc_kaspad_address : list Z; gc_block_wait_time : Z; gc_print_stats : bool; gc_log_to_file : bool; gc_health_check_port : list Z;
  gc_web_dashboard_port : list Z; gc_var_diff : bool; gc_shares_per_min : Z; gc_var_diff_stats : bool; gc_extranonce_size : Z;
  gc_pow2_clamp : bool; gc_coinbase_tag_suffix : option (list Z) }.

Record BridgeConfig := { bc_global : GlobalConfig; bc_instances : list InstanceConfig }.

Definition MILLIS : Z := 1000000.
Definition from_millis (ms : Z) : Z := ms * MILLIS.
(** [Duration::as_millis() as u64]. *)
Definition as_millis_u64 (d : Z) : Z := (d / MILLIS) mod 2 ^ 64.

Definition GlobalConfig_default : GlobalConfig :=
  {| gc_kaspad_address := codes "localhost:16110"; gc_block_wait_time := from_millis 1000; gc_print_stats := true; gc_log_to_file := true;
     gc_health_check_port := []; gc_web_dashboard_port := []; gc_var_diff := true; gc_shares_per_min := 20; gc_var_diff_stats := false;
     gc_extranonce_size := 0; gc_pow2_clamp := false; gc_coinbase_tag_suffix := None |}.
Definition InstanceConfig_default : InstanceConfig :=
  {| ic_stratum_port := codes ":5555"; ic_min_share_diff := 8192; ic_prom_port := None; ic_log_to_file := None; ic_block_wait_time := None;
     ic_extranonce_size := None; ic_var_diff := None; ic_shares_per_min := None; ic_var_diff_stats := None; ic_pow2_clamp := None |}.
Definition BridgeConfig_default : BridgeConfig := {| bc_global := GlobalConfig_default; bc_instances := [InstanceConfig_default] |}.

(** ** Documents *)

(** A value where the code looks at its kind; an integer fits i64 or u64. *)
Inductive YamlValue := YInt (n : Z) | YFloat (x : f64) | YOther.

(** The fields of a document; [None] is an absent field, or null where the field is an [Option]. *)
Record YInstance := {
  yi_stratum_port : option (list Z); yi_min_share_diff : option Z; yi_prom_port : option (list Z); yi_log_to_file : option bool;
  yi_block_wait_time : option YamlValue; yi_extranonce_size : option Z; yi_var_diff : option bool; yi_shares_per_min : option Z;
  yi_var_diff_stats : option bool; yi_pow2_clamp : option bool }.
Record YGlobal := {
  yg_kaspad_address : option (list Z); yg_block_wait_time : option YamlValue; yg_print_stats : option bool; yg_log_to_file : option bool;
  yg_health_check_port : option (list Z); yg_web_dashboard_port : option (list Z); yg_var_diff : option bool; yg_shares_per_min : option Z;
  yg_var_diff_stats : option bool; yg_extranonce_size : option Z; yg_pow2_clamp : option bool; yg_coinbase_tag_suffix : option (list Z) }.
Record Yaml := {
  y_global : YGlobal; y_instances : option (list YInstance); y_stratum_port : option (list Z); y_min_share_diff : option Z;
  y_prom_port : option (list Z) }.

Class YamlLib := { yaml_read : list Z → option Yaml; yaml_write : Yaml → option (list Z) }.
(** What was written is read back. *)
Class YamlLibOk `{!YamlLib} : Prop := yaml_written y s : yaml_write y = Some s → yaml_read s = Some y.

Inductive SettingsError := BadYaml | NoInstances | MissingStratumPort (idx : nat) | DuplicateStratumPort (port : list Z).

Definition deserialize_port (s : list Z) : list Z := normalize_port s.
Definition non_blank (s : list Z) : option (list Z) := match s with [] => None | _ => Some s end.
Definition deserialize_optional_port (s : option (list Z)) : option (list Z) := s ← s; non_blank (normalize_port s).
Definition deserialize_coinbase_tag_suffix (s : option (list Z)) : option (list Z) := s ← s; non_blank (trim s).
(** An i64 is cast, anything larger goes through a float. *)
Definition deserialize_duration_ms (v : YamlValue) : option Z :=
  match v with
  | YInt n => Some (from_millis (if n <=? i64_max then i64_as_u64 n else f64_as_u64 (f64_of_Z n)))
  | YFloat x => Some (from_millis (f64_as_u64 x))
  | YOther => None
  end.
Definition serialize_duration_ms (d : Z) : YamlValue := YInt (as_millis_u64 d).

Definition instance_of_yaml (y : YInstance) : option InstanceConfig :=
  stratum_port ← yi_stratum_port y;
  min_share_diff ← yi_min_share_diff y;
  block_wait_time ← match yi_block_wait_time y with None => Some None | Some v => d ← deserialize_duration_ms v; Some (Some d) end;
  Some {| ic_stratum_port := deserialize_port stratum_port; ic_min_share_diff := min_share_diff;
          ic_prom_port := deserialize_optional_port (yi_prom_port y); ic_log_to_file := yi_log_to_file y;
          ic_block_wait_time := block_wait_time; ic_extranonce_size := yi_extranonce_size y; ic_var_diff := yi_var_diff y;
          ic_shares_per_min := yi_shares_per_min y; ic_var_diff_stats := yi_var_diff_stats y; ic_pow2_clamp := yi_pow2_clamp y |}.

Definition global_of_yaml (y : YGlobal) : option GlobalConfig :=
  block_wait_time ← match yg_block_wait_time y with None => Some (gc_block_wait_time GlobalConfig_default) | Some v => deserialize_duration_ms v end;
  Some {| gc_kaspad_address := default (gc_kaspad_address GlobalConfig_default) (yg_kaspad_address y); gc_block_wait_time := block_wait_time;
          gc_print_stats := default (gc_print_stats GlobalConfig_default) (yg_print_stats y);
          gc_log_to_file := default (gc_log_to_file GlobalConfig_default) (yg_log_to_file y);
          gc_health_check_port := default (gc_health_check_port GlobalConfig_default) (yg_health_check_port y);
          gc_web_dashboard_port := default (gc_web_dashboard_port GlobalConfig_default) (deserialize_port <$> yg_web_dashboard_port y);
          gc_var_diff := default (gc_var_diff GlobalConfig_default) (yg_var_diff y);
          gc_shares_per_min := default (gc_shares_per_min GlobalConfig_default) (yg_shares_per_min y);
          gc_var_diff_stats := default (gc_var_diff_stats GlobalConfig_default) (yg_var_diff_stats y);
          gc_extranonce_size := default (gc_extranonce_size GlobalConfig_default) (yg_extranonce_size y);
          gc_pow2_clamp := default (gc_pow2_clamp GlobalConfig_default) (yg_pow2_clamp y);
          gc_coinbase_tag_suffix := deserialize_coinbase_tag_suffix (yg_coinbase_tag_suffix y) |}.

(** The first instance without a port, and the first port seen before. *)
Fixpoint missing_port (idx : nat) (l : list InstanceConfig) : option nat :=
  match l with [] => None | i :: l => match ic_stratum_port i with [] => Some idx | _ => missing_port (S idx) l end end.
Fixpoint duplicate_port (seen : list (list Z)) (l : list InstanceConfig) : option (list Z) :=
  match l with
  | [] => None
  | i :: l => if bool_decide (ic_stratum_port i ∈ seen) then Some (ic_stratum_port i) else duplicate_port (ic_stratum_port i :: seen) l
  end.

Definition single_instance (y : Yaml) : InstanceConfig :=
  {| ic_stratum_port := default (ic_stratum_port InstanceConfig_default) (deserialize_optional_port (y_stratum_port y));
     ic_min_share_diff := default (ic_min_share_diff InstanceConfig_default) (y_min_share_diff y);
     ic_prom_port := deserialize_optional_port (y_prom_port y); ic_log_to_file := None; ic_block_wait_time := None; ic_extranonce_size := None;
     ic_var_diff := None; ic_shares_per_min := None; ic_var_diff_stats := None; ic_pow2_clamp := None |}.

Definition of_option {E A} (e : E) (o : option A) : result E A := match o with Some a => Ok a | None => Err e end.

Section yaml.
Context `{!YamlLib}.

Definition from_yaml (content : list Z) : result SettingsError BridgeConfig :=
  y ← of_option BadYaml (yaml_read content);
  global ← of_option BadYaml (global_of_yaml (y_global y));
  instances ← match y_instances y with
              | Some l =>
                  l ← of_option BadYaml (mapM instance_of_yaml l);
                  match l with
                  | [] => Err NoInstances
                  | _ => match missing_port 0 l with Some idx => Err (MissingStratumPort idx) | None => Ok l end
                  end
              | None => Ok [single_instance y]
              end;
  match duplicate_port [] instances with
  | Some port => Err (DuplicateStratumPort port)
  | None => Ok {| bc_global := global; bc_instances := instances |}
  end.

Definition yaml_of_instance (i : InstanceConfig) : YInstance :=
  {| yi_stratum_port := Some (ic_stratum_port i); yi_min_share_diff := Some (ic_min_share_diff i); yi_prom_port := ic_prom_port i;
     yi_log_to_file := ic_log_to_file i; yi_block_wait_time := serialize_duration_ms <$> ic_block_wait_time i;
     yi_extranonce_size := ic_extranonce_size i; yi_var_diff := ic_var_diff i; yi_shares_per_min := ic_shares_per_min i;
     yi_var_diff_stats := ic_var_diff_stats i; yi_pow2_clamp := ic_pow2_clamp i |}.
Definition yaml_of_config (c : BridgeConfig) : Yaml :=
  let g := bc_global c in
  {| y_global :=
       {| yg_kaspad_address := Some (gc_kaspad_address g); yg_block_wait_time := Some (serialize_duration_ms (gc_block_wait_time g));
          yg_print_stats := Some (gc_print_stats g); yg_log_to_file := Some (gc_log_to_file g); yg_health_check_port := Some (gc_health_check_port g);
          yg_web_dashboard_port := Some (gc_web_dashboard_port g); yg_var_diff := Some (gc_var_diff g);
          yg_shares_per_min := Some (gc_shares_per_min g); yg_var_diff_stats := Some (gc_var_diff_stats g);
          yg_extranonce_size := Some (gc_extranonce_size g); yg_pow2_clamp := Some (gc_pow2_clamp g);
          yg_coinbase_tag_suffix := gc_coinbase_tag_suffix g |};
     y_instances := Some (map yaml_of_instance (bc_instances c)); y_stratum_port := None; y_min_share_diff := None; y_prom_port := None |}.
Definition to_yaml (c : BridgeConfig) : option (list Z) := yaml_write (yaml_of_config c).
End yaml.

(** ** Normal form *)

Lemma trim_start_shape s : ∃ ws, s = ws ++ trim_start s ∧ match trim_start s with [] => True | c :: _ => is_whitespace c = false end.
Proof.
  induction s as [|c s (ws & Hs & Hh)]; [by exists []|]. simpl. destruct (is_whitespace c) eqn:Hc; [exists (c :: ws); simpl; by rewrite <- Hs|].
  by exists [].
Qed.
Lemma trim_start_solid s : match s with [] => True | c :: _ => is_whitespace c = false end → trim_start s = s.
Proof. destruct s as [|c s]; [done|]. simpl. by intros ->. Qed.

Lemma trim_trim s : trim (trim s) = trim s.
Proof.
  unfold trim at 2 3. destruct (trim_start_shape s) as (_ & _ & Hu). set (u := trim_start s) in *.
  destruct (trim_start_shape (rev u)) as (ws & Hv & Hh). set (v := trim_start (rev u)) in *. unfold trim.
  assert (match rev v with [] => True | c :: _ => is_whitespace c = false end) as Hr.
  { apply (f_equal (@rev Z)) in Hv. rewrite rev_involutive, rev_app_distr in Hv. rewrite Hv in Hu. by destruct (rev v). }
  rewrite (trim_start_solid (rev v)), rev_involutive, (trim_start_solid v) by done. done.
Qed.

Lemma normalize_port_idem s : normalize_port (normalize_port s) = normalize_port s.
Proof.
  unfold normalize_port at 2 3. pose proof (trim_trim s) as Ht. destruct (trim s) as [|c r] eqn:Hs; [done|]. destruct (Z.eqb_spec c 58) as [-> |Hc].
  - unfold normalize_port. rewrite Ht. done.
  - destruct (forallb is_decimal (c :: r)) eqn:Hd.
    + unfold normalize_port. rewrite trim_solid; [done|]. constructor; [done|].
      apply Forall_forall. intros x Hx. apply list_elem_of_In in Hx. pose proof (proj1 (List.forallb_forall _ _) Hd x Hx) as Hdx.
      unfold is_decimal, between in Hdx. bool_hyps. unfold is_whitespace, between. repeat (apply orb_false_intro); lia.
    + unfold normalize_port. rewrite Ht, (proj2 (Z.eqb_neq c 58) Hc), Hd. done.
Qed.

Definition normal_port (p : list Z) : Prop := normalize_port p = p ∧ p ≠ [].
Definition whole_millis (d : Z) : Prop := ∃ ms, d = from_millis ms ∧ 0 ≤ ms ≤ i64_max.
Record instance_ok (i : InstanceConfig) : Prop := {
  io_port : normal_port (ic_stratum_port i);
  io_prom : ∀ p, ic_prom_port i = Some p → normal_port p;
  io_wait : ∀ d, ic_block_wait_time i = Some d → whole_millis d }.
(** A configuration a file can hold. *)
Record settings_ok (c : BridgeConfig) : Prop := {
  so_instances : bc_instances c ≠ [] ∧ Forall instance_ok (bc_instances c) ∧ NoDup (map ic_stratum_port (bc_instances c));
  so_wait : whole_millis (gc_block_wait_time (bc_global c));
  so_web : normalize_port (gc_web_dashboard_port (bc_global c)) = gc_web_dashboard_port (bc_global c);
  so_suffix : ∀ s, gc_coinbase_tag_suffix (bc_global c) = Some s → trim s = s ∧ s ≠ [] }.

Lemma duration_roundtrip d : whole_millis d → deserialize_duration_ms (serialize_duration_ms d) = Some d.
Proof.
  intros (ms & -> & Hms). unfold serialize_duration_ms, deserialize_duration_ms, as_millis_u64, from_millis.
  assert (ms * MILLIS / MILLIS = ms) as -> by (apply Z.div_mul; done). unfold i64_max in Hms. rewrite Z.mod_small by lia.
  rewrite (proj2 (Z.leb_le _ _)) by (unfold i64_max; lia). unfold i64_as_u64. by rewrite (proj2 (Z.leb_le 0 ms)) by lia.
Qed.

Lemma optional_port_ok p : (∀ q, p = Some q → normal_port q) → deserialize_optional_port p = p.
Proof. destruct p as [q|]; [|done]. intros Hp. destruct (Hp q eq_refl) as [Hn Hne]. simpl. rewrite Hn. by destruct q. Qed.

Lemma instance_roundtrip i : instance_ok i → instance_of_yaml (yaml_of_instance i) = Some i.
Proof.
  intros [[Hp _] Hprom Hwait]. unfold instance_of_yaml. simpl. unfold deserialize_port. rewrite Hp, optional_port_ok by done.
  destruct i as [port diff prom log wait ens vd spm vds clamp]. simpl in *. destruct wait as [d|]; simpl; [|done].
  by rewrite (f_equal (default 0) (duration_roundtrip d (Hwait d eq_refl)) : from_millis _ = d).
Qed.

Lemma missing_port_none idx l : Forall instance_ok l → missing_port idx l = None.
Proof. intros Hl. revert idx. induction Hl as [|i l [[_ Hp] _ _] _ IH]; intros idx; simpl; [done|]. by destruct (ic_stratum_port i). Qed.

Lemma duplicate_port_none seen l : duplicate_port seen l = None ↔ NoDup (map ic_stratum_port l) ∧ ∀ i, i ∈ l → ic_stratum_port i ∉ seen.
Proof.
  revert seen. induction l as [|i l IH]; intros seen; simpl.
  - split; [intros _; split; [constructor|by intros i Hi%elem_of_nil]|done].
  - rewrite NoDup_cons. case_bool_decide as Hin.
    + split; [done|]. intros [_ Hs]. by destruct (Hs i (list_elem_of_here _ _)).
    + rewrite IH. split.
      * intros [Hnd Hs]. split_and!; [|done|].
        -- intros Hi. apply list_elem_of_In, in_map_iff in Hi as (j & He & Hj%list_elem_of_In). apply (Hs j Hj). rewrite He. by left.
        -- intros j [-> |Hj]%elem_of_cons; [done|]. intros Hs'. apply (Hs j Hj). by right.
      * intros [[Hi Hnd] Hs]. split; [done|]. intros j Hj [He|Hj']%elem_of_cons.
        -- apply Hi. rewrite <- He. by apply list_elem_of_In, in_map, list_elem_of_In.
        -- by apply (Hs j (list_elem_of_further _ _ _ Hj)).
Qed.

(** Settings that are written are read back as they were. *)
Theorem settings_roundtrip `{!YamlLib, !YamlLibOk} c s : settings_ok c → to_yaml c = Some s → from_yaml s = Ok c.
Proof.
  intros [(Hne & Hi & Hnd) Hw Hweb Hsuf] Hs%yaml_written. unfold from_yaml. rewrite Hs. simpl. unfold global_of_yaml. simpl.
  unfold deserialize_port. rewrite (f_equal (default 0) (duration_roundtrip _ Hw) : from_millis _ = _), Hweb. simpl.
  assert (deserialize_coinbase_tag_suffix (gc_coinbase_tag_suffix (bc_global c)) = gc_coinbase_tag_suffix (bc_global c)) as ->.
  { destruct (gc_coinbase_tag_suffix (bc_global c)) as [t|]; [|done]. simpl. destruct (Hsuf t eq_refl) as [-> Ht]. by destruct t. }
  assert (mapM instance_of_yaml (map yaml_of_instance (bc_instances c)) = Some (bc_instances c)) as ->.
  { clear -Hi. induction Hi as [|i l Hio _ IH]; [done|]. cbn [map mapM]. by rewrite instance_roundtrip, IH by done. }
  assert (duplicate_port [] (bc_instances c) = None) as Hdup by (apply duplicate_port_none; split; [done|by intros j _ ?%elem_of_nil]).
  pose proof (missing_port_none 0 _ Hi) as Hmiss. simpl. destruct c as [g l]. simpl in *. destruct l as [|i l]; [done|].
  simpl in *. rewrite Hmiss. simpl. rewrite Hdup. by destruct g.
Qed.

Lemma mapM_Some_elem {A B} (f : A → option B) l k y : mapM f l = Some k → y ∈ k → ∃ x, x ∈ l ∧ f x = Some y.
Proof.
  rewrite mapM_Some. induction 1 as [|x y' l k Hxy _ IH]; [by intros ?%elem_of_nil|]. intros [-> |Hy]%elem_of_cons.
  - exists x. split; [by left|done].
  - destruct (IH Hy) as (x' & Hx & Hf). exists x'. split; [by right|done].
Qed.

Lemma optional_port_normal p q : deserialize_optional_port p = Some q → normal_port q.
Proof.
  destruct p as [p|]; [|done]. simpl. unfold non_blank. destruct (normalize_port p) eqn:Hp; [done|]. intros [= <-].
  split; [|done]. rewrite <- Hp. apply normalize_port_idem.
Qed.

Lemma missing_port_some idx l i : missing_port idx l = None → i ∈ l → ic_stratum_port i ≠ [].
Proof.
  revert idx. induction l as [|j l IH]; intros idx; simpl; [by intros _ ?%elem_of_nil|].
  destruct (ic_stratum_port j) eqn:Hj; [done|]. intros Hm [-> |Hi]%elem_of_cons; [congruence|]. by apply (IH (S idx)).
Qed.

(** The ports of settings that were read. *)
Lemma loaded_ports `{!YamlLib} s c : from_yaml s = Ok c → bc_instances c ≠ [] ∧
  Forall (λ i, normal_port (ic_stratum_port i) ∧ ∀ p, ic_prom_port i = Some p → normal_port p) (bc_instances c) ∧ NoDup (map ic_stratum_port (bc_instances c)).
Proof.
  unfold from_yaml. intros (y & _ & Hc)%result_bind_Ok. apply result_bind_Ok in Hc as (g & _ & Hc). apply result_bind_Ok in Hc as (l & Hl & Hc).
  destruct (duplicate_port [] l) as [p|] eqn:Hdup; [done|]. injection Hc as <-. simpl. apply duplicate_port_none in Hdup as [Hnd _].
  enough (l ≠ [] ∧ Forall (λ i, normal_port (ic_stratum_port i) ∧ ∀ p, ic_prom_port i = Some p → normal_port p) l) by tauto.
  destruct (y_instances y) as [yl|].
  - apply result_bind_Ok in Hl as (l' & Hl' & Hl). destruct (mapM instance_of_yaml yl) as [l1|] eqn:Hm; [|done]. injection Hl' as <-.
    destruct l1 as [|i l1]; [done|]. destruct (missing_port 0 (i :: l1)) eqn:Hmiss; [done|]. injection Hl as <-. split; [done|].
    apply Forall_forall. intros j Hj. pose proof (missing_port_some _ _ _ Hmiss Hj) as Hjne. destruct (mapM_Some_elem _ _ _ _ Hm Hj) as (yj & _ & Hf).
    unfold instance_of_yaml in Hf. simplify_option_eq. simpl in *. split.
    + split; [apply normalize_port_idem|done].
    + intros p. apply optional_port_normal.
  - injection Hl as <-. split; [done|]. constructor; [|constructor]. simpl. split; [|intros p; apply optional_port_normal].
    destruct (deserialize_optional_port (y_stratum_port y)) as [p|] eqn:Hp; simpl; [by apply optional_port_normal in Hp|by vm_compute].
Qed.

(** Settings that were read are in normal form. *)
Lemma loaded_ok `{!YamlLib} s c : from_yaml s = Ok c → whole_millis (gc_block_wait_time (bc_global c)) →
  Forall (λ i, ∀ d, ic_block_wait_time i = Some d → whole_millis d) (bc_instances c) → settings_ok c.
Proof.
  intros Hload Hw Hiw. destruct (loaded_ports s c Hload) as (Hne & Hports & Hnd). revert Hload.
  unfold from_yaml. intros (y & _ & Hc)%result_bind_Ok. apply result_bind_Ok in Hc as (g & Hg & Hc). apply result_bind_Ok in Hc as (l & _ & Hc).
  destruct (duplicate_port [] l) as [p|]; [done|]. injection Hc as <-. simpl in *.
  unfold global_of_yaml in Hg. destruct (match yg_block_wait_time (y_global y) with None => _ | Some v => _ end) as [d|]; [|done]. injection Hg as <-. simpl in *.
  split; simpl; [split_and!| | |]; try done.
  - rewrite Forall_forall in Hports, Hiw. apply Forall_forall. intros i Hi. destruct (Hports i Hi). split; [done|done|by apply Hiw].
  - destruct (yg_web_dashboard_port (y_global y)); [apply normalize_port_idem|by vm_compute].
  - intros t. destruct (yg_coinbase_tag_suffix (y_global y)) as [t'|]; simpl; [|done]. unfold non_blank. destruct (trim t') eqn:Ht; [done|].
    intros [= <-]. split; [|done]. rewrite <- Ht. apply trim_trim.
Qed.

(** ** The endpoints *)

(** A JSON value as the code looks at it; [Value::get] answers nothing on anything but an object. *)
Inductive Json := JNull | JBool (b : bool) | JU64 (n : Z) | JText (t : list Z) | JOther.
Definition Updates : Type := string → option Json.
Definition get_text (u : Updates) (k : string) : option (list Z) := match u k with Some (JText t) => Some t | _ => None end.
Definition get_bool (u : Updates) (k : string) : option bool := match u k with Some (JBool b) => Some b | _ => None end.
Definition get_u64 (u : Updates) (k : string) : option Z := match u k with Some (JU64 n) => Some n | _ => None end.

Definition update_global (u : Updates) (g : GlobalConfig) : GlobalConfig :=
  {| gc_kaspad_address := default (gc_kaspad_address g) (get_text u "kaspad_address");
     gc_block_wait_time := default (gc_block_wait_time g) (from_millis <$> get_u64 u "block_wait_time");
     gc_print_stats := default (gc_print_stats g) (get_bool u "print_stats"); gc_log_to_file := default (gc_log_to_file g) (get_bool u "log_to_file");
     gc_health_check_port := default (gc_health_check_port g) (get_text u "health_check_port");
     gc_web_dashboard_port := default (gc_web_dashboard_port g) (normalize_port <$> get_text u "web_dashboard_port");
     gc_var_diff := default (gc_var_diff g) (get_bool u "var_diff");
     gc_shares_per_min := default (gc_shares_per_min g) ((λ n, n mod 2 ^ 32) <$> get_u64 u "shares_per_min");
     gc_var_diff_stats := default (gc_var_diff_stats g) (get_bool u "var_diff_stats");
     gc_extranonce_size := default (gc_extranonce_size g) ((λ n, n mod 2 ^ 8) <$> get_u64 u "extranonce_size");
     gc_pow2_clamp := default (gc_pow2_clamp g) (get_bool u "pow2_clamp");
     gc_coinbase_tag_suffix := match u "coinbase_tag_suffix"%string with
                               | Some JNull => None
                               | Some (JText t) => non_blank (trim t)
                               | _ => gc_coinbase_tag_suffix g
                               end |}.

Definition update_instance (u : Updates) (i : InstanceConfig) : InstanceConfig :=
  {| ic_stratum_port := default (ic_stratum_port i) (normalize_port <$> get_text u "stratum_port");
     ic_min_share_diff := default (ic_min_share_diff i) ((λ n, n mod 2 ^ 32) <$> get_u64 u "min_share_diff");
     ic_prom_port := match u "prom_port"%string with
                     | Some (JText p) => non_blank (normalize_port p)
                     | Some JNull => None
                     | _ => ic_prom_port i
                     end;
     ic_log_to_file := ic_log_to_file i; ic_block_wait_time := ic_block_wait_time i; ic_extranonce_size := ic_extranonce_size i;
     ic_var_diff := ic_var_diff i; ic_shares_per_min := ic_shares_per_min i; ic_var_diff_stats := ic_var_diff_stats i; ic_pow2_clamp := ic_pow2_clamp i |}.

Definition update_config (u : Updates) (c : BridgeConfig) : BridgeConfig :=
  {| bc_global := update_global u (bc_global c);
     bc_instances := match bc_instances c with
                     | [] => [update_instance u InstanceConfig_default]
                     | i :: l => update_instance u i :: l
                     end |}.

(** The fields of the answer to [GET /api/config]. *)
Definition opt_text (t : option (list Z)) : Json := match t with Some t => JText t | None => JNull end.
Definition config_fields (c : BridgeConfig) : list (string * Json) :=
  let g := bc_global c in
  let first := head (bc_instances c) in
  [("kaspad_address", JText (gc_kaspad_address g)); ("block_wait_time", JU64 (as_millis_u64 (gc_block_wait_time g)));
   ("print_stats", JBool (gc_print_stats g)); ("log_to_file", JBool (gc_log_to_file g)); ("health_check_port", JText (gc_health_check_port g));
   ("web_dashboard_port", JText (gc_web_dashboard_port g)); ("var_diff", JBool (gc_var_diff g)); ("shares_per_min", JU64 (gc_shares_per_min g));
   ("var_diff_stats", JBool (gc_var_diff_stats g)); ("extranonce_size", JU64 (gc_extranonce_size g)); ("pow2_clamp", JBool (gc_pow2_clamp g));
   ("coinbase_tag_suffix", opt_text (gc_coinbase_tag_suffix g)); ("stratum_port", opt_text (ic_stratum_port <$> first));
   ("min_share_diff", match first with Some i => JU64 (ic_min_share_diff i) | None => JNull end);
   ("prom_port", opt_text (i ← first; ic_prom_port i))]%string.

Class JsonLib := { json_object : list Z → option Updates }.
(** What a write to the disk leaves: [fs::write] may fail half-way. *)
Definition Disk : Type := list Z → bool * option (list Z).

Section endpoints.
Context `{!YamlLib, !JsonLib}.

Definition get_config_json (file : option (list Z)) : list (string * Json) :=
  match file with
  | Some content => match from_yaml content with Ok c => config_fields c | Err _ => [] end
  | None => []
  end.

(** The settings the update starts from: the defaults when the file cannot be read. *)
Definition settings_to_update (file : option (list Z)) : BridgeConfig :=
  match default [] file with
  | [] => BridgeConfig_default
  | content => match from_yaml content with Ok c => c | Err _ => BridgeConfig_default end
  end.

Definition update_config_from_json (disk : Disk) (body : list Z) (file : option (list Z)) : bool * option (list Z) :=
  match json_object body with
  | None => (false, file)
  | Some u =>
      match to_yaml (update_config u (settings_to_update file)) with
      | None => (false, file)
      | Some s => disk s
      end
  end.
End endpoints.

(** ** What the endpoints do to the file *)

(** The update gives the first instance a port, and one no other instance has. *)
Definition port_acceptable (u : Updates) (c : BridgeConfig) : Prop :=
  ∀ t, get_text u "stratum_port" = Some t → normalize_port t ≠ [] ∧ normalize_port t ∉ map ic_stratum_port (tail (bc_instances c)).

Lemma update_config_ok u c : settings_ok c → port_acceptable u c → (∀ n, get_u64 u "block_wait_time" = Some n → 0 ≤ n ≤ i64_max) →
  settings_ok (update_config u c).
Proof.
  intros [(Hne & Hi & Hnd) Hw Hweb Hsuf] Hport Hms. destruct c as [g l]. destruct l as [|i l]; [done|]. simpl in *.
  apply Forall_cons in Hi as [[Hp Hprom Hwait] Hi]. rewrite NoDup_cons in Hnd. destruct Hnd as [Hfresh Hnd]. unfold port_acceptable in Hport. simpl in Hport.
  split; simpl; [split_and!; [done|constructor; [|done]|]| | |].
  - split; simpl; [| |done].
    + destruct (get_text u "stratum_port") as [t|]; [|done]. simpl. split; [apply normalize_port_idem|by apply (Hport t)].
    + intros p. destruct (u "prom_port"%string) as [[| | |t|]|]; try apply Hprom; [done|]. unfold non_blank. destruct (normalize_port t) eqn:Ht; [done|].
      intros [= <-]. rewrite <- Ht. split; [apply normalize_port_idem|congruence].
  - constructor; [|done]. destruct (get_text u "stratum_port") as [t|]; [|done]. simpl. by apply (Hport t).
  - destruct (get_u64 u "block_wait_time") as [n|]; [|done]. simpl. exists n. split; [done|by apply Hms].
  - destruct (get_text u "web_dashboard_port") as [t|]; [|done]. apply normalize_port_idem.
  - intros t. destruct (u "coinbase_tag_suffix"%string) as [[| | |t'|]|]; try apply Hsuf; [done|]. unfold non_blank. destruct (trim t') eqn:Ht; [done|].
    intros [= <-]. rewrite <- Ht. split; [apply trim_trim|congruence].
Qed.

Section file.
Context `{!YamlLib, !YamlLibOk, !JsonLib}.

(** An update with an acceptable port reaches the file: after a successful write the file reads as
    the settings it held with the given fields changed and no others. *)
Theorem update_reaches_file body u s c disk s' :
  from_yaml s = Ok c → s ≠ [] → settings_ok c → json_object body = Some u → port_acceptable u c →
  (∀ n, get_u64 u "block_wait_time" = Some n → 0 ≤ n ≤ i64_max) →
  update_config_from_json disk body (Some s) = (true, Some s') → (∀ t, disk t = (true, Some s') → s' = t) →
  from_yaml s' = Ok (update_config u c).
Proof.
  intros Hc Hs Hok Hu Hport Hms Hup Hdisk. unfold update_config_from_json in Hup. rewrite Hu in Hup. unfold settings_to_update in Hup. simpl in Hup.
  destruct s as [|x s]; [done|]. rewrite Hc in Hup. destruct (to_yaml (update_config u c)) as [t|] eqn:Ht; [|done].
  rewrite (Hdisk t Hup). apply settings_roundtrip; [|done]. by apply update_config_ok.
Qed.

Lemma instances_written l : ∃ l', mapM instance_of_yaml (map yaml_of_instance l) = Some l' ∧
  map ic_stratum_port l' = map (λ i, normalize_port (ic_stratum_port i)) l.
Proof.
  induction l as [|i l (l' & Hl & Hp)]; [by exists []|]. cbn [map mapM].
  assert (∃ i', instance_of_yaml (yaml_of_instance i) = Some i' ∧ ic_stratum_port i' = normalize_port (ic_stratum_port i)) as (i' & Hi & Hpi)
    by (unfold instance_of_yaml; simpl; destruct (ic_block_wait_time i); by eexists).
  exists (i' :: l'). rewrite Hi, Hl. simpl. by rewrite Hpi, Hp.
Qed.

(** Any other port is written all the same: the file is then refused by the loader, and the next
    update starts over from the defaults, whatever the settings were. *)
Theorem bad_port_locks_out u c s t : get_text u "stratum_port" = Some t →
  normalize_port t = [] ∨ normalize_port t ∈ map ic_stratum_port (tail (bc_instances c)) →
  to_yaml (update_config u c) = Some s → Forall instance_ok (tail (bc_instances c)) →
  (∃ e, from_yaml s = Err e) ∧ settings_to_update (Some s) = BridgeConfig_default.
Proof.
  intros Ht Hbad Hs%yaml_written Htail. assert (∃ e, from_yaml s = Err e) as [e He].
  2: { split; [by exists e|]. unfold settings_to_update. simpl. destruct s; [done|]. by rewrite He. }
  destruct (instances_written (bc_instances (update_config u c))) as (l & Hl & Hports).
  unfold from_yaml. rewrite Hs. cbn [of_option mbind result_bind]. destruct (global_of_yaml (y_global (yaml_of_config (update_config u c)))) as [g|]; [|by eexists].
  cbn [of_option mbind result_bind y_instances yaml_of_config]. rewrite Hl. cbn [of_option mbind result_bind].
  assert (∃ i l0, l = i :: l0 ∧ ic_stratum_port i = normalize_port t ∧ map ic_stratum_port l0 = map ic_stratum_port (tail (bc_instances c))) as (i & l0 & -> & Hi & Hl0).
  { assert (∀ k, Forall instance_ok k → map (λ i, normalize_port (ic_stratum_port i)) k = map ic_stratum_port k) as Hk
      by (induction 1 as [|j k [[Hj _] _ _] _ IH]; [done|]; simpl; by rewrite Hj, IH).
    destruct l as [|i l0]; [by destruct c as [? []]|]. exists i, l0. split; [done|].
    destruct c as [g0 [|i0 l1]]; simpl in *; rewrite Ht in Hports; simpl in Hports; injection Hports as Hi Hl0; rewrite normalize_port_idem in Hi; split; try done.
    by rewrite Hl0, Hk. }
  destruct (missing_port 0 (i :: l0)) eqn:Hmiss; [by eexists|]. cbn [mbind result_bind].
  destruct (duplicate_port [] (i :: l0)) as [p|] eqn:Hdup; [by eexists|]. exfalso. apply duplicate_port_none in Hdup as [Hnd _].
  destruct Hbad as [Hb|Hb]; [apply (missing_port_some _ _ i Hmiss); [by left|congruence]|].
  cbn [map] in Hnd. rewrite NoDup_cons, Hi, Hl0 in Hnd. by destruct Hnd.
Qed.
End file.

Definition field_of (l : list (string * Json)) : Updates := λ k, snd <$> List.find (λ f, String.eqb f.1 k) l.

(** Posting back what the server showed changes nothing. *)
Lemma echo_is_identity c : settings_ok c → 0 ≤ gc_shares_per_min (bc_global c) < 2 ^ 32 → 0 ≤ gc_extranonce_size (bc_global c) < 2 ^ 8 →
  Forall (λ i, 0 ≤ ic_min_share_diff i < 2 ^ 32) (bc_instances c) → update_config (field_of (config_fields c)) c = c.
Proof.
  intros [(Hne & Hi & _) (ms & Hw & Hms) Hweb Hsuf] Hspm Hens Hdiff. destruct c as [g l]. destruct l as [|i l]; [done|]. simpl in *.
  apply Forall_cons in Hi as [[[Hp Hpne] Hprom _] _]. apply Forall_cons in Hdiff as [Hd _].
  assert (from_millis (as_millis_u64 (gc_block_wait_time g)) = gc_block_wait_time g) as Hbw.
  { rewrite Hw. unfold as_millis_u64, from_millis. rewrite Z.div_mul by done. unfold i64_max in Hms. by rewrite Z.mod_small by lia. }
  unfold update_config, update_global, update_instance. simpl. unfold get_text, get_bool, get_u64. simpl. f_equal.
  - rewrite Hbw, Hweb, !Z.mod_small by lia. destruct g as [ka bw ps lf hc web vd spm vds ens clamp [t|]]; simpl in *; [|done].
    destruct (Hsuf t eq_refl) as [-> Htne]. by destruct t.
  - f_equal. rewrite Hp, Z.mod_small by lia. destruct i as [port diff [p|] lf bw ens vd spm vds clamp]; simpl in *; [|done].
    destruct (Hprom p eq_refl) as [-> Hpp]. by destruct p.
Qed.
