(* ===== verification/Metrics.v ===== *)
(** * Metrics and the dashboard's figures (bridge/src/prom.rs)

    The counters the bridge keeps, the memory of recent blocks and of worker
    activity, and the statistics that the dashboard computes from them.  The
    [prometheus] crate is a parameter: a series is a metric name with its
    labels and holds a double.  Instants and durations are nanoseconds, Unix
    times are seconds.  The build is the one without the CPU miner. *)

From S2P Require Import Prelude Float64 Mass Db DupGuard Domain Events Bytes Hasher MiningState Stratum Listener ShareHandler Vardiff AntiAbuse KaspaApi Api FloatExact.
Local Open Scope Z_scope.

(** ** The registry *)

Record Metric := { mt_labels : list (string * string); mt_value : f64 }.
Record MetricFamily := { mf_name : string; mf_metrics : list Metric }.
Definition Series : Type := string * list (string * string).

Class Prometheus := {
  Registry : Type;
  registry_new : Registry;
  (** [vec.with_label_values(..).inc_by(x)] and [.set(x)]. *)
  inc_by : string → list (string * string) → f64 → Registry → Registry;
  gauge_set : string → list (string * string) → f64 → Registry → Registry;
  gather : Registry → list MetricFamily }.

Definition samples (fams : list MetricFamily) : list (Series * f64) :=
  mjoin (map (λ f, map (λ m, ((mf_name f, mt_labels m), mt_value m)) (mf_metrics f)) fams).
Definition series `{!Prometheus} (r : Registry) : gmap Series f64 := list_to_map (samples (gather r)).

(** A sample's label pairs are in the order of their names, whatever the order of the call. *)
Definition by_name : list (string * string) → list (string * string) := stable_sort (λ l l', String.leb l.1 l'.1).

(** Gathering lists every series once, with its value. *)
Class PrometheusOk `{!Prometheus} : Prop := {
  gather_once r : NoDup (samples (gather r)).*1;
  registry_new_series : series registry_new = ∅;
  inc_by_series n ls x r : series (inc_by n ls x r) = <[(n, by_name ls) := f64_add (default f64_zero (series r !! (n, by_name ls))) x]> (series r);
  gauge_set_series n ls x r : series (gauge_set n ls x r) = <[(n, by_name ls) := x]> (series r) }.

Record RecentMinedBlock := {
  rb_instance : string; rb_worker : string; rb_wallet : string; rb_timestamp_unix : Z; rb_hash : list Z; rb_nonce : Z; rb_bluescore : Z }.
Definition RECENT_MINED_BLOCKS_LIMIT : nat := 256.

Section metrics.
Context `{!Prometheus}.

(** The statics of the module; the metrics are registered by [init_metrics]. *)
Record Prom := {
  pm_start_time : option Z; pm_registry : Registry; pm_recent : list RecentMinedBlock; pm_activity : gmap string Z }.
Definition Prom_new : Prom := {| pm_start_time := None; pm_registry := registry_new; pm_recent := []; pm_activity := ∅ |}.
Definition pm_initialised (p : Prom) : bool := match pm_start_time p with Some _ => true | None => false end.

Definition with_registry (r : Registry) (p : Prom) : Prom :=
  {| pm_start_time := pm_start_time p; pm_registry := r; pm_recent := pm_recent p; pm_activity := pm_activity p |}.
Definition with_recent (l : list RecentMinedBlock) (p : Prom) : Prom :=
  {| pm_start_time := pm_start_time p; pm_registry := pm_registry p; pm_recent := l; pm_activity := pm_activity p |}.
Definition with_activity (m : gmap string Z) (p : Prom) : Prom :=
  {| pm_start_time := pm_start_time p; pm_registry := pm_registry p; pm_recent := pm_recent p; pm_activity := m |}.

(** The plain gauges start at zero; the vectors have no series yet. *)
Definition init_metrics (now : Z) (p : Prom) : Prom :=
  if pm_initialised p then p
  else
    let zero n r := gauge_set n [] f64_zero r in
    {| pm_start_time := Some now;
       pm_registry := zero "ks_network_block_count"%string (zero "ks_network_difficulty_gauge"%string (zero "ks_estimated_network_hashrate_gauge"%string (pm_registry p)));
       pm_recent := pm_recent p; pm_activity := pm_activity p |}.

(** A metric that is not registered yet is skipped. *)
Definition counter (n : string) (ls : list (string * string)) (x : f64) (p : Prom) : Prom :=
  if pm_initialised p then with_registry (inc_by n ls x (pm_registry p)) p else p.
Definition gauge (n : string) (ls : list (string * string)) (x : f64) (p : Prom) : Prom :=
  if pm_initialised p then with_registry (gauge_set n ls x (pm_registry p)) p else p.
(** [with_label_values(..).get()]. *)
Definition gauge_get (n : string) (ls : list (string * string)) (p : Prom) : f64 := default f64_zero (series (pm_registry p) !! (n, by_name ls)).

(** ** Workers *)

Record WorkerContext := { wc_instance_id : string; wc_worker_name : string; wc_miner : string; wc_wallet : string; wc_ip : string }.
Definition worker_labels (w : WorkerContext) : list (string * string) :=
  [("instance", wc_instance_id w); ("worker", wc_worker_name w); ("miner", wc_miner w); ("wallet", wc_wallet w); ("ip", wc_ip w)]%string.
(** [WorkerContext::from_stratum], with the peer's address and not its port. *)
Definition prom_peer_ip (c : StratumContext) : string := remote_addr c.
Definition from_stratum_parts (instance_id worker_name : string) (c : StratumContext) (miner : string) : WorkerContext :=
  {| wc_instance_id := instance_id; wc_worker_name := worker_name; wc_miner := miner; wc_wallet := wallet_addr c; wc_ip := prom_peer_ip c |}.
Definition from_stratum (instance_id : string) (c : StratumContext) (miner : string) : WorkerContext :=
  from_stratum_parts instance_id (effective_worker_name c).1 c miner.

Definition worker_context (instance_id : string) (c : StratumContext) (miner : string) : WorkerContext :=
  {| wc_instance_id := instance_id; wc_worker_name := (effective_worker_name c).1; wc_miner := miner; wc_wallet := wallet_addr c; wc_ip := prom_peer_ip c |}.

Definition key_of (instance worker wallet : string) : string := (instance ++ ":" ++ worker ++ ":" ++ wallet)%string.
Definition worker_key (w : WorkerContext) : string := key_of (wc_instance_id w) (wc_worker_name w) (wc_wallet w).

Definition update_worker_activity (now : Z) (w : WorkerContext) (p : Prom) : Prom := with_activity (<[worker_key w := now]> (pm_activity p)) p.

Definition record_block_accepted_by_node (w : WorkerContext) : Prom → Prom := counter "ks_blocks_accepted_by_node" (worker_labels w) f64_one.
Definition record_block_not_confirmed_blue (w : WorkerContext) : Prom → Prom := counter "ks_blocks_not_confirmed_blue" (worker_labels w) f64_one.
Definition record_share_found (now : Z) (w : WorkerContext) (share_diff : f64) (p : Prom) : Prom :=
  let p := counter "ks_valid_share_counter" (worker_labels w) f64_one p in
  let p := counter "ks_valid_share_diff_counter" (worker_labels w) share_diff p in
  update_worker_activity now w p.
Definition invalid_share (type : string) (now : Z) (w : WorkerContext) (p : Prom) : Prom :=
  update_worker_activity now w (counter "ks_invalid_share_counter" (worker_labels w ++ [("type"%string, type)]) f64_one p).
Definition record_stale_share : Z → WorkerContext → Prom → Prom := invalid_share "stale".
Definition record_dupe_share : Z → WorkerContext → Prom → Prom := invalid_share "duplicate".
Definition record_invalid_share : Z → WorkerContext → Prom → Prom := invalid_share "invalid".
Definition record_weak_share : Z → WorkerContext → Prom → Prom := invalid_share "weak".

(** The newest blocks, each hash once. *)
Definition remember_block (unix : Z) (w : WorkerContext) (nonce bluescore : Z) (hash : list Z) (p : Prom) : Prom :=
  if bool_decide (hash = []) || existsb (λ b, bool_decide (rb_hash b = hash)) (pm_recent p) then p
  else
    let b := {| rb_instance := wc_instance_id w; rb_worker := wc_worker_name w; rb_wallet := wc_wallet w; rb_timestamp_unix := unix;
                rb_hash := hash; rb_nonce := nonce; rb_bluescore := bluescore |} in
    with_recent (take RECENT_MINED_BLOCKS_LIMIT (b :: pm_recent p)) p.
Definition record_block_found (unix : Z) (w : WorkerContext) (nonce bluescore : Z) (hash : list Z) (p : Prom) : Prom :=
  let p := counter "ks_blocks_mined" (worker_labels w) f64_one p in
  let p := counter "ks_pool_blocks_found_total" [("instance"%string, wc_instance_id w)] f64_one p in
  remember_block unix w nonce bluescore (trim hash) p.

Definition record_disconnect (w : WorkerContext) (p : Prom) : Prom :=
  let p := counter "ks_worker_disconnect_counter" (worker_labels w) f64_one p in
  with_activity (delete (worker_key w) (pm_activity p)) p.
Definition record_new_job (w : WorkerContext) : Prom → Prom := counter "ks_worker_job_counter" (worker_labels w) f64_one.
Definition record_network_stats (hashrate block_count : Z) (difficulty : f64) (p : Prom) : Prom :=
  let p := gauge "ks_estimated_network_hashrate_gauge" [] (f64_of_Z hashrate) p in
  let p := gauge "ks_network_block_count" [] (f64_of_Z block_count) p in
  gauge "ks_network_difficulty_gauge" [] difficulty p.
(** One turn of the statistics thread (start_stats_thread of kaspaapi.rs): the DAG's tips, block count and
    difficulty, then the estimate of the hashrate from the first tip. *)
Definition stats_turn {Hash : Type} (dag : option (list Hash * Z * f64)) (estimate : Hash → option Z) (p : Prom) : Prom :=
  match dag with
  | Some (tip :: _, block_count, difficulty) =>
      match estimate tip with Some hashrate => record_network_stats hashrate block_count difficulty p | None => p end
  | _ => p
  end.
Definition record_worker_error (instance_id wallet error : string) : Prom → Prom :=
  counter "ks_worker_errors" [("instance", instance_id); ("wallet", wallet); ("error", error)]%string f64_one.
Definition record_balances (instance_id : string) (balances : list (string * Z)) (p : Prom) : Prom :=
  foldl (λ p b, gauge "ks_balance_by_wallet_gauge" [("instance", instance_id); ("wallet", b.1)]%string (f64_div (f64_of_Z b.2) (f64_of_Z 100000000)) p) p balances.
Definition record_anti_abuse_connection_reject (instance_id ip reason : string) : Prom → Prom :=
  counter "ks_anti_abuse_connection_reject_total" [("instance", instance_id); ("ip", ip); ("reason", reason)]%string f64_one.
Definition record_anti_abuse_frame_limited (instance_id ip : string) : Prom → Prom :=
  counter "ks_anti_abuse_frame_rate_limited_total" [("instance", instance_id); ("ip", ip)]%string f64_one.
Definition record_malformed_frame (instance_id ip : string) : Prom → Prom :=
  counter "ks_anti_abuse_malformed_frame_total" [("instance", instance_id); ("ip", ip)]%string f64_one.
Definition record_bad_address (instance_id ip : string) : Prom → Prom :=
  counter "ks_anti_abuse_bad_address_total" [("instance", instance_id); ("ip", ip)]%string f64_one.

(** [if metric.get() <= 0.0 { metric.set(x) }]. *)
Definition gauge_start (n : string) (ls : list (string * string)) (x : f64) (p : Prom) : Prom :=
  if f64_le (gauge_get n ls p) f64_zero then gauge n ls x p else p.
Definition init_worker_counter_series (w : WorkerContext) (p : Prom) : Prom :=
  let ls := worker_labels w in
  let p := counter "ks_valid_share_counter" ls f64_zero p in
  let p := counter "ks_valid_share_diff_counter" ls f64_zero p in
  let p := foldl (λ p t, counter "ks_invalid_share_counter" (ls ++ [("type"%string, t)]) f64_zero p) p ["stale"; "duplicate"; "invalid"; "weak"]%string in
  let p := counter "ks_blocks_mined" ls f64_zero p in
  let p := counter "ks_blocks_accepted_by_node" ls f64_zero p in
  let p := counter "ks_blocks_not_confirmed_blue" ls f64_zero p in
  let p := counter "ks_worker_disconnect_counter" ls f64_zero p in
  let p := counter "ks_worker_job_counter" ls f64_zero p in
  gauge_start "ks_worker_current_difficulty" ls f64_zero p.
Definition ensure_worker_session_metrics (now : Z) (w : WorkerContext) (session_start_unix : f64) (p : Prom) : Prom :=
  if bool_decide (wc_wallet w = EmptyString) then p
  else
    let p := init_worker_counter_series w p in
    let p := gauge_start "ks_worker_start_time" (worker_labels w) session_start_unix p in
    update_worker_activity now w p.
Definition init_worker_counters (now unix : Z) (w : WorkerContext) : Prom → Prom := ensure_worker_session_metrics now w (f64_of_Z unix).
Definition update_worker_difficulty (w : WorkerContext) (difficulty : f64) (p : Prom) : Prom :=
  gauge "ks_worker_current_difficulty" (worker_labels w) difficulty (init_worker_counter_series w p).
End metrics.

(** ** Statistics *)

Definition has_label (name : string) (m : Metric) : bool := existsb (λ l, String.eqb l.1 name) (mt_labels m).
Definition metric_matches_instance (m : Metric) (instance_id : string) : bool :=
  existsb (λ l, String.eqb l.1 "instance" && String.eqb l.2 instance_id) (mt_labels m).
(** Families without an instance label are kept whole, families left empty are dropped. *)
Definition filter_metric_families_for_instance (fams : list MetricFamily) (instance_id : string) : list MetricFamily :=
  mjoin (map (λ f,
    if negb (existsb (has_label "instance") (mf_metrics f)) then [f]
    else match List.filter (λ m, metric_matches_instance m instance_id) (mf_metrics f) with
         | [] => []
         | l => [{| mf_name := mf_name f; mf_metrics := l |}]
         end) fams).

Record BlockInfo := {
  bi_instance : string; bi_worker : string; bi_wallet : string; bi_timestamp : list Z; bi_hash : list Z; bi_nonce : list Z; bi_bluescore : list Z }.
Inductive WorkerStatus := Online | Idle.
Record WorkerInfo := {
  wi_instance : string; wi_worker : string; wi_wallet : string; wi_hashrate : f64; wi_shares : Z; wi_stale : Z; wi_invalid : Z; wi_blocks : Z;
  wi_last_seen : option Z; wi_status : option WorkerStatus; wi_current_difficulty : option f64; wi_session_uptime : option Z }.
Record InternalCpuStats := {
  cpu_hashrate_ghs : f64; cpu_hashes_tried : Z; cpu_blocks_submitted : Z; cpu_blocks_accepted : Z; cpu_shares : Z; cpu_stale : Z; cpu_invalid : Z; cpu_wallet : string }.
Record StatsResponse := {
  sr_total_blocks : Z; sr_total_shares : Z; sr_network_hashrate : Z; sr_network_difficulty : f64; sr_network_block_count : Z; sr_active_workers : Z;
  sr_internal_cpu : option InternalCpuStats; sr_blocks : list BlockInfo; sr_workers : list WorkerInfo; sr_bridge_uptime : option Z }.

Definition new_worker_info (instance worker wallet : string) : WorkerInfo :=
  {| wi_instance := instance; wi_worker := worker; wi_wallet := wallet; wi_hashrate := f64_zero; wi_shares := 0; wi_stale := 0; wi_invalid := 0; wi_blocks := 0;
     wi_last_seen := None; wi_status := None; wi_current_difficulty := None; wi_session_uptime := None |}.
Definition wi_counts (shares stale invalid blocks : Z) (w : WorkerInfo) : WorkerInfo :=
  {| wi_instance := wi_instance w; wi_worker := wi_worker w; wi_wallet := wi_wallet w; wi_hashrate := wi_hashrate w;
     wi_shares := u64_saturating_add (wi_shares w) shares; wi_stale := u64_saturating_add (wi_stale w) stale;
     wi_invalid := u64_saturating_add (wi_invalid w) invalid; wi_blocks := u64_saturating_add (wi_blocks w) blocks;
     wi_last_seen := wi_last_seen w; wi_status := wi_status w; wi_current_difficulty := wi_current_difficulty w; wi_session_uptime := wi_session_uptime w |}.
Definition wi_rated (hashrate : f64) (w : WorkerInfo) : WorkerInfo :=
  {| wi_instance := wi_instance w; wi_worker := wi_worker w; wi_wallet := wi_wallet w; wi_hashrate := hashrate; wi_shares := wi_shares w;
     wi_stale := wi_stale w; wi_invalid := wi_invalid w; wi_blocks := wi_blocks w; wi_last_seen := wi_last_seen w; wi_status := wi_status w;
     wi_current_difficulty := wi_current_difficulty w; wi_session_uptime := wi_session_uptime w |}.
Definition wi_session (difficulty : option f64) (uptime : option Z) (w : WorkerInfo) : WorkerInfo :=
  {| wi_instance := wi_instance w; wi_worker := wi_worker w; wi_wallet := wi_wallet w; wi_hashrate := wi_hashrate w; wi_shares := wi_shares w;
     wi_stale := wi_stale w; wi_invalid := wi_invalid w; wi_blocks := wi_blocks w; wi_last_seen := wi_last_seen w; wi_status := wi_status w;
     wi_current_difficulty := difficulty; wi_session_uptime := uptime |}.
Definition wi_seen (last_seen : Z) (status : WorkerStatus) (w : WorkerInfo) : WorkerInfo :=
  {| wi_instance := wi_instance w; wi_worker := wi_worker w; wi_wallet := wi_wallet w; wi_hashrate := wi_hashrate w; wi_shares := wi_shares w;
     wi_stale := wi_stale w; wi_invalid := wi_invalid w; wi_blocks := wi_blocks w; wi_last_seen := Some last_seen; wi_status := Some status;
     wi_current_difficulty := wi_current_difficulty w; wi_session_uptime := wi_session_uptime w |}.

(** The last label of each name counts. *)
Definition label_value (name : string) (ls : list (string * string)) : string :=
  foldl (λ v l, if String.eqb l.1 name then l.2 else v) EmptyString ls.
Definition parse_worker_labels (ls : list (string * string)) : string * string * string :=
  (label_value "instance" ls, label_value "worker" ls, label_value "wallet" ls).

(** What the families add up to so far. *)
Record Tally := {
  ta_total_blocks : Z; ta_total_shares : Z; ta_network_hashrate : Z; ta_workers : gmap string WorkerInfo;
  ta_hash_values : gmap string f64; ta_start_times : gmap string f64; ta_difficulties : gmap string f64 }.
Definition ta_with (blocks shares : Z) (workers : gmap string WorkerInfo) (hashes starts diffs : gmap string f64) (t : Tally) : Tally :=
  {| ta_total_blocks := blocks; ta_total_shares := shares; ta_network_hashrate := ta_network_hashrate t; ta_workers := workers;
     ta_hash_values := hashes; ta_start_times := starts; ta_difficulties := diffs |}.
Definition ta_set_workers (m : gmap string WorkerInfo) (t : Tally) : Tally :=
  ta_with (ta_total_blocks t) (ta_total_shares t) m (ta_hash_values t) (ta_start_times t) (ta_difficulties t) t.

(** [worker_stats.entry(key).or_insert_with(..)], then the change. *)
Definition entry (ls : list (string * string)) (f : WorkerInfo → WorkerInfo) (m : gmap string WorkerInfo) : gmap string WorkerInfo :=
  let '(instance, worker, wallet) := parse_worker_labels ls in
  let key := key_of instance worker wallet in
  <[key := f (default (new_worker_info instance worker wallet) (m !! key))]> m.

Definition tally_metric (instance_id : option string) (name : string) (t : Tally) (m : Metric) : Tally :=
  let ls := mt_labels m in
  let '(instance, worker, wallet) := parse_worker_labels ls in
  let key := key_of instance worker wallet in
  let count := f64_as_u64 (mt_value m) in
  if String.eqb name "ks_pool_blocks_found_total" then
    let found := match List.find (λ l, String.eqb l.1 "instance") ls with Some l => l.2 | None => EmptyString end in
    if match instance_id with Some id => negb (String.eqb found id) | None => false end then t
    else ta_with (u64_saturating_add (ta_total_blocks t) (f64_as_u64 (f64_max (mt_value m) f64_zero))) (ta_total_shares t) (ta_workers t)
           (ta_hash_values t) (ta_start_times t) (ta_difficulties t) t
  else if String.eqb worker EmptyString then t
  else if String.eqb name "ks_blocks_mined" then ta_set_workers (entry ls (wi_counts 0 0 0 count) (ta_workers t)) t
  else if String.eqb name "ks_valid_share_diff_counter" then
    ta_with (ta_total_blocks t) (ta_total_shares t) (entry ls id (ta_workers t))
      (<[key := f64_add (default f64_zero (ta_hash_values t !! key)) (mt_value m)]> (ta_hash_values t)) (ta_start_times t) (ta_difficulties t) t
  else if String.eqb name "ks_valid_share_counter" then
    ta_with (ta_total_blocks t) (u64_saturating_add (ta_total_shares t) count) (entry ls (wi_counts count 0 0 0) (ta_workers t))
      (ta_hash_values t) (ta_start_times t) (ta_difficulties t) t
  else if String.eqb name "ks_invalid_share_counter" then
    let type := label_value "type" ls in
    ta_set_workers (entry ls (if String.eqb type "stale" then wi_counts 0 count 0 0
                              else if String.eqb type "invalid" then wi_counts 0 0 count 0 else id) (ta_workers t)) t
  else if String.eqb name "ks_worker_start_time" then
    let start := mt_value m in
    let start := match ta_start_times t !! key with
                 | Some v => if f64_lt f64_zero start && (f64_le v f64_zero || f64_lt start v) then start else v
                 | None => start
                 end in
    ta_with (ta_total_blocks t) (ta_total_shares t) (entry ls id (ta_workers t)) (ta_hash_values t) (<[key := start]> (ta_start_times t)) (ta_difficulties t) t
  else if String.eqb name "ks_worker_current_difficulty" then
    ta_with (ta_total_blocks t) (ta_total_shares t) (entry ls id (ta_workers t)) (ta_hash_values t) (ta_start_times t)
      (if f64_lt f64_zero (mt_value m) then <[key := mt_value m]> (ta_difficulties t) else ta_difficulties t) t
  else t.

Definition set_network_hashrate (v : Z) (t : Tally) : Tally :=
  {| ta_total_blocks := ta_total_blocks t; ta_total_shares := ta_total_shares t; ta_network_hashrate := v; ta_workers := ta_workers t;
     ta_hash_values := ta_hash_values t; ta_start_times := ta_start_times t; ta_difficulties := ta_difficulties t |}.
Definition tally_family (instance_id : option string) (t : Tally) (f : MetricFamily) : Tally :=
  let t := foldl (tally_metric instance_id (mf_name f)) t (mf_metrics f) in
  if String.eqb (mf_name f) "ks_estimated_network_hashrate" then
    match mf_metrics f with m :: _ => set_network_hashrate (f64_as_u64 (mt_value m)) t | [] => t end
  else t.
Definition tally (instance_id : option string) (network_hashrate : Z) (fams : list MetricFamily) : Tally :=
  foldl (tally_family instance_id)
    {| ta_total_blocks := 0; ta_total_shares := 0; ta_network_hashrate := network_hashrate; ta_workers := ∅; ta_hash_values := ∅; ta_start_times := ∅;
       ta_difficulties := ∅ |} fams.

(** The value of a plain metric: that of the last family of the name. *)
Definition plain_value (names : list string) (fams : list MetricFamily) : option f64 :=
  foldl (λ v f, if existsb (String.eqb (mf_name f)) names then match mf_metrics f with m :: _ => Some (mt_value m) | [] => v end else v) None fams.
Definition plain_count (name : string) (fams : list MetricFamily) : Z :=
  default 0 ((λ v, f64_as_u64 (f64_max v f64_zero)) <$> plain_value [name] fams).

Definition internal_cpu (fams : list MetricFamily) : option InternalCpuStats :=
  let submitted := plain_count "ks_internal_cpu_blocks_submitted_total" fams in
  let accepted := plain_count "ks_internal_cpu_blocks_accepted_total" fams in
  let tried := plain_count "ks_internal_cpu_hashes_tried_total" fams in
  let rate := default f64_zero (plain_value ["ks_internal_cpu_hashrate_ghs"%string] fams) in
  if (0 <? submitted) || (0 <? accepted) || (0 <? tried) || f64_lt f64_zero rate then
    Some {| cpu_hashrate_ghs := rate; cpu_hashes_tried := tried; cpu_blocks_submitted := submitted; cpu_blocks_accepted := accepted; cpu_shares := accepted;
            cpu_stale := u64_saturating_sub submitted accepted; cpu_invalid := 0; cpu_wallet := EmptyString |}
  else None.

(** The hashrate of a worker, where the figures give one. *)
Definition worker_rate (current_time : f64) (t : Tally) (key : string) : option f64 :=
  total ← ta_hash_values t !! key;
  start ← ta_start_times t !! key;
  let elapsed := f64_sub current_time start in
  if f64_lt f64_zero elapsed && f64_lt f64_zero total then Some (f64_div total elapsed) else None.
Definition rate_workers (current_time : f64) (t : Tally) : gmap string WorkerInfo :=
  map_imap (λ key w, Some (match worker_rate current_time t key with Some r => wi_rated r w | None => w end)) (ta_workers t).
(** In the order of the map, which is not specified. *)
Definition total_rate (current_time : f64) (t : Tally) : f64 :=
  foldl (λ sum kw, match worker_rate current_time t kw.1 with Some r => f64_add sum r | None => sum end) f64_zero (map_to_list (ta_workers t)).

Definition WORKER_INACTIVITY_TIMEOUT : Z := 300 * 1000000000.
Definition WORKER_IDLE_THRESHOLD : Z := 60 * 1000000000.

(** A worker that is shown, and what becomes of its activity record. *)
Definition judge_worker (now unix : Z) (start : option f64) (key : string) (w : WorkerInfo) (activity : gmap string Z) : option WorkerInfo * gmap string Z :=
  match activity !! key with
  | Some last_activity =>
      if last_activity <=? now then
        let duration := now - last_activity in
        if duration <=? WORKER_INACTIVITY_TIMEOUT then
          (Some (wi_seen (u64_saturating_sub unix (duration / 1000000000)) (if duration <=? WORKER_IDLE_THRESHOLD then Online else Idle) w), activity)
        else (None, delete key activity)
      else (Some (wi_seen unix Online w), <[key := now]> activity)
  | None =>
      match start with
      | Some start =>
          if (u64_saturating_sub unix (f64_as_u64 start) <? 60) && (0 <? wi_shares w) then (Some (wi_seen unix Online w), <[key := now]> activity)
          else (None, activity)
      | None => (None, activity)
      end
  end.
Definition judge (now unix : Z) (t : Tally) (acc : list WorkerInfo * gmap string Z) (kw : string * WorkerInfo) : list WorkerInfo * gmap string Z :=
  let '(active, activity) := acc in
  let '(key, w) := kw in
  let start := ta_start_times t !! key in
  let w := wi_session (d ← ta_difficulties t !! key; if f64_lt f64_zero d then Some d else None)
                      (s ← start; if f64_lt f64_zero s then Some (u64_saturating_sub unix (f64_as_u64 s)) else None) w in
  let '(shown, activity) := judge_worker now unix start key w activity in
  (match shown with Some w => active ++ [w] | None => active end, activity).

Definition block_info (b : RecentMinedBlock) : BlockInfo :=
  {| bi_instance := rb_instance b; bi_worker := rb_worker b; bi_wallet := rb_wallet b; bi_timestamp := u64_to_string (rb_timestamp_unix b); bi_hash := rb_hash b;
     bi_nonce := u64_to_string (rb_nonce b); bi_bluescore := u64_to_string (rb_bluescore b) |}.
Fixpoint append_recent_mined_blocks (instance_id : option string) (seen : list (list Z)) (l : list RecentMinedBlock) : list BlockInfo :=
  match l with
  | [] => []
  | b :: l =>
      if match instance_id with Some id => negb (String.eqb (rb_instance b) id) | None => false end || bool_decide (rb_hash b ∈ seen)
      then append_recent_mined_blocks instance_id seen l
      else block_info b :: append_recent_mined_blocks instance_id (rb_hash b :: seen) l
  end.
Definition bluescore_of (b : BlockInfo) : Z := default 0 (parse_int 0 u64_max (bi_bluescore b)).

(** The statistics, and the activity map after the clean-up; [unix] and [unix'] are the two readings of
    the wall clock. *)
Definition get_stats_json_filtered `{!Prometheus} (now unix unix' : Z) (instance_id : option string) (p : Prom) : StatsResponse * Prom :=
  let all := gather (pm_registry p) in
  let fams := match instance_id with Some id => filter_metric_families_for_instance all id | None => all end in
  let network_hashrate := default 0 (f64_as_u64 <$> plain_value ["ks_estimated_network_hashrate_gauge"%string] all) in
  let cpu := internal_cpu all in
  let t := tally instance_id network_hashrate fams in
  let current_time := f64_of_Z unix in
  let total := total_rate current_time t in
  let network_hashrate := if (ta_network_hashrate t =? 0) && f64_lt f64_zero total then f64_as_u64 (f64_mul total (f64_of_Z 1000000000)) else ta_network_hashrate t in
  let '(active, activity) := foldl (judge now unix' t) ([], pm_activity p) (map_to_list (rate_workers current_time t)) in
  let extra := match cpu with Some c => cpu_blocks_accepted c | None => 0 end in
  ({| sr_total_blocks := u64_saturating_add (ta_total_blocks t) extra; sr_total_shares := u64_saturating_add (ta_total_shares t) extra;
      sr_network_hashrate := network_hashrate; sr_network_difficulty := default f64_zero (plain_value ["ks_network_difficulty_gauge"%string] all);
      sr_network_block_count := default 0 (f64_as_u64 <$> plain_value ["ks_network_block_count"; "ks_network_block_count_gauge"]%string all);
      sr_active_workers := Z.of_nat (length active) + match cpu with Some _ => 1 | None => 0 end;
      sr_internal_cpu := cpu;
      sr_blocks := stable_sort (λ a b, bluescore_of b <=? bluescore_of a) (append_recent_mined_blocks instance_id [] (pm_recent p));
      sr_workers := stable_sort (λ a b, wi_blocks b <=? wi_blocks a) active;
      sr_bridge_uptime := (λ start, duration_since now start / 1000000000) <$> pm_start_time p |},
   with_activity activity p).
