(* ===== verification/MetricsProps.v ===== *)
(** * The dashboard counts what was recorded

    Whatever the bridge records and in whatever order, the totals of the
    dashboard and the shares of each worker are the numbers of the events
    recorded, up to 2^53 of them; the list of recent blocks stays short and
    without repetition. *)

From S2P Require Import Prelude Float64 Mass Db DupGuard Domain Events Bytes Hasher MiningState Stratum Listener ShareHandler Vardiff AntiAbuse KaspaApi Api FloatExact Metrics.
Local Open Scope Z_scope.

(** ** Sums over maps *)

Section sums.
Context `{Countable K} {V : Type} (f : K → V → Z).

Definition sum_map (m : gmap K V) : Z := sumZ (map (λ kv, f kv.1 kv.2) (map_to_list m)).
Definition part_at (m : gmap K V) (k : K) : Z := match m !! k with Some v => f k v | None => 0 end.

Lemma sum_map_insert m k v : sum_map (<[k := v]> m) = sum_map m - part_at m k + f k v.
Proof.
  unfold sum_map, part_at. rewrite <- insert_delete_eq, map_to_list_insert by apply lookup_delete_eq. simpl.
  destruct (m !! k) as [v'|] eqn:Hk.
  - rewrite <- (map_to_list_delete m k v' Hk). simpl. change (sumZ (?x :: ?l)) with (x + sumZ l). lia.
  - rewrite delete_id by done. change (sumZ (?x :: ?l)) with (x + sumZ l). lia.
Qed.
End sums.

(** ** What a step adds *)

Definition SHARES : string := "ks_valid_share_counter".
Definition POOL_BLOCKS : string := "ks_pool_blocks_found_total".
Definition tracked (n : string) : bool := String.eqb n SHARES || String.eqb n POOL_BLOCKS.
(** The metrics of the CPU miner, which this build does not register. *)
Definition cpu_metric (n : string) : bool :=
  existsb (String.eqb n) ["ks_internal_cpu_hashrate_ghs"; "ks_internal_cpu_hashes_tried_total"; "ks_internal_cpu_blocks_submitted_total"; "ks_internal_cpu_blocks_accepted_total"]%string.
Definition other_metric (n : string) : bool := negb (tracked n) && negb (cpu_metric n).
Definition labelled (ls : list (string * string)) : bool := existsb (λ l, String.eqb l.1 "instance") ls.

Section counts.
Context `{!Prometheus, !PrometheusOk}.

(** The series of shares and blocks have an instance and hold integers up to [b]. *)
Definition series_ok (b : Z) (k : Series) (v : f64) : Prop :=
  cpu_metric k.1 = false ∧ (tracked k.1 = true → labelled k.2 = true ∧ ∃ n, v = f64_of_Z n ∧ 0 ≤ n ≤ b).
Definition counters_ok (b : Z) (p : Prom) : Prop := ∀ k v, series (pm_registry p) !! k = Some v → series_ok b k v.

Lemma series_ok_le b b' k v : b ≤ b' → series_ok b k v → series_ok b' k v.
Proof. intros Hb [Hn Ht]. split; [done|]. intros Hk. destruct (Ht Hk) as (Hl & n & Hv & Hr). split; [done|]. exists n. split; [done|lia]. Qed.

(** What the series chosen by [wt] hold together. *)
Definition weigh (wt : Series → bool) (k : Series) (v : f64) : Z := if wt k then f64_as_u64 v else 0.
Definition weighed (wt : Series → bool) (p : Prom) : Z := sum_map (weigh wt) (series (pm_registry p)).

Context (wt : Series → bool) (wt_tracked : ∀ k, wt k = true → tracked k.1 = true).

Definition adds (d e : Z) (g : Prom → Prom) : Prop :=
  0 ≤ d ∧ ∀ b p, pm_initialised p = true → 0 ≤ b → counters_ok b p → b + d < 2 ^ 53 →
    pm_initialised (g p) = true ∧ counters_ok (b + d) (g p) ∧ weighed wt (g p) = weighed wt p + e.

Lemma adds_weaken d d' e g : d ≤ d' → adds d e g → adds d' e g.
Proof.
  intros Hd [Hd0 Hg]. split; [lia|]. intros b p Hi Hb Hc Hlt. destruct (Hg b p Hi Hb Hc) as (Hi' & Hc' & He); [lia|]. split_and!; try done.
  intros k v Hv. apply (series_ok_le (b + d)); [lia|]. by apply Hc'.
Qed.

Lemma adds_compose d1 d2 e1 e2 f g : adds d1 e1 f → adds d2 e2 g → adds (d1 + d2) (e1 + e2) (λ p, g (f p)).
Proof.
  intros [Hd1 Hf] [Hd2 Hg]. split; [lia|]. intros b p Hi Hb Hc Hlt. destruct (Hf b p Hi Hb Hc) as (Hi1 & Hc1 & He1); [lia|].
  destruct (Hg (b + d1) (f p) Hi1) as (Hi2 & Hc2 & He2); [lia|done|lia|]. rewrite Z.add_assoc. split_and!; [done..|lia].
Qed.

Lemma adds_same_registry g : (∀ p, pm_registry (g p) = pm_registry p ∧ pm_initialised (g p) = pm_initialised p) → adds 0 0 g.
Proof.
  intros Hg. split; [lia|]. intros b p Hi Hb Hc _. destruct (Hg p) as [Hr Hi']. unfold counters_ok, weighed. rewrite Hr, Hi', Z.add_0_r. split_and!; [done..|lia].
Qed.

(** A series that is not tracked may hold anything. *)
Lemma adds_untracked n ls (step : Registry → Registry) (v : Registry → f64) : other_metric n = true →
  (∀ r, series (step r) = <[(n, ls) := v r]> (series r)) → adds 0 0 (λ p, if pm_initialised p then with_registry (step (pm_registry p)) p else p).
Proof.
  intros [Hn Hcpu]%andb_prop Hs. apply negb_true_iff in Hn, Hcpu. split; [lia|]. intros b p Hi Hb Hc _. rewrite Hi. assert (wt (n, ls) = false) as Hw.
  { destruct (wt (n, ls)) eqn:Hw; [|done]. apply wt_tracked in Hw. simpl in Hw. congruence. }
  split_and!; [done| |].
  - intros k w. simpl. rewrite Hs, Z.add_0_r. destruct (decide (k = (n, ls))) as [-> |Hne]; [intros _; split; [done|]; simpl; congruence|].
    rewrite lookup_insert_ne by done. by apply Hc.
  - unfold weighed. simpl. rewrite Hs, sum_map_insert. unfold part_at, weigh. rewrite Hw. destruct (_ !! _); lia.
Qed.

Lemma adds_counter n ls x : other_metric n = true → adds 0 0 (counter n ls x).
Proof. intros Hn. eapply adds_untracked; [done|]. intros r. apply inc_by_series. Qed.
Lemma adds_gauge n ls x : other_metric n = true → adds 0 0 (gauge n ls x).
Proof. intros Hn. eapply adds_untracked; [done|]. intros r. apply gauge_set_series. Qed.
Lemma adds_gauge_start n ls x : other_metric n = true → adds 0 0 (gauge_start n ls x).
Proof.
  intros Hn. split; [lia|]. intros b p. unfold gauge_start. destruct (f64_le _ _); [by apply adds_gauge|].
  by apply (adds_same_registry (λ p, p)).
Qed.

Lemma labelled_by_name ls : labelled (by_name ls) = labelled ls.
Proof.
  unfold labelled, by_name. apply eq_true_iff_eq. rewrite !existsb_exists. setoid_rewrite <- list_elem_of_In.
  split; intros (l & Hin & Hl); exists l; (split; [|done]); [by rewrite stable_sort_perm in Hin|by rewrite stable_sort_perm].
Qed.

Lemma adds_count n ls d : tracked n = true → labelled ls = true → 0 ≤ d → adds d (if wt (n, by_name ls) then d else 0) (counter n ls (f64_of_Z d)).
Proof.
  rewrite <- labelled_by_name. intros Hn Hl Hd. split; [done|]. intros b p Hi Hb Hc Hlt. unfold counter. rewrite Hi.
  assert (∃ m, default f64_zero (series (pm_registry p) !! (n, by_name ls)) = f64_of_Z m ∧ 0 ≤ m ≤ b ∧ part_at (weigh wt) (series (pm_registry p)) (n, by_name ls) = if wt (n, by_name ls) then m else 0)
    as (m & Hm & Hr & Hpart).
  { set (read := λ o, match o with Some v => weigh wt (n, by_name ls) v | None => 0 end).
    destruct (series (pm_registry p) !! (n, by_name ls)) as [v|] eqn:Hv.
    - destruct (Hc (n, by_name ls) v Hv) as [_ Ht]. destruct (Ht Hn) as (_ & m & -> & Hr). exists m. split_and!; [done|lia..|]. etrans; [exact (f_equal read Hv)|]. unfold read, weigh. by rewrite f64_as_u64_exact by lia.
    - exists 0. split_and!; [done|lia..|]. etrans; [exact (f_equal read Hv)|]. by destruct (wt (n, by_name ls)). }
  split_and!; [done| |].
  - intros k v. simpl. rewrite inc_by_series, Hm, f64_add_exact by lia. destruct (decide (k = (n, by_name ls))) as [-> |Hne].
    + rewrite lookup_insert_eq. intros [= <-]. split; [|intros _; split; [done|]; exists (m + d); split; [done|lia]].
      simpl. apply orb_prop in Hn as [Hn|Hn]; apply String.eqb_eq in Hn as ->; done.
    + rewrite lookup_insert_ne by done. intros Hv. apply (series_ok_le b); [lia|]. by apply Hc.
  - unfold weighed. simpl. rewrite inc_by_series, Hm, f64_add_exact, sum_map_insert, Hpart by lia. unfold weigh.
    rewrite f64_as_u64_exact by lia. destruct (wt (n, by_name ls)); lia.
Qed.
End counts.

(** ** Histories *)

Section histories.
Context `{!Prometheus, !PrometheusOk}.

Inductive MetricOp :=
| OpShare (now : Z) (w : WorkerContext) (diff : f64) | OpInvalid (type : string) (now : Z) (w : WorkerContext)
| OpBlock (unix : Z) (w : WorkerContext) (nonce bluescore : Z) (hash : list Z) | OpAccepted (w : WorkerContext) | OpNotBlue (w : WorkerContext)
| OpDisconnect (w : WorkerContext) | OpJob (w : WorkerContext) | OpSession (now : Z) (w : WorkerContext) (start : f64)
| OpDifficulty (w : WorkerContext) (difficulty : f64) | OpNetwork (hashrate block_count : Z) (difficulty : f64)
| OpError (instance_id wallet error : string) | OpBalances (instance_id : string) (balances : list (string * Z))
| OpReject (instance_id ip reason : string) | OpFrameLimited (instance_id ip : string) | OpMalformed (instance_id ip : string)
| OpBadAddress (instance_id ip : string) | OpStats (now unix unix' : Z) (instance_id : option string).

Definition run_op (o : MetricOp) (p : Prom) : Prom :=
  match o with
  | OpShare now w diff => record_share_found now w diff p
  | OpInvalid type now w => invalid_share type now w p
  | OpBlock unix w nonce bluescore hash => record_block_found unix w nonce bluescore hash p
  | OpAccepted w => record_block_accepted_by_node w p
  | OpNotBlue w => record_block_not_confirmed_blue w p
  | OpDisconnect w => record_disconnect w p
  | OpJob w => record_new_job w p
  | OpSession now w start => ensure_worker_session_metrics now w start p
  | OpDifficulty w difficulty => update_worker_difficulty w difficulty p
  | OpNetwork hashrate block_count difficulty => record_network_stats hashrate block_count difficulty p
  | OpError i wallet error => record_worker_error i wallet error p
  | OpBalances i balances => record_balances i balances p
  | OpReject i ip reason => record_anti_abuse_connection_reject i ip reason p
  | OpFrameLimited i ip => record_anti_abuse_frame_limited i ip p
  | OpMalformed i ip => record_malformed_frame i ip p
  | OpBadAddress i ip => record_bad_address i ip p
  | OpStats now unix unix' id => (get_stats_json_filtered now unix unix' id p).2
  end.
Definition run_ops (ops : list MetricOp) (p : Prom) : Prom := foldl (λ p o, run_op o p) p ops.

Definition one (b : bool) : Z := if b then 1 else 0.
Definition op_weight (wt : Series → bool) (o : MetricOp) : Z :=
  match o with
  | OpShare _ w _ => one (wt (SHARES, by_name (worker_labels w)))
  | OpBlock _ w _ _ _ => one (wt (POOL_BLOCKS, [("instance"%string, wc_instance_id w)]))
  | _ => 0
  end.

Section weights.
Context (wt : Series → bool) (wt_tracked : ∀ k, wt k = true → tracked k.1 = true).

Lemma adds_zero n ls : tracked n = true → labelled ls = true → adds wt 0 0 (counter n ls f64_zero).
Proof. intros Hn Hl. pose proof (adds_count wt n ls 0 Hn Hl ltac:(lia)) as Hadd. by destruct (wt (n, by_name ls)). Qed.
Lemma adds_one n ls : tracked n = true → labelled ls = true → adds wt 1 (one (wt (n, by_name ls))) (counter n ls f64_one).
Proof. intros Hn Hl. by apply (adds_count wt n ls 1 Hn Hl). Qed.
Lemma adds_then e1 e2 f g : adds wt 1 e1 f → adds wt 0 e2 g → adds wt 1 (e1 + e2) (λ p, g (f p)).
Proof. apply (adds_compose wt 1 0). Qed.
Lemma adds_first e1 e2 f g : adds wt 0 e1 f → adds wt 1 e2 g → adds wt 1 (e1 + e2) (λ p, g (f p)).
Proof. apply (adds_compose wt 0 1). Qed.
Lemma adds_quiet f g : adds wt 0 0 f → adds wt 0 0 g → adds wt 0 0 (λ p, g (f p)).
Proof. apply (adds_compose wt 0 0). Qed.

Lemma adds_series w : adds wt 0 0 (init_worker_counter_series w).
Proof.
  unfold init_worker_counter_series. simpl. apply adds_quiet; [|by apply adds_gauge_start]. do 4 (apply adds_quiet; [|by apply adds_counter]).
  do 6 (apply adds_quiet; [|by apply adds_counter]). by apply adds_zero.
Qed.

Lemma op_adds o : adds wt 1 (op_weight wt o) (run_op o).
Proof.
  assert (∀ g, adds wt 0 0 g → adds wt 1 0 g) as Hq by (intros g; apply adds_weaken; lia).
  destruct o as [now w diff|type now w|unix w nonce blue hash|w|w|w|w|now w start|w diff|h b d|i wl e|i l|i ip r|i ip|i ip|i ip|now u u' id]; simpl.
  - rewrite <- (Z.add_0_r (one _)). apply (adds_then _ 0 _ (update_worker_activity now w)); [|by apply adds_same_registry].
    rewrite <- (Z.add_0_r (one _)). apply (adds_then _ 0 _ (counter _ _ _)); [by apply adds_one|by apply adds_counter].
  - apply Hq, (adds_quiet _ (update_worker_activity now w)); [by apply adds_counter|by apply adds_same_registry].
  - rewrite <- (Z.add_0_r (one _)), <- (Z.add_0_l (one _)).
    apply (adds_then _ 0 (λ p, counter POOL_BLOCKS [("instance"%string, wc_instance_id w)] f64_one (counter "ks_blocks_mined" (worker_labels w) f64_one p))
      (remember_block unix w nonce blue (trim hash))).
    + apply adds_first; [by apply adds_counter|by apply adds_one].
    + apply adds_same_registry. intros p. unfold remember_block. by destruct (_ || _).
  - by apply Hq, adds_counter.
  - by apply Hq, adds_counter.
  - apply Hq, (adds_quiet (counter _ _ _) (λ p, with_activity (delete (worker_key w) (pm_activity p)) p)); [by apply adds_counter|by apply adds_same_registry].
  - by apply Hq, adds_counter.
  - apply Hq. change (adds wt 0 0 (λ p, ensure_worker_session_metrics now w start p)). unfold ensure_worker_session_metrics.
    destruct (bool_decide (wc_wallet w = EmptyString)); [by apply adds_same_registry|].
    apply (adds_quiet _ (update_worker_activity now w)); [|by apply adds_same_registry]. apply adds_quiet; [apply adds_series|by apply adds_gauge_start].
  - apply Hq, (adds_quiet (init_worker_counter_series w) (gauge _ _ _)); [apply adds_series|by apply adds_gauge].
  - apply Hq. change (adds wt 0 0 (λ p, record_network_stats h b d p)). unfold record_network_stats. do 2 (apply adds_quiet; [|by apply adds_gauge]). by apply adds_gauge.
  - by apply Hq, adds_counter.
  - apply Hq. change (adds wt 0 0 (λ p, record_balances i l p)). unfold record_balances. induction l as [|x l IH] using rev_ind; [by apply adds_same_registry|].
    pose proof (adds_gauge wt wt_tracked "ks_balance_by_wallet_gauge" [("instance", i); ("wallet", x.1)]%string (f64_div (f64_of_Z x.2) (f64_of_Z 100000000)) eq_refl) as Hx.
    pose proof (adds_quiet _ _ IH Hx) as [H3 H4]. split; [done|]. intros b p Hi Hb Hc Hlt. rewrite foldl_snoc. by apply H4.
  - by apply Hq, adds_counter.
  - by apply Hq, adds_counter.
  - by apply Hq, adds_counter.
  - by apply Hq, adds_counter.
  - apply Hq, adds_same_registry. intros p. simpl. unfold get_stats_json_filtered. cbv zeta.
    match goal with |- context [foldl ?f ([], pm_activity p) ?l] => by destruct (foldl f ([], pm_activity p) l) end.
Qed.

(** Before anything is recorded the chosen series hold nothing. *)
Lemma start_ok now : counters_ok 0 (init_metrics now Prom_new) ∧ weighed wt (init_metrics now Prom_new) = 0 ∧ pm_initialised (init_metrics now Prom_new) = true.
Proof.
  assert (adds wt 0 0 (λ p, gauge "ks_network_block_count" [] f64_zero (gauge "ks_network_difficulty_gauge" [] f64_zero
    (gauge "ks_estimated_network_hashrate_gauge" [] f64_zero p)))) as [_ Hadd] by (do 2 (apply adds_quiet; [|by apply adds_gauge]); by apply adds_gauge).
  set (p0 := {| pm_start_time := Some now; pm_registry := registry_new; pm_recent := []; pm_activity := ∅ |}).
  destruct (Hadd 0 p0) as (_ & Hc & Hw); [done|done| |lia|].
  { intros k v. simpl. by rewrite registry_new_series, lookup_empty. }
  split_and!; [exact Hc| |done]. etrans; [exact Hw|]. unfold weighed. simpl. by rewrite registry_new_series.
Qed.

Lemma run_ops_weighed now ops : Z.of_nat (length ops) < 2 ^ 53 →
  counters_ok (Z.of_nat (length ops)) (run_ops ops (init_metrics now Prom_new)) ∧
  weighed wt (run_ops ops (init_metrics now Prom_new)) = sumZ (map (op_weight wt) ops) ∧ pm_initialised (run_ops ops (init_metrics now Prom_new)) = true.
Proof.
  unfold run_ops. induction ops as [|o ops IH] using rev_ind; [intros _; apply start_ok|]. rewrite length_app, foldl_snoc. cbn [length]. intros Hlt.
  destruct IH as (Hc & Hw & Hi); [lia|]. destruct (op_adds o) as [_ Ho]. destruct (Ho (Z.of_nat (length ops)) _ Hi ltac:(lia) Hc ltac:(lia)) as (Hi' & Hc' & Hw').
  split_and!; [|rewrite Hw', Hw, map_app, sumZ_app; simpl; lia|done]. by rewrite Nat2Z.inj_add.
Qed.
End weights.
End histories.

(** ** What the statistics add up *)

Definition sum_samples (part : Series → f64 → Z) (fams : list MetricFamily) : Z := sumZ (map (λ kv, part kv.1 kv.2) (samples fams)).

Lemma sum_samples_cons part f fams :
  sum_samples part (f :: fams) = sumZ (map (λ m, part (mf_name f, mt_labels m) (mt_value m)) (mf_metrics f)) + sum_samples part fams.
Proof. unfold sum_samples, samples. simpl. rewrite map_app, sumZ_app. by rewrite map_map. Qed.

Lemma sumZ_map_nonneg {A} (f : A → Z) l : (∀ x, 0 ≤ f x) → 0 ≤ sumZ (map f l).
Proof. intros Hf. apply sumZ_nonneg, List.Forall_map, Forall_true. done. Qed.

(** A figure that every metric raises by its part ends at the sum of the parts. *)
Lemma tally_sum (μ : Tally → Z) (part : Series → f64 → Z) id :
  (∀ t n m, 0 ≤ μ t ≤ u64_max → μ (tally_metric id n t m) = Z.min (μ t + part (n, mt_labels m) (mt_value m)) u64_max) →
  (∀ t v, μ (set_network_hashrate v t) = μ t) → (∀ k v, 0 ≤ part k v) →
  ∀ fams t, 0 ≤ μ t → μ t + sum_samples part fams ≤ u64_max → μ (foldl (tally_family id) t fams) = μ t + sum_samples part fams.
Proof.
  intros Hstep Hnet Hpart. assert (∀ n ms t, 0 ≤ μ t → μ t + sumZ (map (λ m, part (n, mt_labels m) (mt_value m)) ms) ≤ u64_max →
    μ (foldl (tally_metric id n) t ms) = μ t + sumZ (map (λ m, part (n, mt_labels m) (mt_value m)) ms)) as Hms.
  { intros n ms. induction ms as [|m ms IH]; intros t Ht Hle; simpl; [lia|]. simpl in Hle. pose proof (Hpart (n, mt_labels m) (mt_value m)).
    pose proof (sumZ_map_nonneg (λ m, part (n, mt_labels m) (mt_value m)) ms ltac:(intros; apply Hpart)).
    pose proof (Hstep t n m ltac:(lia)) as Hs. rewrite IH; rewrite Hs; lia. }
  induction fams as [|f fams IH]; intros t Ht Hle; [unfold sum_samples; simpl; lia|]. rewrite sum_samples_cons in *. cbn [foldl].
  pose proof (sumZ_map_nonneg (λ m, part (mf_name f, mt_labels m) (mt_value m)) (mf_metrics f) ltac:(intros; apply Hpart)).
  assert (0 ≤ sum_samples part fams) as Hrest by (apply sumZ_map_nonneg; intros; apply Hpart).
  assert (μ (tally_family id t f) = μ t + sumZ (map (λ m, part (mf_name f, mt_labels m) (mt_value m)) (mf_metrics f))) as Hf.
  { unfold tally_family. destruct (String.eqb _ _); [destruct (mf_metrics f) eqn:Hfm; [simpl; lia|rewrite Hnet; rewrite <- Hfm in *]|]; apply Hms; lia. }
  rewrite IH; rewrite Hf; lia.
Qed.

Lemma f64_max_zero v : f64_as_u64 (f64_max v f64_zero) = f64_as_u64 v.
Proof.
  destruct v as [[]|[]| |[] m e]; try done. unfold f64_as_u64, f64_as_int. simpl. pose proof (shiftl_nonneg m e). unfold u64_max. lia.
Qed.

(** The series each figure is about. *)
Definition of_instance (id : option string) (ls : list (string * string)) : bool :=
  match id with Some i => existsb (λ l, String.eqb l.1 "instance" && String.eqb l.2 i) ls | None => true end.
Definition share_series (k : Series) : bool := String.eqb k.1 SHARES && negb (String.eqb (label_value "worker" k.2) EmptyString).
Definition first_instance (ls : list (string * string)) : string := match List.find (λ l, String.eqb l.1 "instance") ls with Some l => l.2 | None => EmptyString end.
Definition block_series (id : option string) (k : Series) : bool :=
  String.eqb k.1 POOL_BLOCKS && match id with Some i => String.eqb (first_instance k.2) i | None => true end.
Definition series_key (ls : list (string * string)) : string := key_of (label_value "instance" ls) (label_value "worker" ls) (label_value "wallet" ls).
Definition worker_series (key : string) (k : Series) : bool := share_series k && String.eqb (series_key k.2) key.

Ltac tally_cases n := unfold tally_metric; simpl;
  repeat match goal with |- context [if String.eqb n ?s then _ else _] => destruct (String.eqb_spec n s) as [-> |]; simpl end.

Lemma shares_step id t n m : 0 ≤ ta_total_shares t ≤ u64_max →
  ta_total_shares (tally_metric id n t m) = Z.min (ta_total_shares t + weigh share_series (n, mt_labels m) (mt_value m)) u64_max.
Proof.
  intros Ht. assert (Z.min (ta_total_shares t + 0) u64_max = ta_total_shares t) as Hmin by lia. unfold weigh, share_series. simpl.
  tally_cases n; destruct (String.eqb (label_value "worker" (mt_labels m)) EmptyString); simpl; try done.
  all: try by destruct (match id with Some _ => _ | None => _ end).
  all: destruct (String.eqb_spec n SHARES); [done|]; simpl; done.
Qed.

Lemma blocks_step id t n m : 0 ≤ ta_total_blocks t ≤ u64_max →
  ta_total_blocks (tally_metric id n t m) = Z.min (ta_total_blocks t + weigh (block_series id) (n, mt_labels m) (mt_value m)) u64_max.
Proof.
  intros Ht. assert (Z.min (ta_total_blocks t + 0) u64_max = ta_total_blocks t) as Hmin by lia. unfold weigh, block_series. simpl.
  tally_cases n; try (destruct (String.eqb (label_value "worker" (mt_labels m)) EmptyString); done).
  - fold (first_instance (mt_labels m)). rewrite f64_max_zero. destruct id as [i|]; [|done]. by destruct (String.eqb (first_instance (mt_labels m)) i).
  - destruct (String.eqb_spec n POOL_BLOCKS); [done|]. by destruct (String.eqb (label_value "worker" (mt_labels m)) EmptyString).
Qed.

Definition shares_at (key : string) (t : Tally) : Z := default 0 (wi_shares <$> ta_workers t !! key).
Lemma entry_shares ls f m key d : 0 ≤ default 0 (wi_shares <$> m !! key) ≤ u64_max →
  (∀ w, 0 ≤ wi_shares w ≤ u64_max → wi_shares (f w) = Z.min (wi_shares w + d) u64_max) →
  default 0 (wi_shares <$> entry ls f m !! key) =
    if String.eqb (series_key ls) key then Z.min (default 0 (wi_shares <$> m !! key) + d) u64_max else default 0 (wi_shares <$> m !! key).
Proof.
  intros Hr Hf. unfold entry. simpl. fold (series_key ls). destruct (String.eqb_spec (series_key ls) key) as [He|Hne].
  - rewrite He, lookup_insert_eq. simpl. rewrite Hf; [by destruct (m !! key)|]. destruct (m !! key); simpl in *; [done|]. unfold u64_max. lia.
  - by rewrite lookup_insert_ne by done.
Qed.
Lemma worker_step key id t n m : 0 ≤ shares_at key t ≤ u64_max →
  shares_at key (tally_metric id n t m) = Z.min (shares_at key t + weigh (worker_series key) (n, mt_labels m) (mt_value m)) u64_max.
Proof.
  intros Ht. assert (Z.min (shares_at key t + 0) u64_max = shares_at key t) as Hmin by lia.
  assert (∀ f, (∀ w, 0 ≤ wi_shares w ≤ u64_max → wi_shares (f w) = Z.min (wi_shares w + 0) u64_max) →
    default 0 (wi_shares <$> entry (mt_labels m) f (ta_workers t) !! key) = shares_at key t) as Hkeep.
  { intros f Hf. rewrite (entry_shares _ _ _ _ 0) by done. fold (shares_at key t). rewrite Hmin. by destruct (String.eqb _ key). }
  assert (∀ w, 0 ≤ wi_shares w ≤ u64_max → wi_shares (Datatypes.id w) = Z.min (wi_shares w + 0) u64_max) as Hid by (intros w Hw; unfold Datatypes.id; lia).
  unfold weigh, worker_series, share_series. simpl.
  tally_cases n; destruct (String.eqb (label_value "worker" (mt_labels m)) EmptyString); simpl; rewrite ?Hmin; try done.
  all: try (by destruct (match id with Some _ => _ | None => _ end)).
  all: try (unfold shares_at at 1; simpl; apply Hkeep; try done).
  - unfold shares_at at 1. simpl. rewrite (entry_shares _ _ _ _ (f64_as_u64 (mt_value m))) by done. fold (shares_at key t).
    destruct (String.eqb (series_key (mt_labels m)) key); lia.
  - intros w Hw. destruct (String.eqb _ "stale"); [done|]. destruct (String.eqb _ "invalid"); [done|by apply Hid].
  - rewrite andb_false_r. simpl. lia.
  - destruct (String.eqb_spec n SHARES); [done|]. simpl. lia.
Qed.

Lemma samples_elem f fams m : f ∈ fams → m ∈ mf_metrics f → ((mf_name f, mt_labels m), mt_value m) ∈ samples fams.
Proof.
  intros Hf Hm. unfold samples. induction fams as [|g fams IH]; [by apply elem_of_nil in Hf|]. cbn [map]. apply elem_of_app.
  apply elem_of_cons in Hf as [<- |Hf]; [left|right; by apply IH]. by apply list_elem_of_In, (in_map (λ m, ((mf_name f, mt_labels m), mt_value m))), list_elem_of_In.
Qed.

(** Filtering by instance keeps the series of the instance, as far as series without one do not count. *)
Lemma filter_sum part id fams : (∀ k v, (k, v) ∈ samples fams → labelled k.2 = false → part k v = 0) →
  sum_samples part (filter_metric_families_for_instance fams id) = sum_samples (λ k v, if of_instance (Some id) k.2 then part k v else 0) fams.
Proof.
  induction fams as [|f fams IH]; intros Hp; [done|]. rewrite sum_samples_cons, <- IH.
  2: { intros k v Hkv. apply Hp. unfold samples in *. cbn [map]. apply elem_of_app. by right. }
  assert (∀ m, m ∈ mf_metrics f → labelled (mt_labels m) = false → part (mf_name f, mt_labels m) (mt_value m) = 0) as Hf.
  { intros m Hm. apply (Hp (mf_name f, mt_labels m)). apply samples_elem; [by left|done]. }
  unfold filter_metric_families_for_instance at 1. cbn [map mjoin list_join]. fold (filter_metric_families_for_instance fams id).
  assert (∀ l, sum_samples part (l ++ filter_metric_families_for_instance fams id) = sum_samples part l + sum_samples part (filter_metric_families_for_instance fams id)) as Happ.
  { intros l. unfold sum_samples, samples. by rewrite map_app, join_app, map_app, sumZ_app. }
  rewrite Happ. f_equal. clear Happ IH Hp. destruct (existsb (has_label "instance") (mf_metrics f)) eqn:Hex; simpl.
  - set (g := λ m, part (mf_name f, mt_labels m) (mt_value m)).
    transitivity (sumZ (map g (List.filter (λ m, metric_matches_instance m id) (mf_metrics f)))).
    { destruct (List.filter _ _) as [|m l]; [done|]. by rewrite sum_samples_cons, Z.add_0_r. }
    clear. induction (mf_metrics f) as [|m l IH]; simpl; [done|]. unfold metric_matches_instance at 1. destruct (existsb _ (mt_labels m)); simpl; by rewrite IH.
  - rewrite sum_samples_cons, Z.add_0_r. f_equal. apply map_ext_in. intros m Hm%list_elem_of_In.
    assert (labelled (mt_labels m) = false) as Hl.
    { destruct (labelled (mt_labels m)) eqn:Hl; [|done]. exfalso. rewrite <- not_true_iff_false in Hex. apply Hex, existsb_exists. exists m.
      split; [by apply list_elem_of_In|done]. }
    rewrite (Hf m Hm Hl). by case_match.
Qed.

Lemma plain_absent n fams : (∀ k v, (k, v) ∈ samples fams → k.1 ≠ n) → plain_value [n] fams = None.
Proof.
  unfold plain_value. intros Hn. assert (∀ v, foldl (λ v f, if existsb (String.eqb (mf_name f)) [n] then match mf_metrics f with m :: _ => Some (mt_value m) | [] => v end else v) v fams = v) as Hf; [|apply Hf].
  induction fams as [|f fams IH]; intros v; [done|]. cbn [foldl]. rewrite IH.
  - simpl. destruct (String.eqb_spec (mf_name f) n) as [He|]; [|done]. destruct (mf_metrics f) as [|m l] eqn:Hm; [done|]. exfalso.
    apply (Hn (mf_name f, mt_labels m) (mt_value m)); [|done]. apply samples_elem; [by left|rewrite Hm; by left].
  - intros k x Hk. apply (Hn k x). unfold samples in *. cbn [map]. apply elem_of_app. by right.
Qed.

Section totals.
Context `{!Prometheus, !PrometheusOk}.

Lemma sum_series part r : sum_samples part (gather r) = sum_map part (series r).
Proof. unfold sum_samples, sum_map, series. by rewrite (map_to_list_to_map _ (gather_once r)). Qed.

Lemma sample_series r k v : (k, v) ∈ samples (gather r) → series r !! k = Some v.
Proof. apply elem_of_list_to_map_1, gather_once. Qed.

Lemma no_cpu b p : counters_ok b p → internal_cpu (gather (pm_registry p)) = None.
Proof.
  intros Hc. assert (∀ n, cpu_metric n = true → plain_value [n] (gather (pm_registry p)) = None) as Hn.
  { intros n Hn. apply plain_absent. intros k v [Hk _]%sample_series%Hc He. congruence. }
  unfold internal_cpu, plain_count. by rewrite !Hn by done.
Qed.

(** The sum of a figure's parts over the families it is computed from. *)
Lemma figure_sum b p wt id : counters_ok b p → (∀ k, wt k = true → tracked k.1 = true) →
  sum_samples (weigh wt) (match id with Some i => filter_metric_families_for_instance (gather (pm_registry p)) i | None => gather (pm_registry p) end) =
  weighed (λ k, wt k && of_instance id k.2) p.
Proof.
  intros Hc Hwt. unfold weighed. rewrite <- sum_series. destruct id as [i|].
  - rewrite filter_sum.
    + unfold sum_samples. f_equal. apply map_ext. intros [k v]. unfold weigh. simpl. destruct (wt k), (existsb _ k.2); done.
    + intros k v [_ Hk]%sample_series%Hc Hl. unfold weigh. destruct (wt k) eqn:Hw; [|done]. destruct (Hk (Hwt k Hw)) as [Hk' _]. congruence.
  - unfold sum_samples. f_equal. apply map_ext. intros [k v]. unfold weigh. simpl. by rewrite andb_true_r.
Qed.
End totals.

(** ** Workers and blocks shown *)

Definition same_worker (w w' : WorkerInfo) : Prop :=
  wi_instance w' = wi_instance w ∧ wi_worker w' = wi_worker w ∧ wi_wallet w' = wi_wallet w ∧ wi_shares w' = wi_shares w.

Lemma judge_worker_same now unix start key w activity w' : (judge_worker now unix start key w activity).1 = Some w' → same_worker w w'.
Proof. unfold judge_worker. repeat case_match; simpl; intros [= <-]; done. Qed.

Lemma judge_elem now unix t l acc w : w ∈ (foldl (judge now unix t) acc l).1 → w ∈ acc.1 ∨ ∃ key w0, (key, w0) ∈ l ∧ same_worker w0 w.
Proof.
  revert acc. induction l as [|[key w0] l IH]; intros acc Hw; [by left|]. cbn [foldl] in Hw. destruct (IH _ Hw) as [Hin|(k & w1 & Hin & Hs)].
  - unfold judge in Hin. destruct acc as [active activity]. set (w2 := wi_session _ _ w0) in Hin.
    destruct (judge_worker now unix (ta_start_times t !! key) key w2 activity) as [[w3|] activity'] eqn:Hj; [|by left].
    apply elem_of_app in Hin as [Hin|Hin%list_elem_of_singleton]; [by left|right]. exists key, w0. split; [by left|].
    subst w3. apply (f_equal fst), judge_worker_same in Hj. exact Hj.
  - right. exists k, w1. split; [by right|done].
Qed.

(** A worker is listed under the key of its names. *)
Definition named (t : Tally) : Prop := ∀ key w, ta_workers t !! key = Some w → key = key_of (wi_instance w) (wi_worker w) (wi_wallet w).
Lemma entry_named ls f m : (∀ w, wi_instance (f w) = wi_instance w ∧ wi_worker (f w) = wi_worker w ∧ wi_wallet (f w) = wi_wallet w) →
  (∀ key w, m !! key = Some w → key = key_of (wi_instance w) (wi_worker w) (wi_wallet w)) →
  ∀ key w, entry ls f m !! key = Some w → key = key_of (wi_instance w) (wi_worker w) (wi_wallet w).
Proof.
  intros Hf Hm key w. unfold entry. simpl. set (k := key_of _ _ _). destruct (decide (key = k)) as [-> |Hne].
  - rewrite lookup_insert_eq. intros [= <-]. destruct (Hf (default (new_worker_info (label_value "instance" ls) (label_value "worker" ls) (label_value "wallet" ls)) (m !! k))) as (-> & -> & ->).
    destruct (m !! k) as [w|] eqn:Hk; [by apply Hm|done].
  - rewrite lookup_insert_ne by done. apply Hm.
Qed.

Lemma tally_named id h fams : named (tally id h fams).
Proof.
  assert (∀ n t m, named t → named (tally_metric id n t m)) as Hstep.
  { intros n t m Ht. tally_cases n; destruct (String.eqb (label_value "worker" (mt_labels m)) EmptyString); try done.
    all: try by destruct (match id with Some _ => _ | None => _ end).
    all: try (unfold named; simpl; apply entry_named; [|done]; intros w; try done; by repeat case_match). }
  unfold tally. set (t0 := {| ta_total_blocks := 0 |}). assert (named t0) as H0t by (intros key w Hw; simpl in Hw; by rewrite lookup_empty in Hw). revert H0t. generalize t0.
  induction fams as [|f fams IH]; intros t Ht; [done|]. cbn [foldl]. apply IH. unfold tally_family.
  assert (∀ ms t, named t → named (foldl (tally_metric id (mf_name f)) t ms)) as Hms by (induction ms as [|m ms IHm]; intros t' Ht'; [done|]; apply IHm, Hstep, Ht').
  destruct (String.eqb _ _); [|by apply Hms]. destruct (mf_metrics f) as [|m ms]; [done|]. apply (Hms (m :: ms) t Ht).
Qed.

Lemma append_recent_short id seen l : (length (append_recent_mined_blocks id seen l) ≤ length l)%nat.
Proof.
  revert seen. induction l as [|b l IH]; intros seen; simpl; [done|]. destruct (_ || _); [specialize (IH seen); lia|]. simpl. specialize (IH (rb_hash b :: seen)). lia.
Qed.
Lemma append_recent_distinct id seen l : NoDup (map bi_hash (append_recent_mined_blocks id seen l)) ∧
  ∀ h, h ∈ seen → h ∉ map bi_hash (append_recent_mined_blocks id seen l).
Proof.
  revert seen. induction l as [|b l IH]; intros seen; simpl; [split; [constructor|by intros h _ ?%elem_of_nil]|].
  destruct (match id with Some _ => _ | None => _ end); simpl; [apply IH|]. case_bool_decide as Hin; [apply IH|]. simpl.
  destruct (IH (rb_hash b :: seen)) as [Hnd Hfresh]. split.
  - constructor; [apply Hfresh; by left|done].
  - intros h Hh [-> |Hin']%elem_of_cons; [done|]. by apply (Hfresh h (list_elem_of_further _ _ _ Hh)).
Qed.

Section dashboard.
Context `{!Prometheus, !PrometheusOk}.

Lemma counter_recent n ls x p : pm_recent (counter n ls x p) = pm_recent p.
Proof. unfold counter. by destruct (pm_initialised p). Qed.
Lemma gauge_recent n ls x p : pm_recent (gauge n ls x p) = pm_recent p.
Proof. unfold gauge. by destruct (pm_initialised p). Qed.
Lemma gauge_start_recent n ls x p : pm_recent (gauge_start n ls x p) = pm_recent p.
Proof. unfold gauge_start. destruct (f64_le _ _); [apply gauge_recent|done]. Qed.
Lemma series_recent w p : pm_recent (init_worker_counter_series w p) = pm_recent p.
Proof. unfold init_worker_counter_series. simpl. by rewrite gauge_start_recent, !counter_recent. Qed.

Lemma op_recent o p : (length (pm_recent p) ≤ RECENT_MINED_BLOCKS_LIMIT)%nat → (length (pm_recent (run_op o p)) ≤ RECENT_MINED_BLOCKS_LIMIT)%nat.
Proof.
  intros Hp. destruct o as [now w diff|type now w|unix w nonce blue hash|w|w|w|w|now w start|w diff|h b d|i wl e|i l|i ip r|i ip|i ip|i ip|now u u' id];
    try (cbn [run_op]; unfold record_block_accepted_by_node, record_block_not_confirmed_blue, record_new_job, record_worker_error,
      record_anti_abuse_connection_reject, record_anti_abuse_frame_limited, record_malformed_frame, record_bad_address; simpl; by rewrite ?counter_recent).
  - unfold run_op, record_block_found, remember_block. destruct (_ || _); [by rewrite !counter_recent|]. cbn [pm_recent with_recent]. rewrite length_take. lia.
  - change (run_op (OpSession now w start) p) with (ensure_worker_session_metrics now w start p). unfold ensure_worker_session_metrics. destruct (bool_decide (wc_wallet w = EmptyString)); [done|]. simpl. by rewrite gauge_start_recent, series_recent.
  - simpl. unfold update_worker_difficulty. by rewrite gauge_recent, series_recent.
  - simpl. unfold record_network_stats. by rewrite !gauge_recent.
  - simpl. unfold record_balances. induction l as [|x l IH] using rev_ind; [done|]. by rewrite foldl_snoc, gauge_recent.
  - simpl. unfold get_stats_json_filtered. cbv zeta. match goal with |- context [foldl ?f ([], pm_activity p) ?l] => by destruct (foldl f ([], pm_activity p) l) end.
Qed.

Lemma run_recent ops now : (length (pm_recent (run_ops ops (init_metrics now Prom_new))) ≤ RECENT_MINED_BLOCKS_LIMIT)%nat.
Proof.
  unfold run_ops. induction ops as [|o ops IH] using rev_ind; [simpl; unfold RECENT_MINED_BLOCKS_LIMIT; lia|]. rewrite foldl_snoc. by apply op_recent.
Qed.

(** What was recorded. *)
Definition count (f : MetricOp → bool) (ops : list MetricOp) : Z := Z.of_nat (length (List.filter f ops)).
Definition for_instance (id : option string) (w : WorkerContext) : bool := match id with Some i => String.eqb (wc_instance_id w) i | None => true end.
Definition is_share (id : option string) (o : MetricOp) : bool :=
  match o with OpShare _ w _ => negb (String.eqb (wc_worker_name w) EmptyString) && for_instance id w | _ => false end.
Definition is_block (id : option string) (o : MetricOp) : bool := match o with OpBlock _ w _ _ _ => for_instance id w | _ => false end.
Definition is_share_of (id : option string) (key : string) (o : MetricOp) : bool :=
  is_share id o && match o with OpShare _ w _ => String.eqb (worker_key w) key | _ => false end.

Lemma sum_count wt f ops : (∀ o, op_weight wt o = one (f o)) → sumZ (map (op_weight wt) ops) = count f ops.
Proof. intros Hf. unfold count. induction ops as [|o ops IH]; simpl; [done|]. rewrite IH, Hf. destruct (f o); simpl; lia. Qed.

Lemma count_le f ops : 0 ≤ count f ops ≤ Z.of_nat (length ops).
Proof. unfold count. pose proof (List.filter_length_le f ops). lia. Qed.

(** The chosen series of a run hold the number of events chosen. *)
Lemma figure_count now ops wt id f : Z.of_nat (length ops) < 2 ^ 53 → (∀ k, wt k = true → tracked k.1 = true) →
  (∀ o, op_weight (λ k, wt k && of_instance id k.2) o = one (f o)) →
  sum_samples (weigh wt) (match id with
                          | Some i => filter_metric_families_for_instance (gather (pm_registry (run_ops ops (init_metrics now Prom_new)))) i
                          | None => gather (pm_registry (run_ops ops (init_metrics now Prom_new)))
                          end) = count f ops.
Proof.
  intros Hlen Hwt Hf. assert (∀ k, wt k && of_instance id k.2 = true → tracked k.1 = true) as Hwt' by (intros k [Hk _]%andb_prop; by apply Hwt).
  destruct (run_ops_weighed _ Hwt' now ops Hlen) as (Hc & Hw & _). rewrite (figure_sum (Z.of_nat (length ops))) by done. etrans; [exact Hw|]. by apply sum_count.
Qed.

Lemma share_series_tracked k : share_series k = true → tracked k.1 = true.
Proof. unfold share_series, tracked. by intros [-> _]%andb_prop. Qed.
Lemma block_series_tracked id k : block_series id k = true → tracked k.1 = true.
Proof. unfold block_series, tracked. intros [-> _]%andb_prop. apply orb_true_r. Qed.

Lemma share_weight id o : op_weight (λ k, share_series k && of_instance id k.2) o = one (is_share id o).
Proof.
  destruct o as [now w diff| |unix w nonce blue hash| | | | | | | | | | | | | |]; try done. cbn [op_weight is_share]. f_equal. f_equal.
  unfold for_instance, of_instance. destruct id as [i|]; [|done]. simpl. by rewrite orb_false_r.
Qed.
Lemma block_weight id o : op_weight (λ k, block_series id k && of_instance id k.2) o = one (is_block id o).
Proof.
  destruct o as [now w diff| |unix w nonce blue hash| | | | | | | | | | | | | |]; try done. cbn [op_weight is_block]. f_equal.
  unfold for_instance, of_instance, block_series, first_instance. destruct id as [i|]; [|done]. simpl. rewrite orb_false_r. by destruct (String.eqb _ _).
Qed.
Lemma worker_weight id key o : op_weight (λ k, worker_series key k && of_instance id k.2) o = one (is_share_of id key o).
Proof.
  pose proof (share_weight id o) as Hs. destruct o as [now w diff| |unix w nonce blue hash| | | | | | | | | | | | | |]; try done.
  cbn [op_weight] in *. unfold is_share_of, worker_series. change (series_key (SHARES, by_name (worker_labels w)).2) with (worker_key w).
  destruct (String.eqb (worker_key w) key); rewrite ?andb_true_r, ?andb_false_r; [exact Hs|done].
Qed.

(** The families a dashboard reads. *)
Definition families_shown (instance_id : option string) (p : Prom) : list MetricFamily :=
  match instance_id with Some i => filter_metric_families_for_instance (gather (pm_registry p)) i | None => gather (pm_registry p) end.
(** A figure that adds the weight of every sample is the number of the records of that weight. *)
Lemma figure_tally now ops instance_id h μ wt f : Z.of_nat (length ops) < 2 ^ 53 →
  (∀ t n m, 0 ≤ μ t ≤ u64_max → μ (tally_metric instance_id n t m) = Z.min (μ t + weigh wt (n, mt_labels m) (mt_value m)) u64_max) →
  (∀ t v, μ (set_network_hashrate v t) = μ t) → μ (tally instance_id h []) = 0 → (∀ k, wt k = true → tracked k.1 = true) →
  (∀ o, op_weight (λ k, wt k && of_instance instance_id k.2) o = one (f o)) →
  μ (tally instance_id h (families_shown instance_id (run_ops ops (init_metrics now Prom_new)))) = count f ops.
Proof.
  intros Hlen Hstep Hnet Hzero Hwt Hf. pose proof (figure_count now ops wt instance_id f Hlen Hwt Hf) as Hsum.
  pose proof (count_le f ops) as Hcount. unfold families_shown, tally. unfold tally in Hzero. simpl in Hzero.
  assert (∀ k v, 0 ≤ weigh wt k v) as Hpos by (intros k v; unfold weigh; destruct (wt k); [pose proof (f64_as_int_range 0 u64_max v); unfold f64_as_u64; unfold u64_max in *; lia|lia]).
  rewrite (tally_sum μ (weigh wt) instance_id Hstep Hnet Hpos), Hzero, Hsum; [lia|by rewrite Hzero|rewrite Hzero, Hsum; unfold u64_max; lia].
Qed.

(** C38: After any history of fewer than 2^53 records, statistics read in between included, the dashboard
    of an instance, or of all of them, shows as its totals the numbers of shares of named workers and
    of blocks recorded for it; every worker it lists has the number of shares recorded for it under the
    worker's names; and the list of recent blocks has at most 256 entries and no hash twice. *)
Theorem dashboard_counts now ops instance_id now' unix unix' : Z.of_nat (length ops) < 2 ^ 53 →
  let s := (get_stats_json_filtered now' unix unix' instance_id (run_ops ops (init_metrics now Prom_new))).1 in
  sr_total_shares s = count (is_share instance_id) ops ∧ sr_total_blocks s = count (is_block instance_id) ops ∧
  (∀ w, w ∈ sr_workers s → wi_shares w = count (is_share_of instance_id (key_of (wi_instance w) (wi_worker w) (wi_wallet w))) ops) ∧
  (length (sr_blocks s) ≤ 256)%nat ∧ NoDup (map bi_hash (sr_blocks s)).
Proof.
  intros Hlen. set (p := run_ops ops (init_metrics now Prom_new)).
  destruct (run_ops_weighed share_series share_series_tracked now ops Hlen) as (Hc & _ & _). fold p in Hc.
  unfold get_stats_json_filtered. cbv zeta. rewrite (no_cpu _ p Hc).
  change (match instance_id with Some i => filter_metric_families_for_instance (gather (pm_registry p)) i | None => gather (pm_registry p) end)
    with (families_shown instance_id p).
  set (fams := families_shown instance_id p). set (h := default 0 _). set (t := tally instance_id h fams).
  pose proof (λ μ wt f, figure_tally now ops instance_id h μ wt f Hlen) as Hfig. fold p fams t in Hfig.
  match goal with |- context [foldl ?g ([], pm_activity p) ?l] => destruct (foldl g ([], pm_activity p) l) as [active activity] eqn:Hj end. simpl.
  rewrite (Hfig ta_total_shares share_series (is_share instance_id)), (Hfig ta_total_blocks (block_series instance_id) (is_block instance_id)).
  all: try done; try (intros; by apply shares_step); try (intros; by apply blocks_step); try apply share_series_tracked; try apply block_series_tracked.
  2: apply block_weight.
  2: apply share_weight.
  assert (∀ f, u64_saturating_add (count f ops) 0 = count f ops) as Hsat by (intros f; pose proof (count_le f ops); unfold u64_saturating_add, u64_max; lia).
  rewrite !Hsat. split_and!; [done|done| | |].
  - intros w. rewrite stable_sort_perm. intros Hw. pose proof (judge_elem now' unix' t (map_to_list (rate_workers (f64_of_Z unix) t)) ([], pm_activity p) w) as Hje.
    rewrite Hj in Hje. destruct (Hje Hw) as [Hnil|(key & w0 & Hin & Hi & Hwk & Hwl & Hsh)]; [by apply elem_of_nil in Hnil|].
    apply elem_of_map_to_list in Hin. unfold rate_workers in Hin. rewrite map_lookup_imap in Hin.
    destruct (ta_workers t !! key) as [w1|] eqn:Hw1; [|done]. injection Hin as <-.
    assert (key = key_of (wi_instance w1) (wi_worker w1) (wi_wallet w1)) as Hkey by (by apply (tally_named instance_id h fams)).
    assert (key_of (wi_instance w) (wi_worker w) (wi_wallet w) = key ∧ wi_shares w = wi_shares w1) as [-> ->].
    { rewrite Hi, Hwk, Hwl, Hsh. by destruct (worker_rate (f64_of_Z unix) t key). }
    rewrite <- (Hfig (shares_at key) (worker_series key) (is_share_of instance_id key)); [by unfold shares_at; rewrite Hw1| |done|done| |].
    + intros. by apply worker_step.
    + intros k [Hk _]%andb_prop. by apply share_series_tracked.
    + intros o. apply worker_weight.
  - rewrite length_stable_sort. etrans; [apply append_recent_short|]. apply run_recent.
  - rewrite (Permutation_map bi_hash (stable_sort_perm _ _)). apply append_recent_distinct.
Qed.
End dashboard.

(** ** A registry, and a history *)

Module MetricsDemo.
#[local] Instance prometheus : Prometheus := {
  Registry := gmap Series f64;
  registry_new := ∅;
  inc_by n ls x r := <[(n, by_name ls) := f64_add (default f64_zero (r !! (n, by_name ls))) x]> r;
  gauge_set n ls x r := <[(n, by_name ls) := x]> r;
  gather r := map (λ kv, {| mf_name := kv.1.1; mf_metrics := [{| mt_labels := kv.1.2; mt_value := kv.2 |}] |}) (map_to_list r) }.

Lemma samples_map (l : list (Series * f64)) : samples (map (λ kv, {| mf_name := kv.1.1; mf_metrics := [{| mt_labels := kv.1.2; mt_value := kv.2 |}] |}) l) = l.
Proof. unfold samples. induction l as [|[[n ls] v] l IH]; [done|]. cbn [map]. simpl. f_equal. exact IH. Qed.
Lemma series_id (r : gmap Series f64) : series r = r.
Proof. unfold series, gather. simpl. rewrite samples_map. apply list_to_map_to_list. Qed.

#[local] Instance prometheus_ok : PrometheusOk.
Proof.
  split.
  - intros r. unfold gather. simpl. rewrite samples_map. apply NoDup_fst_map_to_list.
  - apply series_id.
  - intros n ls x r. by rewrite !series_id.
  - intros n ls x r. by rewrite !series_id.
Qed.

Definition worker (instance name : string) : WorkerContext :=
  {| wc_instance_id := instance; wc_worker_name := name; wc_miner := "bz"; wc_wallet := "kaspa:w"; wc_ip := "10.0.0.1" |}.
Definition history : list MetricOp :=
  [OpSession 0 (worker "a" "rig") (f64_of_Z 5); OpShare 1 (worker "a" "rig") (f64_of_Z 4); OpShare 2 (worker "b" "rig") (f64_of_Z 4);
   OpShare 3 (worker "a" "rig") (f64_of_Z 8); OpShare 4 (worker "a" "") (f64_of_Z 8); OpStats 5 10 10 None;
   OpBlock 11 (worker "a" "rig") 7 1000 (codes " ab "); OpBlock 12 (worker "a" "rig") 8 1001 (codes "ab"); OpInvalid "stale" 6 (worker "b" "rig")].
Definition shown (id : option string) : StatsResponse := (get_stats_json_filtered 7 20 20 id (run_ops history (init_metrics 0 Prom_new))).1.

Lemma dashboard_counts_witness :
  map (λ id, (sr_total_shares (shown id), sr_total_blocks (shown id), length (sr_workers (shown id)), length (sr_blocks (shown id)))) [None; Some "a"; Some "b"]%string =
    [(3, 2, 2%nat, 1%nat); (2, 2, 1%nat, 1%nat); (1, 0, 1%nat, 0%nat)] ∧
  ∀ w, w ∈ sr_workers (shown (Some "a"%string)) → wi_shares w = count (is_share_of (Some "a"%string) (key_of (wi_instance w) (wi_worker w) (wi_wallet w))) history.
Proof.
  split; [vm_compute; reflexivity|].
  assert (Z.of_nat (length history) < 2 ^ 53) as Hlen by (vm_compute; reflexivity).
  destruct (dashboard_counts 0 history (Some "a"%string) 7 20 20 Hlen) as (_ & _ & Hworkers & _). exact Hworkers.
Defined.
End MetricsDemo.
