(* ===== verification/Web.v ===== *)
(** * The metrics and dashboard server (bridge/src/prom.rs)

    The small HTTP server of an instance: routing of a request, static files,
    the settings endpoints and the accept loop.  A request is the text of one
    read, an answer is the bytes written.  The encoders of the metrics and of
    JSON, the embedded files and the file system are parameters.  Paths are
    those of Unix. *)

From S2P Require Import Prelude Float64 Mass Db DupGuard Domain Events Bytes Hasher MiningState Stratum Listener KaspaApi Api RuntimeConfig Replay Server BridgeFile FloatExact Metrics.
Local Open Scope Z_scope.

(** ** Text *)

Definition crlf : list Z := [13; 10].
(** The text of a literal, a single quote standing for a double one. *)
Definition quoted (s : string) : list Z := map (λ c, if c =? 39 then 34 else c) (codes s).

(** [str::as_bytes]. *)
Definition char_bytes (c : Z) : list Z :=
  if c <? 128 then [c]
  else if c <? 2048 then [192 + c / 64; 128 + c mod 64]
  else if c <? 65536 then [224 + c / 4096; 128 + (c / 64) mod 64; 128 + c mod 64]
  else [240 + c / 262144; 128 + (c / 4096) mod 64; 128 + (c / 64) mod 64; 128 + c mod 64].
Definition as_bytes (s : list Z) : list Z := mjoin (map char_bytes s).

(** [str::find], as a number of characters. *)
Fixpoint find_text (needle s : list Z) : option nat :=
  if is_prefix needle s then Some O
  else match s with [] => None | _ :: s => S <$> find_text needle s end.
Definition contains_text (needle s : list Z) : bool := match find_text needle s with Some _ => true | None => false end.
Definition ends_with (p s : list Z) : bool := is_prefix (rev p) (rev s).
Definition to_ascii_lowercase (s : list Z) : list Z := map (λ c, if between 65 90 c then c + 32 else c) s.

(** [str::trim_start_matches] with a pattern; the length of the text bounds the number of matches. *)
Fixpoint trim_prefixes (fuel : nat) (p s : list Z) : list Z :=
  match fuel with
  | O => s
  | S fuel => if is_prefix p s then trim_prefixes fuel p (drop (length p) s) else s
  end.
Definition trim_start_matches_text (p s : list Z) : list Z := trim_prefixes (length s) p s.

(** [&s[n..]]: a panic past the end, or inside a character. *)
Fixpoint slice_from (n : Z) (s : list Z) : exec (list Z) :=
  if n =? 0 then Ret s
  else match s with
       | [] => Panic
       | c :: s => if n <? char_len c then Panic else slice_from (n - char_len c) s
       end.

(** [str::split_whitespace]. *)
Fixpoint words_from (cur s : list Z) : list (list Z) :=
  match s with
  | [] => match cur with [] => [] | _ => [cur] end
  | c :: s => if is_whitespace c then match cur with [] => words_from [] s | _ => cur :: words_from [] s end else words_from (cur ++ [c]) s
  end.
Definition split_whitespace (s : list Z) : list (list Z) := words_from [] s.

(** ** The server *)

Inductive HttpMode := Aggregated (web_bind : list Z) | Instance (instance_id : string) (web_bind : list Z).
Definition web_bind_of (m : HttpMode) : list Z := match m with Aggregated b => b | Instance _ b => b end.
Definition is_instance (m : HttpMode) : bool := match m with Aggregated _ => false | Instance _ _ => true end.

Definition content_type_for_path (path : list Z) : list Z :=
  let p := to_ascii_lowercase path in
  if ends_with (codes ".html") p then codes "text/html; charset=utf-8"
  else if ends_with (codes ".css") p then codes "text/css; charset=utf-8"
  else if ends_with (codes ".js") p then codes "application/javascript; charset=utf-8"
  else if ends_with (codes ".svg") p then codes "image/svg+xml"
  else codes "application/octet-stream".

(** [Path::join]: an absolute path replaces what it is joined to. *)
Definition is_absolute (p : list Z) : bool := is_prefix [47] p.
Definition path_join (base p : list Z) : list Z :=
  if is_absolute p then p else base ++ (if ends_with [47] base then [] else [47]) ++ p.

Record WebStatusConfig := { sc_kaspad_address : list Z; sc_instances : Z }.
Definition WebStatusConfig_default : WebStatusConfig := {| sc_kaspad_address := codes "-"; sc_instances := 1 |}.
Definition set_web_status_config (kaspad_address : list Z) (instances : Z) : WebStatusConfig :=
  {| sc_kaspad_address := kaspad_address; sc_instances := Z.max instances 1 |}.
Record WebStatusResponse := { st_kaspad_address : list Z; st_kaspad_version : list Z; st_instances : Z; st_web_bind : list Z }.

(** What surrounds the server: the environment, the embedded files and the disk. *)
Record WebEnv := {
  we_allow_config_write : option (list Z); we_embedded : list Z → option (list Z); we_manifest_dir : list Z;
  we_fs : list Z → option (list Z); we_disk : Disk }.

(** The encoders; JSON comes as bytes, [None] is an error of the encoder. *)
Class WebLib := {
  encode_metrics : list MetricFamily → option (list Z);
  status_json : WebStatusResponse → option (list Z);
  stats_json : StatsResponse → option (list Z);
  fields_json : list (string * Json) → option (list Z) }.
(** The text format of the metrics is text. *)
Class WebLibOk `{!WebLib} : Prop := encode_text fams buf : encode_metrics fams = Some buf → as_bytes (from_utf8_lossy buf) = buf.

Definition config_write_allowed (env : WebEnv) : bool :=
  match we_allow_config_write env with
  | Some v => bool_decide (v ∈ map codes ["1"; "true"; "TRUE"; "yes"; "YES"; "on"; "ON"]%string)
  | None => false
  end.

Definition STATIC : list Z := codes "/static/".
Definition static_name (url_path : list Z) : option (list Z) :=
  if bool_decide (url_path = codes "/") then Some (codes "index.html")
  else if bool_decide (url_path = codes "/index.html") then Some (codes "index.html")
  else if bool_decide (url_path = codes "/raw.html") then Some (codes "raw.html")
  else if is_prefix STATIC url_path then Some (trim_start_matches_text STATIC url_path)
  else None.
Definition try_read_static_file (env : WebEnv) (url_path : list Z) : option (list Z * list Z) :=
  rel ← static_name url_path;
  if contains_text (codes "..") rel || contains_text [92] rel then None
  else match we_embedded env rel with
       | Some contents => Some (rel, contents)
       | None => bytes ← we_fs env (path_join (path_join (we_manifest_dir env) (codes "static")) rel); Some (rel, bytes)
       end.

(** The head of an answer with a body of [len] bytes. *)
Definition head_of (status content_type : list Z) (cors : bool) (len : Z) : list Z :=
  codes "HTTP/1.1 " ++ status ++ crlf ++ codes "Content-Type: " ++ content_type ++ crlf ++
  (if cors then codes "Access-Control-Allow-Origin: *" ++ crlf else []) ++ codes "Content-Length: " ++ u64_to_string len ++ crlf ++ crlf.
Definition json_answer (status json : list Z) : list Z :=
  head_of status (codes "application/json") true (Z.of_nat (length json)) ++ json.
Definition OK_200 : list Z := codes "200 OK".
Definition NOT_FOUND : list Z := codes "HTTP/1.1 404 Not Found" ++ crlf ++ crlf.
Definition CONFIG_DISABLED : list Z :=
  quoted "{'success': false, 'message': 'Config write disabled. Set RKSTRATUM_ALLOW_CONFIG_WRITE=1 to enable.'}".
Definition CONFIG_UPDATED : list Z :=
  quoted "{'success': true, 'message': 'Config updated successfully. Bridge restart required for changes to take effect.'}".
Definition CONFIG_FAILED : list Z := quoted "{'success': false, 'message': 'Failed to update config'}".

Section server.
Context `{!Prometheus, !YamlLib, !JsonLib, !WebLib}.

(** The statics the handlers read and write, and the settings file. *)
Record WebState := { ws_prom : Prom; ws_server_version : option (list Z); ws_status : WebStatusConfig; ws_file : option (list Z) }.
Definition with_prom (p : Prom) (s : WebState) : WebState :=
  {| ws_prom := p; ws_server_version := ws_server_version s; ws_status := ws_status s; ws_file := ws_file s |}.
Definition with_file (f : option (list Z)) (s : WebState) : WebState :=
  {| ws_prom := ws_prom s; ws_server_version := ws_server_version s; ws_status := ws_status s; ws_file := f |}.

(** The readings of the clocks a request makes. *)
Record Clock := { ck_now : Z; ck_unix : Z; ck_unix' : Z }.

Definition path_of (request : list Z) : list Z :=
  match read_lines request with
  | line :: _ => default (codes "/") (split_whitespace line !! 1%nat)
  | [] => codes "/"
  end.

Definition metrics_shown (mode : HttpMode) (p : Prom) : list MetricFamily :=
  match mode with
  | Aggregated _ => gather (pm_registry p)
  | Instance id _ => filter_metric_families_for_instance (gather (pm_registry p)) id
  end.
Definition EMPTY_OBJECT : list Z := codes "{}".
Definition status_of (mode : HttpMode) (s : WebState) : WebStatusResponse :=
  {| st_kaspad_address := sc_kaspad_address (ws_status s); st_kaspad_version := default (codes "-") (ws_server_version s);
     st_instances := sc_instances (ws_status s); st_web_bind := web_bind_of mode |}.
Definition stats_of (mode : HttpMode) (ck : Clock) (p : Prom) : StatsResponse * Prom :=
  get_stats_json_filtered (ck_now ck) (ck_unix ck) (ck_unix' ck) (match mode with Aggregated _ => None | Instance id _ => Some id end) p.
Definition config_json (file : option (list Z)) : list Z :=
  match get_config_json file with [] => EMPTY_OBJECT | fields => default EMPTY_OBJECT (fields_json fields) end.

Definition post_config (env : WebEnv) (request : list Z) (s : WebState) : exec (list Z * WebState) :=
  if negb (config_write_allowed env) then Ret (json_answer (codes "403 Forbidden") CONFIG_DISABLED, s)
  else
    let body_start := match find_text (crlf ++ crlf) request with Some i => str_len (take i request) | None => str_len request end in
    body ← slice_from (body_start + 4) request;
    let '(ok, file) := update_config_from_json (we_disk env) body (ws_file s) in
    Ret (json_answer OK_200 (if ok then CONFIG_UPDATED else CONFIG_FAILED), with_file file s).

(** What is written to the peer, nothing when the encoder fails. *)
Definition handle_http_request (env : WebEnv) (ck : Clock) (mode : HttpMode) (request : list Z) (s : WebState) : exec (option (list Z) * WebState) :=
  let path := path_of request in
  if is_prefix (codes "GET /metrics") request then
    match encode_metrics (metrics_shown mode (ws_prom s)) with
    | Some buf =>
        Ret (Some (head_of OK_200 (codes "text/plain; version=0.0.4") false (Z.of_nat (length buf)) ++ as_bytes (from_utf8_lossy buf)), s)
    | None => Ret (None, s)
    end
  else if is_prefix (codes "GET /api/status") request then
    Ret (Some (json_answer OK_200 (default EMPTY_OBJECT (status_json (status_of mode s)))), s)
  else if is_prefix (codes "GET /api/stats") request then
    let '(stats, p) := stats_of mode ck (ws_prom s) in
    Ret (Some (json_answer OK_200 (default EMPTY_OBJECT (stats_json stats))), with_prom p s)
  else if is_instance mode && is_prefix (codes "GET /api/config") request then
    Ret (Some (json_answer OK_200 (config_json (ws_file s))), s)
  else if is_instance mode && is_prefix (codes "POST /api/config") request then
    '(answer, s) ← post_config env request s;
    Ret (Some answer, s)
  else if is_prefix (codes "GET /") request then
    match try_read_static_file env path with
    | Some (rel, bytes) => Ret (Some (head_of OK_200 (content_type_for_path rel) false (Z.of_nat (length bytes)) ++ bytes), s)
    | None => Ret (Some NOT_FOUND, s)
    end
  else Ret (Some NOT_FOUND, s).

(** How far [write_all] gets: the peer takes everything, the connection breaks after some bytes, or the
    peer stops reading and the call does not return. *)
Inductive Writing := Taken | Broken (sent : nat) | Stuck (sent : nat).
(** What the listener and the stream give: an error of [accept], or a connection with what the one read
    of it gives, if it returns. *)
Inductive Connection := AcceptFails | Silent | ReadFails | Sends (bytes : list Z) (w : Writing).
Definition REQUEST_BUFFER : nat := 8192.

(** Where the loop is: waiting in [accept], left with the error of [accept], or held up in a connection
    to which it has sent this much. *)
Inductive LoopState := Accepting | AcceptFailed | HeldUp (sent : list Z).

(** One connection at a time, the next one when the last is done: for each, what was sent to it. *)
Fixpoint serve_http_loop (env : WebEnv) (mode : HttpMode) (conns : list (Clock * Connection)) (s : WebState)
    : exec (list (option (list Z)) * LoopState * WebState) :=
  match conns with
  | [] => Ret ([], Accepting, s)
  | (_, AcceptFails) :: _ => Ret ([], AcceptFailed, s)
  | (_, Silent) :: _ => Ret ([], HeldUp [], s)
  | (_, ReadFails) :: conns => '(outs, l, s) ← serve_http_loop env mode conns s; Ret (None :: outs, l, s)
  | (ck, Sends bytes w) :: conns =>
      '(out, s) ← handle_http_request env ck mode (from_utf8_lossy (take REQUEST_BUFFER bytes)) s;
      match out, w with
      | Some out, Stuck k => Ret ([], HeldUp (take k out), s)
      | _, _ =>
          '(outs, l, s) ← serve_http_loop env mode conns s;
          Ret ((match w with Broken k => take k <$> out | _ => out end) :: outs, l, s)
      end
  end.

(** [None] when the address cannot be bound. *)
Definition start_server (env : WebEnv) (bind : list Z → bool) (mode : list Z → HttpMode) (now : Z) (port : list Z) (conns : list (Clock * Connection))
    (s : WebState) : exec (option (list (option (list Z)) * LoopState) * WebState) :=
  let s := with_prom (init_metrics now (ws_prom s)) s in
  let addr := bind_addr_from_port port in
  if bind addr then '(outs, l, s) ← serve_http_loop env (mode addr) conns s; Ret (Some (outs, l), s) else Ret (None, s).
Definition start_prom_server (env : WebEnv) (bind : list Z → bool) (now : Z) (port : list Z) (instance_id : string) :=
  start_server env bind (Instance instance_id) now port.
Definition start_web_server_all (env : WebEnv) (bind : list Z → bool) (now : Z) (port : list Z) := start_server env bind Aggregated now port.
End server.

(** ** A client *)

(** The line up to the first CRLF, and the rest. *)
Fixpoint crlf_line (s : list Z) : option (list Z * list Z) :=
  match s with
  | [] => None
  | c :: r =>
      if (c =? 13) && bool_decide (head r = Some 10) then Some ([], tail r)
      else '(l, r) ← crlf_line r; Some (c :: l, r)
  end.
Fixpoint read_headers (fuel : nat) (s : list Z) : option (list (list Z) * list Z) :=
  match fuel with
  | O => None
  | S fuel =>
      '(l, r) ← crlf_line s;
      match l with [] => Some ([], r) | _ => '(ls, r) ← read_headers fuel r; Some (l :: ls, r) end
  end.
(** The status line, the header lines and the body. *)
Definition read_answer (s : list Z) : option (list Z * list (list Z) * list Z) :=
  '(status, r) ← crlf_line s;
  '(headers, body) ← read_headers (length r) r;
  Some (status, headers, body).
Definition header (name : list Z) (headers : list (list Z)) : option (list Z) :=
  drop (length name) <$> List.find (is_prefix name) headers.

(** An answer a client can read: an error without a body, or a body as long as is announced. *)
Definition framed (out : list Z) : Prop :=
  ∃ status headers body, read_answer out = Some (status, headers, body) ∧
    ((status = codes "HTTP/1.1 404 Not Found" ∧ body = []) ∨
     ((status = codes "HTTP/1.1 200 OK" ∨ status = codes "HTTP/1.1 403 Forbidden") ∧ is_Some (header (codes "Content-Type: ") headers) ∧
      header (codes "Content-Length: ") headers ≫= some_digits = Some (Z.of_nat (length body)))).

Lemma crlf_line_plain l r : 13 ∉ l → crlf_line (l ++ crlf ++ r) = Some (l, r).
Proof.
  induction l as [|c l IH]; intros Hl; [done|]. apply not_elem_of_cons in Hl as [Hc Hl]. 
  change ((c :: l) ++ crlf ++ r) with (c :: (l ++ crlf ++ r)). cbn [crlf_line]. rewrite (proj2 (Z.eqb_neq c 13)) by congruence.
  cbn [andb]. by rewrite IH.
Qed.

(** The lines of a head, each ended by CRLF, then the blank line. *)
Definition lines_out (ls : list (list Z)) : list Z := mjoin (map (λ l, l ++ crlf) ls).
Lemma read_headers_lines fuel ls body : Forall (λ l, 13 ∉ l ∧ l ≠ []) ls → (length ls < fuel)%nat →
  read_headers fuel (lines_out ls ++ crlf ++ body) = Some (ls, body).
Proof.
  intros Hls. revert fuel. induction Hls as [|l ls [Hl Hne] _ IH]; intros fuel Hf; (destruct fuel as [|fuel]; [simpl in Hf; lia|]); cbn [read_headers].
  - change (lines_out [] ++ crlf ++ body) with ([] ++ crlf ++ body). by rewrite (crlf_line_plain [] body (not_elem_of_nil _)).
  - change (lines_out (l :: ls)) with ((l ++ crlf) ++ lines_out ls). rewrite <- !app_assoc, crlf_line_plain by done. simpl in Hf.
    cbn [mbind option_bind]. rewrite IH by lia. by destruct l.
Qed.
Lemma lines_out_long ls : (length ls ≤ length (lines_out ls))%nat.
Proof. induction ls as [|l ls IH]; [done|]. change (lines_out (l :: ls)) with ((l ++ crlf) ++ lines_out ls). rewrite !length_app. simpl. lia. Qed.

Lemma read_answer_lines status ls body : 13 ∉ status → Forall (λ l, 13 ∉ l ∧ l ≠ []) ls →
  read_answer (status ++ crlf ++ lines_out ls ++ crlf ++ body) = Some (status, ls, body).
Proof.
  intros Hs Hls. unfold read_answer. rewrite crlf_line_plain by done. cbn [mbind option_bind]. rewrite read_headers_lines; [done|done|].
  rewrite !length_app. pose proof (lines_out_long ls). simpl. lia.
Qed.

(** ** Answers *)

Definition head_lines (content_type : list Z) (cors : bool) (len : Z) : list (list Z) :=
  (codes "Content-Type: " ++ content_type) :: (if cors then [codes "Access-Control-Allow-Origin: *"] else []) ++ [codes "Content-Length: " ++ u64_to_string len].
Lemma head_of_lines status content_type cors len body :
  head_of status content_type cors len ++ body = (codes "HTTP/1.1 " ++ status) ++ crlf ++ lines_out (head_lines content_type cors len) ++ crlf ++ body.
Proof.
  unfold head_of, head_lines, lines_out. destruct cors; cbn [map app mjoin list_join]; change (mjoin (M := list) (A := Z) []) with (@nil Z); rewrite ?app_nil_r, <- !app_assoc; done.
Qed.

Lemma digits_no_cr n : 0 ≤ n ≤ u64_max → 13 ∉ u64_to_string n.
Proof. intros Hn Hin. destruct (u64_to_string_spec n Hn) as [_ Hd]. rewrite Forall_forall in Hd. specialize (Hd 13 Hin). unfold is_digit in Hd. lia. Qed.

Lemma framed_head status content_type cors body : status = OK_200 ∨ status = codes "403 Forbidden" → 13 ∉ content_type →
  Z.of_nat (length body) ≤ u64_max → framed (head_of status content_type cors (Z.of_nat (length body)) ++ body).
Proof.
  intros Hst Hct Hlen. assert (0 ≤ Z.of_nat (length body) ≤ u64_max) as Hn by lia. pose proof (digits_no_cr _ Hn) as Hcr.
  exists (codes "HTTP/1.1 " ++ status), (head_lines content_type cors (Z.of_nat (length body))), body. split.
  - rewrite head_of_lines. apply read_answer_lines; [by destruct Hst as [-> | ->]; apply (bool_decide_unpack _); vm_compute|].
    unfold head_lines. constructor; [|apply Forall_app; split; [destruct cors; [constructor; [|constructor]|constructor]|constructor; [|constructor]]];
      (split; [|done]); rewrite ?elem_of_app; try (intros [Hin|Hin]; [revert Hin|done]); by apply (bool_decide_unpack _); vm_compute.
  - right. split_and!; [by destruct Hst as [-> | ->]; [left|right]|by eexists|].
    transitivity (some_digits (u64_to_string (Z.of_nat (length body)))); [|by apply u64_to_string_spec]. by destruct cors.
Qed.

Lemma framed_not_found : framed NOT_FOUND.
Proof. exists (codes "HTTP/1.1 404 Not Found"), [], []. split; [by vm_compute|]. by left. Qed.

Lemma content_type_no_cr p : 13 ∉ content_type_for_path p.
Proof. unfold content_type_for_path. cbv zeta. repeat case_match; by apply (bool_decide_unpack _); vm_compute. Qed.

(** ** What requests do *)

Section requests.
Context `{!Prometheus, !YamlLib, !JsonLib, !WebLib, !WebLibOk}.

Definition writes_config (env : WebEnv) (mode : HttpMode) : bool := is_instance mode && config_write_allowed env.
(** The counters, the recent blocks and the settings are as before; worker activity may have been cleaned up. *)
Definition kept (s s' : WebState) : Prop :=
  ws_file s' = ws_file s ∧ ws_status s' = ws_status s ∧ ws_server_version s' = ws_server_version s ∧
  pm_registry (ws_prom s') = pm_registry (ws_prom s) ∧ pm_recent (ws_prom s') = pm_recent (ws_prom s) ∧
  pm_start_time (ws_prom s') = pm_start_time (ws_prom s).
Lemma kept_refl s : kept s s.
Proof. done. Qed.
Lemma kept_trans s1 s2 s3 : kept s1 s2 → kept s2 s3 → kept s1 s3.
Proof. unfold kept. intros (?&?&?&?&?&?) (?&?&?&?&?&?). split_and!; congruence. Qed.

Definition fits (out : list Z) : Prop := Z.of_nat (length out) ≤ u64_max.
Definition answers (o : option (list Z)) : Prop := ∀ out, o = Some out → fits out → framed out.
Lemma answers_none : answers None.
Proof. done. Qed.
Lemma answers_not_found : answers (Some NOT_FOUND).
Proof. intros out [= <-] _. apply framed_not_found. Qed.
Lemma answers_head status content_type cors body : status = OK_200 ∨ status = codes "403 Forbidden" → 13 ∉ content_type →
  answers (Some (head_of status content_type cors (Z.of_nat (length body)) ++ body)).
Proof. 
  intros Hs Hc out Ho Hf. assert (out = head_of status content_type cors (Z.of_nat (length body)) ++ body) as -> by congruence.
  apply framed_head; [done|done|]. unfold fits in Hf. rewrite length_app in Hf. lia.
 Qed.
Lemma answers_json status json : status = OK_200 ∨ status = codes "403 Forbidden" → answers (Some (json_answer status json)).
Proof. intros Hs. apply answers_head; [done|]. by apply (bool_decide_unpack _); vm_compute. Qed.

Lemma stats_kept mode ck s : kept s (with_prom (stats_of mode ck (ws_prom s)).2 s).
Proof. unfold stats_of, get_stats_json_filtered. cbv zeta. by destruct (foldl _ _ _). Qed.

(** A request that is answered, unless it is a write of the settings. *)
Lemma request_answered env ck mode request s : writes_config env mode = false →
  ∃ o s', handle_http_request env ck mode request s = Ret (o, s') ∧ kept s s' ∧ answers o.
Proof.
  intros Hw. unfold handle_http_request. cbv zeta. repeat case_match; try (eexists _, _; split; [done|]; split; [done|]);
    auto using answers_none, answers_not_found, answers_json.
  - assert (as_bytes (from_utf8_lossy l) = l) as -> by (eapply encode_text; done). apply answers_head; [by left|]. by apply (bool_decide_unpack _); vm_compute.
  - eexists _, _. split; [done|]. split; [|auto using answers_json]. pose proof (stats_kept mode ck s) as Hk.
    match goal with Heq : stats_of _ _ _ = _ |- _ => by rewrite Heq in Hk end.
  - bool_hyps. unfold writes_config in Hw. match goal with Hi : is_instance mode = true |- _ => rewrite Hi in Hw end. simpl in Hw.
    unfold post_config. rewrite Hw. eexists _, _. split; [done|]. split; [done|]. auto using answers_json.
  - apply answers_head; [by left|apply content_type_no_cr].
Qed.

(** What a connection that is done with was sent: nothing, its whole answer, or as much of it as the peer took. *)
Definition served (c : Connection) (o : option (list Z)) : Prop :=
  match c, o with
  | ReadFails, None => True
  | Sends _ _, None => True
  | Sends _ w, Some sent => ∃ out, answers (Some out) ∧ match w with Taken => sent = out | Broken k => sent = take k out | Stuck _ => False end
  | _, _ => False
  end.
(** Why the loop is where it is: no connection is left, [accept] failed, or the next connection neither
    sends its request nor takes its answer. *)
Definition stopped_by (l : LoopState) (rest : list Connection) : Prop :=
  match l with
  | Accepting => rest = []
  | AcceptFailed => head rest = Some AcceptFails
  | HeldUp sent => (sent = [] ∧ head rest = Some Silent) ∨
                   ∃ bytes k out, head rest = Some (Sends bytes (Stuck k)) ∧ answers (Some out) ∧ sent = take k out
  end.

End requests.

(** ** Static files *)

Lemma is_prefix_app p s : is_prefix p (p ++ s) = true.
Proof. induction p as [|c p IH]; [done|]. simpl. by rewrite Z.eqb_refl. Qed.
Lemma contains_infix a n b : contains_text n (a ++ n ++ b) = true.
Proof.
  unfold contains_text. assert (is_Some (find_text n (a ++ n ++ b))) as [k ->]; [|done]. induction a as [|c a [k IH]].
  - exists O. change ([] ++ n ++ b) with (n ++ b). pose proof (is_prefix_app n b) as Hp. destruct (n ++ b); cbn [find_text]; by rewrite Hp.
  - change ((c :: a) ++ n ++ b) with (c :: (a ++ n ++ b)). cbn [find_text]. rewrite IH. case_match; by eexists.
Qed.
Lemma split_infix sep cur s x : x ∈ split_at sep cur s → ∃ a b, cur ++ s = a ++ x ++ b.
Proof.
  revert cur. induction s as [|c s IH]; intros cur; simpl.
  - intros [-> | []%not_elem_of_nil]%elem_of_cons. exists [], []. by rewrite !app_nil_r.
  - case_bool; [intros [-> |(a & b & Hx)%IH]%elem_of_cons|intros (a & b & Hx)%IH].
    + by exists [], (c :: s).
    + exists (cur ++ c :: a), b. simpl in Hx. by rewrite Hx, <- !app_assoc.
    + exists a, b. by rewrite <- Hx, <- app_assoc.
Qed.

(** The fuel is enough: no match is left. *)
Lemma trim_prefixes_done fuel p s : p ≠ [] → (length s ≤ fuel)%nat → is_prefix p (trim_prefixes fuel p s) = false.
Proof.
  intros Hp. revert s. induction fuel as [|fuel IH]; intros s Hs; cbn [trim_prefixes].
  - destruct s; [|simpl in Hs; lia]. by destruct p.
  - destruct (is_prefix p s) eqn:He; [|done]. apply IH. rewrite length_drop. destruct p; [done|]. simpl. destruct s; [done|]. simpl in *. lia.
Qed.

Lemma trim_once p s : p ≠ [] → is_prefix p s = false → trim_start_matches_text p (p ++ s) = s.
Proof.
  intros Hp Hs. unfold trim_start_matches_text. destruct p as [|c p]; [done|]. simpl length. cbn [trim_prefixes].
  rewrite is_prefix_app, drop_app_length. destruct (length (p ++ s)); [done|]. cbn [trim_prefixes]. by rewrite Hs.
Qed.

Definition static_dir (env : WebEnv) : list Z := path_join (we_manifest_dir env) (codes "static").

(** A file that is served is an embedded one, or lies below the static directory, or else was asked for
    by an absolute path. *)
Lemma static_file_source env url rel bytes : try_read_static_file env url = Some (rel, bytes) →
  we_embedded env rel = Some bytes ∨
  we_fs env (path_join (static_dir env) rel) = Some bytes ∧ codes ".." ∉ split 47 rel ∧
    (is_absolute rel = false ∨ is_absolute rel = true ∧ path_join (static_dir env) rel = rel).
Proof.
  unfold try_read_static_file. destruct (static_name url) as [rel'|]; [|done]. cbn [mbind option_bind].
  destruct (contains_text (codes "..") rel') eqn:Hdots; [done|]. destruct (contains_text [92] rel'); [done|]. simpl orb. cbv iota.
  destruct (we_embedded env rel') as [contents|] eqn:He; [intros [= <- <-]; by left|]. fold (static_dir env).
  destruct (we_fs env (path_join (static_dir env) rel')) as [b|] eqn:Hf; [|done]. intros [= <- <-]. right. split_and!; [done| |].
  - intros (a & b' & Hx)%split_infix. change (rel' = a ++ codes ".." ++ b') in Hx. by rewrite Hx, contains_infix in Hdots.
  - unfold path_join at 1. destruct (is_absolute rel'); [by right|by left].
Qed.

Section exposure.
Context `{!Prometheus, !YamlLib, !JsonLib, !WebLib}.

Lemma words_plain cur w c r : is_whitespace c = true → Forall (λ c, is_whitespace c = false) w → cur ++ w ≠ [] →
  words_from cur (w ++ c :: r) = (cur ++ w) :: words_from [] r.
Proof.
  intros Hc Hw. revert cur. induction Hw as [|d w Hd _ IH]; intros cur Hne; simpl; [rewrite Hc|rewrite Hd, IH; by rewrite <- app_assoc].
  rewrite app_nil_r in *. by destruct cur.
Qed.
Lemma lines_plain cur l r : 10 ∉ l → lines_from cur (l ++ crlf ++ r) = (cur ++ l) :: lines_from [] r.
Proof.
  revert cur. induction l as [|c l IH]; intros cur Hl; simpl.
  - rewrite app_nil_r. unfold strip_cr. rewrite last_snoc. simpl. by rewrite removelast_last.
  - apply not_elem_of_cons in Hl as [Hc Hl]. rewrite (proj2 (Z.eqb_neq c 10)) by congruence. simpl in IH. rewrite IH by done. by rewrite <- app_assoc.
Qed.

Definition get_request (path : list Z) : list Z := codes "GET " ++ path ++ codes " HTTP/1.1" ++ crlf ++ crlf.
Lemma path_of_get path : path ≠ [] → Forall (λ c, is_whitespace c = false) path → path_of (get_request path) = path.
Proof.
  intros Hne Hp. assert (10 ∉ codes "GET " ++ path ++ codes " HTTP/1.1") as Hline.
  { rewrite !elem_of_app. intros [Hi|[Hi|Hi]]; [revert Hi|rewrite Forall_forall in Hp; by specialize (Hp 10 Hi)|revert Hi]; by apply (bool_decide_unpack _); vm_compute. }
  unfold path_of, get_request, read_lines.
  replace (codes "GET " ++ path ++ codes " HTTP/1.1" ++ crlf ++ crlf) with ((codes "GET " ++ path ++ codes " HTTP/1.1") ++ crlf ++ crlf) by by rewrite <- !app_assoc.
  rewrite lines_plain by done. change ([] ++ codes "GET " ++ path ++ codes " HTTP/1.1") with (codes "GET" ++ 32 :: (path ++ 32 :: codes "HTTP/1.1")).
  unfold split_whitespace. rewrite words_plain; [|done|by repeat constructor|done]. rewrite words_plain; done.
Qed.

(** A file that can be read and is not embedded is served when its absolute path follows [/static/]. *)
Lemma absolute_path_served env ck mode path contents s : is_absolute path = true → is_prefix STATIC path = false →
  Forall (λ c, is_whitespace c = false) path → contains_text (codes "..") path = false → contains_text [92] path = false →
  we_embedded env path = None → we_fs env path = Some contents →
  handle_http_request env ck mode (get_request (STATIC ++ path)) s =
    Ret (Some (head_of OK_200 (content_type_for_path path) false (Z.of_nat (length contents)) ++ contents), s).
Proof.
  intros Ha Hs Hw Hd Hb He Hf. destruct path as [|c path]; [done|]. unfold handle_http_request. rewrite path_of_get; [|done|apply Forall_app; split; [by repeat constructor|done]].
  set (p := c :: path) in *. assert (try_read_static_file env (STATIC ++ p) = Some (p, contents)) as ->.
  { assert (static_name (STATIC ++ p) = Some p) as Hn.
    { unfold static_name. rewrite !bool_decide_eq_false_2 by discriminate. rewrite is_prefix_app. f_equal. by apply trim_once. }
    unfold try_read_static_file. rewrite Hn. cbn [mbind option_bind]. rewrite Hd, Hb. simpl orb. cbv iota. rewrite He.
    unfold path_join at 1. rewrite Ha, Hf. done. }
  by destruct mode.
Qed.
End exposure.

(** ** Writing the settings *)

Lemma slice_from_app a b : slice_from (str_len a) (a ++ b) = Ret b.
Proof.
  induction a as [|c a IH]; [by destruct b|]. rewrite str_len_cons. pose proof (char_len_pos c). pose proof (str_len_nonneg a). cbn [app slice_from].
  rewrite (proj2 (Z.eqb_neq _ 0)), (proj2 (Z.ltb_ge _ _)) by lia. replace (char_len c + str_len a - char_len c) with (str_len a) by lia. done.
Qed.
Lemma slice_from_past n s : str_len s < n → slice_from n s = Panic.
Proof.
  revert n. induction s as [|c s IH]; intros n; cbn [slice_from]; [change (str_len []) with 0|rewrite str_len_cons]; intros Hn.
  - by rewrite (proj2 (Z.eqb_neq n 0)) by lia.
  - pose proof (char_len_pos c). pose proof (str_len_nonneg s). rewrite (proj2 (Z.eqb_neq n 0)), (proj2 (Z.ltb_ge _ _)) by lia. apply IH. lia.
Qed.

Section writing.
Context `{!Prometheus, !YamlLib, !YamlLibOk, !JsonLib, !WebLib}.

Lemma post_handled env ck id bind request s : is_prefix (codes "POST /api/config") request = true →
  handle_http_request env ck (Instance id bind) request s = ('(answer, s) ← post_config env request s; Ret (Some answer, s)).
Proof.
  intros Hp. destruct request as [|x request]; [done|]. assert (x = 80) as -> by (apply andb_prop in Hp as [Hx%Z.eqb_eq _]; done).
  unfold handle_http_request. rewrite Hp. done.
Qed.

(** A write without a blank line aborts the process. *)
Lemma post_without_body_panics env ck id bind request s : config_write_allowed env = true → is_prefix (codes "POST /api/config") request = true →
  find_text (crlf ++ crlf) request = None → handle_http_request env ck (Instance id bind) request s = Panic.
Proof.
  intros Hw Hp Hf. rewrite post_handled by done. unfold post_config. rewrite Hw, Hf. cbn [negb]. by rewrite slice_from_past by lia.
Qed.

(** A write that is allowed, with a body of settings whose port is acceptable, is answered; where the
    answer says it succeeded, the file then reads as the settings it held with the given fields changed
    and no others. *)
Theorem settings_written env ck id bind rest body u content c s :
  config_write_allowed env = true → (∀ t file, we_disk env t = (true, file) → file = Some t) →
  let request := codes "POST /api/config" ++ rest ++ crlf ++ crlf ++ body in
  find_text (crlf ++ crlf) request = Some (length (codes "POST /api/config" ++ rest)) →
  ws_file s = Some content → content ≠ [] → from_yaml content = Ok c → settings_ok c →
  json_object body = Some u → port_acceptable u c → (∀ n, get_u64 u "block_wait_time" = Some n → 0 ≤ n ≤ i64_max) →
  ∃ (ok : bool) s', handle_http_request env ck (Instance id bind) request s =
      Ret (Some (json_answer OK_200 (if ok then CONFIG_UPDATED else CONFIG_FAILED)), s') ∧
    (ok = true → ∃ content', ws_file s' = Some content' ∧ from_yaml content' = Ok (update_config u c)).
Proof.
  intros Hw Hdisk request Hfind Hfile Hne Hc Hok Hu Hport Hms. destruct (update_config_from_json (we_disk env) body (ws_file s)) as [ok file] eqn:Hup.
  exists ok, (with_file file s). split.
  - rewrite post_handled by apply is_prefix_app.
    unfold post_config. rewrite Hw, Hfind. cbn [negb].
    assert (request = (take (length (codes "POST /api/config" ++ rest)) request ++ crlf ++ crlf) ++ body) as Hsplit.
    { unfold request. rewrite app_assoc, take_app_length, <- !app_assoc. done. }
    replace (str_len (take (length (codes "POST /api/config" ++ rest)) request) + 4)
      with (str_len (take (length (codes "POST /api/config" ++ rest)) request ++ crlf ++ crlf)) by by rewrite str_len_app.
    rewrite Hsplit at 2. rewrite slice_from_app. cbn [mbind exec_bind]. by rewrite Hup.
  - intros ->. unfold update_config_from_json in Hup. rewrite Hfile, Hu in Hup. destruct (to_yaml (update_config u (settings_to_update (Some content)))) as [t|] eqn:Ht; [|done].
    pose proof (Hdisk t file Hup) as ->. exists t. split; [done|]. eapply (update_reaches_file body u content c (we_disk env) t); try done.
    + unfold update_config_from_json. by rewrite Hu, Ht.
    + intros t' Ht'. by apply Hdisk in Ht' as [= ->].
Qed.
End writing.

(** ** A server *)

Module WebDemo.
#[local] Instance YamlValue_eq_dec : EqDecision YamlValue.
Proof. unfold EqDecision, Decision. repeat decide equality. Defined.
#[local] Instance YInstance_eq_dec : EqDecision YInstance.
Proof. solve_decision. Defined.
#[local] Instance YGlobal_eq_dec : EqDecision YGlobal.
Proof. solve_decision. Defined.
#[local] Instance Yaml_eq_dec : EqDecision Yaml.
Proof. solve_decision. Defined.

Definition old : BridgeConfig := BridgeConfig_default.
Definition change : Updates := λ k, if String.eqb k "stratum_port" then Some (JText (codes " 5556 ")) else if String.eqb k "var_diff" then Some (JBool false) else None.
Definition new : BridgeConfig := update_config change old.
(** A library that knows two documents. *)
#[local] Instance yaml : YamlLib := {
  yaml_read s := if bool_decide (s = codes "old") then Some (yaml_of_config old) else if bool_decide (s = codes "new") then Some (yaml_of_config new) else None;
  yaml_write y := if bool_decide (y = yaml_of_config old) then Some (codes "old") else if bool_decide (y = yaml_of_config new) then Some (codes "new") else None }.
#[local] Instance yaml_ok : YamlLibOk.
Proof. intros y s. unfold yaml_write, yaml_read. simpl. repeat case_bool_decide; intros [= <-]; by subst. Qed.
#[local] Instance json : JsonLib := { json_object s := if bool_decide (s = codes "change") then Some change else None }.
#[local] Instance registry : Prometheus := {
  Registry := unit; registry_new := tt; inc_by _ _ _ r := r; gauge_set _ _ _ r := r; gather _ := [] }.
#[local] Instance web : WebLib := {
  encode_metrics _ := Some (codes "# metrics"); status_json _ := Some (codes "status"); stats_json _ := Some (codes "stats"); fields_json _ := Some (codes "fields") }.
#[local] Instance web_ok : WebLibOk.
Proof. intros fams buf. unfold encode_metrics. simpl. intros [= <-]. by vm_compute. Qed.

Definition env (allow : option (list Z)) : WebEnv := {|
  we_allow_config_write := allow; we_embedded p := if bool_decide (p = codes "index.html") then Some (codes "<html>") else None; we_manifest_dir := codes "/b";
  we_fs p := if bool_decide (p = codes "/b/static/a.css") then Some (codes "css") else if bool_decide (p = codes "/etc/hostname") then Some (codes "pool") else None;
  we_disk s := (true, Some s) |}.
Definition state : WebState := {| ws_prom := Prom_new; ws_server_version := None; ws_status := WebStatusConfig_default; ws_file := Some (codes "old") |}.
Definition clock : Clock := {| ck_now := 0; ck_unix := 0; ck_unix' := 0 |}.
Definition mode : HttpMode := Instance "0" (codes "0.0.0.0:9100").
Definition post : list Z := codes "POST /api/config" ++ codes " HTTP/1.1" ++ crlf ++ crlf ++ codes "change".
Definition connections : list (Clock * Connection) :=
  map (λ r, (clock, r)) [Sends (get_request (codes "/")) Taken; ReadFails; Sends (get_request (codes "/metrics")) Taken; Sends post Taken;
    Sends (get_request (codes "/static/a.css")) Taken; Sends (get_request (codes "/static/../x")) Taken;
    Sends (get_request (codes "/static//etc/hostname")) Taken; Sends (get_request (codes "/")) (Broken 4); Sends (get_request (codes "/")) (Stuck 6); Sends post Taken].
(** The bodies of the answers. *)
Definition bodies (outs : list (option (list Z))) : list (option (list Z)) := map (λ o, o ≫= λ out, snd <$> read_answer out) outs.


(** An error of [accept] ends the server. *)
Example accept_error_ends : serve_http_loop (env None) mode [(clock, AcceptFails); (clock, Sends post Taken)] state = Ret ([], AcceptFailed, state).
Proof. vm_compute. reflexivity. Qed.

Lemma old_ok : settings_ok old.
Proof.
  split; [split_and!; [done| |]| | |]; try done.
  - constructor; [|constructor]. by split.
  - apply NoDup_singleton.
  - exists 1000. split; [done|]. unfold i64_max. lia.
Qed.

Lemma change_ok : port_acceptable change old.
Proof.
  intros t Ht. assert (Some (codes " 5556 ") = Some t) as [= <-] by exact Ht. split; [by vm_compute|]. apply not_elem_of_nil.
Qed.

Lemma settings_written_witness :
  (∃ s, handle_http_request (env (Some (codes "1"))) clock mode post state = Ret (Some (json_answer OK_200 CONFIG_UPDATED), s) ∧ ws_file s = Some (codes "new")) ∧
  ∃ (ok : bool) s, handle_http_request (env (Some (codes "1"))) clock mode post state =
      Ret (Some (json_answer OK_200 (if ok then CONFIG_UPDATED else CONFIG_FAILED)), s) ∧
    (ok = true → ∃ content, ws_file s = Some content ∧ from_yaml content = Ok new).
Proof.
  split; [eexists; split; vm_compute; reflexivity|].
  apply (settings_written (env (Some (codes "1"))) clock "0" (codes "0.0.0.0:9100") (codes " HTTP/1.1") (codes "change") change (codes "old") old state);
    try done; try exact old_ok.
  - by intros t file [= <-].
  - apply change_ok.
Defined.
End WebDemo.
