(* ===== verification/Standalone.v ===== *)
(** * The stand-alone bridge (bridge/src/cli.rs, bridge/src/main.rs)

    The command line with its overrides, the search for the settings file, and
    what [main] starts: the node's arguments, the servers and one stratum server
    per instance.  Reading the arguments is clap's; the file system, the
    directories and what the instances return are arguments.  The Unix build
    without the CPU miner. *)

From S2P Require Import Prelude Float64 Mass Db DupGuard Domain Events Bytes Hasher MiningState Stratum Listener KaspaApi Api RuntimeConfig Replay Server BridgeFile FloatExact Metrics Web.
Local Open Scope Z_scope.

(** ** Instance specifications *)

Definition parse_bool (s : list Z) : option bool :=
  let t := to_ascii_lowercase (trim s) in
  if bool_decide (t ∈ map codes ["true"; "1"; "yes"; "y"; "on"; "enable"; "enabled"]%string) then Some true
  else if bool_decide (t ∈ map codes ["false"; "0"; "no"; "n"; "off"; "disable"; "disabled"]%string) then Some false
  else None.

Inductive SpecError := EmptyPort | BadNumber (key v : list Z) | BadBool (v : list Z) | UnknownKey (k : list Z) | MissingPort | MissingDiff.

Inductive SpecKey := KPort | KProm | KDiff | KWait | KExtranonce | KLog | KVarDiff | KSharesPerMin | KVarDiffStats | KPow2Clamp.
Definition spec_key (k : list Z) : option SpecKey :=
  let any l := bool_decide (to_ascii_lowercase k ∈ map codes l) in
  if any ["port"; "stratum"; "stratum_port"]%string then Some KPort
  else if any ["prom"; "prom_port"]%string then Some KProm
  else if any ["diff"; "min_share_diff"]%string then Some KDiff
  else if any ["wait"; "block_wait_time"]%string then Some KWait
  else if any ["extranonce"; "extranonce_size"]%string then Some KExtranonce
  else if any ["log"; "log_to_file"]%string then Some KLog
  else if any ["var_diff"]%string then Some KVarDiff
  else if any ["shares_per_min"]%string then Some KSharesPerMin
  else if any ["var_diff_stats"]%string then Some KVarDiffStats
  else if any ["pow2_clamp"]%string then Some KPow2Clamp
  else None.

Definition u32_max : Z := 2 ^ 32 - 1.
Definition u8_max : Z := 2 ^ 8 - 1.

(** The instance so far, and whether its port and its difficulty were given. *)
Definition SpecState : Type := InstanceConfig * bool * bool.
Definition spec_start : InstanceConfig :=
  {| ic_stratum_port := []; ic_min_share_diff := 0; ic_prom_port := None; ic_log_to_file := None; ic_block_wait_time := None; ic_extranonce_size := None;
     ic_var_diff := None; ic_shares_per_min := None; ic_var_diff_stats := None; ic_pow2_clamp := None |}.

Definition number (hi : Z) (key v : list Z) : result SpecError Z := of_option (BadNumber key v) (parse_int 0 hi v).
Definition flag (v : list Z) : result SpecError bool := of_option (BadBool v) (parse_bool v).

Definition set_key (k : SpecKey) (key v : list Z) (i : InstanceConfig) : result SpecError InstanceConfig :=
  let mk port diff prom log wait ens vd spm vds clamp :=
    {| ic_stratum_port := port; ic_min_share_diff := diff; ic_prom_port := prom; ic_log_to_file := log; ic_block_wait_time := wait; ic_extranonce_size := ens;
       ic_var_diff := vd; ic_shares_per_min := spm; ic_var_diff_stats := vds; ic_pow2_clamp := clamp |} in
  let '{| ic_stratum_port := port; ic_min_share_diff := diff; ic_prom_port := prom; ic_log_to_file := log; ic_block_wait_time := wait; ic_extranonce_size := ens;
          ic_var_diff := vd; ic_shares_per_min := spm; ic_var_diff_stats := vds; ic_pow2_clamp := clamp |} := i in
  match k with
  | KPort => match normalize_port v with [] => Err EmptyPort | p => Ok (mk p diff prom log wait ens vd spm vds clamp) end
  | KProm => Ok (mk port diff (non_blank (normalize_port v)) log wait ens vd spm vds clamp)
  | KDiff => n ← number u32_max key v; Ok (mk port n prom log wait ens vd spm vds clamp)
  | KWait => n ← number u64_max key v; Ok (mk port diff prom log (Some (from_millis n)) ens vd spm vds clamp)
  | KExtranonce => n ← number u8_max key v; Ok (mk port diff prom log wait (Some n) vd spm vds clamp)
  | KLog => b ← flag v; Ok (mk port diff prom (Some b) wait ens vd spm vds clamp)
  | KVarDiff => b ← flag v; Ok (mk port diff prom log wait ens (Some b) spm vds clamp)
  | KSharesPerMin => n ← number u32_max key v; Ok (mk port diff prom log wait ens vd (Some n) vds clamp)
  | KVarDiffStats => b ← flag v; Ok (mk port diff prom log wait ens vd spm (Some b) clamp)
  | KPow2Clamp => b ← flag v; Ok (mk port diff prom log wait ens vd spm vds (Some b))
  end.

Definition spec_part (st : SpecState) (raw_part : list Z) : result SpecError SpecState :=
  match trim raw_part with
  | [] => Ok st
  | part =>
      let '(k, v) := match split_once 61 part with Some (k, v) => (trim k, trim v) | None => (codes "port", part) end in
      match spec_key k with
      | None => Err (UnknownKey k)
      | Some key =>
          let '(i, has_port, has_diff) := st in
          i ← set_key key k v i;
          Ok (i, match key with KPort => true | _ => has_port end, match key with KDiff => true | _ => has_diff end)
      end
  end.
Fixpoint spec_parts (st : SpecState) (parts : list (list Z)) : result SpecError SpecState :=
  match parts with [] => Ok st | p :: parts => st ← spec_part st p; spec_parts st parts end.

Definition with_diff (d : Z) (i : InstanceConfig) : InstanceConfig :=
  {| ic_stratum_port := ic_stratum_port i; ic_min_share_diff := d; ic_prom_port := ic_prom_port i; ic_log_to_file := ic_log_to_file i;
     ic_block_wait_time := ic_block_wait_time i; ic_extranonce_size := ic_extranonce_size i; ic_var_diff := ic_var_diff i;
     ic_shares_per_min := ic_shares_per_min i; ic_var_diff_stats := ic_var_diff_stats i; ic_pow2_clamp := ic_pow2_clamp i |}.
Definition parse_instance_spec (spec : list Z) (default_min_share_diff : option Z) : result SpecError InstanceConfig :=
  '(i, has_port, has_diff) ← spec_parts (spec_start, false, false) (split 44 spec);
  if negb (has_port : bool) then Err MissingPort
  else if (has_diff : bool) then Ok i
  else match default_min_share_diff with Some d => Ok (with_diff d i) | None => Err MissingDiff end.

(** ** The command line *)

Inductive NodeMode := External | Inprocess.
Record Cli := {
  cl_config : option (list Z); cl_testnet : bool; cl_node_mode : option NodeMode; cl_appdir : option (list Z); cl_kaspad_args : list (list Z);
  cl_kaspad_address : option (list Z); cl_block_wait_time : option Z; cl_print_stats : option bool; cl_log_to_file : option bool;
  cl_health_check_port : option (list Z); cl_web_dashboard_port : option (list Z); cl_var_diff : option bool; cl_shares_per_min : option Z;
  cl_var_diff_stats : option bool; cl_extranonce_size : option Z; cl_pow2_clamp : option bool; cl_coinbase_tag_suffix : option (list Z);
  cl_stratum_port : option (list Z); cl_min_share_diff : option Z; cl_prom_port : option (list Z); cl_instances : list (list Z);
  cl_instance_log_to_file : option bool; cl_instance_var_diff : option bool; cl_instance_shares_per_min : option Z;
  cl_instance_var_diff_stats : option bool; cl_instance_pow2_clamp : option bool }.

Definition block_wait_duration (cli : Cli) : option Z := from_millis <$> cl_block_wait_time cli.

Inductive CliError := MixedFlags | BadSpec (e : SpecError) | DuplicatePort (port : list Z) | SeveralInstances.

Definition given {A} (o : option A) : bool := match o with Some _ => true | None => false end.
Definition override_global (cli : Cli) (g : GlobalConfig) : GlobalConfig :=
  {| gc_kaspad_address := default (gc_kaspad_address g) (cl_kaspad_address cli); gc_block_wait_time := default (gc_block_wait_time g) (block_wait_duration cli);
     gc_print_stats := default (gc_print_stats g) (cl_print_stats cli); gc_log_to_file := default (gc_log_to_file g) (cl_log_to_file cli);
     gc_health_check_port := default (gc_health_check_port g) (cl_health_check_port cli);
     gc_web_dashboard_port := default (gc_web_dashboard_port g) (normalize_port <$> cl_web_dashboard_port cli);
     gc_var_diff := default (gc_var_diff g) (cl_var_diff cli); gc_shares_per_min := default (gc_shares_per_min g) (cl_shares_per_min cli);
     gc_var_diff_stats := default (gc_var_diff_stats g) (cl_var_diff_stats cli); gc_extranonce_size := default (gc_extranonce_size g) (cl_extranonce_size cli);
     gc_pow2_clamp := default (gc_pow2_clamp g) (cl_pow2_clamp cli);
     gc_coinbase_tag_suffix := match cl_coinbase_tag_suffix cli with Some s => non_blank (trim s) | None => gc_coinbase_tag_suffix g end |}.

Definition or_else {A} (a b : option A) : option A := match a with Some x => Some x | None => b end.
Definition override_instance (cli : Cli) (i : InstanceConfig) : InstanceConfig :=
  {| ic_stratum_port := default (ic_stratum_port i) (normalize_port <$> cl_stratum_port cli); ic_min_share_diff := default (ic_min_share_diff i) (cl_min_share_diff cli);
     ic_prom_port := or_else (normalize_port <$> cl_prom_port cli) (ic_prom_port i); ic_log_to_file := or_else (cl_instance_log_to_file cli) (ic_log_to_file i);
     ic_block_wait_time := ic_block_wait_time i; ic_extranonce_size := ic_extranonce_size i; ic_var_diff := or_else (cl_instance_var_diff cli) (ic_var_diff i);
     ic_shares_per_min := or_else (cl_instance_shares_per_min cli) (ic_shares_per_min i);
     ic_var_diff_stats := or_else (cl_instance_var_diff_stats cli) (ic_var_diff_stats i); ic_pow2_clamp := or_else (cl_instance_pow2_clamp cli) (ic_pow2_clamp i) |}.

Fixpoint parse_specs (default_diff : option Z) (specs : list (list Z)) : result CliError (list InstanceConfig) :=
  match specs with
  | [] => Ok []
  | s :: specs =>
      match parse_instance_spec s default_diff with
      | Err e => Err (BadSpec e)
      | Ok i => l ← parse_specs default_diff specs; Ok (i :: l)
      end
  end.

Definition instance_flags (cli : Cli) : bool :=
  given (cl_stratum_port cli) || given (cl_prom_port cli) || given (cl_instance_log_to_file cli) || given (cl_instance_var_diff cli) ||
  given (cl_instance_shares_per_min cli) || given (cl_instance_var_diff_stats cli) || given (cl_instance_pow2_clamp cli).

Definition apply_cli_overrides (c : BridgeConfig) (cli : Cli) : result CliError BridgeConfig :=
  let g := override_global cli (bc_global c) in
  match cl_instances cli with
  | [] =>
      if (instance_flags cli || given (cl_min_share_diff cli)) && negb (bool_decide (length (bc_instances c) = 1%nat)) then Err SeveralInstances
      else Ok {| bc_global := g; bc_instances := match bc_instances c with [i] => [override_instance cli i] | l => l end |}
  | specs =>
      if instance_flags cli then Err MixedFlags
      else
        instances ← parse_specs (cl_min_share_diff cli) specs;
        match duplicate_port [] instances with
        | Some port => Err (DuplicatePort port)
        | None => Ok {| bc_global := g; bc_instances := instances |}
        end
  end.

(** ** Starting *)

Definition bridge_app_dir (home : option (list Z)) : list Z := path_join (default (codes ".") home) (codes ".kaspa-stratum-bridge").
Definition default_inprocess_kaspad_appdir (home : option (list Z)) : list Z := path_join (bridge_app_dir home) (codes "kaspad").

Inductive StartError := UnreadableFile (path : list Z) | BadFile (path : list Z) (e : SettingsError) | BadCli (e : CliError) | NodeFailed.

(** A path that does not exist, or what reading it gives. *)
Definition Files : Type := list Z → option (option (list Z)).
(** The directory of the executable, and the one two levels above it. *)
Definition ExeDirs : Type := option (list Z) * option (list Z).

Definition config_candidates (exe : ExeDirs) (config_path : list Z) : list (list Z) :=
  [config_path; path_join (codes "bridge") config_path] ++
  (if is_absolute config_path then []
   else match exe.1 with Some base => [path_join base config_path] | None => [] end ++
        match exe.2 with Some root => [path_join root config_path; path_join (path_join root (codes "bridge")) config_path] | None => [] end).

Section start.
Context `{!YamlLib}.

(** The first file that exists has to be readable and valid. *)
Fixpoint load_first (fs : Files) (paths : list (list Z)) : result StartError (option (list Z * BridgeConfig)) :=
  match paths with
  | [] => Ok None
  | path :: paths =>
      match fs path with
      | None => load_first fs paths
      | Some None => Err (UnreadableFile path)
      | Some (Some content) => match from_yaml content with Ok c => Ok (Some (path, c)) | Err e => Err (BadFile path e) end
      end
  end.
Definition initialize_config (fs : Files) (exe : ExeDirs) (config_path : list Z) : result StartError (option (list Z) * BridgeConfig) :=
  found ← load_first fs (config_candidates exe config_path);
  Ok (match found with Some (path, c) => (Some path, c) | None => (None, BridgeConfig_default) end).

(** The arguments of the embedded node; giving its directory twice is an assertion failure. *)
Definition node_args (home : option (list Z)) (cli : Cli) : exec (list (list Z)) :=
  let args := cl_kaspad_args cli in
  let args := if cl_testnet cli && negb (bool_decide (codes "--testnet" ∈ args)) then args ++ [codes "--testnet"] else args in
  if negb (existsb (is_prefix (codes "--appdir")) args) then
    Ret (args ++ [codes "--appdir"; default (default_inprocess_kaspad_appdir home) (cl_appdir cli)])
  else if given (cl_appdir cli) then Panic else Ret args.

(** What an instance's server is started with; the first one drives the templates. *)
Record InstanceLaunch := {
  il_id : list Z; il_stratum_port : list Z; il_prom_server : option (list Z); il_kaspad_address : list Z; il_print_stats : bool; il_log_to_file : bool;
  il_block_wait_time : Z; il_min_share_diff : Z; il_var_diff : bool; il_shares_per_min : Z; il_var_diff_stats : bool; il_extranonce_size : Z;
  il_pow2_clamp : bool; il_coinbase_tag_suffix : option (list Z); il_drives_templates : bool }.
Definition format_instance_id (n : Z) : list Z := codes "[Instance " ++ u64_to_string n ++ codes "]".
Definition launch_instance (g : GlobalConfig) (idx : nat) (i : InstanceConfig) : InstanceLaunch :=
  {| il_id := format_instance_id (Z.of_nat idx + 1); il_stratum_port := ic_stratum_port i; il_prom_server := ic_prom_port i;
     il_kaspad_address := gc_kaspad_address g; il_print_stats := gc_print_stats g; il_log_to_file := default (gc_log_to_file g) (ic_log_to_file i);
     il_block_wait_time := default (gc_block_wait_time g) (ic_block_wait_time i); il_min_share_diff := ic_min_share_diff i;
     il_var_diff := default (gc_var_diff g) (ic_var_diff i); il_shares_per_min := default (gc_shares_per_min g) (ic_shares_per_min i);
     il_var_diff_stats := default (gc_var_diff_stats g) (ic_var_diff_stats i); il_extranonce_size := default (gc_extranonce_size g) (ic_extranonce_size i);
     il_pow2_clamp := default (gc_pow2_clamp g) (ic_pow2_clamp i); il_coinbase_tag_suffix := gc_coinbase_tag_suffix g;
     il_drives_templates := bool_decide (idx = 0%nat) |}.

Record Launch := {
  la_status : WebStatusConfig; la_config_path : list Z; la_node_args : option (list (list Z)); la_health_check : option (list Z);
  la_dashboard : option (list Z); la_instances : list InstanceLaunch }.

(** [main] up to the point where every instance runs; [node] tells whether the node starts, answers and syncs. *)
Definition standalone_main (fs : Files) (exe : ExeDirs) (home : option (list Z)) (node : bool) (cli : Cli) : exec (result StartError Launch) :=
  let requested_config := default (codes "config.yaml") (cl_config cli) in
  match initialize_config fs exe requested_config with
  | Err e => Ret (Err e)
  | Ok (loaded_from, config) =>
      match apply_cli_overrides config cli with
      | Err e => Ret (Err (BadCli e))
      | Ok config =>
          args ← match default Inprocess (cl_node_mode cli) with Inprocess => args ← node_args home cli; Ret (Some args) | External => Ret None end;
          let g := bc_global config in
          Ret (if negb node then Err NodeFailed
               else Ok {| la_status := set_web_status_config (gc_kaspad_address g) (Z.of_nat (length (bc_instances config)));
                          la_config_path := default requested_config loaded_from; la_node_args := args; la_health_check := non_blank (gc_health_check_port g);
                          la_dashboard := non_blank (gc_web_dashboard_port g); la_instances := imap (launch_instance g) (bc_instances config) |})
      end
  end.
End start.

(** ** Ending *)

(** How an instance's task ended: the task returns the server's result. *)
Inductive TaskEnd := Returned (r : result (list Z) unit) | TaskPanicked.
(** [try_join_all] over the handles looks at the join errors only. *)
Definition join_instances (ends : list TaskEnd) : bool := forallb (λ e, match e with Returned _ => true | TaskPanicked => false end) ends.

Inductive DrainEnd := BridgeDone | SecondCtrlC | DrainElapsed.
(** The exit code: [ended] is the bridge's own result when it ends before an interrupt, [drain] what
    ends the wait after one.  Only the forced exit leaves the embedded node running. *)
Definition exit_code (ended : option bool) (drain : DrainEnd) : Z :=
  match ended with
  | Some ok => if ok then 0 else 1
  | None => match drain with SecondCtrlC => 130 | _ => 0 end
  end.

(** ** Ports *)

Definition ports_ok (l : list InstanceConfig) : Prop := Forall (λ i, normal_port (ic_stratum_port i)) l ∧ NoDup (map ic_stratum_port l).

Lemma set_key_port k key v i i' : set_key k key v i = Ok i' →
  match k with KPort => normal_port (ic_stratum_port i') | _ => ic_stratum_port i' = ic_stratum_port i end.
Proof.
  destruct i. destruct k; simpl; try (destruct (number _ key v); [|done]); try (destruct (flag v); [|done]); simpl; try by intros [= <-].
  destruct (normalize_port v) eqn:Hv; [done|]. intros [= <-]. simpl. rewrite <- Hv. split; [apply normalize_port_idem|congruence].
Qed.

Lemma spec_part_port i hp hd raw i' hp' hd' : spec_part (i, hp, hd) raw = Ok (i', hp', hd') →
  (hp = true → normal_port (ic_stratum_port i)) → hp' = true → normal_port (ic_stratum_port i').
Proof.
  unfold spec_part. destruct (trim raw) as [|c part]; [by intros [= <- <- <-]|]. destruct (match split_once 61 _ with Some _ => _ | None => _ end) as [k v].
  destruct (spec_key k) as [key|]; [|done]. destruct (set_key key k v i) as [i1|] eqn:Hs; [|done]. cbn [mbind result_bind]. intros [= <- <- <-] Hp Ht.
  apply set_key_port in Hs. destruct key; try done; rewrite Hs; auto.
Qed.
Lemma spec_parts_port parts st st' : spec_parts st parts = Ok st' → (st.1.2 = true → normal_port (ic_stratum_port st.1.1)) →
  st'.1.2 = true → normal_port (ic_stratum_port st'.1.1).
Proof.
  revert st. induction parts as [|p parts IH]; intros st; cbn [spec_parts]; [by intros [= <-]|]. intros (st1 & H1 & H2)%result_bind_Ok Hp.
  apply (IH st1 H2). destruct st as [[i hp] hd], st1 as [[i1 hp1] hd1]. by apply (spec_part_port _ _ _ _ _ _ _ H1).
Qed.
Lemma parse_instance_spec_port spec d i : parse_instance_spec spec d = Ok i → normal_port (ic_stratum_port i).
Proof.
  unfold parse_instance_spec. intros ([[i1 hp] hd] & Hs & Hi)%result_bind_Ok. pose proof (spec_parts_port _ _ _ Hs) as Hp. simpl in Hp.
  destruct hp; [|done]. simpl in Hi. assert (normal_port (ic_stratum_port i1)) as Hn by by apply Hp. destruct hd; [by injection Hi as <-|].
  destruct d as [d|]; [|done]. by injection Hi as <-.
Qed.
Lemma parse_specs_ports d specs l : parse_specs d specs = Ok l → Forall (λ i, normal_port (ic_stratum_port i)) l ∧ length l = length specs.
Proof.
  revert l. induction specs as [|s specs IH]; intros l; cbn [parse_specs]; [by intros [= <-]|]. destruct (parse_instance_spec s d) as [i|e] eqn:Hi; [|done].
  intros (l1 & Hl & [= <-])%result_bind_Ok. destruct (IH l1 Hl) as [Hf Hn]. split; [|simpl; by rewrite Hn].
  constructor; [by apply parse_instance_spec_port in Hi|done].
Qed.

(** The port of the single instance, where one is given on the command line. *)
Definition port_given (cli : Cli) : Prop := ∀ p, cl_stratum_port cli = Some p → normalize_port p ≠ [].

Lemma overrides_ports c cli c' : apply_cli_overrides c cli = Ok c' → bc_instances c ≠ [] → ports_ok (bc_instances c) → port_given cli →
  bc_instances c' ≠ [] ∧ ports_ok (bc_instances c').
Proof.
  unfold apply_cli_overrides. intros Hc Hne [Hn Hd] Hp. destruct (cl_instances cli) as [|s specs].
  - case_match; [done|]. injection Hc as <-. simpl. destruct (bc_instances c) as [|i [|j l]]; [done| |done]. split; [done|]. split; [|apply NoDup_singleton].
    constructor; [|constructor]. apply Forall_inv in Hn. simpl. destruct (cl_stratum_port cli) as [p|] eqn:Hs; [|done].
    split; [apply normalize_port_idem|by apply Hp].
  - case_match; [done|]. apply result_bind_Ok in Hc as (l & Hl & Hc). destruct (duplicate_port [] l) eqn:Hdup; [done|]. injection Hc as <-.
    apply duplicate_port_none in Hdup as [Hnd _]. destruct (parse_specs_ports _ _ _ Hl) as [Hf Hlen]. simpl. split; [by destruct l|done].
Qed.

Lemma overrides_global c cli c' : apply_cli_overrides c cli = Ok c' → bc_global c' = override_global cli (bc_global c).
Proof.
  unfold apply_cli_overrides. destruct (cl_instances cli); case_match; [done|by intros [= <-]|done|]. intros (l' & _ & Hc)%result_bind_Ok.
  destruct (duplicate_port [] l'); [done|]. by injection Hc as <-.
Qed.

Lemma instance_id_inj a b : 0 ≤ a ≤ u64_max → 0 ≤ b ≤ u64_max → format_instance_id a = format_instance_id b → a = b.
Proof.
  intros Ha Hb He. unfold format_instance_id in He. apply app_inv_head, app_inv_tail in He.
  destruct (u64_to_string_spec a Ha) as [Hva _], (u64_to_string_spec b Hb) as [Hvb _]. rewrite He in Hva. congruence.
Qed.

Lemma launch_ports g l : map il_stratum_port (imap (launch_instance g) l) = map ic_stratum_port l.
Proof.
  apply (list_eq_same_length _ _ (length l)); [by rewrite length_map|by rewrite length_map, length_imap|]. intros k x y _.
  rewrite !list_lookup_fmap, list_lookup_imap. destruct (l !! k); [|done]. simpl. congruence.
Qed.

Section launch.
Context `{!YamlLib}.

Lemma load_first_ok fs paths path c : load_first fs paths = Ok (Some (path, c)) → ∃ content, fs path = Some (Some content) ∧ from_yaml content = Ok c.
Proof.
  induction paths as [|p paths IH]; cbn [load_first]; [done|]. destruct (fs p) as [[content|]|] eqn:Hf; [|done|done].
  destruct (from_yaml content) as [c'|] eqn:Hc; [|done]. intros [= <- <-]. by exists content.
Qed.
Lemma initialize_config_ports fs exe path from c : initialize_config fs exe path = Ok (from, c) → bc_instances c ≠ [] ∧ ports_ok (bc_instances c).
Proof.
  unfold initialize_config. intros ([[p c']|] & Hl & [= <- <-])%result_bind_Ok.
  - destruct (load_first_ok _ _ _ _ Hl) as (content & _ & (Hne & Hf & Hd)%loaded_ports). split; [done|]. split; [|done]. by eapply Forall_impl; [exact Hf|intros i []].
  - split; [done|]. split; [|apply NoDup_singleton]. constructor; [|constructor]. by split.
Qed.

(** When the stand-alone bridge starts and the port on its command line, if any, is not blank, it starts
    at least one instance, every instance on a port in normal form that no other one has and under an id
    of its own, and exactly the first drives the templates; a node address on the command line is the one
    every instance uses, and a difficulty without instance specifications is the one of the only instance. *)
Lemma standalone_starts fs exe home node cli la : standalone_main fs exe home node cli = Ret (Ok la) → port_given cli →
  Z.of_nat (length (la_instances la)) ≤ u64_max →
  la_instances la ≠ [] ∧ Forall (λ l, normal_port (il_stratum_port l)) (la_instances la) ∧ NoDup (map il_stratum_port (la_instances la)) ∧
  NoDup (map il_id (la_instances la)) ∧ (∀ k l, la_instances la !! k = Some l → il_drives_templates l = bool_decide (k = 0%nat)) ∧
  (∀ a, cl_kaspad_address cli = Some a → Forall (λ l, il_kaspad_address l = a) (la_instances la)) ∧
  (∀ d, cl_instances cli = [] → cl_min_share_diff cli = Some d → ∃ l, la_instances la = [l] ∧ il_min_share_diff l = d).
Proof.
  unfold standalone_main. destruct (initialize_config fs exe _) as [[from c]|] eqn:Hi; [|done]. destruct (apply_cli_overrides c cli) as [c'|] eqn:Hc; [|done].
  intros Hm Hp Hlen. apply exec_bind_Ret in Hm as (args & _ & Hm). destruct node; [|done]. injection Hm as <-. cbn [la_instances negb] in *.
  destruct (initialize_config_ports _ _ _ _ _ Hi) as [Hne0 Hp0]. destruct (overrides_ports _ _ _ Hc Hne0 Hp0 Hp) as [Hne [Hn Hd]].
  set (g := bc_global c') in *. set (l := bc_instances c') in *. rewrite length_imap in Hlen.
  assert (map il_stratum_port (imap (launch_instance g) l) = map ic_stratum_port l) as Hports by apply launch_ports.
  split_and!.
  - intros He%(f_equal length). rewrite length_imap in He. by destruct l.
  - apply Forall_lookup. intros k x. rewrite list_lookup_imap. destruct (l !! k) as [i|] eqn:Hk; [|done]. intros [= <-]. by apply (Forall_lookup_1 _ _ _ _ Hn Hk).
  - by rewrite Hports.
  - apply NoDup_alt. intros j k x. rewrite !list_lookup_fmap, !list_lookup_imap. intros Hj Hk.
    destruct (l !! j) as [i|] eqn:Hlj; [|done]. destruct (l !! k) as [i'|] eqn:Hlk; [|done]. apply lookup_lt_Some in Hlj, Hlk. simpl in Hj, Hk.
    assert (format_instance_id (Z.of_nat j + 1) = format_instance_id (Z.of_nat k + 1)) as He by congruence. apply instance_id_inj in He; lia.
  - intros k x. rewrite list_lookup_imap. destruct (l !! k); [|done]. by intros [= <-].
  - intros a Ha. apply Forall_lookup. intros k x. rewrite list_lookup_imap. destruct (l !! k); [|done]. intros [= <-]. simpl.
    unfold g. by rewrite (overrides_global _ _ _ Hc); simpl; rewrite Ha.
  - intros d Hnone Hdiff. unfold apply_cli_overrides in Hc. rewrite Hnone, Hdiff in Hc. cbn [given] in Hc. rewrite orb_true_r in Hc. simpl andb in Hc.
    destruct (bc_instances c) as [|i [|j l0]] eqn:Hci; [done| |]; simpl in Hc; [|discriminate Hc].
    injection Hc as <-. eexists. split; [done|]. simpl. by rewrite Hdiff.
Qed.
End launch.

(** ** Specifications round trip *)

Definition key_part (k : string) (v : list Z) : list Z := codes k ++ 61 :: v.
Definition opt_part {A} (k : string) (show : A → list Z) (o : option A) : list (list Z) := match o with Some a => [key_part k (show a)] | None => [] end.
Definition show_bool (b : bool) : list Z := if b then codes "true" else codes "false".
(** The parts of a specification that gives every setting of an instance. *)
Definition spec_parts_of (i : InstanceConfig) : list (list Z) :=
  key_part "port" (ic_stratum_port i) :: key_part "diff" (u64_to_string (ic_min_share_diff i)) ::
  opt_part "prom" id (ic_prom_port i) ++ opt_part "wait" (λ d, u64_to_string (as_millis_u64 d)) (ic_block_wait_time i) ++
  opt_part "extranonce" u64_to_string (ic_extranonce_size i) ++ opt_part "log" show_bool (ic_log_to_file i) ++ opt_part "var_diff" show_bool (ic_var_diff i) ++
  opt_part "shares_per_min" u64_to_string (ic_shares_per_min i) ++ opt_part "var_diff_stats" show_bool (ic_var_diff_stats i) ++
  opt_part "pow2_clamp" show_bool (ic_pow2_clamp i).
Fixpoint join_text (sep : Z) (l : list (list Z)) : list Z :=
  match l with [] => [] | [x] => x | x :: l => x ++ sep :: join_text sep l end.
Definition spec_of (i : InstanceConfig) : list Z := join_text 44 (spec_parts_of i).

Lemma split_join sep l : l ≠ [] → Forall (λ x, sep ∉ x) l → split sep (join_text sep l) = l.
Proof.
  intros Hne Hl. unfold split. induction Hl as [|x l Hx Hl IH]; [done|]. destruct l as [|y l]; cbn [join_text]; [by rewrite split_plain|].
  rewrite split_sep by done. simpl app. f_equal. by apply IH.
Qed.
Lemma split_once_plain sep k v : sep ∉ k → split_once sep (k ++ sep :: v) = Some (k, v).
Proof.
  induction k as [|c k IH]; simpl; [by rewrite Z.eqb_refl|]. intros [Hc Hk]%not_elem_of_cons. rewrite (proj2 (Z.eqb_neq c sep)) by congruence.
  by rewrite IH.
Qed.

(** Text without white space at its ends. *)
Definition trimmed (s : list Z) : Prop := trim s = s.
Lemma trimmed_last s : trimmed s → s ≠ [] → ∃ x l, rev s = x :: l ∧ is_whitespace x = false.
Proof.
  unfold trimmed, trim. intros Ht Hne. destruct (trim_start_shape (rev (trim_start s))) as (_ & _ & Hh). apply (f_equal (@rev Z)) in Ht.
  rewrite rev_involutive in Ht. rewrite Ht in Hh. destruct (rev s) as [|x l] eqn:Hr; [|by eexists _, _]. by apply (f_equal (@rev Z)) in Hr; rewrite rev_involutive in Hr.
Qed.
Lemma trim_after c u v : is_whitespace c = false → trimmed v → v ≠ [] → trim (c :: u ++ v) = c :: u ++ v.
Proof.
  intros Hc Hv Hne. destruct (trimmed_last v Hv Hne) as (x & l & Hr & Hx). unfold trim. cbn [trim_start]. rewrite Hc.
  assert (rev (c :: u ++ v) = x :: (l ++ rev (c :: u))) as Hrev by (change (c :: u ++ v) with ((c :: u) ++ v); by rewrite rev_app_distr, Hr).
  rewrite Hrev. cbn [trim_start]. by rewrite Hx, <- Hrev, rev_involutive.
Qed.

Lemma spec_part_key k key v i hp hd i' : match codes k with [] => False | c :: _ => is_whitespace c = false end → 61 ∉ codes k → trimmed (codes k) →
  trimmed v → v ≠ [] → spec_key (codes k) = Some key → set_key key (codes k) v i = Ok i' →
  spec_part (i, hp, hd) (key_part k v) = Ok (i', match key with KPort => true | _ => hp end, match key with KDiff => true | _ => hd end).
Proof.
  intros Hk H61 Htk Htv Hne Hkey Hset. assert (trim (key_part k v) = key_part k v) as Ht.
  { unfold key_part. destruct (codes k) as [|c u]; [done|]. change ((c :: u) ++ 61 :: v) with (c :: (u ++ [61] ++ v)). by rewrite (app_assoc u), trim_after. }
  pose proof (split_once_plain 61 (codes k) v H61) as Hs. fold (key_part k v) in Hs.
  unfold spec_part. rewrite Ht. destruct (key_part k v); [done|]. by rewrite Hs, Htk, Htv, Hkey, Hset.
Qed.

Lemma normal_trimmed p : normal_port p → trimmed p.
Proof.
  intros [Hn _]. unfold trimmed. unfold normalize_port in Hn. pose proof (trim_trim p) as Ht. destruct (trim p) as [|c r] eqn:Hp; [done|].
  destruct (Z.eqb_spec c 58) as [-> |Hc]; [done|]. destruct (forallb is_decimal (c :: r)) eqn:Hd; [|done]. exfalso. rewrite <- Hn in Hp.
  rewrite trim_solid in Hp; [congruence|]. constructor; [done|]. apply Forall_forall. intros x Hx. apply list_elem_of_In in Hx.
  pose proof (proj1 (List.forallb_forall _ _) Hd x Hx) as Hdx. unfold is_decimal, between in Hdx. bool_hyps. unfold is_whitespace, between. repeat (apply orb_false_intro); lia.
Qed.

Lemma digits_solid n : 0 ≤ n ≤ u64_max → trimmed (u64_to_string n) ∧ u64_to_string n ≠ [].
Proof.
  intros Hn. destruct (u64_to_string_spec n Hn) as [Hv Hd]. split; [|by intros He; rewrite He in Hv]. apply trim_solid.
  eapply Forall_impl; [exact Hd|]. intros c Hc. unfold is_digit in Hc. unfold is_whitespace, between. repeat (apply orb_false_intro); lia.
Qed.
Lemma number_printed hi key n : 0 ≤ n ≤ hi → hi ≤ u64_max → number hi key (u64_to_string n) = Ok n.
Proof.
  intros Hn Hhi. destruct (u64_to_string_spec n) as [Hv Hd]; [lia|]. unfold number, parse_int.
  assert (match u64_to_string n with 43 :: r => some_digits r | 45 :: r => if 0 <? 0 then Z.opp <$> some_digits r else None | _ => some_digits (u64_to_string n) end = Some n) as ->.
  { destruct (u64_to_string n) as [|c r]; [done|]. apply Forall_inv in Hd. unfold is_digit in Hd. repeat case_match; lia || done. }
  cbn [mbind option_bind]. by rewrite (proj2 (Z.leb_le 0 n)), (proj2 (Z.leb_le n hi)) by lia.
Qed.
Lemma flag_printed b : flag (show_bool b) = Ok b.
Proof. by destruct b; vm_compute. Qed.
Lemma flag_solid b : trimmed (show_bool b) ∧ show_bool b ≠ [].
Proof. destruct b; split; by vm_compute. Qed.

Definition key_ok (k : string) (key : SpecKey) : Prop :=
  match codes k with [] => False | c :: _ => is_whitespace c = false end ∧ 61 ∉ codes k ∧ trimmed (codes k) ∧ spec_key (codes k) = Some key.
Ltac solve_key := split_and!; try (by vm_compute); by apply (bool_decide_unpack _); vm_compute.

Lemma spec_opt {A} k key (show : A → list Z) (F : option A → InstanceConfig) o rest : key_ok k key →
  (∀ a, o = Some a → (trimmed (show a) ∧ show a ≠ []) ∧ set_key key (codes k) (show a) (F None) = Ok (F (Some a))) →
  spec_parts (F None, true, true) (opt_part k show o ++ rest) = spec_parts (F o, true, true) rest.
Proof.
  intros (Hk & H61 & Htk & Hkey) Ho. destruct o as [a|]; [|done]. destruct (Ho a eq_refl) as ([Htv Hne] & Hset). cbn [opt_part app spec_parts].
  rewrite (spec_part_key k key (show a) _ _ _ (F (Some a))) by done. by destruct key.
Qed.

(** An instance whose numbers have their width and whose ports have no comma. *)
Record spec_ok (i : InstanceConfig) : Prop := {
  sp_ok : instance_ok i;
  sp_diff : 0 ≤ ic_min_share_diff i ≤ u32_max;
  sp_extranonce : ∀ n, ic_extranonce_size i = Some n → 0 ≤ n ≤ u8_max;
  sp_spm : ∀ n, ic_shares_per_min i = Some n → 0 ≤ n ≤ u32_max;
  sp_comma : 44 ∉ ic_stratum_port i ∧ ∀ p, ic_prom_port i = Some p → 44 ∉ p }.

Lemma digits_no_comma n : 0 ≤ n ≤ u64_max → 44 ∉ u64_to_string n.
Proof. intros Hn Hin. destruct (u64_to_string_spec n Hn) as [_ Hd]. rewrite Forall_forall in Hd. specialize (Hd 44 Hin). unfold is_digit in Hd. lia. Qed.
Lemma key_part_no_comma k v : 44 ∉ codes k → 44 ∉ v → 44 ∉ key_part k v.
Proof. intros Hk Hv. unfold key_part. rewrite elem_of_app, elem_of_cons. intros [?|[?|?]]; [done|lia|done]. Qed.
Lemma opt_no_comma {A} k (show : A → list Z) o : 44 ∉ codes k → (∀ a, o = Some a → 44 ∉ show a) → Forall (λ x, 44 ∉ x) (opt_part k show o).
Proof. intros Hk Ho. destruct o as [a|]; [|constructor]. constructor; [|constructor]. apply key_part_no_comma; auto. Qed.
Lemma show_bool_no_comma b : 44 ∉ show_bool b.
Proof. destruct b; by apply (bool_decide_unpack _); vm_compute. Qed.

Lemma millis_range d : whole_millis d → 0 ≤ as_millis_u64 d ≤ i64_max ∧ from_millis (as_millis_u64 d) = d.
Proof.
  intros (ms & -> & Hms). unfold as_millis_u64, from_millis. rewrite Z.div_mul by done. unfold i64_max in *. by rewrite Z.mod_small by lia.
Qed.

Lemma spec_parts_no_comma i : spec_ok i → Forall (λ x, 44 ∉ x) (spec_parts_of i).
Proof.
  intros [[_ _ Hwait] Hdiff Hens Hspm [Hport Hprom]]. unfold u32_max, u8_max, u64_max in *. unfold spec_parts_of. repeat apply Forall_cons_2 || apply Forall_app_2.
  all: try apply opt_no_comma; try apply key_part_no_comma; try match goal with |- 44 ∉ codes _ => by apply (bool_decide_unpack _); vm_compute end; try done.
  all: try (intros; apply show_bool_no_comma); try (intros n Hn; apply digits_no_comma; unfold u64_max).
  - apply digits_no_comma. unfold u64_max. lia.
  - pose proof (proj1 (millis_range n (Hwait n Hn))). unfold i64_max in *. lia.
  - specialize (Hens n Hn). lia.
  - specialize (Hspm n Hn). lia.
Qed.

(** A specification that gives every setting of an instance is read back as that instance, whatever
    default difficulty the command line has. *)
Lemma spec_roundtrip i d : spec_ok i → parse_instance_spec (spec_of i) d = Ok i.
Proof.
  intros Hi. unfold parse_instance_spec, spec_of. rewrite split_join; [|done|by apply spec_parts_no_comma].
  destruct Hi as [[Hport Hprom Hwait] Hdiff Hens Hspm _]. destruct i as [port diff prom log wait ens vd spm vds clamp].
  unfold spec_parts_of. cbn [ic_stratum_port ic_min_share_diff ic_prom_port ic_log_to_file ic_block_wait_time ic_extranonce_size ic_var_diff ic_shares_per_min ic_var_diff_stats ic_pow2_clamp] in *.
  cbn [spec_parts].
  assert (key_ok "port" KPort) as (? & ? & ? & ?) by solve_key. assert (key_ok "diff" KDiff) as (? & ? & ? & ?) by solve_key.
  pose (mk := λ diff prom wait ens log vd spm vds clamp, {| ic_stratum_port := port; ic_min_share_diff := diff; ic_prom_port := prom; ic_log_to_file := log;
    ic_block_wait_time := wait; ic_extranonce_size := ens; ic_var_diff := vd; ic_shares_per_min := spm; ic_var_diff_stats := vds; ic_pow2_clamp := clamp |}).
  rewrite (spec_part_key "port" KPort port _ _ _ (mk 0 None None None None None None None None)); [|done|done|done|by apply normal_trimmed|by destruct Hport|done|].
  2: { cbn [set_key spec_start]. destruct Hport as [-> Hne]. by destruct port. }
  cbn [mbind result_bind]. destruct (digits_solid diff) as [Hdt Hdn]; [unfold u32_max, u64_max in *; lia|].
  rewrite (spec_part_key "diff" KDiff (u64_to_string diff) _ _ _ (mk diff None None None None None None None None)); [|done|done|done|done|done|done|].
  2: { unfold mk. cbn [set_key]. by rewrite number_printed. }
  cbn [mbind result_bind].
  rewrite (spec_opt "prom" KProm id (λ o, mk diff o None None None None None None None)) by first [solve_key|intros p Hp; destruct (Hprom p Hp) as [Hn Hne]; split; [split; [by apply normal_trimmed|done]|unfold mk, id; cbn [set_key]; rewrite Hn; by destruct p]].
  rewrite (spec_opt "wait" KWait _ (λ o, mk diff prom o None None None None None None)).
  rewrite (spec_opt "extranonce" KExtranonce _ (λ o, mk diff prom wait o None None None None None)).
  rewrite (spec_opt "log" KLog _ (λ o, mk diff prom wait ens o None None None None)).
  rewrite (spec_opt "var_diff" KVarDiff _ (λ o, mk diff prom wait ens log o None None None)).
  rewrite (spec_opt "shares_per_min" KSharesPerMin _ (λ o, mk diff prom wait ens log vd o None None)).
  rewrite (spec_opt "var_diff_stats" KVarDiffStats _ (λ o, mk diff prom wait ens log vd spm o None)).
  rewrite <- (app_nil_r (opt_part "pow2_clamp" show_bool clamp)), (spec_opt "pow2_clamp" KPow2Clamp _ (λ o, mk diff prom wait ens log vd spm vds o)).
  all: try solve_key; try (intros b _; split; [apply flag_solid|unfold mk; cbn [set_key]; by rewrite flag_printed]).
  - done.
  - intros n Hn. specialize (Hspm n Hn). split; [apply digits_solid; unfold u32_max, u64_max in *; lia|]. unfold mk. cbn [set_key]. by rewrite number_printed.
  - intros n Hn. specialize (Hens n Hn). split; [apply digits_solid; unfold u8_max, u64_max in *; lia|]. unfold mk. cbn [set_key]. by rewrite number_printed.
  - intros w Hw. destruct (millis_range w (Hwait w Hw)) as [Hr He]. split; [apply digits_solid; unfold i64_max, u64_max in *; lia|].
    unfold mk. cbn [set_key]. rewrite number_printed by (unfold i64_max, u64_max in *; lia). cbn [mbind result_bind]. by rewrite He.
Qed.

(** ** Examples *)

Definition with_specs (specs : list string) (port : option string) : Cli :=
  {| cl_config := None; cl_testnet := true; cl_node_mode := None; cl_appdir := None; cl_kaspad_args := []; cl_kaspad_address := Some (codes "n:1"); cl_block_wait_time := None;
     cl_print_stats := None; cl_log_to_file := None; cl_health_check_port := None; cl_web_dashboard_port := None; cl_var_diff := Some false; cl_shares_per_min := None;
     cl_var_diff_stats := None; cl_extranonce_size := None; cl_pow2_clamp := None; cl_coinbase_tag_suffix := None; cl_stratum_port := codes <$> port;
     cl_min_share_diff := Some 64; cl_prom_port := None; cl_instances := map codes specs; cl_instance_log_to_file := None; cl_instance_var_diff := None;
     cl_instance_shares_per_min := None; cl_instance_var_diff_stats := None; cl_instance_pow2_clamp := None |}.
Definition no_files : Files := λ _, None.
Definition started `{!YamlLib} (cli : Cli) : exec (result StartError (list (list Z * Z * bool))) :=
  r ← standalone_main no_files (None, None) None true cli;
  Ret (match r with Ok la => Ok (map (λ l, (il_stratum_port l, il_min_share_diff l, il_var_diff l)) (la_instances la)) | Err e => Err e end).

Example started_specs `{!YamlLib} : started (with_specs ["5555"; " port = 0.0.0.0:1 , diff=7,var_diff=Yes"]%string None) =
  Ret (Ok [(codes ":5555", 64, false); (codes "0.0.0.0:1", 7, true)]).
Proof. by vm_compute. Qed.
Example started_duplicate `{!YamlLib} : started (with_specs ["5555"; "port=:5555"]%string None) = Ret (Err (BadCli (DuplicatePort (codes ":5555")))).
Proof. by vm_compute. Qed.
Example started_mixed `{!YamlLib} : started (with_specs ["5555"]%string (Some "1"%string)) = Ret (Err (BadCli MixedFlags)).
Proof. by vm_compute. Qed.
(** A blank port on the command line replaces the configured one. *)
Example started_blank_port `{!YamlLib} : started (with_specs [] (Some " "%string)) = Ret (Ok [([], 64, false)]).
Proof. by vm_compute. Qed.

(** An instance whose server fails counts as completed: the process ends as if all went well. *)
Lemma instance_failures_hidden errors : join_instances (map (λ e, Returned (Err e)) errors) = true.
Proof. by induction errors. Qed.
